(* ===== verification/_CoqProject ===== *)
-Q . S2P
Prelude.v
GoStrings.v
GlobSpec.v
GoNet.v
AuditRules.v
AuditRulesProps.v
Policy.v
GoValue.v
RuleMatcher.v
Mapper.v
BridgeMatcher.v
Alerter.v
BridgeHub.v
BridgeProps.v
Spool.v
SpoolProps.v
PushQueue.v
Delivery.v
Baseline.v
BaselineProps.v
Recon.v
BaselineStore.v
Checker.v
Anomaly.v
AnomalyProps.v
Kafka.v
AnomalyRun.v
AuditEngine.v
AuditEngineProps.v
LogRecord.v
LogTail.v
LogTailLines.v
LogTailProps.v
LogTailLive.v
GoText.v
Posture.v
PostureProps.v
Violations.v
PostureRun.v
PostureRunProps.v
ClusterCtx.v
AuditInbox.v
AuditInboxProps.v
AuditForward.v
WatchRing.v
HubConsumer.v
HubConsumerProps.v
PodIndex.v
UiHub.v
HubPush.v
Accounts.v
Auth.v
AuthProps.v
GoPath.v
FsWatch.v
FsWatchProps.v
FsLayer.v
FsWatcher.v
LogCollect.v
AuditQuery.v
AuditQueryProps.v
AuditSilence.v
AuditStore.v
AuditRollup.v
AuditRollupRead.v
AuditRollupRun.v
AuditRollupProps.v
AuditSilenceProps.v
AuditUsers.v
AuditDemo.v
DeployAlerter.v
ScanImages.v
ScanPool.v
ScanDigest.v
ScanSchedule.v
BuildAlerter.v
Honey.v
HoneyProps.v
HoneyWatch.v
PodCache.v
