(* ===== verification/Prelude.v ===== *)
(** * Verification of the Wolfee-Watcher detection and delivery core

    Wolfee-Watcher watches a Kubernetes cluster at run time. Its Go services
    form several pipelines into a hub ([kvisior]) and share the way alerts
    leave:

    - Runtime events. Tracee reports system calls to [tracee-bridge]. The
      mapper turns them into events, the bridge's hub filters and
      de-duplicates them and hands them to Kafka, its alerter matches them
      against the runtime policies. The hub matches the encoded events again,
      from Kafka and as pushed. The anomaly service reads them from Kafka,
      learns what each deployment does, and reports deviations, scans and
      connections that a network policy should have blocked.
    - Kubernetes audit events. [sentry-audit] sends what the admission webhook
      sees and what it reads from the API server's log; a forwarder posts
      batches to an inbox of the hub, whose audit engine joins the two and
      applies the audit rules.
    - Files and cluster state. [forensic-watcher] reports what changed in the
      file systems of pods, the hub checks workloads for bad posture, the
      [sensor] alerts on them by itself, and [scanner-agent] scans the images
      that run and watches their digests.
    - Alerts. Services push alerts through a bounded queue with a fallback
      spool on disk; the hub delivers them to webhooks with retries.
    - Honeypots. [honey-operator] puts decoys into the cluster, follows their logs
      and sends what visitors do to the hub.
    - Console. The hub keeps users, groups, sessions and tokens, guards its
      HTTP routes with them, and streams events to browsers.

    ** Files

    Shared: Prelude (results, time, map order, generic lemmas), GoStrings
    (package strings, strconv, utf8), GlobSpec (meaning of wildcards), GoNet
    (package net), GoValue (decoded JSON), GoText (number formatting), Kafka
    (what a Kafka client promises, as a class), Violations (the table of
    violations of kvisior/internal/store), ClusterCtx (kvisior's cluster names).

    - AuditRules, AuditRulesProps: pkg/auditrules.
    - Policy: pkg/policy. RuleMatcher: kvisior/internal/rules.
    - Mapper, BridgeMatcher, Alerter, BridgeHub, BridgeProps:
      tracee-bridge/internal/mapper, events, matcher, alerter, hub.
    - Spool, SpoolProps: pkg/alerts/spool.go. PushQueue: pkg/alerts/queue.go.
      Delivery: pkg/alerts/delivery.go.
    - Baseline, BaselineProps, BaselineStore: anomaly/internal/baseline.
      Recon: anomaly/internal/recon. Checker: anomaly/internal/checker.
      Anomaly, AnomalyProps, AnomalyRun: anomaly/internal/consumer.
    - AuditEngine, AuditEngineProps: kvisior/internal/auditengine and the
      statements of kvisior/internal/store it runs. AuditInbox,
      AuditInboxProps: kvisior/internal/auditdelivery and
      store/auditinbox.go. AuditForward: sentry-audit/internal/webhook.
    - LogRecord, LogTail, LogTailLines, LogTailProps, LogTailLive:
      sentry-audit/internal/logtail (records, the reader, and its theorems on
      lines, on rotated files, on coverage and on progress).
    - Posture, PostureProps, PostureRun, PostureRunProps:
      kvisior/internal/posture and kvisior/posture.go.
    - WatchRing: kvisior/internal/watchring, podwatch, events.
      HubConsumer, HubConsumerProps: kvisior/internal/kafka. PodIndex:
      kvisior/internal/podindex. UiHub: kvisior/internal/hub. HubPush:
      kvisior/internal/push, grpcserver.
    - Accounts, Auth, AuthProps: kvisior/internal/accounts, auth, pkg/authz and
      the guards of kvisior/middleware.go and federation.go.
    - GoPath (path/filepath), FsWatch, FsWatchProps, FsLayer, FsWatcher:
      forensic-watcher/internal/fswatch (the scan of a layer and its entries,
      the paths of the layers, the map of watched containers) and the rows the
      hub keeps of them. LogCollect:
      forensic-watcher/internal/logcollect and the hub's log rows and cursors.
    - AuditQuery, AuditQueryProps (searches in windows and pages), AuditSilence,
      AuditStore, AuditSilenceProps (silences and the statements on the table of
      audit events), AuditRollup, AuditRollupRead, AuditRollupRun,
      AuditRollupProps (hourly counts, their readers and their upkeep under
      locks), AuditUsers (the users a search resolves to), AuditDemo (concrete
      runs): the files audit*.go of kvisior/internal/store and
      kvisior/auditapi.go.
    - DeployAlerter: sensor/internal/alerter.
    - ScanImages (listing of images), ScanPool (the queue and its workers), ScanDigest (baselines and the digest watcher), ScanSchedule
      (schedule and histories), BuildAlerter (alerts on images):
      scanner-agent/internal, its k8s, api and alerter.
    - Honey, HoneyProps (decoys, their registry and the requests), HoneyWatch
      (their logs): honey-operator/internal and kvisior's store/honeypots.go.
    - PodCache: tracee-bridge/internal/k8s and the enrichment of events.
    The state of a component is a record with the fields of the Go structure,
    an operation a function on it with the Go name. Maps are [gmap]s, or
    association lists where order or decoding matters; strings are byte
    strings; integers are [Z] with their width written out where the code can
    reach its limits. What the code gets from outside (a clock reading, the
    outcome of a database, network or file operation, the order of a map
    iteration, the alternative a select takes) is an argument, so that the
    theorems hold for every outcome. A database statement ends done, not done,
    or done although an error was reported ([ending]).

    ** What the theorems show

    In short; the comment of each theorem states the conditions under which it
    holds, and the runs beside it show what happens without them.

    - Audit rules: the wildcard matchers decide the declarative meaning of
      patterns; the matcher selects exactly the rules that apply; validation
      decides well-formedness and normalisation is idempotent; the client
      address cannot be forged through the hop chain.
    - Bridge: whatever the bridge matches the hub matches, path filters on
      system calls without a path apart; the filter and the dedup drop nothing
      a policy needs; tables and queues stay bounded.
    - Alert transport: a spooled record survives failures and crashes until it
      is delivered, and while the disk syncs the spool refines a queue; the
      push queue accounts for every item; delivery attempts are bounded and success is final.
    - Anomalies: what was learned stays quiet and survives a restart, through the
      text of its table's columns; scans are counted exactly although history is pruned; blocked verdicts are ones that
      policies with plain ports give; equal alerts are spaced.
    - Audit path: the log reader passes over no line of the files it can still
      read and catches up; a forwarded and an accepted batch stays until the
      engine has taken it; one row and one action per rule for each request
      whatever the order, repetition and interleaving of the sources; both
      reports join; thresholds count exactly.
    - Posture: the checks report exactly what their description says, and a
      violation keeps the time it was first seen.
    - Hub: the ring of a watched pod shows what an unbounded log would; what is
      committed to Kafka or acknowledged to a pusher is stored; lookups of pods
      and the replay of the console stream are exact.
    - Accounts: only administrators change them, a caller is one the store
      vouched for in the last five seconds, failed logins are limited, and the
      built-in administrator stays.
    - Forensics: the entries reported for a layer, replayed, give the layer as
      it was last scanned; what is read lies inside the layer's directory; the
      map of watches stays sound however starts, stops and polls interleave;
      no line of a container is lost between pushes, restarts and failures
      while the collector keeps up with its file.
    - Audit store: a search in windows and pages returns what one statement
      would; groups answered from hourly counts are those of the events under
      every interleaving the locks allow; a silenced event is listed under its
      silence and comes back when the silence is deleted.
    - Sensor: its deploy alerts are those of the hub's posture checks where both
      read a snapshot alike; a violation is alerted and not repeated within the
      interval.
    - Scanner: an image in the queue comes to a result that is stored and told;
      cycles of the digest watcher get to every image listed in a fixed order;
      a scheduled scan starts exactly when its time has come, and queues the
      images; the images listed are those of running and pending pods.
    - Honeypots: a request creates all objects and the record, or leaves of the
      objects what the API server did not delete or denied having made, and of
      the record what a hub took whose answer was lost; only own objects are
      deleted; a hit is sent once and none is lost while the log can be opened,
      streams catch up and lines fit in the scanner.
    - Pod identities: a pod an event is given is one the API server named or an
      event carried, and the API server is asked about a pod at most every five
      seconds.
    Some theorems state behaviour that is probably not wanted (named in the
    manifest's findings); they are proved of the code as it is.

    ** Bounds and fuel

    A [Time] counts nanoseconds from Go's zero time, the first day of year 1;
    [Unix] and [unixEpoch] are those of package time. Where a difference of
    times must not saturate, clock readings are between 1970 and 2116
    ([Prelude.horizon]), and their witnesses run on 1 January 2026.

    Recursions that are not structural carry fuel that is proved or chosen to
    be enough: compaction of the spool has one round per file
    ([Spool.compact_fuel]); cutting a string into fields has its length plus
    one; decimal formatting of an int64 has twenty digits; the forwarder and
    the log collector's chunks have one round per item; a search has one
    window per six hours and two more ([AuditQuery.windows_fuel]); a digest
    cycle has one round per image, the weekly schedule the eight days of its
    loop. Retry loops have the number of attempts of the code.
    Loops that run until shutdown are given the list of what happens to them
    (the moments of the log reader, the fates of the attempts of a write): the
    end of the list is the shutdown, and theorems hold for every list.

    ** Parameters

    Unicode case tables beyond ASCII ([CaseTables]), the shortest decimal text
    of a float ([FloatText]), the order of a map iteration ([MapOrder]), the
    parser of RFC 3339 times, the Kafka client, label selectors of the
    Kubernetes client, JSON decoders and encoders (with a round trip as a law
    where rows are written and read again, [BaselineJSON]), SHA-256, HMAC and
    bcrypt, whether a text is valid JSON and an address makes a request,
    the walk of a directory, what lstat says, the database's rounding of times
    ([DbTime]), its collation ([Collation]) and its ILIKE, regular expressions
    ([Regexp]), whether a quantity's text means zero ([Quantities]), the UIDs of the
    API server ([Uids]) and the decoder and layouts of honeypot lines ([HoneyLib]) are
    arguments or classes; nothing is assumed of them beyond what their
    documentation says and a theorem names.

    ** Not modelled

    Generated protocol code, start-up code, TLS and certificate handling,
    database migrations, the browser console, calls of the Kubernetes client
    beyond the documented effect of those the decoys need, scores and rates in
    floating point, the protocol listeners of the honeypots,
    handlers that only pass a body to one statement, and the SQL of the store
    beyond the statements of the modelled parts: they call libraries or
    services whose behaviour is not in the repository. PROJECT.json lists every
    part with its reason. *)

From stdpp Require Import base list gmap strings.

(** ** Scopes and notation *)

Declare Scope go_scope.
Delimit Scope go_scope with go.

(** String equality as the code tests it ([==] on Go strings). *)
Notation "a == b" := (String.eqb a b) (at level 70, no associativity) : go_scope.
Notation "a != b" := (negb (String.eqb a b)) (at level 70, no associativity) : go_scope.

(** Early return with an error: [err] is the Go error text. *)
Inductive result (A : Type) : Type :=
| Ok (a : A)
| Err (msg : string).
Arguments Ok {A} a.
Arguments Err {A} msg.

Definition rbind {A B} (r : result A) (k : A → result B) : result B :=
  match r with Ok a => k a | Err m => Err m end.

Notation "'try' x ':=' r 'in' k" := (rbind r (λ x, k))
  (at level 10, x name, r at level 100, k at level 200) : go_scope.

Definition is_ok {A} (r : result A) : bool :=
  match r with Ok _ => true | Err _ => false end.

(** How a statement of a database, or a request to another process, ends: done,
    not done, or done and reported as failed. *)
Inductive ending := Done | NotDone | DoneUnheard.
Definition applied (o : ending) : bool := match o with NotDone => false | _ => true end.
Definition heard (o : ending) : bool := match o with Done => true | _ => false end.

(** ** Time

    [time.Time] is the number of nanoseconds since Go's zero time, so that
    [IsZero] is [= 0]; [time.Duration] is a signed 64-bit nanosecond count. *)
Definition Time := Z.
Definition Duration := Z.

Definition Second : Duration := 1000000000%Z.
Definition Minute : Duration := (60 * Second)%Z.
Definition Hour : Duration := (60 * Minute)%Z.

Definition IsZero (t : Time) : bool := (t =? 0)%Z.
Definition Before (a b : Time) : bool := (a <? b)%Z.
Definition After (a b : Time) : bool := (b <? a)%Z.
Definition TAdd (t : Time) (d : Duration) : Time := (t + d)%Z.

Definition maxInt64 : Z := (2 ^ 63 - 1)%Z.
Definition minInt64 : Z := (- 2 ^ 63)%Z.

(** [t.Sub(u)] saturates at the bounds of [Duration]. *)
Definition TSub (t u : Time) : Duration :=
  Z.max minInt64 (Z.min maxInt64 (t - u)).

(** Midnight of 1 January 1970, the origin of [Unix], [UnixMilli], [UnixMicro]
    and [UnixNano]. *)
Definition unixEpoch : Time := (62135596800 * Second)%Z.

Lemma epoch_pos : (0 < unixEpoch)%Z.
Proof. done. Qed.

(** [t.Unix()]: whole seconds since the epoch, rounded down. *)
Definition Unix (t : Time) : Z := ((t - unixEpoch) / Second)%Z.

(** Theorems that speak of differences of clock readings take readings from
    1970 until the year 2116: such differences do not saturate. *)
Definition horizon : Time := (unixEpoch + 2 ^ 62)%Z.

Lemma TSub_exact t u : (unixEpoch ≤ t < horizon → unixEpoch ≤ u < horizon → TSub t u = t - u)%Z.
Proof. unfold TSub, horizon, minInt64, maxInt64. lia. Qed.

(** A clock reading for examples: the start of 2026. *)
Definition newYear : Time := (unixEpoch + 1767225600 * Second)%Z.

Lemma clock_in_range d : (0 ≤ d < 2 ^ 61)%Z → (unixEpoch ≤ newYear + d < horizon)%Z.
Proof. unfold newYear, horizon, Second. lia. Qed.

(** ** Iteration over a Go map

    [for k, v := range m] visits the entries of [m] in an order the language
    leaves open. Definitions that range over a map take the order from this
    class; theorems about them hold for every order. *)
Class MapOrder := {
  map_order : ∀ {A : Type}, list A → list A;
  map_order_perm : ∀ {A : Type} (l : list A), map_order l ≡ₚ l;
}.

Definition keep_order : MapOrder :=
  {| map_order A l := l; map_order_perm A l := Permutation_refl l |}.

(** ** Tactics *)

(** Split every boolean conjunction, disjunction and comparison of the
    context into the proposition it decides. *)
Ltac bool_hyps :=
  repeat match goal with
  | H : andb _ _ = true |- _ => apply andb_true_iff in H; destruct H
  | H : orb _ _ = true |- _ => apply orb_true_iff in H
  | H : orb _ _ = false |- _ => apply orb_false_iff in H; destruct H
  | H : andb _ _ = false |- _ => apply andb_false_iff in H
  | H : negb _ = true |- _ => apply negb_true_iff in H
  | H : negb _ = false |- _ => apply negb_false_iff in H
  | H : String.eqb _ _ = true |- _ => apply String.eqb_eq in H
  | H : String.eqb _ _ = false |- _ => apply String.eqb_neq in H
  | H : Z.ltb _ _ = true |- _ => apply Z.ltb_lt in H
  | H : Z.ltb _ _ = false |- _ => apply Z.ltb_ge in H
  | H : Z.leb _ _ = true |- _ => apply Z.leb_le in H
  | H : Z.leb _ _ = false |- _ => apply Z.leb_gt in H
  | H : Z.eqb _ _ = true |- _ => apply Z.eqb_eq in H
  | H : Z.eqb _ _ = false |- _ => apply Z.eqb_neq in H
  | H : Nat.ltb _ _ = true |- _ => apply Nat.ltb_lt in H
  | H : Nat.ltb _ _ = false |- _ => apply Nat.ltb_ge in H
  | H : Nat.leb _ _ = true |- _ => apply Nat.leb_le in H
  | H : Nat.leb _ _ = false |- _ => apply Nat.leb_gt in H
  | H : Nat.eqb _ _ = true |- _ => apply Nat.eqb_eq in H
  | H : Nat.eqb _ _ = false |- _ => apply Nat.eqb_neq in H
  end.

(** Case on the condition of the first [if] (of the goal, else of a
    hypothesis) and normalise the boolean facts this gives. *)
Ltac case_if :=
  match goal with
  | |- context [if ?b then _ else _] => destruct b eqn:?
  | H : context [if ?b then _ else _] |- _ => destruct b eqn:?
  end; bool_hyps.

(** ** Generic lemmas on lists *)

(** Go's [append(a, x)]. *)
Definition snoc {A} (l : list A) (x : A) : list A := l ++ [x].

Definition any {A} (f : A → bool) (l : list A) : bool := existsb f l.

Lemma any_true {A} (f : A → bool) l : any f l = true ↔ ∃ x, x ∈ l ∧ f x = true.
Proof.
  unfold any. rewrite existsb_exists.
  split; intros (x & Hx & Hf); exists x; split; auto; by apply list_elem_of_In.
Qed.

Lemma any_false {A} (f : A → bool) l : any f l = false ↔ ∀ x, x ∈ l → f x = false.
Proof.
  split.
  - intros H x Hx. destruct (f x) eqn:E; [|done].
    assert (any f l = true) as Ht by (apply any_true; eauto). congruence.
  - intros H. destruct (any f l) eqn:E; [|done].
    apply any_true in E as (x & Hx & Hf). rewrite (H x Hx) in Hf. done.
Qed.

(** The last element satisfying [f], searching from the end. *)
Fixpoint find_last {A} (f : A → bool) (l : list A) : option A :=
  match l with
  | [] => None
  | x :: l' => match find_last f l' with
               | Some y => Some y
               | None => if f x then Some x else None
               end
  end.

Lemma find_last_app {A} (f : A → bool) l1 l2 :
  find_last f (l1 ++ l2) =
    match find_last f l2 with Some y => Some y | None => find_last f l1 end.
Proof.
  induction l1 as [|x l1 IH]; simpl; [by destruct (find_last f l2)|].
  rewrite IH. by destruct (find_last f l2).
Qed.

Lemma find_last_None {A} (f : A → bool) l :
  find_last f l = None ↔ Forall (λ y, f y = false) l.
Proof.
  induction l as [|x l IH]; simpl; [split; auto; constructor|].
  rewrite Forall_cons, <-IH. destruct (find_last f l), (f x); intuition congruence.
Qed.

Lemma find_last_Some {A} (f : A → bool) l x :
  find_last f l = Some x ↔
  ∃ l1 l2, l = l1 ++ x :: l2 ∧ f x = true ∧ Forall (λ y, f y = false) l2.
Proof.
  split.
  - induction l as [|a l IH]; simpl; [done|].
    destruct (find_last f l) as [y|] eqn:E.
    + intros [= ->]. destruct (IH eq_refl) as (l1 & l2 & -> & ? & ?).
      by exists (a :: l1), l2.
    + destruct (f a) eqn:Ea; intros [= <-].
      exists [], l. split_and!; auto. by apply find_last_None.
  - intros (l1 & l2 & -> & Hx & Hall). rewrite find_last_app. simpl.
    apply find_last_None in Hall. by rewrite Hall, Hx.
Qed.

Lemma filter_perm {A} (f : A → bool) l l' : l ≡ₚ l' → List.filter f l ≡ₚ List.filter f l'.
Proof. induction 1; simpl; repeat case_match; eauto using Permutation. Qed.

Lemma find_None {A} (f : A → bool) l :
  List.find f l = None ↔ Forall (λ x, f x = false) l.
Proof.
  induction l as [|x l IH]; simpl; [split; auto|].
  rewrite Forall_cons, <-IH. destruct (f x); intuition congruence.
Qed.
