(* ===== verification/GoStrings.v ===== *)
(** * Go strings

    A Go string is a byte sequence; here it is Rocq's [string], one [ascii]
    per byte, so that literals (UTF-8 in both languages) mean the same bytes.
    This file models the functions of Go's [strings], [strconv] and
    [unicode/utf8] packages the modelled code calls, and proves the lemmas the
    components share: prefix, suffix and substring search against string
    concatenation, splitting and joining, trimming, and case mapping. *)

From Stdlib Require Import Ascii.
From stdpp Require Import base list strings.
From S2P Require Import Prelude.
Local Open Scope string_scope.
Local Open Scope list_scope.
Local Open Scope go_scope.

#[global] Arguments String.append !_ _ / : simpl nomatch.

(** ** Slicing: [s[n:]] and [s[:n]] *)

Fixpoint sdrop (n : nat) (s : string) : string :=
  match n, s with
  | O, _ => s
  | S n', String _ s' => sdrop n' s'
  | S _, EmptyString => ""
  end.

Fixpoint stake (n : nat) (s : string) : string :=
  match n, s with
  | S n', String c s' => String c (stake n' s')
  | _, _ => ""
  end.

Fixpoint srev_app (s acc : string) : string :=
  match s with
  | EmptyString => acc
  | String c s' => srev_app s' (String c acc)
  end.
Definition srev (s : string) : string := srev_app s "".

(** ** Prefix, suffix and substring search *)

Fixpoint HasPrefix (s p : string) {struct p} : bool :=
  match p, s with
  | EmptyString, _ => true
  | String a p', String b s' => Ascii.eqb a b && HasPrefix s' p'
  | String _ _, EmptyString => false
  end.

Definition HasSuffix (s p : string) : bool :=
  (String.length p <=? String.length s)%nat
  && (sdrop (String.length s - String.length p) s == p).

(** [strings.Index]: [None] stands for -1. *)
Fixpoint Index (s p : string) : option nat :=
  if HasPrefix s p then Some O
  else match s with
       | EmptyString => None
       | String _ s' => S <$> Index s' p
       end.

Definition Contains (s p : string) : bool :=
  match Index s p with Some _ => true | None => false end.

(** [strings.LastIndex] and [LastIndexByte] with a one-byte separator. *)
Fixpoint LastIndexByte (s : string) (c : ascii) : option nat :=
  match s with
  | EmptyString => None
  | String a s' => match LastIndexByte s' c with
                   | Some i => Some (S i)
                   | None => if Ascii.eqb a c then Some O else None
                   end
  end.

Fixpoint IndexByte (s : string) (c : ascii) : option nat :=
  match s with
  | EmptyString => None
  | String a s' => if Ascii.eqb a c then Some O else S <$> IndexByte s' c
  end.

Fixpoint CountByte (s : string) (c : ascii) : nat :=
  match s with
  | EmptyString => 0
  | String a s' => (if Ascii.eqb a c then 1 else 0) + CountByte s' c
  end.

Definition TrimSuffix (s p : string) : string :=
  if HasSuffix s p then stake (String.length s - String.length p) s else s.

(** [strings.Cut(s, sep)] with a one-byte separator. *)
Definition Cut (s : string) (c : ascii) : string * string * bool :=
  match IndexByte s c with
  | Some i => (stake i s, sdrop (S i) s, true)
  | None => (s, "", false)
  end.

(** ** Splitting and joining *)

(** [strings.Split] with a one-byte separator: never the empty list. *)
Fixpoint Split (s : string) (c : ascii) : list string :=
  match s with
  | EmptyString => [""]
  | String a s' =>
      if Ascii.eqb a c then "" :: Split s' c
      else match Split s' c with
           | p :: ps => String a p :: ps
           | [] => [String a ""]
           end
  end.

Fixpoint Join (ps : list string) (sep : string) : string :=
  match ps with
  | [] => ""
  | [p] => p
  | p :: ps' => p +:+ sep +:+ Join ps' sep
  end.

(** [strings.ReplaceAll(s, c, r)] for a one-byte [c]. *)
Fixpoint ReplaceByte (s : string) (c : ascii) (r : string) : string :=
  match s with
  | EmptyString => ""
  | String a s' => if Ascii.eqb a c then r +:+ ReplaceByte s' c r
                   else String a (ReplaceByte s' c r)
  end.

(** ** UTF-8 *)

Definition byte_of (a : ascii) : Z := Z.of_N (Ascii.N_of_ascii a).
Definition ascii_of (z : Z) : ascii := Ascii.ascii_of_N (Z.to_N z).

Definition RuneError : Z := 65533.

Definition is_cont (b : Z) : bool := (128 <=? b)%Z && (b <=? 191)%Z.

(** The second-byte ranges of Go's decoder: they reject overlong forms,
    surrogates and values above U+10FFFF. *)
Definition second_ok (b0 b1 : Z) : bool :=
  let lo := (if b0 =? 224 then 160 else if b0 =? 240 then 144 else 128)%Z in
  let hi := (if b0 =? 237 then 159 else if b0 =? 244 then 143 else 191)%Z in
  ((lo <=? b1) && (b1 <=? hi))%Z.

(** The runes of [for _, r := range s]: an invalid byte gives U+FFFD and
    advances one byte. *)
Fixpoint runes (s : string) : list Z :=
  match s with
  | EmptyString => []
  | String a0 s1 =>
      let b0 := byte_of a0 in
      if (b0 <? 128)%Z then b0 :: runes s1
      else match s1 with
      | EmptyString => [RuneError]
      | String a1 s2 =>
        let b1 := byte_of a1 in
        if ((194 <=? b0) && (b0 <=? 223) && is_cont b1)%Z
        then ((b0 - 192) * 64 + (b1 - 128))%Z :: runes s2
        else match s2 with
        | EmptyString => RuneError :: runes s1
        | String a2 s3 =>
          let b2 := byte_of a2 in
          if ((224 <=? b0) && (b0 <=? 239) && second_ok b0 b1 && is_cont b2)%Z
          then ((b0 - 224) * 4096 + (b1 - 128) * 64 + (b2 - 128))%Z :: runes s3
          else match s3 with
          | EmptyString => RuneError :: runes s1
          | String a3 s4 =>
            let b3 := byte_of a3 in
            if ((240 <=? b0) && (b0 <=? 244) && second_ok b0 b1 && is_cont b2 && is_cont b3)%Z
            then ((b0 - 240) * 262144 + (b1 - 128) * 4096 + (b2 - 128) * 64 + (b3 - 128))%Z :: runes s4
            else RuneError :: runes s1
          end
        end
      end
  end.

(** [utf8.EncodeRune]; a value that is no rune is encoded as U+FFFD. *)
Definition encode_rune (r0 : Z) : string :=
  let r := (if (r0 <? 0) || (1114111 <? r0) || ((55296 <=? r0) && (r0 <=? 57343))
            then RuneError else r0)%Z in
  if (r <? 128)%Z then String (ascii_of r) ""
  else if (r <? 2048)%Z then
    String (ascii_of (192 + r / 64)) (String (ascii_of (128 + r mod 64)) "")
  else if (r <? 65536)%Z then
    String (ascii_of (224 + r / 4096))
      (String (ascii_of (128 + r / 64 mod 64)) (String (ascii_of (128 + r mod 64)) ""))
  else
    String (ascii_of (240 + r / 262144))
      (String (ascii_of (128 + r / 4096 mod 64))
        (String (ascii_of (128 + r / 64 mod 64)) (String (ascii_of (128 + r mod 64)) ""))).

Fixpoint encode_runes (rs : list Z) : string :=
  match rs with [] => "" | r :: rs' => encode_rune r +:+ encode_runes rs' end.

(** [utf8.ValidString]. *)
Fixpoint ValidString (s : string) : bool :=
  match s with
  | EmptyString => true
  | String a0 s1 =>
      let b0 := byte_of a0 in
      if (b0 <? 128)%Z then ValidString s1
      else match s1 with
      | EmptyString => false
      | String a1 s2 =>
        let b1 := byte_of a1 in
        if ((194 <=? b0) && (b0 <=? 223) && is_cont b1)%Z then ValidString s2
        else match s2 with
        | EmptyString => false
        | String a2 s3 =>
          let b2 := byte_of a2 in
          if ((224 <=? b0) && (b0 <=? 239) && second_ok b0 b1 && is_cont b2)%Z then ValidString s3
          else match s3 with
          | EmptyString => false
          | String a3 s4 =>
            let b3 := byte_of a3 in
            if ((240 <=? b0) && (b0 <=? 244) && second_ok b0 b1 && is_cont b2 && is_cont b3)%Z then ValidString s4
            else false
          end
        end
      end
  end.

Fixpoint is_ascii (s : string) : bool :=
  match s with
  | EmptyString => true
  | String a s' => (byte_of a <? 128)%Z && is_ascii s'
  end.

Lemma ascii_valid s : is_ascii s = true → ValidString s = true.
Proof. induction s as [|a s IH]; [done|]. cbn [is_ascii ValidString]. intros [Ha Hs]%andb_prop. rewrite Ha. auto. Qed.

(** ** Case mapping

    [strings.ToLower] and [ToUpper] map ASCII strings bytewise and every other
    string rune by rune with the Unicode tables, which are a parameter: no
    theorem depends on their entries. *)
Class CaseTables := {
  unicode_ToLower : Z → Z;
  unicode_ToUpper : Z → Z;
}.

Definition lower_byte (a : ascii) : ascii :=
  let b := byte_of a in
  if ((65 <=? b) && (b <=? 90))%Z then ascii_of (b + 32) else a.
Definition upper_byte (a : ascii) : ascii :=
  let b := byte_of a in
  if ((97 <=? b) && (b <=? 122))%Z then ascii_of (b - 32) else a.

Fixpoint smap (f : ascii → ascii) (s : string) : string :=
  match s with
  | EmptyString => ""
  | String a s' => String (f a) (smap f s')
  end.

Definition ToLower {T : CaseTables} (s : string) : string :=
  if is_ascii s then smap lower_byte s
  else encode_runes (map unicode_ToLower (runes s)).
Definition ToUpper {T : CaseTables} (s : string) : string :=
  if is_ascii s then smap upper_byte s
  else encode_runes (map unicode_ToUpper (runes s)).

(** Tables that map only ASCII letters, for evaluation on concrete inputs. *)
Definition ascii_tables : CaseTables := {|
  unicode_ToLower r := (if (65 <=? r) && (r <=? 90) then r + 32 else r)%Z;
  unicode_ToUpper r := (if (97 <=? r) && (r <=? 122) then r - 32 else r)%Z;
|}.

(** ** Trimming white space

    [strings.TrimSpace] removes the runes of [unicode.IsSpace] from both ends.
    Those runes have one-, two- and three-byte encodings; UTF-8 is
    self-synchronising, so decoding at an end of the string finds such a rune
    exactly when the bytes at that end are its encoding. *)
Definition space1 (a : ascii) : bool :=
  let b := byte_of a in ((9 <=? b) && (b <=? 13) || (b =? 32))%Z.
Definition space2 (a b : ascii) : bool :=
  ((byte_of a =? 194) && ((byte_of b =? 133) || (byte_of b =? 160)))%Z.
Definition space3 (a b c : ascii) : bool :=
  let x := byte_of a in let y := byte_of b in let z := byte_of c in
  ((x =? 225) && (y =? 154) && (z =? 128)
   || (x =? 226) && (y =? 128)
      && ((128 <=? z) && (z <=? 138) || (z =? 168) || (z =? 169) || (z =? 175))
   || (x =? 226) && (y =? 129) && (z =? 159)
   || (x =? 227) && (y =? 128) && (z =? 128))%Z.

Fixpoint trim_left (s : string) : string :=
  match s with
  | EmptyString => ""
  | String a s1 =>
      if space1 a then trim_left s1
      else match s1 with
      | EmptyString => s
      | String b s2 =>
        if space2 a b then trim_left s2
        else match s2 with
        | EmptyString => s
        | String c s3 => if space3 a b c then trim_left s3 else s
        end
      end
  end.

(** [trim_left] for a reversed string. *)
Fixpoint trim_left_rev (s : string) : string :=
  match s with
  | EmptyString => ""
  | String a s1 =>
      if space1 a then trim_left_rev s1
      else match s1 with
      | EmptyString => s
      | String b s2 =>
        if space2 b a then trim_left_rev s2
        else match s2 with
        | EmptyString => s
        | String c s3 => if space3 c b a then trim_left_rev s3 else s
        end
      end
  end.

Definition trim_right (s : string) : string := srev (trim_left_rev (srev s)).
Definition TrimSpace (s : string) : string := trim_right (trim_left s).

(** ** Numbers in text *)

Definition is_digit (a : ascii) : bool := ((48 <=? byte_of a) && (byte_of a <=? 57))%Z.

Fixpoint digits_value (acc : Z) (s : string) : option Z :=
  match s with
  | EmptyString => Some acc
  | String a s' =>
      if is_digit a then digits_value (acc * 10 + (byte_of a - 48))%Z s' else None
  end.

(** [strconv.ParseUint(s, 10, bits)]; [None] is any error (syntax or range). *)
Definition ParseUint (s : string) (bits : Z) : option Z :=
  if s == "" then None
  else match digits_value 0 s with
       | Some v => if (v <? 2 ^ bits)%Z then Some v else None
       | None => None
       end.

(** Decimal rendering of a machine integer ([%d]). *)
Fixpoint uint_digits (fuel : nat) (z : Z) (acc : string) : string :=
  match fuel with
  | O => acc
  | S f => let acc' := String (ascii_of (48 + z mod 10)) acc in
           if (z <? 10)%Z then acc' else uint_digits f (z / 10) acc'
  end.

(** Twenty digits are enough for every 64-bit value. *)
Definition FormatInt (z : Z) : string :=
  if (z <? 0)%Z then "-" +:+ uint_digits 20 (- z) "" else uint_digits 20 z "".

(** ** Lemmas: concatenation and slicing *)

Lemma app_nil_r_s s : s +:+ "" = s.
Proof. induction s as [|c s IH]; simpl; congruence. Qed.

Lemma app_assoc_s s t u : (s +:+ t) +:+ u = s +:+ (t +:+ u).
Proof. induction s as [|c s IH]; simpl; congruence. Qed.

Lemma app_cons_s c s t : String c s +:+ t = String c (s +:+ t).
Proof. done. Qed.

Lemma length_app_s s t : String.length (s +:+ t) = (String.length s + String.length t)%nat.
Proof. induction s as [|c s IH]; simpl; congruence. Qed.

Lemma app_inj_l s t u : s +:+ t = s +:+ u → t = u.
Proof. induction s as [|c s IH]; simpl; [done|]. intros [= H]. auto. Qed.

Lemma sdrop_app s t : sdrop (String.length s) (s +:+ t) = t.
Proof. induction s as [|c s IH]; simpl; auto. Qed.

Lemma stake_app s t : stake (String.length s) (s +:+ t) = s.
Proof. induction s as [|c s IH]; simpl; [by destruct t|]. by rewrite IH. Qed.

Lemma stake_sdrop n s : stake n s +:+ sdrop n s = s.
Proof.
  revert s. induction n as [|n IH]; intros [|c s]; simpl; auto. by rewrite IH.
Qed.

Lemma length_stake n s : (n ≤ String.length s)%nat → String.length (stake n s) = n.
Proof.
  revert s. induction n as [|n IH]; intros [|c s]; simpl; intros; try lia.
  rewrite IH; lia.
Qed.

Lemma length_sdrop n s : String.length (sdrop n s) = (String.length s - n)%nat.
Proof. revert s. induction n as [|n IH]; intros [|c s]; simpl; auto. Qed.

(** Two splittings of one string differ by a string between their cuts. *)
Lemma stake_add n m s : stake (n + m) s = stake n s +:+ stake m (sdrop n s).
Proof.
  revert s. induction n as [|n IH]; intros s; simpl; [done|].
  destruct s as [|a s]; simpl; [by destruct m|]. by rewrite IH.
Qed.

Lemma sdrop_add n m s : sdrop (n + m) s = sdrop m (sdrop n s).
Proof. revert s. induction n as [|n IH]; intros s; simpl; [done|]. destruct s; simpl; [by destruct m|]. by rewrite IH. Qed.

Lemma stake_app_le n s t : (n ≤ String.length s)%nat → stake n (s +:+ t) = stake n s.
Proof.
  revert s. induction n as [|n IH]; intros s H; [by destruct s, t|]. destruct s as [|a s]; simpl in *; [lia|].
  f_equal. apply IH. lia.
Qed.

Lemma sdrop_all n s : (String.length s ≤ n)%nat → sdrop n s = "".
Proof. revert s. induction n as [|n IH]; intros [|a s] H; simpl in *; try done; try lia. apply IH. lia. Qed.

Lemma app_split_le a b c d :
  a +:+ b = c +:+ d → (String.length a ≤ String.length c)%nat →
  ∃ m, c = a +:+ m ∧ b = m +:+ d.
Proof.
  revert c. induction a as [|x a IH]; intros c H Hlen; simpl in *; [by exists c|].
  destruct c as [|y c]; simpl in *; [lia|]. injection H as -> H.
  destruct (IH c H) as (m & -> & ->); [lia|]. by exists m.
Qed.

(** ** Lemmas: search *)

Lemma HasPrefix_spec s p : HasPrefix s p = true ↔ ∃ t, s = p +:+ t.
Proof.
  revert s. induction p as [|a p IH]; intros s; simpl.
  - split; [by exists s|done].
  - destruct s as [|b s]; simpl; [split; [done|by intros [t ?]]|].
    rewrite andb_true_iff, Ascii.eqb_eq, IH. split.
    + intros [-> [t ->]]. by exists t.
    + intros [t [= -> ->]]. eauto.
Qed.

Lemma HasPrefix_app p t : HasPrefix (p +:+ t) p = true.
Proof. apply HasPrefix_spec. eauto. Qed.

Lemma HasSuffix_spec s p : HasSuffix s p = true ↔ ∃ t, s = t +:+ p.
Proof.
  unfold HasSuffix. rewrite andb_true_iff, Nat.leb_le, String.eqb_eq. split.
  - intros [Hlen Heq]. exists (stake (String.length s - String.length p) s).
    rewrite <-Heq at 2. by rewrite stake_sdrop.
  - intros [t ->]. rewrite length_app_s. split; [lia|].
    replace (String.length t + String.length p - String.length p)%nat with (String.length t) by lia.
    apply sdrop_app.
Qed.

Lemma Index_None s p : Index s p = None ↔ ∀ a b, s ≠ a +:+ p +:+ b.
Proof.
  induction s as [|c s IH]; simpl.
  - destruct (HasPrefix "" p) eqn:E.
    + split; [done|]. apply HasPrefix_spec in E as [t Ht]. intros H. by destruct (H "" t).
    + split; [|done]. intros _ [|x a] b H; [|done].
      assert (HasPrefix "" p = true) by (apply HasPrefix_spec; eauto). congruence.
  - destruct (HasPrefix (String c s) p) eqn:E.
    + split; [done|]. apply HasPrefix_spec in E as [t Ht]. intros H. by destruct (H "" t).
    + rewrite fmap_None, IH. split.
      * intros H [|x a] b Heq; simpl in Heq.
        -- assert (HasPrefix (String c s) p = true) by (apply HasPrefix_spec; eauto). congruence.
        -- injection Heq as -> Heq. by apply (H a b).
      * intros H a b ->. by apply (H (String c a) b).
Qed.

(** [Index] finds the leftmost occurrence. *)
Lemma Index_Some s p i :
  Index s p = Some i ↔
  (∃ a b, s = a +:+ p +:+ b ∧ String.length a = i) ∧
  (∀ a b, s = a +:+ p +:+ b → i ≤ String.length a)%nat.
Proof.
  revert i. induction s as [|c s IH]; intros i; simpl.
  - destruct (HasPrefix "" p) eqn:E.
    + apply HasPrefix_spec in E as [t Ht]. split.
      * intros [= <-]. split; [|intros; lia]. exists "", t. done.
      * intros [_ H]. specialize (H "" t Ht). simpl in H. f_equal. lia.
    + split; [done|]. intros [([|x a] & b & H & _) _]; [|done].
      assert (HasPrefix "" p = true) by (apply HasPrefix_spec; eauto). congruence.
  - destruct (HasPrefix (String c s) p) eqn:E.
    + apply HasPrefix_spec in E as [t Ht]. split.
      * intros [= <-]. split; [|intros; lia]. by exists "", t.
      * intros [_ H]. specialize (H "" t Ht). simpl in H. f_equal. lia.
    + assert (∀ b, String c s ≠ p +:+ b) as Hne.
      { intros b Hb. assert (HasPrefix (String c s) p = true) by (apply HasPrefix_spec; eauto). congruence. }
      split.
      * rewrite fmap_Some. intros (j & Hj & ->). apply IH in Hj as [(a & b & -> & <-) Hmin].
        split; [by exists (String c a), b|].
        intros [|x a'] b' Heq; simpl in Heq; [by destruct (Hne b')|].
        injection Heq as <- Heq. simpl. specialize (Hmin a' b' Heq). lia.
      * intros [([|x a] & b & Heq & <-) Hmin]; simpl in Heq; [by destruct (Hne b)|].
        injection Heq as <- ->. apply fmap_Some. exists (String.length a). split; [|done].
        apply IH. split; [by exists a, b|]. intros a' b' Heq.
        specialize (Hmin (String c a') b'). simpl in Hmin.
        assert (S (String.length a) ≤ S (String.length a'))%nat by (apply Hmin; by rewrite Heq). lia.
Qed.

Lemma Contains_spec s p : Contains s p = true ↔ ∃ a b, s = a +:+ p +:+ b.
Proof.
  unfold Contains. destruct (Index s p) as [i|] eqn:E.
  - apply Index_Some in E as [(a & b & ? & _) _]. split; eauto.
  - split; [done|]. intros (a & b & H). by destruct (proj1 (Index_None s p) E a b).
Qed.

Lemma Contains_empty s : Contains s "" = true.
Proof. apply Contains_spec. by exists "", s. Qed.

Create HintDb gostr discriminated.
Create Rewrite HintDb gostr.
#[export] Hint Resolve HasPrefix_app Contains_empty : gostr.
#[export] Hint Rewrite app_nil_r_s app_assoc_s app_cons_s length_app_s sdrop_app stake_app : gostr.

(** ** Lemmas: reversal *)

Lemma srev_app_acc s acc : srev_app s acc = srev s +:+ acc.
Proof.
  unfold srev. revert acc. induction s as [|c s IH]; intros acc; [done|].
  cbn [srev_app]. rewrite (IH (String c acc)), (IH (String c "")), app_assoc_s. done.
Qed.

Lemma srev_cons c s : srev (String c s) = srev s +:+ String c "".
Proof. unfold srev at 1. cbn [srev_app]. apply srev_app_acc. Qed.

Lemma srev_app_distr s t : srev (s +:+ t) = srev t +:+ srev s.
Proof.
  induction s as [|c s IH]; [by rewrite app_nil_r_s|].
  rewrite app_cons_s, !srev_cons, IH. apply app_assoc_s.
Qed.

Lemma srev_involutive s : srev (srev s) = s.
Proof. induction s as [|c s IH]; [done|]. rewrite srev_cons, srev_app_distr, IH. done. Qed.

(** ** Lemmas: trimming *)

(** One white-space rune off the front. *)
Definition strip (s : string) : option string :=
  match s with
  | String a s1 =>
      if space1 a then Some s1
      else match s1 with
      | String b s2 =>
          if space2 a b then Some s2
          else match s2 with
               | String c s3 => if space3 a b c then Some s3 else None
               | EmptyString => None
               end
      | EmptyString => None
      end
  | EmptyString => None
  end.

Definition strip_rev (s : string) : option string :=
  match s with
  | String a s1 =>
      if space1 a then Some s1
      else match s1 with
      | String b s2 =>
          if space2 b a then Some s2
          else match s2 with
               | String c s3 => if space3 c b a then Some s3 else None
               | EmptyString => None
               end
      | EmptyString => None
      end
  | EmptyString => None
  end.

Ltac strip_cases s :=
  destruct s as [|?a [|?b [|?c s]]]; simpl;
  repeat match goal with |- context [if ?x then _ else _] => destruct x eqn:? end.

Lemma trim_left_strip s :
  trim_left s = match strip s with Some t => trim_left t | None => s end.
Proof.
  destruct s as [|a s1]; [done|].
  transitivity (if space1 a then trim_left s1 else
    match s1 with
    | EmptyString => String a s1
    | String b s2 =>
        if space2 a b then trim_left s2
        else match s2 with
             | EmptyString => String a s1
             | String c s3 => if space3 a b c then trim_left s3 else String a s1
             end
    end); [by destruct s1|]. unfold strip.
  repeat first [done | case_match].
Qed.

Lemma trim_left_rev_strip s :
  trim_left_rev s = match strip_rev s with Some t => trim_left_rev t | None => s end.
Proof.
  destruct s as [|a s1]; [done|].
  transitivity (if space1 a then trim_left_rev s1 else
    match s1 with
    | EmptyString => String a s1
    | String b s2 =>
        if space2 b a then trim_left_rev s2
        else match s2 with
             | EmptyString => String a s1
             | String c s3 => if space3 c b a then trim_left_rev s3 else String a s1
             end
    end); [by destruct s1|]. unfold strip_rev.
  repeat first [done | case_match].
Qed.

Lemma strip_shorter s t :
  strip s = Some t → (∃ x, s = x +:+ t) ∧ (String.length t < String.length s)%nat.
Proof.
  strip_cases s; intros [= <-]; simpl; (split; [|lia]);
    [by exists (String a "")|by exists (String a "")|by exists (String a (String b ""))
    |by exists (String a "")|by exists (String a (String b ""))
    |by exists (String a (String b (String c "")))].
Qed.

Lemma strip_rev_shorter s t :
  strip_rev s = Some t → (∃ x, s = x +:+ t) ∧ (String.length t < String.length s)%nat.
Proof.
  strip_cases s; intros [= <-]; simpl; (split; [|lia]);
    [by exists (String a "")|by exists (String a "")|by exists (String a (String b ""))
    |by exists (String a "")|by exists (String a (String b ""))
    |by exists (String a (String b (String c "")))].
Qed.

(** A longer string strips whenever its prefix does. *)
Lemma strip_prefix t u : strip (t +:+ u) = None → strip t = None.
Proof.
  destruct t as [|a [|b [|c t]]]; simpl; repeat case_match; try done.
Qed.

Section trimming.
Variable step : string → option string.
Variable trim : string → string.
Hypothesis trim_step : ∀ s, trim s = match step s with Some t => trim t | None => s end.
Hypothesis step_shorter :
  ∀ s t, step s = Some t → (∃ x, s = x +:+ t) ∧ (String.length t < String.length s)%nat.

(** The result is a suffix on which no step is left. *)
Lemma trim_spec s : (∃ x, s = x +:+ trim s) ∧ step (trim s) = None.
Proof.
  remember (String.length s) as n eqn:E. revert s E.
  induction (lt_wf n) as [n _ IH]. intros s ->. rewrite trim_step.
  destruct (step s) as [t|] eqn:Es; [|split; [by exists ""|done]].
  destruct (step_shorter _ _ Es) as [[x ->] Hlt].
  destruct (IH _ Hlt t eq_refl) as [[y Hy] Hn]. split; [|done].
  exists (x +:+ y). by rewrite app_assoc_s, <-Hy.
Qed.

Lemma trim_fixed s : step s = None → trim s = s.
Proof. intros H. by rewrite trim_step, H. Qed.
End trimming.

Lemma trim_left_spec s : (∃ x, s = x +:+ trim_left s) ∧ strip (trim_left s) = None.
Proof. apply trim_spec; [apply trim_left_strip|apply strip_shorter]. Qed.

Lemma trim_right_spec s :
  (∃ x, s = trim_right s +:+ x) ∧ strip_rev (srev (trim_right s)) = None.
Proof.
  unfold trim_right. rewrite srev_involutive.
  destruct (trim_spec _ _ trim_left_rev_strip strip_rev_shorter (srev s)) as [[x Hx] Hn].
  split; [|done]. exists (srev x). rewrite <-srev_app_distr, <-Hx. by rewrite srev_involutive.
Qed.

(** [TrimSpace] takes a substring with no white space at either end. *)
Lemma TrimSpace_spec s :
  (∃ x y, s = x +:+ TrimSpace s +:+ y)
  ∧ strip (TrimSpace s) = None ∧ strip_rev (srev (TrimSpace s)) = None.
Proof.
  unfold TrimSpace. destruct (trim_left_spec s) as [[x Hx] Hl].
  destruct (trim_right_spec (trim_left s)) as [[y Hy] Hr]. split_and!; [|..|done].
  - exists x, y. by rewrite <-Hy.
  - rewrite Hy in Hl. by eapply strip_prefix.
Qed.

Lemma TrimSpace_fixed s : strip s = None → strip_rev (srev s) = None → TrimSpace s = s.
Proof.
  intros Hl Hr. unfold TrimSpace, trim_right.
  rewrite (trim_fixed _ _ trim_left_strip s Hl).
  rewrite (trim_fixed _ _ trim_left_rev_strip _ Hr). apply srev_involutive.
Qed.

Lemma TrimSpace_idem s : TrimSpace (TrimSpace s) = TrimSpace s.
Proof. destruct (TrimSpace_spec s) as (_ & ? & ?). by apply TrimSpace_fixed. Qed.

Lemma TrimSpace_blank s : TrimSpace (String " " s) = TrimSpace s.
Proof. done. Qed.

(** [strings.Fields]: the words between runs of white space; [cur] is the word
    read so far. *)
Fixpoint fields_from (fuel : nat) (cur s : string) : list string :=
  let word := if cur == "" then [] else [cur] in
  match fuel with
  | O => word
  | S fuel' =>
      match strip s, s with
      | Some s', _ => word ++ fields_from fuel' "" s'
      | None, EmptyString => word
      | None, String a s' => fields_from fuel' (cur +:+ String a "") s'
      end
  end.
Definition Fields (s : string) : list string := fields_from (S (String.length s)) "" s.

Example Fields_words : Fields "  mv /tmp/x  /bin/ls " = ["mv"; "/tmp/x"; "/bin/ls"].
Proof. reflexivity. Qed.

(** ** Lemmas: ASCII case mapping *)

Lemma byte_cases (P : ascii → Prop) (f : ascii → bool) :
  (∀ a, f a = true → P a) →
  forallb (λ n, f (Ascii.ascii_of_nat n)) (seq 0 256) = true → ∀ a, P a.
Proof.
  intros HP H a. apply HP. rewrite forallb_forall in H.
  specialize (H (Ascii.nat_of_ascii a)). rewrite Ascii.ascii_nat_embedding in H.
  apply H. apply in_seq. pose proof (Ascii.nat_ascii_bounded a). lia.
Qed.

Lemma lower_byte_idem a : lower_byte (lower_byte a) = lower_byte a.
Proof. revert a. apply (byte_cases _ _ (λ a, proj1 (Ascii.eqb_eq _ _))). vm_compute. reflexivity. Qed.

Lemma lower_byte_space a : space1 (lower_byte a) = space1 a.
Proof. revert a. apply (byte_cases _ _ (λ a, proj1 (Bool.eqb_true_iff _ _))). vm_compute. reflexivity. Qed.

Lemma lower_byte_ascii a : (byte_of (lower_byte a) <? 128)%Z = (byte_of a <? 128)%Z.
Proof. revert a. apply (byte_cases _ _ (λ a, proj1 (Bool.eqb_true_iff _ _))). vm_compute. reflexivity. Qed.

Lemma is_ascii_app s t : is_ascii (s +:+ t) = is_ascii s && is_ascii t.
Proof. induction s as [|a s IH]; simpl; [done|]. by rewrite IH, andb_assoc. Qed.

Lemma smap_app f s t : smap f (s +:+ t) = smap f s +:+ smap f t.
Proof. induction s as [|a s IH]; simpl; congruence. Qed.

Lemma smap_srev f s : smap f (srev s) = srev (smap f s).
Proof. induction s as [|a s IH]; [done|]. cbn [smap]. rewrite !srev_cons, smap_app, IH. done. Qed.

Lemma is_ascii_srev s : is_ascii (srev s) = is_ascii s.
Proof.
  induction s as [|a s IH]; [done|]. rewrite srev_cons, is_ascii_app, IH. simpl.
  by rewrite andb_true_r, andb_comm.
Qed.

Lemma is_ascii_smap s : is_ascii (smap lower_byte s) = is_ascii s.
Proof. induction s as [|a s IH]; simpl; [done|]. by rewrite IH, lower_byte_ascii. Qed.

Lemma ascii_no_wide_space a b c :
  (byte_of a <? 128)%Z = true → space2 a b = false ∧ space3 a b c = false.
Proof.
  intros H. apply Z.ltb_lt in H. unfold space2, space3.
  repeat match goal with |- context [(byte_of a =? ?n)%Z] =>
    replace (byte_of a =? n)%Z with false by (symmetry; apply Z.eqb_neq; lia) end. done.
Qed.

(** On ASCII strings both strips look at one byte only. *)
Lemma strip_ascii a s : is_ascii (String a s) = true →
  strip (String a s) = if space1 a then Some s else None.
Proof.
  simpl. intros H; bool_hyps. destruct (space1 a); [done|].
  destruct s as [|b [|c s]]; [done|..]; destruct (ascii_no_wide_space a b a) as [-> _]; try (by apply Z.ltb_lt); [done|].
  destruct (ascii_no_wide_space a b c) as [_ ->]; [by apply Z.ltb_lt|done].
Qed.

Lemma strip_rev_ascii a s : is_ascii (String a s) = true →
  strip_rev (String a s) = if space1 a then Some s else None.
Proof.
  simpl. intros H; bool_hyps. destruct (space1 a); [done|].
  destruct s as [|b [|c s]]; [done|..]; simpl in *; bool_hyps.
  - destruct (ascii_no_wide_space b a a) as [-> _]; [by apply Z.ltb_lt|done].
  - destruct (ascii_no_wide_space b a a) as [-> _]; [by apply Z.ltb_lt|].
    destruct (ascii_no_wide_space c b a) as [_ ->]; [by apply Z.ltb_lt|done].
Qed.

Lemma strip_smap s : is_ascii s = true →
  strip (smap lower_byte s) = smap lower_byte <$> strip s
  ∧ strip_rev (smap lower_byte s) = smap lower_byte <$> strip_rev s.
Proof.
  destruct s as [|a s]; [done|]. intros H.
  assert (is_ascii (smap lower_byte (String a s)) = true) as H' by by rewrite is_ascii_smap.
  cbn [smap] in *. rewrite !strip_ascii, !strip_rev_ascii by done.
  rewrite lower_byte_space. by destruct (space1 a).
Qed.

Lemma ToLower_ascii {T : CaseTables} s : is_ascii s = true → ToLower s = smap lower_byte s.
Proof. unfold ToLower. by intros ->. Qed.

Lemma smap_lower_idem s : smap lower_byte (smap lower_byte s) = smap lower_byte s.
Proof. induction s as [|a s IH]; simpl; [done|]. by rewrite IH, lower_byte_idem. Qed.

Lemma is_ascii_TrimSpace s : is_ascii s = true → is_ascii (TrimSpace s) = true.
Proof.
  destruct (TrimSpace_spec s) as [(x & y & Hs) _]. rewrite Hs at 1.
  rewrite !is_ascii_app. intros; bool_hyps. done.
Qed.

(** Lowering a trimmed ASCII string leaves it trimmed and lowered. *)
Lemma lower_trim_fixed {T : CaseTables} s : is_ascii s = true →
  ToLower (TrimSpace (ToLower (TrimSpace s))) = ToLower (TrimSpace s).
Proof.
  intros H%is_ascii_TrimSpace. destruct (TrimSpace_spec s) as (_ & Hl & Hr).
  set (t := TrimSpace s) in *. rewrite (ToLower_ascii t) by done.
  rewrite TrimSpace_fixed.
  - rewrite ToLower_ascii by by rewrite is_ascii_smap. apply smap_lower_idem.
  - destruct (strip_smap t H) as [-> _]. by rewrite Hl.
  - rewrite <-smap_srev. destruct (strip_smap (srev t)) as [_ ->]; [by rewrite is_ascii_srev|].
    by rewrite Hr.
Qed.
