(* ===== verification/GlobSpec.v ===== *)
(** * Wildcard patterns: the reference meaning and the greedy algorithm

    [glob p s] is the declarative meaning of a pattern: [*] stands for any
    byte sequence, every other byte for itself. The two matchers of the code
    ([Glob] of pkg/auditrules and [globMatch] of pkg/policy) cut the pattern at
    its stars and place the pieces greedily, leftmost first. This file proves
    once that the greedy placement decides [glob]. *)

From Stdlib Require Import Ascii.
From stdpp Require Import base list strings.
From S2P Require Import Prelude GoStrings.
Local Open Scope string_scope.
Local Open Scope list_scope.

Definition star : ascii := "*".

Inductive glob : string → string → Prop :=
| glob_nil : glob "" ""
| glob_skip p s : glob p s → glob (String star p) s
| glob_eat p c s : glob (String star p) s → glob (String star p) (String c s)
| glob_byte c p s : c ≠ star → glob p s → glob (String c p) (String c s).

(** No byte of [s] is [c]. *)
Fixpoint lacks (c : ascii) (s : string) : Prop :=
  match s with
  | EmptyString => True
  | String a s' => a ≠ c ∧ lacks c s'
  end.

(** The pieces placed one after the other, anything between them. *)
Fixpoint placed (ps : list string) (s : string) : Prop :=
  match ps with
  | [] => False
  | [p] => s = p
  | p :: ps' => ∃ t u, s = p +:+ t +:+ u ∧ placed ps' u
  end.

(** [placed] after any prefix. *)
Definition floating (ps : list string) (s : string) : Prop :=
  ∃ t u, s = t +:+ u ∧ placed ps u.

(** The greedy search: each middle piece at its leftmost place, then the
    last piece as a suffix. *)
Fixpoint greedy (mid : list string) (last s : string) : bool :=
  match mid with
  | [] => HasSuffix s last
  | p :: mid' =>
      match Index s p with
      | None => false
      | Some i => greedy mid' last (sdrop (i + String.length p) s)
      end
  end.

(** ** Splitting at a byte *)

Lemma Split_nonempty s c : Split s c ≠ [].
Proof. destruct s as [|a s]; simpl; [done|]. destruct (Ascii.eqb a c); [done|]. by destruct (Split s c). Qed.

Lemma Split_lacks s c : Forall (lacks c) (Split s c).
Proof.
  induction s as [|a s IH]; simpl; [by repeat constructor|].
  destruct (Ascii.eqb_spec a c) as [->|Hne]; [by constructor|].
  destruct (Split s c) as [|p ps] eqn:E; [by repeat constructor|].
  inv IH. by constructor.
Qed.

Lemma Join_cons p ps sep : ps ≠ [] → Join (p :: ps) sep = p +:+ sep +:+ Join ps sep.
Proof. by destruct ps. Qed.

Lemma Join_Split s c : Join (Split s c) (String c "") = s.
Proof.
  induction s as [|a s IH]; [done|]. cbn [Split].
  pose proof (Split_nonempty s c) as Hne.
  destruct (Ascii.eqb_spec a c) as [->|Hac].
  - rewrite Join_cons by done. simpl. by rewrite IH.
  - destruct (Split s c) as [|p [|q ps]]; [done| |]; simpl in *; congruence.
Qed.

Lemma lacks_Split_app p c s :
  lacks c p →
  Split (p +:+ s) c = match Split s c with q :: qs => (p +:+ q) :: qs | [] => [] end.
Proof.
  induction p as [|a p IH]; simpl; intros Hl.
  - by destruct (Split s c) eqn:E; [destruct (Split_nonempty s c)|].
  - destruct Hl as [Hac Hl]. destruct (Ascii.eqb_spec a c); [done|].
    rewrite (IH Hl). destruct (Split s c) eqn:E; [by destruct (Split_nonempty s c)|done].
Qed.

Lemma Split_Join ps c :
  ps ≠ [] → Forall (lacks c) ps → Split (Join ps (String c "")) c = ps.
Proof.
  intros Hne H. induction H as [|p ps Hp Hps IH]; [done|].
  destruct ps as [|q ps].
  - simpl. rewrite <-(app_nil_r_s p) at 1. rewrite lacks_Split_app by done. simpl. by rewrite app_nil_r_s.
  - rewrite Join_cons by done. rewrite lacks_Split_app by done.
    rewrite app_cons_s. cbn [Split]. rewrite Ascii.eqb_refl. change ("" +:+ ?x) with x.
    rewrite IH by done. by rewrite app_nil_r_s.
Qed.

(** ** The declarative meaning, piece by piece *)

Lemma glob_star p s : glob (String star p) s ↔ ∃ t u, s = t +:+ u ∧ glob p u.
Proof.
  split.
  - intros H. remember (String star p) as q eqn:Eq. revert p Eq.
    induction H as [|p' s H _|p' c s H IH|c p' s Hc H _]; intros p Eq; simplify_eq.
    + by exists "", s.
    + destruct (IH p eq_refl) as (t & u & -> & ?). by exists (String c t), u.
  - intros (t & u & -> & H). induction t as [|c t IH]; simpl; by constructor.
Qed.

Lemma glob_literal p q s : lacks star p → glob (p +:+ q) s ↔ ∃ t, s = p +:+ t ∧ glob q t.
Proof.
  revert s. induction p as [|c p IH]; simpl; intros s Hl.
  - split; [by exists s|]. by intros (t & -> & ?).
  - destruct Hl as [Hc Hl]. split.
    + intros H. inv H; [done..|]. apply IH in H4 as (t & -> & ?); [|done]. by exists t.
    + intros (t & -> & ?). constructor; [done|]. apply IH; eauto.
Qed.

Lemma glob_placed ps s :
  ps ≠ [] → Forall (lacks star) ps → glob (Join ps (String star "")) s ↔ placed ps s.
Proof.
  intros Hne H. revert s. induction H as [|p ps Hp Hps IH]; intros s; [done|].
  destruct ps as [|q ps].
  - cbn [Join placed]. rewrite <-(app_nil_r_s p) at 1. rewrite glob_literal by done. split.
    + intros (t & -> & Ht). inv Ht. by rewrite app_nil_r_s.
    + intros ->. exists "". rewrite app_nil_r_s. split; [done|constructor].
  - rewrite Join_cons by done. cbn [placed]. rewrite glob_literal by done.
    setoid_rewrite (app_cons_s star "").
    setoid_rewrite glob_star. setoid_rewrite IH; [|done]. split.
    + intros (t' & -> & t & u & -> & ?). by exists t, u.
    + intros (t & u & -> & ?). exists (t +:+ u). eauto.
Qed.

(** ** Greedy placement is complete *)

Lemma floating_app ps t s : floating ps s → floating ps (t +:+ s).
Proof. intros (x & u & -> & H). exists (t +:+ x), u. by rewrite app_assoc_s. Qed.

Lemma floating_cons p ps s :
  ps ≠ [] → floating (p :: ps) s ↔ ∃ t u, s = t +:+ p +:+ u ∧ floating ps u.
Proof.
  intros Hne. unfold floating. destruct ps as [|q ps]; [done|]. cbn [placed]. split.
  - intros (t & u & -> & t' & u' & -> & H). exists t, (t' +:+ u'). eauto.
  - intros (t & u & -> & t' & u' & -> & H). exists t, (p +:+ t' +:+ u'). eauto 10.
Qed.

Theorem greedy_floating mid last s :
  greedy mid last s = true ↔ floating (mid ++ [last]) s.
Proof.
  revert s. induction mid as [|p mid IH]; intros s; cbn [greedy app].
  - rewrite HasSuffix_spec. unfold floating. cbn [placed]. split; [intros [t ->]; eauto|intros (t & u & -> & ->); eauto].
  - rewrite floating_cons by (by destruct mid). destruct (Index s p) as [i|] eqn:E.
    + apply Index_Some in E as [(a & b & -> & <-) Hmin].
      rewrite <-length_app_s, <-app_assoc_s, sdrop_app, IH. split.
      * intros H. exists a, b. by rewrite app_assoc_s.
      * intros (t & u & Heq & Hf). rewrite app_assoc_s in Heq.
        pose proof (Hmin t u Heq) as Hle.
        rewrite <-!app_assoc_s in Heq.
        destruct (app_split_le _ _ _ _ Heq) as (m & _ & ->); [rewrite !length_app_s; lia|].
        by apply floating_app.
    + split; [done|]. intros (t & u & -> & _).
      by destruct (proj1 (Index_None _ _) E t u).
Qed.

(** The pieces of a pattern with at least one star. *)
Lemma placed_greedy p mid last s :
  placed (p :: mid ++ [last]) s ↔
  HasPrefix s p = true ∧ greedy mid last (sdrop (String.length p) s) = true.
Proof.
  rewrite greedy_floating, HasPrefix_spec.
  destruct (mid ++ [last]) as [|q qs] eqn:E; [by destruct mid|].
  cbn [placed]. unfold floating. split.
  - intros (t & u & -> & H). split; [eauto|]. rewrite sdrop_app. eauto.
  - intros [[x ->] (t & u & Heq & H)]. rewrite sdrop_app in Heq. subst x. eauto.
Qed.

(** ** Strings with and without the byte *)

Lemma Split_single s c : lacks c s → Split s c = [s].
Proof.
  intros H. rewrite <-(app_nil_r_s s) at 1. rewrite lacks_Split_app by done.
  simpl. by rewrite app_nil_r_s.
Qed.

Lemma lacks_Contains c s : lacks c s ↔ Contains s (String c "") = false.
Proof.
  induction s as [|a s IH]; [done|]. cbn [lacks].
  assert (Contains (String a s) (String c "") = Ascii.eqb c a || Contains s (String c "")) as ->.
  { unfold Contains. cbn [Index HasPrefix]. rewrite andb_true_r.
    destruct (Ascii.eqb c a); [done|]. by destruct (Index s (String c "")). }
  rewrite IH, orb_false_iff, Ascii.eqb_neq. intuition congruence.
Qed.

(** A string with the byte splits into at least two pieces. *)
Lemma Split_many s c :
  Contains s (String c "") = true →
  ∃ p mid last, Split s c = p :: mid ++ [last].
Proof.
  intros H. destruct (Split s c) as [|p ps] eqn:E; [by destruct (Split_nonempty s c)|].
  destruct (exists_last (l := ps)) as (mid & last & ->); [|eauto].
  intros ->. pose proof (Join_Split s c) as Hj. rewrite E in Hj. cbn in Hj. subst p.
  pose proof (Split_lacks s c) as Hl. rewrite E in Hl. inv Hl.
  apply lacks_Contains in H2. congruence.
Qed.
