(* ===== verification/GoNet.v ===== *)
(** * Go's [net] addresses

    The address parsing and network membership of Go's [net] package that the
    audit rules and the network-policy checker use: [ParseIP], [ParseCIDR],
    [IP.To4], [IP.Mask], [IPMask.Size] and [IPNet.Contains]. An [IP] is its
    byte list (4 or 16 bytes), as in Go. *)

From Stdlib Require Import Ascii.
From stdpp Require Import base list strings.
From S2P Require Import Prelude GoStrings.
Local Open Scope string_scope.
Local Open Scope list_scope.
Local Open Scope go_scope.

Definition IP := list Z.
Definition IPMask := list Z.
Record IPNet := { IPNet_IP : IP; IPNet_Mask : IPMask }.

(** ** Text to address *)

(** One dotted octet: decimal, at most 255, no leading zero. *)
Definition parse_octet (s : string) : option Z :=
  match s with
  | EmptyString => None
  | String a rest =>
      if Ascii.eqb a "0" && (rest != "") then None
      else match digits_value 0 s with
           | Some v => if (v <=? 255)%Z then Some v else None
           | None => None
           end
  end.

Definition parseIPv4 (s : string) : option (list Z) :=
  match Split s "." with
  | [a; b; c; d] =>
      match parse_octet a, parse_octet b, parse_octet c, parse_octet d with
      | Some w, Some x, Some y, Some z => Some [w; x; y; z]
      | _, _, _, _ => None
      end
  | _ => None
  end.

Definition hex_digit (a : ascii) : option Z :=
  let b := byte_of a in
  if ((48 <=? b) && (b <=? 57))%Z then Some (b - 48)%Z
  else if ((97 <=? b) && (b <=? 102))%Z then Some (b - 87)%Z
  else if ((65 <=? b) && (b <=? 70))%Z then Some (b - 55)%Z
  else None.

(** The leading hexadecimal digits of [s]: their value, their number and the
    rest. *)
Fixpoint hex_run (acc : Z) (off : nat) (s : string) : Z * nat * string :=
  match s with
  | String a s' => match hex_digit a with
                   | Some d => hex_run (acc * 16 + d)%Z (S off) s'
                   | None => (acc, off, s)
                   end
  | EmptyString => (acc, off, s)
  end.

(** The loop of [parseIPv6]: the bytes read so far, the place of the
    ellipsis and the text left. Each round adds two bytes, so eight rounds of
    fuel reach the loop's own bound of sixteen bytes. *)
Fixpoint parse_groups (fuel : nat) (ip : list Z) (ellipsis : option nat) (s : string)
  : option (list Z * option nat * string) :=
  match fuel with
  | O => Some (ip, ellipsis, s)
  | S f =>
      let '(acc, off, rest) := hex_run 0 0 s in
      if (off =? 0)%nat || (4 <? off)%nat then None
      else if HasPrefix rest "." then
        if (match ellipsis with None => negb (length ip =? 12)%nat | Some _ => false end) then None
        else if (16 <? length ip + 4)%nat then None
        else match parseIPv4 s with
             | Some v4 => Some (ip ++ v4, ellipsis, "")
             | None => None
             end
      else
        let ip' := ip ++ [(acc / 256)%Z; (acc mod 256)%Z] in
        match rest with
        | EmptyString => Some (ip', ellipsis, "")
        | String c rest1 =>
            if negb (Ascii.eqb c ":") then None
            else match rest1 with
            | EmptyString => None
            | String c1 rest2 =>
                if Ascii.eqb c1 ":" then
                  match ellipsis with
                  | Some _ => None
                  | None => if rest2 == "" then Some (ip', Some (length ip'), "")
                            else parse_groups f ip' (Some (length ip')) rest2
                  end
                else parse_groups f ip' ellipsis rest1
            end
        end
  end.

Definition finish_groups (ip : list Z) (ellipsis : option nat) (s : string) : option (list Z) :=
  if s != "" then None
  else if (length ip <? 16)%nat then
    match ellipsis with
    | None => None
    | Some e => Some (firstn e ip ++ replicate (16 - length ip) 0%Z ++ skipn e ip)
    end
  else match ellipsis with Some _ => None | None => Some ip end.

(** [parseIPv6] of an address without a zone; a zone makes the callers fail. *)
Definition parseIPv6 (s : string) : option (list Z) :=
  match IndexByte s "%" with
  | Some _ => None
  | None =>
      let '(ellipsis, s') := if HasPrefix s "::" then (Some O, sdrop 2 s) else (None, s) in
      if (match ellipsis with Some _ => s' == "" | None => false end)
      then Some (replicate 16 0%Z)
      else match parse_groups 8 [] ellipsis s' with
           | Some (ip, e, rest) => finish_groups ip e rest
           | None => None
           end
  end.

Inductive Addr := Addr4 (b : list Z) | Addr6 (b : list Z).

(** [netip.ParseAddr], zones rejected: the first of [.], [:] and [%] decides. *)
Fixpoint addr_kind (s : string) : option ascii :=
  match s with
  | EmptyString => None
  | String a s' =>
      if Ascii.eqb a "." || Ascii.eqb a ":" || Ascii.eqb a "%" then Some a else addr_kind s'
  end.

Definition ParseAddr (s : string) : option Addr :=
  match addr_kind s with
  | Some c => if Ascii.eqb c "." then Addr4 <$> parseIPv4 s
              else if Ascii.eqb c ":" then Addr6 <$> parseIPv6 s
              else None
  | None => None
  end.

Definition v4InV6Prefix : list Z := replicate 10 0%Z ++ [255%Z; 255%Z].

Definition As16 (a : Addr) : IP :=
  match a with Addr4 b => v4InV6Prefix ++ b | Addr6 b => b end.
Definition BitLen (a : Addr) : Z := match a with Addr4 _ => 32%Z | Addr6 _ => 128%Z end.

Definition ParseIP (s : string) : option IP := As16 <$> ParseAddr s.

(** ** Addresses and masks *)

Fixpoint zlist_eqb (a b : list Z) : bool :=
  match a, b with
  | [], [] => true
  | x :: a', y :: b' => (x =? y)%Z && zlist_eqb a' b'
  | _, _ => false
  end.

Definition To4 (ip : IP) : option IP :=
  if (length ip =? 4)%nat then Some ip
  else if (length ip =? 16)%nat && zlist_eqb (firstn 12 ip) v4InV6Prefix
  then Some (skipn 12 ip)
  else None.

(** The [n]-th byte of a mask with [ones] leading one bits. *)
Definition mask_byte (ones : Z) (n : nat) : Z :=
  let left := (ones - 8 * Z.of_nat n)%Z in
  if (8 <=? left)%Z then 255%Z
  else if (left <=? 0)%Z then 0%Z
  else (256 - 2 ^ (8 - left))%Z.

Definition CIDRMask (ones bits : Z) : IPMask :=
  map (mask_byte ones) (seq 0 (Z.to_nat (bits / 8))).

Fixpoint leading_ones (fuel : nat) (v : Z) : Z :=
  match fuel with
  | O => 0%Z
  | S f => if Z.testbit v 7 then (1 + leading_ones f (Z.land (Z.shiftl v 1) 255))%Z else 0%Z
  end.

(** [simpleMaskLength]: the number of leading ones, [None] for a mask that is
    not ones followed by zeros. *)
Fixpoint simpleMaskLength (m : IPMask) : option Z :=
  match m with
  | [] => Some 0%Z
  | v :: m' =>
      if (v =? 255)%Z then Z.add 8 <$> simpleMaskLength m'
      else let n := leading_ones 8 v in
           if (v =? mask_byte n 0)%Z && forallb (Z.eqb 0) m' then Some n else None
  end.

Definition Mask_Size (m : IPMask) : Z * Z :=
  match simpleMaskLength m with
  | Some n => (n, (8 * Z.of_nat (length m))%Z)
  | None => (0, 0)%Z
  end.

Fixpoint and_bytes (a b : list Z) : list Z :=
  match a, b with
  | x :: a', y :: b' => Z.land x y :: and_bytes a' b'
  | _, _ => []
  end.

Definition IP_Mask (ip : IP) (mask : IPMask) : option IP :=
  let mask := if (length mask =? 16)%nat && (length ip =? 4)%nat
                 && forallb (Z.eqb 255) (firstn 12 mask) then skipn 12 mask else mask in
  let ip := if (length mask =? 4)%nat && (length ip =? 16)%nat
               && zlist_eqb (firstn 12 ip) v4InV6Prefix then skipn 12 ip else ip in
  if (length ip =? length mask)%nat then Some (and_bytes ip mask) else None.

(** [net.ParseCIDR]; the address result is not used by the modelled code.
    [dtoi] stops at the first non-digit and refuses values from 2^24-1 up
    ("big"); both make the whole parse fail here. *)
Definition ParseCIDR (s : string) : option IPNet :=
  let '(addr, mask, found) := Cut s "/" in
  if negb found then None
  else match ParseAddr addr with
  | None => None
  | Some a =>
      if mask == "" then None
      else match digits_value 0 mask with
      | None => None
      | Some n =>
          if (n <=? BitLen a)%Z then
            let m := CIDRMask n (BitLen a) in
            match IP_Mask (As16 a) m with
            | Some ip => Some {| IPNet_IP := ip; IPNet_Mask := m |}
            | None => None
            end
          else None
      end
  end.

Definition networkNumberAndMask (n : IPNet) : option (IP * IPMask) :=
  let ip := match To4 (IPNet_IP n) with Some v4 => Some v4
            | None => if (length (IPNet_IP n) =? 16)%nat then Some (IPNet_IP n) else None end in
  match ip with
  | None => None
  | Some ip =>
      let m := IPNet_Mask n in
      if (length m =? 4)%nat then
        if (length ip =? 4)%nat then Some (ip, m) else None
      else if (length m =? 16)%nat then
        if (length ip =? 4)%nat then Some (ip, skipn 12 m) else Some (ip, m)
      else None
  end.

Definition NetContains (n : IPNet) (ip : IP) : bool :=
  let ip := match To4 ip with Some v4 => v4 | None => ip end in
  match networkNumberAndMask n with
  | None => (length ip =? 0)%nat
  | Some (nn, m) =>
      (length ip =? length nn)%nat && zlist_eqb (and_bytes nn m) (and_bytes ip m)
  end.

(** ** Sanity of the text formats *)

Example parse_v4 : ParseIP "10.0.0.1" = Some (v4InV6Prefix ++ [10; 0; 0; 1]%Z).
Proof. reflexivity. Qed.
Example parse_v4_leading_zero : ParseIP "10.0.0.01" = None.
Proof. reflexivity. Qed.
Example parse_v6_ellipsis :
  ParseIP "2001:db8::1" = Some [32; 1; 13; 184; 0; 0; 0; 0; 0; 0; 0; 0; 0; 0; 0; 1]%Z.
Proof. reflexivity. Qed.
Example parse_v6_embedded : ParseIP "::ffff:10.0.0.1" = ParseIP "10.0.0.1".
Proof. reflexivity. Qed.
Example parse_v6_empty_ellipsis : ParseIP "1:2:3:4:5:6:7::8" = None.
Proof. reflexivity. Qed.
Example cidr_contains :
  (λ n, (NetContains n (v4InV6Prefix ++ [10; 1; 2; 3]%Z),
         NetContains n (v4InV6Prefix ++ [11; 1; 2; 3]%Z))) <$> ParseCIDR "10.0.0.0/8"
  = Some (true, false).
Proof. vm_compute. reflexivity. Qed.

(** ** Lengths: an address is 16 bytes, a network's address and mask agree *)

Lemma digits_value_nonneg s acc v : (0 ≤ acc)%Z → digits_value acc s = Some v → (0 ≤ v)%Z.
Proof.
  revert acc. induction s as [|a s IH]; simpl; intros acc Hacc; [by intros [= <-]|].
  unfold is_digit. case_if; [|done]. apply IH. lia.
Qed.

Lemma parseIPv4_length s b : parseIPv4 s = Some b → length b = 4%nat.
Proof. unfold parseIPv4. intros H. repeat case_match; simplify_eq. done. Qed.

Lemma parse_groups_bound fuel ip e s ip' e' s' :
  parse_groups fuel ip e s = Some (ip', e', s') →
  (length ip + 2 * fuel ≤ 16)%nat → (∀ k, e = Some k → k ≤ length ip)%nat →
  (length ip' ≤ 16)%nat ∧ (∀ k, e' = Some k → k ≤ length ip')%nat.
Proof.
  revert ip e s. induction fuel as [|f IH]; intros ip e s H Hlen He; cbn [parse_groups] in H.
  { simplify_eq. split; [lia|done]. }
  destruct (hex_run 0 0 s) as [[acc off] rest].
  set (ip1 := (ip ++ [acc / 256; acc mod 256])%Z) in H.
  assert (length ip1 = length ip + 2)%nat as Hl1 by (unfold ip1; rewrite length_app; done).
  assert (∀ k, e = Some k → k ≤ length ip1)%nat as He1 by (intros k Hk; specialize (He k Hk); lia).
  repeat case_match; simplify_eq; bool_hyps;
    try match goal with Hv : parseIPv4 _ = Some _ |- _ => apply parseIPv4_length in Hv end;
    try (eapply IH; [eassumption|lia|]; intros k Hk; simplify_eq; auto; lia);
    rewrite ?length_app; (split; [simpl; lia|]); intros k Hk; simplify_eq; simpl;
    try specialize (He _ eq_refl); rewrite ?length_app; simpl; lia.
Qed.

Lemma finish_groups_length ip e s b :
  (length ip ≤ 16)%nat → (∀ k, e = Some k → k ≤ length ip)%nat →
  finish_groups ip e s = Some b → length b = 16%nat.
Proof.
  unfold finish_groups. intros Hlen He H. repeat case_match; simplify_eq; bool_hyps; [|lia].
  specialize (He _ eq_refl).
  rewrite !length_app, length_replicate, length_firstn, length_skipn. lia.
Qed.

Lemma ParseAddr_length s a :
  ParseAddr s = Some a → match a with Addr4 b => length b = 4%nat | Addr6 b => length b = 16%nat end.
Proof.
  unfold ParseAddr. destruct (addr_kind s) as [c|]; [|done].
  destruct (Ascii.eqb c "."); [intros (b & Hb & ->)%fmap_Some; by eapply parseIPv4_length|].
  destruct (Ascii.eqb c ":"); [|done]. intros (b & Hb & ->)%fmap_Some.
  unfold parseIPv6 in Hb. case_match; [done|].
  destruct (if HasPrefix s "::" then (Some 0%nat, sdrop 2 s) else (None, s)) as [e s'] eqn:E.
  case_if; [simplify_eq; by rewrite length_replicate|].
  destruct (parse_groups 8 [] e s') as [[[ip e'] rest]|] eqn:Eg; [|done].
  assert (∀ k, e = Some k → k ≤ length (@nil Z))%nat as He.
  { intros k ->. destruct (HasPrefix s "::"); simplify_eq. simpl. lia. }
  destruct (parse_groups_bound _ _ _ _ _ _ _ Eg) as [? ?]; [simpl; lia|done|].
  by eapply finish_groups_length.
Qed.

Lemma As16_length s a : ParseAddr s = Some a → length (As16 a) = 16%nat.
Proof. intros H%ParseAddr_length. destruct a; simpl in *; lia. Qed.

Lemma ParseIP_length s ip : ParseIP s = Some ip → length ip = 16%nat.
Proof. intros (a & Ha & ->)%fmap_Some. by eapply As16_length. Qed.

Lemma and_bytes_length a b : length (and_bytes a b) = Nat.min (length a) (length b).
Proof. revert b. induction a as [|x a IH]; intros [|y b]; simpl; auto. Qed.

Lemma CIDRMask_length ones bits : length (CIDRMask ones bits) = Z.to_nat (bits / 8).
Proof. unfold CIDRMask. by rewrite length_map, length_seq. Qed.

Lemma IP_Mask_16 ip m :
  length ip = 16%nat → length m = 16%nat → IP_Mask ip m = Some (and_bytes ip m).
Proof.
  intros Hi Hm. unfold IP_Mask. rewrite Hi, Hm. cbn [Nat.eqb andb].
  rewrite Hm. cbn [Nat.eqb andb]. by rewrite Hi.
Qed.

(** What [ParseCIDR] returns: a masked address of the mask's length. *)
Lemma ParseCIDR_spec s n :
  ParseCIDR s = Some n →
  ∃ ones, (0 ≤ ones)%Z ∧
    ((ones ≤ 32)%Z ∧ IPNet_Mask n = CIDRMask ones 32 ∧ length (IPNet_IP n) = 4%nat
     ∨ (ones ≤ 128)%Z ∧ IPNet_Mask n = CIDRMask ones 128
       ∧ ∃ ip, length ip = 16%nat ∧ IPNet_IP n = and_bytes ip (CIDRMask ones 128)).
Proof.
  unfold ParseCIDR. destruct (Cut s "/") as [[addr mask] found].
  destruct found; [|done]. cbn [negb].
  destruct (ParseAddr addr) as [a|] eqn:Ea; [|done]. case_if; [done|].
  destruct (digits_value 0 mask) as [n0|] eqn:Ed; [|done]. case_if; [|done].
  apply digits_value_nonneg in Ed; [|lia]. intros H. exists n0. split; [done|].
  pose proof (ParseAddr_length _ _ Ea) as Hl. destruct a as [b|b]; simpl BitLen in *.
  - left. unfold IP_Mask in H. rewrite CIDRMask_length in H. simpl As16 in H.
    do 5 (destruct b as [|? b]; simpl in Hl; try lia). cbn in H.
    simplify_eq/=. done.
  - right. cbn [As16] in H. rewrite IP_Mask_16 in H by (done || apply CIDRMask_length).
    injection H as <-. simpl. split_and!; eauto.
Qed.

(** ** Masks *)

Lemma below_all (n : nat) (P : Z → bool) :
  forallb P (map Z.of_nat (seq 0 n)) = true → ∀ z, (0 ≤ z < Z.of_nat n)%Z → P z = true.
Proof.
  intros H z Hz. rewrite forallb_forall in H. apply H. apply in_map_iff.
  exists (Z.to_nat z). split; [lia|]. apply in_seq. lia.
Qed.

Definition size_ok (bits ones : Z) : bool :=
  let '(n, b) := Mask_Size (CIDRMask ones bits) in (n =? ones)%Z && (b =? bits)%Z.

Lemma size_ok_spec bits ones :
  size_ok bits ones = true → Mask_Size (CIDRMask ones bits) = (ones, bits).
Proof. unfold size_ok. destruct (Mask_Size _) as [n b]. intros ?; bool_hyps. congruence. Qed.

Lemma Mask_Size_32 ones : (0 ≤ ones ≤ 32)%Z → Mask_Size (CIDRMask ones 32) = (ones, 32%Z).
Proof.
  intros H. apply size_ok_spec.
  apply (below_all 33 (size_ok 32)); [vm_compute; reflexivity|lia].
Qed.

Lemma Mask_Size_128 ones : (0 ≤ ones ≤ 128)%Z → Mask_Size (CIDRMask ones 128) = (ones, 128%Z).
Proof.
  intros H. apply size_ok_spec.
  apply (below_all 129 (size_ok 128)); [vm_compute; reflexivity|lia].
Qed.

(** A mask with at least one leading one has the top bit set. *)
Lemma mask_top_bit ones : (1 ≤ ones ≤ 128)%Z → Z.testbit (mask_byte ones 0) 7 = true.
Proof.
  intros H.
  pose proof (below_all 128 (λ z, Z.testbit (mask_byte (z + 1) 0) 7) ltac:(vm_compute; reflexivity)
                (ones - 1) ltac:(lia)) as Hb.
  cbv beta in Hb. by replace (ones - 1 + 1)%Z with ones in Hb by lia.
Qed.

(** A mask that keeps the low bit of byte 11 has at least 96 ones. *)
Lemma mask_byte_11 ones :
  (0 ≤ ones ≤ 128)%Z → Z.testbit (mask_byte ones 11) 0 = true → (96 ≤ ones)%Z.
Proof.
  intros H Hb.
  pose proof (below_all 129 (λ z, implb (Z.testbit (mask_byte z 11) 0) (96 <=? z)%Z)
                ltac:(vm_compute; reflexivity) ones ltac:(lia)) as Hi. cbv beta in Hi.
  rewrite Hb in Hi. by apply Z.leb_le.
Qed.

Lemma zlist_eqb_eq a b : zlist_eqb a b = true ↔ a = b.
Proof.
  revert b. induction a as [|x a IH]; intros [|y b]; simpl; try done.
  rewrite andb_true_iff, Z.eqb_eq, IH. split; [intros [-> ->]|intros [= -> ->]]; done.
Qed.

(** ** A network whose mask has a leading one leaves out an address *)

Lemma land_flip x m : Z.testbit m 7 = true → Z.land (Z.lxor x 128) m ≠ Z.land x m.
Proof.
  intros Hm Heq. apply (f_equal (λ z, Z.testbit z 7)) in Heq.
  rewrite !Z.land_spec, Z.lxor_spec, Hm, !andb_true_r in Heq.
  change (Z.testbit 128 7) with true in Heq. by destruct (Z.testbit x 7).
Qed.

Lemma leaves_out n :
  length (IPNet_IP n) = length (IPNet_Mask n) →
  (length (IPNet_IP n) = 4%nat ∨ length (IPNet_IP n) = 16%nat ∧ To4 (IPNet_IP n) = None) →
  Z.testbit (List.hd 0%Z (IPNet_Mask n)) 7 = true →
  ∃ ip, length ip = length (IPNet_IP n) ∧ NetContains n ip = false.
Proof.
  destruct n as [nn m]; simpl. intros Hlen Hcase Hbit.
  destruct nn as [|x nn]; [destruct Hcase as [?|[? _]]; done|].
  destruct m as [|y m]; [done|]. simpl in Hlen, Hbit.
  exists (Z.lxor x 128 :: nn). split; [done|]. unfold NetContains, networkNumberAndMask. simpl IPNet_IP. simpl IPNet_Mask.
  assert (∀ r, zlist_eqb (and_bytes (x :: nn) (y :: m)) (and_bytes (Z.lxor x 128 :: r) (y :: m)) = false) as Hz.
  { intros r. simpl. destruct (Z.land x y =? Z.land (Z.lxor x 128) y)%Z eqn:E; [|done].
    apply Z.eqb_eq in E. by destruct (land_flip x y Hbit). }
  destruct Hcase as [H4|[H16 Hnone]].
  - assert (∀ b, To4 (b :: nn) = Some (b :: nn)) as H4' by (intros; unfold To4; cbn [length] in *; by rewrite H4).
    rewrite !H4'. cbn [length] in *. rewrite <-Hlen, H4. cbn [Nat.eqb andb length].
    rewrite Hz. apply andb_false_r.
  - rewrite Hnone. cbn [length] in *. rewrite H16, <-Hlen, H16. simpl (16 =? 16)%nat. cbn [Nat.eqb].
    unfold To4. cbn [length]. rewrite H16. cbn [Nat.eqb andb].
    destruct (zlist_eqb _ _).
    + rewrite length_skipn. cbn [length]. rewrite H16. done.
    + rewrite Hz. by rewrite andb_false_r.
Qed.
