(* ===== verification/AuditRules.v ===== *)
(** * pkg/auditrules: Kubernetes audit rules

    The rule language of the audit engine: rule normalisation and validation
    (rule.go), events, wildcard patterns, compiled rules and the matcher
    (match.go), client addresses behind trusted proxies (clientip.go) and the
    built-in catalogue (catalog.go). *)

From Stdlib Require Import Ascii.
From stdpp Require Import base list gmap strings.
From S2P Require Import Prelude GoStrings GlobSpec GoNet.
Local Open Scope string_scope.
Local Open Scope list_scope.
Local Open Scope go_scope.

(** ** Constants and data (rule.go) *)

Definition KindCreate := "create".
Definition KindUpdate := "update".
Definition KindDelete := "delete".
Definition KindExec := "exec".
Definition KindAttach := "attach".
Definition KindPortForward := "portforward".
Definition KindGet := "get".
Definition KindList := "list".

Definition SevCritical := "critical".
Definition SevHigh := "high".
Definition SevMedium := "medium".
Definition SevLow := "low".

Definition OriginBuiltin := "builtin".
Definition OriginCustom := "custom".

Definition SubjectAny := "any".
Definition SubjectPeople := "people".
Definition SubjectSA := "sa".

Definition IPAny := "any".
Definition IPIn := "in".
Definition IPNotIn := "notin".

Definition ResultAny := "any".
Definition ResultAllowed := "allowed".
Definition ResultDenied := "denied".

Definition AlertEach := "each".
Definition AlertThreshold := "threshold".

Definition maxNameLen : nat := 120.
Definition maxPatternLen : nat := 400.
Definition maxListItems : nat := 64.

Definition Kinds : list string :=
  [KindCreate; KindUpdate; KindDelete; KindExec; KindAttach; KindPortForward; KindGet; KindList].
Definition Severities : list string := [SevCritical; SevHigh; SevMedium; SevLow].

Definition lower_or_digit (a : ascii) : bool :=
  let b := byte_of a in ((97 <=? b) && (b <=? 122) || (48 <=? b) && (b <=? 57))%Z.
Definition letter_or_digit (a : ascii) : bool :=
  let b := byte_of a in lower_or_digit a || ((65 <=? b) && (b <=? 90))%Z.

Fixpoint all_bytes (f : ascii → bool) (s : string) : bool :=
  match s with EmptyString => true | String a s' => f a && all_bytes f s' end.

(** [^[a-z0-9][a-z0-9./-]{0,80}$] *)
Definition resourceRe (s : string) : bool :=
  match s with
  | EmptyString => false
  | String a s' =>
      lower_or_digit a && (String.length s' <=? 80)%nat
      && all_bytes (λ c, lower_or_digit c || Ascii.eqb c "." || Ascii.eqb c "/" || Ascii.eqb c "-") s'
  end.

(** [^[a-zA-Z0-9][a-zA-Z0-9:._-]{0,119}$] *)
Definition idRe (s : string) : bool :=
  match s with
  | EmptyString => false
  | String a s' =>
      letter_or_digit a && (String.length s' <=? 119)%nat
      && all_bytes (λ c, letter_or_digit c || Ascii.eqb c ":" || Ascii.eqb c "."
                         || Ascii.eqb c "_" || Ascii.eqb c "-") s'
  end.

Record Spec := {
  S_Kinds : list string;
  S_Resources : list string;
  S_NS : string;
  S_NSExclude : string;
  S_ObjName : string;
  S_Subject : string;
  S_Users : string;
  S_UsersExclude : string;
  S_IPMode : string;
  S_IPList : string;
  S_Forwarded : bool;
  S_Result : string;
  S_Cmd : string;
  S_AlertEvery : string;
  S_ThN : Z;
  S_ThMin : Z;
  S_Clusters : list string;
}.

Record Rule := {
  R_ID : string;
  R_Name : string;
  R_Group : string;
  R_Origin : string;
  R_Enabled : bool;
  R_Alert : bool;
  R_Severity : string;
  R_Spec : Spec;
  R_UpdatedBy : string;
  R_UpdatedAt : Time;
}.

Section tables.
Context {T : CaseTables}.

(** ** Normalisation (rule.go) *)

Definition splitList (s : string) : list string :=
  filter (λ p, p ≠ "") (map TrimSpace (Split s ",")).

Definition cleanList (s : string) : string := Join (splitList s) ", ".

Fixpoint cleanSet_from (seen : list string) (l : list string) (lower : bool) : list string :=
  match l with
  | [] => []
  | v :: l' =>
      let v := TrimSpace v in
      let v := if lower then ToLower v else v in
      if (v == "") || any (String.eqb v) seen then cleanSet_from seen l' lower
      else v :: cleanSet_from (v :: seen) l' lower
  end.
Definition cleanSet (l : list string) (lower : bool) : list string := cleanSet_from [] l lower.

Definition oneOf (v : string) (allowed : list string) : bool := any (String.eqb v) allowed.

Definition or_default (v d : string) : string := if v == "" then d else v.

Definition normalizeSpec (s : Spec) : Spec :=
  let ipMode := or_default (S_IPMode s) IPAny in
  {| S_Kinds := cleanSet (S_Kinds s) true;
     S_Resources := cleanSet (S_Resources s) true;
     S_NS := or_default (cleanList (S_NS s)) "*";
     S_NSExclude := cleanList (S_NSExclude s);
     S_ObjName := cleanList (S_ObjName s);
     S_Subject := or_default (S_Subject s) SubjectAny;
     S_Users := cleanList (S_Users s);
     S_UsersExclude := cleanList (S_UsersExclude s);
     S_IPMode := ipMode;
     S_IPList := if ipMode == IPAny then "" else cleanList (S_IPList s);
     S_Forwarded := S_Forwarded s;
     S_Result := or_default (S_Result s) ResultAny;
     S_Cmd := TrimSpace (S_Cmd s);
     S_AlertEvery := or_default (S_AlertEvery s) AlertEach;
     S_ThN := if (S_ThN s <? 2)%Z then 3%Z else S_ThN s;
     S_ThMin := if (S_ThMin s <? 1)%Z then 10%Z else S_ThMin s;
     S_Clusters := cleanSet (S_Clusters s) false |}.

Definition Normalize (r : Rule) : Rule :=
  {| R_ID := TrimSpace (R_ID r);
     R_Name := TrimSpace (R_Name r);
     R_Group := or_default (TrimSpace (R_Group r)) "Custom";
     R_Origin := if R_Origin r != OriginBuiltin then OriginCustom else R_Origin r;
     R_Enabled := R_Enabled r;
     R_Alert := R_Alert r;
     R_Severity := or_default (ToLower (TrimSpace (R_Severity r))) SevHigh;
     R_Spec := normalizeSpec (R_Spec r);
     R_UpdatedBy := R_UpdatedBy r;
     R_UpdatedAt := R_UpdatedAt r |}.

(** ** Validation (rule.go) *)

(** The errors [Validate] returns, with the values their messages quote. *)
Inductive rule_error :=
| ErrID
| ErrNameRequired
| ErrNameTooLong
| ErrSeverity (v : string)
| ErrNoKind
| ErrKind (k : string)
| ErrTooManyItems
| ErrResource (res : string)
| ErrPatternTooLong (label : string)
| ErrSubject (v : string)
| ErrResult (v : string)
| ErrIPMode (v : string)
| ErrNoAddress
| ErrNetwork (it : string)
| ErrAlertMode (v : string)
| ErrThreshold.

(** The labelled patterns, in the order of the map literal. *)
Definition patterns (s : Spec) : list (string * string) :=
  [("namespaces", S_NS s); ("excluded namespaces", S_NSExclude s); ("object name", S_ObjName s);
   ("users", S_Users s); ("excluded users", S_UsersExclude s); ("addresses", S_IPList s);
   ("command", S_Cmd s)].

Definition too_long (p : string * string) : bool := (maxPatternLen <? String.length p.2)%nat.

Definition bad_network (it : string) : bool :=
  Contains it "/" && match ParseCIDR it with Some _ => false | None => true end.

(** The first of a list of checks that fails: each check is a condition and
    the error its branch returns. *)
Fixpoint first_error (checks : list (option rule_error)) : option rule_error :=
  match checks with
  | [] => None
  | Some e :: _ => Some e
  | None :: cs => first_error cs
  end.

Definition fails (b : bool) (e : rule_error) : option rule_error := if b then Some e else None.

Definition Validate {O : MapOrder} (r : Rule) : option rule_error :=
  let s := R_Spec r in
  first_error [
    fails (negb (idRe (R_ID r))) ErrID;
    fails (R_Name r == "") ErrNameRequired;
    fails (maxNameLen <? String.length (R_Name r))%nat ErrNameTooLong;
    fails (negb (oneOf (R_Severity r) Severities)) (ErrSeverity (R_Severity r));
    fails (length (S_Kinds s) =? 0)%nat ErrNoKind;
    ErrKind <$> List.find (λ k, negb (oneOf k Kinds)) (S_Kinds s);
    fails ((maxListItems <? length (S_Resources s)) || (maxListItems <? length (S_Clusters s)))%nat
      ErrTooManyItems;
    ErrResource <$> List.find (λ res, negb (resourceRe res)) (S_Resources s);
    (λ p, ErrPatternTooLong p.1) <$> List.find too_long (map_order (patterns s));
    fails (negb (oneOf (S_Subject s) [SubjectAny; SubjectPeople; SubjectSA])) (ErrSubject (S_Subject s));
    fails (negb (oneOf (S_Result s) [ResultAny; ResultAllowed; ResultDenied])) (ErrResult (S_Result s));
    fails (negb (oneOf (S_IPMode s) [IPAny; IPIn; IPNotIn])) (ErrIPMode (S_IPMode s));
    (if S_IPMode s != IPAny then
       let items := splitList (S_IPList s) in
       if (length items =? 0)%nat then Some ErrNoAddress
       else ErrNetwork <$> List.find bad_network items
     else None);
    fails (negb (oneOf (S_AlertEvery s) [AlertEach; AlertThreshold])) (ErrAlertMode (S_AlertEvery s));
    fails ((S_AlertEvery s == AlertThreshold)
           && ((S_ThN s <? 2) || (1000 <? S_ThN s) || (S_ThMin s <? 1) || (1440 <? S_ThMin s))%Z)
      ErrThreshold ].

Definition NeedsAPILog (r : Rule) : bool :=
  (S_IPMode (R_Spec r) != IPAny)
  || ((S_Result (R_Spec r) != "") && (S_Result (R_Spec r) != ResultAny))
  || any (λ k, (k == KindGet) || (k == KindList)) (S_Kinds (R_Spec r)).

(** ** Client addresses (clientip.go) *)

Definition maxTrustedProxies : nat := 64.

Inductive proxy_error := ErrTooManyProxies | ErrNotAddress (item : string) | ErrTrustsAll (item : string).

(** One item of the list: a single address or a network. *)
Definition parseProxy (item : string) : proxy_error + IPNet :=
  match ParseIP item with
  | Some ip =>
      let '(ip, bits) := match To4 ip with Some v4 => (v4, 32%Z) | None => (ip, 128%Z) end in
      inr {| IPNet_IP := ip; IPNet_Mask := CIDRMask bits bits |}
  | None =>
      match ParseCIDR item with
      | None => inl (ErrNotAddress item)
      | Some network =>
          let '(ones, bits) := Mask_Size (IPNet_Mask network) in
          let '(ones, network) :=
            match To4 (IPNet_IP network) with
            | Some v4 => if (bits =? 128)%Z
                         then (ones - 96, {| IPNet_IP := v4; IPNet_Mask := CIDRMask (ones - 96) 32 |})%Z
                         else (ones, network)
            | None => (ones, network)
            end in
          if (ones =? 0)%Z then inl (ErrTrustsAll item) else inr network
      end
  end.

Fixpoint parseProxies (items : list string) : proxy_error + list IPNet :=
  match items with
  | [] => inr []
  | item :: items' =>
      match parseProxy item with
      | inl e => inl e
      | inr n => match parseProxies items' with
                 | inl e => inl e
                 | inr ns => inr (n :: ns)
                 end
      end
  end.

Definition ParseProxies (l : string) : proxy_error + list IPNet :=
  let items := splitList l in
  if (maxTrustedProxies <? length items)%nat then inl ErrTooManyProxies else parseProxies items.

Definition trustedProxy (address : string) (trusted : list IPNet) : bool :=
  match ParseIP address with
  | None => false
  | Some ip => any (λ network, NetContains network ip) trusted
  end.

(** The loop runs from the end of the chain. *)
Definition ClientIP (chain : list string) (trusted : list IPNet) : string :=
  match find_last (λ a, negb (trustedProxy a trusted)) chain with
  | Some a => a
  | None => match chain with a :: _ => a | [] => "" end
  end.

(** ** Events (match.go) *)

Record Event := {
  E_ID : string;
  E_Timestamp : Time;
  E_User : string;
  E_ImpersonatedUser : string;
  E_ImpersonatedGroups : list string;
  E_ServiceAccount : string;
  E_Groups : list string;
  E_SourceIPs : list string;
  E_ClientIP : string;
  E_UserAgent : string;
  E_Kind : string;
  E_Resource : string;
  E_WebhookType : string;
  E_Namespace : string;
  E_Name : string;
  E_UID : string;
  E_ResourceVersion : string;
  E_PrevResourceVersion : string;
  E_Unchanged : bool;
  E_DryRun : bool;
  E_CompletedAt : option Time;
  E_Source : string;
  E_Attribution : string;
  E_Container : string;
  E_Commands : list string;
  E_Ports : list Z;
  E_Allowed : option bool;
  E_StatusCode : Z;
  E_AuditID : string;
}.

Definition AttributionUnconfirmed := "unconfirmed".

Definition IsAllowed (e : Event) : bool :=
  match E_Allowed e with None => true | Some b => b end.

Definition SourceIP (e : Event) : string :=
  if E_ClientIP e != "" then E_ClientIP e else ClientIP (E_SourceIPs e) [].

(** The index of the last hop equal to [client]. *)
Fixpoint last_index (client : string) (l : list string) : option nat :=
  match l with
  | [] => None
  | a :: l' => match last_index client l' with
               | Some i => Some (S i)
               | None => if a == client then Some O else None
               end
  end.

Definition ForwardedClaims (e : Event) : list string :=
  let client := SourceIP e in
  if client == "" then []
  else match last_index client (E_SourceIPs e) with
       | None | Some O => []
       | Some e' => filter (λ ip, ip ≠ client) (firstn e' (E_SourceIPs e))
       end.

Definition humanSystemUsers : list string := ["system:admin"].

Definition IsServiceIdentity (user : string) : bool :=
  HasPrefix user "system:" && negb (any (String.eqb user) humanSystemUsers).

Definition IsPerson (user : string) : bool :=
  (user != "") && (user != "unknown") && negb (IsServiceIdentity user).

(** ** Wildcards (match.go) *)

(** The loop over the middle pieces: the rest of the string, or a failed
    search. *)
Fixpoint glob_middle (parts : list string) (s : string) : option string :=
  match parts with
  | [] => Some s
  | p :: parts' => match Index s p with
                   | None => None
                   | Some i => glob_middle parts' (sdrop (i + String.length p) s)
                   end
  end.

Definition Glob (pattern s : string) : bool :=
  let pattern := ToLower pattern in
  let s := ToLower s in
  if negb (Contains pattern "*") then pattern == s
  else
    let parts := Split pattern "*" in
    let first := List.hd "" parts in
    let last := List.last parts "" in
    if negb (HasPrefix s first) then false
    else match glob_middle (removelast (List.tl parts)) (sdrop (String.length first) s) with
         | None => false
         | Some rest => HasSuffix rest last
         end.

Definition globAny (patterns : list string) (s : string) : bool := any (λ p, Glob p s) patterns.

(** ** Compiled rules (match.go) *)

(** A network or a wildcard. *)
Inductive ipPattern := ip_net (n : IPNet) | ip_glob (g : string).

(** [None] is the nil map of a rule without the filter. *)
Record compiled := {
  c_rule : Rule;
  c_kinds : gset string;
  c_resources : option (gset string);
  c_clusters : option (gset string);
  c_ns : list string;
  c_nsExclude : list string;
  c_objName : list string;
  c_users : list string;
  c_usersExclude : list string;
  c_ips : list ipPattern;
  c_cmd : string;
}.

Definition set_or_nil (l : list string) : option (gset string) :=
  if (0 <? length l)%nat then Some (list_to_set l) else None.

(** An unreadable network is dropped. *)
Definition compile_ip (it : string) : list ipPattern :=
  if Contains it "/" then
    match ParseCIDR it with Some n => [ip_net n] | None => [] end
  else [ip_glob it].

Definition compile (r : Rule) : compiled :=
  let s := R_Spec r in
  {| c_rule := r;
     c_kinds := list_to_set (S_Kinds s);
     c_resources := set_or_nil (S_Resources s);
     c_clusters := set_or_nil (S_Clusters s);
     c_ns := if (S_NS s != "") && (S_NS s != "*") then splitList (S_NS s) else [];
     c_nsExclude := splitList (S_NSExclude s);
     c_objName := splitList (S_ObjName s);
     c_users := splitList (S_Users s);
     c_usersExclude := splitList (S_UsersExclude s);
     c_ips := flat_map compile_ip (splitList (S_IPList s));
     c_cmd := ToLower (S_Cmd s) |}.

Definition ipHit (c : compiled) (ip : string) : bool :=
  let parsed := ParseIP ip in
  any (λ p, match p with
            | ip_net n => match parsed with Some a => NetContains n a | None => false end
            | ip_glob g => Glob g ip
            end) (c_ips c).

Definition nonempty {A} (l : list A) : bool := (0 <? length l)%nat.

(** A nil map lets every key through. *)
Definition in_filter (f : option (gset string)) (k : string) : bool :=
  match f with None => true | Some m => bool_decide (k ∈ m) end.

Definition subject_ok (subject user : string) : bool :=
  if subject == SubjectPeople then IsPerson user
  else if subject == SubjectSA then IsServiceIdentity user
  else true.

Definition result_ok (result : string) (ev : Event) : bool :=
  if result == ResultAllowed then match E_Allowed ev with None => false | Some b => b end
  else if result == ResultDenied then match E_Allowed ev with None => false | Some b => negb b end
  else true.

Definition matches (c : compiled) (cluster : string) (ev : Event) : bool :=
  let s := R_Spec (c_rule c) in
  if negb (in_filter (c_clusters c) cluster) then false
  else if negb (in_filter (c_resources c) (E_Resource ev)) then false
  else if nonempty (c_ns c) && negb (globAny (c_ns c) (E_Namespace ev)) then false
  else if nonempty (c_nsExclude c) && globAny (c_nsExclude c) (E_Namespace ev) then false
  else if nonempty (c_objName c) && negb (globAny (c_objName c) (E_Name ev)) then false
  else if negb (subject_ok (S_Subject s) (E_User ev)) then false
  else if nonempty (c_users c) && negb (globAny (c_users c) (E_User ev)) then false
  else if nonempty (c_usersExclude c) && globAny (c_usersExclude c) (E_User ev) then false
  else if S_Forwarded s && negb (nonempty (ForwardedClaims ev)) then false
  else if (S_IPMode s != IPAny)
          && ((SourceIP ev == "")
              || negb (Bool.eqb (S_IPMode s == IPIn) (ipHit c (SourceIP ev)))) then false
  else if negb (result_ok (S_Result s) ev) then false
  else if (c_cmd c != "") && negb (Contains (ToLower (Join (E_Commands ev) " ")) (c_cmd c)) then false
  else true.

(** ** The matcher (match.go) *)

Record Matcher := { M_byKind : gmap string (list compiled); M_count : nat }.

Definition NewMatcher : Matcher := {| M_byKind := ∅; M_count := 0 |}.

(** [byKind[k] = append(byKind[k], c)] *)
Definition add_kind (c : compiled) (m : gmap string (list compiled)) (k : string)
  : gmap string (list compiled) :=
  <[k := default [] (m !! k) ++ [c]]> m.

Definition add_rule {O : MapOrder} (acc : gmap string (list compiled) * nat) (r : Rule)
  : gmap string (list compiled) * nat :=
  if negb (R_Enabled r) && negb (R_Alert r) then acc
  else let c := compile r in
       (foldl (add_kind c) acc.1 (map_order (elements (c_kinds c))), S acc.2).

Definition Replace {O : MapOrder} (m : Matcher) (rules : list Rule) : Matcher :=
  let '(byKind, n) := foldl add_rule (∅, 0) rules in
  {| M_byKind := byKind; M_count := n |}.

Definition Len (m : Matcher) : nat := M_count m.

Definition skip_for_ip (onlyIPRules : bool) (c : compiled) : bool :=
  onlyIPRules && (S_IPMode (R_Spec (c_rule c)) == IPAny) && negb (S_Forwarded (R_Spec (c_rule c))).

Definition Match (m : Matcher) (cluster : string) (ev : Event) (onlyIPRules : bool) : list Rule :=
  let candidates := default [] (M_byKind m !! E_Kind ev) in
  map c_rule (List.filter (λ c, negb (skip_for_ip onlyIPRules c) && matches c cluster ev) candidates).

(** ** The built-in catalogue (catalog.go) *)

Record Builtin := mkBuiltin {
  B_ID : string;
  B_Group : string;
  B_Name : string;
  B_Kind : string;
  B_Resource : string;
  B_Severity : string;
  B_Enabled : bool;
}.

Definition Catalog : list Builtin :=
  [mkBuiltin "exec-pod" "Pod Access" "Exec into pod" KindExec "" SevHigh true;
   mkBuiltin "attach-pod" "Pod Access" "Attach to pod" KindAttach "" SevHigh true;
   mkBuiltin "portforward-pod" "Pod Access" "Port-forward to pod" KindPortForward "" SevHigh true;
   mkBuiltin "pod-create" "Workloads" "Pod created" KindCreate "pods" SevLow false;
   mkBuiltin "pod-delete" "Workloads" "Pod deleted" KindDelete "pods" SevLow false;
   mkBuiltin "deploy-create" "Workloads" "Deployment created" KindCreate "deployments" SevLow false;
   mkBuiltin "deploy-update" "Workloads" "Deployment updated" KindUpdate "deployments" SevLow false;
   mkBuiltin "daemonset-create" "Workloads" "DaemonSet created" KindCreate "daemonsets" SevMedium true;
   mkBuiltin "daemonset-update" "Workloads" "DaemonSet updated" KindUpdate "daemonsets" SevLow false;
   mkBuiltin "job-create" "Workloads" "Job created" KindCreate "jobs" SevLow false;
   mkBuiltin "cronjob-create" "Workloads" "CronJob created" KindCreate "cronjobs" SevMedium false;
   mkBuiltin "secret-create" "Secrets" "Secret created" KindCreate "secrets" SevMedium false;
   mkBuiltin "secret-delete" "Secrets" "Secret deleted" KindDelete "secrets" SevMedium true;
   mkBuiltin "configmap-update" "Secrets" "ConfigMap updated" KindUpdate "configmaps" SevLow false;
   mkBuiltin "role-create" "RBAC" "Role created" KindCreate "roles" SevMedium true;
   mkBuiltin "clusterrole-create" "RBAC" "ClusterRole created" KindCreate "clusterroles" SevHigh true;
   mkBuiltin "rolebinding-create" "RBAC" "RoleBinding created" KindCreate "rolebindings" SevMedium true;
   mkBuiltin "rolebinding-delete" "RBAC" "RoleBinding deleted" KindDelete "rolebindings" SevMedium false;
   mkBuiltin "crb-create" "RBAC" "ClusterRoleBinding created" KindCreate "clusterrolebindings" SevCritical true;
   mkBuiltin "crb-delete" "RBAC" "ClusterRoleBinding deleted" KindDelete "clusterrolebindings" SevMedium true;
   mkBuiltin "mwh-create" "Admission" "MutatingWebhook created" KindCreate "mutatingwebhookconfigurations" SevCritical true;
   mkBuiltin "mwh-update" "Admission" "MutatingWebhook updated" KindUpdate "mutatingwebhookconfigurations" SevHigh true;
   mkBuiltin "mwh-delete" "Admission" "MutatingWebhook deleted" KindDelete "mutatingwebhookconfigurations" SevHigh true;
   mkBuiltin "vwh-create" "Admission" "ValidatingWebhook created" KindCreate "validatingwebhookconfigurations" SevHigh true;
   mkBuiltin "vwh-update" "Admission" "ValidatingWebhook updated" KindUpdate "validatingwebhookconfigurations" SevHigh true;
   mkBuiltin "vwh-delete" "Admission" "ValidatingWebhook deleted" KindDelete "validatingwebhookconfigurations" SevHigh true;
   mkBuiltin "ns-create" "Infrastructure" "Namespace created" KindCreate "namespaces" SevLow false;
   mkBuiltin "ns-delete" "Infrastructure" "Namespace deleted" KindDelete "namespaces" SevHigh true;
   mkBuiltin "node-create" "Infrastructure" "Node joined cluster" KindCreate "nodes" SevMedium true;
   mkBuiltin "sa-create" "Infrastructure" "ServiceAccount created" KindCreate "serviceaccounts" SevMedium true;
   mkBuiltin "sa-delete" "Infrastructure" "ServiceAccount deleted" KindDelete "serviceaccounts" SevLow false].

(** The zero [Spec] with the given kinds, resources and forwarded flag. *)
Definition zeroSpec (kinds resources : list string) (forwarded : bool) : Spec :=
  {| S_Kinds := kinds; S_Resources := resources; S_NS := ""; S_NSExclude := ""; S_ObjName := "";
     S_Subject := ""; S_Users := ""; S_UsersExclude := ""; S_IPMode := ""; S_IPList := "";
     S_Forwarded := forwarded; S_Result := ""; S_Cmd := ""; S_AlertEvery := ""; S_ThN := 0;
     S_ThMin := 0; S_Clusters := [] |}.

Definition builtinRule (b : Builtin) : Rule :=
  Normalize
    {| R_ID := B_ID b; R_Name := B_Name b; R_Group := B_Group b; R_Origin := OriginBuiltin;
       R_Enabled := B_Enabled b; R_Alert := false; R_Severity := B_Severity b;
       R_Spec := zeroSpec [B_Kind b] (if B_Resource b != "" then [B_Resource b] else []) false;
       R_UpdatedBy := ""; R_UpdatedAt := 0%Z |}.

Definition signals : list Rule :=
  [ {| R_ID := "forwarded-spoof"; R_Name := "X-Forwarded-For set by the client"; R_Group := "Spoofing";
       R_Origin := OriginBuiltin; R_Enabled := true; R_Alert := false; R_Severity := SevHigh;
       R_Spec := zeroSpec [] [] true; R_UpdatedBy := ""; R_UpdatedAt := 0%Z |} ].

Definition with_kinds (r : Rule) (kinds : list string) : Rule :=
  let s := R_Spec r in
  {| R_ID := R_ID r; R_Name := R_Name r; R_Group := R_Group r; R_Origin := R_Origin r;
     R_Enabled := R_Enabled r; R_Alert := R_Alert r; R_Severity := R_Severity r;
     R_Spec := {| S_Kinds := kinds; S_Resources := S_Resources s; S_NS := S_NS s;
       S_NSExclude := S_NSExclude s; S_ObjName := S_ObjName s; S_Subject := S_Subject s;
       S_Users := S_Users s; S_UsersExclude := S_UsersExclude s; S_IPMode := S_IPMode s;
       S_IPList := S_IPList s; S_Forwarded := S_Forwarded s; S_Result := S_Result s;
       S_Cmd := S_Cmd s; S_AlertEvery := S_AlertEvery s; S_ThN := S_ThN s; S_ThMin := S_ThMin s;
       S_Clusters := S_Clusters s |};
     R_UpdatedBy := R_UpdatedBy r; R_UpdatedAt := R_UpdatedAt r |}.

Definition BuiltinRules : list Rule :=
  map builtinRule Catalog ++ map (λ r, Normalize (with_kinds r Kinds)) signals.

Definition LookupBuiltin (id : string) : option Builtin := List.find (λ b, B_ID b == id) Catalog.
End tables.
