(* ===== verification/AuditRulesProps.v ===== *)
(** * Properties of pkg/auditrules

    Wildcards decide their declarative meaning; the client address of a chain
    cannot be forged by the client; a trusted-proxy list never trusts every
    address; compiled rules and the matcher refine a declarative reading of
    the rules; normalisation is idempotent and validation decides
    well-formedness; the catalogue is well formed. *)

From Stdlib Require Import Ascii.
From stdpp Require Import base list gmap strings.
From S2P Require Import Prelude GoStrings GlobSpec GoNet AuditRules.
Local Open Scope string_scope.
Local Open Scope list_scope.
Local Open Scope go_scope.

(** ** Wildcards *)

Lemma last_snoc_tail {A} (d p x : A) mid : List.last (p :: mid ++ [x]) d = x.
Proof. change (p :: mid ++ [x]) with ((p :: mid) ++ [x]). apply last_last. Qed.

Lemma glob_middle_greedy mid last s :
  match glob_middle mid s with None => false | Some rest => HasSuffix rest last end
  = greedy mid last s.
Proof.
  revert s. induction mid as [|p mid IH]; intros s; [done|].
  cbn. by destruct (Index s p).
Qed.

Section glob.
Context {T : CaseTables}.

Lemma Glob_glob pattern s :
  Glob pattern s = true ↔ glob (ToLower pattern) (ToLower s).
Proof.
  unfold Glob. set (p := ToLower pattern). set (t := ToLower s).
  destruct (Contains p "*") eqn:E; simpl negb; cbn [negb].
  - destruct (Split_many _ _ E) as (q & mid & last & Hs).
    assert (glob p t ↔ placed (q :: mid ++ [last]) t) as ->.
    { rewrite <-glob_placed, <-Hs; [by setoid_rewrite (Join_Split p star)|..];
        rewrite <-Hs; [apply Split_nonempty|apply Split_lacks]. }
    rewrite Hs.
    rewrite placed_greedy, last_snoc_tail. cbn [List.hd List.tl].
    rewrite removelast_last, <-glob_middle_greedy.
    destruct (HasPrefix t q); simpl; intuition congruence.
  - rewrite String.eqb_eq. apply lacks_Contains in E.
    pose proof (glob_placed [p] t) as Hp. cbn in Hp. rewrite Hp by (done || by repeat constructor).
    split; congruence.
Qed.

(** C1: [Glob] decides the declarative meaning of the pattern, case-insensitively:
    it accepts a string exactly when the lowered pattern, read with [*] as any
    byte sequence, matches the lowered string. *)
Theorem Glob_correct pattern s :
  Glob pattern s = true ↔ glob (ToLower pattern) (ToLower s).
Proof. apply Glob_glob. Qed.
End glob.

(** ** Client addresses *)

Section clientip.

(** C2: entries put in front of a chain (a client can forge them in
    X-Forwarded-For) never change the client address, as long as the chain has
    one hop that is not a trusted proxy. *)
Theorem ClientIP_forged_prefix forged chain trusted :
  (∃ a, a ∈ chain ∧ trustedProxy a trusted = false) →
  ClientIP (forged ++ chain) trusted = ClientIP chain trusted.
Proof.
  intros (a & Ha & Hf). unfold ClientIP. rewrite find_last_app.
  destruct (find_last _ chain) eqn:E; [done|].
  apply find_last_None in E. rewrite Forall_forall in E.
  specialize (E a Ha). simpl in E. by rewrite Hf in E.
Qed.

(** The client address is the last hop that is not a trusted proxy; every
    hop after it is trusted. *)
Theorem ClientIP_last_untrusted chain trusted :
  (∃ before after, chain = before ++ ClientIP chain trusted :: after
     ∧ trustedProxy (ClientIP chain trusted) trusted = false
     ∧ Forall (λ a, trustedProxy a trusted = true) after)
  ∨ (Forall (λ a, trustedProxy a trusted = true) chain
     ∧ ClientIP chain trusted = List.hd "" chain).
Proof.
  unfold ClientIP. destruct (find_last _ chain) as [a|] eqn:E.
  - left. apply find_last_Some in E as (l1 & l2 & -> & Ha & Hl2).
    exists l1, l2. split; [done|]. split; [by apply negb_true_iff|].
    eapply Forall_impl; [exact Hl2|]. intros x. by rewrite negb_false_iff.
  - right. apply find_last_None in E. split.
    + eapply Forall_impl; [exact E|]. intros x. by rewrite negb_false_iff.
    + by destruct chain.
Qed.

End clientip.

(** Witness of [ClientIP_forged_prefix]: one trusted proxy, one real client. *)
Definition ten_net : list IPNet := [{| IPNet_IP := [10; 0; 0; 0]%Z; IPNet_Mask := CIDRMask 8 32 |}].

Lemma ClientIP_forged_prefix_witness :
  ClientIP (["1.1.1.1"; "10.9.9.9"] ++ ["203.0.113.7"; "10.0.0.1"]) ten_net
    = ClientIP ["203.0.113.7"; "10.0.0.1"] ten_net
  ∧ ClientIP ["203.0.113.7"; "10.0.0.1"] ten_net = "203.0.113.7".
Proof.
  split; [|vm_compute; reflexivity].
  apply (ClientIP_forged_prefix ["1.1.1.1"; "10.9.9.9"]).
  exists "203.0.113.7". split; [left|vm_compute; reflexivity].
Defined.

(** ** Trusted proxies *)

Lemma To4_mask ip ones v4 :
  length ip = 16%nat → (0 ≤ ones ≤ 128)%Z →
  To4 (and_bytes ip (CIDRMask ones 128)) = Some v4 → length v4 = 4%nat ∧ (96 ≤ ones)%Z.
Proof.
  intros Hlen Ho H. unfold To4 in H.
  rewrite and_bytes_length, CIDRMask_length, Hlen in H. cbn [Nat.eqb andb Nat.min] in H.
  change (Z.to_nat (128 / 8)) with 16%nat in H. cbn [Nat.eqb andb Nat.min] in H.
  case_match eqn:E; [|done]. apply zlist_eqb_eq in E. simplify_eq. split.
  - by rewrite length_skipn, and_bytes_length, CIDRMask_length, Hlen.
  - apply mask_byte_11; [lia|].
    do 16 (destruct ip as [|? ip]; [done|]).
    assert (Z.land z10 (mask_byte ones 11) = 255%Z) as Hb by (cbn in E; by injection E).
    apply (f_equal (λ z, Z.testbit z 0)) in Hb. rewrite Z.land_spec in Hb.
    change (Z.testbit 255 0) with true in Hb. by apply andb_true_iff in Hb as [_ ?].
Qed.

(** The networks of a proxy list: same length of address and mask, and a mask
    that fixes at least one bit. *)
Lemma parseProxy_leaves_out item n :
  parseProxy item = inr n →
  ∃ ip, length ip = length (IPNet_IP n) ∧ NetContains n ip = false.
Proof.
  unfold parseProxy. destruct (ParseIP item) as [ip|] eqn:Eip.
  { apply ParseIP_length in Eip. destruct (To4 ip) as [v4|] eqn:E4; intros [= <-].
    - apply leaves_out; simpl; [..|done]; unfold To4 in E4; rewrite Eip in E4; simpl in E4;
        case_match; simplify_eq; rewrite length_skipn, Eip; auto.
    - apply leaves_out; simpl; auto. }
  destruct (ParseCIDR item) as [net|] eqn:Ec; [|done].
  apply ParseCIDR_spec in Ec as (ones & Ho & [(Hle & Hm & Hl)|(Hle & Hm & ip & Hip & Hi)]);
    rewrite Hm.
  - rewrite Mask_Size_32 by lia. change (32 =? 128)%Z with false.
    intros H. assert ((ones =? 0)%Z = false ∧ net = n) as [Hz ->].
    { destruct (To4 (IPNet_IP net)), (ones =? 0)%Z; simplify_eq; done. }
    bool_hyps. apply leaves_out; rewrite ?Hm, ?Hl; auto.
    apply mask_top_bit; lia.
  - rewrite Mask_Size_128 by lia. change (128 =? 128)%Z with true.
    destruct (To4 (IPNet_IP net)) as [v4|] eqn:E4.
    + rewrite Hi in E4. apply To4_mask in E4 as [Hl4 H96]; [|done|lia].
      case_if; [done|]. intros [= <-]. apply leaves_out; simpl; rewrite ?Hl4; auto.
      apply mask_top_bit; lia.
    + assert (length (IPNet_IP net) = 16%nat) as Hl16
        by (rewrite Hi, and_bytes_length, CIDRMask_length, Hip; done).
      case_if; [done|]. intros [= ->]. apply leaves_out; rewrite ?Hm, ?Hl16; auto.
      apply mask_top_bit; lia.
Qed.

Lemma parseProxies_all items nets :
  parseProxies items = inr nets →
  length nets = length items ∧
  Forall (λ n, ∃ ip, length ip = length (IPNet_IP n) ∧ NetContains n ip = false) nets.
Proof.
  revert nets. induction items as [|item items IH]; simpl; intros nets H; [by simplify_eq|].
  destruct (parseProxy item) as [|n] eqn:En; [done|].
  destruct (parseProxies items) as [|ns]; [done|]. simplify_eq/=.
  destruct (IH ns eq_refl) as [Hl ?]. split; [lia|].
  constructor; [by eapply parseProxy_leaves_out|done].
Qed.

(** A list of trusted proxies that is accepted has at most 64 networks, and
    none of them covers all addresses of its family: each leaves out some
    address of the same length. *)
Theorem ParseProxies_never_all l nets :
  ParseProxies l = inr nets →
  (length nets ≤ 64)%nat ∧
  Forall (λ n, ∃ ip, length ip = length (IPNet_IP n) ∧ NetContains n ip = false) nets.
Proof.
  unfold ParseProxies, maxTrustedProxies. case_if; [done|].
  intros [Hl ?]%parseProxies_all. split; [lia|done].
Qed.

Lemma ParseProxies_never_all_witness :
  ∃ nets, ParseProxies "10.0.0.0/8, ::ffff:192.0.2.0/120 , 2001:db8::1" = inr nets
    ∧ (length nets ≤ 64)%nat
    ∧ Forall (λ n, ∃ ip, length ip = length (IPNet_IP n) ∧ NetContains n ip = false) nets.
Proof.
  eexists. split; [vm_compute; reflexivity|].
  apply (ParseProxies_never_all "10.0.0.0/8, ::ffff:192.0.2.0/120 , 2001:db8::1").
  vm_compute. reflexivity.
Defined.

Example ParseProxies_refuses_all :
  ParseProxies "10.0.0.1, ::ffff:0:0/96" = inl (ErrTrustsAll "::ffff:0:0/96").
Proof. vm_compute. reflexivity. Qed.

(** ** What a rule means

    The declarative reading of a rule, independent of how it is compiled. *)

Section meaning.
Context {T : CaseTables}.

(** [s] matches one of the comma-separated patterns of [l]. *)
Definition listed (l s : string) : Prop :=
  ∃ p, p ∈ splitList l ∧ glob (ToLower p) (ToLower s).

(** [ip] is covered by one of the comma-separated networks or wildcards. *)
Definition ip_listed (l ip : string) : Prop :=
  ∃ it, it ∈ splitList l ∧
    if Contains it "/"
    then ∃ n a, ParseCIDR it = Some n ∧ ParseIP ip = Some a ∧ NetContains n a = true
    else glob (ToLower it) (ToLower ip).

Record rule_applies (r : Rule) (cluster : string) (ev : Event) : Prop := {
  ra_cluster : S_Clusters (R_Spec r) = [] ∨ cluster ∈ S_Clusters (R_Spec r);
  ra_resource : S_Resources (R_Spec r) = [] ∨ E_Resource ev ∈ S_Resources (R_Spec r);
  ra_ns : splitList (S_NS (R_Spec r)) = [] ∨ listed (S_NS (R_Spec r)) (E_Namespace ev);
  ra_nsExclude : ¬ listed (S_NSExclude (R_Spec r)) (E_Namespace ev);
  ra_objName : splitList (S_ObjName (R_Spec r)) = [] ∨ listed (S_ObjName (R_Spec r)) (E_Name ev);
  ra_people : S_Subject (R_Spec r) = SubjectPeople → IsPerson (E_User ev) = true;
  ra_sa : S_Subject (R_Spec r) = SubjectSA → IsServiceIdentity (E_User ev) = true;
  ra_users : splitList (S_Users (R_Spec r)) = [] ∨ listed (S_Users (R_Spec r)) (E_User ev);
  ra_usersExclude : ¬ listed (S_UsersExclude (R_Spec r)) (E_User ev);
  ra_forwarded : S_Forwarded (R_Spec r) = true → ForwardedClaims ev ≠ [];
  ra_ip : S_IPMode (R_Spec r) ≠ IPAny →
    SourceIP ev ≠ "" ∧ (S_IPMode (R_Spec r) = IPIn ↔ ip_listed (S_IPList (R_Spec r)) (SourceIP ev));
  ra_allowed : S_Result (R_Spec r) = ResultAllowed → E_Allowed ev = Some true;
  ra_denied : S_Result (R_Spec r) = ResultDenied → E_Allowed ev = Some false;
  ra_cmd : Contains (ToLower (Join (E_Commands ev) " ")) (ToLower (S_Cmd (R_Spec r))) = true;
}.

Lemma globAny_listed l s : globAny (splitList l) s = true ↔ listed l s.
Proof.
  unfold globAny, listed. rewrite any_true.
  split; intros (p & Hp & H); exists p; (split; [done|]); by apply Glob_glob.
Qed.

Lemma nonempty_false {A} (l : list A) : nonempty l = false ↔ l = [].
Proof. by destruct l. Qed.

Lemma set_or_nil_ok l k : in_filter (set_or_nil l) k = true ↔ l = [] ∨ k ∈ l.
Proof.
  unfold in_filter, set_or_nil. destruct l as [|a l]; simpl; [tauto|].
  rewrite bool_decide_eq_true, elem_of_union, elem_of_singleton, elem_of_list_to_set, elem_of_cons.
  split; [tauto|]. intros [?|?]; [done|tauto].
Qed.

(** An inclusion filter that is skipped when its list is empty. *)
Lemma include_ok l s :
  nonempty (splitList l) && negb (globAny (splitList l) s) = false ↔ splitList l = [] ∨ listed l s.
Proof.
  rewrite andb_false_iff, nonempty_false, negb_false_iff, globAny_listed. done.
Qed.

Lemma exclude_ok l s :
  nonempty (splitList l) && globAny (splitList l) s = false ↔ ¬ listed l s.
Proof.
  rewrite <-globAny_listed, andb_false_iff, nonempty_false, not_true_iff_false.
  split; [|tauto]. intros [Hl|]; [|done]. by rewrite Hl.
Qed.

Lemma glob_any_string s : glob "*" s.
Proof. apply glob_star. exists s, "". rewrite app_nil_r_s. split; [done|constructor]. Qed.

Lemma splitList_star : splitList "*" = ["*"].
Proof. reflexivity. Qed.

Lemma ToLower_star : ToLower "*" = "*".
Proof. reflexivity. Qed.

Lemma ns_ok r s :
  nonempty (c_ns (compile r)) && negb (globAny (c_ns (compile r)) s) = false ↔
  splitList (S_NS (R_Spec r)) = [] ∨ listed (S_NS (R_Spec r)) s.
Proof.
  simpl. destruct (S_NS (R_Spec r) == "") eqn:E1; [|destruct (S_NS (R_Spec r) == "*") eqn:E2]; simpl; bool_hyps.
  - rewrite E1. split; [by left|done].
  - rewrite E2. split; [|done]. intros _. right. exists "*".
    rewrite splitList_star, ToLower_star. split; [left|apply glob_any_string].
  - apply include_ok.
Qed.

Lemma ipHit_listed r ip : ipHit (compile r) ip = true ↔ ip_listed (S_IPList (R_Spec r)) ip.
Proof.
  unfold ipHit, ip_listed. rewrite any_true. simpl. unfold compile_ip.
  split.
  - intros (p & Hp & Hok). apply list_elem_of_In, in_flat_map in Hp as (it & Hit & Hin).
    exists it. split; [by apply list_elem_of_In|].
    destruct (Contains it "/"); [destruct (ParseCIDR it) as [n|] eqn:E; [|done]|];
      simpl in Hin; destruct Hin as [<-|[]].
    + destruct (ParseIP ip) as [a|] eqn:Ea; [|done]. by exists n, a.
    + by apply Glob_glob.
  - intros (it & Hit & H). destruct (Contains it "/") eqn:Ec.
    + destruct H as (n & a & Hn & Ha & Hc). exists (ip_net n). rewrite Ha. split; [|done].
      apply list_elem_of_In, in_flat_map. exists it. split; [by apply list_elem_of_In|].
      rewrite Ec, Hn. by left.
    + exists (ip_glob it). split; [|by apply Glob_glob].
      apply list_elem_of_In, in_flat_map. exists it. split; [by apply list_elem_of_In|].
      rewrite Ec. by left.
Qed.

Lemma subject_ok_spec sub user :
  subject_ok sub user = true ↔
  (sub = SubjectPeople → IsPerson user = true) ∧ (sub = SubjectSA → IsServiceIdentity user = true).
Proof.
  unfold subject_ok. repeat case_if; subst; split; intuition (done || congruence).
Qed.

Lemma result_ok_spec res ev :
  result_ok res ev = true ↔
  (res = ResultAllowed → E_Allowed ev = Some true) ∧ (res = ResultDenied → E_Allowed ev = Some false).
Proof.
  unfold result_ok. repeat case_if; subst; destruct (E_Allowed ev) as [[]|]; simpl;
    split; try (intros [H1 H2]); try (by specialize (H1 eq_refl)); try (by specialize (H2 eq_refl));
    try done; intros; split; intros; congruence.
Qed.

Lemma ip_ok r ev :
  (S_IPMode (R_Spec r) != IPAny)
  && ((SourceIP ev == "")
      || negb (Bool.eqb (S_IPMode (R_Spec r) == IPIn) (ipHit (compile r) (SourceIP ev)))) = false ↔
  (S_IPMode (R_Spec r) ≠ IPAny →
   SourceIP ev ≠ "" ∧ (S_IPMode (R_Spec r) = IPIn ↔ ip_listed (S_IPList (R_Spec r)) (SourceIP ev))).
Proof.
  rewrite <-ipHit_listed.
  destruct (String.eqb_spec (S_IPMode (R_Spec r)) IPAny) as [->|Hany]; simpl; [tauto|].
  destruct (String.eqb_spec (SourceIP ev) "") as [->|Hsrc]; simpl; [split; [done|tauto]|].
  destruct (String.eqb_spec (S_IPMode (R_Spec r)) IPIn) as [Hin|Hin];
    destruct (ipHit (compile r) (SourceIP ev)); simpl; split; try done;
    try (intros _ _; split; [done|tauto || split; congruence]);
    intros H; destruct (H Hany) as [_ [H1 H2]]; [by specialize (H1 Hin)|by destruct Hin; apply H2].
Qed.

Lemma if_false_andb (b c : bool) : (if b then false else c) = negb b && c.
Proof. by destruct b. Qed.

Lemma matches_applies r cluster ev :
  matches (compile r) cluster ev = true ↔ rule_applies r cluster ev.
Proof.
  unfold matches. change (c_rule (compile r)) with r.
  rewrite !if_false_andb, !negb_involutive, andb_true_r, !andb_true_iff, !negb_true_iff.
  change (c_clusters (compile r)) with (set_or_nil (S_Clusters (R_Spec r))).
  change (c_resources (compile r)) with (set_or_nil (S_Resources (R_Spec r))).
  rewrite !set_or_nil_ok, ns_ok, ip_ok, subject_ok_spec, result_ok_spec.
  cbn [compile c_nsExclude c_objName c_users c_usersExclude c_cmd].
  rewrite !exclude_ok, !include_ok.
  rewrite !andb_false_iff, !negb_false_iff.
  assert (((ToLower (S_Cmd (R_Spec r)) == "") = true
            ∨ Contains (ToLower (Join (E_Commands ev) " ")) (ToLower (S_Cmd (R_Spec r))) = true)
          ↔ Contains (ToLower (Join (E_Commands ev) " ")) (ToLower (S_Cmd (R_Spec r))) = true) as ->.
  { split; [|tauto]. intros [->%String.eqb_eq|?]; [apply Contains_empty|done]. }
  assert ((S_Forwarded (R_Spec r) = false ∨ nonempty (ForwardedClaims ev) = true)
          ↔ (S_Forwarded (R_Spec r) = true → ForwardedClaims ev ≠ [])) as ->.
  { rewrite <-nonempty_false. destruct (S_Forwarded (R_Spec r)), (nonempty (ForwardedClaims ev)); intuition congruence. }
  split; [intros H; decompose [and] H; by constructor|intros []; tauto].
Qed.

(** ** The matcher *)

Definition active (r : Rule) : bool := R_Enabled r || R_Alert r.

Lemma foldl_add_kind c ks m k :
  NoDup ks →
  foldl (add_kind c) m ks !! k = if bool_decide (k ∈ ks) then Some (default [] (m !! k) ++ [c]) else m !! k.
Proof.
  revert m. induction ks as [|a ks IH]; intros m Hnd; [done|]. inv Hnd. simpl. rewrite IH by done.
  unfold add_kind. destruct (decide (a = k)) as [->|Hne].
  - rewrite (bool_decide_eq_false_2 (k ∈ ks)), (bool_decide_eq_true_2 (k ∈ k :: ks)) by (done || left).
    by rewrite lookup_insert_eq.
  - rewrite lookup_insert_ne by done.
    rewrite (bool_decide_ext (k ∈ a :: ks) (k ∈ ks)); [done|]. rewrite elem_of_cons. naive_solver.
Qed.

Lemma add_rules_lookup {O : MapOrder} rules acc k :
  default [] ((foldl add_rule acc rules).1 !! k)
  = default [] (acc.1 !! k)
    ++ map compile (List.filter (λ r, active r && any (String.eqb k) (S_Kinds (R_Spec r))) rules).
Proof.
  revert acc. induction rules as [|r rules IH]; intros acc; [by rewrite app_nil_r|].
  cbn [foldl]. rewrite IH. unfold add_rule at 1. cbn [List.filter]. unfold active at 2.
  rewrite <-negb_orb. destruct (R_Enabled r || R_Alert r); simpl negb; cbn [negb andb]; [|done].
  cbn [fst]. rewrite foldl_add_kind.
  2: { rewrite map_order_perm. apply NoDup_elements. }
  assert (bool_decide (k ∈ map_order (elements (c_kinds (compile r))))
          = any (String.eqb k) (S_Kinds (R_Spec r))) as ->.
  { apply eq_true_iff_eq. rewrite bool_decide_eq_true, map_order_perm, elem_of_elements.
    simpl. rewrite elem_of_list_to_set, any_true.
    split; [intros ?; exists k; by rewrite String.eqb_refl|by intros (x & ? & ->%String.eqb_eq)]. }
  destruct (any _ _); [|done]. simpl. by rewrite <-app_assoc.
Qed.

(** C3: after [Replace], [Match] reports exactly the rules that are enabled or
    alerting, list the event's kind, pass the source-IP restriction when it is
    asked for, and apply to the event by the declarative reading; it keeps
    their order. *)
Theorem Match_exact {O : MapOrder} m rules cluster ev onlyIP :
  (∀ r, r ∈ Match (Replace m rules) cluster ev onlyIP ↔
     r ∈ rules ∧ (R_Enabled r = true ∨ R_Alert r = true) ∧ E_Kind ev ∈ S_Kinds (R_Spec r)
     ∧ (onlyIP = true → S_IPMode (R_Spec r) ≠ IPAny ∨ S_Forwarded (R_Spec r) = true)
     ∧ rule_applies r cluster ev)
  ∧ sublist (Match (Replace m rules) cluster ev onlyIP) rules.
Proof.
  assert (Match (Replace m rules) cluster ev onlyIP
    = List.filter (λ r, active r && any (String.eqb (E_Kind ev)) (S_Kinds (R_Spec r))
        && (negb (skip_for_ip onlyIP (compile r)) && matches (compile r) cluster ev)) rules) as ->.
  { unfold Match, Replace. pose proof (add_rules_lookup rules (∅, 0) (E_Kind ev)) as H.
    destruct (foldl add_rule (∅, 0) rules) as [bk n]. cbn [fst M_byKind] in *. rewrite H, lookup_empty. simpl.
    clear H. induction rules as [|r rules IH]; [done|]. cbn [List.filter].
    destruct (active r && _); simpl; [|done]. destruct (_ && _); simpl; by rewrite IH. }
  split.
  - intros r. rewrite list_elem_of_In, filter_In, <-list_elem_of_In.
    unfold active, skip_for_ip. change (c_rule (compile r)) with r.
    rewrite !andb_true_iff, orb_true_iff, any_true, negb_true_iff, matches_applies, !andb_false_iff, negb_false_iff.
    rewrite String.eqb_neq. split.
    + intros (Hr & (Ha & x & Hx & ->%String.eqb_eq) & Hskip & Happ). split_and!; auto.
      intros ->. destruct Hskip as [[?|?]|?]; [done|by left|by right].
    + intros (Hr & Ha & Hk & Hskip & Happ). split_and!; auto.
      * exists (E_Kind ev). split; [done|apply String.eqb_refl].
      * destruct onlyIP; [|by left; left]. destruct (Hskip eq_refl); [by left; right|by right].
  - clear. induction rules as [|r rules IH]; simpl; [constructor|]. destruct (_ && _ && _); by constructor.
Qed.
End meaning.

(** ** Validation *)

Section validation.
Context {T : CaseTables}.

Record valid_rule (r : Rule) : Prop := {
  v_id : idRe (R_ID r) = true;
  v_name : R_Name r ≠ "" ∧ (String.length (R_Name r) ≤ 120)%nat;
  v_severity : R_Severity r ∈ Severities;
  v_kinds : S_Kinds (R_Spec r) ≠ [] ∧ Forall (.∈ Kinds) (S_Kinds (R_Spec r));
  v_items : (length (S_Resources (R_Spec r)) ≤ 64 ∧ length (S_Clusters (R_Spec r)) ≤ 64)%nat;
  v_resources : Forall (λ s, resourceRe s = true) (S_Resources (R_Spec r));
  v_patterns : Forall (λ p, String.length p.2 ≤ 400)%nat (patterns (R_Spec r));
  v_subject : S_Subject (R_Spec r) ∈ [SubjectAny; SubjectPeople; SubjectSA];
  v_result : S_Result (R_Spec r) ∈ [ResultAny; ResultAllowed; ResultDenied];
  v_ipMode : S_IPMode (R_Spec r) ∈ [IPAny; IPIn; IPNotIn];
  v_addresses : S_IPMode (R_Spec r) ≠ IPAny →
    splitList (S_IPList (R_Spec r)) ≠ [] ∧
    Forall (λ it, Contains it "/" = true → is_Some (ParseCIDR it)) (splitList (S_IPList (R_Spec r)));
  v_alertEvery : S_AlertEvery (R_Spec r) ∈ [AlertEach; AlertThreshold];
  v_threshold : S_AlertEvery (R_Spec r) = AlertThreshold →
    (2 ≤ S_ThN (R_Spec r) ≤ 1000 ∧ 1 ≤ S_ThMin (R_Spec r) ≤ 1440)%Z;
}.

Lemma first_error_None cs : first_error cs = None ↔ Forall (.= None) cs.
Proof.
  induction cs as [|[e|] cs IH]; simpl; [split; auto|..]; rewrite Forall_cons.
  - split; [done|]. by intros [? _].
  - rewrite IH. tauto.
Qed.

Lemma fails_None b e : fails b e = None ↔ b = false.
Proof. by destruct b. Qed.

Lemma oneOf_spec v l : oneOf v l = true ↔ v ∈ l.
Proof.
  unfold oneOf. rewrite any_true. split; [by intros (x & ? & ->%String.eqb_eq)|].
  intros ?. exists v. by rewrite String.eqb_refl.
Qed.

Lemma find_bad {A} (f : A → bool) (P : A → Prop) l :
  (∀ x, f x = false ↔ P x) → List.find f l = None ↔ Forall P l.
Proof.
  intros H. rewrite find_None.
  split; intros Hl; (eapply Forall_impl; [exact Hl|]); intros x; apply H.
Qed.

Lemma bad_network_ok it :
  bad_network it = false ↔ (Contains it "/" = true → is_Some (ParseCIDR it)).
Proof.
  unfold bad_network. destruct (Contains it "/"); simpl; [|by split].
  destruct (ParseCIDR it); split; intros H; try done.
  by destruct (H eq_refl).
Qed.

Lemma address_check s :
  (if S_IPMode s != IPAny then
     if (length (splitList (S_IPList s)) =? 0)%nat then Some ErrNoAddress
     else ErrNetwork <$> List.find bad_network (splitList (S_IPList s))
   else None) = None ↔
  (S_IPMode s ≠ IPAny → splitList (S_IPList s) ≠ [] ∧
     Forall (λ it, Contains it "/" = true → is_Some (ParseCIDR it)) (splitList (S_IPList s))).
Proof.
  destruct (String.eqb_spec (S_IPMode s) IPAny) as [->|Hm]; simpl; [tauto|].
  destruct (splitList (S_IPList s)) as [|i l]; simpl length; cbn [Nat.eqb].
  - split; [done|]. intros H. by destruct (H Hm).
  - rewrite fmap_None, (find_bad _ _ _ bad_network_ok). split; [done|]. intros H. by apply H.
Qed.

Lemma threshold_check s :
  (S_AlertEvery s == AlertThreshold)
  && ((S_ThN s <? 2) || (1000 <? S_ThN s) || (S_ThMin s <? 1) || (1440 <? S_ThMin s))%Z = false ↔
  (S_AlertEvery s = AlertThreshold → (2 ≤ S_ThN s ≤ 1000 ∧ 1 ≤ S_ThMin s ≤ 1440)%Z).
Proof.
  destruct (String.eqb_spec (S_AlertEvery s) AlertThreshold); simpl; [|tauto].
  rewrite !orb_false_iff, !Z.ltb_ge. split; [intros; lia|]. intros H. specialize (H e). lia.
Qed.

Lemma Validate_valid {O : MapOrder} r : Validate r = None ↔ valid_rule r.
Proof.
  unfold Validate. rewrite first_error_None, !Forall_cons, Forall_nil, !fails_None, !fmap_None.
  rewrite !negb_false_iff, !oneOf_spec, !orb_false_iff, !Nat.ltb_ge, Nat.eqb_neq, String.eqb_neq.
  rewrite address_check, threshold_check.
  rewrite (find_bad _ (.∈ Kinds)) by (intros x; rewrite negb_false_iff; apply oneOf_spec).
  rewrite (find_bad _ (λ s, resourceRe s = true)) by (intros x; apply negb_false_iff).
  rewrite (find_bad too_long (λ p, String.length p.2 ≤ 400)%nat) by (intros x; apply Nat.ltb_ge).
  rewrite map_order_perm.
  assert (length (S_Kinds (R_Spec r)) ≠ 0%nat ↔ S_Kinds (R_Spec r) ≠ []) as -> by by destruct (S_Kinds (R_Spec r)).
  split; [intros H; decompose [and] H; by constructor|intros []; tauto].
Qed.

(** C5: [Validate] accepts a rule exactly when it is well formed: identifier,
    name, severity, actions, resources, pattern lengths, address list and
    alert threshold are all within their documented ranges, whatever the order
    in which the pattern map is visited. *)
Theorem Validate_iff {O : MapOrder} r : Validate r = None ↔ valid_rule r.
Proof.
  apply Validate_valid.
Qed.

(** ** The catalogue *)

(** Every built-in rule passes validation, no two of them share an id, and
    each catalogue entry is found again by its id. *)
Theorem BuiltinRules_wellformed {O : MapOrder} :
  Forall (λ r, Validate r = None) BuiltinRules
  ∧ NoDup (map R_ID BuiltinRules)
  ∧ Forall (λ b, LookupBuiltin (B_ID b) = Some b) Catalog.
Proof.
  split_and!.
  - assert (Forall (λ r, @Validate keep_order r = None) BuiltinRules) as H by repeat constructor.
    eapply Forall_impl; [exact H|]. intros r Hr. by apply Validate_valid, (@Validate_valid keep_order).
  - apply (bool_decide_eq_true_1 (NoDup (map R_ID BuiltinRules))). vm_compute. reflexivity.
  - repeat constructor.
Qed.
End validation.

(** ** Normalisation *)

Section normalisation.
Context {T : CaseTables}.

Lemma lacks_app c s t : lacks c (s +:+ t) ↔ lacks c s ∧ lacks c t.
Proof. induction s as [|a s IH]; simpl; [tauto|]. rewrite IH. tauto. Qed.

Lemma lacks_TrimSpace c s : lacks c s → lacks c (TrimSpace s).
Proof.
  destruct (TrimSpace_spec s) as [(x & y & Hs) _]. rewrite Hs at 1. rewrite !lacks_app. tauto.
Qed.

(** The items of a list: no comma, trimmed, not empty. *)
Lemma splitList_items s :
  Forall (λ p, lacks "," p ∧ TrimSpace p = p ∧ p ≠ "") (splitList s).
Proof.
  unfold splitList. apply Forall_forall. intros p. rewrite list_elem_of_filter.
  intros [Hne Hp]. apply list_elem_of_In, in_map_iff in Hp as (q & <- & Hq).
  pose proof (Split_lacks s ",") as Hl. rewrite List.Forall_forall in Hl.
  split_and!; [by apply lacks_TrimSpace, Hl|apply TrimSpace_idem|done].
Qed.

Lemma Split_Join_comma p ps :
  Forall (lacks ",") (p :: ps) →
  Split (Join (p :: ps) ", ") "," = p :: map (String " ") ps.
Proof.
  revert p. induction ps as [|q ps IH]; intros p Hl; inv Hl.
  - by apply Split_single.
  - rewrite Join_cons by done. rewrite lacks_Split_app by done.
    change (", " +:+ Join (q :: ps) ", ") with (String "," (" " +:+ Join (q :: ps) ", ")).
    cbn [Split]. change (Ascii.eqb "," ",") with true. cbn iota.
    rewrite app_nil_r_s, lacks_Split_app by done. rewrite IH by done. done.
Qed.

(** Parsing a printed list gives the list back. *)
Lemma splitList_Join ps :
  Forall (λ p, lacks "," p ∧ TrimSpace p = p ∧ p ≠ "") ps → splitList (Join ps ", ") = ps.
Proof.
  intros H. destruct ps as [|p ps]; [done|]. unfold splitList.
  rewrite Split_Join_comma by (eapply Forall_impl; [exact H|]; naive_solver).
  assert (map TrimSpace (p :: map (String " ") ps) = p :: ps) as ->.
  { simpl. inv H. f_equal; [naive_solver|]. clear -H3.
    induction H3 as [|q qs (?&Hq&?) _ IH]; simpl; [done|]. by rewrite TrimSpace_blank, Hq, IH. }
  clear -H. induction H as [|q qs (?&?&Hq) _ IH]; [done|].
  rewrite filter_cons_True by done. by rewrite IH.
Qed.

Lemma cleanList_idem s : cleanList (cleanList s) = cleanList s.
Proof. unfold cleanList at 1. unfold cleanList at 1. rewrite splitList_Join; [done|apply splitList_items]. Qed.

Definition norm (lower : bool) (v : string) : string :=
  if lower then ToLower (TrimSpace v) else TrimSpace v.

Lemma cleanSet_from_spec lower l seen :
  Forall (λ v, v ≠ "" ∧ v ∉ seen ∧ (∃ w, w ∈ l ∧ v = norm lower w)) (cleanSet_from seen l lower)
  ∧ NoDup (cleanSet_from seen l lower).
Proof.
  revert seen. induction l as [|w l IH]; intros seen; [by repeat constructor|].
  cbn [cleanSet_from]. change (if lower then ToLower (TrimSpace w) else TrimSpace w) with (norm lower w).
  case_if.
  - destruct (IH seen) as [H ?]. split; [|done]. eapply Forall_impl; [exact H|].
    intros v (?&?&x&?&?). split_and!; auto. exists x. split; [by right|done].
  - destruct (IH (norm lower w :: seen)) as [Hf Hnd].
    rewrite Forall_forall in Hf. split.
    + constructor.
      * split_and!; [done| |exists w; split; [left|done]].
        intros Hin. rewrite any_false in H0. specialize (H0 _ Hin). by rewrite String.eqb_refl in H0.
      * apply Forall_forall. intros v Hv. destruct (Hf v Hv) as (?&Hns&x&?&?).
        rewrite not_elem_of_cons in Hns. destruct Hns. split_and!; auto. exists x. split; [by right|done].
    + constructor; [|done]. intros Hin. destruct (Hf _ Hin) as (_&Hns&_). apply Hns. left.
Qed.

Lemma cleanSet_from_fixed lower l seen :
  Forall (λ v, v ≠ "" ∧ norm lower v = v) l → NoDup l → (∀ v, v ∈ l → v ∉ seen) →
  cleanSet_from seen l lower = l.
Proof.
  revert seen. induction l as [|v l IH]; intros seen Hl Hnd Hs; [done|].
  inv Hl. inv Hnd. destruct H1 as [Hne Hv]. cbn [cleanSet_from].
  change (if lower then ToLower (TrimSpace v) else TrimSpace v) with (norm lower v). rewrite Hv.
  apply String.eqb_neq in Hne. rewrite Hne. simpl.
  destruct (any (String.eqb v) seen) eqn:E.
  - apply any_true in E as (x & Hx & ->%String.eqb_eq). by destruct (Hs x ltac:(left)).
  - f_equal. apply IH; [done..|]. intros x Hx. rewrite not_elem_of_cons. split; [congruence|].
    apply Hs. by right.
Qed.

Lemma cleanSet_idem lower l :
  (∀ v, v ∈ l → norm lower (norm lower v) = norm lower v) →
  cleanSet (cleanSet l lower) lower = cleanSet l lower.
Proof.
  intros H. unfold cleanSet at 1. destruct (cleanSet_from_spec lower l []) as [Hf Hnd].
  apply cleanSet_from_fixed; [|done|intros; apply not_elem_of_nil].
  eapply Forall_impl; [exact Hf|]. intros v (? & _ & w & ? & ->). auto.
Qed.

Lemma or_default_idem v d : or_default (or_default v d) d = or_default v d.
Proof. unfold or_default. destruct (v == "") eqn:E; [|by rewrite E]. by destruct (d == ""). Qed.

Lemma or_default_fun f v d : f d = d → f (f v) = f v →
  or_default (f (or_default (f v) d)) d = or_default (f v) d.
Proof.
  intros Hd Hv. unfold or_default. destruct (f v == "") eqn:E.
  - rewrite Hd. by destruct (d == "").
  - by rewrite Hv, E.
Qed.

(** Normalising a rule twice is normalising it once, for every rule whose
    severity, actions and resources are ASCII (the lists and texts may hold
    any bytes). *)
Theorem Normalize_idempotent r :
  is_ascii (R_Severity r) = true →
  Forall (λ v, is_ascii v = true) (S_Kinds (R_Spec r)) →
  Forall (λ v, is_ascii v = true) (S_Resources (R_Spec r)) →
  Normalize (Normalize r) = Normalize r.
Proof.
  intros Hsev Hk Hr. rewrite Forall_forall in Hk, Hr. destruct r as [id name grp org en al sev s by_ at_].
  unfold Normalize. cbn [R_ID R_Name R_Group R_Origin R_Enabled R_Alert R_Severity R_Spec R_UpdatedBy R_UpdatedAt] in *.
  f_equal.
  - apply TrimSpace_idem.
  - apply TrimSpace_idem.
  - apply or_default_fun; [done|apply TrimSpace_idem].
  - destruct (org == OriginBuiltin) eqn:E; simpl; by rewrite ?E.
  - apply (or_default_fun (λ v, ToLower (TrimSpace v))); [done|by apply lower_trim_fixed].
  - unfold normalizeSpec; cbn. f_equal; try apply cleanList_idem; try apply or_default_idem; try apply TrimSpace_idem.
    + apply cleanSet_idem. intros v Hv. apply lower_trim_fixed. auto.
    + apply cleanSet_idem. intros v Hv. apply lower_trim_fixed. auto.
    + apply (or_default_fun cleanList); [done|apply cleanList_idem].
    + rewrite or_default_idem. destruct (or_default (S_IPMode s) IPAny == IPAny); [done|apply cleanList_idem].
    + destruct (S_ThN s <? 2)%Z eqn:E; by rewrite ?E.
    + destruct (S_ThMin s <? 1)%Z eqn:E; by rewrite ?E.
    + apply cleanSet_idem. intros v Hv. apply TrimSpace_idem.
Qed.
End normalisation.

(** An untidy custom rule. *)
Definition untidy_rule : Rule :=
  {| R_ID := " r1 "; R_Name := "exec  "; R_Group := ""; R_Origin := ""; R_Enabled := true;
     R_Alert := false; R_Severity := " HIGH"; R_UpdatedBy := ""; R_UpdatedAt := 0%Z;
     R_Spec := {| S_Kinds := ["Exec "; "exec"; ""]; S_Resources := [" Pods"]; S_NS := " ,a , b,";
       S_NSExclude := ""; S_ObjName := ","; S_Subject := ""; S_Users := ""; S_UsersExclude := "";
       S_IPMode := ""; S_IPList := "10.0.0.0/8"; S_Forwarded := false; S_Result := ""; S_Cmd := " sh ";
       S_AlertEvery := ""; S_ThN := 0; S_ThMin := 0; S_Clusters := [] |} |}.

Lemma Normalize_idempotent_witness :
  @Normalize ascii_tables (@Normalize ascii_tables untidy_rule) = @Normalize ascii_tables untidy_rule
  ∧ S_Kinds (R_Spec (@Normalize ascii_tables untidy_rule)) = ["exec"]
  ∧ S_NS (R_Spec (@Normalize ascii_tables untidy_rule)) = "a, b".
Proof.
  split; [|split; vm_compute; reflexivity].
  apply (@Normalize_idempotent ascii_tables untidy_rule);
    [vm_compute; reflexivity|repeat constructor|repeat constructor].
Defined.
