(* ===== verification/Policy.v ===== *)
(** * pkg/policy: runtime-policy patterns

    The matching helpers shared by the bridge and the hub (match.go):
    namespace, pod and process patterns and the wildcard matcher
    [globMatch], proved equivalent to the declarative meaning of patterns and
    to the matcher of pkg/auditrules. *)

From Stdlib Require Import Ascii.
From stdpp Require Import base list strings.
From S2P Require Import Prelude GoStrings GlobSpec AuditRules AuditRulesProps.
Local Open Scope string_scope.
Local Open Scope list_scope.
Local Open Scope go_scope.

Definition ExecSyscalls : list string := ["execve"; "execveat"; "sched_process_exec"].

Definition IsExecSyscall (syscall : string) : bool := any (String.eqb syscall) ExecSyscalls.

(** ** The wildcard matcher *)

(** One round of the loop of [globMatch]: piece [p] at index [i] of [n]. *)
Definition glob_step (anchorStart anchorEnd : bool) (n i : nat) (p rest : string) : option string :=
  if p == "" then Some rest
  else if (i =? 0)%nat && anchorStart then
    if negb (HasPrefix rest p) then None else Some (sdrop (String.length p) rest)
  else if (i =? n - 1)%nat && anchorEnd then
    if negb (HasSuffix rest p) then None
    else Some (stake (String.length rest - String.length p) rest)
  else match Index rest p with
       | None => None
       | Some idx => Some (sdrop (idx + String.length p) rest)
       end.

Fixpoint glob_loop (anchorStart anchorEnd : bool) (n i : nat) (parts : list string) (rest : string) : bool :=
  match parts with
  | [] => true
  | p :: parts' =>
      match glob_step anchorStart anchorEnd n i p rest with
      | None => false
      | Some rest' => glob_loop anchorStart anchorEnd n (S i) parts' rest'
      end
  end.

Definition globMatch (s pattern : string) : bool :=
  if negb (Contains pattern "*") then s == pattern
  else
    let parts := Split pattern "*" in
    let anchorStart := negb (HasPrefix pattern "*") in
    let anchorEnd := negb (HasSuffix pattern "*") in
    glob_loop anchorStart anchorEnd (length parts) 0 parts s.

Section tables.
Context {T : CaseTables}.

Definition NamespaceMatches (namespace pattern : string) : bool :=
  let pattern := TrimSpace pattern in
  if (pattern == "") || (pattern == "*") then true
  else globMatch (ToLower namespace) (ToLower pattern).

Definition PodMatches (pod pattern : string) : bool :=
  let pattern := TrimSpace pattern in
  if (pattern == "") || (pattern == "*") then true
  else
    let p := ToLower pod in
    let pat := ToLower pattern in
    if negb (Contains pat "*") then Contains p pat else globMatch p pat.

(** One candidate of [ProcessMatches]; [pf] is the lowered, trimmed pattern. *)
Definition candidate_matches (pf candidate : string) : bool :=
  let c := ToLower (TrimSpace candidate) in
  (c != "") && ((c == pf) || HasSuffix c ("/" +:+ pf)).

Definition first_word (cmdline : string) : string :=
  match IndexByte cmdline " " with Some i => stake i cmdline | None => cmdline end.

Definition ProcessMatches (pattern process execpath cmdline : string) : bool :=
  let pf := ToLower (TrimSpace pattern) in
  if (pf == "") || (pf == "*") then true
  else any (candidate_matches pf) [process; execpath; first_word cmdline].
End tables.

(** ** [globMatch] decides the meaning of patterns *)

Lemma glob_step_middle aS aE n i p rest :
  i ≠ 0%nat → (i < n - 1)%nat →
  glob_step aS aE n i p rest
  = match Index rest p with None => None | Some idx => Some (sdrop (idx + String.length p) rest) end.
Proof.
  intros Hi Hn. unfold glob_step.
  assert ((i =? 0)%nat = false) as -> by by apply Nat.eqb_neq.
  assert ((i =? n - 1)%nat = false) as -> by (apply Nat.eqb_neq; lia).
  simpl. destruct (String.eqb_spec p "") as [->|]; [|done].
  by destruct rest.
Qed.

Lemma HasSuffix_empty s : HasSuffix s "" = true.
Proof. apply HasSuffix_spec. exists s. by rewrite app_nil_r_s. Qed.

(** From the second piece on, the loop is the greedy search. *)
Lemma glob_loop_greedy aS aE n i mid last rest :
  i ≠ 0%nat → (n = i + length mid + 1)%nat → (aE = negb (last == "")) →
  glob_loop aS aE n i (mid ++ [last]) rest = greedy mid last rest.
Proof.
  revert i rest. induction mid as [|p mid IH]; intros i rest Hi Hn HaE; cbn [app glob_loop greedy].
  - unfold glob_step. destruct (String.eqb_spec last "") as [->|Hl]; [by rewrite HasSuffix_empty|].
    simpl in Hn. subst aE. rewrite (proj2 (Nat.eqb_neq i 0)) by done.
    rewrite (proj2 (Nat.eqb_eq i (n - 1))) by lia. simpl. by destruct (HasSuffix rest last).
  - rewrite glob_step_middle by (simpl in Hn; lia). destruct (Index rest p); [|done].
    apply IH; [done|simpl in Hn; lia|done].
Qed.

Lemma HasPrefix_Join p q ps : HasPrefix (Join (p :: q :: ps) "*") "*" = true ↔ p = "" ∨ HasPrefix p "*" = true.
Proof.
  rewrite Join_cons by done. destruct p as [|a p]; [split; auto|].
  rewrite app_cons_s. cbn [HasPrefix]. rewrite !andb_true_r.
  split; [by right|]. by intros [?|?].
Qed.

Lemma HasSuffix_Join ps last :
  ps ≠ [] → lacks star last → HasSuffix (Join (ps ++ [last]) "*") "*" = (last == "").
Proof.
  intros Hne Hl.
  assert (∃ x, Join (ps ++ [last]) "*" = x +:+ "*" +:+ last) as [x ->].
  { clear Hl. induction ps as [|p [|q ps] IH]; [done|by exists p|].
    destruct IH as [x Hx]; [done|]. exists (p +:+ "*" +:+ x).
    change ((p :: q :: ps) ++ [last]) with (p :: ((q :: ps) ++ [last])).
    rewrite Join_cons by done. rewrite Hx, !app_assoc_s. done. }
  apply eq_true_iff_eq. rewrite HasSuffix_spec, String.eqb_eq. split.
  - intros [t Ht]. rewrite <-app_assoc_s in Ht.
    destruct last as [|a last]; [done|]. exfalso.
    destruct (app_split_le (x +:+ "*") (String a last) t "*") as (m & -> & Hm); [done| |].
    { apply (f_equal String.length) in Ht. rewrite !length_app_s in Ht. simpl in *. rewrite length_app_s. simpl. lia. }
    rewrite Hm in Hl. clear -Hl. induction m as [|b m IH]; simpl in Hl; [by destruct Hl|tauto].
  - intros ->. exists x. by rewrite app_nil_r_s.
Qed.

Lemma globMatch_glob s pattern : globMatch s pattern = true ↔ glob pattern s.
Proof.
  unfold globMatch. destruct (Contains pattern "*") eqn:E; cbn [negb].
  - destruct (Split_many _ _ E) as (q & mid & last & Hs).
    pose proof (Join_Split pattern "*") as Hj. pose proof (Split_lacks pattern "*") as Hl.
    rewrite Hs in Hj, Hl |- *.
    assert (glob pattern s ↔ placed (q :: mid ++ [last]) s) as ->.
    { rewrite <-Hj. by apply glob_placed. }
    rewrite placed_greedy. cbn [glob_loop length]. rewrite length_app. simpl (length [last]).
    assert (HasSuffix pattern "*" = (last == "")) as HaE.
    { rewrite <-Hj. change (q :: mid ++ [last]) with ((q :: mid) ++ [last]).
      apply HasSuffix_Join; [done|]. inv Hl. apply Forall_app in H2 as [_ H2]. by inv H2. }
    rewrite HaE. unfold glob_step at 1. destruct (String.eqb_spec q "") as [->|Hq].
    + rewrite glob_loop_greedy by (done || lia). simpl. intuition.
    + assert (HasPrefix pattern "*" = false) as ->.
      { rewrite <-Hj. destruct (mid ++ [last]) as [|m ms] eqn:Em; [by destruct mid|].
        apply not_true_iff_false. rewrite HasPrefix_Join. intros [?|Hp]; [done|].
        inv Hl. destruct q as [|a q]; [done|]. cbn [HasPrefix lacks] in Hp, H1. rewrite andb_true_r in Hp.
        apply Ascii.eqb_eq in Hp. by destruct H1. }
      simpl ((0 =? 0)%nat && negb false). cbn iota.
      destruct (HasPrefix s q); simpl; [|intuition done].
      rewrite glob_loop_greedy by (done || lia). intuition.
  - rewrite String.eqb_eq. apply lacks_Contains in E.
    pose proof (glob_placed [pattern] s) as Hp. cbn in Hp. rewrite Hp by (done || by repeat constructor). done.
Qed.

(** C6: [globMatch] accepts exactly the strings the pattern means, with [*] as
    any byte sequence, whatever the number and place of the stars. *)
Theorem globMatch_correct s pattern : globMatch s pattern = true ↔ glob pattern s.
Proof. apply globMatch_glob. Qed.

(** The two wildcard matchers of the code base, written differently in
    pkg/auditrules and pkg/policy, agree on every pattern and string. *)
Theorem Glob_globMatch_agree {T : CaseTables} pattern s :
  Glob pattern s = globMatch (ToLower s) (ToLower pattern).
Proof. apply eq_true_iff_eq. by rewrite Glob_glob, globMatch_glob. Qed.
