(* ===== verification/GoValue.v ===== *)
(** * Dynamic values

    What [encoding/json] decodes into an [interface{}]: null, booleans,
    float64 numbers, strings, slices and maps. A map is an association list
    with distinct keys. A finite float64 is [mant * 2^exp]. The default text of
    a value ([%v] of package fmt) is written out for every kind but floats,
    whose shortest decimal form is a parameter. *)

From Stdlib Require Import Ascii.
From stdpp Require Import base list strings sorting.
From S2P Require Import Prelude GoStrings.
Local Open Scope string_scope.
Local Open Scope list_scope.
Local Open Scope go_scope.

Record float64 := { f_mant : Z; f_exp : Z }.

(** The float of an integer. *)
Definition float_of_Z (z : Z) : float64 := {| f_mant := z; f_exp := 0 |}.

(** [int(f)]: truncation toward zero (values out of the range of int are not
    specified by Go). *)
Definition float_int (f : float64) : Z :=
  if (0 <=? f_exp f)%Z then (f_mant f * 2 ^ f_exp f)%Z
  else Z.quot (f_mant f) (2 ^ (- f_exp f)).

(** [f > z] and [f <= z] for an integer constant [z]. *)
Definition float_gt (f : float64) (z : Z) : bool :=
  if (0 <=? f_exp f)%Z then (z <? f_mant f * 2 ^ f_exp f)%Z
  else (z * 2 ^ (- f_exp f) <? f_mant f)%Z.

Inductive value :=
| VNull
| VBool (b : bool)
| VNum (f : float64)
| VStr (s : string)
| VList (l : list value)
| VMap (m : list (string * value)).

Fixpoint vlookup (m : list (string * value)) (k : string) : option value :=
  match m with
  | [] => None
  | (k', v) :: m' => if k' == k then Some v else vlookup m' k
  end.

(** The type assertion [v.(string)] with its zero value on failure. *)
Definition as_string (v : option value) : string :=
  match v with Some (VStr s) => s | _ => "" end.

Definition as_map (v : option value) : option (list (string * value)) :=
  match v with Some (VMap m) => Some m | _ => None end.

(** The shortest decimal form of a float64. *)
Class FloatText := { float_text : float64 → string }.

Definition str_le (a b : string) : Prop := String.leb a b = true.
#[export] Instance str_le_dec : RelDecision str_le.
Proof. intros a b. unfold str_le. apply _. Defined.

Definition key_le (a b : string * string) : Prop := str_le a.1 b.1.
#[export] Instance key_le_dec : RelDecision key_le.
Proof. intros a b. unfold key_le. apply _. Defined.

(** [fmt.Sprintf(%v, v)]; maps print with sorted keys. *)
Fixpoint fmt_v {F : FloatText} (v : value) : string :=
  match v with
  | VNull => "<nil>"
  | VBool b => if b then "true" else "false"
  | VNum f => float_text f
  | VStr s => s
  | VList l => "[" +:+ Join (map fmt_v l) " " +:+ "]"
  | VMap m =>
      let entries := map (λ kv : string * value, (kv.1, fmt_v kv.2)) m in
      "map[" +:+ Join (map (λ kv : string * string, kv.1 +:+ ":" +:+ kv.2)
                           (merge_sort key_le entries)) " " +:+ "]"
  end.

(** Decimal text of integral floats of fewer than seven digits, the form
    ports and flags have. *)
Definition small_float_text : FloatText := {| float_text f := FormatInt (float_int f) |}.

(** ** Induction that reaches into slices and maps *)

Section value_ind.
Variable P : value → Prop.
Hypothesis Hnull : P VNull.
Hypothesis Hbool : ∀ b, P (VBool b).
Hypothesis Hnum : ∀ f, P (VNum f).
Hypothesis Hstr : ∀ s, P (VStr s).
Hypothesis Hlist : ∀ l, Forall P l → P (VList l).
Hypothesis Hmap : ∀ m, Forall (λ kv, P kv.2) m → P (VMap m).

Fixpoint value_nested_ind (v : value) : P v :=
  match v with
  | VNull => Hnull
  | VBool b => Hbool b
  | VNum f => Hnum f
  | VStr s => Hstr s
  | VList l => Hlist l ((fix go l : Forall P l := match l with
      | [] => List.Forall_nil _
      | x :: l' => List.Forall_cons _ _ _ (value_nested_ind x) (go l') end) l)
  | VMap m => Hmap m ((fix go m : Forall (λ kv, P kv.2) m := match m with
      | [] => List.Forall_nil _
      | kv :: m' => List.Forall_cons _ _ _ (value_nested_ind kv.2) (go m') end) m)
  end.
End value_ind.

Lemma vlookup_In m k v : vlookup m k = Some v → (k, v) ∈ m.
Proof.
  induction m as [|[k' v'] m IH]; simpl; [done|]. case_if; subst.
  - intros [= ->]. left.
  - intros H. right. auto.
Qed.

(** [m[k] = v]: replace the entry of [k] or add one. *)
Fixpoint vset (m : list (string * value)) (k : string) (v : value) : list (string * value) :=
  match m with
  | [] => [(k, v)]
  | (k', v') :: m' => if k' == k then (k, v) :: m' else (k', v') :: vset m' k v
  end.

Lemma vlookup_vset m k v k' :
  vlookup (vset m k v) k' = if k == k' then Some v else vlookup m k'.
Proof.
  induction m as [|[a b] m IH]; simpl; [done|].
  destruct (String.eqb_spec a k) as [->|Ha]; simpl; [by case_if|].
  rewrite IH. destruct (String.eqb_spec a k') as [->|], (String.eqb_spec k k') as [->|]; congruence.
Qed.

(** [fmt.Sprintf(%.0f, f)] for a non-negative [f]: the exact value rounded to the nearest
    integer, halves to even. *)
Definition float_round (f : float64) : Z :=
  if (0 <=? f_exp f)%Z then (f_mant f * 2 ^ f_exp f)%Z
  else
    let d := (2 ^ (- f_exp f))%Z in
    let q := (f_mant f / d)%Z in
    let r := (f_mant f mod d)%Z in
    if (2 * r <? d)%Z then q
    else if (d <? 2 * r)%Z then (q + 1)%Z
    else if Z.even q then q else (q + 1)%Z.
