(* ===== verification/RuleMatcher.v ===== *)
(** * kvisior/internal/rules: the hub's runtime-policy matcher

    Events are decoded JSON maps; a rule names a syscall, a category, a
    namespace, a pod, a process and a path pattern, each optional. *)

From Stdlib Require Import Ascii.
From stdpp Require Import base list gmap strings.
From S2P Require Import Prelude GoStrings GoValue Policy.
Local Open Scope string_scope.
Local Open Scope list_scope.
Local Open Scope go_scope.

Record Rule := {
  R_ID : string;
  R_Name : string;
  R_Enabled : option bool;
  R_Syscall : string;
  R_Category : string;
  R_DetType : string;
  R_Namespace : string;
  R_PodPattern : string;
  R_ProcessFilter : string;
  R_PathFilter : string;
  R_Sev : string;
}.

Definition isEnabled (r : Rule) : bool :=
  match R_Enabled r with None => true | Some b => b end.

(** The event is kept as the decoded map; [json.Marshal] of it is what the
    code stores. *)
Record Violation := {
  V_Rule : string;
  V_RuleID : string;
  V_Sev : string;
  V_Event : list (string * value);
}.

Record Matcher := { M_rules : list Rule; M_allowSet : gset string }.

Definition New : Matcher := {| M_rules := []; M_allowSet := ∅ |}.

(** The rules that pin a syscall contribute it to the allow set. *)
Definition allow_rule (allow : gset string) (r : Rule) : gset string :=
  if negb (isEnabled r) then allow
  else if (R_Syscall r == "") || (R_Syscall r == "*") then allow
  else {[R_Syscall r]} ∪ allow.

Definition Replace (m : Matcher) (rules : list Rule) : Matcher :=
  {| M_rules := rules; M_allowSet := foldl allow_rule ∅ rules |}.

Definition AllowsSyscall (m : Matcher) (syscall : string) : bool :=
  if syscall == "" then false else bool_decide (syscall ∈ M_allowSet m).

Definition binaryExec : list string := ["execve"; "execveat"].
Definition IsBinaryExec (syscall : string) : bool := any (String.eqb syscall) binaryExec.

Definition AllowsLiveStream (m : Matcher) (syscall : string) : bool :=
  if IsBinaryExec syscall then true else AllowsSyscall m syscall.

Fixpoint strField (m : list (string * value)) (keys : list string) : string :=
  match keys with
  | [] => ""
  | k :: keys' => match vlookup m k with
                  | Some (VStr s) => s
                  | _ => strField m keys'
                  end
  end.

Definition argsMap (ev : list (string * value)) : option (list (string * value)) :=
  as_map (vlookup ev "args").

Fixpoint string_items (l : list value) : list string :=
  match l with
  | [] => []
  | VStr s :: l' => s :: string_items l'
  | _ :: l' => string_items l'
  end.

(** [strings.Split(s, ",")] with each part trimmed. *)
Definition splitTrim (s : string) : list string := map TrimSpace (Split s ",").

Definition sliceContains (ss : list string) (s : string) : bool := any (String.eqb s) ss.

Section matcher.
Context {T : CaseTables} {F : FloatText}.

(** The address text of a socket argument: [ip:port], when it has either. *)
Definition sockaddr_hit (t : list (string * value)) (needle : string) : bool :=
  let ip := as_string (vlookup t "sin_addr") in
  let ip := if ip == "" then as_string (vlookup t "sin6_addr") else ip in
  let port := match vlookup t "sin_port" with Some p => fmt_v p | None => "" end in
  ((ip != "") || (port != "")) && Contains (ToLower (ip +:+ ":" +:+ port)) needle.

Fixpoint valueContains (needle : string) (v : value) : bool :=
  match v with
  | VStr s => Contains (ToLower s) needle
  | VNum f => Contains (float_text f) needle
  | VMap t => sockaddr_hit t needle || existsb (λ kv, valueContains needle kv.2) t
  | VList l => existsb (valueContains needle) l
  | VNull | VBool _ => false
  end.

Definition argsContain (args : option (list (string * value))) (needle : string) : bool :=
  match args with
  | None => false
  | Some a => if needle == "" then false else existsb (λ kv, valueContains needle kv.2) a
  end.

Definition arg_text (a : option (list (string * value))) (k : string) : string :=
  match a with
  | None => ""
  | Some a => match vlookup a k with Some v => fmt_v v | None => "" end
  end.

Definition afMap (d : string) : string :=
  if d == "AF_UNSPEC" then "0" else if d == "AF_UNIX" then "1" else if d == "AF_INET" then "2"
  else if d == "AF_INET6" then "10" else if d == "AF_NETLINK" then "16"
  else if d == "AF_PACKET" then "17" else d.

(** The fields of an event as [matches] reads them, missing ones filled from
    the arguments. *)
Definition args_pathname (a : option (list (string * value))) : string :=
  match a with None => "" | Some a => as_string (vlookup a "pathname") end.

Definition args_argv (a : option (list (string * value))) : string :=
  match a with
  | None => ""
  | Some a => match vlookup a "argv" with
              | Some (VStr s) => s
              | Some (VList l) => Join (string_items l) " "
              | _ => ""
              end
  end.

Definition event_process (ev : list (string * value)) : string :=
  let process := strField ev ["process"] in
  let pathname := args_pathname (argsMap ev) in
  if (process == "") && (pathname != "") then List.last (Split pathname "/") "" else process.

Definition event_execpath (ev : list (string * value)) : string :=
  let execpath := strField ev ["execpath"] in
  if execpath == "" then args_pathname (argsMap ev) else execpath.

Definition event_cmdline (ev : list (string * value)) : string :=
  let cmdline := strField ev ["cmdline"] in
  if cmdline == "" then args_argv (argsMap ev) else cmdline.

(** The path filter, whose meaning depends on the syscall. *)
Definition path_ok (ev : list (string * value)) (pathFilter syscall : string) : bool :=
  let a := argsMap ev in
  if (syscall == "dup2") || (syscall == "dup3") then
    sliceContains (splitTrim pathFilter) (arg_text a "newfd")
  else if syscall == "socket" then
    sliceContains (splitTrim pathFilter) (afMap (arg_text a "domain"))
  else if (syscall == "mmap") || (syscall == "mprotect") then
    sliceContains (splitTrim pathFilter) (arg_text a "prot")
  else
    let pf := ToLower (ReplaceByte pathFilter "*" "") in
    Contains (ToLower (event_cmdline ev)) pf
    || Contains (ToLower (event_execpath ev)) pf
    || Contains (ToLower (args_pathname a)) pf
    || argsContain a pf.

Definition pinned (syscall : string) : bool := (syscall != "") && (syscall != "*").

Definition matches (ev : list (string * value)) (rule : Rule) : bool :=
  let syscall := strField ev ["syscall"] in
  if pinned (R_Syscall rule) && (syscall != R_Syscall rule) then false
  else if (R_Category rule != "") && (R_Category rule != "*") && (R_DetType rule != "Binary")
          && (strField ev ["category"] != R_Category rule) then false
  else if negb (NamespaceMatches (strField ev ["namespace"]) (R_Namespace rule)) then false
  else if negb (PodMatches (strField ev ["pod"]) (R_PodPattern rule)) then false
  else if (R_ProcessFilter rule != "")
          && ((negb (pinned (R_Syscall rule)) && negb (IsExecSyscall syscall))
              || negb (ProcessMatches (R_ProcessFilter rule) (event_process ev)
                         (event_execpath ev) (event_cmdline ev))) then false
  else if (R_PathFilter rule != "") && negb (path_ok ev (R_PathFilter rule) syscall) then false
  else true.

Definition violation (ev : list (string * value)) (r : Rule) : Violation :=
  {| V_Rule := R_Name r; V_RuleID := R_ID r; V_Sev := R_Sev r; V_Event := ev |}.

Definition Match (m : Matcher) (ev : list (string * value)) : list Violation :=
  map (violation ev) (List.filter (λ r, isEnabled r && matches ev r) (M_rules m)).
End matcher.

(** ** The allow set *)

Lemma allow_set rules acc sc :
  sc ∈ foldl allow_rule acc rules ↔
  sc ∈ acc ∨ ∃ r, r ∈ rules ∧ isEnabled r = true ∧ pinned (R_Syscall r) = true ∧ R_Syscall r = sc.
Proof.
  revert acc. induction rules as [|r rules IH]; intros acc; simpl.
  - split; [by left|]. intros [?|(r & Hr & _)]; [done|]. by apply not_elem_of_nil in Hr.
  - rewrite IH. assert (sc ∈ allow_rule acc r ↔
      sc ∈ acc ∨ isEnabled r = true ∧ pinned (R_Syscall r) = true ∧ R_Syscall r = sc) as ->.
    { unfold allow_rule, pinned. destruct (isEnabled r), (R_Syscall r == ""), (R_Syscall r == "*"); simpl;
        try (split; [by left|by intros [?|(?&?&?)]]).
      rewrite elem_of_union, elem_of_singleton. intuition congruence. }
    setoid_rewrite elem_of_cons. split.
    + intros [[?|(?&?&?)]|(x&?&?)]; [by left|right; exists r; auto|right; exists x; tauto].
    + intros [?|(x&[->|?]&?)]; [by left; left|left; right; tauto|right; exists x; tauto].
Qed.

(** A violation reported for a rule that pins a syscall is always on a
    syscall the allow set lets through, and the allow set holds nothing else:
    it is exactly the pinned syscalls of the enabled rules. *)
Theorem allow_set_exact {T : CaseTables} {F : FloatText} m rules ev r :
  (∀ sc, AllowsSyscall (Replace m rules) sc = true ↔
     ∃ r', r' ∈ rules ∧ isEnabled r' = true ∧ pinned (R_Syscall r') = true ∧ R_Syscall r' = sc)
  ∧ (r ∈ rules → isEnabled r = true → pinned (R_Syscall r) = true → matches ev r = true →
     AllowsSyscall (Replace m rules) (strField ev ["syscall"]) = true).
Proof.
  assert (∀ sc, AllowsSyscall (Replace m rules) sc = true ↔
     ∃ r', r' ∈ rules ∧ isEnabled r' = true ∧ pinned (R_Syscall r') = true ∧ R_Syscall r' = sc) as Hex.
  { intros sc. unfold AllowsSyscall. case_if.
    - split; [done|]. intros (r' & _ & _ & Hp & Hr). subst. unfold pinned in Hp. by rewrite Hr in Hp.
    - rewrite bool_decide_eq_true. simpl. rewrite allow_set. set_solver. }
  split; [done|]. intros Hr Hen Hp Hm. apply Hex. exists r. split_and!; auto.
  unfold matches in Hm. rewrite Hp in Hm. simpl in Hm. case_if; [done|]. done.
Qed.

Definition example_rule : Rule :=
  {| R_ID := "p1"; R_Name := "mounts"; R_Enabled := None; R_Syscall := "mount"; R_Category := "";
     R_DetType := ""; R_Namespace := "prod-*"; R_PodPattern := ""; R_ProcessFilter := "";
     R_PathFilter := "/host*"; R_Sev := "high" |}.

Definition example_event : list (string * value) :=
  [("syscall", VStr "mount"); ("namespace", VStr "prod-eu"); ("pod", VStr "api-0");
   ("args", VMap [("source", VStr "/HOST/etc")])].

Lemma allow_set_exact_witness :
  AllowsSyscall (Replace New [example_rule]) "mount" = true.
Proof.
  apply (proj2 (@allow_set_exact ascii_tables small_float_text New [example_rule] example_event example_rule));
    [left|reflexivity|reflexivity|vm_compute; reflexivity].
Defined.
