(* ===== verification/Mapper.v ===== *)
(** * tracee-bridge: event kinds and the mapper

    internal/events/kind.go and internal/mapper/mapper.go: a decoded Tracee
    event becomes the event the bridge stores, streams and matches. The two
    process-wide counters of the mapper (the id source and the number of
    events dropped with a system namespace) are its state. *)

From Stdlib Require Import Ascii.
From stdpp Require Import base list strings.
From S2P Require Import Prelude GoStrings GoValue RuleMatcher.
Local Open Scope string_scope.
Local Open Scope list_scope.
Local Open Scope go_scope.

(** ** Event kinds *)

Inductive Kind := Syscall | LSMHook | Tracepoint.

Definition tracepoints : list string :=
  ["sched_process_exec"; "sched_process_fork"; "sched_process_exit"; "task_rename"; "sched_switch";
   "module_load"; "module_free"; "cgroup_mkdir"; "cgroup_rmdir"; "cgroup_attach_task"].

Definition KindFor (name : string) : Kind :=
  if HasPrefix name "security_" then LSMHook
  else if any (String.eqb name) tracepoints then Tracepoint
  else Syscall.

(** ** Tracee events *)

Record TraceeContainerContext := { TC_ID : string; TC_Name : string; TC_Image : string }.

Record TraceeK8sContext := { TK_PodName : string; TK_PodNamespace : string; TK_PodUID : string }.

Record TraceeArg := { A_Name : string; A_Type : string; A_Value : value }.

Record TraceeEvent := {
  T_Timestamp : Z;
  T_ProcessID : Z;
  T_HostProcessID : Z;
  T_HostParentProcessID : Z;
  T_HostThreadID : Z;
  T_UserID : Z;
  T_ProcessName : string;
  T_HostName : string;
  T_ContainerID : string;
  T_ContainerImage : string;
  T_ContainerName : string;
  T_Container : option TraceeContainerContext;
  T_PodName : string;
  T_PodNamespace : string;
  T_PodUID : string;
  T_Kubernetes : option TraceeK8sContext;
  T_EventName : string;
  T_ReturnValue : Z;
  T_Args : list TraceeArg;
  T_Data : list TraceeArg;
}.

(** [E_Ts] is in nanoseconds of the Unix epoch, as Tracee stamps events. *)
Record UIEvent := {
  E_ID : Z;
  E_Ts : Z;
  E_Syscall : string;
  E_EventKind : Kind;
  E_Namespace : string;
  E_Pod : string;
  E_PodUID : string;
  E_PodIP : string;
  E_Node : string;
  E_Container : string;
  E_ContainerID : string;
  E_Image : string;
  E_PID : Z;
  E_UID : Z;
  E_Process : string;
  E_Execpath : string;
  E_Cmdline : string;
  E_Args : list (string * value);
  E_Severity : string;
  E_Category : string;
}.

Definition systemNamespaces : list string :=
  ["kube-system"; "kube-public"; "kube-node-lease"; "calico-system"; "calico-apiserver"; "cilium";
   "cert-manager"; "monitoring"; "ingress-nginx"].

Definition argsMap (args : list TraceeArg) : list (string * value) :=
  foldl (λ m a, vset m (A_Name a) (A_Value a)) [] args.

Fixpoint stringArg (args : list TraceeArg) (name : string) : string :=
  match args with
  | [] => ""
  | a :: args' =>
      match A_Value a with
      | VStr s => if (A_Name a == name) && (A_Type a == "string") then s else stringArg args' name
      | _ => stringArg args' name
      end
  end.

(** The text of a socket address argument: [ip:port], or [ip], or nothing. *)
Definition sockaddr_text (v : list (string * value)) : option string :=
  let ip := as_string (vlookup v "sin_addr") in
  let ip := if ip == "" then as_string (vlookup v "sin6_addr") else ip in
  let port := match vlookup v "sin_port" with
              | Some (VNum p) => if float_gt p 0 then FormatInt (float_round p) else ""
              | _ => ""
              end in
  if (ip != "") && (port != "") then Some (ip +:+ ":" +:+ port)
  else if ip != "" then Some ip
  else None.

Fixpoint anyStringArg (args : list TraceeArg) (name : string) : string :=
  match args with
  | [] => ""
  | a :: args' =>
      if A_Name a == name then
        match A_Value a with
        | VStr s => s
        | VMap v => match sockaddr_text v with Some s => s | None => anyStringArg args' name end
        | _ => anyStringArg args' name
        end
      else anyStringArg args' name
  end.

Definition isNumeric (s : string) : bool :=
  forallb (λ c, (48 <=? c)%Z && (c <=? 57)%Z) (runes s) && (0 <? String.length s)%nat.

Definition basename (p : string) : string :=
  match LastIndexByte p "/" with Some i => sdrop (i + 1) p | None => p end.

Definition afToNum (af : string) : string :=
  if af == "AF_UNSPEC" then "0" else if af == "AF_UNIX" then "1" else if af == "AF_INET" then "2"
  else if af == "AF_INET6" then "10" else if af == "AF_NETLINK" then "16"
  else if af == "AF_PACKET" then "17" else if af == "AF_BLUETOOTH" then "31" else af.

(** ** The cases of [Map] *)

(** What a case leaves in [process], [execpath] and [cmdline]. *)
Record fields := { f_process : string; f_execpath : string; f_cmdline : string }.

Fixpoint first_path (args : list TraceeArg) (names : list string) : option string :=
  match names with
  | [] => None
  | n :: names' => let p := anyStringArg args n in
                   if p != "" then Some p else first_path args names'
  end.

Definition exec_fields (t : TraceeEvent) (args : list TraceeArg) : fields :=
  let cmdline := match vlookup (argsMap args) "argv" with
                 | Some (VList argv) => Join (string_items argv) " "
                 | _ => ""
                 end in
  match first_path args ["pathname"; "cmdpath"; "filepath"] with
  | Some p => {| f_process := basename p; f_execpath := p; f_cmdline := cmdline |}
  | None => {| f_process := T_ProcessName t; f_execpath := ""; f_cmdline := cmdline |}
  end.

(** The command line of a [socket] event: the last usable [domain]. *)
Definition socket_cmdline (args : list TraceeArg) : string :=
  foldl (λ c a, if A_Name a == "domain" then
                  match A_Value a with
                  | VNum v => FormatInt (float_int v)
                  | VStr s => afToNum s
                  | _ => c
                  end
                else c) "" args.

(** The command line of a [connect] event; [None] when the event is not about
    an internet address and is dropped. *)
Fixpoint connect_cmdline (args : list TraceeArg) (cmdline : string) : option string :=
  match args with
  | [] => Some cmdline
  | a :: args' =>
      if A_Name a != "addr" then connect_cmdline args' cmdline
      else match A_Value a with
           | VMap addr =>
               let sa := as_string (vlookup addr "sa_family") in
               if (sa != "AF_INET") && (sa != "AF_INET6") then None
               else
                 let ip := as_string (vlookup addr "sin_addr") in
                 let ip := if ip == "" then as_string (vlookup addr "sin6_addr") else ip in
                 connect_cmdline args' (if ip != "" then ip else cmdline)
           | _ => Some cmdline
           end
  end.

Definition mount_fields (process : string) (args : list TraceeArg) : fields :=
  let src := stringArg args "source" in
  let tgt := stringArg args "target" in
  let fs := stringArg args "filesystemtype" in
  if tgt != "" then
    {| f_process := process;
       f_cmdline := if (src != "") && (fs != "") then src +:+ "→" +:+ tgt +:+ " (" +:+ fs +:+ ")"
                    else if src != "" then src +:+ "→" +:+ tgt
                    else tgt;
       f_execpath := tgt |}
  else {| f_process := process; f_execpath := ""; f_cmdline := "" |}.

Definition event_fields (t : TraceeEvent) (args : list TraceeArg) : option fields :=
  let name := T_EventName t in
  let process := T_ProcessName t in
  let plain c e := {| f_process := process; f_execpath := e; f_cmdline := c |} in
  if (name == "execve") || (name == "execveat") || (name == "sched_process_exec") then
    Some (exec_fields t args)
  else if (name == "openat") || (name == "open") then
    let p := stringArg args "pathname" in
    Some (if (p != "") && negb (isNumeric p) then plain p p else plain "" "")
  else if name == "socket" then Some (plain (socket_cmdline args) "")
  else if name == "connect" then
    match connect_cmdline args "" with Some c => Some (plain c "") | None => None end
  else if (name == "mount") || (name == "security_sb_mount") then Some (mount_fields process args)
  else if name == "umount2" then
    let tgt := stringArg args "target" in
    Some (if tgt != "" then plain tgt tgt else plain "" "")
  else Some (plain "" "").

(** The command line made of every textual argument, used when the case left
    none. *)
Definition text_args (args : list TraceeArg) : list string :=
  omap (λ a, match A_Value a with
             | VStr s => if (s != "") && negb (isNumeric s) then Some s else None
             | _ => None
             end) args.

Definition fallback_cmdline (args : list TraceeArg) (cmdline : string) : string :=
  if cmdline == "" then Join (text_args args) " " else cmdline.

(** ** The mapper *)

Record State := { DroppedSysNs : Z; globalID : Z }.

(** A field of the nested context when it is set. *)
Definition override (base : string) (nested : option string) : string :=
  match nested with Some s => if s != "" then s else base | None => base end.

Definition Map (st : State) (t : TraceeEvent) : State * option UIEvent :=
  let targs := if (length (T_Args t) =? 0)%nat && (0 <? length (T_Data t))%nat then T_Data t else T_Args t in
  let podName := override (T_PodName t) (TK_PodName <$> T_Kubernetes t) in
  let podNS := override (T_PodNamespace t) (TK_PodNamespace <$> T_Kubernetes t) in
  let podUID := override (T_PodUID t) (TK_PodUID <$> T_Kubernetes t) in
  let containerName := override (T_ContainerName t) (TC_Name <$> T_Container t) in
  let containerID := override (T_ContainerID t) (TC_ID <$> T_Container t) in
  let containerImage := override (T_ContainerImage t) (TC_Image <$> T_Container t) in
  if (podNS != "") && any (String.eqb podNS) systemNamespaces then
    ({| DroppedSysNs := DroppedSysNs st + 1; globalID := globalID st |}, None)
  else
    match event_fields t targs with
    | None => (st, None)
    | Some f =>
        let id := (globalID st + 1)%Z in
        ({| DroppedSysNs := DroppedSysNs st; globalID := id |},
         Some {| E_ID := id; E_Ts := T_Timestamp t; E_Syscall := T_EventName t;
                 E_EventKind := KindFor (T_EventName t); E_Namespace := podNS; E_Pod := podName;
                 E_PodUID := podUID; E_PodIP := ""; E_Node := T_HostName t; E_Container := containerName;
                 E_ContainerID := containerID; E_Image := containerImage;
                 E_PID := T_HostProcessID t; E_UID := T_UserID t;
                 E_Process := f_process f; E_Execpath := f_execpath f;
                 E_Cmdline := fallback_cmdline targs (f_cmdline f);
                 E_Args := argsMap targs; E_Severity := ""; E_Category := "" |})
    end.
