(* ===== verification/BridgeMatcher.v ===== *)
(** * tracee-bridge/internal/matcher: the bridge's runtime-policy matcher

    matcher.go: the bridge matches the event structure itself, before it is
    encoded. Its relation to the hub's matcher (RuleMatcher), which reads the
    encoded event, is stated in BridgeProps. *)

From Stdlib Require Import Ascii.
From stdpp Require Import base list strings.
From S2P Require Import Prelude GoStrings GoValue Policy.
Local Open Scope string_scope.
Local Open Scope list_scope.
Local Open Scope go_scope.

Record Rule := {
  ID : string;
  Name : string;
  Sev : string;
  Enabled : bool;
  AlertOnly : bool;
  DetType : string;
  Syscall : string;
  Category : string;
  ProcessFilter : string;
  PathFilter : string;
  Namespace : string;
  PodPattern : string;
}.

Record Event := {
  EvSyscall : string;
  EvCategory : string;
  EvNamespace : string;
  EvPod : string;
  EvProcess : string;
  EvExecpath : string;
  EvCmdline : string;
  EvArgs : list (string * value);
}.

Section matcher.
Context {T : CaseTables} {F : FloatText}.

Fixpoint valueContains (v : value) (needle : string) : bool :=
  match v with
  | VStr t => Contains (ToLower t) needle
  | VNum t => Contains (float_text t) needle
  | VMap t =>
      let ip := as_string (vlookup t "sin_addr") in
      let ip := if ip == "" then as_string (vlookup t "sin6_addr") else ip in
      let port := match vlookup t "sin_port" with Some p => fmt_v p | None => "" end in
      if ((ip != "") || (port != "")) && Contains (ToLower (ip +:+ ":" +:+ port)) needle then true
      else existsb (λ kv, valueContains kv.2 needle) t
  | VList t => existsb (λ nv, valueContains nv needle) t
  | VNull | VBool _ => false
  end.

Definition argsContain (args : list (string * value)) (needle : string) : bool :=
  if (needle == "") || (length args =? 0)%nat then false
  else any (λ kv, valueContains kv.2 needle) args.

Definition syscallPinned (r : Rule) : bool := (Syscall r != "") && (Syscall r != "*").

Definition Matches (e : Event) (r : Rule) : bool :=
  if negb (Enabled r) then false
  else if syscallPinned r && (EvSyscall e != Syscall r) then false
  else if ((Category r != "") && (Category r != "*") && (DetType r != "Binary"))
          && (EvCategory e != Category r) then false
  else if negb (NamespaceMatches (EvNamespace e) (Namespace r)) then false
  else if negb (PodMatches (EvPod e) (PodPattern r)) then false
  else if (ProcessFilter r != "")
          && ((negb (syscallPinned r) && negb (IsExecSyscall (EvSyscall e)))
              || negb (ProcessMatches (ProcessFilter r) (EvProcess e) (EvExecpath e) (EvCmdline e)))
       then false
  else if (PathFilter r != "")
          && (let pf := ToLower (ReplaceByte (PathFilter r) "*" "") in
              negb (Contains (ToLower (EvCmdline e)) pf)
              && negb (Contains (ToLower (EvExecpath e)) pf)
              && negb (argsContain (EvArgs e) pf)) then false
  else true.

Definition MatchesAny (e : Event) (rules : list Rule) : bool := any (Matches e) rules.
End matcher.
