(* ===== verification/Alerter.v ===== *)
(** * tracee-bridge/internal/alerter: rule snapshot, alerts and their dedup

    alerter.go. The policy table of the database is a list of rows; a query
    returns the rows of the table or an error, and time is passed in. An alert
    handed to the forwarder is appended to the sent list. *)

From Stdlib Require Import Ascii.
From stdpp Require Import base list gmap strings.
From S2P Require Import Prelude GoStrings GoValue Policy Mapper BridgeMatcher.
Local Open Scope string_scope.
Local Open Scope list_scope.
Local Open Scope go_scope.

Definition dedupTTL : Duration := (10 * Minute)%Z.
Definition dedupMaxEntries : nat := Z.to_nat 20000.
Definition ruleStaleWarnAfter : Duration := (5 * Minute)%Z.
Definition sourceTag : string := "tracee-bridge".

(** The JSON document of a policy: a member is absent or has its type. Other
    documents ([D_bad]: some member has another type) make [json.Unmarshal]
    fail. *)
Record PolicyDoc := {
  D_id : option string;
  D_name : option string;
  D_sev : option string;
  D_enabled : option bool;
  D_alertOnly : option bool;
  D_detType : option string;
  D_syscall : option string;
  D_category : option string;
  D_processFilter : option string;
  D_pathFilter : option string;
  D_namespace : option string;
  D_podPattern : option string;
  D_bad : bool;
}.

(** The generated columns of [runtime_policies]. *)
Definition det_type (d : PolicyDoc) : option string := D_detType d.
Definition enabled (d : PolicyDoc) : bool := default true (D_enabled d).
Definition alert_only (d : PolicyDoc) : bool := default false (D_alertOnly d).

(** [json.Unmarshal] into the bridge's rule: an absent member leaves the zero
    value of its field. *)
Definition decode_rule (d : PolicyDoc) : option Rule :=
  if D_bad d then None
  else Some {| ID := default "" (D_id d); Name := default "" (D_name d); Sev := default "" (D_sev d);
               Enabled := default false (D_enabled d); AlertOnly := default false (D_alertOnly d);
               DetType := default "" (D_detType d); BridgeMatcher.Syscall := default "" (D_syscall d);
               Category := default "" (D_category d); ProcessFilter := default "" (D_processFilter d);
               PathFilter := default "" (D_pathFilter d); Namespace := default "" (D_namespace d);
               PodPattern := default "" (D_podPattern d) |}.

Record AlertLog := {
  L_Timestamp : Z;
  L_DetType : string;
  L_Source : string;
  L_RuleID : string;
  L_RuleName : string;
  L_Severity : string;
  L_Namespace : string;
  L_Target : string;
  L_Syscall : string;
  L_Detail : string;
  L_Persist : bool;
  L_Fingerprint : string;
  L_Data : UIEvent;
}.

Record Alerter := {
  rules : list Rule;
  policySyscalls : gset string;
  policyPassAll : bool;
  lastRefreshOK : option Time;
  dedup : gmap string Time;
  sent : list AlertLog;
}.

Definition new_alerter : Alerter :=
  {| rules := []; policySyscalls := ∅; policyPassAll := false; lastRefreshOK := None;
     dedup := ∅; sent := [] |}.

(** ** The rule snapshot *)

Definition runtimeTypes : list string := [""; "Runtime"; "Syscall"; "Binary"; "LSM"; "Tracepoint"].

(** The [det_type] condition of both queries. *)
Definition runtime_row (r : PolicyDoc) : bool :=
  match det_type r with None => true | Some t => any (String.eqb t) runtimeTypes end.

Definition alert_rules (table : list PolicyDoc) : list Rule :=
  omap (λ r, if alert_only r && enabled r && runtime_row r then decode_rule r else None) table.

(** One row of [loadPolicySyscalls]. *)
Definition add_syscall (acc : gset string * bool) (sc : string) : gset string * bool :=
  let sc := TrimSpace sc in
  if sc == "" then acc
  else if sc == "*" then (acc.1, true)
  else ({[sc]} ∪ acc.1, acc.2).

Definition policy_syscall_column (table : list PolicyDoc) : list string :=
  map (λ r, default "" (D_syscall r)) (List.filter (λ r, enabled r && runtime_row r) table).

Definition loadPolicySyscalls (table : option (list PolicyDoc)) : result (gset string * bool) :=
  match table with
  | None => Err "query failed"
  | Some rows => Ok (foldl add_syscall (∅, false) (policy_syscall_column rows))
  end.

(** [first] and [second] are the table as the two queries saw it; a failed
    query is [None], and the snapshot then stays as it was. *)
Definition refresh (a : Alerter) (first second : option (list PolicyDoc)) (now : Time) : Alerter * result unit :=
  match first with
  | None => (a, Err "query failed")
  | Some rows =>
      match loadPolicySyscalls second with
      | Err m => (a, Err m)
      | Ok (syscalls, passAll) =>
          ({| rules := alert_rules rows; policySyscalls := syscalls; policyPassAll := passAll;
              lastRefreshOK := Some now; dedup := dedup a; sent := sent a |}, Ok tt)
      end
  end.

Definition RuleCount (a : Alerter) : nat := length (rules a).

Definition WantsSyscall (a : option Alerter) (syscall : string) : bool :=
  match a with
  | None => false
  | Some a => policyPassAll a || bool_decide (syscall ∈ policySyscalls a)
  end.

Definition StaleFor (a : option Alerter) (now : Time) : Duration :=
  match a with
  | None => 0%Z
  | Some a => match lastRefreshOK a with None => 0%Z | Some last => TSub now last end
  end.

(** ** Alerts *)

Section alerts.
Context {T : CaseTables} {F : FloatText}.

Definition alertName (r : Rule) : string :=
  let name := TrimSpace (Name r) in
  if name != "" then name
  else if (DetType r == "Binary") && (ProcessFilter r != "") then "Binary: " +:+ ProcessFilter r
  else if (BridgeMatcher.Syscall r != "") && (BridgeMatcher.Syscall r != "*") then
    let prefix := if (DetType r == "LSM") || (DetType r == "Tracepoint") then DetType r else "Syscall" in
    prefix +:+ ": " +:+ BridgeMatcher.Syscall r
  else ID r.

Definition alertSeverity (r : Rule) (ev : option UIEvent) : string :=
  let severity := TrimSpace (Sev r) in
  if severity != "" then ToUpper severity
  else match ev with None => "" | Some ev => ToUpper (TrimSpace (E_Severity ev)) end.

Definition markFresh (a : Alerter) (fp : string) (now : Time) : Alerter * bool :=
  let fresh :=
    ({| rules := rules a; policySyscalls := policySyscalls a; policyPassAll := policyPassAll a;
        lastRefreshOK := lastRefreshOK a; dedup := <[fp := now]> (dedup a); sent := sent a |}, true) in
  match dedup a !! fp with
  | Some last => if (TSub now last <? dedupTTL)%Z then (a, false) else fresh
  | None => fresh
  end.

Definition matcher_event (ev : UIEvent) : Event :=
  {| EvSyscall := E_Syscall ev; EvCategory := E_Category ev; EvNamespace := E_Namespace ev;
     EvPod := E_Pod ev; EvProcess := E_Process ev; EvExecpath := E_Execpath ev;
     EvCmdline := E_Cmdline ev; EvArgs := E_Args ev |}.

Definition fingerprint (r : Rule) (ev : UIEvent) : string :=
  Join ["rt"; ID r; E_Namespace ev; E_Pod ev; E_Syscall ev] "|".

Definition alert_log (r : Rule) (ev : UIEvent) : AlertLog :=
  {| L_Timestamp := E_Ts ev;
     L_DetType := if DetType r == "" then "Syscall" else DetType r;
     L_Source := sourceTag; L_RuleID := ID r; L_RuleName := alertName r;
     L_Severity := alertSeverity r (Some ev);
     L_Namespace := if E_Namespace ev == "" then "—" else E_Namespace ev;
     L_Target := if E_Pod ev == "" then "—" else E_Pod ev;
     L_Syscall := E_Syscall ev; L_Detail := E_Cmdline ev; L_Persist := true;
     L_Fingerprint := fingerprint r ev; L_Data := ev |}.

(** [a.fwd.Send(al)]. *)
Definition fwd_send (a : Alerter) (al : AlertLog) : Alerter :=
  {| rules := rules a; policySyscalls := policySyscalls a; policyPassAll := policyPassAll a;
     lastRefreshOK := lastRefreshOK a; dedup := dedup a; sent := snoc (sent a) al |}.

(** One rule of the loop of [Evaluate]; [now] is the clock of its
    [markFresh]. *)
Definition evaluate_rule (ev : UIEvent) (a : Alerter) (rn : Rule * Time) : Alerter :=
  if negb (Matches (matcher_event ev) rn.1) then a
  else let '(a', fresh) := markFresh a (fingerprint rn.1 ev) rn.2 in
       if negb fresh then a' else fwd_send a' (alert_log rn.1 ev).

(** [clock i] is the time at which rule [i] of the snapshot is looked at. *)
Definition Evaluate (a : Alerter) (ev : option UIEvent) (clock : nat → Time) : Alerter :=
  match ev with
  | None => a
  | Some ev => foldl (evaluate_rule ev) a (zip (rules a) (map clock (seq 0 (length (rules a)))))
  end.

Definition sweep (a : Alerter) (now : Time) : Alerter :=
  let cutoff := TAdd now (- dedupTTL)%Z in
  let kept := filter (λ kv : string * Time, ¬ (Before kv.2 cutoff = true)) (dedup a) in
  {| rules := rules a; policySyscalls := policySyscalls a; policyPassAll := policyPassAll a;
     lastRefreshOK := lastRefreshOK a;
     dedup := if (dedupMaxEntries <? size kept)%nat then ∅ else kept;
     sent := sent a |}.
End alerts.
