(* ===== verification/BridgeHub.v ===== *)
(** * tracee-bridge/internal/hub: filter, dedup, history and live clients

    broadcast.go, stream.go and the tables of hub.go. A record handed to the
    Kafka producer is appended to [produced]; a record the stream consumer
    fetches is a [Message], the document with what decoding it gives. Clocks
    are arguments. *)

From Stdlib Require Import Ascii.
From stdpp Require Import base list gmap strings.
From S2P Require Import Prelude GoStrings GoValue Policy Mapper BridgeMatcher Alerter.
Local Open Scope string_scope.
Local Open Scope list_scope.
Local Open Scope go_scope.

Definition streamMaxMem : nat := Z.to_nat 50000.
Definition historyReplayCap : Z := 10000.
Definition chanBuf : nat := 64.

Definition alwaysPass : list string :=
  ["connect"; "bind"; "accept"; "accept4"; "sendto"; "dup2"; "dup3"; "execve"; "execveat";
   "sched_process_exec"; "ptrace"; "process_vm_writev"; "memfd_create"; "bpf"; "socket"; "mmap";
   "mprotect"; "init_module"; "finit_module"; "module_load"; "pivot_root"; "unshare"; "setns";
   "chroot"; "mount"; "umount2"; "security_sb_mount"; "setuid"; "setgid"; "setreuid"; "setresuid";
   "setresgid"; "capset"; "open"; "openat"; "io_uring_setup"; "io_uring_enter"; "io_uring_register";
   "sched_process_fork"; "sched_process_exit"; "task_rename"; "sched_switch"; "module_free";
   "cgroup_mkdir"; "cgroup_rmdir"; "cgroup_attach_task"; "clone"; "kill"; "chdir"; "openat2";
   "security_file_open"; "security_inode_unlink"; "security_inode_rename"; "security_inode_symlink";
   "security_inode_mknod"; "security_bprm_check"; "security_mmap_file"; "security_file_mprotect";
   "security_socket_create"; "security_socket_connect"; "security_socket_bind";
   "security_socket_accept"; "security_socket_listen"; "security_socket_setsockopt";
   "security_bpf"; "security_bpf_map"; "security_kernel_read_file"].

Definition neverDedup : list string :=
  ["ptrace"; "process_vm_writev"; "init_module"; "finit_module"; "module_load"; "bpf";
   "security_bpf"; "security_bpf_map"; "memfd_create"; "pivot_root"; "unshare"; "setns"; "chroot";
   "mount"; "umount2"; "security_sb_mount"; "setuid"; "setgid"; "setreuid"; "setresuid";
   "setresgid"; "capset"; "io_uring_setup"; "io_uring_register"; "security_inode_rename";
   "security_inode_unlink"; "security_inode_mknod"; "security_inode_symlink";
   "security_kernel_read_file"].

Definition isLSMHook (sc : string) : bool := HasPrefix sc "security_".

(** A fetched record: its time, and its value decoded as an event, as a
    time-stamped document and as a document with an id ([None]: not
    decodable so); [m_valid] says whether the value is JSON at all. *)
Record Message := {
  m_Timestamp : Time;
  m_valid : bool;
  m_event : option UIEvent;
  m_ts : option Time;
  m_id : option Z;
}.

Record client := { c_ch : list Message; c_drops : Z; c_closed : bool }.

Definition newClient : client := {| c_ch := []; c_drops := 0; c_closed := false |}.

Record Hub := {
  clients : gmap nat client;
  memHistory : list Message;
  h_dedup : gmap string Time;
  h_dedupTTL : Duration;
  h_dedupMaxEntries : nat;
  produced : list (string * UIEvent);
  cntReceived : Z;
  cntPassed : Z;
  cntDropped : Z;
  cntFiltered : Z;
  cntDedup : Z;
  cntSSEDrops : Z;
  cntSSEEvict : Z;
  cntBackfilled : Z;
  cntDedupFlush : Z;
  maxClientDrops : Z;
  startedAt : Time;
  alerter : option Alerter;
}.

(** ** Updates of one part of the hub *)

Definition with_counts (h : Hub) (received passed dropped filtered dedups : Z) : Hub :=
  {| clients := clients h; memHistory := memHistory h; h_dedup := h_dedup h;
     h_dedupTTL := h_dedupTTL h; h_dedupMaxEntries := h_dedupMaxEntries h; produced := produced h;
     cntReceived := cntReceived h + received; cntPassed := cntPassed h + passed;
     cntDropped := cntDropped h + dropped; cntFiltered := cntFiltered h + filtered;
     cntDedup := cntDedup h + dedups; cntSSEDrops := cntSSEDrops h; cntSSEEvict := cntSSEEvict h;
     cntBackfilled := cntBackfilled h; cntDedupFlush := cntDedupFlush h;
     maxClientDrops := maxClientDrops h; startedAt := startedAt h; alerter := alerter h |}.

Definition with_dedup (h : Hub) (d : gmap string Time) (flushes : Z) : Hub :=
  {| clients := clients h; memHistory := memHistory h; h_dedup := d;
     h_dedupTTL := h_dedupTTL h; h_dedupMaxEntries := h_dedupMaxEntries h; produced := produced h;
     cntReceived := cntReceived h; cntPassed := cntPassed h;
     cntDropped := cntDropped h; cntFiltered := cntFiltered h;
     cntDedup := cntDedup h; cntSSEDrops := cntSSEDrops h; cntSSEEvict := cntSSEEvict h;
     cntBackfilled := cntBackfilled h; cntDedupFlush := cntDedupFlush h + flushes;
     maxClientDrops := maxClientDrops h; startedAt := startedAt h; alerter := alerter h |}.

Definition with_produced (h : Hub) (p : list (string * UIEvent)) : Hub :=
  {| clients := clients h; memHistory := memHistory h; h_dedup := h_dedup h;
     h_dedupTTL := h_dedupTTL h; h_dedupMaxEntries := h_dedupMaxEntries h; produced := p;
     cntReceived := cntReceived h; cntPassed := cntPassed h;
     cntDropped := cntDropped h; cntFiltered := cntFiltered h;
     cntDedup := cntDedup h; cntSSEDrops := cntSSEDrops h; cntSSEEvict := cntSSEEvict h;
     cntBackfilled := cntBackfilled h; cntDedupFlush := cntDedupFlush h;
     maxClientDrops := maxClientDrops h; startedAt := startedAt h; alerter := alerter h |}.

Definition with_clients (h : Hub) (cs : gmap nat client) (drops evicted : Z) : Hub :=
  {| clients := cs; memHistory := memHistory h; h_dedup := h_dedup h;
     h_dedupTTL := h_dedupTTL h; h_dedupMaxEntries := h_dedupMaxEntries h; produced := produced h;
     cntReceived := cntReceived h; cntPassed := cntPassed h;
     cntDropped := cntDropped h; cntFiltered := cntFiltered h;
     cntDedup := cntDedup h; cntSSEDrops := cntSSEDrops h + drops; cntSSEEvict := cntSSEEvict h + evicted;
     cntBackfilled := cntBackfilled h; cntDedupFlush := cntDedupFlush h;
     maxClientDrops := maxClientDrops h; startedAt := startedAt h; alerter := alerter h |}.

Definition with_stream (h : Hub) (hist : list Message) (backfilled : Z) (al : option Alerter) : Hub :=
  {| clients := clients h; memHistory := hist; h_dedup := h_dedup h;
     h_dedupTTL := h_dedupTTL h; h_dedupMaxEntries := h_dedupMaxEntries h; produced := produced h;
     cntReceived := cntReceived h; cntPassed := cntPassed h;
     cntDropped := cntDropped h; cntFiltered := cntFiltered h;
     cntDedup := cntDedup h; cntSSEDrops := cntSSEDrops h; cntSSEEvict := cntSSEEvict h;
     cntBackfilled := cntBackfilled h + backfilled; cntDedupFlush := cntDedupFlush h;
     maxClientDrops := maxClientDrops h; startedAt := startedAt h; alerter := al |}.

(** ** Dedup *)

(** FNV-1a, 64 bit. *)
Fixpoint fnv64a (h : Z) (s : string) : Z :=
  match s with
  | EmptyString => h
  | String c s' => fnv64a ((Z.lxor h (byte_of c) * 1099511628211) mod 2 ^ 64)%Z s'
  end.

Definition hex_digit (d : Z) : ascii := ascii_of (if (d <? 10)%Z then 48 + d else 87 + d)%Z.

(** [strconv.FormatUint(z, 16)]; 16 digits hold 64 bits. *)
Fixpoint hex_digits (fuel : nat) (z : Z) (acc : string) : string :=
  match fuel with
  | O => acc
  | S fuel' =>
      let acc := String (hex_digit (z mod 16)) acc in
      if (z <? 16)%Z then acc else hex_digits fuel' (z / 16) acc
  end.
Definition FormatHex (z : Z) : string := hex_digits 16 z "".

Section hub.
Context {T : CaseTables} {F : FloatText}.

Definition argsFingerprint (args : list (string * value)) : Z :=
  if (length args =? 0)%nat then 0%Z else fnv64a 14695981039346656037 (fmt_v (VMap args)).

Definition dedupKey (ev : UIEvent) : string :=
  let head := E_Pod ev +:+ "|" +:+ E_Container ev +:+ "|" +:+ E_Syscall ev +:+ "|"
              +:+ E_Process ev +:+ "|" in
  let body := if E_Cmdline ev != "" then E_Cmdline ev
              else if E_Execpath ev != "" then E_Execpath ev else "" in
  let fp := argsFingerprint (E_Args ev) in
  head +:+ body +:+ (if (fp =? 0)%Z then "" else "|" +:+ FormatHex fp).

Definition shouldDedup (h : Hub) (ev : UIEvent) : bool :=
  (0 <? h_dedupTTL h)%Z && (E_Pod ev != "") && negb (any (String.eqb (E_Syscall ev)) neverDedup).

(** The entries younger than the TTL. *)
Definition live_entries (h : Hub) (now : Time) : gmap string Time :=
  filter (λ kv : string * Time, ¬ (h_dedupTTL h <= TSub now kv.2)%Z) (h_dedup h).

Definition sweepDedupLocked (h : Hub) (now : Time) : Hub :=
  let kept := live_entries h now in
  if (h_dedupMaxEntries h <? size kept)%nat then with_dedup h ∅ 1 else with_dedup h kept 0.

Definition markSeen (h : Hub) (key : string) (now : Time) : Hub * bool :=
  let fresh :=
    let h' := with_dedup h (<[key := now]> (h_dedup h)) 0 in
    (if (h_dedupMaxEntries h' <? size (h_dedup h'))%nat then sweepDedupLocked h' now else h', false) in
  match h_dedup h !! key with
  | Some last => if (TSub now last <? h_dedupTTL h)%Z then (h, true) else fresh
  | None => fresh
  end.

(** One round of [dedupSweepLoop]. *)
Definition dedup_tick (h : Hub) (now : Time) : Hub := with_dedup h (live_entries h now) 0.

(** ** Broadcast *)

Definition wanted (h : Hub) (ev : UIEvent) : bool :=
  if any (String.eqb (E_Syscall ev)) alwaysPass || isLSMHook (E_Syscall ev) then true
  else if (E_Execpath ev != "") || (E_Cmdline ev != "") then true
  else WantsSyscall (alerter h) (E_Syscall ev).

Definition record_key (ev : UIEvent) : string := E_Namespace ev +:+ "/" +:+ E_Pod ev.

Definition produce (h : Hub) (ev : UIEvent) : Hub :=
  with_produced (with_counts h 0 1 0 0 0) (snoc (produced h) (record_key ev, ev)).

Definition Broadcast (h : Hub) (ev : UIEvent) (now : Time) : Hub :=
  let h := with_counts h 1 0 0 0 0 in
  if negb (wanted h ev) then with_counts h 0 0 1 1 0
  else if shouldDedup h ev then
    let '(h', seen) := markSeen h (dedupKey ev) now in
    if seen then with_counts h' 0 0 0 0 1 else produce h' ev
  else produce h ev.

(** The producer's callback when it could not deliver a record. *)
Definition produce_failed (h : Hub) : Hub := with_counts h 0 0 1 0 0.

(** ** The live stream *)

Definition sendToClient (data : Message) (h : Hub) (id : nat) : Hub :=
  match clients h !! id with
  | None => h
  | Some c =>
      if c_closed c then h
      else if (length (c_ch c) <? chanBuf)%nat then
        with_clients h (<[id := {| c_ch := snoc (c_ch c) data; c_drops := 0; c_closed := false |}]> (clients h)) 0 0
      else if (maxClientDrops h <=? c_drops c + 1)%Z then
        with_clients h (delete id (clients h)) 1 1
      else with_clients h
             (<[id := {| c_ch := c_ch c; c_drops := c_drops c + 1; c_closed := false |}]> (clients h)) 1 0
  end.

Definition append_history (hist : list Message) (data : Message) : list Message :=
  let hist := snoc hist data in
  if (streamMaxMem <? length hist)%nat then drop (length hist - streamMaxMem) hist else hist.

(** One record of [sseFanOutLoop]. *)
Definition fan_out {O : MapOrder} (h : Hub) (r : Message) (clock : nat → Time) : Hub :=
  let replayed := negb (IsZero (m_Timestamp r)) && Before (m_Timestamp r) (startedAt h) in
  let al := match alerter h with
            | Some a =>
                if negb replayed && (0 <? RuleCount a)%nat then
                  match m_event r with
                  | Some ev => Some (Evaluate a (Some ev) clock)
                  | None => Some a
                  end
                else Some a
            | None => None
            end in
  let h := with_stream h (append_history (memHistory h) r) (if replayed then 1 else 0) al in
  foldl (sendToClient r) h (map_order (map fst (map_to_list (clients h)))).

(** A live client joins with an empty queue, takes its next message, leaves. *)
Definition join (h : Hub) (id : nat) : Hub := with_clients h (<[id := newClient]> (clients h)) 0 0.
Definition leave (h : Hub) (id : nat) : Hub := with_clients h (delete id (clients h)) 0 0.
Definition receive (h : Hub) (id : nat) : Hub * option Message :=
  match clients h !! id with
  | Some c => match c_ch c with
              | m :: rest =>
                  (with_clients h (<[id := {| c_ch := rest; c_drops := c_drops c; c_closed := c_closed c |}]> (clients h)) 0 0,
                   Some m)
              | [] => (h, None)
              end
  | None => (h, None)
  end.

(** ** Reading the history *)

Definition GetWindowHistory (h : Hub) (hours limit : Z) (now : Time) : list Message * bool :=
  let hours := if (hours <=? 0)%Z then 6%Z else hours in
  let hours := if (24 <? hours)%Z then 24%Z else hours in
  let limit := if (limit <=? 0)%Z then historyReplayCap else limit in
  let cutoff := TAdd now (- (hours * Hour))%Z in
  let out := List.filter (λ m, match m_ts m with
                               | None => false
                               | Some ts => negb (negb (IsZero ts) && Before ts cutoff)
                               end) (memHistory h) in
  if (limit <? Z.of_nat (length out))%Z then (drop (length out - Z.to_nat limit) out, true)
  else (out, false).

Definition RecentEvents (h : Hub) (limit : Z) : list Message * string :=
  let limit := if (limit <=? 0)%Z || (historyReplayCap <? limit)%Z then historyReplayCap else limit in
  let start := if (limit <? Z.of_nat (length (memHistory h)))%Z
               then (length (memHistory h) - Z.to_nat limit)%nat else 0%nat in
  let out := List.filter m_valid (drop start (memHistory h)) in
  (out, foldl (λ id m, match m_id m with
                       | Some i => if (0 <? i)%Z then FormatInt i else id
                       | None => id
                       end) "0" out).

Definition getHistory (h : Hub) : list Message := memHistory h.
End hub.
