(* ===== verification/BridgeProps.v ===== *)
(** * What the bridge guarantees

    The two policy matchers agree, the ingest filter lets through what a
    policy needs, dedup suppresses only repeats, and the hub's tables, history
    and client queues stay within their bounds on every run. *)

From Stdlib Require Import Ascii.
From stdpp Require Import base list gmap strings.
From S2P Require Import Prelude GoStrings GoValue Policy RuleMatcher Mapper BridgeMatcher Alerter BridgeHub.
Local Open Scope string_scope.
Local Open Scope list_scope.
Local Open Scope go_scope.

(** ** The bridge's matcher and the hub's matcher *)

(** The members of the encoded event the hub's matcher reads; empty [args]
    and [category] are omitted. Every string of an event comes from decoded
    JSON, so it is valid UTF-8 and encodes to itself. *)
Definition event_doc (e : UIEvent) : list (string * value) :=
  [("syscall", VStr (E_Syscall e)); ("namespace", VStr (E_Namespace e)); ("pod", VStr (E_Pod e));
   ("process", VStr (E_Process e)); ("execpath", VStr (E_Execpath e)); ("cmdline", VStr (E_Cmdline e))]
  ++ (if (length (E_Args e) =? 0)%nat then [] else [("args", VMap (E_Args e))])
  ++ (if E_Category e == "" then [] else [("category", VStr (E_Category e))]).

(** The same policy document decoded into the hub's rule, whose [enabled] is
    a pointer. *)
Definition hub_rule (d : PolicyDoc) : RuleMatcher.Rule :=
  {| R_ID := default "" (D_id d); R_Name := default "" (D_name d); R_Enabled := D_enabled d;
     R_Syscall := default "" (D_syscall d); R_Category := default "" (D_category d);
     R_DetType := default "" (D_detType d); R_Namespace := default "" (D_namespace d);
     R_PodPattern := default "" (D_podPattern d);
     R_ProcessFilter := default "" (D_processFilter d);
     R_PathFilter := default "" (D_pathFilter d); R_Sev := default "" (D_sev d) |}.

(** The syscalls whose path filter the hub reads as a list of values. *)
Definition value_syscalls : list string := ["dup2"; "dup3"; "socket"; "mmap"; "mprotect"].

Section agree.
Context {T : CaseTables} {F : FloatText}.

Lemma valueContains_agree v needle :
  BridgeMatcher.valueContains v needle = RuleMatcher.valueContains needle v.
Proof.
  induction v as [| | | |l IH|m IH] using value_nested_ind; try done; simpl.
  - induction IH as [|x l Hx _ IHl]; simpl; [done|]. by rewrite Hx, IHl.
  - unfold sockaddr_hit.
    assert (existsb (λ kv, BridgeMatcher.valueContains kv.2 needle) m
            = existsb (λ kv, RuleMatcher.valueContains needle kv.2) m) as ->.
    { induction IH as [|x l Hx _ IHl]; simpl; [done|]. by rewrite Hx, IHl. }
    by destruct (_ && _).
Qed.

Lemma argsContain_agree args needle :
  BridgeMatcher.argsContain args needle
  = RuleMatcher.argsContain (if (length args =? 0)%nat then None else Some args) needle.
Proof.
  unfold BridgeMatcher.argsContain, RuleMatcher.argsContain, any.
  destruct (length args =? 0)%nat; [by rewrite orb_true_r|]. rewrite orb_false_r.
  destruct (needle == ""); [done|].
  induction args as [|x args IH]; simpl; [done|]. by rewrite valueContains_agree, IH.
Qed.

Lemma event_doc_args e :
  RuleMatcher.argsMap (event_doc e) = if (length (E_Args e) =? 0)%nat then None else Some (E_Args e).
Proof.
  unfold RuleMatcher.argsMap, event_doc. simpl.
  destruct (length (E_Args e) =? 0)%nat; simpl; [|done].
  by destruct (E_Category e == "").
Qed.

Lemma event_doc_category e : strField (event_doc e) ["category"] = E_Category e.
Proof.
  unfold event_doc. simpl.
  destruct (length (E_Args e) =? 0)%nat; simpl;
    destruct (String.eqb_spec (E_Category e) "") as [->|]; done.
Qed.

Lemma candidate_empty pf : candidate_matches pf "" = false.
Proof. unfold candidate_matches. rewrite ToLower_ascii; done. Qed.

(** Filling an empty field never loses a process match. *)
Lemma ProcessMatches_fill pf p x c p' x' c' :
  (p = "" ∨ p' = p) → (x = "" ∨ x' = x) → (c = "" ∨ c' = c) →
  ProcessMatches pf p x c = true → ProcessMatches pf p' x' c' = true.
Proof.
  intros Hp Hx Hc. unfold ProcessMatches. case_if; [done|]. unfold any. simpl. rewrite !orb_false_r.
  destruct Hp as [->| ->], Hx as [->| ->], Hc as [->| ->];
    rewrite ?candidate_empty, ?(candidate_empty _ : candidate_matches _ (first_word "") = false);
    rewrite ?orb_true_iff; simpl; tauto || (intuition congruence).
Qed.

Lemma Contains_fill s s' pf : (s = "" ∨ s' = s) →
  Contains (ToLower s) pf = true → Contains (ToLower s') pf = true.
Proof.
  intros [->| ->]; [|done]. rewrite ToLower_ascii by done. simpl.
  intros H. apply Contains_spec in H as (a & b & H).
  destruct a, pf, b; try done. intros. apply Contains_empty.
Qed.

Lemma fill_process e : E_Process e = "" ∨ event_process (event_doc e) = E_Process e.
Proof. unfold event_process. simpl. destruct (String.eqb_spec (E_Process e) ""); [by left|by right]. Qed.
Lemma fill_execpath e : E_Execpath e = "" ∨ event_execpath (event_doc e) = E_Execpath e.
Proof. unfold event_execpath. simpl. destruct (String.eqb_spec (E_Execpath e) ""); [by left|by right]. Qed.
Lemma fill_cmdline e : E_Cmdline e = "" ∨ event_cmdline (event_doc e) = E_Cmdline e.
Proof. unfold event_cmdline. simpl. destruct (String.eqb_spec (E_Cmdline e) ""); [by left|by right]. Qed.

Lemma path_agree e pf :
  E_Syscall e ∉ value_syscalls →
  let p := ToLower (ReplaceByte pf "*" "") in
  (negb (Contains (ToLower (E_Cmdline e)) p) && negb (Contains (ToLower (E_Execpath e)) p)
   && negb (BridgeMatcher.argsContain (E_Args e) p)) = false →
  path_ok (event_doc e) pf (E_Syscall e) = true.
Proof.
  intros Hsc p Hhit. unfold path_ok.
  assert (∀ s, s ∈ value_syscalls → (E_Syscall e == s) = false) as Hne.
  { intros s Hs. apply String.eqb_neq. intros Heq. rewrite Heq in Hsc. done. }
  rewrite !Hne by (unfold value_syscalls; set_solver). simpl. fold p.
  rewrite event_doc_args. rewrite argsContain_agree in Hhit.
  bool_hyps. rewrite !orb_true_iff. destruct Hhit as [Hhit|Hhit]; [|by right; bool_hyps].
  destruct (Contains (ToLower (E_Cmdline e)) p) eqn:Hc.
  - left; left; left. eapply Contains_fill, Hc. apply fill_cmdline.
  - left; left; right. simpl in Hhit. apply negb_false_iff in Hhit.
    eapply Contains_fill, Hhit. apply fill_execpath.
Qed.

Lemma guard_mono a b p p' :
  a && (b || negb p) = false → (p = true → p' = true) → a && (b || negb p') = false.
Proof. destruct a, b, p, p'; simpl; auto; intros _ H; by rewrite H. Qed.

(** C4: when the bridge's matcher accepts an event for a policy document, the
    hub's matcher accepts the encoded event for the same document, provided
    the rule has no path filter or the syscall is none of dup2, dup3, socket,
    mmap and mprotect, whose filter the hub reads as a list of values and the
    bridge as a substring. *)
Theorem bridge_match_hub_match d r e :
  decode_rule d = Some r →
  (PathFilter r = "" ∨ E_Syscall e ∉ value_syscalls) →
  Matches (matcher_event e) r = true →
  isEnabled (hub_rule d) = true ∧ matches (event_doc e) (hub_rule d) = true.
Proof.
  unfold decode_rule. destruct (D_bad d); [done|]. intros [= <-] Hpath. simpl in Hpath.
  unfold Matches, syscallPinned. simpl. intros HM.
  destruct (default false (D_enabled d)) eqn:Hen; simpl in HM; [|done].
  split; [by unfold isEnabled; simpl; destruct (D_enabled d) as [[]|]|].
  unfold matches, pinned. rewrite event_doc_category. simpl.
  do 4 (match type of HM with (if ?b then _ else _) = _ => destruct b; [done|] end).
  match type of HM with (if ?b then _ else _) = _ => destruct b eqn:Hproc; [done|] end.
  match type of HM with (if ?b then _ else _) = _ => destruct b eqn:Hpf; [done|] end.
  erewrite (guard_mono _ _ _ _ Hproc) by (eapply ProcessMatches_fill;
    [apply fill_process|apply fill_execpath|apply fill_cmdline]).
  destruct (String.eqb_spec (default "" (D_pathFilter d)) "") as [|Hne]; [done|]. simpl in *.
  destruct Hpath as [?|Hsc]; [done|]. by rewrite (path_agree e _ Hsc Hpf).
Qed.
End agree.

Definition socket_policy : PolicyDoc :=
  {| D_id := Some "net"; D_name := Some "internet sockets"; D_sev := Some "low"; D_enabled := Some true;
     D_alertOnly := Some true; D_detType := Some "Syscall"; D_syscall := Some "socket"; D_category := None;
     D_processFilter := None; D_pathFilter := Some "2,10"; D_namespace := None; D_podPattern := None;
     D_bad := false |}.

Definition plain_event (syscall ns pod cmdline : string) (args : list (string * value)) : UIEvent :=
  {| E_ID := 1; E_Ts := 1; E_Syscall := syscall; E_EventKind := KindFor syscall; E_Namespace := ns;
     E_Pod := pod; E_PodUID := ""; E_PodIP := ""; E_Node := "n1"; E_Container := "app";
     E_ContainerID := ""; E_Image := ""; E_PID := 7; E_UID := 0; E_Process := "app"; E_Execpath := "";
     E_Cmdline := cmdline; E_Args := args; E_Severity := ""; E_Category := "" |}.

Definition openat_policy : PolicyDoc :=
  {| D_id := Some "shadow"; D_name := Some "shadow read"; D_sev := Some "high"; D_enabled := Some true;
     D_alertOnly := Some true; D_detType := Some "Syscall"; D_syscall := Some "openat"; D_category := None;
     D_processFilter := Some "APP"; D_pathFilter := Some "*/etc/shadow"; D_namespace := Some "prod*";
     D_podPattern := Some "web"; D_bad := false |}.

Definition shadow_read : UIEvent :=
  plain_event "openat" "prod-1" "web-0" "/etc/shadow" [("pathname", VStr "/etc/shadow")].

Lemma bridge_match_hub_match_witness :
  @matches ascii_tables small_float_text (event_doc shadow_read) (hub_rule openat_policy) = true.
Proof.
  refine (proj2 (@bridge_match_hub_match ascii_tables small_float_text openat_policy _ shadow_read eq_refl _ _)).
  - right. unfold value_syscalls. apply (bool_decide_eq_true_1 _). vm_compute. reflexivity.
  - vm_compute. reflexivity.
Defined.

(** Where the two matchers part: a path filter listing address families on
    [socket] is a value list for the hub and a substring for the bridge, so
    the bridge never alerts on it. *)
Lemma socket_filter_divergence :
  let e := plain_event "socket" "prod" "web-0" "2" [("domain", VStr "AF_INET")] in
  @matches ascii_tables small_float_text (event_doc e) (hub_rule socket_policy) = true
  ∧ (∃ r, decode_rule socket_policy = Some r
          ∧ @Matches ascii_tables small_float_text (matcher_event e) r = false).
Proof. split; [vm_compute; reflexivity|]. eexists. split; [reflexivity|vm_compute; reflexivity]. Qed.

(** A policy document without an [enabled] member is enabled in the database
    and for the hub, and the bridge loads it; yet it never matches there,
    because the bridge decodes the missing member as [false]. *)
Theorem missing_enabled_never_alerts `{CaseTables} `{FloatText} d r e :
  D_enabled d = None → decode_rule d = Some r →
  enabled d = true ∧ isEnabled (hub_rule d) = true ∧ Matches e r = false.
Proof.
  intros Hd. unfold decode_rule, enabled, isEnabled, Matches. simpl. rewrite Hd.
  destruct (D_bad d); [done|]. by intros [= <-].
Qed.

Definition no_enabled_policy : PolicyDoc :=
  {| D_id := Some "e"; D_name := None; D_sev := None; D_enabled := None; D_alertOnly := Some true;
     D_detType := None; D_syscall := Some "openat"; D_category := None; D_processFilter := None;
     D_pathFilter := None; D_namespace := None; D_podPattern := None; D_bad := false |}.

Lemma missing_enabled_never_alerts_witness :
  (∃ r, alert_rules [no_enabled_policy] = [r]
        ∧ @Matches ascii_tables small_float_text (matcher_event shadow_read) r = false)
  ∧ @matches ascii_tables small_float_text (event_doc shadow_read) (hub_rule no_enabled_policy) = true.
Proof.
  split; [|vm_compute; reflexivity]. eexists. split; [reflexivity|].
  exact (proj2 (proj2 (@missing_enabled_never_alerts ascii_tables small_float_text no_enabled_policy _
                         (matcher_event shadow_read) eq_refl eq_refl))).
Defined.

(** ** The ingest filter *)

Lemma add_syscall_spec l acc sc :
  (sc ∈ (foldl add_syscall acc l).1 ↔
     sc ∈ acc.1 ∨ ∃ s, s ∈ l ∧ TrimSpace s = sc ∧ sc ≠ "" ∧ sc ≠ "*")
  ∧ ((foldl add_syscall acc l).2 = true ↔ acc.2 = true ∨ ∃ s, s ∈ l ∧ TrimSpace s = "*").
Proof.
  revert acc. induction l as [|x l IH]; intros acc; simpl.
  { split; (split; [by left|intros [?|(s & Hs & _)]; [done|by apply not_elem_of_nil in Hs]]). }
  destruct (IH (add_syscall acc x)) as [-> ->].
  assert ((sc ∈ (add_syscall acc x).1 ↔ sc ∈ acc.1 ∨ TrimSpace x = sc ∧ sc ≠ "" ∧ sc ≠ "*")
          ∧ ((add_syscall acc x).2 = true ↔ acc.2 = true ∨ TrimSpace x = "*")) as [-> ->].
  { unfold add_syscall. destruct (String.eqb_spec (TrimSpace x) "") as [E|E].
    - rewrite E. split; (split; [by left|intros [?|?]; [done|]]); naive_solver.
    - destruct (String.eqb_spec (TrimSpace x) "*") as [E'|E']; simpl; split; set_solver. }
  setoid_rewrite elem_of_cons. split; split.
  - intros [[?|?]|(s&?&?)]; [by left|right; exists x; tauto|right; exists s; tauto].
  - intros [?|(s&[->|?]&?)]; [by left; left|left; right; tauto|right; exists s; tauto].
  - intros [[?|?]|(s&?&?)]; [by left|right; exists x; tauto|right; exists s; tauto].
  - intros [?|(s&[->|?]&?)]; [by left; left|left; right; tauto|right; exists s; tauto].
Qed.

Lemma Matches_enabled `{CaseTables} `{FloatText} e r : Matches e r = true → Enabled r = true.
Proof. unfold Matches. by destruct (Enabled r). Qed.

Lemma Matches_syscall `{CaseTables} `{FloatText} e r :
  Matches e r = true → syscallPinned r = true → EvSyscall e = BridgeMatcher.Syscall r.
Proof.
  unfold Matches. destruct (Enabled r); simpl; [|done]. intros HM Hp. rewrite Hp in HM. simpl in HM.
  destruct (String.eqb_spec (EvSyscall e) (BridgeMatcher.Syscall r)); [done|]. done.
Qed.

(** The ingest filter never drops an event a policy with a syscall is
    waiting for: after a successful refresh, an event that matches a rule of
    the policy table whose syscall is not blank is wanted. *)
Theorem wanted_complete `{CaseTables} `{FloatText} h a first second now a' d r ev :
  refresh a first (Some second) now = (a', Ok tt) →
  alerter h = Some a' →
  d ∈ second → runtime_row d = true → decode_rule d = Some r →
  TrimSpace (BridgeMatcher.Syscall r) ≠ "" →
  TrimSpace (E_Syscall ev) = E_Syscall ev →
  Matches (matcher_event ev) r = true →
  wanted h ev = true.
Proof.
  intros Href Hal Hd Hrt Hr Hns Htrim HM. unfold wanted. do 2 (case_if; [done|]).
  rewrite Hal. unfold WantsSyscall. unfold refresh in Href. destruct first as [rows|]; [|done].
  unfold loadPolicySyscalls in Href. destruct (foldl _ _ _) as [scs pass] eqn:Hf.
  injection Href as <-. simpl.
  assert (default "" (D_syscall d) ∈ policy_syscall_column second) as Hin.
  { unfold policy_syscall_column. apply list_elem_of_fmap. exists d. split; [done|].
    apply list_elem_of_In, filter_In. split; [by apply list_elem_of_In|]. rewrite Hrt, andb_true_r.
    apply Matches_enabled in HM. unfold decode_rule in Hr. destruct (D_bad d); [done|].
    injection Hr as <-. simpl in HM. unfold enabled. by destruct (D_enabled d) as [[]|]. }
  assert (BridgeMatcher.Syscall r = default "" (D_syscall d)) as Hrs.
  { unfold decode_rule in Hr. destruct (D_bad d); [done|]. by injection Hr as <-. }
  destruct (add_syscall_spec (policy_syscall_column second) (∅, false) (E_Syscall ev)) as [Hset Hall].
  rewrite Hf in Hset, Hall. simpl in Hset, Hall. apply orb_true_iff.
  destruct (syscallPinned r) eqn:Hp.
  - right. apply bool_decide_eq_true, Hset. right. pose proof (Matches_syscall _ _ HM Hp) as Heq.
    simpl in Heq. exists (default "" (D_syscall d)). rewrite <-Hrs, <-Heq, Htrim.
    rewrite <-Heq, Htrim in Hns. split_and!; auto; [by rewrite Heq, Hrs|].
    rewrite Heq. unfold syscallPinned in Hp. bool_hyps. done.
  - left. apply Hall. right. exists (default "" (D_syscall d)). split; [done|]. rewrite <-Hrs.
    unfold syscallPinned in Hp. bool_hyps.
    destruct Hp as [Hp|Hp]; bool_hyps; [|by rewrite Hp]. by rewrite Hp in Hns.
Qed.

(** A policy without a syscall applies to every syscall for the matchers, but
    the ingest filter ignores it: its events without text are dropped before
    they reach the alerter. *)
Definition any_syscall_policy : PolicyDoc :=
  {| D_id := Some "all"; D_name := Some "everything in prod"; D_sev := Some "low"; D_enabled := Some true;
     D_alertOnly := Some true; D_detType := Some "Syscall"; D_syscall := None; D_category := None;
     D_processFilter := None; D_pathFilter := None; D_namespace := Some "prod"; D_podPattern := None;
     D_bad := false |}.

Definition empty_hub (ttl : Duration) (entries : nat) (drops : Z) (start : Time) (a : option Alerter) : Hub :=
  {| clients := ∅; memHistory := []; h_dedup := ∅; h_dedupTTL := ttl; h_dedupMaxEntries := entries;
     produced := []; cntReceived := 0; cntPassed := 0; cntDropped := 0; cntFiltered := 0; cntDedup := 0;
     cntSSEDrops := 0; cntSSEEvict := 0; cntBackfilled := 0; cntDedupFlush := 0;
     maxClientDrops := drops; startedAt := start; alerter := a |}.

Lemma empty_syscall_policy_filtered :
  let a := (refresh new_alerter (Some [any_syscall_policy]) (Some [any_syscall_policy]) 1%Z).1 in
  let h := empty_hub (5 * Minute)%Z 1000 256%Z 1%Z (Some a) in
  let ev := plain_event "prctl" "prod" "web-0" "" [("option", VNum (float_of_Z 15))] in
  any (@Matches ascii_tables small_float_text (matcher_event ev)) (rules a) = true
  ∧ produced (@Broadcast small_float_text h ev 2%Z) = [].
Proof. vm_compute. split; reflexivity. Qed.

Definition prctl_event : UIEvent := plain_event "prctl" "prod-1" "web-0" "" [].
Definition prctl_policy : PolicyDoc :=
  {| D_id := Some "p"; D_name := None; D_sev := None; D_enabled := Some true; D_alertOnly := None;
     D_detType := None; D_syscall := Some "prctl"; D_category := None; D_processFilter := None;
     D_pathFilter := None; D_namespace := None; D_podPattern := None; D_bad := false |}.

Definition prctl_alerter : Alerter := (refresh new_alerter (Some []) (Some [prctl_policy]) 1%Z).1.

Lemma wanted_complete_witness :
  wanted (empty_hub Minute 10 3%Z 1%Z (Some prctl_alerter)) prctl_event = true.
Proof.
  apply (@wanted_complete ascii_tables small_float_text _ new_alerter (Some []) [prctl_policy] 1%Z
           prctl_alerter prctl_policy (default (Build_Rule "" "" "" false false "" "" "" "" "" "" "") (decode_rule prctl_policy)));
    try reflexivity.
  - left.
  - vm_compute. discriminate.
Defined.

(** ** The mapper feeds the filter *)

Lemma Join_nonempty ps sep : Exists (λ p, p ≠ "") ps → Join ps sep ≠ "".
Proof.
  induction ps as [|p ps IH]; intros H; [by inversion H|].
  destruct ps as [|q ps].
  - apply Exists_cons in H as [H|H]; [done|by inversion H].
  - change (Join (p :: q :: ps) sep) with (p +:+ sep +:+ Join (q :: ps) sep).
    apply Exists_cons in H as [H|H]; [by destruct p|]. apply IH in H.
    destruct p; [|done]. destruct sep; [|done]. done.
Qed.

(** The arguments [Map] works on. *)
Definition mapped_args (t : TraceeEvent) : list TraceeArg :=
  if (length (T_Args t) =? 0)%nat && (0 <? length (T_Data t))%nat then T_Data t else T_Args t.

(** An event that carries any textual argument reaches the stream stage:
    the mapper gives it a command line, and the filter wants it whatever the
    policies are. *)
Theorem mapped_text_wanted st t st' ev h a s :
  Map st t = (st', Some ev) →
  a ∈ mapped_args t → A_Value a = VStr s → s ≠ "" → isNumeric s = false →
  E_Cmdline ev ≠ "" ∧ wanted h ev = true.
Proof.
  intros HM Ha Hs Hne Hnum.
  assert (Exists (λ p, p ≠ "") (text_args (mapped_args t))) as Hex.
  { apply Exists_exists. exists s. split; [|done]. apply list_elem_of_omap. exists a. split; [done|].
    rewrite Hs. destruct (String.eqb_spec s ""); [done|]. by rewrite Hnum. }
  assert (E_Cmdline ev ≠ "") as Hc.
  { unfold Map in HM. fold (mapped_args t) in HM. case_if; [done|].
    destruct (event_fields t (mapped_args t)); [|done]. injection HM as <- <-. simpl.
    unfold fallback_cmdline. destruct (String.eqb_spec (f_cmdline f) ""); [|done].
    by apply Join_nonempty. }
  split; [done|]. unfold wanted. case_if; [done|].
  destruct (String.eqb_spec (E_Cmdline ev) ""); [done|]. by rewrite orb_true_r.
Qed.

(** The mapper drops an event in two cases only, a system namespace
    (which it counts) or a [connect] whose first address argument is not an
    internet address; every other event becomes one with the next id, so ids
    never repeat. *)
Theorem Map_total st t :
  match Map st t with
  | (st', None) =>
      globalID st' = globalID st
      ∧ ((override (T_PodNamespace t) (TK_PodNamespace <$> T_Kubernetes t) ∈ systemNamespaces
          ∧ DroppedSysNs st' = DroppedSysNs st + 1)%Z
         ∨ (T_EventName t = "connect" ∧ st' = st
            ∧ ∃ pre a post addr, mapped_args t = pre ++ a :: post ∧ A_Name a = "addr"
              ∧ A_Value a = VMap addr
              ∧ as_string (vlookup addr "sa_family") ∉ ["AF_INET"; "AF_INET6"]))
  | (st', Some ev) =>
      E_ID ev = (globalID st + 1)%Z ∧ globalID st' = E_ID ev
      ∧ DroppedSysNs st' = DroppedSysNs st
      ∧ E_Syscall ev = T_EventName t ∧ E_EventKind ev = KindFor (T_EventName t)
      ∧ E_Namespace ev ∉ systemNamespaces
  end.
Proof.
  assert (∀ args c, connect_cmdline args c = None →
    ∃ pre a post addr, args = pre ++ a :: post ∧ A_Name a = "addr" ∧ A_Value a = VMap addr
      ∧ as_string (vlookup addr "sa_family") ∉ ["AF_INET"; "AF_INET6"]) as Hconn.
  { induction args as [|a args IH]; intros c Hc; simpl in Hc; [done|].
    destruct (String.eqb_spec (A_Name a) "addr") as [Hn|Hn]; simpl in Hc.
    - destruct (A_Value a) as [| | | | |addr] eqn:Hv; try done.
      case_if.
      + exists [], a, args, addr. split_and!; auto. set_solver.
      + destruct (IH _ Hc) as (pre & b & post & ad & -> & ?). by exists (a :: pre), b, post, ad.
    - destruct (IH _ Hc) as (pre & b & post & ad & -> & ?). by exists (a :: pre), b, post, ad. }
  unfold Map. fold (mapped_args t).
  set (ns := override (T_PodNamespace t) _).
  assert (any (String.eqb ns) systemNamespaces = true ↔ ns ∈ systemNamespaces) as Hsys.
  { rewrite any_true. split; [intros (x & Hx & He); bool_hyps; by subst|].
    intros Hx. exists ns. by rewrite String.eqb_refl. }
  destruct ((ns != "") && any (String.eqb ns) systemNamespaces) eqn:Hns.
  { simpl. split; [done|]. left. bool_hyps. split; [by apply Hsys|done]. }
  destruct (event_fields t (mapped_args t)) as [f|] eqn:Hf; simpl.
  - split_and!; auto. intros Hin. apply Hsys in Hin. rewrite Hin, andb_true_r in Hns. bool_hyps.
    rewrite Hns in Hin. done.
  - split; [done|]. right. unfold event_fields in Hf. do 3 (case_if; [done|]).
    case_if; [|repeat (case_if; [done|]); done].
    destruct (connect_cmdline (mapped_args t) "") eqn:Hc; [done|]. eauto.
Qed.

Definition tracee_open : TraceeEvent :=
  {| T_Timestamp := 5; T_ProcessID := 1; T_HostProcessID := 77; T_HostParentProcessID := 1;
     T_HostThreadID := 77; T_UserID := 0; T_ProcessName := "cat"; T_HostName := "n1";
     T_ContainerID := "c1"; T_ContainerImage := "img"; T_ContainerName := "app"; T_Container := None;
     T_PodName := "web-0"; T_PodNamespace := "prod"; T_PodUID := "u"; T_Kubernetes := None;
     T_EventName := "unlink"; T_ReturnValue := 0;
     T_Args := [{| A_Name := "pathname"; A_Type := "string"; A_Value := VStr "/etc/shadow" |}];
     T_Data := [] |}.

Lemma mapped_text_wanted_witness :
  exists st' ev, Map {| DroppedSysNs := 0; globalID := 9 |} tracee_open = (st', Some ev)
  ∧ wanted (empty_hub Minute 10 3%Z 1%Z None) ev = true.
Proof.
  eexists _, _. split; [reflexivity|].
  eapply (proj2 (mapped_text_wanted {| DroppedSysNs := 0; globalID := 9 |} tracee_open _ _ _
                   {| A_Name := "pathname"; A_Type := "string"; A_Value := VStr "/etc/shadow" |}
                   "/etc/shadow" eq_refl _ eq_refl _ _)).
  Unshelve. all: [> left | discriminate | reflexivity].
Defined.

(** ** Runs of the hub *)

Section runs.
Context {T : CaseTables} {F : FloatText} {O : MapOrder}.
Variables (ttl : Duration) (entries : nat) (drops : Z) (start : Time) (al : option Alerter).

(** The event went to the producer. *)
Definition passes (h : Hub) (ev : UIEvent) (now : Time) : bool :=
  wanted h ev && negb (shouldDedup h ev && (markSeen h (dedupKey ev) now).2).

(** A state the hub reaches, with the events that passed (and when) and the
    records the stream consumer has fetched. *)
Inductive reach : Hub → list (UIEvent * Time) → list Message → Prop :=
| reach_start : reach (empty_hub ttl entries drops start al) [] []
| reach_broadcast h log recs ev now :
    reach h log recs →
    reach (Broadcast h ev now) (if passes h ev now then snoc log (ev, now) else log) recs
| reach_failed h log recs : reach h log recs → reach (produce_failed h) log recs
| reach_tick h log recs now : reach h log recs → reach (dedup_tick h now) log recs
| reach_stream h log recs r clock :
    reach h log recs → reach (fan_out h r clock) log (snoc recs r)
| reach_refresh h log recs first second now :
    reach h log recs →
    reach (with_stream h (memHistory h) 0
             ((λ a, (refresh a first second now).1) <$> alerter h)) log recs
| reach_join h log recs id : reach h log recs → clients h !! id = None → reach (join h id) log recs
| reach_leave h log recs id : reach h log recs → reach (leave h id) log recs
| reach_receive h log recs id : reach h log recs → reach (receive h id).1 log recs.

Definition client_ok (c : client) : Prop :=
  (length (c_ch c) ≤ chanBuf)%nat ∧ (0 ≤ c_drops c < Z.max 1 drops)%Z ∧ c_closed c = false.

Record hub_inv (h : Hub) (log : list (UIEvent * Time)) (recs : list Message) : Prop := {
  inv_config : h_dedupTTL h = ttl ∧ h_dedupMaxEntries h = entries ∧ maxClientDrops h = drops;
  inv_counts : (cntReceived h = cntPassed h + cntFiltered h + cntDedup h)%Z;
  inv_produced : produced h = map (λ p, (record_key p.1, p.1)) log;
  inv_passed : cntPassed h = Z.of_nat (length log);
  inv_dedup : ∀ k t, h_dedup h !! k = Some t → ∃ ev, (ev, t) ∈ log ∧ dedupKey ev = k;
  inv_size : (size (h_dedup h) ≤ entries)%nat;
  inv_history : memHistory h = drop (length recs - streamMaxMem) recs;
  inv_clients : map_Forall (λ _, client_ok) (clients h);
}.

(** Operations on one part of the hub leave the invariant of the others. *)
Lemma inv_dedup_update h log recs d n :
  hub_inv h log recs →
  (∀ k t, d !! k = Some t → ∃ ev, (ev, t) ∈ log ∧ dedupKey ev = k) → (size d ≤ entries)%nat →
  hub_inv (with_dedup h d n) log recs.
Proof. intros [] ? ?. by constructor. Qed.

Lemma live_entries_lookup h now k t : live_entries h now !! k = Some t → h_dedup h !! k = Some t.
Proof. unfold live_entries. intros H. by apply map_lookup_filter_Some in H as [??]. Qed.

Lemma live_entries_size h now : (size (live_entries h now) ≤ size (h_dedup h))%nat.
Proof. apply map_subseteq_size, map_filter_subseteq. Qed.

Lemma sweep_spec h now : ∃ d n,
  sweepDedupLocked h now = with_dedup h d n ∧ (size d ≤ h_dedupMaxEntries h)%nat
  ∧ ∀ k t, d !! k = Some t → h_dedup h !! k = Some t.
Proof.
  unfold sweepDedupLocked. case_if; eexists _, _; (split; [done|]).
  - split; [rewrite map_size_empty; lia|]. intros k t Hk. by rewrite lookup_empty in Hk.
  - split; [lia|]. apply live_entries_lookup.
Qed.

Lemma with_dedup_twice h d1 n1 d2 n2 : with_dedup (with_dedup h d1 n1) d2 n2 = with_dedup h d2 (n1 + n2)%Z.
Proof. unfold with_dedup. simpl. f_equal. lia. Qed.

(** [markSeen] reports a repeat for a live entry only, and else records the
    key and keeps the table within its size. *)
Lemma markSeen_spec h key now :
  match markSeen h key now with
  | (h', true) => h' = h ∧ ∃ last, h_dedup h !! key = Some last ∧ (TSub now last < h_dedupTTL h)%Z
  | (h', false) => ∃ d n, h' = with_dedup h d n ∧ (size d ≤ h_dedupMaxEntries h)%nat
      ∧ ∀ k t, d !! k = Some t → (k = key ∧ t = now) ∨ h_dedup h !! k = Some t
  end.
Proof.
  unfold markSeen. set (d0 := <[key:=now]> (h_dedup h)).
  assert (∀ k t, d0 !! k = Some t → (k = key ∧ t = now) ∨ h_dedup h !! k = Some t) as Hd0.
  { intros k t Hk. unfold d0 in Hk. apply lookup_insert_Some in Hk as [[<- <-]|[_ ?]]; auto. }
  assert (∃ d n, (if (h_dedupMaxEntries h <? size d0)%nat
                  then sweepDedupLocked (with_dedup h d0 0) now else with_dedup h d0 0) = with_dedup h d n
    ∧ (size d ≤ h_dedupMaxEntries h)%nat
    ∧ ∀ k t, d !! k = Some t → (k = key ∧ t = now) ∨ h_dedup h !! k = Some t) as Hfresh.
  { case_if.
    - destruct (sweep_spec (with_dedup h d0 0) now) as (d & n & -> & Hs & Hl).
      rewrite with_dedup_twice. eauto 10.
    - eauto 10. }
  destruct (h_dedup h !! key) as [last|] eqn:Hk; [|done]. case_if; [eauto|done].
Qed.

Lemma sendToClient_inv h log recs m id :
  hub_inv h log recs → hub_inv (sendToClient m h id) log recs.
Proof.
  intros Hinv. unfold sendToClient. destruct (clients h !! id) as [c|] eqn:Hc; [|done].
  assert (client_ok c) as (Hl & Hd & Hcl).
  { destruct Hinv as [_ _ _ _ _ _ _ Hcs]. exact (Hcs id c Hc). }
  rewrite Hcl. destruct Hinv as [(?&?&Hdr) ? ? ? ? ? ? Hcs].
  repeat case_if; constructor; simpl; auto.
  - apply map_Forall_insert_2; [|done]. unfold snoc. split_and!; simpl; auto; try lia.
    rewrite length_app. simpl. lia.
  - by apply map_Forall_delete.
  - apply map_Forall_insert_2; [|done]. by split_and!; simpl; auto; try lia.
Qed.

Lemma append_history_spec recs r :
  append_history (drop (length recs - streamMaxMem) recs) r
  = drop (length (snoc recs r) - streamMaxMem) (snoc recs r).
Proof.
  unfold append_history, snoc. rewrite !length_app, length_drop. simpl.
  assert (0 < streamMaxMem)%nat as Hpos by (unfold streamMaxMem; lia).
  generalize dependent streamMaxMem. intros mx Hpos. case_if.
  - rewrite !drop_app, drop_drop. f_equal; [f_equal; lia|].
    rewrite length_drop. f_equal. lia.
  - rewrite drop_app. f_equal; [f_equal; lia|].
    replace (length recs + 1 - mx - length recs)%nat with 0%nat by lia. done.
Qed.

Lemma markSeen_seen h key now :
  (markSeen h key now).2 =
  match h_dedup h !! key with Some last => (TSub now last <? h_dedupTTL h)%Z | None => false end.
Proof. unfold markSeen. destruct (h_dedup h !! key); [|done]. by case_if. Qed.

Lemma produce_inv h h' log recs ev now d n :
  hub_inv h log recs → h' = with_dedup (with_counts h 1 0 0 0 0) d n → (size d ≤ entries)%nat →
  (∀ k t, d !! k = Some t → (k = dedupKey ev ∧ t = now) ∨ h_dedup h !! k = Some t) →
  hub_inv (produce h' ev) (snoc log (ev, now)) recs.
Proof.
  intros [] -> Hs Hd. unfold snoc. constructor; simpl; auto; try lia.
  - unfold snoc. rewrite map_app, inv_produced0. done.
  - rewrite length_app. simpl. lia.
  - intros k t Hk. apply Hd in Hk as [[-> ->]|Hk].
    + exists ev. split; [|done]. apply elem_of_app. right. by left.
    + destruct (inv_dedup0 k t Hk) as (e & ? & ?). exists e. split; [|done]. apply elem_of_app. by left.
Qed.

Lemma broadcast_inv h log recs ev now :
  hub_inv h log recs →
  hub_inv (Broadcast h ev now) (if passes h ev now then snoc log (ev, now) else log) recs.
Proof.
  intros Hinv. unfold passes, Broadcast. set (h1 := with_counts h 1 0 0 0 0).
  change (wanted h1 ev) with (wanted h ev). change (shouldDedup h1 ev) with (shouldDedup h ev).
  destruct (wanted h ev); simpl.
  2: { destruct Hinv. constructor; simpl; auto; lia. }
  assert (size (h_dedup h) ≤ entries)%nat by by destruct Hinv.
  assert (h_dedupMaxEntries h = entries) as Hmx by (destruct Hinv; tauto).
  assert (∀ n, with_dedup h1 (h_dedup h) n = with_dedup h1 (h_dedup h1) n) by done.
  destruct (shouldDedup h ev); simpl.
  2: { eapply produce_inv with (d := h_dedup h) (n := 0%Z); eauto.
       unfold h1, with_dedup, with_counts. simpl. f_equal. lia. }
  pose proof (markSeen_seen h1 (dedupKey ev) now) as Hsn. rewrite markSeen_seen.
  change (h_dedup h1) with (h_dedup h) in Hsn. change (h_dedupTTL h1) with (h_dedupTTL h) in Hsn.
  rewrite <-Hsn. pose proof (markSeen_spec h1 (dedupKey ev) now) as Hms.
  destruct (markSeen h1 (dedupKey ev) now) as [h' []]; simpl.
  - destruct Hms as [-> _]. destruct Hinv. constructor; simpl; auto; lia.
  - destruct Hms as (d & n & Hh' & Hs & Hd). eapply produce_inv; eauto. by rewrite <-Hmx.
Qed.

Lemma hub_reach_inv h log recs : reach h log recs → hub_inv h log recs.
Proof.
  induction 1 as [|h log recs ev now _ IH|h log recs _ IH|h log recs now _ IH|h log recs r clock _ IH
    |h log recs first second now _ IH|h log recs id _ IH Hid|h log recs id _ IH|h log recs id _ IH].
  - constructor; simpl; auto; try (rewrite map_size_empty; lia).
    + intros k t Hk. by rewrite lookup_empty in Hk.
    + apply map_Forall_empty.
  - by apply broadcast_inv.
  - destruct IH. by constructor; simpl; auto; lia.
  - apply inv_dedup_update; [done| |].
    + intros k t Hk. apply live_entries_lookup in Hk. by destruct IH; eauto.
    + etrans; [apply live_entries_size|]. by destruct IH.
  - unfold fan_out.
    match goal with |- hub_inv (foldl _ ?h0 ?l) _ _ => assert (hub_inv h0 log (snoc recs r)) as H0;
      [|generalize l; intros l0; revert H0; generalize h0; induction l0 as [|x l0 IHl]; simpl; auto;
        intros h1 H1; apply IHl, sendToClient_inv, H1] end.
    destruct IH as [? ? ? ? ? ? Hh ?]. constructor; simpl; auto. rewrite Hh. apply append_history_spec.
  - destruct IH. by constructor.
  - destruct IH. constructor; simpl; auto. apply map_Forall_insert_2; [|done].
    split_and!; simpl; unfold chanBuf; lia || done.
  - destruct IH. constructor; simpl; auto. by apply map_Forall_delete.
  - unfold receive. destruct (clients h !! id) as [c|] eqn:Hc; [|done].
    destruct (c_ch c) as [|m rest] eqn:Hch; [done|]. destruct IH as [? ? ? ? ? ? ? Hcs].
    constructor; simpl; auto. apply map_Forall_insert_2; [|done].
    destruct (Hcs id c Hc) as (Hl & ? & ?). rewrite Hch in Hl. simpl in Hl. split_and!; simpl; auto; lia.
Qed.

(** On every run, a wanted event is held back only as a repeat: its pod
    is known, its syscall is not exempt, and an event with the same key went
    through less than the dedup interval before. *)
Theorem dedup_only_repeats h log recs ev now :
  reach h log recs → wanted h ev = true → passes h ev now = false →
  E_Pod ev ≠ "" ∧ E_Syscall ev ∉ neverDedup
  ∧ ∃ ev' t, (ev', t) ∈ log ∧ dedupKey ev' = dedupKey ev ∧ (TSub now t < ttl)%Z.
Proof.
  intros Hr Hw Hp. apply hub_reach_inv in Hr as [(<-&_&_) _ _ _ Hd _ _ _].
  unfold passes in Hp. rewrite Hw in Hp. simpl in Hp. bool_hyps.
  unfold shouldDedup in *. bool_hyps. split; [done|]. split.
  - intros Hin. assert (any (String.eqb (E_Syscall ev)) neverDedup = true) as Ht; [|congruence].
    apply any_true. exists (E_Syscall ev). by rewrite String.eqb_refl.
  - rewrite markSeen_seen in *. destruct (h_dedup h !! dedupKey ev) as [t|] eqn:Hk; [|done].
    bool_hyps. destruct (Hd _ _ Hk) as (ev' & ? & ?). eauto.
Qed.

(** On every run the hub's memory is bounded and its books balance: the
    dedup table holds at most its configured entries, the history is exactly
    the last 50,000 records in order, a client's queue holds at most 64
    messages and its drop count stays below the eviction limit; every received
    event was passed, filtered or deduplicated, and the produced records are
    the passed events in order. *)
Theorem hub_bounded h log recs :
  reach h log recs →
  (size (h_dedup h) ≤ entries)%nat
  ∧ memHistory h = drop (length recs - streamMaxMem) recs ∧ (length (memHistory h) ≤ streamMaxMem)%nat
  ∧ map_Forall (λ _ c, (length (c_ch c) ≤ chanBuf)%nat ∧ (0 ≤ c_drops c < Z.max 1 drops)%Z) (clients h)
  ∧ (cntReceived h = cntPassed h + cntFiltered h + cntDedup h)%Z
  ∧ map snd (produced h) = map fst log.
Proof.
  intros Hr. apply hub_reach_inv in Hr as [_ Hc Hp _ _ Hs Hh Hcl]. split_and!; auto.
  - rewrite Hh, length_drop. lia.
  - intros id c Hid. destruct (Hcl id c Hid) as (?&?&?). auto.
  - rewrite Hp, map_map. done.
Qed.
End runs.

Definition one_event_run : Hub * list (UIEvent * Time) :=
  (@Broadcast small_float_text (empty_hub Minute 10 3%Z 1%Z None) shadow_read 5%Z, [(shadow_read, 5%Z)]).

Lemma reach_one_event :
  @reach ascii_tables small_float_text keep_order Minute 10 3%Z 1%Z None one_event_run.1 one_event_run.2 [].
Proof.
  exact (reach_broadcast Minute 10 3%Z 1%Z None _ [] [] shadow_read 5%Z
           (reach_start Minute 10 3%Z 1%Z None)).
Defined.

Lemma dedup_only_repeats_witness :
  ∃ ev' t, (ev', t) ∈ one_event_run.2 ∧ @dedupKey small_float_text ev' = @dedupKey small_float_text shadow_read
           ∧ (TSub 9 t < Minute)%Z.
Proof.
  refine (proj2 (proj2 (@dedup_only_repeats ascii_tables small_float_text keep_order Minute 10 3%Z 1%Z None
            one_event_run.1 one_event_run.2 [] shadow_read 9%Z reach_one_event _ _)));
    vm_compute; reflexivity.
Defined.

Lemma hub_bounded_witness : (size (h_dedup one_event_run.1) ≤ 10)%nat.
Proof.
  exact (proj1 (@hub_bounded ascii_tables small_float_text keep_order Minute 10 3%Z 1%Z None
            one_event_run.1 one_event_run.2 [] reach_one_event)).
Defined.

Definition in_namespace (ev : UIEvent) (ns : string) : UIEvent :=
  {| E_ID := E_ID ev; E_Ts := E_Ts ev; E_Syscall := E_Syscall ev; E_EventKind := E_EventKind ev;
     E_Namespace := ns; E_Pod := E_Pod ev; E_PodUID := E_PodUID ev; E_PodIP := E_PodIP ev;
     E_Node := E_Node ev; E_Container := E_Container ev; E_ContainerID := E_ContainerID ev;
     E_Image := E_Image ev; E_PID := E_PID ev; E_UID := E_UID ev; E_Process := E_Process ev;
     E_Execpath := E_Execpath ev; E_Cmdline := E_Cmdline ev; E_Args := E_Args ev;
     E_Severity := E_Severity ev; E_Category := E_Category ev |}.

(** The hub's dedup does not see namespaces: whether an event passes does
    not depend on its namespace, so the activity of a pod in one namespace
    holds back the same activity of a pod of that name in another. *)
Theorem dedup_ignores_namespace :
  (∀ (F : FloatText) h ev ns now, passes h (in_namespace ev ns) now = passes h ev now)
  ∧ (let h := @Broadcast small_float_text (empty_hub (5 * Minute)%Z 1000 256%Z 1%Z None) shadow_read 2%Z in
     let other := in_namespace shadow_read "staging" in
     produced h = [("prod-1/web-0", shadow_read)] ∧ wanted h other = true
     ∧ produced (@Broadcast small_float_text h other 3%Z) = produced h).
Proof. split; [reflexivity|]. vm_compute. split_and!; reflexivity. Qed.

(** ** Alerts are sent once per interval *)

Section evaluate.
Context {T : CaseTables} {F : FloatText}.

Lemma app_inj_r_s (a b c : string) : a +:+ c = b +:+ c → a = b.
Proof.
  intros H. apply (f_equal srev) in H. rewrite !srev_app_distr in H. apply app_inj_l in H.
  apply (f_equal srev) in H. by rewrite !srev_involutive in H.
Qed.

Lemma fingerprint_inj r r' ev : fingerprint r ev = fingerprint r' ev → ID r = ID r'.
Proof.
  unfold fingerprint. simpl. intros H. injection H as H.
  match type of H with ID r +:+ ?x = _ => apply (app_inj_r_s _ _ x) in H end. done.
Qed.

(** A fingerprint recorded less than the interval ago. *)
Definition muted (d : gmap string Time) (fp : string) (now : Time) : bool :=
  match d !! fp with Some last => (TSub now last <? dedupTTL)%Z | None => false end.

Lemma markFresh_spec a fp now :
  markFresh a fp now =
  if muted (dedup a) fp now then (a, false)
  else ({| rules := rules a; policySyscalls := policySyscalls a; policyPassAll := policyPassAll a;
           lastRefreshOK := lastRefreshOK a; dedup := <[fp := now]> (dedup a); sent := sent a |}, true).
Proof. unfold markFresh, muted. destruct (dedup a !! fp); [|done]. by case_if. Qed.

Definition alerting (d : gmap string Time) (ev : UIEvent) (rn : Rule * Time) : bool :=
  Matches (matcher_event ev) rn.1 && negb (muted d (fingerprint rn.1 ev) rn.2).

Lemma evaluate_rules_sent ev d l : ∀ a,
  NoDup (map (λ rn, ID rn.1) l) →
  (∀ rn, rn ∈ l → dedup a !! fingerprint rn.1 ev = d !! fingerprint rn.1 ev) →
  sent (foldl (evaluate_rule ev) a l)
  = sent a ++ map (λ rn, alert_log rn.1 ev) (List.filter (alerting d ev) l).
Proof.
  induction l as [|[r now] l IH]; intros a Hnd Hd; simpl; [by rewrite app_nil_r|].
  apply NoDup_cons in Hnd as [Hr Hnd].
  assert (muted (dedup a) (fingerprint r ev) now = muted d (fingerprint r ev) now) as Hm.
  { unfold muted. pose proof (Hd (r, now) ltac:(left)) as He. simpl in He. by rewrite He. }
  unfold evaluate_rule at 2, alerting at 1. simpl. rewrite markFresh_spec, Hm.
  destruct (Matches (matcher_event ev) r); simpl; [|apply IH; auto; intros; apply Hd; by right].
  destruct (muted d (fingerprint r ev) now); simpl; [apply IH; auto; intros; apply Hd; by right|].
  rewrite IH; auto; simpl.
  - unfold snoc. by rewrite <-app_assoc.
  - intros rn Hin. rewrite lookup_insert_ne; [apply Hd; by right|].
    intros Heq. apply fingerprint_inj in Heq. apply Hr. apply list_elem_of_fmap. by exists rn.
Qed.

(** Evaluating an event sends one alert for each rule of the snapshot
    that matches it and has not alerted for the same namespace, pod and syscall
    in the last ten minutes, in rule order, and nothing else. *)
Theorem Evaluate_exact a ev clock :
  NoDup (map ID (rules a)) →
  sent (Evaluate a (Some ev) clock)
  = sent a ++ map (λ rn, alert_log rn.1 ev)
      (List.filter (λ rn, Matches (matcher_event ev) rn.1
                          && negb (muted (dedup a) (fingerprint rn.1 ev) rn.2))
         (zip (rules a) (map clock (seq 0 (length (rules a)))))).
Proof.
  intros Hnd. unfold Evaluate. apply evaluate_rules_sent; [|done].
  replace (map (λ rn, ID rn.1) (zip (rules a) (map clock (seq 0 (length (rules a))))))
    with (map ID (rules a)); [done|].
  rewrite <-(map_map fst ID). f_equal. symmetry. apply fst_zip. rewrite length_fmap, length_seq. lia.
Qed.
End evaluate.

Definition shadow_alerter : Alerter := (refresh new_alerter (Some [openat_policy]) (Some []) 1%Z).1.

Lemma Evaluate_exact_witness :
  length (sent (@Evaluate ascii_tables small_float_text shadow_alerter (Some shadow_read) (λ _, 7%Z))) = 1%nat.
Proof.
  rewrite (@Evaluate_exact ascii_tables small_float_text shadow_alerter shadow_read (λ _, 7%Z));
    [vm_compute; reflexivity|].
  apply (bool_decide_eq_true_1 _). vm_compute. reflexivity.
Defined.
