(* ===== verification/Spool.v ===== *)
(** * pkg/alerts/spool.go: the durable spool

    Records are appended to numbered files of a directory, merged into
    compressed segments when they pile up, delivered in order and removed;
    records the receiver rejects for good move to the [dead] directory.

    An operation is a function of the process memory ([DiskSpool]), the disk
    and the outcomes of its I/O calls, and yields the actions it performs on
    the outside world in order, the new memory and its result. Running a prefix
    of the actions is a crash in the middle of the operation. File names are
    the pair of their sequence number and their kind: [%020d.json] and
    [%020d.json.gz], which sort in that order. A completed action survives a
    crash (files are synced before they are renamed). *)

From Stdlib Require Import Ascii.
From stdpp Require Import base list gmap strings sorting.
From S2P Require Import Prelude GoStrings.
Local Open Scope Z_scope.
Local Open Scope list_scope.

Definition spoolBlock : Z := 4096.
Definition segmentMaxRecords : Z := 4000.
Definition segmentMaxBytes : Z := 8 * 2 ^ 20.
Definition compactMinFiles : nat := 16.
Definition compactEagerFiles : nat := 256.
Definition jobsCap : nat := 256.

Definition blocks (n : Z) : Z := (n + spoolBlock - 1) / spoolBlock * spoolBlock.

(** A record is a JSON value, written by its compact text. *)
Definition Raw := string.

(** The length of a JSON array of records, and of its gzip form. *)
Class Codec := {
  json_len : list Raw → Z;
  gzip_len : list Raw → Z;
  json_len_pos : ∀ rs, 0 < json_len rs;
  gzip_len_pos : ∀ rs, 0 < gzip_len rs;
}.

(** ** The disk *)

Record Name := { n_seq : Z; n_gz : bool }.

#[export] Instance Name_eq_dec : EqDecision Name.
Proof. solve_decision. Defined.
#[export] Instance Name_countable : Countable Name.
Proof.
  refine (inj_countable' (λ n, (n_seq n, n_gz n)) (λ p, {| n_seq := p.1; n_gz := p.2 |}) _).
  by intros [].
Defined.

(** The order of the file names as strings. *)
Definition name_le (a b : Name) : Prop :=
  n_seq a < n_seq b ∨ (n_seq a = n_seq b ∧ (n_gz a = true → n_gz b = true)).
#[export] Instance name_le_dec : RelDecision name_le.
Proof. intros a b. unfold name_le. apply _. Defined.

(** [f_data] is [None] when the file does not read back as an array. *)
Record File := { f_data : option (list Raw); f_plain : Z; f_size : Z }.

Inductive Dir := Main | Dead.

Record Disk := { d_main : gmap Name File; d_dead : gmap Name File;
                 d_tmp : gset Name; d_deadtmp : gset Name }.

(** The receiver's record of deliveries it accepted is outside the process
    too, as is, for the statements, the list of rejected records that
    [quarantineRecords] found already quarantined by name. *)
Record Outside := { o_disk : Disk; o_delivered : list Raw; o_skipped : list Raw }.

Inductive action :=
| ACreateTmp (d : Dir) (n : Name)
| ARename (d : Dir) (n : Name) (f : File)
| ARemoveTmp (d : Dir) (n : Name)
| ARemove (n : Name)
| AMoveDead (n : Name)
| ADeliver (rs : list Raw)
| ASkip (rs : list Raw).

Definition tmps (k : Disk) (d : Dir) : gset Name :=
  match d with Main => d_tmp k | Dead => d_deadtmp k end.

Definition set_tmps (k : Disk) (d : Dir) (s : gset Name) : Disk :=
  match d with
  | Main => {| d_main := d_main k; d_dead := d_dead k; d_tmp := s; d_deadtmp := d_deadtmp k |}
  | Dead => {| d_main := d_main k; d_dead := d_dead k; d_tmp := d_tmp k; d_deadtmp := s |}
  end.

Definition put (k : Disk) (d : Dir) (n : Name) (f : File) : Disk :=
  match d with
  | Main => {| d_main := <[n := f]> (d_main k); d_dead := d_dead k;
               d_tmp := d_tmp k ∖ {[n]}; d_deadtmp := d_deadtmp k |}
  | Dead => {| d_main := d_main k; d_dead := <[n := f]> (d_dead k);
               d_tmp := d_tmp k; d_deadtmp := d_deadtmp k ∖ {[n]} |}
  end.

Definition on_disk (a : action) (k : Disk) : Disk :=
  match a with
  | ACreateTmp d n => set_tmps k d ({[n]} ∪ tmps k d)
  | ARename d n f => put k d n f
  | ARemoveTmp d n => set_tmps k d (tmps k d ∖ {[n]})
  | ARemove n => {| d_main := delete n (d_main k); d_dead := d_dead k;
                    d_tmp := d_tmp k; d_deadtmp := d_deadtmp k |}
  | AMoveDead n =>
      match d_main k !! n with
      | Some f => {| d_main := delete n (d_main k); d_dead := <[n := f]> (d_dead k);
                     d_tmp := d_tmp k; d_deadtmp := d_deadtmp k |}
      | None => k
      end
  | ADeliver _ | ASkip _ => k
  end.

Definition act (o : Outside) (a : action) : Outside :=
  {| o_disk := on_disk a (o_disk o);
     o_delivered := match a with ADeliver rs => o_delivered o ++ rs | _ => o_delivered o end;
     o_skipped := match a with ASkip rs => o_skipped o ++ rs | _ => o_skipped o end |}.

Definition run (o : Outside) (l : list action) : Outside := foldl act o l.

(** ** The process *)

Record spoolFile := { name : Name; size : Z }.

Record DiskSpool := {
  limit : Z;
  files : list spoolFile;
  bytes : Z;
  deadFiles : Z;
  deadBytes : Z;
  quarantined : Z;
  sequence : Z;
  lastError : string;
  rejected : Z;
  late : Z;
  compacted : Z;
}.

Definition set_files (q : DiskSpool) (fs : list spoolFile) (b : Z) (c : Z) : DiskSpool :=
  {| limit := limit q; files := fs; bytes := b; deadFiles := deadFiles q; deadBytes := deadBytes q;
     quarantined := quarantined q; sequence := sequence q; lastError := lastError q;
     rejected := rejected q; late := late q; compacted := c |}.

Definition set_sequence (q : DiskSpool) (s : Z) : DiskSpool :=
  {| limit := limit q; files := files q; bytes := bytes q; deadFiles := deadFiles q;
     deadBytes := deadBytes q; quarantined := quarantined q; sequence := s;
     lastError := lastError q; rejected := rejected q; late := late q; compacted := compacted q |}.

Definition set_error (q : DiskSpool) (e : string) : DiskSpool :=
  {| limit := limit q; files := files q; bytes := bytes q; deadFiles := deadFiles q;
     deadBytes := deadBytes q; quarantined := quarantined q; sequence := sequence q;
     lastError := e; rejected := rejected q; late := late q; compacted := compacted q |}.

Definition add_dead (q : DiskSpool) (b n : Z) : DiskSpool :=
  {| limit := limit q; files := files q; bytes := bytes q; deadFiles := deadFiles q + 1;
     deadBytes := deadBytes q + b; quarantined := quarantined q + n; sequence := sequence q;
     lastError := lastError q; rejected := rejected q; late := late q; compacted := compacted q |}.

(** [q.reject(err, records)]. *)
Definition reject (q : DiskSpool) (e : string) (records : Z) : DiskSpool :=
  {| limit := limit q; files := files q; bytes := bytes q; deadFiles := deadFiles q;
     deadBytes := deadBytes q; quarantined := quarantined q; sequence := sequence q;
     lastError := e; rejected := rejected q + records; late := late q; compacted := compacted q |}.

Definition errSpoolFull : string := "audit spool capacity exhausted".

(** The outcomes of the calls of [writeSynced]: opening the temporary file,
    writing, syncing and closing it, renaming it, and removing it again. *)
Record WriteIO := { open_ok : bool; write_ok : bool; rename_ok : bool; remove_ok : bool }.

Definition writeSynced (k : Disk) (d : Dir) (n : Name) (f : File) (io : WriteIO) : list action * bool :=
  if bool_decide (n ∈ tmps k d) || negb (open_ok io) then ([], false)
  else if write_ok io && rename_ok io then ([ACreateTmp d n; ARename d n f], true)
  else (ACreateTmp d n :: (if remove_ok io then [ARemoveTmp d n] else []), false).

(** [dropHead]: forget the first file if it has the name. *)
Definition dropHead (q : DiskSpool) (n : Name) : DiskSpool * Z :=
  match files q with
  | f :: fs => if bool_decide (name f = n)
               then (set_files q fs (bytes q - size f) (compacted q), size f)
               else (q, 0)
  | [] => (q, 0)
  end.

Definition forget (q : DiskSpool) (n : Name) (sync_ok : bool) : DiskSpool :=
  set_error (dropHead q n).1 (if sync_ok then "" else "sync failed")%string.

Definition head (q : DiskSpool) : option Name := name <$> List.hd_error (files q).

Definition pending (q : DiskSpool) : nat := length (files q).

Section spool.
Context {C : Codec}.

Definition plain_file (rs : list Raw) : File :=
  {| f_data := Some rs; f_plain := json_len rs; f_size := json_len rs |}.
Definition segment_file (rs : list Raw) : File :=
  {| f_data := Some rs; f_plain := json_len rs; f_size := gzip_len rs |}.

(** ** Writing *)

Record PersistIO := { p_write : WriteIO; p_sync : bool }.

Definition persist (k : Disk) (q : DiskSpool) (raws : list Raw) (io : PersistIO)
  : list action * DiskSpool * result unit :=
  let sz := blocks (json_len raws) in
  if limit q <? bytes q + deadBytes q + sz then ([], q, Err errSpoolFull)
  else
    let q := set_sequence q (sequence q + 1) in
    let n := {| n_seq := sequence q; n_gz := false |} in
    let '(acts, ok) := writeSynced k Main n (plain_file raws) (p_write io) in
    if negb ok then (acts, q, Err "write failed")
    else
      let q := set_files q (snoc (files q) {| name := n; size := sz |}) (bytes q + sz) (compacted q) in
      (acts, if p_sync io then q else set_error q "sync spool directory: failed", Ok tt).

(** One batch of [writeLoop]: the jobs waiting, up to 64 of them or until
    their size reaches 512 KiB. *)
Fixpoint more_jobs (n : nat) (sz : Z) (jobs : list Raw) : list Raw * list Raw :=
  match jobs with
  | j :: jobs' =>
      if (n <? 64)%nat && (sz <? 512 * 2 ^ 10) then
        let '(taken, rest) := more_jobs (S n) (sz + Z.of_nat (String.length j)) jobs' in
        (j :: taken, rest)
      else ([], jobs)
  | [] => ([], [])
  end.

Definition write_batch (k : Disk) (q : DiskSpool) (raws : list Raw) (io : PersistIO)
  : list action * DiskSpool * result unit :=
  let '(acts, q', r) := persist k q raws io in
  match r with
  | Ok _ => (acts, q', r)
  | Err e => (acts, reject q' e (Z.of_nat (length raws)), r)
  end.

(** Admission of a record into the job channel by [Enqueue]. *)
Definition Enqueue (valid : Raw → bool) (q : DiskSpool) (closed : bool) (jobs : list Raw) (raw : Raw)
  : DiskSpool * list Raw * result unit :=
  if negb (valid raw) || (2 ^ 20 <? Z.of_nat (String.length raw)) then
    (q, jobs, Err "invalid or oversized spool record")
  else if closed then (q, jobs, Err "spool closed")
  else if (length jobs <? jobsCap)%nat then (q, snoc jobs raw, Ok tt)
  else (reject q errSpoolFull 1, jobs, Err errSpoolFull).

(** ** Reading *)

Inductive read := RFile (raws : list Raw) (n : Z) | RMissing | RCorrupt | RFailed.

Definition readSpoolFile (k : Disk) (n : Name) (ok : bool) : read :=
  match d_main k !! n with
  | None => RMissing
  | Some f => if negb ok then RFailed
              else match f_data f with None => RCorrupt | Some raws => RFile raws (f_plain f) end
  end.

(** ** Sending *)

Inductive verdict := DAccepted | DRejected | DFailed.

Record SendIO := {
  s_read : bool;
  s_deliver : verdict;          (* the whole file *)
  s_single : nat → verdict;     (* record by record *)
  s_dead : WriteIO;
  s_deadsync : bool;
  s_move : bool;
  s_remove : bool;
  s_sync : bool;
}.

(** Delivering a rejected batch record by record: what was delivered, and the
    rejected records unless a delivery failed. *)
Fixpoint singles (answer : nat → verdict) (i : nat) (raws : list Raw) : list action * option (list Raw) :=
  match raws with
  | [] => ([], Some [])
  | r :: raws' =>
      match answer i with
      | DFailed => ([], None)
      | DAccepted => let '(acts, dead) := singles answer (S i) raws' in (ADeliver [r] :: acts, dead)
      | DRejected => let '(acts, dead) := singles answer (S i) raws' in (acts, cons r <$> dead)
      end
  end.

Definition dead_name (n : Name) : Name := {| n_seq := n_seq n; n_gz := false |}.

Definition quarantineRecords (k : Disk) (q : DiskSpool) (n : Name) (dead : list Raw) (io : SendIO)
  : list action * DiskSpool * result unit :=
  if (length dead =? 0)%nat then ([], q, Ok tt)
  else match d_dead k !! dead_name n with
  | Some _ => ([ASkip dead], q, Ok tt)
  | None =>
      let '(acts, ok) := writeSynced k Dead (dead_name n) (plain_file dead) (s_dead io) in
      if negb ok then (acts, q, Err "quarantine failed")
      else if negb (s_deadsync io) then (acts, q, Err "quarantine sync failed")
      else (acts, add_dead q (blocks (json_len dead)) (Z.of_nat (length dead)), Ok tt)
  end.

Definition quarantineFile (q : DiskSpool) (n : Name) (io : SendIO) : list action * DiskSpool * result unit :=
  if negb (s_move io) then ([], q, Err "rename failed")
  else if negb (s_deadsync io) then ([AMoveDead n], q, Err "sync failed")
  else let '(q, sz) := dropHead q n in
       ([AMoveDead n], add_dead q sz 1, if s_sync io then Ok tt else Err "sync failed").

(** The end of [send]: remove the file, then forget it. *)
Definition send_remove (q : DiskSpool) (n : Name) (io : SendIO) : list action * DiskSpool * result unit :=
  if negb (s_remove io) then ([], q, Err "remove failed")
  else ([ARemove n], forget q n (s_sync io), Ok tt).

Definition send (k : Disk) (q : DiskSpool) (n : Name) (io : SendIO) : list action * DiskSpool * result unit :=
  match readSpoolFile k n (s_read io) with
  | RMissing => ([], forget q n (s_sync io), Ok tt)
  | RCorrupt => quarantineFile q n io
  | RFailed => ([], q, Err "read failed")
  | RFile raws _ =>
      match s_deliver io with
      | DFailed => ([], q, Err "delivery failed")
      | DAccepted =>
          let '(acts, q, r) := send_remove q n io in (ADeliver raws :: acts, q, r)
      | DRejected =>
          let '(acts, dead) := if (1 <? length raws)%nat then singles (s_single io) 0 raws
                               else ([], Some raws) in
          match dead with
          | None => (acts, q, Err "delivery failed")
          | Some dead =>
              let '(acts', q, r) := quarantineRecords k q n dead io in
              match r with
              | Err e => (acts ++ acts', q, Err e)
              | Ok _ => let '(acts'', q, r) := send_remove q n io in (acts ++ acts' ++ acts'', q, r)
              end
          end
      end
  end.

(** ** Compaction *)

(** The run of files that fit one segment, with their records; reading stops
    at the first file that does not read. *)
Fixpoint collect_more (k : Disk) (rd : nat → bool) (i : nat) (run : list spoolFile) (records : list Raw)
    (sz : Z) (fs : list spoolFile) : list spoolFile * list Raw :=
  match fs with
  | [] => (run, records)
  | f :: fs' =>
      match readSpoolFile k (name f) (rd i) with
      | RFile raws n =>
          if (0 <? length run)%nat
             && ((segmentMaxRecords <? Z.of_nat (length records + length raws))
                 || (segmentMaxBytes <? sz + n))
          then (run, records)
          else
            let run := snoc run f in
            let records := records ++ raws in
            if (segmentMaxRecords <=? Z.of_nat (length records)) || (segmentMaxBytes <=? sz + n)
            then (run, records)
            else collect_more k rd (S i) run records (sz + n) fs'
      | _ => if (length run =? 0)%nat then ([f], []) else (run, records)
      end
  end.

Definition collectRun (k : Disk) (rd : nat → bool) (fs : list spoolFile) : list spoolFile * list Raw :=
  collect_more k rd 0 [] [] 0 fs.

Fixpoint index_of (n : Name) (fs : list spoolFile) : option nat :=
  match fs with
  | [] => None
  | f :: fs' => if bool_decide (name f = n) then Some 0%nat else S <$> index_of n fs'
  end.

Definition segment_name (n : Name) : Name := {| n_seq := n_seq n; n_gz := true |}.

Record SegIO := { g_read : nat → bool; g_write : WriteIO; g_sync : bool; g_remove : nat → bool; g_sync2 : bool }.

(** The files of the run, removed one by one (a failed removal is ignored). *)
Fixpoint removals (seg : Name) (ok : nat → bool) (i : nat) (run : list spoolFile) : list action :=
  match run with
  | [] => []
  | f :: run' =>
      (if bool_decide (name f = seg) || negb (ok i) then [] else [ARemove (name f)])
      ++ removals seg ok (S i) run'
  end.

Definition total_size (fs : list spoolFile) : Z := foldr (λ f acc, size f + acc) 0 fs.

Definition writeSegment (k : Disk) (q : DiskSpool) (run : list spoolFile) (records : list Raw) (io : SegIO)
  : list action * DiskSpool * result unit :=
  match run with
  | [] => ([], q, Err "empty run")
  | first :: _ =>
      let n := segment_name (name first) in
      let '(acts, ok) := writeSynced k Main n (segment_file records) (g_write io) in
      if negb ok then (acts, q, Err "write failed")
      else if negb (g_sync io) then (acts, q, Err "sync failed")
      else
        let seg := {| name := n; size := blocks (gzip_len records) |} in
        match index_of (name first) (files q) with
        | None => (acts, q, Err "spool changed during compaction")
        | Some at_ =>
            let old := take (length run) (drop at_ (files q)) in
            if (length (files q) <? at_ + length run)%nat
               || negb (bool_decide (map name old = map name run))
            then (acts, q, Err "spool changed during compaction")
            else
              let fs := take at_ (files q) ++ [seg] ++ drop (at_ + length run) (files q) in
              (acts ++ removals n (g_remove io) 0 run,
               set_files q fs (bytes q + (size seg - total_size old)) (compacted q + Z.of_nat (length run)),
               if g_sync2 io then Ok tt else Err "sync failed")
        end
  end.

(** The loop of [compact] over the snapshot; [io i] holds the outcomes at
    offset [i], [None] when the spool is shutting down. *)
Fixpoint compact_from (fuel : nat) (k : Disk) (q : DiskSpool) (snapshot : list spoolFile)
    (i : nat) (io : nat → option SegIO) : list action * DiskSpool :=
  match fuel with
  | O => ([], q)
  | S fuel' =>
      if (i <? length snapshot)%nat then
        match io i with
        | None => ([], q)
        | Some o =>
            let '(run_, records) := collectRun k (g_read o) (drop i snapshot) in
            if (length run_ <? 2)%nat then
              compact_from fuel' k q snapshot (i + Nat.max (length run_) 1) io
            else
              let '(acts, q', r) := writeSegment k q run_ records o in
              match r with
              | Err e => (acts, set_error q' ("compact: " +:+ e)%string)
              | Ok _ =>
                  let '(acts', q'') :=
                    compact_from fuel' (foldl (λ k a, on_disk a k) k acts) q' snapshot (i + length run_) io in
                  (acts ++ acts', q'')
              end
        end
      else ([], q)
  end.

(** The loop advances at every round, so one round per file is enough. *)
Definition compact (k : Disk) (q : DiskSpool) (minFiles : nat) (io : nat → option SegIO)
  : list action * DiskSpool :=
  if (length (files q) <? minFiles)%nat then ([], q)
  else compact_from (length (files q)) k q (files q) 0 io.

(** ** Starting up *)

Definition entry (p : Name * File) : spoolFile := {| name := p.1; size := blocks (f_size p.2) |}.

Definition file_le (a b : spoolFile) : Prop := name_le (name a) (name b).
#[export] Instance file_le_dec : RelDecision file_le.
Proof. intros a b. unfold file_le. apply _. Defined.

(** The spool files of a directory, sorted, with their total size and the
    greatest sequence number; leftover temporary files are removed. *)
Definition scan (k : Disk) (d : Dir) (seq0 : Z) : list action * (list spoolFile * Z * Z) :=
  let entries := map entry (map_to_list (match d with Main => d_main k | Dead => d_dead k end)) in
  (map (ARemoveTmp d) (elements (tmps k d)),
   (merge_sort file_le entries, total_size entries,
    foldr (λ f acc, Z.max (n_seq (name f)) acc) seq0 entries)).

Definition NewDiskSpool (k : Disk) (lim : Z) (now : Z) : list action * DiskSpool :=
  let '(acts, (pend, sz, seq1)) := scan k Main now in
  let '(acts', (dead, deadSz, seq2)) := scan k Dead seq1 in
  (acts ++ acts',
   {| limit := lim; files := pend; bytes := sz; deadFiles := Z.of_nat (length dead); deadBytes := deadSz;
      quarantined := 0; sequence := seq2; lastError := ""%string; rejected := 0; late := 0; compacted := 0 |}).
End spool.
