(* ===== verification/SpoolProps.v ===== *)
(** * The spool is a queue that survives crashes

    The abstract view of a spool is the list of its pending records: persisting
    appends to it, sending takes from its front, compaction leaves it alone.
    Across any sequence of operations, I/O failures and crashes, an accepted
    record is pending on disk, quarantined or delivered (or was passed over by
    the quarantine, see [quarantine_skip_loses]). *)

From stdpp Require Import base list gmap strings sorting.
From S2P Require Import Prelude Spool.
Local Open Scope Z_scope.
Local Open Scope list_scope.

(** ** The abstract queue *)

Definition data_of (k : Disk) (n : Name) : list Raw :=
  match d_main k !! n with Some f => default [] (f_data f) | None => [] end.

Definition pending_records (k : Disk) (q : DiskSpool) : list Raw :=
  concat (map (λ f, data_of k (name f)) (files q)).

Definition in_dead (k : Disk) (r : Raw) : Prop :=
  ∃ n f rs, d_dead k !! n = Some f ∧ f_data f = Some rs ∧ r ∈ rs.

(** A record outside the queue that is accounted for. *)
Definition settled (o : Outside) (r : Raw) : Prop :=
  in_dead (o_disk o) r ∨ r ∈ o_delivered o ∨ r ∈ o_skipped o.

Definition safe (o : Outside) (q : DiskSpool) (r : Raw) : Prop :=
  r ∈ pending_records (o_disk o) q ∨ settled o r.

(** The same without the process: what a restart finds. *)
Definition safe_disk (o : Outside) (r : Raw) : Prop :=
  (∃ n, r ∈ data_of (o_disk o) n) ∨ settled o r.

Definition name_lt (a b : Name) : Prop :=
  n_seq a < n_seq b ∨ (n_seq a = n_seq b ∧ n_gz a = false ∧ n_gz b = true).

(** Every file of the main directory reads back. *)
Definition readable (o : Outside) : Prop :=
  ∀ n f, d_main (o_disk o) !! n = Some f → is_Some (f_data f).

Record Inv (k : Disk) (q : DiskSpool) : Prop := {
  inv_sorted : StronglySorted name_lt (map name (files q));
  inv_bytes : bytes q = total_size (files q);
  inv_seq : ∀ n, is_Some (d_main k !! n) ∨ n ∈ map name (files q) → n_seq n ≤ sequence q;
  inv_read : ∀ n f, d_main k !! n = Some f → is_Some (f_data f);
}.

(** ** Runs of actions *)

Fixpoint always (P : Outside → Prop) (o : Outside) (l : list action) : Prop :=
  P o ∧ match l with [] => True | a :: l' => always P (act o a) l' end.

Lemma always_here P o l : always P o l → P o.
Proof. destruct l; simpl; tauto. Qed.

Lemma run_app o l1 l2 : run o (l1 ++ l2) = run (run o l1) l2.
Proof. apply foldl_app. Qed.

Lemma always_app P o l1 l2 : always P o (l1 ++ l2) ↔ always P o l1 ∧ always P (run o l1) l2.
Proof.
  revert o. induction l1 as [|a l1 IH]; intros o; simpl.
  - split; [|tauto]. intros H. split; [|done]. split; [by eapply always_here|done].
  - rewrite IH. tauto.
Qed.

Lemma always_prefix P o l p : always P o l → p `prefix_of` l → P (run o p).
Proof.
  intros H [l' ->]. apply always_app in H as [_ H]. by apply always_here in H.
Qed.

(** Actions that keep the main directory and only add elsewhere. *)
Record grows (o o' : Outside) : Prop := {
  g_main : d_main (o_disk o') = d_main (o_disk o);
  g_dead : ∀ n f, d_dead (o_disk o) !! n = Some f → d_dead (o_disk o') !! n = Some f;
  g_delivered : ∀ r, r ∈ o_delivered o → r ∈ o_delivered o';
  g_skipped : ∀ r, r ∈ o_skipped o → r ∈ o_skipped o';
}.

#[export] Instance grows_preorder : PreOrder grows.
Proof.
  split; [by constructor|]. intros a b c [H1 ? ? ?] [H2 ? ? ?]. constructor; auto. by rewrite H2, H1.
Qed.

Lemma grows_settled o o' r : grows o o' → settled o r → settled o' r.
Proof.
  intros [_ Hd Hl Hs] [(n & f & rs & ? & ? & ?)|[?|?]]; [left; exists n, f, rs; auto|right; left; auto|right; right; auto].
Qed.

Lemma grows_data o o' n : grows o o' → data_of (o_disk o') n = data_of (o_disk o) n.
Proof. intros [Hm _ _ _]. unfold data_of. by rewrite Hm. Qed.

Lemma grows_safe_disk o o' r : grows o o' → safe_disk o r → safe_disk o' r.
Proof.
  intros Hg [[n Hn]|Hs]; [left; exists n; by rewrite (grows_data _ _ _ Hg)|right; by eapply grows_settled].
Qed.

Lemma grows_pending o o' q : grows o o' → pending_records (o_disk o') q = pending_records (o_disk o) q.
Proof.
  intros Hg. unfold pending_records. f_equal. apply map_ext. intros f. by apply grows_data.
Qed.

Lemma grows_inv o o' q : grows o o' → Inv (o_disk o) q → Inv (o_disk o') q.
Proof. intros [Hm _ _ _] []. constructor; auto; by rewrite Hm. Qed.

(** The quiet actions. *)
Definition quiet (k : Disk) (a : action) : Prop :=
  match a with
  | ACreateTmp _ _ | ARemoveTmp _ _ | ADeliver _ | ASkip _ => True
  | ARename Dead n _ => d_dead k !! n = None
  | _ => False
  end.

Lemma quiet_grows o a : quiet (o_disk o) a → grows o (act o a).
Proof.
  destruct a as [d n|[] n f|d n| | |rs|rs]; simpl; try done; intros Hq; constructor; simpl; try done.
  - by destruct d.
  - by destruct d.
  - intros n' f' Hn'. rewrite lookup_insert_ne; congruence.
  - by destruct d.
  - by destruct d.
  - intros r Hr. apply elem_of_app. by left.
  - intros r Hr. apply elem_of_app. by left.
Qed.

Fixpoint quiet_run (o : Outside) (l : list action) : Prop :=
  match l with [] => True | a :: l' => quiet (o_disk o) a ∧ quiet_run (act o a) l' end.

Lemma quiet_run_grows o l : quiet_run o l → grows o (run o l).
Proof.
  revert o. induction l as [|a l IH]; intros o; simpl; [done|]. intros [Ha Hl].
  transitivity (act o a); [by apply quiet_grows|by apply IH].
Qed.

Lemma quiet_run_always o l (P : Outside → Prop) :
  quiet_run o l → (∀ o', grows o o' → P o') → always P o l.
Proof.
  revert o. induction l as [|a l IH]; intros o Hq HP; simpl.
  - split; [by apply HP|done].
  - destruct Hq as [Ha Hl]. split; [by apply HP|]. apply IH; [done|]. intros o' Ho'. apply HP.
    transitivity (act o a); [by apply quiet_grows|done].
Qed.

(** ** Small facts *)

Lemma name_lt_trans a b c : name_lt a b → name_lt b c → name_lt a c.
Proof. unfold name_lt. intros. intuition (try lia); congruence || lia. Qed.

Lemma name_lt_irrefl a : ¬ name_lt a a.
Proof. unfold name_lt. intros [?|(_&H1&H2)]; [lia|congruence]. Qed.

Lemma sorted_NoDup (l : list Name) : StronglySorted name_lt l → NoDup l.
Proof.
  induction 1 as [|x l Hl IH Hx]; constructor; auto.
  intros Hin. rewrite Forall_forall in Hx. by apply (name_lt_irrefl x), Hx.
Qed.

Lemma total_size_app a b : total_size (a ++ b) = total_size a + total_size b.
Proof. induction a as [|x a IH]; simpl; [done|]. rewrite IH. lia. Qed.

Lemma pending_app k q fs1 fs2 b c :
  pending_records k (set_files q (fs1 ++ fs2) b c)
  = concat (map (λ f, data_of k (name f)) fs1) ++ concat (map (λ f, data_of k (name f)) fs2).
Proof. unfold pending_records. simpl. by rewrite map_app, concat_app. Qed.

Lemma writeSynced_spec k d n f io acts ok :
  writeSynced k d n f io = (acts, ok) →
  if ok then acts = [ACreateTmp d n; ARename d n f] else ∀ o, quiet_run o acts.
Proof.
  unfold writeSynced. destruct (_ || _); [intros [= <- <-]; done|].
  destruct (_ && _); [intros [= <- <-]; done|]. intros [= <- <-] o.
  destruct (remove_ok io); simpl; tauto.
Qed.

(** ** What every operation keeps

    The invariant holds again, nothing safe is lost on the way (a crash may
    stop the operation after any action), and what is settled stays so. *)
Record keeps (o : Outside) (q : DiskSpool) (acts : list action) (q' : DiskSpool) : Prop := {
  k_inv : Inv (o_disk (run o acts)) q';
  k_always : ∀ r, safe o q r → always (λ o', safe_disk o' r) o acts;
  k_after : ∀ r, safe o q r → safe (run o acts) q' r;
  k_readable : always readable o acts;
}.

Lemma in_pending k q r : r ∈ pending_records k q → ∃ n, r ∈ data_of k n.
Proof.
  unfold pending_records. intros H. apply list_elem_of_In, in_concat in H as (l & Hl & Hr).
  apply in_map_iff in Hl as (f & <- & _). exists (name f). by apply list_elem_of_In.
Qed.

Lemma safe_safe_disk o q r : safe o q r → safe_disk o r.
Proof. intros [H|H]; [left; by eapply in_pending|by right]. Qed.

(** Quiet operations with the queue unchanged. *)
Lemma keeps_quiet o q acts q' :
  quiet_run o acts → Inv (o_disk o) q → files q' = files q → bytes q' = bytes q →
  sequence q ≤ sequence q' → keeps o q acts q'.
Proof.
  intros Hq Hinv Hf Hb Hs. pose proof (quiet_run_grows _ _ Hq) as Hg. constructor.
  - apply (grows_inv _ _ _ Hg). destruct Hinv. constructor; rewrite ?Hf, ?Hb; auto.
    intros n Hn. etrans; [by apply inv_seq0|done].
  - intros r Hr. apply quiet_run_always; [done|]. intros o' Ho'.
    eapply grows_safe_disk; [done|by eapply safe_safe_disk].
  - intros r [Hr|Hr]; [left|right; by eapply grows_settled].
    unfold pending_records in *. rewrite Hf. by rewrite (grows_pending _ _ q Hg : concat _ = _).
  - apply quiet_run_always; [done|]. intros o' [Hm _ _ _]. unfold readable. rewrite Hm. by destruct Hinv.
Qed.

Section ops.
Context {C : Codec}.

(** A new file under a fresh name leaves every other file alone. *)
Lemma data_of_put_ne k n f n' : n' ≠ n → data_of (put k Main n f) n' = data_of k n'.
Proof. intros H. unfold data_of. simpl. by rewrite lookup_insert_ne by done. Qed.

Lemma data_of_put k n f : data_of (put k Main n f) n = default [] (f_data f).
Proof. unfold data_of. simpl. by rewrite lookup_insert_eq. Qed.

Lemma act_tmp_grows o d n : grows o (act o (ACreateTmp d n)).
Proof. by apply quiet_grows. Qed.

Lemma persist_write o q n :
  Inv (o_disk o) q → n = {| n_seq := sequence q + 1; n_gz := false |} →
  d_main (o_disk o) !! n = None ∧ n ∉ map name (files q).
Proof.
  intros [_ _ Hseq _] ->. split.
  - apply eq_None_not_Some. intros H. specialize (Hseq _ (or_introl H)). simpl in Hseq. lia.
  - intros H. specialize (Hseq _ (or_intror H)). simpl in Hseq. lia.
Qed.

Lemma persist_spec o q raws io acts q' r :
  Inv (o_disk o) q → persist (o_disk o) q raws io = (acts, q', r) →
  keeps o q acts q'
  ∧ pending_records (o_disk (run o acts)) q'
    = pending_records (o_disk o) q ++ (if is_ok r then raws else [])
  ∧ (is_ok r = true → bytes q' + deadBytes q' ≤ limit q').
Proof.
  intros Hinv. unfold persist. case_if.
  { intros [= <- <- <-]. split_and!; [|by rewrite app_nil_r|done]. by apply keeps_quiet. }
  destruct (writeSynced _ _ _ _ _) as [wacts ok] eqn:Hw. apply writeSynced_spec in Hw.
  destruct ok; simpl in *.
  2: { intros [= <- <- <-]. split_and!; [| |done].
       - apply keeps_quiet; simpl; auto; lia.
       - rewrite app_nil_r. apply (grows_pending _ _ q). by apply quiet_run_grows. }
  subst wacts. set (n := {| n_seq := sequence q + 1; n_gz := false |}).
  destruct (persist_write o q n Hinv eq_refl) as [Hfresh Hnotin].
  set (q1 := set_files _ _ _ _). intros Heq.
  assert (acts = [ACreateTmp Main n; ARename Main n (plain_file raws)] ∧ r = Ok tt
          ∧ files q' = files q1 ∧ bytes q' = bytes q1 ∧ sequence q' = sequence q1
          ∧ deadBytes q' = deadBytes q ∧ limit q' = limit q) as (-> & -> & Hf & Hb & Hs & Hd & Hl).
  { destruct (p_sync io); by injection Heq as <- <- <-. }
  clear Heq. simpl run. set (o' := act (act o _) _).
  assert (∀ n', n' ≠ n → data_of (o_disk o') n' = data_of (o_disk o) n') as Hne.
  { intros n' Hn'. exact (data_of_put_ne _ _ _ _ Hn'). }
  assert (pending_records (o_disk o') q' = pending_records (o_disk o) q ++ raws) as Hpend.
  { unfold pending_records. rewrite Hf. simpl. unfold snoc. rewrite map_app, concat_app. simpl.
    f_equal.
    - f_equal. apply map_ext_in. intros f Hin. apply Hne. intros Hn. apply Hnotin.
      apply list_elem_of_fmap. exists f. split; [done|]. by apply list_elem_of_In.
    - rewrite app_nil_r. exact (data_of_put _ _ _). }
  assert (∀ r, settled o r → settled o' r) as Hset by done.
  split_and!; [|done|intros _; rewrite Hb, Hd, Hl; simpl; lia].
  constructor; simpl run; fold o'.
  - destruct Hinv as [H1 H2 H3 H4]. constructor.
    + rewrite Hf. simpl. unfold snoc. rewrite map_app. apply StronglySorted_app_2; simpl; auto.
      * intros a b Ha ->%list_elem_of_singleton. left. simpl.
        specialize (H3 a (or_intror Ha)). lia.
      * repeat constructor.
    + rewrite Hb, Hf. simpl. unfold snoc. rewrite total_size_app, H2. simpl. lia.
    + intros n' Hn'. rewrite Hs. simpl. rewrite Hf in Hn'. simpl in Hn'.
      unfold snoc in Hn'. rewrite map_app, elem_of_app in Hn'.
      destruct (decide (n' = n)) as [->|Hnn]; [simpl; lia|].
      rewrite lookup_insert_ne in Hn' by done. simpl in Hn'.
      rewrite list_elem_of_singleton in Hn'.
      assert (n_seq n' ≤ sequence q); [apply H3; tauto|lia].
    + intros n' f. simpl. destruct (decide (n' = n)) as [->|Hnn].
      * rewrite lookup_insert_eq. intros [= <-]. by eexists.
      * rewrite lookup_insert_ne by done. apply H4.
  - intros r Hr. apply safe_safe_disk in Hr as Hd0. split; [done|]. split; [done|]. split; [|done].
    destruct Hd0 as [[n' Hn']|?]; [|by right; apply Hset]. left. exists n'. rewrite Hne; [done|].
    intros ->. unfold data_of in Hn'. rewrite Hfresh in Hn'. by apply not_elem_of_nil in Hn'.
  - intros r [Hr|Hr]; [left; rewrite Hpend; apply elem_of_app; by left|right; by apply Hset].
  - pose proof (inv_read _ _ Hinv) as Hrd. split; [done|]. split; [done|]. split; [|done].
    intros n' f. simpl. destruct (decide (n' = n)) as [->|Hnn].
    + rewrite lookup_insert_eq. intros [= <-]. by eexists.
    + rewrite lookup_insert_ne by done. apply Hrd.
Qed.

(** *** Sending *)

Lemma keeps_app o q acts1 acts2 q1 q' :
  keeps o q acts1 q1 → keeps (run o acts1) q1 acts2 q' → keeps o q (acts1 ++ acts2) q'.
Proof.
  intros [H1 H2 H3 ?] [H4 H5 H6 ?]. constructor; rewrite ?run_app; auto.
  - intros r Hr. apply always_app. auto.
  - by apply always_app.
Qed.

Lemma forget_head q f fs n sync_ok :
  files q = f :: fs → name f = n →
  files (forget q n sync_ok) = fs ∧ bytes (forget q n sync_ok) = bytes q - size f
  ∧ sequence (forget q n sync_ok) = sequence q.
Proof.
  intros Hf Hn. unfold forget, dropHead. rewrite Hf. rewrite bool_decide_true by done. done.
Qed.

(** Removing the head file once its records are settled. *)
Lemma remove_head_keeps o q f fs sync_ok :
  Inv (o_disk o) q → files q = f :: fs → (∀ r, r ∈ data_of (o_disk o) (name f) → settled o r) →
  keeps o q [ARemove (name f)] (forget q (name f) sync_ok)
  ∧ pending_records (o_disk (run o [ARemove (name f)])) (forget q (name f) sync_ok)
    = concat (map (λ g, data_of (o_disk o) (name g)) fs).
Proof.
  intros Hinv Hf Hset. destruct (forget_head q f fs (name f) sync_ok Hf eq_refl) as (Hf' & Hb' & Hs').
  set (q' := forget _ _ _) in *. simpl run. set (o' := act o _).
  assert (∀ n, n ≠ name f → data_of (o_disk o') n = data_of (o_disk o) n) as Hne.
  { intros n Hn. unfold data_of. simpl. by rewrite lookup_delete_ne by done. }
  assert (∀ r, settled o r → settled o' r) as Hset' by done.
  pose proof (inv_sorted _ _ Hinv) as Hsort. rewrite Hf in Hsort. simpl in Hsort.
  apply StronglySorted_inv in Hsort as [Hsort Hall].
  assert (pending_records (o_disk o') q' = concat (map (λ g, data_of (o_disk o) (name g)) fs)) as Hpend.
  { unfold pending_records. rewrite Hf'. f_equal. apply map_ext_in. intros g Hg. apply Hne.
    intros Heq. rewrite Forall_forall in Hall. apply (name_lt_irrefl (name f)). apply Hall.
    rewrite <-Heq. apply list_elem_of_fmap. exists g. split; [done|]. by apply list_elem_of_In. }
  split; [|done]. constructor; simpl run; fold o'.
  - destruct Hinv as [_ H2 H3 H4]. constructor.
    + by rewrite Hf'.
    + rewrite Hb', Hf', H2, Hf. simpl. lia.
    + intros n Hn. rewrite Hs'. apply H3. rewrite Hf' in Hn. rewrite Hf. simpl.
      destruct Hn as [[x Hx]|Hn]; [left|right; by right]. simpl in Hx.
      apply lookup_delete_Some in Hx as [_ Hx]. by eexists.
    + intros n g. simpl. intros Hx. apply lookup_delete_Some in Hx as [_ Hx]. eauto.
  - intros r Hr. apply safe_safe_disk in Hr as Hd. split; [done|]. split; [|done].
    destruct Hd as [[n Hn]|?]; [|by right; apply Hset'].
    destruct (decide (n = name f)) as [->|Hnf]; [right; by apply Hset', Hset|].
    left. exists n. by rewrite Hne.
  - intros r [Hr|Hr]; [|right; by apply Hset'].
    unfold pending_records in Hr. rewrite Hf in Hr. simpl in Hr. apply elem_of_app in Hr as [Hr|Hr].
    + right. by apply Hset', Hset.
    + left. by rewrite Hpend.
  - pose proof (inv_read _ _ Hinv) as Hrd. split; [done|]. split; [|done].
    intros n g. simpl. intros Hx. apply lookup_delete_Some in Hx as [_ Hx]. eauto.
Qed.

Lemma singles_spec answer i raws o acts dead :
  singles answer i raws = (acts, dead) →
  quiet_run o acts
  ∧ ∀ d, dead = Some d → ∀ r, r ∈ raws → r ∈ o_delivered (run o acts) ∨ r ∈ d.
Proof.
  revert i o acts dead. induction raws as [|x raws IH]; intros i o acts dead; simpl.
  { intros [= <- <-]. split; [done|]. intros d _ r Hr. by apply not_elem_of_nil in Hr. }
  destruct (answer i).
  - destruct (singles answer (S i) raws) as [acts' dead'] eqn:Hs. intros [= <- <-]. simpl.
    destruct (IH _ (act o (ADeliver [x])) _ _ Hs) as [Hq Hd]. split; [done|]. intros d Hdd r Hr.
    apply elem_of_cons in Hr as [->|Hr]; [|eauto]. left.
    apply (g_delivered _ _ (quiet_run_grows _ _ Hq)). simpl. apply elem_of_app. right. by left.
  - destruct (singles answer (S i) raws) as [acts' dead'] eqn:Hs. intros [= <- <-].
    destruct (IH _ o _ _ Hs) as [Hq Hd]. split; [done|]. intros d Hdd r Hr.
    destruct dead' as [d'|]; [|done]. injection Hdd as <-.
    apply elem_of_cons in Hr as [->|Hr]; [right; left|].
    destruct (Hd d' eq_refl r Hr); [by left|right; by right].
  - intros [= <- <-]. split; [done|]. by intros d ?.
Qed.

Lemma singles_dead answer i raws o acts dead :
  singles answer i raws = (acts, dead) → d_dead (o_disk (run o acts)) = d_dead (o_disk o).
Proof.
  revert i o acts dead. induction raws as [|x raws IH]; intros i o acts dead; simpl; [by intros [= <- <-]|].
  destruct (answer i); [| |by intros [= <- <-]];
    (destruct (singles answer (S i) raws) as [acts' dead'] eqn:Hs; intros [= <- <-]).
  - simpl. by rewrite (IH _ (act o (ADeliver [x])) _ _ Hs).
  - by eapply IH.
Qed.

Lemma quiet_run_app o l1 l2 : quiet_run o l1 → quiet_run (run o l1) l2 → quiet_run o (l1 ++ l2).
Proof.
  revert o. induction l1 as [|a l1 IH]; intros o; simpl; [done|]. intros [? ?] ?. auto.
Qed.

Lemma quarantine_spec o k q n dead io acts q' r :
  k = o_disk o ∨ d_dead k = d_dead (o_disk o) →
  quarantineRecords k q n dead io = (acts, q', r) →
  quiet_run o acts ∧ files q' = files q ∧ bytes q' = bytes q ∧ sequence q' = sequence q
  ∧ (is_ok r = true → ∀ x, x ∈ dead → settled (run o acts) x).
Proof.
  intros Hk. assert (d_dead k = d_dead (o_disk o)) as Hkd by (destruct Hk as [->|]; done). clear Hk.
  unfold quarantineRecords. case_if.
  { intros [= <- <- <-]. split_and!; try done. intros _ x Hx. destruct dead; [|done].
    by apply not_elem_of_nil in Hx. }
  destruct (d_dead k !! dead_name n) eqn:Hd.
  { intros [= <- <- <-]. split_and!; try done. intros _ x Hx. right. right. simpl.
    apply elem_of_app. by right. }
  destruct (writeSynced _ _ _ _ _) as [wacts ok] eqn:Hw. apply writeSynced_spec in Hw.
  destruct ok; simpl; [subst wacts|intros [= <- <- <-]; by split_and!].
  assert (quiet_run o [ACreateTmp Dead (dead_name n); ARename Dead (dead_name n) (plain_file dead)]) as Hq.
  { simpl. by rewrite <-Hkd. }
  destruct (s_deadsync io); intros [= <- <- <-]; split_and!; try done.
  intros _ x Hx. left. exists (dead_name n), (plain_file dead), dead. split_and!; try done.
  simpl. apply lookup_insert_eq.
Qed.

(** The tail of [send], after quiet actions have settled the head's records. *)
Lemma send_tail o q q1 f fs acts1 acts2 q' io r :
  Inv (o_disk o) q → files q = f :: fs → quiet_run o acts1 →
  files q1 = files q → bytes q1 = bytes q → sequence q1 = sequence q →
  (∀ x, x ∈ data_of (o_disk o) (name f) → settled (run o acts1) x) →
  send_remove q1 (name f) io = (acts2, q', r) →
  keeps o q (acts1 ++ acts2) q'
  ∧ pending_records (o_disk (run o (acts1 ++ acts2))) q'
    = if is_ok r then concat (map (λ g, data_of (o_disk o) (name g)) fs)
      else pending_records (o_disk o) q.
Proof.
  intros Hinv Hf Hq Hf1 Hb1 Hs1 Hset. pose proof (quiet_run_grows _ _ Hq) as Hg.
  assert (keeps o q acts1 q1) as Hk by (apply keeps_quiet; auto; lia).
  unfold send_remove. destruct (s_remove io); simpl; intros [= <- <- <-]; simpl.
  - destruct (remove_head_keeps (run o acts1) q1 f fs (s_sync io)) as [Hrk Hp].
    + by destruct Hk.
    + by rewrite Hf1.
    + intros x. rewrite (grows_data _ _ _ Hg). apply Hset.
    + split; [by eapply keeps_app|]. rewrite run_app. rewrite Hp. f_equal. apply map_ext.
      intros g. by apply grows_data.
  - rewrite app_nil_r. split; [done|].
    rewrite <-(grows_pending _ _ q Hg). unfold pending_records. by rewrite Hf1.
Qed.

(** The queue as the head file and the rest. *)
Lemma pending_cons k q f fs : files q = f :: fs →
  pending_records k q = data_of k (name f) ++ concat (map (λ g, data_of k (name g)) fs).
Proof. intros Hf. unfold pending_records. by rewrite Hf. Qed.

(** A head file that is gone is forgotten. *)
Lemma send_missing o q f fs sync_ok :
  Inv (o_disk o) q → files q = f :: fs → data_of (o_disk o) (name f) = [] →
  keeps o q [] (forget q (name f) sync_ok)
  ∧ pending_records (o_disk o) (forget q (name f) sync_ok)
    = concat (map (λ g, data_of (o_disk o) (name g)) fs).
Proof.
  intros Hinv Hf Hd. destruct (forget_head q f fs (name f) sync_ok Hf eq_refl) as (Hf' & Hb' & Hs').
  assert (pending_records (o_disk o) (forget q (name f) sync_ok) = pending_records (o_disk o) q) as Hp.
  { rewrite (pending_cons _ _ _ _ Hf), Hd. unfold pending_records. by rewrite Hf'. }
  split; [|unfold pending_records; by rewrite Hf'].
  constructor; simpl; [|intros x Hx; split; [by eapply safe_safe_disk|done]| |].
  - destruct Hinv as [H1 H2 H3 H4]. constructor; auto.
    + rewrite Hf'. rewrite Hf in H1. simpl in H1. by apply StronglySorted_inv in H1 as [? _].
    + rewrite Hb', Hf', H2, Hf. simpl. lia.
    + intros n Hn. rewrite Hs'. apply H3. rewrite Hf' in Hn. rewrite Hf. simpl.
      destruct Hn; [by left|right; by right].
  - intros x [Hx|Hx]; [left; by rewrite Hp|by right].
  - split; [|done]. by destruct Hinv.
Qed.

(** A rejected head file: deliver its records one by one, quarantine what is
    rejected again, then remove it. *)
Lemma send_rejected o q f fs io raws acts1 d acts2 q2 r2 :
  Inv (o_disk o) q → files q = f :: fs → data_of (o_disk o) (name f) = raws →
  (if (1 <? length raws)%nat then singles (s_single io) 0 raws else ([], Some raws)) = (acts1, Some d) →
  quarantineRecords (o_disk o) q (name f) d io = (acts2, q2, r2) →
  quiet_run o (acts1 ++ acts2) ∧ files q2 = files q ∧ bytes q2 = bytes q ∧ sequence q2 = sequence q
  ∧ (is_ok r2 = true → ∀ x, x ∈ raws → settled (run o (acts1 ++ acts2)) x).
Proof.
  intros Hinv Hf Hdata Hs Hqr.
  assert (quiet_run o acts1 ∧ d_dead (o_disk (run o acts1)) = d_dead (o_disk o)
          ∧ ∀ x, x ∈ raws → x ∈ o_delivered (run o acts1) ∨ x ∈ d) as (Hq1 & Hdd & Hd1).
  { case_if; [|injection Hs as <- <-; by split_and!; auto].
    destruct (singles_spec _ _ _ o _ _ Hs) as [? Hd]. split_and!; [done|by eapply singles_dead|by apply Hd]. }
  apply (quarantine_spec (run o acts1)) in Hqr as (Hq2 & Hf2 & Hb2 & Hs2 & Hset2); [|by right].
  split_and!; auto; [by apply quiet_run_app|]. intros Hok x Hx. rewrite run_app.
  destruct (Hd1 x Hx) as [Hx'|Hx']; [|by apply Hset2].
  right. left. by apply (g_delivered _ _ (quiet_run_grows _ _ Hq2)).
Qed.

Lemma send_spec o q f fs io acts q' r :
  Inv (o_disk o) q → files q = f :: fs → send (o_disk o) q (name f) io = (acts, q', r) →
  keeps o q acts q'
  ∧ pending_records (o_disk (run o acts)) q'
    = if is_ok r then concat (map (λ g, data_of (o_disk o) (name g)) fs)
      else pending_records (o_disk o) q.
Proof.
  intros Hinv Hf. unfold send, readSpoolFile.
  assert (∀ acts, quiet_run o acts → keeps o q acts q ∧
    pending_records (o_disk (run o acts)) q = pending_records (o_disk o) q) as Hquiet.
  { intros l Hl. split; [by apply keeps_quiet|]. apply grows_pending, quiet_run_grows, Hl. }
  destruct (d_main (o_disk o) !! name f) as [file|] eqn:Hfile.
  2: { intros [= <- <- <-]. apply send_missing; [done|done|]. unfold data_of. by rewrite Hfile. }
  destruct (s_read io); simpl; [|intros [= <- <- <-]; by apply (Hquiet [])].
  destruct (inv_read _ _ Hinv _ _ Hfile) as [raws Hraws]. rewrite Hraws.
  assert (data_of (o_disk o) (name f) = raws) as Hdata by (unfold data_of; by rewrite Hfile, Hraws).
  destruct (s_deliver io); [| |intros [= <- <- <-]; by apply (Hquiet [])].
  - destruct (send_remove q (name f) io) as [[acts2 q2] r2] eqn:Hsr. intros [= <- <- <-].
    change (ADeliver raws :: acts2) with ([ADeliver raws] ++ acts2).
    eapply send_tail; eauto; [done|]. rewrite Hdata. intros x Hx. right. left. simpl.
    apply elem_of_app. by right.
  - destruct (if (1 <? length raws)%nat then _ else _) as [acts1 [d|]] eqn:Hs.
    2: { intros [= <- <- <-]. apply Hquiet. case_if; [by eapply singles_spec|done]. }
    destruct (quarantineRecords _ _ _ _ _) as [[acts2 q2] r2] eqn:Hqr.
    destruct (send_rejected o q f fs io raws acts1 d acts2 q2 r2) as (Hq & Hf2 & Hb2 & Hs2 & Hset); auto.
    destruct r2 as [[]|e].
    + destruct (send_remove q2 (name f) io) as [[acts3 q3] r3] eqn:Hsr. intros [= <- <- <-].
      rewrite app_assoc. eapply send_tail; eauto. rewrite Hdata. by apply Hset.
    + intros [= <- <- <-]. simpl. split; [apply keeps_quiet; auto; lia|].
      rewrite <-(grows_pending _ _ q (quiet_run_grows _ _ Hq)). unfold pending_records. by rewrite Hf2.
Qed.

(** *** Compaction *)

(** [collectRun] takes a prefix of the files and, unless it took a single
    file, exactly their records in order. *)
Lemma collect_more_spec k rd i run0 recs0 sz fs run' recs' :
  recs0 = concat (map (λ f, data_of k (name f)) run0) →
  collect_more k rd i run0 recs0 sz fs = (run', recs') →
  ∃ taken rest, fs = taken ++ rest ∧ run' = run0 ++ taken
    ∧ ((2 ≤ length run')%nat ∨ run0 ≠ [] → recs' = concat (map (λ f, data_of k (name f)) run')).
Proof.
  revert i run0 recs0 sz. induction fs as [|f fs IH]; intros i run0 recs0 sz Hrec; simpl.
  { intros [= <- <-]. exists [], []. by rewrite !app_nil_r. }
  assert (∀ x, x = (run', recs') → x = (if (length run0 =? 0)%nat then ([f], []) else (run0, recs0)) →
    ∃ taken rest, f :: fs = taken ++ rest ∧ run' = run0 ++ taken
    ∧ ((2 ≤ length run')%nat ∨ run0 ≠ [] → recs' = concat (map (λ f, data_of k (name f)) run'))) as Hstop.
  { intros x ->. destruct run0; simpl; intros [= -> ->].
    - exists [f], fs. split_and!; try done. simpl. intros [?|?]; [lia|done].
    - exists [], (f :: fs). by rewrite app_nil_r. }
  destruct (readSpoolFile k (name f) (rd i)) as [raws n| | |] eqn:Hr; try (intros H; eapply Hstop; [exact H|done]).
  assert (data_of k (name f) = raws) as Hd.
  { unfold readSpoolFile in Hr. unfold data_of. destruct (d_main k !! name f) as [file|]; [|done].
    destruct (rd i); simpl in Hr; [|done]. destruct (f_data file); [|done]. by injection Hr as <- <-. }
  case_if; [intros [= <- <-]; exists [], (f :: fs); by rewrite app_nil_r|].
  assert (recs0 ++ raws = concat (map (λ f, data_of k (name f)) (snoc run0 f))) as Hrec1.
  { unfold snoc. rewrite map_app, concat_app, <-Hrec. simpl. by rewrite Hd, app_nil_r. }
  case_if.
  - intros [= <- <-]. exists [f], fs. by split_and!.
  - intros Hc'. destruct (IH _ _ _ _ Hrec1 Hc') as (taken & rest & -> & -> & Hc).
    exists (f :: taken), rest. split_and!; [done|unfold snoc; by rewrite <-app_assoc|].
    intros _. apply Hc. right. unfold snoc. by destruct run0.
Qed.

Lemma index_of_app pre f post :
  name f ∉ map name pre → index_of (name f) (pre ++ f :: post) = Some (length pre).
Proof.
  induction pre as [|g pre IH]; simpl; intros Hn.
  - by rewrite bool_decide_true.
  - rewrite bool_decide_false by set_solver. rewrite IH by set_solver. done.
Qed.

(** The main directory after removing files of the run. *)
Lemma removals_data o seg ok i run_ n :
  n ∉ map name run_ ∨ n = seg →
  data_of (o_disk (run o (removals seg ok i run_))) n = data_of (o_disk o) n.
Proof.
  revert i o. induction run_ as [|f run_ IH]; intros i o Hn; simpl; [done|].
  rewrite run_app, IH by set_solver. destruct (bool_decide (name f = seg) || negb (ok i)) eqn:E; [done|].
  simpl. unfold data_of. simpl. rewrite lookup_delete_ne; [done|]. bool_hyps.
  apply bool_decide_eq_false in H. set_solver.
Qed.

Lemma removals_other o seg ok i run_ :
  (∀ r, settled (run o (removals seg ok i run_)) r ↔ settled o r)
  ∧ (∀ n f, d_main (o_disk (run o (removals seg ok i run_))) !! n = Some f →
            d_main (o_disk o) !! n = Some f).
Proof.
  revert i o. induction run_ as [|f run_ IH]; intros i o; simpl; [done|]. rewrite run_app.
  destruct (IH (S i) (run o (if bool_decide (name f = seg) || negb (ok i) then [] else [ARemove (name f)])))
    as [H1 H2].
  split.
  - intros r. rewrite H1. by destruct (_ || _).
  - intros n g Hg. apply H2 in Hg. destruct (_ || _); [done|]. simpl in Hg.
    by apply lookup_delete_Some in Hg as [_ ?].
Qed.

Lemma removals_always o seg ok i run_ (P : Outside → Prop) :
  (∀ j, (j ≤ length run_)%nat → P (run o (removals seg ok i (take j run_)))) →
  always P o (removals seg ok i run_).
Proof.
  revert i o. induction run_ as [|f run_ IH]; intros i o HP; simpl.
  { split; [|done]. exact (HP 0%nat ltac:(simpl; lia)). }
  apply always_app. split.
  - pose proof (HP 0%nat ltac:(simpl; lia)) as H0. pose proof (HP 1%nat ltac:(simpl; lia)) as H1.
    simpl in H0, H1. rewrite app_nil_r in H1. destruct (_ || _); simpl in *; auto.
  - apply IH. intros j Hj. specialize (HP (S j) ltac:(simpl; lia)). simpl in HP. by rewrite run_app in HP.
Qed.

(** A run [f0 :: f1 :: rest] of the files, and its segment. *)
Section segment.
Variables (o : Outside) (q : DiskSpool) (pre rest post : list spoolFile) (f0 f1 : spoolFile).
Variable records : list Raw.
Hypothesis Hinv : Inv (o_disk o) q.
Hypothesis Hfiles : files q = pre ++ (f0 :: f1 :: rest) ++ post.
Hypothesis Hrecords : records = concat (map (λ f, data_of (o_disk o) (name f)) (f0 :: f1 :: rest)).
Let names := map name (f0 :: f1 :: rest).
Let seg := segment_name (name f0).

Lemma sorted_parts :
  StronglySorted name_lt (map name pre) ∧ StronglySorted name_lt (map name post)
  ∧ name_lt (name f0) (name f1)
  ∧ (∀ a b, a ∈ map name pre → b ∈ names ++ map name post → name_lt a b)
  ∧ (∀ a b, a ∈ names → b ∈ map name post → name_lt a b).
Proof.
  pose proof (inv_sorted _ _ Hinv) as Hs. rewrite Hfiles, !map_app in Hs.
  apply StronglySorted_app in Hs as (H1 & H2 & H3). apply StronglySorted_app in H3 as (H4 & H5 & H6).
  split_and!; auto.
  simpl in H5. apply StronglySorted_cons in H5 as [H5 _]. by apply Forall_cons in H5 as [? _].
Qed.

Lemma seg_around :
  (∀ a, a ∈ map name pre → name_lt a seg) ∧ (∀ b, b ∈ map name post → name_lt seg b).
Proof.
  destruct sorted_parts as (_ & _ & H01 & Hpre & Hpost). split.
  - intros a Ha. assert (name_lt a (name f0)) as H; [apply Hpre; [done|]; left|].
    unfold name_lt, seg, segment_name in *. simpl. intuition.
  - intros b Hb. assert (name_lt (name f1) b) as H; [apply Hpost; [right; left|done]|].
    unfold name_lt, seg, segment_name in *. simpl. left.
    destruct H01 as [?|(?&?&?)], H as [?|(?&?&?)]; try lia. congruence.
Qed.

Lemma others_apart g : g ∈ map name pre ∨ g ∈ map name post → g ∉ names ∧ g ≠ seg.
Proof.
  destruct sorted_parts as (_ & _ & _ & Hpre & Hpost). destruct seg_around as [Hb Ha].
  intros [Hg|Hg]; split.
  - intros Hn. apply (name_lt_irrefl g). apply Hpre; [done|]. apply elem_of_app. by left.
  - intros ->. by apply (name_lt_irrefl seg), Hb.
  - intros Hn. apply (name_lt_irrefl g). by apply Hpost.
  - intros ->. by apply (name_lt_irrefl seg), Ha.
Qed.

(** The queue with the segment in place of the run is the same queue. *)
Lemma segment_pending k' sz b c :
  (∀ m, m ∉ names → m ≠ seg → data_of k' m = data_of (o_disk o) m) → data_of k' seg = records →
  pending_records k' (set_files q (pre ++ [{| name := seg; size := sz |}] ++ post) b c)
  = pending_records (o_disk o) q.
Proof.
  intros Hne Hseg. rewrite pending_app. simpl. rewrite Hseg, Hrecords.
  unfold pending_records. rewrite Hfiles, !map_app, !concat_app. f_equal; [|f_equal].
  - f_equal. apply map_ext_in. intros f Hf. apply Hne; apply others_apart; left;
      apply list_elem_of_fmap; exists f; (split; [done|]); by apply list_elem_of_In.
  - f_equal. apply map_ext_in. intros f Hf. apply Hne; apply others_apart; right;
      apply list_elem_of_fmap; exists f; (split; [done|]); by apply list_elem_of_In.
Qed.

(** Records that are pending stay on disk as long as the segment is there and
    only files of the run go. *)
Lemma segment_safe o' r :
  (∀ m, m ∉ names → m ≠ seg → data_of (o_disk o') m = data_of (o_disk o) m) →
  data_of (o_disk o') seg = records → (∀ x, settled o x → settled o' x) →
  safe o q r → safe_disk o' r.
Proof.
  intros Hne Hseg Hset [Hr|Hr]; [|right; auto]. left.
  unfold pending_records in Hr. rewrite Hfiles, !map_app, !concat_app, <-Hrecords in Hr.
  rewrite !elem_of_app in Hr. destruct Hr as [Hr|[Hr|Hr]]; [|exists seg; by rewrite Hseg|];
    (apply list_elem_of_In, in_concat in Hr as (l & Hl & Hr); apply in_map_iff in Hl as (f & <- & Hf);
     exists (name f); apply list_elem_of_In in Hr; rewrite Hne; [done| |]; apply others_apart).
  - left. apply list_elem_of_fmap. exists f. split; [done|]. by apply list_elem_of_In.
  - left. apply list_elem_of_fmap. exists f. split; [done|]. by apply list_elem_of_In.
  - right. apply list_elem_of_fmap. exists f. split; [done|]. by apply list_elem_of_In.
  - right. apply list_elem_of_fmap. exists f. split; [done|]. by apply list_elem_of_In.
Qed.

Definition seg_outside : Outside :=
  run o [ACreateTmp Main seg; ARename Main seg (segment_file records)].

Lemma seg_outside_ne m : m ≠ seg → data_of (o_disk seg_outside) m = data_of (o_disk o) m.
Proof. intros Hm. exact (data_of_put_ne _ _ _ _ Hm). Qed.

Lemma seg_outside_eq : data_of (o_disk seg_outside) seg = records.
Proof. exact (data_of_put _ _ _). Qed.

Lemma seg_outside_inv : Inv (o_disk seg_outside) q.
Proof.
  destruct Hinv as [H1 H2 H3 H4]. constructor; auto.
  - intros m [[x Hx]|Hm]; [|auto]. simpl in Hx. destruct (decide (m = seg)) as [->|Hne].
    + unfold seg, segment_name. simpl. apply H3. right. rewrite Hfiles, map_app, elem_of_app. right. by left.
    + rewrite lookup_insert_ne in Hx by done. apply H3. left. by eexists.
  - intros m x Hx. simpl in Hx. destruct (decide (m = seg)) as [->|Hne].
    + rewrite lookup_insert_eq in Hx. injection Hx as <-. by eexists.
    + rewrite lookup_insert_ne in Hx by done. eauto.
Qed.

(** Writing the segment without replacing the files yet. *)
Lemma seg_written_keeps : keeps o q [ACreateTmp Main seg; ARename Main seg (segment_file records)] q.
Proof.
  assert (∀ r, safe o q r → safe_disk seg_outside r) as Hd.
  { intros r. apply segment_safe; auto; [intros; by apply seg_outside_ne|apply seg_outside_eq]. }
  constructor; fold seg_outside.
  - apply seg_outside_inv.
  - intros r Hr. apply safe_safe_disk in Hr as Hr'. split; [done|]. split; [done|]. split; [|done].
    by apply Hd.
  - intros r [Hr|Hr]; [left|by right].
    unfold pending_records in *. apply list_elem_of_In, in_concat in Hr as (l & Hl & Hr).
    apply in_map_iff in Hl as (f & <- & Hf). apply list_elem_of_In, in_concat.
    exists (data_of (o_disk seg_outside) (name f)). split; [by apply in_map_iff; eauto|].
    destruct (decide (name f = seg)) as [Heq|Hne]; [|by rewrite seg_outside_ne].
    rewrite Heq, seg_outside_eq, Hrecords. apply in_concat.
    exists (data_of (o_disk o) (name f)). split; [|done]. apply in_map_iff. exists f. split; [done|].
    rewrite Hfiles in Hf. apply list_elem_of_In in Hf. apply list_elem_of_In.
    rewrite !elem_of_app in Hf. destruct Hf as [Hf|[Hf|Hf]]; [exfalso|done|exfalso];
      apply (others_apart (name f)); auto; [left|right]; apply list_elem_of_fmap; eauto.
  - split; [by destruct Hinv|]. split; [by destruct Hinv|]. split; [|done]. by destruct seg_outside_inv.
Qed.

(** Replacing the run in the list, then removing its files. *)
Lemma seg_replaced_keeps ok sz b c acts :
  acts = [ACreateTmp Main seg; ARename Main seg (segment_file records)]
         ++ removals seg ok 0 (f0 :: f1 :: rest) →
  b = total_size (pre ++ [{| name := seg; size := sz |}] ++ post) →
  let q' := set_files q (pre ++ [{| name := seg; size := sz |}] ++ post) b c in
  keeps o q acts q' ∧ pending_records (o_disk (run o acts)) q' = pending_records (o_disk o) q.
Proof.
  intros -> -> q'. rewrite run_app. fold seg_outside.
  assert (∀ j m, m ∉ names → m ≠ seg →
    data_of (o_disk (run seg_outside (removals seg ok 0 (take j (f0 :: f1 :: rest))))) m
    = data_of (o_disk o) m) as Hne.
  { intros j m Hm Hms. rewrite removals_data; [by apply seg_outside_ne|]. left. intros Hin. apply Hm.
    apply list_elem_of_fmap in Hin as (x & -> & Hx). apply list_elem_of_fmap. exists x. split; [done|].
    apply elem_of_take in Hx as (? & ? & _). by eapply list_elem_of_lookup_2. }
  assert (∀ j, data_of (o_disk (run seg_outside (removals seg ok 0 (take j (f0 :: f1 :: rest))))) seg
    = records) as Heq.
  { intros j. rewrite removals_data; [apply seg_outside_eq|by right]. }
  set (n := length (f0 :: f1 :: rest)).
  assert (take n (f0 :: f1 :: rest) = f0 :: f1 :: rest) as Htake by apply firstn_all.
  pose proof (Hne n) as Hne_n. pose proof (Heq n) as Heq_n. rewrite Htake in Hne_n, Heq_n.
  set (o' := run seg_outside _) in *.
  assert (pending_records (o_disk o') q' = pending_records (o_disk o) q) as Hp
    by by apply segment_pending.
  split; [|done]. destruct seg_written_keeps as [_ Hal _ Hrd]. fold seg_outside in Hal.
  constructor; rewrite ?run_app; fold seg_outside; fold o'.
  - destruct seg_outside_inv as [_ _ H3 H4]. destruct sorted_parts as (Hs1 & Hs2 & _ & Hpre & _).
    destruct seg_around as [Hb Ha].
    destruct (removals_other seg_outside seg ok 0 (f0 :: f1 :: rest)) as [_ Hm]. fold o' in Hm.
    constructor; simpl.
    + rewrite map_app. simpl. apply StronglySorted_app_2; auto.
      * intros x y Hx Hy. apply elem_of_cons in Hy as [->|Hy]; [by apply Hb|].
        apply Hpre; [done|]. apply elem_of_app. by right.
      * constructor; [done|]. by apply Forall_forall.
    + done.
    + intros m [[x Hx]|Hm']; [apply H3; left; eauto|].
      rewrite map_app in Hm'. simpl in Hm'. rewrite elem_of_app, elem_of_cons in Hm'.
      destruct Hm' as [Hm'|[->|Hm']]; [| |]; apply H3.
      * right. rewrite Hfiles, !map_app, !elem_of_app. by left.
      * left. simpl. rewrite lookup_insert_eq. by eexists.
      * right. rewrite Hfiles, !map_app, !elem_of_app. by right; right.
    + eauto.
  - intros r Hr. apply always_app. split; [by apply Hal|].
    apply removals_always. intros j _. apply segment_safe; auto.
    intros x Hx. by apply removals_other.
  - intros r [Hr|Hr]; [left; by rewrite Hp|right]. by apply removals_other.
  - apply always_app. split; [done|]. fold seg_outside. apply removals_always. intros j _ m x Hx.
    apply removals_other in Hx. by destruct seg_outside_inv; eauto.
Qed.

Lemma writeSegment_spec io acts q' r :
  writeSegment (o_disk o) q (f0 :: f1 :: rest) records io = (acts, q', r) →
  keeps o q acts q'
  ∧ (g_sync io = true →
     pending_records (o_disk (run o acts)) q' = pending_records (o_disk o) q)
  ∧ (is_ok r = true → ∃ s, files q' = pre ++ [s] ++ post).
Proof.
  unfold writeSegment. fold seg.
  destruct (writeSynced _ _ _ _ _) as [wacts ok] eqn:Hw. apply writeSynced_spec in Hw.
  destruct ok; simpl.
  2: { intros [= <- <- <-]. split_and!; [by apply keeps_quiet| |done].
       intros _. apply grows_pending. by apply quiet_run_grows. }
  subst wacts. destruct (g_sync io); simpl.
  2: { intros [= <- <- <-]. split_and!; [|done|done]. apply seg_written_keeps. }
  assert (index_of (name f0) (files q) = Some (length pre)) as ->.
  { rewrite Hfiles. apply (index_of_app pre f0 (f1 :: rest ++ post)). intros H.
    destruct (others_apart (name f0) (or_introl H)) as [Hn _]. apply Hn. left. }
  rewrite Hfiles, drop_app_length.
  replace (S (S (length rest))) with (length (f0 :: f1 :: rest)) by done.
  rewrite take_app_length, bool_decide_true by done. simpl negb. rewrite orb_false_r.
  case_if; [rewrite !length_app in *; simpl in *; lia|].
  rewrite take_app_length.
  replace (drop (length pre + length (f0 :: f1 :: rest)) (pre ++ (f0 :: f1 :: rest) ++ post)) with post.
  2: { rewrite app_assoc, <-length_app. by rewrite drop_app_length. }
  intros [= <- <- <-].
  edestruct seg_replaced_keeps as [Hk Hp]; [reflexivity| |].
  2: { split_and!; [exact Hk|intros _; exact Hp|]. intros _. by eexists. }
  rewrite (inv_bytes _ _ Hinv), Hfiles, !total_size_app. simpl. lia.
Qed.
End segment.

Lemma run_disk o acts : o_disk (run o acts) = foldl (λ k a, on_disk a k) (o_disk o) acts.
Proof. revert o. induction acts as [|a acts IH]; intros o; simpl; [done|]. by rewrite IH. Qed.

Lemma keeps_set_error o q acts q' e : keeps o q acts q' → keeps o q acts (set_error q' e).
Proof. intros [[] ? ? ?]. by constructor. Qed.

Lemma compact_from_spec fuel snapshot io : ∀ o q pre i acts q',
  Inv (o_disk o) q → files q = pre ++ drop i snapshot →
  compact_from fuel (o_disk o) q snapshot i io = (acts, q') →
  keeps o q acts q'
  ∧ ((∀ j s, io j = Some s → g_sync s = true) →
     pending_records (o_disk (run o acts)) q' = pending_records (o_disk o) q).
Proof.
  induction fuel as [|fuel IH]; intros o q pre i acts q' Hinv Hf; simpl.
  { intros [= <- <-]. split; [by apply keeps_quiet|done]. }
  case_if; [|intros [= <- <-]; split; [by apply keeps_quiet|done]].
  destruct (io i) as [s|] eqn:Hio; [|intros [= <- <-]; split; [by apply keeps_quiet|done]].
  destruct (collectRun _ _ _) as [run_ records] eqn:Hcol.
  apply collect_more_spec in Hcol as (taken & rest & Hdrop & Hrun & Hrec); [|done]. simpl in Hrun. subst taken.
  assert (∀ n, drop (i + n) snapshot = drop n (run_ ++ rest)) as Hd by (intros n; by rewrite <-drop_drop, Hdrop).
  case_if.
  - apply (IH _ _ (pre ++ take (Nat.max (length run_) 1) (run_ ++ rest))); [done|].
    by rewrite Hd, <-app_assoc, take_drop, <-Hdrop.
  - destruct run_ as [|f0 [|f1 run_]]; [simpl in *; lia..|].
    destruct (writeSegment _ _ _ _ _) as [[acts1 q1] r] eqn:Hws.
    rewrite Hdrop in Hf. apply (writeSegment_spec o q pre run_ rest f0 f1 records) in Hws as (Hk & Hp & Hfs);
      [|done|done|by apply Hrec; left].
    destruct r as [[]|e].
    2: { intros [= <- <-]. split; [by apply keeps_set_error|]. intros Hall.
         etrans; [|by apply Hp, (Hall i)]. done. }
    destruct (Hfs eq_refl) as [sg Hfs']. rewrite <-run_disk.
    destruct (compact_from _ _ _ _ _ _) as [acts2 q2] eqn:Hc. intros [= <- <-].
    apply (IH _ _ (pre ++ [sg])) in Hc as [Hk2 Hp2].
    + split; [by eapply keeps_app|]. intros Hall. rewrite run_app, Hp2 by done. by apply Hp, (Hall i).
    + by destruct Hk.
    + by rewrite Hfs', Hd, drop_app_length, <-app_assoc.
Qed.

Lemma compact_spec o q minFiles io acts q' :
  Inv (o_disk o) q → compact (o_disk o) q minFiles io = (acts, q') →
  keeps o q acts q'
  ∧ ((∀ j s, io j = Some s → g_sync s = true) →
     pending_records (o_disk (run o acts)) q' = pending_records (o_disk o) q).
Proof.
  intros Hinv. unfold compact. case_if.
  - intros [= <- <-]. split; [by apply keeps_quiet|done].
  - by apply (compact_from_spec _ _ _ _ _ []).
Qed.

(** The loop needs at most one round per file. *)
Lemma compact_fuel fuel fuel' k q snapshot i io :
  (length snapshot - i ≤ fuel)%nat → (fuel ≤ fuel')%nat →
  compact_from fuel' k q snapshot i io = compact_from fuel k q snapshot i io.
Proof.
  revert fuel' k q i. induction fuel as [|fuel IH]; intros fuel' k q i Hl Hf.
  { destruct fuel' as [|fuel']; [done|]. simpl. case_if; [lia|done]. }
  destruct fuel' as [|fuel']; [lia|]. simpl. case_if; [|done]. destruct (io i); [|done].
  destruct (collectRun _ _ _) as [run_ records]. case_if.
  - apply IH; lia.
  - destruct (writeSegment _ _ _ _ _) as [[acts1 q1] [[]|e]]; [|done]. rewrite (IH fuel'); [done|lia|lia].
Qed.
End ops.

(** ** Restarting *)

#[export] Instance file_le_trans : Transitive file_le.
Proof. intros a b c. unfold file_le, name_le. intuition lia. Qed.
#[export] Instance file_le_total : Total file_le.
Proof.
  intros a b. unfold file_le, name_le. destruct (n_gz (name a)), (n_gz (name b));
    destruct (Z.lt_trichotomy (n_seq (name a)) (n_seq (name b))) as [?|[?|?]]; intuition (try lia).
Qed.

Lemma total_size_perm a b : a ≡ₚ b → total_size a = total_size b.
Proof. induction 1; simpl; lia. Qed.

Lemma sort_strict l :
  NoDup (map name l) → StronglySorted file_le l → StronglySorted name_lt (map name l).
Proof.
  induction l as [|f l IH]; simpl; [constructor|]. intros Hn Hs.
  apply NoDup_cons in Hn as [Hf Hn]. apply StronglySorted_cons in Hs as [Ha Hs].
  constructor; [by apply IH|]. apply Forall_forall. intros x Hx.
  apply list_elem_of_fmap in Hx as (g & -> & Hg). rewrite Forall_forall in Ha.
  specialize (Ha g Hg). destruct Ha as [?|[He Hz]]; [by left|right]. split; [done|].
  destruct (name f) as [sf gf] eqn:Ef, (name g) as [sg gg] eqn:Eg. simpl in *. subst sg.
  assert (gf ≠ gg) as Hne; [|destruct gf, gg; intuition congruence].
  intros ->. apply Hf. apply list_elem_of_fmap. exists g. by rewrite Eg.
Qed.

Lemma scan_tmps_quiet o k d : quiet_run o (map (ARemoveTmp d) (elements (tmps k d))).
Proof. generalize (elements (tmps k d)). intros l. revert o. by induction l as [|x l IH]; simpl; auto. Qed.

Lemma foldr_max_bound (l : list spoolFile) s : s ≤ foldr (λ f acc, Z.max (n_seq (name f)) acc) s l.
Proof. induction l; simpl; lia. Qed.

Lemma foldr_max_elem (l : list spoolFile) s f :
  f ∈ l → n_seq (name f) ≤ foldr (λ f acc, Z.max (n_seq (name f)) acc) s l.
Proof. induction 1 as [|? ? ? ? IH]; simpl in *; lia. Qed.

(** A restart finds every file of the main directory, in order. *)
Lemma restart_spec o lim now acts q :
  readable o → NewDiskSpool (o_disk o) lim now = (acts, q) →
  Inv (o_disk (run o acts)) q
  ∧ (∀ r, safe_disk o r → safe (run o acts) q r)
  ∧ grows o (run o acts) ∧ always (grows o) o acts.
Proof.
  intros Hrd. unfold NewDiskSpool, scan. intros [= <- <-].
  set (acts := _ ++ _). set (entries := map entry (map_to_list (d_main (o_disk o)))).
  assert (quiet_run o acts) as Hq.
  { apply quiet_run_app; [exact (scan_tmps_quiet _ _ Main)|exact (scan_tmps_quiet _ _ Dead)]. }
  pose proof (quiet_run_grows _ _ Hq) as Hg.
  pose proof (merge_sort_Permutation file_le entries) as Hperm.
  assert (∀ n, n ∈ map name (merge_sort file_le entries) ↔ is_Some (d_main (o_disk o) !! n)) as Hin.
  { intros n. transitivity (n ∈ map name entries).
    - by rewrite (Permutation_map name Hperm).
    - unfold entries. rewrite map_map. rewrite list_elem_of_fmap. split.
      + intros ([n' f] & -> & Hm). apply elem_of_map_to_list in Hm. by eexists.
      + intros [f Hf]. exists (n, f). split; [done|]. by apply elem_of_map_to_list. }
  assert (NoDup (map name (merge_sort file_le entries))) as Hnd.
  { rewrite (Permutation_map name Hperm). unfold entries. rewrite map_map. apply NoDup_fst_map_to_list. }
  split_and!; [|intros r [[n Hn]|Hs]|done|by apply quiet_run_always].
  - apply (grows_inv _ _ _ Hg). constructor; simpl.
    + apply sort_strict; [done|]. apply (StronglySorted_merge_sort file_le).
    + symmetry. by apply total_size_perm.
    + intros n Hn. apply Z.le_trans with (foldr (λ f acc, Z.max (n_seq (name f)) acc) now entries);
        [|apply foldr_max_bound].
      assert (is_Some (d_main (o_disk o) !! n)) as [f Hf] by (destruct Hn as [?|?]; [done|by apply Hin]).
      apply (foldr_max_elem entries now {| name := n; size := blocks (f_size f) |}).
      unfold entries. apply list_elem_of_fmap. exists (n, f). split; [done|]. by apply elem_of_map_to_list.
    + done.
  - left. rewrite (grows_pending _ _ _ Hg). unfold pending_records. simpl.
    apply list_elem_of_In, in_concat. exists (data_of (o_disk o) n). split; [|by apply list_elem_of_In].
    assert (n ∈ map name (merge_sort file_le entries)) as Hm.
    { apply Hin. unfold data_of in Hn. destruct (d_main (o_disk o) !! n); [done|].
      by apply not_elem_of_nil in Hn. }
    apply list_elem_of_fmap in Hm as (f & -> & Hf). apply in_map_iff. exists f. split; [done|].
    by apply list_elem_of_In.
  - right. by eapply grows_settled.
Qed.

(** ** Runs with failures and crashes *)

Section runs.
Context {C : Codec}.

(** One operation of the writer or of the sender, with the records it
    accepted. *)
Inductive op (k : Disk) (q : DiskSpool) : list action → DiskSpool → list Raw → Prop :=
| op_write raws io acts q' r :
    write_batch k q raws io = (acts, q', r) → op k q acts q' (if is_ok r then raws else [])
| op_send n io acts q' r :
    head q = Some n → send k q n io = (acts, q', r) →
    op k q acts (match r with Ok _ => q' | Err e => set_error q' e end) []
| op_compact minFiles io acts q' : compact k q minFiles io = (acts, q') → op k q acts q' [].

(** A process starts on any readable directory, performs operations, and may
    stop after any action of one; another process then starts on what is
    there. *)
Inductive reach : Outside → DiskSpool → list Raw → Prop :=
| reach_boot o lim now acts q :
    readable o → NewDiskSpool (o_disk o) lim now = (acts, q) → reach (run o acts) q []
| reach_op o q acc acts q' new :
    reach o q acc → op (o_disk o) q acts q' new → reach (run o acts) q' (acc ++ new)
| reach_crash o q acc acts q' new p lim now acts' q'' :
    reach o q acc → op (o_disk o) q acts q' new → p `prefix_of` acts →
    NewDiskSpool (o_disk (run o p)) lim now = (acts', q'') →
    reach (run (run o p) acts') q'' acc.

Lemma write_batch_spec o q raws io acts q' r :
  Inv (o_disk o) q → write_batch (o_disk o) q raws io = (acts, q', r) →
  keeps o q acts q'
  ∧ pending_records (o_disk (run o acts)) q'
    = pending_records (o_disk o) q ++ (if is_ok r then raws else [])
  ∧ (is_ok r = true → bytes q' + deadBytes q' ≤ limit q').
Proof.
  intros Hinv. unfold write_batch. destruct (persist _ _ _ _) as [[acts1 q1] r1] eqn:Hp.
  apply persist_spec in Hp as (Hk & Hpd & Hl); [|done].
  destruct r1; intros [= <- <- <-]; [done|]. split_and!; [|done|done].
  destruct Hk as [[] ? ? ?]. by constructor.
Qed.

Lemma head_files q n : head q = Some n → ∃ f fs, files q = f :: fs ∧ name f = n.
Proof. unfold head. destruct (files q) as [|f fs]; [done|]. intros [= <-]. eauto. Qed.

Lemma op_keeps o q acts q' new :
  Inv (o_disk o) q → op (o_disk o) q acts q' new →
  keeps o q acts q' ∧ ∀ r, r ∈ new → r ∈ pending_records (o_disk (run o acts)) q'.
Proof.
  intros Hinv [raws io acts1 q1 r Hw|n io acts1 q1 r Hh Hs|m io acts1 q1 Hc].
  - apply write_batch_spec in Hw as (Hk & Hp & _); [|done]. split; [done|].
    intros x Hx. rewrite Hp. apply elem_of_app. by right.
  - apply head_files in Hh as (f & fs & Hf & <-). apply (send_spec _ _ f fs) in Hs as [Hk _]; [|done|done].
    split; [|intros x Hx; by apply not_elem_of_nil in Hx]. destruct r; [done|by apply keeps_set_error].
  - apply compact_spec in Hc as [Hk _]; [|done]. split; [done|].
    intros x Hx. by apply not_elem_of_nil in Hx.
Qed.

Lemma reach_safe o q acc :
  reach o q acc → Inv (o_disk o) q ∧ ∀ r, r ∈ acc → safe o q r.
Proof.
  induction 1 as [o lim now acts q Hrd Hn|o q acc acts q' new _ [Hinv IH] Hop
    |o q acc acts q' new p lim now acts' q'' _ [Hinv IH] Hop Hp Hn].
  - apply restart_spec in Hn as (Hi & _); [|done]. split; [done|]. intros r Hr. by apply not_elem_of_nil in Hr.
  - apply op_keeps in Hop as [[Hi _ Ha _] Hnew]; [|done]. split; [done|].
    intros r Hr. apply elem_of_app in Hr as [Hr|Hr]; [auto|left; auto].
  - apply op_keeps in Hop as [[_ Hal _ Hrd] _]; [|done].
    apply restart_spec in Hn as (Hi & Hs & _); [|by eapply (always_prefix readable)].
    split; [done|]. intros r Hr. apply Hs. eapply (always_prefix (λ o', safe_disk o' r)); eauto.
Qed.

(** C5: no accepted record is lost, whatever I/O calls fail and wherever the
    process crashes: in every reachable state an accepted record is pending in
    a spool file, in a quarantine file, delivered, or one of the rejected
    records the quarantine skipped over; and the same holds on disk after any
    prefix of the actions of any further operation. *)
Theorem spool_never_loses o q acc r :
  reach o q acc → r ∈ acc →
  safe o q r
  ∧ ∀ acts q' new p, op (o_disk o) q acts q' new → p `prefix_of` acts → safe_disk (run o p) r.
Proof.
  intros Hr Hin. apply reach_safe in Hr as [Hinv Hs]. split; [auto|].
  intros acts q' new p Hop Hp. apply op_keeps in Hop as [[_ Hal _ _] _]; [|done].
  eapply (always_prefix (λ o', safe_disk o' r)); eauto.
Qed.

(** C6: the spool refines a first-in first-out queue of records: a successful
    write appends its batch and a failed one changes nothing; sending either
    leaves the queue as it is or takes the records of the first file off its
    front; and compaction leaves the queue exactly as it is provided every
    directory sync it makes succeeds (a failed sync can leave a merged run in
    the queue twice). *)
Theorem spool_is_queue o q acc :
  reach o q acc →
  (∀ raws io acts q' r, write_batch (o_disk o) q raws io = (acts, q', r) →
     pending_records (o_disk (run o acts)) q'
     = pending_records (o_disk o) q ++ (if is_ok r then raws else []))
  ∧ (∀ n io acts q' r, head q = Some n → send (o_disk o) q n io = (acts, q', r) →
     ∃ rest, pending_records (o_disk o) q = data_of (o_disk o) n ++ rest
       ∧ pending_records (o_disk (run o acts)) q'
         = if is_ok r then rest else pending_records (o_disk o) q)
  ∧ (∀ m io acts q', compact (o_disk o) q m io = (acts, q') →
     (∀ j s, io j = Some s → g_sync s = true) →
     pending_records (o_disk (run o acts)) q' = pending_records (o_disk o) q).
Proof.
  intros Hr. apply reach_safe in Hr as [Hinv _]. split_and!.
  - intros raws io acts q' r Hw. by apply write_batch_spec in Hw as (_ & Hp & _).
  - intros n io acts q' r Hh Hs. apply head_files in Hh as (f & fs & Hf & <-).
    eexists. split; [by apply pending_cons|]. by apply (send_spec _ _ f fs) in Hs as [_ Hp].
  - intros m io acts q' Hc Hall. apply compact_spec in Hc as [_ Hp]; auto.
Qed.

(** The size account is exact and the capacity is respected: the byte
    count is the sum of the sizes of the pending files, in strictly ascending
    name order, and a write that succeeds leaves pending and quarantined bytes
    within the limit. *)
Theorem spool_accounting o q acc :
  reach o q acc →
  bytes q = total_size (files q) ∧ StronglySorted name_lt (map name (files q))
  ∧ ∀ raws io acts q' r, write_batch (o_disk o) q raws io = (acts, q', r) → is_ok r = true →
      bytes q' + deadBytes q' ≤ limit q'.
Proof.
  intros Hr. apply reach_safe in Hr as [Hinv _]. split_and!; [by destruct Hinv..|].
  intros raws io acts q' r Hw. by apply write_batch_spec in Hw as (_ & _ & Hl).
Qed.
End runs.

(** ** Building runs *)

Lemma reach_write `{Codec} o q acc raws io :
  let w := write_batch (o_disk o) q raws io in
  reach o q acc → reach (run o w.1.1) w.1.2 (acc ++ if is_ok w.2 then raws else []).
Proof.
  intros w Hr. eapply reach_op; [done|]. apply (op_write _ _ _ io w.1.1 w.1.2). by rewrite <-!surjective_pairing.
Qed.

Lemma reach_send `{Codec} o q acc n io :
  let w := send (o_disk o) q n io in
  reach o q acc → head q = Some n →
  reach (run o w.1.1) (match w.2 with Ok _ => w.1.2 | Err e => set_error w.1.2 e end) (acc ++ []).
Proof.
  intros w Hr Hh. eapply reach_op; [done|]. apply (op_send _ _ n io w.1.1 w.1.2); [done|].
  by rewrite <-!surjective_pairing.
Qed.

Lemma reach_compact `{Codec} o q acc m io :
  let w := compact (o_disk o) q m io in
  reach o q acc → reach (run o w.1) w.2 (acc ++ []).
Proof.
  intros w Hr. eapply reach_op; [done|]. apply (op_compact _ _ m io w.1). by rewrite <-!surjective_pairing.
Qed.

(** ** A concrete spool *)

Definition text_len (rs : list Raw) : Z := 2 + Z.of_nat (foldr (λ r n, String.length r + n)%nat 0%nat rs).
Definition text_codec : Codec.
Proof. refine {| json_len := text_len; gzip_len := text_len |}; intros rs; unfold text_len; lia. Defined.

Definition empty_disk : Disk := {| d_main := ∅; d_dead := ∅; d_tmp := ∅; d_deadtmp := ∅ |}.
Definition empty_outside : Outside := {| o_disk := empty_disk; o_delivered := []; o_skipped := [] |}.
Definition good_write : WriteIO := {| open_ok := true; write_ok := true; rename_ok := true; remove_ok := true |}.
Definition boot_spool : DiskSpool := (NewDiskSpool empty_disk 100000 7).2.
Definition good_persist : PersistIO := {| p_write := good_write; p_sync := true |}.

Lemma reach_boot_spool : @reach text_codec empty_outside boot_spool [].
Proof. apply (reach_boot empty_outside 100000 7 [] boot_spool); [intros n f H; discriminate H|reflexivity]. Defined.

Definition written (o : Outside) (q : DiskSpool) (raws : list Raw) : Outside * DiskSpool :=
  let w := @write_batch text_codec (o_disk o) q raws good_persist in (run o w.1.1, w.1.2).

Definition one_file : Outside * DiskSpool := written empty_outside boot_spool ["bad1"%string].

Lemma reach_one_file : @reach text_codec one_file.1 one_file.2 ["bad1"%string].
Proof.
  exact (reach_write empty_outside boot_spool [] ["bad1"%string] good_persist reach_boot_spool).
Defined.

Lemma spool_never_loses_witness : safe one_file.1 one_file.2 "bad1"%string.
Proof.
  exact (proj1 (@spool_never_loses text_codec one_file.1 one_file.2 ["bad1"%string] "bad1"%string
                  reach_one_file ltac:(left))).
Defined.

Lemma spool_is_queue_witness :
  pending_records (o_disk (written one_file.1 one_file.2 ["bad2"%string]).1)
    (written one_file.1 one_file.2 ["bad2"%string]).2
  = ["bad1"; "bad2"]%string.
Proof.
  exact (proj1 (@spool_is_queue text_codec one_file.1 one_file.2 ["bad1"%string] reach_one_file)
           ["bad2"%string] good_persist _ _ (Ok tt) ltac:(vm_compute; reflexivity)).
Defined.

Lemma spool_accounting_witness : bytes one_file.2 = total_size (files one_file.2).
Proof.
  exact (proj1 (@spool_accounting text_codec one_file.1 one_file.2 ["bad1"%string] reach_one_file)).
Defined.

(** ** Rejected records the quarantine passes over *)

(** A sender whose receiver rejects everything; [rm] says whether removing the
    sent file succeeds. *)
Definition rejecting (rm : bool) : SendIO :=
  {| s_read := true; s_deliver := DRejected; s_single := λ _, DRejected; s_dead := good_write;
     s_deadsync := true; s_move := true; s_remove := rm; s_sync := true |}.

Definition good_segment : SegIO :=
  {| g_read := λ _, true; g_write := good_write; g_sync := true; g_remove := λ _, true; g_sync2 := true |}.

Definition two_files := written one_file.1 one_file.2 ["bad2"%string].

Definition name8 (gz : bool) : Name := {| n_seq := 8; n_gz := gz |}.
Definition first_send := @send text_codec (o_disk two_files.1) two_files.2 (name8 false) (rejecting false).
Definition sent_o : Outside := run two_files.1 first_send.1.1.
Definition sent_q : DiskSpool :=
  match first_send.2 with Ok _ => first_send.1.2 | Err e => set_error first_send.1.2 e end.

Definition merging := @compact text_codec (o_disk sent_o) sent_q 2 (λ _, Some good_segment).
Definition merged_o : Outside := run sent_o merging.1.
Definition merged_q : DiskSpool := merging.2.

Definition second_send := @send text_codec (o_disk merged_o) merged_q (name8 true) (rejecting true).
Definition final_o : Outside := run merged_o second_send.1.1.
Definition final_q : DiskSpool :=
  match second_send.2 with Ok _ => second_send.1.2 | Err e => set_error second_send.1.2 e end.

Lemma reach_final : @reach text_codec final_o final_q ["bad1"; "bad2"]%string.
Proof.
  assert (@reach text_codec two_files.1 two_files.2 ["bad1"; "bad2"]%string) as H2
    by exact (reach_write one_file.1 one_file.2 _ ["bad2"%string] good_persist reach_one_file).
  assert (@reach text_codec sent_o sent_q ["bad1"; "bad2"]%string) as H3.
  { refine (reach_send two_files.1 two_files.2 _ (name8 false) (rejecting false) H2 _).
    vm_compute. reflexivity. }
  assert (@reach text_codec merged_o merged_q ["bad1"; "bad2"]%string) as H4
    by exact (reach_compact sent_o sent_q _ 2 (λ _, Some good_segment) H3).
  refine (reach_send merged_o merged_q _ (name8 true) (rejecting true) H4 _).
  vm_compute. reflexivity.
Qed.

(** The exception in [spool_never_loses] is real: after a rejected file was quarantined
    but not removed, a compaction can merge it with the next one under a name
    whose quarantine file already exists; the rejected records of the merged
    file are then removed without being kept anywhere. *)
Theorem quarantine_skip_loses :
  ∃ o q, @reach text_codec o q ["bad1"; "bad2"]%string
    ∧ (∀ n, ("bad2"%string) ∉ data_of (o_disk o) n)
    ∧ ¬ in_dead (o_disk o) "bad2"%string ∧ ("bad2"%string) ∉ o_delivered o.
Proof.
  exists final_o, final_q. split; [exact reach_final|]. split_and!.
  - assert (d_main (o_disk final_o) = ∅) as Hm by (vm_compute; reflexivity).
    intros n. unfold data_of. rewrite Hm, lookup_empty. apply not_elem_of_nil.
  - assert (d_dead (o_disk final_o)
            = {[ {| n_seq := 8; n_gz := false |} := @plain_file text_codec ["bad1"%string] ]}) as Hd
      by (vm_compute; reflexivity).
    intros (n & f & rs & Hn & Hf & Hr). rewrite Hd in Hn. apply lookup_singleton_Some in Hn as [_ <-].
    injection Hf as <-. apply list_elem_of_singleton in Hr. discriminate Hr.
  - assert (o_delivered final_o = []) as -> by (vm_compute; reflexivity). apply not_elem_of_nil.
Qed.
