(* ===== verification/PushQueue.v ===== *)
(** * pkg/alerts/queue.go: the bounded push queue

    Producers, the delivery worker ([loop], [deliverWithRetry]) and the
    fallback worker ([dropLoop]) share two channels. Each step of one of them
    is a function of the shared state; where the code waits on several
    channels, the alternative taken is an argument and the step is defined
    only when it is ready. Sending on a closed channel sets [panicked]. *)

From stdpp Require Import base list list_tactics.
From S2P Require Import Prelude.
Local Open Scope Z_scope.
Local Open Scope list_scope.

Inductive DeliveryResult := DeliveryOK | DeliveryRetry | DeliveryPermanent.

(** What the delivery worker is doing: waiting for an item; in a call of
    [deliver] or the pause after one, on its [attempt]-th try; finished. *)
Inductive worker (T : Type) :=
| Idle
| Delivering (batch : list T) (attempt : Z) (backoff : Duration)
| Waiting (batch : list T) (attempt : Z) (backoff : Duration)
| Finished.
Arguments Idle {T}.
Arguments Delivering {T} batch attempt backoff.
Arguments Waiting {T} batch attempt backoff.
Arguments Finished {T}.

Record Config := {
  capacity : nat;
  maxBatch : nat;
  attempts : Z;
  backoff0 : Duration;
}.

Definition fallbackCap (c : Config) : nat :=
  if (capacity c / 4 <? 64)%nat then 64 else (capacity c / 4)%nat.

Section queue.
Context {T : Type}.

(** [delivered], [fallback] and [gone] hold the items that went to the
    receiver, to the drop handler and nowhere. *)
Record PushQueue := {
  ch : list T;
  dropCh : list T;
  closed : bool;
  dropClosed : bool;
  stopped : bool;
  onDrop : bool;
  spill : bool;
  work : worker T;
  dropDone : bool;
  dropped : Z;
  lost : Z;
  panicked : bool;
  delivered : list T;
  fallback : list T;
  gone : list T;
}.

Definition NewPushQueue : PushQueue :=
  {| ch := []; dropCh := []; closed := false; dropClosed := false; stopped := false; onDrop := false;
     spill := false; work := Idle; dropDone := false; dropped := 0; lost := 0; panicked := false;
     delivered := []; fallback := []; gone := [] |}.

(** ** Updates *)

Definition set_channels (q : PushQueue) (c d : list T) (p : bool) : PushQueue :=
  {| ch := c; dropCh := d; closed := closed q; dropClosed := dropClosed q; stopped := stopped q;
     onDrop := onDrop q; spill := spill q; work := work q; dropDone := dropDone q; dropped := dropped q;
     lost := lost q; panicked := panicked q || p; delivered := delivered q; fallback := fallback q;
     gone := gone q |}.

Definition set_flags (q : PushQueue) (cl dcl st od sp dd : bool) : PushQueue :=
  {| ch := ch q; dropCh := dropCh q; closed := cl; dropClosed := dcl; stopped := st;
     onDrop := od; spill := sp; work := work q; dropDone := dd; dropped := dropped q;
     lost := lost q; panicked := panicked q; delivered := delivered q; fallback := fallback q;
     gone := gone q |}.

Definition set_work (q : PushQueue) (w : worker T) (del : list T) : PushQueue :=
  {| ch := ch q; dropCh := dropCh q; closed := closed q; dropClosed := dropClosed q; stopped := stopped q;
     onDrop := onDrop q; spill := spill q; work := w; dropDone := dropDone q; dropped := dropped q;
     lost := lost q; panicked := panicked q; delivered := delivered q ++ del; fallback := fallback q;
     gone := gone q |}.

Definition add_dropped (q : PushQueue) (n : Z) : PushQueue :=
  {| ch := ch q; dropCh := dropCh q; closed := closed q; dropClosed := dropClosed q; stopped := stopped q;
     onDrop := onDrop q; spill := spill q; work := work q; dropDone := dropDone q; dropped := dropped q + n;
     lost := lost q; panicked := panicked q; delivered := delivered q; fallback := fallback q;
     gone := gone q |}.

(** [q.lost.Add(len(items))]: the items are gone. *)
Definition lose (q : PushQueue) (items : list T) : PushQueue :=
  {| ch := ch q; dropCh := dropCh q; closed := closed q; dropClosed := dropClosed q; stopped := stopped q;
     onDrop := onDrop q; spill := spill q; work := work q; dropDone := dropDone q; dropped := dropped q;
     lost := lost q + Z.of_nat (length items); panicked := panicked q; delivered := delivered q;
     fallback := fallback q; gone := gone q ++ items |}.

Definition hand_over (q : PushQueue) (items : list T) : PushQueue :=
  {| ch := ch q; dropCh := dropCh q; closed := closed q; dropClosed := dropClosed q; stopped := stopped q;
     onDrop := onDrop q; spill := spill q; work := work q; dropDone := dropDone q; dropped := dropped q;
     lost := lost q; panicked := panicked q; delivered := delivered q;
     fallback := fallback q ++ items; gone := gone q |}.

(** [q.ch <- item] and [q.dropCh <- item] where there is room. *)
Definition send_ch (q : PushQueue) (item : T) : PushQueue :=
  set_channels q (snoc (ch q) item) (dropCh q) (closed q).
Definition send_drop (q : PushQueue) (item : T) : PushQueue :=
  set_channels q (ch q) (snoc (dropCh q) item) (dropClosed q).

Section config.
Variable cfg : Config.

Definition room (q : PushQueue) : bool := (length (ch q) <? capacity cfg)%nat.
Definition drop_room (q : PushQueue) : bool := (length (dropCh q) <? fallbackCap cfg)%nat.

(** ** Producers *)

Definition OnDrop (q : PushQueue) (handler : bool) : PushQueue :=
  set_flags q (closed q) (dropClosed q) (stopped q) handler (spill q) (dropDone q).
Definition SpillWhenFull (q : PushQueue) : PushQueue :=
  set_flags q (closed q) (dropClosed q) (stopped q) (onDrop q) true (dropDone q).

Definition handoffLocked (q : PushQueue) (item : T) : PushQueue :=
  if negb (onDrop q) || dropClosed q then lose q [item]
  else if drop_room q then send_drop q item
  else lose q [item].

(** The alternatives of the waiting select of [Push]. *)
Inductive choice := ToQueue | ToSpill | OnStop.

(** [Push]; [None] when the chosen alternative is not ready (the caller
    waits). *)
Definition Push (q : PushQueue) (item : T) (how : choice) : option PushQueue :=
  if closed q then Some (handoffLocked (add_dropped q 1) item)
  else if room q then Some (send_ch q item)
  else match how with
       | ToQueue => None
       | ToSpill => if spill q && onDrop q && drop_room q then Some (send_drop (add_dropped q 1) item) else None
       | OnStop => if stopped q then Some (handoffLocked (add_dropped q 1) item) else None
       end.

(** [TryPush]; [locked] says that another producer holds the lock. *)
Definition TryPush (q : PushQueue) (item : T) (locked : bool) : PushQueue * bool :=
  if locked || closed q || negb (room q) then (add_dropped (lose q [item]) 1, false)
  else (send_ch q item, true).

(** ** The delivery worker *)

Definition fanOutDrop (q : PushQueue) (batch : list T) : PushQueue :=
  if (length batch =? 0)%nat then q
  else if onDrop q then hand_over q batch else lose q batch.

(** The batch goes to the fallback and the worker is ready again. *)
Definition to_fallback (q : PushQueue) (batch : list T) : PushQueue :=
  fanOutDrop (set_work (add_dropped q (Z.of_nat (length batch))) Idle []) batch.

(** One round of [loop] up to the call of [deliver]. *)
Definition loop_step (q : PushQueue) : option PushQueue :=
  match work q, ch q with
  | Idle, [] => if closed q then Some (set_work q Finished []) else None
  | Idle, items =>
      if stopped q then
        let leftover := items in
        let q := set_channels q [] (dropCh q) false in
        Some (fanOutDrop (set_work (add_dropped q (Z.of_nat (length leftover))) Finished []) leftover)
      else
        let n := Nat.max 1 (maxBatch cfg) in
        let q' := set_channels q (drop n items) (dropCh q) false in
        Some (set_work q' (Delivering (take n items) 1 (backoff0 cfg)) [])
  | _, _ => None
  end.

(** The result of a call of [deliver]. *)
Definition deliver_step (q : PushQueue) (res : DeliveryResult) : option PushQueue :=
  match work q with
  | Delivering batch attempt backoff =>
      match res with
      | DeliveryOK => Some (set_work q Idle batch)
      | DeliveryPermanent => Some (to_fallback q batch)
      | DeliveryRetry =>
          if attempts cfg <=? attempt then Some (to_fallback q batch)
          else Some (set_work q (Waiting batch attempt backoff) [])
      end
  | _ => None
  end.

(** The pause before the next attempt ends, or the queue is stopped. *)
Definition backoff_step (q : PushQueue) (stop : bool) : option PushQueue :=
  match work q with
  | Waiting batch attempt backoff =>
      if stop then if stopped q then Some (to_fallback q batch) else None
      else Some (set_work q (Delivering batch (attempt + 1) (backoff * 2)) [])
  | _ => None
  end.

(** ** The fallback worker *)

Definition drop_step (q : PushQueue) : option PushQueue :=
  if dropDone q then None
  else match dropCh q with
       | [] => if dropClosed q
               then Some (set_flags q (closed q) (dropClosed q) (stopped q) (onDrop q) (spill q) true)
               else None
       | items =>
           let n := Nat.max 1 (maxBatch cfg) in
           Some (fanOutDrop (set_channels q (ch q) (drop n items) false) (take n items))
       end.

(** ** Closing *)

(** [Close] closes the channel, stops the queue when the drain time is over or
    the worker is done, and then closes the fallback channel. *)
Definition close_ch (q : PushQueue) : PushQueue :=
  set_flags q true (dropClosed q) (stopped q) (onDrop q) (spill q) (dropDone q).
Definition stop (q : PushQueue) : option PushQueue :=
  if closed q then Some (set_flags q (closed q) (dropClosed q) true (onDrop q) (spill q) (dropDone q))
  else None.
Definition finished (q : PushQueue) : bool := match work q with Finished => true | _ => false end.
Definition close_drop (q : PushQueue) : option PushQueue :=
  if closed q && finished q
  then Some (set_flags q (closed q) true (stopped q) (onDrop q) (spill q) (dropDone q))
  else None.

(** ** Runs *)

(** [reach q pushed]: the state after pushing the items [pushed]. *)
Inductive reach : PushQueue → list T → Prop :=
| r_new : reach NewPushQueue []
| r_handler q xs b : reach q xs → reach (OnDrop q b) xs
| r_spill q xs : reach q xs → reach (SpillWhenFull q) xs
| r_push q xs x how q' : reach q xs → Push q x how = Some q' → reach q' (snoc xs x)
| r_trypush q xs x locked : reach q xs → reach (TryPush q x locked).1 (snoc xs x)
| r_loop q xs q' : reach q xs → loop_step q = Some q' → reach q' xs
| r_deliver q xs res q' : reach q xs → deliver_step q res = Some q' → reach q' xs
| r_backoff q xs b q' : reach q xs → backoff_step q b = Some q' → reach q' xs
| r_drop q xs q' : reach q xs → drop_step q = Some q' → reach q' xs
| r_close q xs : reach q xs → reach (close_ch q) xs
| r_stop q xs q' : reach q xs → stop q = Some q' → reach q' xs
| r_close_drop q xs q' : reach q xs → close_drop q = Some q' → reach q' xs.

Definition inflight (q : PushQueue) : list T :=
  match work q with Delivering b _ _ | Waiting b _ _ => b | _ => [] end.

Definition try_number (q : PushQueue) : option (Z * Duration) :=
  match work q with Delivering _ n b | Waiting _ n b => Some (n, b) | _ => None end.

Record inv (q : PushQueue) (xs : list T) : Prop := {
  i_items : xs ≡ₚ ch q ++ dropCh q ++ inflight q ++ delivered q ++ fallback q ++ gone q;
  i_lost : lost q = Z.of_nat (length (gone q));
  i_ch : (length (ch q) ≤ capacity cfg)%nat;
  i_drop : (length (dropCh q) ≤ fallbackCap cfg)%nat;
  i_batch : (length (inflight q) ≤ Nat.max 1 (maxBatch cfg))%nat;
  i_try : ∀ n b, try_number q = Some (n, b) →
            1 ≤ n ≤ Z.max 1 (attempts cfg) ∧ b = backoff0 cfg * 2 ^ (n - 1);
  i_wait : ∀ b n d, work q = Waiting b n d → n < attempts cfg;
  i_finished : finished q = true → closed q = true ∧ ch q = [];
  i_dropClosed : dropClosed q = true → closed q = true ∧ finished q = true;
  i_dropDone : dropDone q = true → dropClosed q = true ∧ dropCh q = [];
  i_stopped : stopped q = true → closed q = true;
  i_panic : panicked q = false;
}.
End config.
End queue.
Arguments PushQueue : clear implicits.

(** * No item of the push queue goes missing

    The invariant of the queue over every interleaving of producers, workers
    and shutdown, and what follows from it. *)



Section props.
Context {T : Type} (cfg : Config).
Implicit Types q : PushQueue T.
Local Abbreviation inv := (inv cfg).

(** Rewrite with the item balance and rearrange. *)
Ltac balance :=
  match goal with
  | H : ?xs ≡ₚ _ |- context [?xs] =>
      unfold snoc; rewrite H; clear; simpl; rewrite ?app_nil_r; solve_Permutation
  end.

(** Discharge a field of the invariant that the step does not touch, or
    touches by the length of a channel only. *)
Ltac open_inv :=
  intros [Hitems Hlost Hch Hdrop Hbatch Htry Hwait Hfin Hdcl Hddone Hstop Hpan].

Ltac field :=
  simpl in *; unfold snoc in *; rewrite ?length_app, ?length_take, ?length_drop; simpl;
  first [ assumption | lia | congruence | balance
        | apply orb_false_iff; split; congruence
        | (intros; split; congruence || lia)
        | (let H := fresh in intros H;
           match goal with F : _ = true → _ ∧ _ |- _ => apply F in H; destruct H; try split; congruence end)
        | (unfold try_number, finished; simpl; intros; (discriminate || (split; congruence)))
        | idtac ].

Lemma fallbackCap_pos : (64 ≤ fallbackCap cfg)%nat.
Proof. unfold fallbackCap. case_if; lia. Qed.

Lemma inv_handoff q xs x : inv q xs → inv (handoffLocked cfg (add_dropped q 1) x) (snoc xs x).
Proof. open_inv. unfold handoffLocked, drop_room. simpl. repeat case_if; constructor; field. Qed.

(** An open queue has an open fallback channel and live workers. *)
Lemma open_queue q xs : inv q xs → closed q = false →
  dropClosed q = false ∧ dropDone q = false ∧ finished q = false.
Proof.
  open_inv. intros Hc. destruct (dropClosed q) eqn:E; [destruct Hdcl; congruence|].
  destruct (dropDone q) eqn:E2; [destruct Hddone; congruence|].
  destruct (finished q) eqn:E3; [destruct Hfin; congruence|]. done.
Qed.

Lemma inv_push q xs x how q' : inv q xs → Push cfg q x how = Some q' → inv q' (snoc xs x).
Proof.
  intros Hi. pose proof (inv_handoff q xs x Hi) as Hh. unfold Push.
  destruct (closed q) eqn:Hc; [by intros [= <-]|]. unfold room, drop_room. case_if.
  { intros [= <-]. revert Hi; open_inv. constructor; field. }
  destruct how; [done| |].
  - destruct (spill q && onDrop q && _) eqn:Hs; [|done]. intros [= <-]. bool_hyps.
    destruct (open_queue q xs Hi Hc) as (Hdc & Hdd & Hf). revert Hi; open_inv. constructor; field.
  - destruct (stopped q); [|done]. by intros [= <-].
Qed.

Lemma inv_trypush q xs x locked : inv q xs → inv (TryPush cfg q x locked).1 (snoc xs x).
Proof.
  open_inv. unfold TryPush. case_if; simpl; [constructor; field|]. unfold room in *.
  bool_hyps. constructor; field.
Qed.

(** Handing a batch the worker holds to the fallback. *)
Lemma inv_fanout q xs w b : inv q xs → inflight q = b → work q ≠ Finished →
  (w = Idle ∨ (w = Finished ∧ closed q = true ∧ ch q = [])) →
  inv (fanOutDrop (set_work (add_dropped q (Z.of_nat (length b))) w []) b) xs.
Proof.
  open_inv. intros Hb Hw Hcase. assert (finished q = false) as Hf by (unfold finished; by destruct (work q)).
  assert (dropClosed q = false) as Hdc by (destruct (dropClosed q) eqn:E; [destruct Hdcl; congruence|done]).
  assert (dropDone q = false) as Hdd by (destruct (dropDone q) eqn:E; [destruct Hddone; congruence|done]).
  rewrite Hb in *. unfold fanOutDrop.
  destruct Hcase as [->|(-> & Hcl & Hempty)], b as [|y b]; simpl; repeat case_if; constructor; field.
Qed.

Lemma inv_to_fallback q xs b : inv q xs → inflight q = b → work q ≠ Finished → inv (to_fallback q b) xs.
Proof. intros. apply inv_fanout; auto. Qed.

Lemma inv_loop q xs q' : inv q xs → loop_step cfg q = Some q' → inv q' xs.
Proof.
  open_inv. unfold loop_step. destruct (work q) eqn:Hw; try done.
  assert (inflight q = [] ∧ finished q = false) as [Hin Hf] by (unfold inflight, finished; by rewrite Hw).
  assert (dropClosed q = false) as Hdc by (destruct (dropClosed q) eqn:E; [destruct Hdcl; congruence|done]).
  assert (dropDone q = false) as Hdd by (destruct (dropDone q) eqn:E; [destruct Hddone; congruence|done]).
  rewrite Hin in *. simpl in Hitems.
  destruct (ch q) as [|x items] eqn:Hc.
  { destruct (closed q) eqn:Hcl; [|done]. intros [= <-]. constructor; simpl; rewrite ?Hc; field. }
  destruct (stopped q) eqn:Hst.
  - intros [= <-]. unfold fanOutDrop. simpl length. simpl onDrop.
    assert (closed q = true) as Hcl by auto.
    repeat case_if; constructor; field.
  - intros [= <-]. constructor; simpl; auto; try done.
    + rewrite Hitems. rewrite app_nil_r. rewrite <-(take_drop (Nat.max 1 (maxBatch cfg)) (x :: items)) at 1.
      solve_Permutation.
    + rewrite length_drop. simpl in *. lia.
    + unfold inflight. simpl work. cbn iota. rewrite length_take. lia.
    + intros n b [= <- <-]. simpl. lia.
    + intros Hx. apply Hdcl in Hx. destruct Hx. congruence.
    + intros Hx. congruence.
    + by rewrite Hpan.
Qed.

Lemma inv_deliver q xs res q' : inv q xs → deliver_step cfg q res = Some q' → inv q' xs.
Proof.
  intros Hi. unfold deliver_step. destruct (work q) as [|b n d| |] eqn:Hw; try done.
  assert (inflight q = b ∧ finished q = false ∧ try_number q = Some (n, d)) as (Hin & Hf & Ht)
    by (unfold inflight, finished, try_number; by rewrite Hw).
  assert (inv (to_fallback q b) xs) as Hg by (apply inv_to_fallback; [done|done|by rewrite Hw]).
  destruct res; [| |by intros [= <-]].
  - intros [= <-]. revert Hi. open_inv. rewrite Hin in *. constructor; field.
  - case_if; [by intros [= <-]|]. intros [= <-]. revert Hi. open_inv. rewrite Hin in *. constructor; field.
    intros n' d' [= <- <-]. by apply Htry.
Qed.

Lemma inv_backoff q xs b q' : inv q xs → backoff_step q b = Some q' → inv q' xs.
Proof.
  intros Hi. unfold backoff_step. destruct (work q) as [| |bt n d|] eqn:Hw; try done.
  assert (inflight q = bt ∧ finished q = false ∧ try_number q = Some (n, d)) as (Hin & Hf & Ht)
    by (unfold inflight, finished, try_number; by rewrite Hw).
  destruct b.
  - destruct (stopped q); [|done]. intros [= <-]. apply inv_to_fallback; [done|done|by rewrite Hw].
  - intros [= <-]. revert Hi. open_inv. rewrite Hin in *. specialize (Hwait _ _ _ Hw).
    destruct (Htry _ _ Ht) as [Hn ->]. constructor; field.
    intros n' d' [= <- <-]. split; [lia|]. replace (n + 1 - 1) with (Z.succ (n - 1)) by lia.
    rewrite Z.pow_succ_r by lia. lia.
Qed.

Lemma inv_drop q xs q' : inv q xs → drop_step cfg q = Some q' → inv q' xs.
Proof.
  open_inv. unfold drop_step. destruct (dropDone q) eqn:Hdd; [done|].
  destruct (dropCh q) as [|x items] eqn:Hc.
  - destruct (dropClosed q) eqn:Hdc; [|done]. intros [= <-]. constructor; simpl; rewrite ?Hc; field.
  - intros [= <-]. set (n := Nat.max 1 (maxBatch cfg)).
    rewrite <-(take_drop n (x :: items)) in Hitems.
    assert (length (drop n (x :: items)) ≤ fallbackCap cfg)%nat as Hl by (rewrite length_drop; lia).
    assert (Htk : (length (take n (x :: items)) =? 0)%nat = false) by (unfold n; by destruct (maxBatch cfg)).
    unfold fanOutDrop. rewrite Htk. simpl onDrop. revert Hitems Hl Htk.
    generalize (take n (x :: items)) (drop n (x :: items)). intros tk dr Hitems Hl _.
    case_if; constructor; field.
Qed.

Lemma queue_reach_inv q xs : reach cfg q xs → inv q xs.
Proof.
  induction 1 as [|q xs b _ IH|q xs _ IH|q xs x how q' _ IH Hs|q xs x l _ IH|q xs q' _ IH Hs
    |q xs res q' _ IH Hs|q xs b q' _ IH Hs|q xs q' _ IH Hs|q xs _ IH|q xs q' _ IH Hs|q xs q' _ IH Hs].
  - constructor; simpl; try done; lia.
  - by destruct IH.
  - by destruct IH.
  - by eapply inv_push.
  - by apply inv_trypush.
  - by eapply inv_loop.
  - by eapply inv_deliver.
  - by eapply inv_backoff.
  - by eapply inv_drop.
  - revert IH. open_inv. constructor; field.
    intros Hx. split; [done|by apply Hdcl].
  - unfold stop in Hs. destruct (closed q) eqn:Hc; [|done]. injection Hs as <-.
    revert IH. open_inv. constructor; field. intros Hx. split; [done|by apply Hdcl].
  - unfold close_drop in Hs. destruct (closed q && finished q) eqn:Hc; [|done]. bool_hyps. injection Hs as <-.
    revert IH. open_inv. constructor; field. done.
Qed.

(** Nothing pushed is unaccounted for, on every interleaving of
    producers, workers and shutdown: the pushed items are, up to order, those
    in the two channels, in the worker's hands, delivered, handed to the
    fallback and counted as lost; and once both workers have finished they are
    exactly the delivered, the handed-over and the lost ones. *)
Theorem queue_conserves q xs :
  reach cfg q xs →
  xs ≡ₚ ch q ++ dropCh q ++ inflight q ++ delivered q ++ fallback q ++ gone q
  ∧ lost q = Z.of_nat (length (gone q))
  ∧ (finished q = true → dropDone q = true → xs ≡ₚ delivered q ++ fallback q ++ gone q).
Proof.
  intros Hr. apply queue_reach_inv in Hr. revert Hr. open_inv. split_and!; auto.
  intros Hf Hd. destruct (Hfin Hf) as [_ Hc]. destruct (Hddone Hd) as [_ Hdc].
  rewrite Hitems, Hc, Hdc. unfold inflight, finished in *. by destruct (work q).
Qed.

(** The queue never sends on a closed channel and stays within its
    bounds: the channels hold at most their capacities, a batch has at most
    [maxBatch] items (one if that is zero), no batch is tried more often than
    configured (once if that is not positive), and the pause doubles at each
    try. *)
Theorem queue_bounds q xs :
  reach cfg q xs →
  panicked q = false ∧ (length (ch q) ≤ capacity cfg)%nat ∧ (length (dropCh q) ≤ fallbackCap cfg)%nat
  ∧ (length (inflight q) ≤ Nat.max 1 (maxBatch cfg))%nat
  ∧ ∀ n b, try_number q = Some (n, b) →
      1 ≤ n ≤ Z.max 1 (attempts cfg) ∧ b = backoff0 cfg * 2 ^ (n - 1).
Proof. intros Hr. apply queue_reach_inv in Hr. by destruct Hr. Qed.
End props.

(** ** A concrete run: one item delivered, one given to the fallback *)

Definition small : Config := {| capacity := 1; maxBatch := 1; attempts := 2; backoff0 := Second |}.

Definition after_push : PushQueue nat := send_ch NewPushQueue 7%nat.
Definition in_delivery : PushQueue nat :=
  set_work (set_channels after_push [] [] false) (Delivering [7%nat] 1 Second) [].
Definition after_ok : PushQueue nat := set_work in_delivery Idle [7%nat].

Lemma reach_after_ok : reach small after_ok [7%nat].
Proof.
  apply (r_deliver small in_delivery _ DeliveryOK); [|reflexivity].
  apply (r_loop small after_push); [|reflexivity].
  apply (r_push small NewPushQueue [] 7%nat ToQueue); [constructor|reflexivity].
Defined.

Lemma queue_conserves_witness : [7%nat] ≡ₚ ch after_ok ++ dropCh after_ok ++ inflight after_ok
  ++ delivered after_ok ++ fallback after_ok ++ gone after_ok.
Proof. exact (proj1 (queue_conserves small after_ok [7%nat] reach_after_ok)). Defined.

Lemma queue_bounds_witness : panicked after_ok = false.
Proof. exact (proj1 (queue_bounds small after_ok [7%nat] reach_after_ok)). Defined.
