(* ===== verification/Delivery.v ===== *)
(** * pkg/alerts/delivery.go: webhook delivery with retries

    The delivery table is a map from alert and integration to a row; the
    alerts and integrations tables are lists. One round of
    [deliverWebhookBatch] loads the due deliveries and works through each
    integration's queue; the outcomes of the database and network calls are
    arguments. *)

From Stdlib Require Import Ascii.
From stdpp Require Import base list gmap strings.
From S2P Require Import Prelude GoStrings.
Local Open Scope Z_scope.
Local Open Scope list_scope.

Definition webhookDeliveryBatch : nat := 50.
Definition webhookDeliveryLookback : Z := 10000.
Definition defaultWebhookMaxAttempts : Z := 10.

Definition webhookRetryBackoff (attempts : Z) : Duration :=
  let attempts := if attempts <? 1 then 1 else attempts in
  let shift := attempts - 1 in
  let shift := if 6 <? shift then 6 else shift in
  let delay := Minute * Z.shiftl 1 shift in
  if Hour <? delay then Hour else delay.

(** ** Tables *)

Inductive next_attempt := NoTime | At (t : Time) | Infinity.

Record Row := {
  r_attempts : Z;
  r_delivered : option Time;
  r_next : next_attempt;
  r_error : option string;
}.

Abbreviation Key := (Z * string)%type.
Abbreviation Table := (gmap Key Row).

Record Alert := { a_id : Z; a_ts : Time }.

(** [i_url] is the webhook address, empty when the configuration has none. *)
Record Integration := { i_kind : string; i_enabled : bool; i_url : string; i_updated : Time }.

Record webhookDelivery := { alertID : Z; kind : string; d_attempts : Z }.

Definition key (d : webhookDelivery) : Key := (alertID d, kind d).

(** ** Loading *)

(** The [enabled] part of the query; [throttled] kinds are left out. *)
Definition enabled_kinds (ints : list Integration) (throttled : list string) : list Integration :=
  List.filter (λ i, i_enabled i && (String.eqb (i_kind i) "discord" || String.eqb (i_kind i) "mattermost")
                    && negb (any (String.eqb (i_kind i)) throttled)
                    && negb (String.eqb (i_url i) "")) ints.

(** The largest alert id with a delivery row for the kind, 0 if none. *)
Definition seen (tbl : Table) (k : string) : Z :=
  foldr (λ e acc, if String.eqb e.1.2 k then Z.max e.1.1 acc else acc) 0 (map_to_list tbl).

(** The id of the oldest alert since the integration was updated. *)
Definition first_since (alerts : list Alert) (t : Time) : Z :=
  match foldr (λ a best, if a_ts a <? t then best
                         else match best with
                              | Some b => if a_ts b <? a_ts a then Some b else Some a
                              | None => Some a
                              end) None alerts with
  | Some a => a_id a
  | None => maxInt64
  end.

Definition after_id (tbl : Table) (alerts : list Alert) (i : Integration) : Z :=
  (if 0 <? seen tbl (i_kind i) then seen tbl (i_kind i) else first_since alerts (i_updated i))
  - webhookDeliveryLookback.

Definition due (now : Time) (r : Row) : bool :=
  match r_delivered r with
  | Some _ => false
  | None => match r_next r with NoTime => true | At t => t <=? now | Infinity => false end
  end.

(** The delivery of an alert through an integration, when it is pending and
    due, or fresh. *)
Definition candidate (tbl : Table) (alerts : list Alert) (now : Time) (a : Alert) (i : Integration)
  : option webhookDelivery :=
  match tbl !! (a_id a, i_kind i) with
  | Some r => if due now r
              then Some {| alertID := a_id a; kind := i_kind i; d_attempts := r_attempts r |} else None
  | None => if (after_id tbl alerts i <? a_id a) && (i_updated i <=? a_ts a)
            then Some {| alertID := a_id a; kind := i_kind i; d_attempts := 0 |} else None
  end.

(** [alerts] is in id order and [ints] in kind order, as the query sorts. *)
Definition loadWebhookDeliveries (tbl : Table) (alerts : list Alert) (ints : list Integration)
    (throttled : list string) (now : Time) : list webhookDelivery :=
  take webhookDeliveryBatch
    (concat (map (λ a, omap (candidate tbl alerts now a) (enabled_kinds ints throttled)) alerts)).

(** ** Recording *)

Definition milliseconds (d : Duration) : Duration := d / 1000000 * 1000000.

Definition reserveWebhookAttempt (tbl : Table) (d : webhookDelivery) (attempts : Z) (now : Time) : Table :=
  let t := At (TAdd now (milliseconds (webhookRetryBackoff attempts))) in
  match tbl !! key d with
  | Some r => <[key d := {| r_attempts := attempts; r_delivered := r_delivered r; r_next := t; r_error := r_error r |}]> tbl
  | None => <[key d := {| r_attempts := attempts; r_delivered := None; r_next := t; r_error := None |}]> tbl
  end.

Definition markWebhookDelivered (tbl : Table) (d : webhookDelivery) (attempts : Z) (now : Time) : Table :=
  <[key d := {| r_attempts := attempts; r_delivered := Some now; r_next := NoTime; r_error := None |}]> tbl.

(** The error text is cut to 500 code points. *)
Definition markWebhookFailure (tbl : Table) (d : webhookDelivery) (message : string) : Table :=
  match tbl !! key d with
  | Some r => <[key d := {| r_attempts := r_attempts r; r_delivered := r_delivered r; r_next := r_next r;
                            r_error := Some (encode_runes (take 500 (runes message))) |}]> tbl
  | None => tbl
  end.

Definition markWebhookExhausted (tbl : Table) (d : webhookDelivery) (maxAttempts : Z) : Table :=
  let note := (" | gave up after " +:+ FormatInt maxAttempts +:+ " attempts")%string in
  match tbl !! key d with
  | Some r => <[key d := {| r_attempts := r_attempts r; r_delivered := r_delivered r; r_next := Infinity;
                            r_error := Some (default ""%string (r_error r) +:+ note)%string |}]> tbl
  | None => <[key d := {| r_attempts := d_attempts d; r_delivered := None; r_next := Infinity; r_error := Some note |}]> tbl
  end.

(** ** Delivering *)

Inductive SendResult := SentOK | SendError (message : string) (status : option Z).

Definition StatusTooManyRequests : Z := 429.

Record ItemIO := {
  io_cancelled : bool;
  io_exhaust : bool;
  io_reserve : bool;
  io_result : SendResult;
  io_failure : bool;
  io_delivered : bool;
  io_now : Time;
}.

(** The table, and the webhook calls made so far with their outcome. *)
Record World := { table : Table; calls : list (Key * bool) }.

Definition with_table (w : World) (t : Table) : World := {| table := t; calls := calls w |}.
Definition with_call (w : World) (k : Key) (ok : bool) : World :=
  {| table := table w; calls := snoc (calls w) (k, ok) |}.

(** One item of [deliverWebhookQueue]: the world, what [handled] grows by, and
    whether the receiver asks for a pause. *)
Definition deliver_item (maxAttempts : Z) (w : World) (item : webhookDelivery) (io : ItemIO)
  : World * nat * bool :=
  if maxAttempts <=? d_attempts item then
    if io_exhaust io then (with_table w (markWebhookExhausted (table w) item maxAttempts), 1%nat, false)
    else (w, 0%nat, false)
  else
    let attempts := d_attempts item + 1 in
    if negb (io_reserve io) then (w, 0%nat, false)
    else
      let w := with_table w (reserveWebhookAttempt (table w) item attempts (io_now io)) in
      match io_result io with
      | SendError message status =>
          let w := with_call w (key item) false in
          let w := if io_failure io then with_table w (markWebhookFailure (table w) item message) else w in
          (w, 1%nat, bool_decide (status = Some StatusTooManyRequests))
      | SentOK =>
          let w := with_call w (key item) true in
          (if io_delivered io then with_table w (markWebhookDelivered (table w) item attempts (io_now io)) else w,
           1%nat, false)
      end.

Fixpoint deliverWebhookQueue (maxAttempts : Z) (w : World) (queue : list webhookDelivery)
    (io : nat → ItemIO) (i handled : nat) : World * nat * bool :=
  match queue with
  | [] => (w, handled, false)
  | item :: queue' =>
      if io_cancelled (io i) then (w, handled, false)
      else
        let '(w', n, limited) := deliver_item maxAttempts w item (io i) in
        if limited then (w', (handled + n)%nat, true)
        else deliverWebhookQueue maxAttempts w' queue' io (S i) (handled + n)
  end.

(** * Webhook delivery: bounded retries, no call after success

    Runs of the delivery worker: rounds load deliveries and work on them in
    any interleaving of the integrations; any suffix of a round may be
    abandoned (cancellation, throttling, a crash). *)



(** The pause before the next attempt is one minute, doubled at each
    attempt and never more than an hour; it never shrinks as attempts go up. *)
Theorem webhookRetryBackoff_spec n m :
  webhookRetryBackoff n = Z.min Hour (Minute * 2 ^ (Z.max 1 n - 1))
  ∧ Minute ≤ webhookRetryBackoff n ≤ Hour
  ∧ (n ≤ m → webhookRetryBackoff n ≤ webhookRetryBackoff m).
Proof.
  assert (∀ n, webhookRetryBackoff n = Z.min Hour (Minute * 2 ^ (Z.max 1 n - 1))) as Hb.
  { intros k. unfold webhookRetryBackoff.
    set (a := if k <? 1 then 1 else k).
    assert (a = Z.max 1 k) as -> by (unfold a; case_if; lia).
    set (s := Z.max 1 k - 1). assert (0 ≤ s) by (unfold s; lia).
    set (sh := if 6 <? s then 6 else s).
    assert (sh = Z.min 6 s) as -> by (unfold sh; case_if; lia).
    rewrite Z.shiftl_mul_pow2, Z.mul_1_l by lia.
    destruct (Z.le_gt_cases s 6) as [Hs|Hs].
    - rewrite Z.min_r by lia. case_if; lia.
    - rewrite Z.min_l by lia. assert (2 ^ 6 ≤ 2 ^ s) by (apply Z.pow_le_mono_r; lia).
      change (Hour <? Minute * 2 ^ 6) with true. unfold Hour, Minute, Second in *. lia. }
  assert (∀ k, Z.min Hour Minute ≤ webhookRetryBackoff k) as Hlow.
  { intros k. rewrite Hb. assert (0 < 2 ^ (Z.max 1 k - 1)) by (apply Z.pow_pos_nonneg; lia).
    unfold Hour, Minute, Second. lia. }
  split_and!; [done|specialize (Hlow n); unfold Hour, Minute, Second in *; lia|rewrite Hb; lia|].
  intros Hnm. rewrite !Hb. apply Z.min_le_compat_l. apply Z.mul_le_mono_nonneg_l; [done|].
  apply Z.pow_le_mono_r; lia.
Qed.

(** ** Runs *)

Definition count (k : Key) (l : list (Key * bool)) : Z :=
  Z.of_nat (length (List.filter (λ c, bool_decide (c.1 = k)) l)).

Definition attempts_of (w : World) (k : Key) : Z :=
  match table w !! k with Some r => r_attempts r | None => 0 end.

Section runs.
Variables (maxAttempts : Z) (alerts : list Alert) (ints : list Integration).
Hypothesis alerts_nodup : NoDup (map a_id alerts).
Hypothesis ints_nodup : NoDup (map i_kind ints).

Inductive reach (w0 : World) : World → list webhookDelivery → Prop :=
| reach_start : reach w0 w0 []
| reach_load w throttled now :
    reach w0 w [] → reach w0 w (loadWebhookDeliveries (table w) alerts ints throttled now)
| reach_item w pre item post io :
    reach w0 w (pre ++ item :: post) →
    reach w0 (deliver_item maxAttempts w item io).1.1 (pre ++ post)
| reach_abandon w rem : reach w0 w rem → reach w0 w [].

(** ** What is loaded *)

Lemma candidate_spec tbl now a i d :
  candidate tbl alerts now a i = Some d →
  key d = (a_id a, i_kind i)
  ∧ match tbl !! key d with
    | Some r => r_delivered r = None ∧ d_attempts d = r_attempts r
    | None => d_attempts d = 0
    end.
Proof.
  unfold candidate. destruct (tbl !! (a_id a, i_kind i)) as [r|] eqn:Hr; case_if; try done; intros [= <-];
    unfold key; cbn [alertID kind d_attempts]; (split; [done|]); rewrite Hr; try done.
  split; [|done].
  unfold due in *. by destruct (r_delivered r).
Qed.

Lemma enabled_nodup throttled l : NoDup (map i_kind l) → NoDup (map i_kind (enabled_kinds l throttled)).
Proof.
  unfold enabled_kinds. induction l as [|i l IH]; simpl; [done|]. intros H.
  apply NoDup_cons in H as [Hi Hl]. case_if; [|auto]. constructor; [|auto].
  intros Hin. apply Hi. apply list_elem_of_fmap in Hin as (j & -> & Hj). apply list_elem_of_fmap.
  exists j. split; [done|]. apply list_elem_of_In, filter_In in Hj as [Hj _]. by apply list_elem_of_In.
Qed.

Lemma omap_keys tbl now a knds : NoDup (map i_kind knds) →
  NoDup (map key (omap (candidate tbl alerts now a) knds))
  ∧ ∀ k, k ∈ map key (omap (candidate tbl alerts now a) knds) → k.1 = a_id a ∧ k.2 ∈ map i_kind knds.
Proof.
  induction knds as [|i knds IH]; simpl; [split; [constructor|intros k Hk; by apply not_elem_of_nil in Hk]|].
  intros H. apply NoDup_cons in H as [Hi Hl]. destruct (IH Hl) as [IH1 IH2].
  destruct (candidate tbl alerts now a i) as [d|] eqn:Hc; simpl.
  - apply candidate_spec in Hc as [Hk _]. split.
    + constructor; [|done]. rewrite Hk. intros Hin. apply IH2 in Hin as [_ Hin]. done.
    + intros k Hin. apply elem_of_cons in Hin as [->|Hin]; [rewrite Hk; split; [done|left]|].
      apply IH2 in Hin as [? ?]. split; [done|by right].
  - split; [done|]. intros k Hin. apply IH2 in Hin as [? ?]. split; [done|by right].
Qed.

Lemma concat_keys tbl now knds l : NoDup (map i_kind knds) → NoDup (map a_id l) →
  NoDup (map key (concat (map (λ a, omap (candidate tbl alerts now a) knds) l)))
  ∧ ∀ k, k ∈ map key (concat (map (λ a, omap (candidate tbl alerts now a) knds) l)) → k.1 ∈ map a_id l.
Proof.
  intros Hnd. induction l as [|a l IH]; simpl; [split; [constructor|intros k Hk; by apply not_elem_of_nil in Hk]|].
  intros H. apply NoDup_cons in H as [Ha Hl]. destruct (IH Hl) as [IH1 IH2].
  destruct (omap_keys tbl now a knds Hnd) as [H1 H2]. rewrite map_app. split.
  - apply NoDup_app. split_and!; auto. intros k Hk Hk'. apply H2 in Hk as [Hk _]. apply Ha.
    rewrite <-Hk. by apply IH2.
  - intros k Hk. apply elem_of_app in Hk as [Hk|Hk]; [apply H2 in Hk as [-> _]; left|right; auto].
Qed.

Lemma elem_take {A} (x : A) n l : x ∈ take n l → x ∈ l.
Proof. intros H. rewrite <-(take_drop n l). apply elem_of_app. by left. Qed.

Lemma NoDup_take {A} n (l : list A) : NoDup l → NoDup (take n l).
Proof. intros H. rewrite <-(take_drop n l) in H. by apply NoDup_app in H as [? _]. Qed.

Lemma load_spec tbl throttled now :
  NoDup (map key (loadWebhookDeliveries tbl alerts ints throttled now))
  ∧ ∀ d, d ∈ loadWebhookDeliveries tbl alerts ints throttled now →
      match tbl !! key d with
      | Some r => r_delivered r = None ∧ d_attempts d = r_attempts r
      | None => d_attempts d = 0
      end.
Proof.
  unfold loadWebhookDeliveries. split.
  - rewrite <-firstn_map. apply NoDup_take, concat_keys; [by apply enabled_nodup|done].
  - intros d Hd. apply elem_take, list_elem_of_In, in_concat in Hd as (l & Hl & Hd).
    apply in_map_iff in Hl as (a & <- & _). apply list_elem_of_In, list_elem_of_omap in Hd as (i & _ & Hc).
    by apply candidate_spec in Hc as [_ ?].
Qed.

(** ** Working on an item *)

Record rem_ok (w : World) (rem : list webhookDelivery) : Prop := {
  rem_nodup : NoDup (map key rem);
  rem_rows : ∀ d, d ∈ rem → d_attempts d = attempts_of w (key d)
               ∧ ∀ r, table w !! key d = Some r → r_delivered r = None;
}.

Lemma count_snoc k l c b : count k (snoc l (c, b)) = count k l + (if bool_decide (c = k) then 1 else 0).
Proof.
  unfold count, snoc. rewrite List.filter_app, length_app. simpl. destruct (bool_decide (c = k)); simpl; lia.
Qed.

(** The updates of one row. *)
Lemma reserve_row tbl d n now :
  (∀ k, k ≠ key d → reserveWebhookAttempt tbl d n now !! k = tbl !! k)
  ∧ ∃ r, reserveWebhookAttempt tbl d n now !! key d = Some r ∧ r_attempts r = n.
Proof.
  unfold reserveWebhookAttempt.
  destruct (tbl !! key d); (split; [intros k Hk; by rewrite lookup_insert_ne|]);
    rewrite lookup_insert_eq; eauto.
Qed.

Lemma failure_row tbl d msg :
  (∀ k, k ≠ key d → markWebhookFailure tbl d msg !! k = tbl !! k)
  ∧ r_attempts <$> markWebhookFailure tbl d msg !! key d = r_attempts <$> tbl !! key d.
Proof.
  unfold markWebhookFailure. destruct (tbl !! key d) as [r|] eqn:Hr; [|by rewrite Hr].
  split; [intros k Hk; by rewrite lookup_insert_ne|]. by rewrite lookup_insert_eq.
Qed.

Lemma exhausted_row tbl d mx :
  (∀ k, k ≠ key d → markWebhookExhausted tbl d mx !! k = tbl !! k)
  ∧ ∃ r, markWebhookExhausted tbl d mx !! key d = Some r
    ∧ r_attempts r = match tbl !! key d with Some r => r_attempts r | None => d_attempts d end.
Proof.
  unfold markWebhookExhausted.
  destruct (tbl !! key d); (split; [intros k Hk; by rewrite lookup_insert_ne|]);
    rewrite lookup_insert_eq; eauto.
Qed.

Lemma attempts_fmap w k : attempts_of w k = default 0 (r_attempts <$> table w !! k).
Proof. unfold attempts_of. by destruct (table w !! k). Qed.

(** An item changes its own row and calls only: it makes no call, or it is
    below the limit and makes one call and counts it. *)
Lemma deliver_item_spec w item io :
  d_attempts item = attempts_of w (key item) →
  let w' := (deliver_item maxAttempts w item io).1.1 in
  (∀ k, k ≠ key item → table w' !! k = table w !! k ∧ count k (calls w') = count k (calls w))
  ∧ ((count (key item) (calls w') = count (key item) (calls w)
      ∧ attempts_of w' (key item) = attempts_of w (key item))
     ∨ (d_attempts item < maxAttempts
        ∧ count (key item) (calls w') = count (key item) (calls w) + 1
        ∧ attempts_of w' (key item) = attempts_of w (key item) + 1)).
Proof.
  intros Ha. unfold deliver_item. case_if.
  { destruct (io_exhaust io); simpl; [|auto].
    destruct (exhausted_row (table w) item maxAttempts) as (Hne & r & Hr & Hat).
    split; [intros k Hk; split; [by apply Hne|done]|left]. split; [done|].
    rewrite !attempts_fmap. simpl. rewrite Hr. simpl. rewrite Hat. rewrite attempts_fmap in Ha.
    by destruct (table w !! key item). }
  destruct (io_reserve io); simpl; [|auto].
  destruct (reserve_row (table w) item (d_attempts item + 1) (io_now io)) as (Hne & r & Hr & Hat).
  set (t := reserveWebhookAttempt _ _ _ _) in *.
  assert (∀ k ok, count k (snoc (calls w) (key item, ok))
            = count k (calls w) + (if bool_decide (key item = k) then 1 else 0)) as Hc
    by (intros; apply count_snoc).
  destruct (io_result io) as [|msg st].
  - destruct (io_delivered io); simpl; (split; [intros k Hk; rewrite Hc, bool_decide_false by done|right]).
    + unfold markWebhookDelivered. rewrite lookup_insert_ne by done. split; [by apply Hne|lia].
    + rewrite Hc, bool_decide_true by done. split_and!; try lia. rewrite attempts_fmap. simpl.
      unfold markWebhookDelivered. rewrite lookup_insert_eq. simpl. lia.
    + split; [by apply Hne|lia].
    + rewrite Hc, bool_decide_true by done. split_and!; try lia. rewrite attempts_fmap. simpl. rewrite Hr. simpl. lia.
  - destruct (failure_row t item msg) as [Hfne Hfat].
    destruct (io_failure io); simpl; (split; [intros k Hk; rewrite Hc, bool_decide_false by done|right]).
    + rewrite Hfne by done. split; [by apply Hne|lia].
    + rewrite Hc, bool_decide_true by done. split_and!; try lia. rewrite attempts_fmap. simpl.
      rewrite Hfat, Hr. simpl. lia.
    + split; [by apply Hne|lia].
    + rewrite Hc, bool_decide_true by done. split_and!; try lia. rewrite attempts_fmap. simpl. rewrite Hr. simpl. lia.
Qed.

(** ** Invariants of a run *)

Definition books (w : World) : Prop :=
  ∀ k, 0 ≤ count k (calls w) ≤ Z.max 0 (attempts_of w k)
       ∧ (0 < count k (calls w) → count k (calls w) ≤ maxAttempts ∧ attempts_of w k ≤ maxAttempts).

Lemma rem_ok_sub w pre item post : rem_ok w (pre ++ item :: post) → rem_ok w (pre ++ post).
Proof.
  intros [Hn Hr]. constructor.
  - rewrite map_app in *. simpl in Hn. apply NoDup_app in Hn as (H1 & H2 & H3).
    apply NoDup_cons in H3 as [? ?]. apply NoDup_app. split_and!; auto. intros k Hk Hk'. apply (H2 k Hk). by right.
  - intros d Hd. apply Hr. rewrite elem_of_app in *. destruct Hd; [by left|right; by right].
Qed.

Lemma delivery_reach_inv w0 w rem :
  (∀ k, 0 ≤ attempts_of w0 k) → calls w0 = [] → reach w0 w rem →
  rem_ok w rem ∧ books w ∧ ∀ k, 0 ≤ attempts_of w k.
Proof.
  intros H0 Hc0. induction 1 as [|w throttled now _ (_ & Hb & Ha)|w pre item post io _ (Hrem & Hb & Ha)|w rem _ (_ & Hb & Ha)].
  - split_and!; [constructor; simpl; [constructor|intros d Hd; by apply not_elem_of_nil in Hd]| |done].
    intros k. rewrite Hc0. unfold count. simpl. lia.
  - destruct (load_spec (table w) throttled now) as [H1 H2]. split_and!; [|done|done]. constructor; [done|].
    intros d Hd. specialize (H2 d Hd). unfold attempts_of. destruct (table w !! key d) as [r|]; [|done].
    destruct H2. split; [done|]. intros r' [= <-]. done.
  - destruct (rem_rows _ _ Hrem item) as [Hat _]; [apply elem_of_app; right; left|].
    destruct (deliver_item_spec w item io Hat) as [Hne Hcase]. set (w' := (deliver_item _ _ _ _).1.1) in *.
    assert (∀ k, k ≠ key item → attempts_of w' k = attempts_of w k) as Hane.
    { intros k Hk. unfold attempts_of. by rewrite (proj1 (Hne k Hk)). }
    pose proof (rem_ok_sub _ _ _ _ Hrem) as Hrem'. split_and!.
    + destruct Hrem as [Hn _], Hrem' as [Hn' Hr']. constructor; [done|]. intros d Hd.
      assert (key d ≠ key item) as Hk.
      { intros Heq. rewrite map_app in Hn. simpl in Hn. apply NoDup_app in Hn as (_ & H2 & H3).
        apply NoDup_cons in H3 as [H3 _]. apply elem_of_app in Hd as [Hd|Hd].
        - apply (H2 (key d)); [apply list_elem_of_fmap; eauto|]. rewrite Heq. left.
        - apply H3. rewrite <-Heq. apply list_elem_of_fmap; eauto. }
      rewrite Hane by done. rewrite (proj1 (Hne _ Hk)). auto.
    + intros k. destruct (decide (k = key item)) as [->|Hk].
      * destruct (Hb (key item)) as [Hb1 Hb2]. pose proof (Ha (key item)).
        destruct Hcase as [[Hc1 Hc2]|(? & Hc1 & Hc2)]; rewrite Hc1, Hc2; [done|lia].
      * rewrite (proj2 (Hne k Hk)), Hane by done. apply Hb.
    + intros k. destruct (decide (k = key item)) as [->|Hk]; [|rewrite Hane by done; apply Ha].
      specialize (Ha (key item)). destruct Hcase as [[_ ->]|(_ & _ & ->)]; lia.
  - split_and!; [constructor; simpl; [constructor|intros d Hd; by apply not_elem_of_nil in Hd]|done|done].
Qed.

(** Retries are bounded: however rounds, failures and interruptions
    interleave, an alert is sent to an integration at most the configured
    number of times, and never more often than its row records. *)
Theorem attempts_bounded w0 w rem k :
  (∀ k, 0 ≤ attempts_of w0 k) → calls w0 = [] → reach w0 w rem →
  count k (calls w) ≤ Z.max 0 maxAttempts ∧ count k (calls w) ≤ attempts_of w k.
Proof.
  intros H0 Hc Hr. destruct (delivery_reach_inv w0 w rem H0 Hc Hr) as (_ & Hb & Ha).
  destruct (Hb k) as [H1 H2]. specialize (Ha k). lia.
Qed.

(** A delivery recorded as done is final: from then on no run calls the
    webhook for it again, and the record stays. *)
Theorem delivered_is_final w0 w rem k r t :
  (∀ k, 0 ≤ attempts_of w0 k) → calls w0 = [] →
  table w0 !! k = Some r → r_delivered r = Some t → reach w0 w rem →
  table w !! k = Some r ∧ count k (calls w) = 0.
Proof.
  intros H0 Hc Hk Hd Hr. pose proof Hr as Hr0.
  assert ((table w !! k = Some r ∧ count k (calls w) = 0)) as H; [|done].
  induction Hr as [|w throttled now Hr IH|w pre item post io Hr IH|w rem Hr IH].
  - split; [done|]. by rewrite Hc.
  - by apply IH.
  - destruct (IH Hr) as [IH1 IH2]. destruct (delivery_reach_inv w0 w _ H0 Hc Hr) as (Hrem & _ & _).
    destruct (rem_rows _ _ Hrem item) as [Hat Hnd]; [apply elem_of_app; right; left|].
    destruct (deliver_item_spec w item io Hat) as [Hne _].
    assert (k ≠ key item) as Hki by (intros ->; specialize (Hnd r IH1); congruence).
    destruct (Hne k Hki) as [-> ->]. done.
  - by apply IH.
Qed.
End runs.

(** ** A concrete run: one alert, one attempt that fails *)

Lemma webhookRetryBackoff_spec_witness : webhookRetryBackoff 3 ≤ webhookRetryBackoff 9.
Proof. exact (proj2 (proj2 (webhookRetryBackoff_spec 3 9)) ltac:(lia)). Defined.

Definition one_alert : list Alert := [{| a_id := 1; a_ts := 20 |}].
Definition discord : list Integration :=
  [{| i_kind := "discord"; i_enabled := true; i_url := "https://d/w"; i_updated := 10 |}].
Definition fresh_world : World := {| table := ∅; calls := [] |}.
Definition first_item : webhookDelivery := {| alertID := 1; kind := "discord"; d_attempts := 0 |}.
Definition refused : ItemIO :=
  {| io_cancelled := false; io_exhaust := true; io_reserve := true;
     io_result := SendError "status 500" (Some 500); io_failure := true; io_delivered := true; io_now := 30 |}.
Definition after_refusal : World := (deliver_item 10 fresh_world first_item refused).1.1.

Lemma reach_after_refusal : reach 10 one_alert discord fresh_world after_refusal [].
Proof.
  apply (reach_item 10 one_alert discord fresh_world fresh_world [] first_item [] refused).
  exact (reach_load 10 one_alert discord fresh_world fresh_world [] 25 (reach_start _ _ _ _)).
Defined.

Lemma attempts_bounded_witness :
  count (1, "discord"%string) (calls after_refusal) ≤ Z.max 0 10.
Proof.
  refine (proj1 (attempts_bounded 10 one_alert discord _ _ fresh_world after_refusal [] (1, "discord"%string) _ eq_refl
                   reach_after_refusal)).
  - apply (bool_decide_eq_true_1 _). reflexivity.
  - apply (bool_decide_eq_true_1 _). reflexivity.
  - intros k. unfold attempts_of. simpl. rewrite lookup_empty. lia.
Defined.

Definition done_row : Row := {| r_attempts := 1; r_delivered := Some 15; r_next := NoTime; r_error := None |}.
Definition done_world : World := {| table := {[ (1, "discord"%string) := done_row ]}; calls := [] |}.

Lemma delivered_is_final_witness : table done_world !! (1, "discord"%string) = Some done_row.
Proof.
  refine (proj1 (delivered_is_final 10 one_alert discord _ _ done_world done_world [] (1, "discord"%string) done_row 15
                   _ eq_refl eq_refl eq_refl (reach_abandon _ _ _ _ _ _
                     (reach_load 10 one_alert discord done_world done_world [] 25 (reach_start _ _ _ _))))).
  - apply (bool_decide_eq_true_1 _). reflexivity.
  - apply (bool_decide_eq_true_1 _). reflexivity.
  - intros k. unfold attempts_of. simpl. destruct (decide (k = (1, "discord"%string))) as [->|Hk].
    + rewrite lookup_singleton_eq. simpl. lia.
    + rewrite lookup_singleton_ne by done. lia.
Defined.
