(* ===== verification/Baseline.v ===== *)
(** * anomaly/internal/baseline: learned network and binary baselines

    baseline.go, flow.go, manage.go, binary.go, load.go, stats.go: per deployment, the peers and
    binaries seen while it is being observed; afterwards anything else is an
    anomaly. The clock is an argument; the keys to write back are collected in
    [dirty]. *)

From Stdlib Require Import Ascii.
From stdpp Require Import base list gmap strings.
From S2P Require Import Prelude GoStrings GoNet.
Local Open Scope string_scope.
Local Open Scope list_scope.
Local Open Scope go_scope.

(** ** Entities and peers *)

(** [EntityOther] stands for any other text of the type. *)
Inductive EntityType := EntityDeployment | EntityExternalSource | EntityInternet | EntityInternal
| EntityOther (s : string).
#[export] Instance EntityType_eq_dec : EqDecision EntityType.
Proof. solve_decision. Defined.
#[export] Instance EntityType_countable : Countable EntityType.
Proof.
  refine (inj_countable'
    (λ t, match t with EntityDeployment => inl 0%nat | EntityExternalSource => inl 1%nat
                     | EntityInternet => inl 2%nat | EntityInternal => inl 3%nat | EntityOther s => inr s end)
    (λ x : nat + string, match x with inl 0%nat => EntityDeployment | inl 1%nat => EntityExternalSource
                     | inl 2%nat => EntityInternet | inl _ => EntityInternal | inr s => EntityOther s end) _).
  by intros [].
Defined.

Definition ValidPeerEntityTypes (t : EntityType) : bool :=
  match t with EntityOther _ => false | _ => true end.

Inductive Protocol := TCP | UDP.
#[export] Instance Protocol_eq_dec : EqDecision Protocol.
Proof. solve_decision. Defined.
#[export] Instance Protocol_countable : Countable Protocol.
Proof.
  refine (inj_countable' (λ p, match p with TCP => true | UDP => false end)
                         (λ b : bool, if b then TCP else UDP) _).
  by intros [].
Defined.

Record Entity := { ID : string; Type_ : EntityType; Name : string; Discovered : bool }.
#[export] Instance Entity_eq_dec : EqDecision Entity.
Proof. solve_decision. Defined.
#[export] Instance Entity_countable : Countable Entity.
Proof.
  refine (inj_countable' (λ e, (ID e, Type_ e, Name e, Discovered e))
    (λ p, {| ID := p.1.1.1; Type_ := p.1.1.2; Name := p.1.2; Discovered := p.2 |}) _).
  by intros [].
Defined.

Definition InternetEntity : Entity :=
  {| ID := "internet"; Type_ := EntityInternet; Name := "Internet"; Discovered := false |}.

Definition AnonymizeExternalDiscoveredEntity (e : Entity) : Entity :=
  if bool_decide (Type_ e = EntityExternalSource) && Discovered e then InternetEntity else e.

(** *** Addresses as text *)

Fixpoint hex_text (fuel : nat) (z : Z) (acc : string) : string :=
  match fuel with
  | O => acc
  | S fuel' =>
      let d := (z mod 16)%Z in
      let acc := String (ascii_of (if (d <? 10)%Z then 48 + d else 87 + d)%Z) acc in
      if (z <? 16)%Z then acc else hex_text fuel' (z / 16) acc
  end.

(** The 16-bit groups of an IPv6 address. *)
Fixpoint groups (ip : list Z) : list Z :=
  match ip with a :: b :: ip' => (a * 256 + b)%Z :: groups ip' | _ => [] end.

(** The length of the run of zeros at the front. *)
Fixpoint zeros (l : list Z) : nat :=
  match l with 0%Z :: l' => S (zeros l') | _ => 0 end.

(** The first longest run of zeros: its position and length. *)
Fixpoint longest_zeros (i : nat) (l : list Z) (best : nat * nat) : nat * nat :=
  match l with
  | [] => best
  | _ :: l' => longest_zeros (S i) l' (if (best.2 <? zeros l)%nat then (i, zeros l) else best)
  end.

Definition IPv6_String (ip : list Z) : string :=
  let g := groups ip in
  let txt l := Join (map (λ z, hex_text 4 z "") l) ":" in
  let '(i, n) := longest_zeros 0 g (0, 1)%nat in
  if (1 <? n)%nat then txt (take i g) +:+ "::" +:+ txt (drop (i + n) g) else txt g.

Definition IPv4_String (ip : list Z) : string := Join (map FormatInt ip) ".".

(** [fmt.Sprintf(%s, ip)] of a masked address ([<nil>] when masking failed). *)
Definition ip_text (ip : option IP) : string :=
  match ip with
  | None => "<nil>"
  | Some ip => if (length ip =? 4)%nat then IPv4_String ip
               else match To4 ip with Some v4 => IPv4_String v4 | None => IPv6_String ip end
  end.

Definition bucketToCIDR (ip : string) : string :=
  match ParseIP ip with
  | None => ip
  | Some parsed =>
      match To4 parsed with
      | Some v4 => ip_text (IP_Mask v4 (CIDRMask 24 32)) +:+ "/24"
      | None => ip_text (IP_Mask parsed (CIDRMask 48 128)) +:+ "/48"
      end
  end.

Definition ExternalEntity (ip : string) : Entity :=
  let cidr := bucketToCIDR ip in
  {| ID := cidr; Type_ := EntityExternalSource; Name := cidr; Discovered := false |}.

Definition cidrOf (e : Entity) : string :=
  if bool_decide (Type_ e = EntityExternalSource) then Name e else "".

Record Peer := { IsIngress : bool; PeerEntity : Entity; DstPort : Z; PeerProtocol : Protocol; CidrBlock : string }.
#[export] Instance Peer_eq_dec : EqDecision Peer.
Proof. solve_decision. Defined.
#[export] Instance Peer_countable : Countable Peer.
Proof.
  refine (inj_countable' (λ p, (IsIngress p, PeerEntity p, DstPort p, PeerProtocol p, CidrBlock p))
    (λ x, {| IsIngress := x.1.1.1.1; PeerEntity := x.1.1.1.2; DstPort := x.1.1.2; PeerProtocol := x.1.2;
             CidrBlock := x.2 |}) _).
  by intros [].
Defined.

(** ** The store *)

Record BaselineInfo := {
  B_Namespace : string;
  DeploymentName : string;
  DeploymentID : string;
  ObservationPeriodEnd : Time;
  UserLocked : bool;
  BaselinePeers : gset Peer;
  ForbiddenPeers : gset Peer;
  BaselineBinaries : gset string;
}.

Record Store := {
  baselines : gmap string BaselineInfo;
  observationPeriod : Duration;
  dirty : gset string;
}.

Definition DefaultObservationPeriod : Duration := (10 * 24 * Hour)%Z.

Definition New (period : Duration) : Store :=
  {| baselines := ∅; observationPeriod := if (period =? 0)%Z then DefaultObservationPeriod else period;
     dirty := ∅ |}.

Definition set_peers (b : BaselineInfo) (peers forbidden : gset Peer) : BaselineInfo :=
  {| B_Namespace := B_Namespace b; DeploymentName := DeploymentName b; DeploymentID := DeploymentID b;
     ObservationPeriodEnd := ObservationPeriodEnd b; UserLocked := UserLocked b;
     BaselinePeers := peers; ForbiddenPeers := forbidden; BaselineBinaries := BaselineBinaries b |}.

Definition set_binaries (b : BaselineInfo) (bins : gset string) : BaselineInfo :=
  {| B_Namespace := B_Namespace b; DeploymentName := DeploymentName b; DeploymentID := DeploymentID b;
     ObservationPeriodEnd := ObservationPeriodEnd b; UserLocked := UserLocked b;
     BaselinePeers := BaselinePeers b; ForbiddenPeers := ForbiddenPeers b; BaselineBinaries := bins |}.

Definition lock (b : BaselineInfo) : BaselineInfo :=
  {| B_Namespace := B_Namespace b; DeploymentName := DeploymentName b; DeploymentID := DeploymentID b;
     ObservationPeriodEnd := ObservationPeriodEnd b; UserLocked := true;
     BaselinePeers := BaselinePeers b; ForbiddenPeers := ForbiddenPeers b;
     BaselineBinaries := BaselineBinaries b |}.

Definition put (s : Store) (key : string) (b : BaselineInfo) : Store :=
  {| baselines := <[key := b]> (baselines s); observationPeriod := observationPeriod s; dirty := dirty s |}.

Definition markDirty (s : Store) (keys : gset string) : Store :=
  {| baselines := baselines s; observationPeriod := observationPeriod s; dirty := keys ∪ dirty s |}.

(** ** Management *)

Definition mutateBaseline (s : Store) (ns depName : string) (fn : BaselineInfo → BaselineInfo) : Store :=
  let key := ns +:+ "/" +:+ depName in
  match baselines s !! key with
  | None => s
  | Some b => markDirty (put s key (fn b)) {[key]}
  end.

Definition MarkForbidden (s : Store) (ns depName : string) (p : Peer) : Store :=
  mutateBaseline s ns depName (λ b, set_peers b (BaselinePeers b ∖ {[p]}) ({[p]} ∪ ForbiddenPeers b)).

Definition MarkBaseline (s : Store) (ns depName : string) (p : Peer) : Store :=
  mutateBaseline s ns depName (λ b, set_peers b ({[p]} ∪ BaselinePeers b) (ForbiddenPeers b ∖ {[p]})).

Definition LockBaseline (s : Store) (ns depName : string) : Store := mutateBaseline s ns depName lock.

(** The store with a baseline for the entity, and its key ([""] when it is not
    a deployment). *)
Definition ensureBaseline (s : Store) (e : Entity) (now : Time) : Store * string :=
  if negb (bool_decide (Type_ e = EntityDeployment)) then (s, "")
  else
    let key := ID e in
    match baselines s !! key with
    | Some _ => (s, key)
    | None =>
        let '(ns, _, ok) := Cut key "/" in
        (put s key {| B_Namespace := if ok then ns else ""; DeploymentName := Name e; DeploymentID := key;
                      ObservationPeriodEnd := TAdd now (observationPeriod s); UserLocked := false;
                      BaselinePeers := ∅; ForbiddenPeers := ∅; BaselineBinaries := ∅ |}, key)
    end.

(** ** Flows *)

Record ConnIndicator := { SrcEntity : Entity; DstEntity : Entity; C_DstPort : Z; C_Protocol : Protocol; FlowTS : Time }.

Inductive EvaluateResult := ResultObserving | ResultKnown | ResultAnomaly.

Fixpoint should_update (s : Store) (keys : list string) (t : Time) (seen : bool) : bool :=
  match keys with
  | [] => seen
  | k :: keys' =>
      if k == "" then should_update s keys' t seen
      else match baselines s !! k with
           | None => false
           | Some b => if UserLocked b then false
                       else should_update s keys' t (After (ObservationPeriodEnd b) t || seen)
           end
  end.

Definition shouldUpdate (s : Store) (srcDep dstDep : string) (flowTS now : Time) : bool :=
  should_update s [srcDep; dstDep] (if IsZero flowTS then now else flowTS) false.

Definition maybeAddPeer (s : Store) (depKey : string) (p : Peer) (modified : gset string) : Store * gset string :=
  match baselines s !! depKey with
  | None => (s, modified)
  | Some b => if bool_decide (p ∈ ForbiddenPeers b) || bool_decide (p ∈ BaselinePeers b) then (s, modified)
              else (put s depKey (set_peers b ({[p]} ∪ BaselinePeers b) (ForbiddenPeers b)), {[depKey]} ∪ modified)
  end.

Definition isUnknownLockedPeer (s : Store) (depKey : string) (p : Peer) (now : Time) : bool :=
  match baselines s !! depKey with
  | None => false
  | Some b => if negb (UserLocked b) && After (ObservationPeriodEnd b) now then false
              else negb (bool_decide (p ∈ BaselinePeers b))
  end.

(** The peer of the source, and of the destination, of a flow. *)
Definition egress_peer (conn : ConnIndicator) : Peer :=
  let anonDst := AnonymizeExternalDiscoveredEntity (DstEntity conn) in
  {| IsIngress := false; PeerEntity := anonDst; DstPort := C_DstPort conn; PeerProtocol := C_Protocol conn;
     CidrBlock := cidrOf anonDst |}.
Definition ingress_peer (conn : ConnIndicator) : Peer :=
  let anonSrc := AnonymizeExternalDiscoveredEntity (SrcEntity conn) in
  {| IsIngress := true; PeerEntity := anonSrc; DstPort := C_DstPort conn; PeerProtocol := C_Protocol conn;
     CidrBlock := cidrOf anonSrc |}.

Definition is_deployment (e : Entity) : bool := bool_decide (Type_ e = EntityDeployment).

Definition classifyLockedFlow (s : Store) (srcDepKey dstDepKey : string) (conn : ConnIndicator) (now : Time)
  : EvaluateResult :=
  if is_deployment (SrcEntity conn) && (srcDepKey != "")
     && isUnknownLockedPeer s srcDepKey (egress_peer conn) now then ResultAnomaly
  else if is_deployment (DstEntity conn) && (dstDepKey != "")
     && isUnknownLockedPeer s dstDepKey (ingress_peer conn) now then ResultAnomaly
  else ResultKnown.

Definition valid_end (e : Entity) : bool := ValidPeerEntityTypes (Type_ e) && (ID e != "").

Definition ProcessFlowUpdate (s : Store) (conn : ConnIndicator) (now : Time) : Store * EvaluateResult :=
  if negb (valid_end (SrcEntity conn) && valid_end (DstEntity conn)) then (s, ResultKnown)
  else
    let '(s, srcDepKey) := ensureBaseline s (SrcEntity conn) now in
    let '(s, dstDepKey) := ensureBaseline s (DstEntity conn) now in
    if negb (shouldUpdate s srcDepKey dstDepKey (FlowTS conn) now) then
      (s, classifyLockedFlow s srcDepKey dstDepKey conn now)
    else
      let '(s, modified) := if is_deployment (SrcEntity conn) && (srcDepKey != "")
                            then maybeAddPeer s srcDepKey (egress_peer conn) ∅ else (s, ∅) in
      let '(s, modified) := if is_deployment (DstEntity conn) && (dstDepKey != "")
                            then maybeAddPeer s dstDepKey (ingress_peer conn) modified else (s, modified) in
      (markDirty s modified, ResultObserving).

(** ** Binaries *)

Definition ProcessExecUpdate (s : Store) (ns depName binary : string) (execTS now : Time) : Store * EvaluateResult :=
  if (ns == "") || (depName == "") || (binary == "") then (s, ResultKnown)
  else
    let '(s, key) := ensureBaseline s {| ID := ns +:+ "/" +:+ depName; Type_ := EntityDeployment;
                                         Name := depName; Discovered := false |} now in
    match baselines s !! key with
    | None => (s, ResultKnown)
    | Some b =>
        let compareTime := if IsZero execTS then now else execTS in
        let locked := UserLocked b || negb (After (ObservationPeriodEnd b) compareTime) in
        if negb locked then
          (if bool_decide (binary ∈ BaselineBinaries b) then s
           else markDirty (put s key (set_binaries b ({[binary]} ∪ BaselineBinaries b))) {[key]},
           ResultObserving)
        else if bool_decide (binary ∈ BaselineBinaries b) then (s, ResultKnown)
        else (s, ResultAnomaly)
    end.

(** ** Persistence

    The table network_baselines of one cluster: a row per key. The sets of
    peers and binaries are JSON objects whose keys are the members; the key of a
    peer is its text. A timestamp column keeps microseconds. *)

Definition timestamptz (t : Time) : Time := (t / 1000 * 1000)%Z.

(** *** [base64.RawURLEncoding] *)

Definition base64_char (v : Z) : ascii :=
  (if v <? 26 then ascii_of (65 + v) else if v <? 52 then ascii_of (71 + v) else if v <? 62 then ascii_of (v - 4)
   else if v =? 62 then "-"%char else "_"%char)%Z.

Definition base64_value (c : ascii) : option Z :=
  let b := byte_of c in
  (if (65 <=? b) && (b <=? 90) then Some (b - 65) else if (97 <=? b) && (b <=? 122) then Some (b - 71)
   else if (48 <=? b) && (b <=? 57) then Some (b + 4) else if b =? 45 then Some 62 else if b =? 95 then Some 63 else None)%Z.

(** Three bytes make four characters; one or two left over make two or three. *)
Fixpoint EncodeToString (s : string) : string :=
  match s with
  | EmptyString => ""
  | String a EmptyString =>
      let x := byte_of a in String (base64_char (x / 4)) (String (base64_char (x mod 4 * 16)) "")
  | String a (String b EmptyString) =>
      let '(x, y) := (byte_of a, byte_of b) in
      String (base64_char (x / 4)) (String (base64_char (x mod 4 * 16 + y / 16)) (String (base64_char (y mod 16 * 4)) ""))
  | String a (String b (String c s')) =>
      let '(x, y, z) := (byte_of a, byte_of b, byte_of c) in
      String (base64_char (x / 4)) (String (base64_char (x mod 4 * 16 + y / 16))
        (String (base64_char (y mod 16 * 4 + z / 64)) (String (base64_char (z mod 64)) (EncodeToString s'))))
  end.

Definition line_break (c : ascii) : bool := Ascii.eqb c "010" || Ascii.eqb c "013".

Fixpoint decode_quantums (s : string) : option string :=
  match s with
  | EmptyString => Some ""
  | String a s1 =>
      u ← base64_value a;
      match s1 with
      | EmptyString => None
      | String b s2 =>
          v ← base64_value b;
          match s2 with
          | EmptyString => Some (String (ascii_of (u * 4 + v / 16)) "")
          | String c s3 =>
              w ← base64_value c;
              match s3 with
              | EmptyString => Some (String (ascii_of (u * 4 + v / 16)) (String (ascii_of (v mod 16 * 16 + w / 4)) ""))
              | String d s4 =>
                  x ← base64_value d; rest ← decode_quantums s4;
                  Some (String (ascii_of (u * 4 + v / 16)) (String (ascii_of (v mod 16 * 16 + w / 4))
                          (String (ascii_of (w mod 4 * 64 + x)) rest)))
              end
          end
      end
  end.

(** Line breaks are skipped. *)
Fixpoint without_breaks (s : string) : string :=
  match s with EmptyString => "" | String c s' => if line_break c then without_breaks s' else String c (without_breaks s') end.
Definition DecodeString (s : string) : option string := decode_quantums (without_breaks s).

(** *** The text of a peer *)

Record peerWire := { W_I : bool; W_E : Entity; W_P : Z; W_X : Protocol; W_C : string }.

(** Strings that JSON writes as they are: others get U+FFFD for bytes that are
    no UTF-8. *)
Definition entity_text (e : Entity) : Prop :=
  ValidString (ID e) = true ∧ ValidString (Name e) = true
  ∧ match Type_ e with EntityOther s => ValidString s = true | _ => True end.
Definition wire_text (w : peerWire) : Prop := entity_text (W_E w) ∧ ValidString (W_C w) = true.

(** Package encoding/json, and the jsonb columns between: an object with the
    given keys, each with an empty object as its value, and the keys of such a
    document in any order; [None] is an error, or null. *)
Class BaselineJSON := {
  JsonDoc : Type;
  json_object : list string → JsonDoc;
  json_keys : JsonDoc → option (list string);
  json_keys_back : ∀ ks, NoDup ks → Forall (λ k, ValidString k = true) ks →
    ∃ ks', json_keys (json_object ks) = Some ks' ∧ ks' ≡ₚ ks;
  json_wire : peerWire → option string;
  json_unwire : string → option peerWire;
  json_wire_back : ∀ w, wire_text w → ∃ raw, json_wire w = Some raw ∧ json_unwire raw = Some w;
}.

Section Persistence.
Context {J : BaselineJSON}.

Definition MarshalText (p : Peer) : option string :=
  raw ← json_wire {| W_I := IsIngress p; W_E := PeerEntity p; W_P := DstPort p; W_X := PeerProtocol p; W_C := CidrBlock p |};
  Some (EncodeToString raw).

Definition UnmarshalText (text : string) : option Peer :=
  raw ← DecodeString text; w ← json_unwire raw;
  Some {| IsIngress := W_I w; PeerEntity := W_E w; DstPort := W_P w; PeerProtocol := W_X w; CidrBlock := W_C w |}.

(** [json.Marshal] and [json.Unmarshal] of a set of peers, and of binaries. *)
Definition marshal_peers (ps : gset Peer) : option JsonDoc := json_object <$> mapM MarshalText (elements ps).
Definition unmarshal_peers (doc : JsonDoc) : option (gset Peer) := list_to_set <$> (json_keys doc ≫= mapM UnmarshalText).
Definition marshal_binaries (bs : gset string) : JsonDoc := json_object (elements bs).
Definition unmarshal_binaries (doc : JsonDoc) : option (gset string) := list_to_set <$> json_keys doc.

(** *** The table *)

Record Row := {
  r_ns : string; r_dep_name : string; r_dep_id : string; r_end : Time; r_locked : bool;
  r_peers : JsonDoc; r_forbidden : JsonDoc; r_binaries : JsonDoc;
}.
Abbreviation Table := (gmap string Row).

(** The upsert: a conflicting row keeps its names. [ok] is false when the
    statement fails; without the documents there is no statement. *)
Definition persistOne (db : Table) (key : string) (b : BaselineInfo) (ok : bool) : Table :=
  match marshal_peers (BaselinePeers b) with
  | None => db
  | Some bp =>
      match marshal_peers (ForbiddenPeers b) with
      | None => db
      | Some fp =>
          if negb ok then db
          else
            let old := db !! key in
            <[key := {| r_ns := from_option r_ns (B_Namespace b) old;
                        r_dep_name := from_option r_dep_name (DeploymentName b) old;
                        r_dep_id := from_option r_dep_id (DeploymentID b) old;
                        r_end := timestamptz (ObservationPeriodEnd b); r_locked := UserLocked b;
                        r_peers := bp; r_forbidden := fp; r_binaries := marshal_binaries (BaselineBinaries b) |}]> db
      end
  end.

Definition persistModified (s : Store) (db : Table) (keys : list string) (ok : string → bool) : Table :=
  foldr (λ key db, match baselines s !! key with
                   | Some b => persistOne db key b (ok key)
                   | None => db
                   end) db keys.

(** A row as [Load] reads it: a column it cannot read is an empty set. *)
Definition read_row (r : Row) : BaselineInfo :=
  {| B_Namespace := r_ns r; DeploymentName := r_dep_name r; DeploymentID := r_dep_id r;
     ObservationPeriodEnd := r_end r; UserLocked := r_locked r;
     BaselinePeers := default ∅ (unmarshal_peers (r_peers r));
     ForbiddenPeers := default ∅ (unmarshal_peers (r_forbidden r));
     BaselineBinaries := default ∅ (unmarshal_binaries (r_binaries r)) |}.

(** The statement fails, or its rows come, [None] for one that cannot be
    scanned, and whether there was an error at their end. *)
Definition load_rows (s : Store) (rows : list (option Row)) : Store :=
  foldl (λ s row, match row with
                  | Some r => put s (r_ns r +:+ "/" +:+ r_dep_name r) (read_row r)
                  | None => s
                  end) s rows.
Definition Load (s : Store) (answer : option (list (option Row) * bool)) : Store * bool :=
  match answer with
  | None => (s, false)
  | Some (rows, ok) => (load_rows s rows, ok)
  end.
End Persistence.

(** [flushDirty] up to [persistModified]: the keys to write are taken. *)
Definition take_dirty (s : Store) : Store * list string :=
  ({| baselines := baselines s; observationPeriod := observationPeriod s; dirty := ∅ |}, elements (dirty s)).

Definition Stats (s : Store) : nat * nat :=
  (size (baselines s), foldr (λ e n, size (BaselinePeers e.2) + n)%nat 0%nat (map_to_list (baselines s))).

Definition StateMap (s : Store) (now : Time) : gmap string string :=
  (λ b, if UserLocked b then "user_locked"
        else if After now (ObservationPeriodEnd b) then "locked" else "observing") <$> baselines s.

Example bucket_v4 : bucketToCIDR "10.20.30.40" = "10.20.30.0/24".
Proof. vm_compute. reflexivity. Qed.
Example bucket_v6 : bucketToCIDR "2001:db8:1:2::7" = "2001:db8:1::/48".
Proof. vm_compute. reflexivity. Qed.
