(* ===== verification/BaselineProps.v ===== *)
(** * What a baseline promises

    Learned and forbidden peers never overlap; what was learned stays known;
    what is forbidden is never learned; a locked baseline does not move. *)

From stdpp Require Import base list gmap strings.
From S2P Require Import Prelude GoStrings GoNet Baseline.
Local Open Scope string_scope.
Local Open Scope list_scope.
Local Open Scope go_scope.

(** ** How one baseline may change *)

(** Observing traffic only adds peers and binaries to a baseline, and nothing
    to a locked one or to the forbidden peers. *)
Record observed (b b' : BaselineInfo) : Prop := {
  o_more : BaselinePeers b ⊆ BaselinePeers b';
  o_forbidden : ForbiddenPeers b' = ForbiddenPeers b;
  o_new : ∀ p, p ∈ BaselinePeers b' → p ∈ BaselinePeers b ∨ p ∉ ForbiddenPeers b;
  o_end : ObservationPeriodEnd b' = ObservationPeriodEnd b;
  o_lock : UserLocked b' = UserLocked b;
  o_locked : UserLocked b = true → BaselinePeers b' = BaselinePeers b ∧ BaselineBinaries b' = BaselineBinaries b;
  o_binaries : BaselineBinaries b ⊆ BaselineBinaries b';
}.

#[export] Instance observed_preorder : PreOrder observed.
Proof.
  split; [intros b; by constructor; auto|].
  intros a b c [Hm Hf Hn He Hl Hk Hb] [Hm' Hf' Hn' He' Hl' Hk' Hb']. constructor; try congruence.
  - by transitivity (BaselinePeers b).
  - intros p Hp. destruct (Hn' p Hp) as [Hp'|Hp']; [auto|]. right. by rewrite <-Hf.
  - intros Ha. destruct (Hk Ha) as [<- <-]. apply Hk'. congruence.
  - by transitivity (BaselineBinaries b).
Qed.

Definition fresh_baseline (b : BaselineInfo) : Prop := BaselinePeers b ## ForbiddenPeers b ∧ UserLocked b = false.

(** The store moves by observation: every baseline evolves so, and new ones
    start clean. *)
Record store_observed (s s' : Store) : Prop := {
  so_old : ∀ k b, baselines s !! k = Some b → ∃ b', baselines s' !! k = Some b' ∧ observed b b';
  so_new : ∀ k b', baselines s' !! k = Some b' → baselines s !! k = None → fresh_baseline b';
}.

#[export] Instance store_observed_refl : Reflexive store_observed.
Proof. intros s. constructor; [eauto|congruence]. intros k b Hb. exists b. split; [done|reflexivity]. Qed.

Lemma store_observed_trans s1 s2 s3 :
  store_observed s1 s2 → store_observed s2 s3 → store_observed s1 s3.
Proof.
  intros [H1 H2] [H3 H4]. constructor.
  - intros k b Hb. destruct (H1 k b Hb) as (b' & Hb' & Ho). destruct (H3 k b' Hb') as (b'' & Hb'' & Ho').
    exists b''. split; [done|]. by transitivity b'.
  - intros k b3 Hb3 Hn. destruct (baselines s2 !! k) as [b2|] eqn:Hb2; [|eauto].
    destruct (H3 k b2 Hb2) as (b' & Hb' & [? Hf Hnew _ Hl _ _]). rewrite Hb3 in Hb'. injection Hb' as <-.
    destruct (H2 k b2 Hb2 Hn) as [Hd Hu]. split; [|congruence].
    rewrite Hf. intros p Hp Hp'. destruct (Hnew p Hp); [|done]. by apply (Hd p).
Qed.

(** Replacing one baseline by an observation of it. *)
Lemma put_observed s k b b' :
  baselines s !! k = Some b → observed b b' → store_observed s (put s k b').
Proof.
  intros Hb Ho. constructor; simpl.
  - intros k' b0 Hb0. destruct (decide (k' = k)) as [->|Hk].
    + rewrite lookup_insert_eq. exists b'. split; [done|]. congruence.
    + rewrite lookup_insert_ne by done. exists b0. split; [done|reflexivity].
  - intros k' b0 Hb0 Hn. destruct (decide (k' = k)) as [->|Hk]; [congruence|].
    rewrite lookup_insert_ne in Hb0 by done. congruence.
Qed.

Lemma dirty_observed s d : store_observed s (markDirty s d).
Proof. constructor; simpl; [|congruence]. intros k b Hb. exists b. split; [done|reflexivity]. Qed.

Lemma ensure_observed s e now : store_observed s (ensureBaseline s e now).1.
Proof.
  unfold ensureBaseline. case_if; simpl; [reflexivity|].
  destruct (baselines s !! ID e) as [b|] eqn:Hb; simpl; [reflexivity|].
  destruct (Cut (ID e) _) as [[ns rest] ok]. simpl. constructor; simpl.
  - intros k b Hk. rewrite lookup_insert_ne by congruence. exists b. split; [done|reflexivity].
  - intros k b Hk Hn. destruct (decide (k = ID e)) as [->|Hne].
    + rewrite lookup_insert_eq in Hk. injection Hk as <-. split; [set_solver|done].
    + rewrite lookup_insert_ne in Hk by done. congruence.
Qed.

Lemma add_observed s k p m b :
  baselines s !! k = Some b → UserLocked b = false → store_observed s (maybeAddPeer s k p m).1.
Proof.
  intros Hb Hl. unfold maybeAddPeer. rewrite Hb. case_if; simpl; [reflexivity|]. bool_hyps.
  repeat match goal with H : bool_decide _ = false |- _ => apply bool_decide_eq_false in H end.
  eapply put_observed; [done|]. constructor; simpl; try done; try set_solver. congruence.
Qed.

(** Learning happens only when neither end is locked. *)
Lemma should_update_unlocked s keys t seen k b :
  should_update s keys t seen = true → k ∈ keys → k ≠ "" → baselines s !! k = Some b → UserLocked b = false.
Proof.
  revert seen. induction keys as [|k' keys IH]; intros seen Hs Hin Hk Hb; [by apply not_elem_of_nil in Hin|].
  simpl in Hs. apply elem_of_cons in Hin as [->|Hin].
  - destruct (String.eqb_spec k' ""); [done|]. rewrite Hb in Hs. by destruct (UserLocked b).
  - destruct (String.eqb_spec k' ""); [eauto|]. destruct (baselines s !! k') as [b'|]; [|done].
    destruct (UserLocked b'); [done|eauto].
Qed.

Lemma maybe_add_lookup s k p m k' :
  k' ≠ k → baselines (maybeAddPeer s k p m).1 !! k' = baselines s !! k'.
Proof.
  intros Hk. unfold maybeAddPeer. destruct (baselines s !! k); [|done]. case_if; [done|].
  simpl. by rewrite lookup_insert_ne.
Qed.

Lemma maybe_add_locked s k p m b :
  baselines s !! k = Some b →
  ∃ b', baselines (maybeAddPeer s k p m).1 !! k = Some b' ∧ UserLocked b' = UserLocked b.
Proof.
  intros Hb. unfold maybeAddPeer. rewrite Hb. case_if; simpl; [eauto|]. rewrite lookup_insert_eq. eauto.
Qed.

Lemma flow_observed s conn now : store_observed s (ProcessFlowUpdate s conn now).1.
Proof.
  unfold ProcessFlowUpdate. case_if; [reflexivity|].
  destruct (ensureBaseline s (SrcEntity conn) now) as [s1 src] eqn:E1.
  pose proof (ensure_observed s (SrcEntity conn) now) as H1. rewrite E1 in H1.
  destruct (ensureBaseline s1 (DstEntity conn) now) as [s2 dst] eqn:E2.
  pose proof (ensure_observed s1 (DstEntity conn) now) as H2. rewrite E2 in H2. simpl in H1, H2.
  pose proof (store_observed_trans _ _ _ H1 H2) as H12.
  destruct (shouldUpdate s2 src dst (FlowTS conn) now) eqn:Hu; simpl; [|done].
  assert (∀ k b, k ∈ [src; dst] → k ≠ "" → baselines s2 !! k = Some b → UserLocked b = false) as Hun.
  { intros k b. unfold shouldUpdate in Hu. by apply should_update_unlocked with (1 := Hu). }
  set (add1 := if is_deployment (SrcEntity conn) && (src != "") then _ else _).
  assert (store_observed s2 add1.1 ∧ ∀ k b, k ∈ [src; dst] → k ≠ "" → baselines add1.1 !! k = Some b →
            UserLocked b = false) as [H3 Hun3].
  { unfold add1. case_if; [|split; [reflexivity|done]]. bool_hyps.
    destruct (baselines s2 !! src) as [b|] eqn:Hb.
    2: { unfold maybeAddPeer. rewrite Hb. split; [reflexivity|done]. }
    split; [eapply add_observed; [done|]; apply (Hun src); auto; left|].
    intros k b0 Hk Hk0 Hb0. destruct (decide (k = src)) as [->|Hne].
    - destruct (maybe_add_locked s2 src (egress_peer conn) ∅ b Hb) as (b' & Hb' & Hl).
      rewrite Hb0 in Hb'. injection Hb' as ->. rewrite Hl. eauto.
    - rewrite maybe_add_lookup in Hb0 by done. eauto. }
  destruct add1 as [s3 m3]. simpl in H3, Hun3.
  set (add2 := if is_deployment (DstEntity conn) && (dst != "") then _ else _).
  assert (store_observed s3 add2.1) as H4.
  { unfold add2. case_if; [|reflexivity]. bool_hyps. destruct (baselines s3 !! dst) as [b|] eqn:Hb.
    - eapply add_observed; [done|]. apply (Hun3 dst); auto. right. left.
    - unfold maybeAddPeer. rewrite Hb. reflexivity. }
  destruct add2 as [s4 m4]. simpl in *.
  eapply store_observed_trans; [exact H12|]. eapply store_observed_trans; [exact H3|].
  eapply store_observed_trans; [exact H4|]. apply dirty_observed.
Qed.

Lemma exec_observed s ns dep bin ts now : store_observed s (ProcessExecUpdate s ns dep bin ts now).1.
Proof.
  unfold ProcessExecUpdate. case_if; [reflexivity|].
  destruct (ensureBaseline s _ now) as [s1 key] eqn:E1.
  pose proof (ensure_observed s {| ID := ns +:+ "/" +:+ dep; Type_ := EntityDeployment; Name := dep;
                                   Discovered := false |} now) as Hen. rewrite E1 in Hen. simpl in Hen.
  destruct (baselines s1 !! key) as [b|] eqn:Hb; [|done].
  case_if; simpl.
  - case_if; [done|]. eapply store_observed_trans; [done|]. eapply store_observed_trans; [|apply dirty_observed].
    eapply put_observed; [done|]. bool_hyps. constructor; simpl; try done; try set_solver. congruence.
  - case_if; done.
Qed.

(** ** Runs *)

Inductive op :=
| OFlow (conn : ConnIndicator) (now : Time)
| OExec (ns dep bin : string) (ts now : Time)
| OForbid (ns dep : string) (p : Peer)
| OBaseline (ns dep : string) (p : Peer)
| OLock (ns dep : string).

Definition step (s : Store) (o : op) : Store :=
  match o with
  | OFlow conn now => (ProcessFlowUpdate s conn now).1
  | OExec ns dep bin ts now => (ProcessExecUpdate s ns dep bin ts now).1
  | OForbid ns dep p => MarkForbidden s ns dep p
  | OBaseline ns dep p => MarkBaseline s ns dep p
  | OLock ns dep => LockBaseline s ns dep
  end.

Definition run (s : Store) (ops : list op) : Store := foldl step s ops.

Definition separate (s : Store) : Prop :=
  map_Forall (λ _ b, BaselinePeers b ## ForbiddenPeers b) (baselines s).

Lemma observed_separate s s' : store_observed s s' → separate s → separate s'.
Proof.
  intros [Ho Hn] Hs k b' Hb'. destruct (baselines s !! k) as [b|] eqn:Hb; [|by destruct (Hn k b' Hb' Hb)].
  destruct (Ho k b Hb) as (b'' & Hb'' & [? Hf Hnew _ _ _ _]). rewrite Hb' in Hb''. injection Hb'' as <-.
  rewrite Hf. intros p Hp Hp'. destruct (Hnew p Hp); [|done]. by apply (Hs k b Hb p).
Qed.

Lemma mutate_lookup s ns dep fn k :
  baselines (mutateBaseline s ns dep fn) !! k =
  (if bool_decide (k = ns +:+ "/" +:+ dep) then fn <$> baselines s !! k else baselines s !! k).
Proof.
  unfold mutateBaseline. case_bool_decide as Hk; subst.
  - destruct (baselines s !! _) as [b|] eqn:Hb; simpl; [by rewrite lookup_insert_eq|by rewrite ?Hb].
  - destruct (baselines s !! (ns +:+ "/" +:+ dep)); simpl; [by rewrite lookup_insert_ne|done].
Qed.

Lemma mutate_separate s ns dep fn :
  (∀ b, BaselinePeers b ## ForbiddenPeers b → BaselinePeers (fn b) ## ForbiddenPeers (fn b)) →
  separate s → separate (mutateBaseline s ns dep fn).
Proof.
  intros Hfn Hs k b Hb. rewrite mutate_lookup in Hb. case_bool_decide; [|by apply (Hs k)].
  apply fmap_Some in Hb as (b0 & Hb0 & ->). by apply Hfn, (Hs k).
Qed.

Lemma step_separate s o : separate s → separate (step s o).
Proof.
  destruct o; simpl; intros Hs.
  - eapply observed_separate; [apply flow_observed|done].
  - eapply observed_separate; [apply exec_observed|done].
  - apply mutate_separate; [simpl; set_solver|done].
  - apply mutate_separate; [simpl; set_solver|done].
  - by apply mutate_separate.
Qed.

(** The learned and the forbidden peers of a deployment never overlap, on
    any sequence of flows, executions and operator decisions. *)
Theorem peers_separate period ops :
  map_Forall (λ _ b, BaselinePeers b ## ForbiddenPeers b) (baselines (run (New period) ops)).
Proof.
  unfold run. assert (separate (New period)) as H0 by apply map_Forall_empty.
  revert H0. generalize (New period). induction ops as [|o ops IH]; intros s Hs; simpl; [done|].
  by apply IH, step_separate.
Qed.

(** ** What was learned stays known *)

(** A peer or its removal by an operator. *)
Definition forbids (k : string) (p : Peer) (o : op) : Prop :=
  match o with OForbid ns dep p' => ns +:+ "/" +:+ dep = k ∧ p' = p | _ => False end.

Definition has_peer (s : Store) (k : string) (p : Peer) : Prop :=
  ∃ b, baselines s !! k = Some b ∧ p ∈ BaselinePeers b.

Lemma observed_has_peer s s' k p : store_observed s s' → has_peer s k p → has_peer s' k p.
Proof.
  intros [Ho _] (b & Hb & Hp). destruct (Ho k b Hb) as (b' & Hb' & []). exists b'. set_solver.
Qed.

Lemma mutate_has_peer s ns dep fn k p :
  (k = ns +:+ "/" +:+ dep → ∀ b, p ∈ BaselinePeers b → p ∈ BaselinePeers (fn b)) →
  has_peer s k p → has_peer (mutateBaseline s ns dep fn) k p.
Proof.
  intros Hfn (b & Hb & Hp). unfold has_peer. rewrite mutate_lookup. case_bool_decide; [|eauto].
  rewrite Hb. simpl. eexists. split; [done|]. auto.
Qed.

Lemma run_has_peer s ops k p :
  (∀ o, o ∈ ops → ¬ forbids k p o) → has_peer s k p → has_peer (run s ops) k p.
Proof.
  revert s. induction ops as [|o ops IH]; intros s Hf Hp; simpl; [done|].
  apply IH; [intros o' Ho'; apply Hf; by right|].
  assert (¬ forbids k p o) as Ho by (apply Hf; left). destruct o; simpl in *.
  - eapply observed_has_peer; [apply flow_observed|done].
  - eapply observed_has_peer; [apply exec_observed|done].
  - apply mutate_has_peer; [|done]. simpl. intros -> b Hb.
    destruct (decide (p0 = p)); [exfalso; by apply Ho|]. set_solver.
  - apply mutate_has_peer; [|done]. simpl. set_solver.
  - apply mutate_has_peer; [|done]. done.
Qed.

Lemma ensure_key s e now :
  is_deployment e = true → (ensureBaseline s e now).2 = ID e
  ∧ is_Some (baselines (ensureBaseline s e now).1 !! ID e).
Proof.
  unfold is_deployment. intros He. apply bool_decide_eq_true in He. unfold ensureBaseline.
  rewrite bool_decide_true by done. simpl. destruct (baselines s !! ID e) as [b|] eqn:Hb; [simpl; rewrite ?Hb; by eauto|].
  destruct (Cut (ID e) _) as [[ns rest] ok]. simpl. rewrite lookup_insert_eq. by eauto.
Qed.

Lemma ensure_other s e now : is_deployment e = false → ensureBaseline s e now = (s, "").
Proof.
  unfold is_deployment, ensureBaseline. intros He. apply bool_decide_eq_false in He.
  by rewrite bool_decide_false.
Qed.

(** A flow of a deployment to something that is not one. *)
Definition outbound (conn : ConnIndicator) : Prop :=
  is_deployment (SrcEntity conn) = true ∧ is_deployment (DstEntity conn) = false
  ∧ ID (SrcEntity conn) ≠ "".

Lemma outbound_flow s conn now : outbound conn → valid_end (SrcEntity conn) && valid_end (DstEntity conn) = true →
  let s1 := (ensureBaseline s (SrcEntity conn) now).1 in
  let k := ID (SrcEntity conn) in
  ProcessFlowUpdate s conn now =
  if shouldUpdate s1 k "" (FlowTS conn) now
  then (markDirty (maybeAddPeer s1 k (egress_peer conn) ∅).1 (maybeAddPeer s1 k (egress_peer conn) ∅).2, ResultObserving)
  else (s1, if isUnknownLockedPeer s1 k (egress_peer conn) now then ResultAnomaly else ResultKnown).
Proof.
  intros (Hsrc & Hdst & Hid) Hv. unfold ProcessFlowUpdate. rewrite Hv. simpl.
  destruct (ensure_key s (SrcEntity conn) now Hsrc) as [Hk _].
  destruct (ensureBaseline s (SrcEntity conn) now) as [s1 src]. simpl in *. subst src.
  rewrite ensure_other by done. unfold classifyLockedFlow. rewrite Hsrc, Hdst. simpl.
  destruct (String.eqb_spec (ID (SrcEntity conn)) ""); [done|]. simpl.
  destruct (shouldUpdate _ _ _ _ _); simpl; [|done]. by destruct (maybeAddPeer _ _ _ _).
Qed.

(** The baseline of a deployment after [ensureBaseline] forbids what it forbade
    before, and nothing if it is new. *)
Lemma ensure_forbidden s e now b :
  is_deployment e = true → baselines (ensureBaseline s e now).1 !! ID e = Some b →
  ForbiddenPeers b = match baselines s !! ID e with Some b0 => ForbiddenPeers b0 | None => ∅ end.
Proof.
  unfold is_deployment, ensureBaseline. intros He. rewrite He. simpl.
  destruct (baselines s !! ID e) as [b0|] eqn:Hb0; [simpl; congruence|].
  destruct (Cut (ID e) _) as [[ns rest] ok]. simpl. rewrite lookup_insert_eq. by intros [= <-].
Qed.

(** An observed flow is learned unless it is forbidden. *)
Lemma observing_has_peer s conn now :
  outbound conn → valid_end (SrcEntity conn) && valid_end (DstEntity conn) = true →
  (ProcessFlowUpdate s conn now).2 = ResultObserving →
  (∀ b, baselines s !! ID (SrcEntity conn) = Some b → egress_peer conn ∉ ForbiddenPeers b) →
  has_peer (ProcessFlowUpdate s conn now).1 (ID (SrcEntity conn)) (egress_peer conn).
Proof.
  intros Hout Hv Hobs Hforb. rewrite (outbound_flow s conn now Hout Hv) in *.
  set (k := ID (SrcEntity conn)) in *. set (p := egress_peer conn) in *. set (s1 := (ensureBaseline s _ now).1) in *.
  destruct (shouldUpdate s1 k "" (FlowTS conn) now); [|by destruct (isUnknownLockedPeer _ _ _ _)].
  destruct (ensure_key s (SrcEntity conn) now) as [_ [b Hb]]; [by apply Hout|]. fold s1 k in Hb.
  assert (p ∉ ForbiddenPeers b) as Hpf.
  { rewrite (ensure_forbidden s (SrcEntity conn) now b) by (by apply Hout || done). fold k.
    destruct (baselines s !! k) as [b0|] eqn:Hb0; [auto|set_solver]. }
  unfold has_peer. simpl. unfold maybeAddPeer. rewrite Hb.
  rewrite (bool_decide_false _ Hpf). simpl. case_bool_decide as Hin; simpl; [eauto|].
  rewrite lookup_insert_eq. eexists. split; [done|]. simpl. set_solver.
Qed.

(** A known peer is never an anomaly. *)
Lemma has_peer_quiet s conn now :
  outbound conn → valid_end (SrcEntity conn) && valid_end (DstEntity conn) = true →
  has_peer s (ID (SrcEntity conn)) (egress_peer conn) → (ProcessFlowUpdate s conn now).2 ≠ ResultAnomaly.
Proof.
  intros Hout Hv Hp. rewrite (outbound_flow _ conn now Hout Hv).
  destruct (shouldUpdate _ _ _ _ _); [done|]. simpl.
  apply (observed_has_peer _ _ _ _ (ensure_observed s (SrcEntity conn) now)) in Hp as (b & Hb & Hin).
  unfold isUnknownLockedPeer. rewrite Hb, (bool_decide_true _ Hin). simpl. by destruct (negb _ && _).
Qed.

(** What a deployment was seen doing while observed never counts against
    it: once an outbound flow has been learned (it was observed and is not
    forbidden), the same flow is not an anomaly after any further traffic,
    locking or expiry, unless an operator forbids that peer. *)
Theorem learned_never_anomalous s conn now ops later :
  outbound conn → (ProcessFlowUpdate s conn now).2 = ResultObserving →
  (∀ b, baselines s !! ID (SrcEntity conn) = Some b → egress_peer conn ∉ ForbiddenPeers b) →
  (∀ o, o ∈ ops → ¬ forbids (ID (SrcEntity conn)) (egress_peer conn) o) →
  (ProcessFlowUpdate (run (ProcessFlowUpdate s conn now).1 ops) conn later).2 ≠ ResultAnomaly.
Proof.
  intros Hout Hobs Hforb Hops.
  destruct (valid_end (SrcEntity conn) && valid_end (DstEntity conn)) eqn:Hv.
  - by apply has_peer_quiet, run_has_peer, observing_has_peer.
  - unfold ProcessFlowUpdate in *. by rewrite Hv in *.
Qed.

(** A locked baseline is a fixed list: an outbound flow of a locked
    deployment leaves the store as it is and is an anomaly exactly when its
    peer is not on the list. *)
Theorem locked_is_exact s conn now b :
  outbound conn → valid_end (SrcEntity conn) && valid_end (DstEntity conn) = true →
  baselines s !! ID (SrcEntity conn) = Some b → UserLocked b = true →
  ProcessFlowUpdate s conn now
  = (s, if bool_decide (egress_peer conn ∈ BaselinePeers b) then ResultKnown else ResultAnomaly).
Proof.
  intros Hout Hv Hb Hl. rewrite outbound_flow by done.
  assert ((ensureBaseline s (SrcEntity conn) now).1 = s) as ->.
  { unfold ensureBaseline. case_if; [done|]. by rewrite Hb. }
  destruct Hout as (_ & _ & Hid). unfold shouldUpdate. simpl.
  destruct (String.eqb_spec (ID (SrcEntity conn)) ""); [done|]. rewrite Hb, Hl.
  unfold isUnknownLockedPeer. rewrite Hb, Hl. simpl. by case_bool_decide.
Qed.

(** ** A concrete deployment *)

Definition web : Entity := {| ID := "prod/web"; Type_ := EntityDeployment; Name := "web"; Discovered := false |}.
Definition to_dns : ConnIndicator :=
  {| SrcEntity := web; DstEntity := ExternalEntity "8.8.8.8"; C_DstPort := 53%Z; C_Protocol := TCP; FlowTS := 100%Z |}.
Definition to_c2 : ConnIndicator :=
  {| SrcEntity := web; DstEntity := ExternalEntity "6.6.6.6"; C_DstPort := 4444%Z; C_Protocol := TCP; FlowTS := 100%Z |}.

Lemma learned_never_anomalous_witness :
  (ProcessFlowUpdate (run (ProcessFlowUpdate (New Hour) to_dns 50%Z).1 [OLock "prod" "web"]) to_dns 900%Z).2 ≠ ResultAnomaly.
Proof.
  apply (learned_never_anomalous (New Hour) to_dns 50%Z [OLock "prod" "web"] 900%Z).
  - repeat split. discriminate.
  - vm_compute. reflexivity.
  - intros b Hb. discriminate Hb.
  - intros o Ho. apply list_elem_of_singleton in Ho. subst o. intros [].
Defined.

Definition locked_web : BaselineInfo :=
  {| B_Namespace := "prod"; DeploymentName := "web"; DeploymentID := "prod/web"; ObservationPeriodEnd := 10%Z;
     UserLocked := true; BaselinePeers := {[egress_peer to_dns]}; ForbiddenPeers := ∅; BaselineBinaries := ∅ |}.
Definition locked_store : Store :=
  {| baselines := {[ "prod/web" := locked_web ]}; observationPeriod := Hour; dirty := ∅ |}.

Lemma locked_is_exact_witness :
  ProcessFlowUpdate locked_store to_c2 60%Z
  = (locked_store, if bool_decide (egress_peer to_c2 ∈ BaselinePeers locked_web) then ResultKnown else ResultAnomaly).
Proof.
  apply (locked_is_exact locked_store to_c2 60%Z locked_web).
  - repeat split. discriminate.
  - vm_compute. reflexivity.
  - apply lookup_singleton_eq.
  - reflexivity.
Defined.
