(* ===== verification/Recon.v ===== *)
(** * anomaly/internal/recon: port-scan and suspicious-port detection

    recon.go: per source deployment and destination address, the recent port
    hits; five distinct ports within a minute are a scan, reported once per two
    minutes. *)

From stdpp Require Import base list gmap strings.
From S2P Require Import Prelude GoStrings.
Local Open Scope Z_scope.
Local Open Scope list_scope.

Definition ScanWindow : Duration := Minute.
Definition ScanThreshold : nat := 5.

Definition suspiciousPorts : list (Z * string) :=
  [(22, "ssh"); (23, "telnet"); (512, "rexec"); (513, "rlogin"); (514, "rsh"); (1080, "socks-proxy");
   (1337, "c2-common"); (4444, "metasploit-default"); (4445, "metasploit-alt"); (5555, "android-adb");
   (6666, "irc-c2"); (6667, "irc"); (7777, "c2-common"); (8888, "c2-common"); (9001, "tor");
   (9050, "tor-socks"); (9051, "tor-control"); (31337, "elite-c2"); (65535, "backdoor-common")]%string.

Definition port_label (p : Z) : option string := snd <$> List.find (λ e, e.1 =? p) suspiciousPorts.

Inductive AlertKind := KindPortScan | KindSuspiciousPort.

Record Alert := {
  A_Kind : AlertKind;
  A_SrcDeployment : string;
  A_SrcNamespace : string;
  A_DstIP : string;
  A_Ports : list Z;
  A_Port : Z;
  A_PortLabel : string;
  A_WindowStart : Time;
  A_WindowEnd : Time;
  A_Count : nat;
}.

Record portHit := { h_port : Z; h_ts : Time }.

Record portWindow := { hits : list portHit; alerted : bool; alertedAt : Time }.

Abbreviation windowKey := (string * string)%type.

Record Detector := { windows : gmap windowKey portWindow }.

Definition New : Detector := {| windows := ∅ |}.

Definition fresh_hits (cutoff : Time) (l : list portHit) : list portHit :=
  List.filter (λ h, After (h_ts h) cutoff) l.

(** The ports in order of their first hit. *)
Fixpoint distinct (seen : gset Z) (l : list portHit) : list Z :=
  match l with
  | [] => []
  | h :: l' => if bool_decide (h_port h ∈ seen) then distinct seen l'
               else h_port h :: distinct ({[h_port h]} ∪ seen) l'
  end.

(** The window with the expired hits removed, and the ports left. *)
Definition uniquePortsInWindow (w : portWindow) (now : Time) : portWindow * list Z :=
  let fresh := fresh_hits (TAdd now (- ScanWindow)) (hits w) in
  ({| hits := fresh; alerted := alerted w; alertedAt := alertedAt w |}, distinct ∅ fresh).

Definition empty_window : portWindow := {| hits := []; alerted := false; alertedAt := 0 |}.

Definition Observe (d : Detector) (srcNS srcDep dstIP : string) (dstPort : Z) (ts now : Time)
  : Detector * list Alert :=
  let ts := if IsZero ts then now else ts in
  let susp := match port_label dstPort with
              | Some label =>
                  [{| A_Kind := KindSuspiciousPort; A_SrcDeployment := srcDep; A_SrcNamespace := srcNS;
                      A_DstIP := dstIP; A_Ports := []; A_Port := dstPort; A_PortLabel := label;
                      A_WindowStart := ts; A_WindowEnd := ts; A_Count := 1 |}]
              | None => []
              end in
  let key := ((srcNS +:+ "/" +:+ srcDep)%string, dstIP) in
  let w := default empty_window (windows d !! key) in
  let w := {| hits := snoc (hits w) {| h_port := dstPort; h_ts := ts |};
              alerted := alerted w; alertedAt := alertedAt w |} in
  let '(w, ports) := uniquePortsInWindow w ts in
  let w := if alerted w && (2 * ScanWindow <? TSub ts (alertedAt w))
           then {| hits := hits w; alerted := false; alertedAt := alertedAt w |} else w in
  let shouldAlert := (ScanThreshold <=? length ports)%nat && negb (alerted w) in
  let w := if shouldAlert then {| hits := hits w; alerted := true; alertedAt := ts |} else w in
  ({| windows := <[key := w]> (windows d) |},
   susp ++ (if shouldAlert then
              [{| A_Kind := KindPortScan; A_SrcDeployment := srcDep; A_SrcNamespace := srcNS;
                  A_DstIP := dstIP; A_Ports := ports; A_Port := 0; A_PortLabel := ""%string;
                  A_WindowStart := TAdd ts (- ScanWindow); A_WindowEnd := ts; A_Count := length ports |}]
            else [])).

(** The windows that still have hits after removing those older than two
    minutes. *)
Definition clean_window (cutoff : Time) (w : portWindow) : option portWindow :=
  let fresh := fresh_hits cutoff (hits w) in
  match fresh with
  | [] => None
  | _ => Some {| hits := fresh; alerted := alerted w; alertedAt := alertedAt w |}
  end.

Definition cleanup (d : Detector) (now : Time) : Detector :=
  {| windows := omap (clean_window (TAdd now (- (2 * ScanWindow)))) (windows d) |}.

Definition Stats (d : Detector) : nat * nat :=
  (size (windows d), foldr (λ e n, length (hits e.2) + n)%nat 0%nat (map_to_list (windows d))).

(** * The scan detector counts exactly

    Pruning and cleanup never lose a hit that still counts, and scans are
    reported when due and no more often than every two minutes. *)



Definition is_scan (a : Alert) : bool := match A_Kind a with KindPortScan => true | _ => false end.
Definition scan_alert (l : list Alert) : bool := any is_scan l.

Definition scan_key (ns dep ip : string) : windowKey := ((ns +:+ "/" +:+ dep)%string, ip).

(** All hits of a key, in order. *)
Definition key_log (log : list (windowKey * portHit)) (k : windowKey) : list portHit :=
  map snd (List.filter (λ e, bool_decide (e.1 = k)) log).

(** [reach d now log last]: the detector after the observations [log], the
    clock at [now]; [last] holds the time of the latest scan alert per key. *)
Inductive reach : Detector → Time → list (windowKey * portHit) → gmap windowKey Time → Prop :=
| reach_new t : unixEpoch ≤ t < horizon → reach New t [] ∅
| reach_observe d t log last ns dep ip port ts now :
    reach d t log last → t ≤ ts < horizon →
    reach (Observe d ns dep ip port ts now).1 ts
      (snoc log (scan_key ns dep ip, {| h_port := port; h_ts := ts |}))
      (if scan_alert (Observe d ns dep ip port ts now).2 then <[scan_key ns dep ip := ts]> last else last)
| reach_cleanup d t log last now :
    reach d t log last → t ≤ now < horizon → reach (cleanup d now) now log last.

(** ** Hits *)

Lemma fresh_fresh c c0 l : c0 ≤ c → fresh_hits c (fresh_hits c0 l) = fresh_hits c l.
Proof.
  intros Hc. unfold fresh_hits. induction l as [|h l IH]; simpl; [done|].
  destruct (After (h_ts h) c0) eqn:E; simpl.
  - destruct (After (h_ts h) c); by rewrite IH.
  - unfold After in *. apply Z.ltb_ge in E.
    assert ((c <? h_ts h) = false) as -> by (apply Z.ltb_ge; lia). done.
Qed.

Lemma fresh_snoc c l h : fresh_hits c (snoc l h) = fresh_hits c l ++ fresh_hits c [h].
Proof. apply List.filter_app. Qed.

Lemma key_log_snoc log k k' h :
  key_log (snoc log (k', h)) k = if bool_decide (k' = k) then snoc (key_log log k) h else key_log log k.
Proof.
  unfold key_log, snoc. rewrite List.filter_app, map_app. simpl.
  case_bool_decide; simpl; [done|by rewrite app_nil_r].
Qed.

Definition window_hits (d : Detector) (k : windowKey) : list portHit :=
  hits (default empty_window (windows d !! k)).

(** What [Observe] does to the window of its key, and to the others. *)
Definition next_window (w : portWindow) (port : Z) (ts : Time) : portWindow * list Z :=
  uniquePortsInWindow
    {| hits := snoc (hits w) {| h_port := port; h_ts := ts |}; alerted := alerted w; alertedAt := alertedAt w |} ts.

Definition muted (w : portWindow) (ts : Time) : bool :=
  alerted w && negb (2 * ScanWindow <? TSub ts (alertedAt w)).

Lemma observe_spec d ns dep ip port ts now :
  0 < ts →
  let k := scan_key ns dep ip in
  let w := default empty_window (windows d !! k) in
  let '(w1, ports) := next_window w port ts in
  let fire := (ScanThreshold <=? length ports)%nat && negb (muted w ts) in
  scan_alert (Observe d ns dep ip port ts now).2 = fire
  ∧ (∀ k', k' ≠ k → windows (Observe d ns dep ip port ts now).1 !! k' = windows d !! k')
  ∧ windows (Observe d ns dep ip port ts now).1 !! k
    = Some {| hits := hits w1; alerted := fire || muted w ts; alertedAt := if fire then ts else alertedAt w |}.
Proof.
  intros Hts k w. unfold Observe, next_window. assert (IsZero ts = false) as -> by (apply Z.eqb_neq; lia).
  fold (scan_key ns dep ip). fold k. fold w. unfold uniquePortsInWindow. cbn [alerted alertedAt hits].
  set (ports := distinct ∅ _). unfold muted.
  assert (∀ x, scan_alert (match port_label port with
    | Some label => [{| A_Kind := KindSuspiciousPort; A_SrcDeployment := dep; A_SrcNamespace := ns;
                        A_DstIP := ip; A_Ports := []; A_Port := port; A_PortLabel := label;
                        A_WindowStart := ts; A_WindowEnd := ts; A_Count := 1 |}]
    | None => [] end ++ x) = scan_alert x) as Hsusp by (intros x; by destruct (port_label port)).
  destruct (alerted w) eqn:Ha, (2 * ScanWindow <? TSub ts (alertedAt w)), (ScanThreshold <=? length ports)%nat;
    cbn [andb orb negb alerted alertedAt hits fst snd windows]; rewrite Hsusp;
    (split_and!; [done|intros k' Hk'; by rewrite lookup_insert_ne|by rewrite lookup_insert_eq]).
Qed.

(** ** The invariant *)

Record rinv (d : Detector) (t : Time) (log : list (windowKey * portHit)) (last : gmap windowKey Time) : Prop := {
  r_time : unixEpoch ≤ t < horizon;
  r_hits : ∀ k c, t - ScanWindow ≤ c → fresh_hits c (window_hits d k) = fresh_hits c (key_log log k);
  r_past : ∀ k h, h ∈ window_hits d k → h_ts h ≤ t;
  r_last : ∀ k t', last !! k = Some t' → unixEpoch ≤ t' ≤ t ∧
             ((∃ w, windows d !! k = Some w ∧ alerted w = true ∧ alertedAt w = t') ∨ t' + 2 * ScanWindow ≤ t);
  r_alerted : ∀ k w, windows d !! k = Some w → alerted w = true →
                last !! k = Some (alertedAt w) ∧ ∃ h, h ∈ hits w ∧ alertedAt w ≤ h_ts h;
}.

Lemma fresh_elem c h l : h ∈ fresh_hits c l ↔ h ∈ l ∧ c < h_ts h.
Proof.
  unfold fresh_hits, After. rewrite !list_elem_of_In, filter_In, Z.ltb_lt. done.
Qed.

Lemma window_hits_ne d d' k : windows d' !! k = windows d !! k → window_hits d' k = window_hits d k.
Proof. unfold window_hits. by intros ->. Qed.

Lemma muted_spec w ts : unixEpoch ≤ ts < horizon → unixEpoch ≤ alertedAt w < horizon →
  muted w ts = true ↔ alerted w = true ∧ ts ≤ alertedAt w + 2 * ScanWindow.
Proof.
  intros H1 H2. unfold muted. rewrite TSub_exact by done.
  rewrite andb_true_iff, negb_true_iff, Z.ltb_ge. lia || (intuition lia).
Qed.

(** A muted window was already there, with the time of the last alert. *)
Lemma muted_last d t log last k ts :
  rinv d t log last → muted (default empty_window (windows d !! k)) ts = true →
  last !! k = Some (alertedAt (default empty_window (windows d !! k))).
Proof.
  intros Hinv Hm. unfold muted in Hm. apply andb_prop in Hm as [Hm _].
  destruct (windows d !! k) as [w0|] eqn:Hw0; simpl in *; [|done].
  by apply (r_alerted _ _ _ _ Hinv k w0).
Qed.

(** One observation at [ts]: the window of the key [k] gets the hit, the others
    stay. *)
Section Step.
  Context (d d' : Detector) (t ts : Time) (log : list (windowKey * portHit)) (last : gmap windowKey Time).
  Context (k : windowKey) (w : portWindow) (port : Z) (fire : bool).
Let hit := {| h_port := port; h_ts := ts |}.
Let kept := fresh_hits (ts - ScanWindow) (snoc (hits w) hit).
Let last' := if fire then <[k := ts]> last else last.
  Context (Hinv : rinv d t log last) (Hts : t ≤ ts < horizon) (Hw : default empty_window (windows d !! k) = w).
  Context (Hne : ∀ k', k' ≠ k → windows d' !! k' = windows d !! k').
  Context (Heq : windows d' !! k = Some {| hits := kept; alerted := fire || muted w ts;
                                           alertedAt := if fire then ts else alertedAt w |}).

Lemma window_positive : 0 < ScanWindow.
Proof. done. Qed.

Lemma step_hits_k : window_hits d' k = kept.
Proof. unfold window_hits. by rewrite Heq. Qed.

Lemma step_last_ne k' : k' ≠ k → last' !! k' = last !! k'.
Proof. intros Hk. unfold last'. destruct fire; [by rewrite lookup_insert_ne|done]. Qed.

Lemma step_kept_hit : hit ∈ kept.
Proof.
  pose proof window_positive. apply fresh_elem. split; [apply elem_of_app; right; by left|simpl; lia].
Qed.

Lemma step_hits k' c : ts - ScanWindow ≤ c →
  fresh_hits c (window_hits d' k') = fresh_hits c (key_log (snoc log (k, hit)) k').
Proof.
  intros Hc. rewrite key_log_snoc. case_bool_decide as Hk.
  - subst k'. rewrite step_hits_k. unfold kept. rewrite fresh_fresh, !fresh_snoc by lia. f_equal.
    rewrite <- Hw. apply (r_hits _ _ _ _ Hinv). lia.
  - rewrite (window_hits_ne d d') by (apply Hne; done). apply (r_hits _ _ _ _ Hinv). lia.
Qed.

Lemma step_past k' h : h ∈ window_hits d' k' → h_ts h ≤ ts.
Proof.
  pose proof (r_past _ _ _ _ Hinv) as Hp. destruct (decide (k' = k)) as [->|Hk].
  - rewrite step_hits_k. intros [[Hin|Hin]%elem_of_app _]%fresh_elem.
    + subst w. specialize (Hp k h Hin). lia.
    + apply list_elem_of_singleton in Hin. subst h. simpl. lia.
  - rewrite (window_hits_ne d d') by (apply Hne; done). intros Hin. specialize (Hp k' h Hin). lia.
Qed.

Lemma step_last_k t' : last' !! k = Some t' → unixEpoch ≤ t' ≤ ts ∧
  ((∃ w', windows d' !! k = Some w' ∧ alerted w' = true ∧ alertedAt w' = t') ∨ t' + 2 * ScanWindow ≤ ts).
Proof.
  pose proof (r_time _ _ _ _ Hinv). unfold last'. rewrite Heq. destruct fire.
  - rewrite lookup_insert_eq. intros [= <-]. split; [lia|]. left. by eexists.
  - intros Hk. destruct (r_last _ _ _ _ Hinv k t' Hk) as [Ht' Hcase]. split; [lia|].
    destruct (muted w ts) eqn:Hm.
    + left. eexists. split; [done|]. split; [done|]. simpl. rewrite <- Hw in Hm |- *. pose proof (muted_last _ _ _ _ _ _ Hinv Hm) as Hla.
      assert (Some (alertedAt (default empty_window (windows d !! k))) = Some t') as [= ?] by (by rewrite <- Hla). done.
    + right. destruct Hcase as [(w0 & Hw0 & Ha0 & Hat)|?]; [|lia].
      rewrite Hw0 in Hw. simpl in Hw. subst w0.
      destruct (Z.le_gt_cases ts (alertedAt w + 2 * ScanWindow)); [|lia].
      assert (muted w ts = true); [|congruence]. apply muted_spec; [lia|lia|]. split; [done|lia].
Qed.

Lemma step_rinv : rinv d' ts (snoc log (k, hit)) last'.
Proof.
  pose proof (r_time _ _ _ _ Hinv). constructor; [lia|apply step_hits|apply step_past| |].
  - intros k' t' Hk'. destruct (decide (k' = k)) as [->|Hk]; [by apply step_last_k|].
    rewrite step_last_ne in Hk' by done. destruct (r_last _ _ _ _ Hinv k' t' Hk') as [? Hcase].
    split; [lia|]. rewrite Hne by done. destruct Hcase; [by left|right; lia].
  - intros k' w' Hw' Haw. destruct (decide (k' = k)) as [->|Hk].
    + rewrite Heq in Hw'. injection Hw' as <-. cbn [alerted alertedAt hits] in *.
      pose proof step_kept_hit as Hhit. unfold last'. destruct fire.
      * rewrite lookup_insert_eq. split; [done|]. exists hit. split; [done|simpl; lia].
      * simpl in Haw. rewrite <- Hw in Haw |- *.
        pose proof (muted_last _ _ _ _ _ _ Hinv Haw) as Hla. split; [done|]. exists hit. split; [done|].
        destruct (r_last _ _ _ _ Hinv k _ Hla) as [? _]. simpl. lia.
    + rewrite Hne in Hw' by done. rewrite step_last_ne by done. by apply (r_alerted _ _ _ _ Hinv).
Qed.
End Step.

Lemma observe_rinv d t log last ns dep ip port ts now :
  rinv d t log last → t ≤ ts < horizon →
  rinv (Observe d ns dep ip port ts now).1 ts
    (snoc log (scan_key ns dep ip, {| h_port := port; h_ts := ts |}))
    (if scan_alert (Observe d ns dep ip port ts now).2 then <[scan_key ns dep ip := ts]> last else last).
Proof.
  intros Hinv Hts. pose proof (r_time _ _ _ _ Hinv).
  pose proof (observe_spec d ns dep ip port ts now ltac:(pose proof epoch_pos; lia)) as (Hfire & Hne & Heq).
  eapply step_rinv; [done|done|reflexivity|exact Hne|]. rewrite Hfire. exact Heq.
Qed.

(** Dropping hits older than two minutes loses nothing that counts, and no
    window still muted. *)
Lemma cleanup_lookup d now k :
  windows (cleanup d now) !! k = windows d !! k ≫= clean_window (TAdd now (- (2 * ScanWindow))).
Proof. apply lookup_omap. Qed.

Lemma cleanup_hits d now k :
  window_hits (cleanup d now) k = fresh_hits (now - 2 * ScanWindow) (window_hits d k).
Proof.
  unfold window_hits. rewrite cleanup_lookup. unfold TAdd, clean_window.
  replace (now + - (2 * ScanWindow)) with (now - 2 * ScanWindow) by lia.
  destruct (windows d !! k) as [w|]; simpl; [|done].
  by destruct (fresh_hits (now - 2 * ScanWindow) (hits w)) eqn:E; simpl; rewrite ?E.
Qed.

Lemma cleanup_some d now k w :
  windows d !! k = Some w → (∃ h, h ∈ hits w ∧ now - 2 * ScanWindow < h_ts h) →
  ∃ w', windows (cleanup d now) !! k = Some w' ∧ alerted w' = alerted w ∧ alertedAt w' = alertedAt w.
Proof.
  intros Hw (h & Hin & Hh). rewrite cleanup_lookup, Hw. simpl. unfold clean_window, TAdd.
  replace (now + - (2 * ScanWindow)) with (now - 2 * ScanWindow) by lia.
  assert (h ∈ fresh_hits (now - 2 * ScanWindow) (hits w)) as Hf by (by apply fresh_elem).
  destruct (fresh_hits _ _) eqn:E; [by apply not_elem_of_nil in Hf|]. by eexists.
Qed.

Lemma cleanup_inv d now k w' :
  windows (cleanup d now) !! k = Some w' →
  ∃ w, windows d !! k = Some w ∧ alerted w' = alerted w ∧ alertedAt w' = alertedAt w
       ∧ hits w' = fresh_hits (now - 2 * ScanWindow) (hits w) ∧ hits w' ≠ [].
Proof.
  rewrite cleanup_lookup. unfold clean_window, TAdd.
  replace (now + - (2 * ScanWindow)) with (now - 2 * ScanWindow) by lia.
  destruct (windows d !! k) as [w|]; simpl; [|done].
  destruct (fresh_hits _ _) eqn:E; [done|]. intros [= <-]. exists w. by rewrite E.
Qed.

Lemma cleanup_rinv d t log last now :
  rinv d t log last → t ≤ now < horizon → rinv (cleanup d now) now log last.
Proof.
  intros [Ht Hh Hp Hl Ha] Hnow. pose proof window_positive. constructor; [lia| | | |].
  - intros k c Hc. rewrite cleanup_hits, fresh_fresh by lia. apply Hh. lia.
  - intros k h. rewrite cleanup_hits. intros [Hin _]%fresh_elem. specialize (Hp k h Hin). lia.
  - intros k t' Hk. destruct (Hl k t' Hk) as [? [(w & Hw & Hal & Hat)|?]]; (split; [lia|]); [|right; lia].
    destruct (Ha k w Hw Hal) as (_ & h & Hin & Hge).
    destruct (Z.lt_ge_cases (now - 2 * ScanWindow) (h_ts h)); [left|].
    + destruct (cleanup_some d now k w Hw) as (w' & ? & ? & ?); [by exists h|]. exists w'. split_and!; congruence.
    + right. lia.
  - intros k w' Hw' Hal. destruct (cleanup_inv _ _ _ _ Hw') as (w & Hw & E1 & E2 & E3 & Hnil).
    destruct (Ha k w Hw ltac:(congruence)) as (Hla & h & Hin & Hge). rewrite E2. split; [done|].
    destruct (Z.lt_ge_cases (now - 2 * ScanWindow) (h_ts h)) as [Hlt|Hge'].
    + exists h. rewrite E3, fresh_elem. done.
    + destruct (hits w') as [|h' l] eqn:El; [done|]. exists h'. split; [by left|].
      assert (h' ∈ fresh_hits (now - 2 * ScanWindow) (hits w)) as [_ Hh']%fresh_elem by (rewrite <- E3; by left). lia.
Qed.

Lemma reach_rinv d t log last : reach d t log last → rinv d t log last.
Proof.
  induction 1 as [t Ht|d t log last ns dep ip port ts now _ IH Hts|d t log last now _ IH Hnow].
  - constructor; [done| | | |].
    + done.
    + intros k h. unfold window_hits. simpl. rewrite lookup_empty. by intros ?%not_elem_of_nil.
    + intros k t'. by rewrite lookup_empty.
    + intros k w. simpl. by rewrite lookup_empty.
  - by apply observe_rinv with t.
  - by apply cleanup_rinv with t.
Qed.

(** The ports hit within the last minute, from the whole history. *)
Definition recent_ports (log : list (windowKey * portHit)) (k : windowKey) (ts : Time) : list Z :=
  distinct ∅ (fresh_hits (ts - ScanWindow) (key_log log k)).

(** C7: on every run of observations and cleanups with a clock that does not
    go back and stays between 1970 and 2116, scan alerts agree with counting
    over the whole history, whatever was pruned: an observation reports a scan
    only if the source reached at least five distinct ports of the address
    within the last minute and the previous report is at least two minutes
    old, and it does report one if there are five such ports and the previous
    report is more than two minutes old. *)
Theorem scan_exact d t log last ns dep ip port ts now :
  reach d t log last → t ≤ ts < horizon →
  let k := scan_key ns dep ip in
  let ports := recent_ports (snoc log (k, {| h_port := port; h_ts := ts |})) k ts in
  let fired := scan_alert (Observe d ns dep ip port ts now).2 in
  (fired = true → (5 ≤ length ports)%nat ∧ ∀ t', last !! k = Some t' → t' + 2 * ScanWindow ≤ ts)
  ∧ ((5 ≤ length ports)%nat → (∀ t', last !! k = Some t' → t' + 2 * ScanWindow < ts) → fired = true).
Proof.
  intros Hr Hts k ports fired. pose proof (reach_rinv _ _ _ _ Hr) as Hinv. pose proof (r_time _ _ _ _ Hinv) as Ht.
  pose proof (observe_spec d ns dep ip port ts now ltac:(pose proof epoch_pos; lia)) as (Hfire & _).
  fold k fired in Hfire. set (w := default empty_window (windows d !! k)) in *.
  assert (distinct ∅ (fresh_hits (TAdd ts (- ScanWindow)) (snoc (hits w) {| h_port := port; h_ts := ts |})) = ports) as Hports.
  { unfold ports, recent_ports, TAdd. rewrite key_log_snoc, bool_decide_eq_true_2 by done.
    replace (ts + - ScanWindow) with (ts - ScanWindow) by lia. rewrite !fresh_snoc. do 2 f_equal.
    apply (r_hits _ _ _ _ Hinv). lia. }
  cbn [uniquePortsInWindow hits] in Hfire. rewrite Hports in Hfire. split.
  - rewrite Hfire. intros [Hlen%Nat.leb_le Hm%negb_true_iff]%andb_prop. split; [done|].
    intros t' Hk. destruct (r_last _ _ _ _ Hinv k t' Hk) as [? [(w0 & Hw0 & Ha & Hat)|?]]; [|lia].
    assert (w = w0) as Hww by (unfold w; by rewrite Hw0). rewrite Hww in Hm.
    destruct (Z.le_gt_cases ts (alertedAt w0 + 2 * ScanWindow)); [|lia].
    assert (muted w0 ts = true); [|congruence]. apply muted_spec; [lia|lia|]. split; [done|lia].
  - intros Hlen Hall. rewrite Hfire. apply andb_true_intro. split; [by apply Nat.leb_le|].
    apply negb_true_iff. destruct (muted w ts) eqn:Hm; [|done]. exfalso.
    pose proof (muted_last _ _ _ _ _ _ Hinv Hm) as Hla. fold w in Hla. specialize (Hall _ Hla).
    destruct (r_last _ _ _ _ Hinv k _ Hla) as [? _].
    apply muted_spec in Hm; lia.
Qed.

Definition scan_run (ports : list Z) : Detector :=
  foldl (λ d p, (Observe d "shop" "web" "10.0.0.9" p newYear newYear).1) New ports.

Definition scan_log (ports : list Z) : list (windowKey * portHit) :=
  map (λ p, (scan_key "shop" "web" "10.0.0.9", {| h_port := p; h_ts := newYear |})) ports.

Lemma scan_exact_witness :
  reach (scan_run [80; 443; 8080; 8443]) newYear (scan_log [80; 443; 8080; 8443]) ∅
  ∧ scan_alert (Observe (scan_run [80; 443; 8080; 8443]) "shop" "web" "10.0.0.9" 9090 (newYear + 1) (newYear + 1)).2 = true.
Proof.
  assert (reach (scan_run [80; 443; 8080; 8443]) newYear (scan_log [80; 443; 8080; 8443]) ∅) as Hr.
  { assert (newYear ≤ newYear < horizon) as Hh by (unfold newYear, horizon, Second; lia).
    pose proof (reach_new newYear ltac:(unfold newYear, horizon, Second; lia)) as H0.
    exact (reach_observe _ _ _ _ "shop" "web" "10.0.0.9" 8443 newYear newYear
      (reach_observe _ _ _ _ "shop" "web" "10.0.0.9" 8080 newYear newYear
      (reach_observe _ _ _ _ "shop" "web" "10.0.0.9" 443 newYear newYear
      (reach_observe _ _ _ _ "shop" "web" "10.0.0.9" 80 newYear newYear H0 Hh) Hh) Hh) Hh). }
  split; [done|].
  refine (proj2 (scan_exact _ newYear _ _ "shop" "web" "10.0.0.9" 9090 (newYear + 1) (newYear + 1) Hr _) _ _).
  - unfold newYear, horizon, Second. lia.
  - vm_compute. lia.
  - intros t' Ht'. exfalso. vm_compute in Ht'. discriminate.
Defined.
