(* ===== verification/BaselineStore.v ===== *)
(** * The learned baselines survive a restart

    Every change is written back: what a restart reads from the table is what
    the store had learned, except for keys still waiting to be written or whose
    write failed, and baselines that have learned nothing yet. The rows hold
    JSON and base64 text; [read_row] gives back what [persistOne] wrote. *)

From Stdlib Require Import Ascii.
From stdpp Require Import base list gmap strings.
From S2P Require Import Prelude GoStrings GoNet Baseline BaselineProps.
Local Open Scope string_scope.
Local Open Scope list_scope.
Local Open Scope go_scope.

Definition names (b : BaselineInfo) : string * string * string := (B_Namespace b, DeploymentName b, DeploymentID b).
Definition load_key (b : BaselineInfo) : string := B_Namespace b +:+ "/" +:+ DeploymentName b.

Definition set_end (b : BaselineInfo) (t : Time) : BaselineInfo :=
  {| B_Namespace := B_Namespace b; DeploymentName := DeploymentName b; DeploymentID := DeploymentID b;
     ObservationPeriodEnd := t; UserLocked := UserLocked b;
     BaselinePeers := BaselinePeers b; ForbiddenPeers := ForbiddenPeers b;
     BaselineBinaries := BaselineBinaries b |}.
Definition stored (b : BaselineInfo) : BaselineInfo := set_end b (timestamptz (ObservationPeriodEnd b)).

Definition pristine (b : BaselineInfo) : Prop :=
  BaselinePeers b = ∅ ∧ ForbiddenPeers b = ∅ ∧ BaselineBinaries b = ∅ ∧ UserLocked b = false.

(** Kubernetes names hold no slash: a deployment's key splits back into its
    namespace and name. *)
Definition no_slash (s : string) : Prop := IndexByte s "/" = None.
Definition wf_entity (e : Entity) : Prop :=
  is_deployment e = true → ∃ ns, no_slash ns ∧ ID e = ns +:+ "/" +:+ Name e.

(** Texts are UTF-8, as JSON carries them to the service. *)
Definition peer_text (p : Peer) : Prop := entity_text (PeerEntity p) ∧ ValidString (CidrBlock p) = true.
Definition wf_op (o : op) : Prop :=
  match o with
  | OFlow conn _ => (wf_entity (SrcEntity conn) ∧ wf_entity (DstEntity conn))
                    ∧ entity_text (SrcEntity conn) ∧ entity_text (DstEntity conn)
  | OExec ns _ binary _ _ => no_slash ns ∧ ValidString binary = true
  | OForbid _ _ p | OBaseline _ _ p => peer_text p
  | OLock _ _ => True
  end.

Lemma IndexByte_app s c t : IndexByte s c = None → IndexByte (s +:+ String c t) c = Some (String.length s).
Proof.
  induction s as [|a s IH]; simpl; [by rewrite Ascii.eqb_refl|].
  destruct (Ascii.eqb a c); [done|]. intros H. rewrite IH; [done|]. by destruct (IndexByte s c).
Qed.

Lemma Cut_key ns name : no_slash ns → Cut (ns +:+ "/" +:+ name) "/" = (ns, name, true).
Proof.
  intros H. unfold Cut. change ("/" +:+ name) with (String "/" name). rewrite IndexByte_app by done.
  rewrite stake_app. f_equal. f_equal. change (String "/" name) with ("/" +:+ name).
  rewrite <- app_assoc_s. replace (S (String.length ns)) with (String.length (ns +:+ "/"))
    by (rewrite length_app_s; simpl; lia). apply sdrop_app.
Qed.

Lemma names_key b b' : names b' = names b → load_key b' = load_key b.
Proof. unfold names, load_key. intros [=]. congruence. Qed.

Lemma timestamptz_idem t : timestamptz (timestamptz t) = timestamptz t.
Proof. unfold timestamptz. by rewrite Z.div_mul. Qed.

Lemma stored_idem b : stored (stored b) = stored b.
Proof. unfold stored, set_end. simpl. by rewrite timestamptz_idem. Qed.

(** ** The text of a row *)

Lemma base64_value_char v : (0 ≤ v < 64)%Z → base64_value (base64_char v) = Some v ∧ line_break (base64_char v) = false
  ∧ (byte_of (base64_char v) <? 128)%Z = true.
Proof.
  intros Hv. assert (v ∈ map Z.of_nat (seq 0 64)) as Hin.
  { apply list_elem_of_fmap. exists (Z.to_nat v). split; [lia|]. apply elem_of_seq. lia. }
  clear Hv. revert v Hin. apply (proj1 (Forall_forall _ _)). cbn [seq map].
  repeat (constructor; [by vm_compute|]). constructor.
Qed.

Lemma byte_range a : (0 ≤ byte_of a < 256)%Z.
Proof. unfold byte_of. pose proof (N_ascii_bounded a). lia. Qed.

Lemma ascii_byte a z : z = byte_of a → ascii_of z = a.
Proof. intros ->. unfold ascii_of, byte_of. by rewrite N2Z.id, ascii_N_embedding. Qed.

(** Induction by three bytes. *)
Lemma string_ind3 (P : string → Prop) : P "" → (∀ a, P (String a "")) → (∀ a b, P (String a (String b ""))) →
  (∀ a b c s, P s → P (String a (String b (String c s)))) → ∀ s, P s.
Proof.
  intros H0 H1 H2 H3. fix IH 1. intros [|a [|b [|c s]]]; [done|done|done|]. apply H3, IH.
Qed.

Ltac base64_chars := repeat match goal with
  | |- context [base64_char ?v] =>
      lazymatch goal with H : base64_value (base64_char v) = _ |- _ => fail | _ => idtac end;
      let H1 := fresh in let H2 := fresh in let H3 := fresh in
      destruct (base64_value_char v) as (H1 & H2 & H3); [Z.to_euclidean_division_equations; lia|];
      generalize dependent (base64_char v); intros
  end.

(** What was encoded is decoded to itself; the text is ASCII without breaks. *)
Lemma base64_back s :
  decode_quantums (EncodeToString s) = Some s ∧ without_breaks (EncodeToString s) = EncodeToString s ∧ is_ascii (EncodeToString s) = true.
Proof.
  induction s as [|a|a b|a b c s (IH1 & IH2 & IH3)] using string_ind3; [done|..];
    try pose proof (byte_range a); try pose proof (byte_range b); try pose proof (byte_range c);
    cbn [EncodeToString]; base64_chars; cbn [decode_quantums without_breaks is_ascii];
    repeat match goal with
    | H : base64_value ?c = _ |- _ => rewrite !H; clear H
    | H : line_break ?c = _ |- _ => rewrite !H; clear H
    | H : (byte_of ?c <? 128)%Z = _ |- _ => rewrite !H; clear H
    end; cbn [mbind option_bind]; rewrite ?IH1, ?IH2, ?IH3; (split_and!; [|done..]); cbn [mbind option_bind];
    repeat f_equal; apply ascii_byte; Z.to_euclidean_division_equations; lia.
Qed.

Definition info_text (b : BaselineInfo) : Prop :=
  set_Forall peer_text (BaselinePeers b) ∧ set_Forall peer_text (ForbiddenPeers b)
  ∧ set_Forall (λ x, ValidString x = true) (BaselineBinaries b).
Definition store_text (s : Store) : Prop := ∀ k b, baselines s !! k = Some b → info_text b.

Section Json.
Context {J : BaselineJSON}.

Lemma peer_back p : peer_text p → ∃ t, MarshalText p = Some t ∧ ValidString t = true ∧ UnmarshalText t = Some p.
Proof.
  intros [He Hc]. unfold MarshalText, UnmarshalText, DecodeString.
  destruct (json_wire_back {| W_I := IsIngress p; W_E := PeerEntity p; W_P := DstPort p; W_X := PeerProtocol p; W_C := CidrBlock p |})
    as (raw & -> & Hw); [by split|]. cbn [mbind option_bind]. destruct (base64_back raw) as (Hd & Hb & Ha).
  eexists. split; [done|]. split; [by apply ascii_valid|]. rewrite Hb, Hd. cbn [mbind option_bind]. rewrite Hw. by destruct p.
Qed.

Lemma peers_text_back ps : Forall peer_text ps → NoDup ps →
  ∃ ts, mapM MarshalText ps = Some ts ∧ NoDup ts ∧ Forall (λ t, ValidString t = true) ts ∧ mapM UnmarshalText ts = Some ps.
Proof.
  induction 1 as [|p ps Hp Hps IH]; intros Hnd.
  { exists []. split_and!; [done|constructor..|done]. }
  apply NoDup_cons in Hnd as [Hnin Hnd]. destruct (IH Hnd) as (ts & E1 & Hts & Hv & E2).
  destruct (peer_back p Hp) as (t & Et & Hvt & Eu). exists (t :: ts). cbn. rewrite Et, E1, Eu, E2. cbn. split_and!; [done| |by constructor|done].
  constructor; [|done]. intros Hin. apply Hnin. apply mapM_Some in E2.
  apply list_elem_of_lookup in Hin as [i Hi]. destruct (Forall2_lookup_l _ _ _ _ _ E2 Hi) as (q & Hq & Eq).
  apply list_elem_of_lookup. exists i. congruence.
Qed.

Lemma peers_back ps : set_Forall peer_text ps → ∃ doc, marshal_peers ps = Some doc ∧ unmarshal_peers doc = Some ps.
Proof.
  intros Hps. destruct (peers_text_back (elements ps)) as (ts & E1 & Hnd & Hv & E2); [|apply NoDup_elements|].
  { apply Forall_forall. intros p Hp. by apply Hps, elem_of_elements. }
  unfold marshal_peers, unmarshal_peers. rewrite E1. cbn [fmap option_fmap option_map]. eexists. split; [done|].
  destruct (json_keys_back ts Hnd Hv) as (ts' & -> & Hp). cbn [mbind option_bind].
  apply mapM_Some in E2. destruct (Permutation_Forall2 (symmetry Hp) E2) as (ps' & Hps' & E2').
  apply mapM_Some in E2'. rewrite E2'. cbn. f_equal. rewrite <-Hps'. apply list_to_set_elements_L.
Qed.

Lemma binaries_back bs : set_Forall (λ x, ValidString x = true) bs → unmarshal_binaries (marshal_binaries bs) = Some bs.
Proof.
  intros Hbs. unfold unmarshal_binaries, marshal_binaries. destruct (json_keys_back (elements bs)) as (ks & -> & Hp).
  { apply NoDup_elements. }
  { apply Forall_forall. intros x Hx. by apply Hbs, elem_of_elements. }
  cbn. f_equal. rewrite Hp. apply list_to_set_elements_L.
Qed.
End Json.

(** ** Every change is noted *)

(** From [s] to [s'], with the keys [m] about to be marked. *)
Record tracked (m : gset string) (s s' : Store) : Prop := {
  t_dirty : dirty s ⊆ dirty s';
  t_keep : ∀ k b, baselines s !! k = Some b →
             ∃ b', baselines s' !! k = Some b' ∧ names b' = names b ∧ (b' = b ∨ k ∈ dirty s' ∪ m);
  t_new : ∀ k b', baselines s !! k = None → baselines s' !! k = Some b' →
             load_key b' = k ∧ (pristine b' ∨ k ∈ dirty s' ∪ m);
}.

Lemma tracked_refl m s : tracked m s s.
Proof. constructor; [done| |congruence]. intros k b Hb. exists b. auto. Qed.

Lemma tracked_trans m m' s1 s2 s3 : m ⊆ m' → tracked m s1 s2 → tracked m' s2 s3 → tracked m' s1 s3.
Proof.
  intros Hm [D1 K1 N1] [D2 K2 N2]. constructor; [set_solver| |].
  - intros k b Hb. destruct (K1 k b Hb) as (b2 & Hb2 & E2 & C2). destruct (K2 k b2 Hb2) as (b3 & Hb3 & E3 & C3).
    exists b3. split_and!; [done|congruence|]. destruct C3 as [->|]; [|by right].
    destruct C2 as [->|]; [by left|right; set_solver].
  - intros k b3 Hn Hb3. destruct (baselines s2 !! k) as [b2|] eqn:Hb2; [|by apply N2].
    destruct (N1 k b2 Hn Hb2) as [HN HP]. destruct (K2 k b2 Hb2) as (b3' & Hb3' & E3 & C3).
    rewrite Hb3 in Hb3'. injection Hb3' as <-. split; [by rewrite (names_key _ _ E3)|].
    destruct C3 as [->|]; [|by right]. destruct HP; [by left|right; set_solver].
Qed.

Lemma mark_tracked m s s' : tracked m s s' → tracked ∅ s (markDirty s' m).
Proof.
  intros [D K N]. constructor; simpl; [set_solver| |].
  - intros k b Hb. destruct (K k b Hb) as (b' & ? & ? & [?|?]); exists b'; (split_and!; [done|done|]).
    + by left.
    + right. set_solver.
  - intros k b' Hn Hb. destruct (N k b' Hn Hb) as [? [?|?]]; (split; [done|]); [by left|right; set_solver].
Qed.

Lemma put_tracked s k b b' :
  baselines s !! k = Some b → names b' = names b → tracked {[k]} s (put s k b').
Proof.
  intros Hb Hn. constructor; simpl; [done| |].
  - intros k0 b0 Hb0. destruct (decide (k0 = k)) as [->|Hk].
    + rewrite lookup_insert_eq. exists b'. split_and!; [done|congruence|]. right. set_solver.
    + rewrite lookup_insert_ne by done. exists b0. auto.
  - intros k0 b0 Hn0 Hb0. rewrite lookup_insert_ne in Hb0 by congruence. congruence.
Qed.

Lemma ensure_tracked m s e now : wf_entity e → tracked m s (ensureBaseline s e now).1.
Proof.
  intros Hwf. destruct (is_deployment e) eqn:He; [|rewrite ensure_other by done; apply tracked_refl].
  destruct (Hwf He) as (ns & Hns & Hid). unfold ensureBaseline, is_deployment in *. rewrite He. simpl.
  destruct (baselines s !! ID e) as [b|] eqn:Hb; [apply tracked_refl|].
  pose proof (Cut_key ns (Name e) Hns) as Hcut. rewrite <- Hid in Hcut. rewrite Hcut.
  constructor; simpl; [done| |].
  - intros k b Hk. rewrite lookup_insert_ne by congruence. exists b. auto.
  - intros k b' Hn Hk. destruct (decide (k = ID e)) as [->|Hne].
    + rewrite lookup_insert_eq in Hk. injection Hk as <-. split; [done|]. left. done.
    + rewrite lookup_insert_ne in Hk by done. congruence.
Qed.

Lemma add_tracked s k p m :
  m ⊆ (maybeAddPeer s k p m).2 ∧ tracked (maybeAddPeer s k p m).2 s (maybeAddPeer s k p m).1.
Proof.
  unfold maybeAddPeer. destruct (baselines s !! k) as [b|] eqn:Hb; [|split; [done|apply tracked_refl]].
  case_if; [split; [done|apply tracked_refl]|]. simpl. split; [set_solver|].
  eapply tracked_trans with (s2 := put s k (set_peers b ({[p]} ∪ BaselinePeers b) (ForbiddenPeers b)));
    [|eapply put_tracked; [done|done]|apply tracked_refl]. set_solver.
Qed.

Lemma add_if_tracked s (c : bool) k p m :
  m ⊆ (if c then maybeAddPeer s k p m else (s, m)).2
  ∧ tracked (if c then maybeAddPeer s k p m else (s, m)).2 s (if c then maybeAddPeer s k p m else (s, m)).1.
Proof. destruct c; [apply add_tracked|]. split; [done|apply tracked_refl]. Qed.

Lemma flow_tracked s conn now :
  wf_entity (SrcEntity conn) → wf_entity (DstEntity conn) → tracked ∅ s (ProcessFlowUpdate s conn now).1.
Proof.
  intros Hsrc Hdst. unfold ProcessFlowUpdate. case_if; [apply tracked_refl|].
  pose proof (ensure_tracked ∅ s _ now Hsrc) as H1.
  destruct (ensureBaseline s (SrcEntity conn) now) as [s1 src]. simpl in H1.
  pose proof (ensure_tracked ∅ s1 _ now Hdst) as H2.
  destruct (ensureBaseline s1 (DstEntity conn) now) as [s2 dst]. simpl in H2.
  pose proof (tracked_trans _ _ _ _ _ (reflexivity _) H1 H2) as H12.
  case_if; [done|].
  destruct (add_if_tracked s2 (is_deployment (SrcEntity conn) && (src != "")) src (egress_peer conn) ∅) as [M3 H3].
  destruct (if _ && _ then maybeAddPeer s2 _ _ _ else _) as [s3 m3]. simpl in M3, H3.
  destruct (add_if_tracked s3 (is_deployment (DstEntity conn) && (dst != "")) dst (ingress_peer conn) m3) as [M4 H4].
  destruct (if _ && _ then maybeAddPeer s3 _ _ _ else _) as [s4 m4]. simpl in M4, H4 |- *.
  apply mark_tracked. eapply tracked_trans; [|exact H12|]; [apply empty_subseteq|].
  eapply tracked_trans; eauto.
Qed.

Lemma exec_tracked s ns dep bin ts now : no_slash ns → tracked ∅ s (ProcessExecUpdate s ns dep bin ts now).1.
Proof.
  intros Hns. unfold ProcessExecUpdate. case_if; [apply tracked_refl|].
  pose proof (ensure_tracked ∅ s {| ID := ns +:+ "/" +:+ dep; Type_ := EntityDeployment; Name := dep;
                                    Discovered := false |} now) as Hen.
  destruct (ensureBaseline s _ now) as [s1 key]. simpl in Hen.
  assert (tracked ∅ s s1) as Hen1 by (apply Hen; intros _; by exists ns).
  destruct (baselines s1 !! key) as [b|] eqn:Hb; [|done]. case_if; simpl; [|by case_if].
  case_if; [done|]. eapply mark_tracked. eapply tracked_trans; [|exact Hen1|]; [apply empty_subseteq|].
  eapply put_tracked; [done|done].
Qed.

Lemma mutate_tracked s ns dep fn :
  (∀ b, names (fn b) = names b) → tracked ∅ s (mutateBaseline s ns dep fn).
Proof.
  intros Hfn. unfold mutateBaseline. destruct (baselines s !! _) as [b|] eqn:Hb; [|apply tracked_refl].
  eapply mark_tracked. by eapply put_tracked.
Qed.

Lemma step_tracked s o : wf_op o → tracked ∅ s (step s o).
Proof.
  destruct o; cbn [step wf_op]; intros Hwf; [by apply flow_tracked; apply Hwf|by apply exec_tracked, Hwf|..];
    by apply mutate_tracked.
Qed.

(** ** Every text is UTF-8 *)

Lemma put_text s k b : store_text s → info_text b → store_text (put s k b).
Proof. intros Hs Hb k' b'. unfold put. cbn. intros [[_ <-]|[_ H]]%lookup_insert_Some; [done|by eapply Hs]. Qed.

Lemma ensure_text s e now : store_text s → store_text (ensureBaseline s e now).1.
Proof.
  intros Hs. unfold ensureBaseline. destruct (negb _); [done|]. destruct (baselines s !! ID e); [done|].
  destruct (Cut (ID e) "/") as [[ns ?] ok]. apply put_text; [done|]. by split_and!; apply set_Forall_empty.
Qed.

Lemma add_text s k p m : store_text s → peer_text p → store_text (maybeAddPeer s k p m).1.
Proof.
  intros Hs Hp. unfold maybeAddPeer. destruct (baselines s !! k) as [b|] eqn:Hb; [|done]. destruct (_ || _); [done|].
  destruct (Hs k b Hb) as (H1 & H2 & H3). apply put_text; [done|]. split_and!; cbn; [|done..].
  apply set_Forall_union; [by apply set_Forall_singleton|done].
Qed.

Lemma mutate_text s ns dep fn : store_text s → (∀ b, info_text b → info_text (fn b)) → store_text (mutateBaseline s ns dep fn).
Proof.
  intros Hs Hf. unfold mutateBaseline. destruct (baselines s !! _) as [b|] eqn:Hb; [|done].
  intros k b' H. by apply (put_text s (ns +:+ "/" +:+ dep) (fn b) Hs (Hf b (Hs _ _ Hb)) k b').
Qed.

Lemma anon_text e : entity_text e → entity_text (AnonymizeExternalDiscoveredEntity e).
Proof. intros H. unfold AnonymizeExternalDiscoveredEntity. by case_if. Qed.
Lemma cidr_text e : entity_text e → ValidString (cidrOf e) = true.
Proof. intros (? & ? & ?). unfold cidrOf. by case_if. Qed.

Lemma flow_text s conn now : store_text s → entity_text (SrcEntity conn) → entity_text (DstEntity conn) →
  store_text (ProcessFlowUpdate s conn now).1.
Proof.
  intros Hs H1 H2. assert (peer_text (egress_peer conn)) as Pe by (split; cbn; auto using anon_text, cidr_text).
  assert (peer_text (ingress_peer conn)) as Pi by (split; cbn; auto using anon_text, cidr_text).
  unfold ProcessFlowUpdate. destruct (negb _); [done|].
  pose proof (ensure_text s (SrcEntity conn) now Hs) as Hs1. destruct (ensureBaseline s (SrcEntity conn) now) as [s1 src].
  pose proof (ensure_text s1 (DstEntity conn) now Hs1) as Hs2. destruct (ensureBaseline s1 (DstEntity conn) now) as [s2 dst].
  destruct (negb _); [done|].
  assert (∀ (c : bool) s k p m, store_text s → peer_text p → store_text (if c then maybeAddPeer s k p m else (s, m)).1) as Hadd
    by (intros []; eauto using add_text).
  pose proof (Hadd (is_deployment (SrcEntity conn) && (src != "")) s2 src _ ∅ Hs2 Pe) as Hs3.
  destruct (if _ && _ then maybeAddPeer s2 _ _ _ else _) as [s3 m3].
  pose proof (Hadd (is_deployment (DstEntity conn) && (dst != "")) s3 dst _ m3 Hs3 Pi) as Hs4.
  by destruct (if _ && _ then maybeAddPeer s3 _ _ _ else _) as [s4 m4].
Qed.

Lemma exec_text s ns dep bin ts now : store_text s → ValidString bin = true → store_text (ProcessExecUpdate s ns dep bin ts now).1.
Proof.
  intros Hs Hb. unfold ProcessExecUpdate. destruct (_ || _); [done|].
  pose proof (ensure_text s {| ID := ns +:+ "/" +:+ dep; Type_ := EntityDeployment; Name := dep; Discovered := false |} now Hs) as Hs1.
  destruct (ensureBaseline s _ now) as [s1 key]. cbn [fst] in Hs1.
  destruct (baselines s1 !! key) as [b|] eqn:E; [|done]. destruct (negb _); cbn [fst]; [|by case_if].
  case_if; [done|]. destruct (Hs1 _ _ E) as (H1 & H2 & H3).
  intros k b'. apply (put_text s1 key (set_binaries b ({[bin]} ∪ BaselineBinaries b))); [done|]. split_and!; cbn; [done..|].
  apply set_Forall_union; [by apply set_Forall_singleton|done].
Qed.

Lemma step_text s o : store_text s → wf_op o → store_text (step s o).
Proof.
  intros Hs. destruct o; cbn [step wf_op]; [intros [_ [? ?]]; by apply flow_text|intros [_ ?]; by apply exec_text|..]; intros Hwf;
    apply mutate_text; try done; intros b (H1 & H2 & H3); split_and!; cbn; try done.
  - by intros p' [? _]%elem_of_difference; apply H1.
  - apply set_Forall_union; [by apply set_Forall_singleton|done].
  - apply set_Forall_union; [by apply set_Forall_singleton|done].
  - by intros p' [? _]%elem_of_difference; apply H2.
Qed.

(** ** The table as the baselines its rows give back *)

Abbreviation Infos := (gmap string BaselineInfo).

Definition put_info (db : Infos) (key : string) (b : BaselineInfo) (ok : bool) : Infos :=
  if ok then
    <[key := match db !! key with
             | None => stored b
             | Some old => {| B_Namespace := B_Namespace old; DeploymentName := DeploymentName old; DeploymentID := DeploymentID old;
                              ObservationPeriodEnd := timestamptz (ObservationPeriodEnd b); UserLocked := UserLocked b;
                              BaselinePeers := BaselinePeers b; ForbiddenPeers := ForbiddenPeers b;
                              BaselineBinaries := BaselineBinaries b |}
             end]> db
  else db.

Definition put_infos (s : Store) (db : Infos) (keys : list string) (ok : string → bool) : Infos :=
  foldr (λ key db, match baselines s !! key with Some b => put_info db key b (ok key) | None => db end) db keys.

Definition load_infos (s : Store) (rows : list (string * BaselineInfo)) : Store :=
  foldl (λ s row, put s (load_key row.2) row.2) s rows.

Section Refinement.
Context {J : BaselineJSON}.

Lemma persistOne_info db key b ok : info_text b → read_row <$> persistOne db key b ok = put_info (read_row <$> db) key b ok.
Proof.
  intros (H1 & H2 & H3). unfold persistOne, put_info. destruct (peers_back _ H1) as (bp & -> & E1), (peers_back _ H2) as (fp & -> & E2).
  destruct ok; [|done]. cbn [negb]. rewrite fmap_insert, lookup_fmap. f_equal. unfold read_row at 1. cbn.
  rewrite E1, E2, binaries_back by done. by destruct (db !! key).
Qed.

Lemma persist_infos s db keys ok : store_text s → read_row <$> persistModified s db keys ok = put_infos s (read_row <$> db) keys ok.
Proof.
  intros Hs. induction keys as [|k keys IH]; [done|]. unfold persistModified, put_infos. cbn [foldr].
  fold (persistModified s db keys ok). fold (put_infos s (read_row <$> db) keys ok).
  destruct (baselines s !! k) as [b|] eqn:E; [|done]. rewrite persistOne_info by (by eapply Hs). by rewrite IH.
Qed.

Lemma load_rows_infos s rows : load_rows s (map Some rows) = load_infos s (map (λ r, ("", read_row r)) rows).
Proof. revert s. induction rows as [|r rows IH]; intros s; [done|]. cbn. apply IH. Qed.
End Refinement.

(** ** Runs with the table *)

Section Runs.
Context {J : BaselineJSON}.

(** [preach period s db infl lost]: the store [s] and the table [db] after a
    run; the keys [infl] are taken by the writer and not yet written, the last
    write of the keys [lost] failed. *)
Inductive preach (period : Duration) : Store → gmap string Row → list string → gset string → Prop :=
| pr_new : preach period (New period) ∅ [] ∅
| pr_op s db infl lost o :
    preach period s db infl lost → wf_op o → preach period (step s o) db infl lost
| pr_take s db lost :
    preach period s db [] lost → preach period (take_dirty s).1 db (take_dirty s).2 lost
| pr_write s db infl lost ok :
    preach period s db infl lost →
    preach period s (persistModified s db infl ok) []
      ((lost ∖ list_to_set infl) ∪ list_to_set (List.filter (λ k, negb (ok k)) infl))
| pr_restart s db infl lost rows :
    preach period s db infl lost → rows ≡ₚ map snd (map_to_list db) →
    preach period (Load (New period) (Some (map Some rows, true))).1 db [] ∅.
End Runs.

Record pinv (s : Store) (db : Infos) (infl : list string) (lost : gset string) : Prop := {
  p_named : ∀ k b, baselines s !! k = Some b → load_key b = k;
  p_row : ∀ k r, db !! k = Some r → stored r = r ∧ ∃ b, baselines s !! k = Some b ∧ names r = names b;
  p_saved : ∀ k b, baselines s !! k = Some b →
    k ∈ dirty s ∪ list_to_set infl ∪ lost ∨ db !! k = Some (stored b) ∨ (db !! k = None ∧ pristine b);
}.

Lemma op_pinv s db infl lost o : pinv s db infl lost → wf_op o → pinv (step s o) db infl lost.
Proof.
  intros [Hn Hr Hs] Hwf. destruct (step_tracked s o Hwf) as [D K N]. constructor.
  - intros k b' Hb'. destruct (baselines s !! k) as [b|] eqn:Hb; [|by apply (N k b')].
    destruct (K k b Hb) as (b0 & Hb0 & E & _). rewrite Hb' in Hb0. injection Hb0 as <-.
    rewrite (names_key _ _ E). auto.
  - intros k r Hk. destruct (Hr k r Hk) as (Hst & b & Hb & E). split; [done|].
    destruct (K k b Hb) as (b' & Hb' & E' & _). exists b'. split; [done|congruence].
  - intros k b' Hb'. destruct (baselines s !! k) as [b|] eqn:Hb.
    + destruct (K k b Hb) as (b0 & Hb0 & _ & [->|Hd]); rewrite Hb' in Hb0; injection Hb0 as <-; [|left; set_solver].
      destruct (Hs k b' Hb) as [?|?]; [left; set_solver|by right].
    + destruct (N k b' Hb Hb') as [_ [Hp|Hd]]; [|left; set_solver].
      right. right. split; [|done]. destruct (db !! k) as [r|] eqn:Hk; [|done].
      destruct (Hr k r Hk) as (_ & b & Hb0 & _). congruence.
Qed.

Lemma take_pinv s db lost : pinv s db [] lost → pinv (take_dirty s).1 db (take_dirty s).2 lost.
Proof.
  intros [Hn Hr Hs]. constructor; simpl; [done|done|]. intros k b Hb.
  destruct (Hs k b Hb) as [Hk|?]; [|by right]. left. rewrite list_to_set_elements_L. set_solver.
Qed.

(** A row belongs to a baseline of the store and has its names. *)
Definition rows_named (s : Store) (db : Infos) : Prop :=
  ∀ k r, db !! k = Some r → ∃ b, baselines s !! k = Some b ∧ names r = names b.

Lemma put_info_lookup s db k b ok k' :
  rows_named s db → baselines s !! k = Some b →
  put_info db k b ok !! k' = if bool_decide (k = k') && ok then Some (stored b) else db !! k'.
Proof.
  intros Hr Hb. unfold put_info. destruct ok; [|by rewrite andb_false_r]. rewrite andb_true_r.
  case_bool_decide as Hk; [subst k'|by destruct (db !! k); rewrite lookup_insert_ne].
  destruct (db !! k) as [old|] eqn:Ho; rewrite lookup_insert_eq; [|done].
  destruct (Hr k old Ho) as (b' & Hb' & Hn). rewrite Hb in Hb'. injection Hb' as <-.
  unfold names in Hn. injection Hn as E1 E2 E3. by rewrite E1, E2, E3.
Qed.

Lemma put_info_named s db k b ok :
  rows_named s db → baselines s !! k = Some b → rows_named s (put_info db k b ok).
Proof.
  intros Hr Hb k' r. rewrite (put_info_lookup s) by done.
  case_bool_decide; destruct ok; simpl; try apply Hr. subst k'. intros [= <-]. by exists b.
Qed.

(** The table after writing the keys [l]. *)
Lemma persist_lookup s db l ok :
  rows_named s db → rows_named s (put_infos s db l ok) ∧ ∀ k,
  put_infos s db l ok !! k =
  if bool_decide (k ∈ l) && ok k then
    match baselines s !! k with Some b => Some (stored b) | None => db !! k end
  else db !! k.
Proof.
  intros Hr. induction l as [|k0 l [IHr IH]]; [done|].
  unfold put_infos. cbn [foldr]. fold (put_infos s db l ok). set (db' := put_infos s db l ok) in *.
  assert (∀ k, bool_decide (k ∈ k0 :: l) = bool_decide (k0 = k) || bool_decide (k ∈ l)) as Hin.
  { intros k. rewrite <- bool_decide_or. apply bool_decide_ext. set_solver. }
  destruct (baselines s !! k0) as [b|] eqn:Hb; (split; [first [by apply put_info_named|done]|]); intros k; rewrite Hin.
  - rewrite (put_info_lookup s), IH by done.
    destruct (decide (k0 = k)) as [->|Hne]; [|by rewrite bool_decide_false].
    rewrite bool_decide_true, Hb by done. simpl. by destruct (ok k), (bool_decide (k ∈ l)).
  - rewrite IH. destruct (decide (k0 = k)) as [->|Hne]; [|by rewrite (bool_decide_false (k0 = k))].
    rewrite (bool_decide_true (k = k)), Hb by done. simpl. by repeat case_if.
Qed.

Lemma write_pinv s db infl lost ok :
  pinv s db infl lost →
  pinv s (put_infos s db infl ok) []
    ((lost ∖ list_to_set infl) ∪ list_to_set (List.filter (λ k, negb (ok k)) infl)).
Proof.
  intros [Hn Hr Hs]. assert (rows_named s db) as Hrn by (intros k r Hk; by apply Hr).
  destruct (persist_lookup s db infl ok Hrn) as [Hrn' Hl]. constructor; [done| |].
  - intros k r Hk. split; [|by apply Hrn']. rewrite Hl in Hk. case_if; [|by apply (Hr k)].
    destruct (baselines s !! k) as [b|]; [|by apply (Hr k)]. injection Hk as <-. apply stored_idem.
  - intros k b Hb. rewrite Hl, Hb. case_bool_decide as Hin; simpl.
    + destruct (ok k) eqn:Hok; [by right; left|]. left. apply elem_of_union_r, elem_of_union_r, elem_of_list_to_set.
      apply list_elem_of_In, filter_In. rewrite Hok. split; [by apply list_elem_of_In|done].
    + destruct (Hs k b Hb) as [Hk|?]; [|by right]. left. set_solver.
Qed.

Lemma load_lookup s rows k :
  baselines (load_infos s rows) !! k =
  match find_last (λ r, bool_decide (load_key r.2 = k)) rows with Some r => Some r.2 | None => baselines s !! k end.
Proof.
  induction rows as [|r rows IH] using rev_ind; simpl; [done|].
  unfold load_infos. rewrite foldl_app, find_last_app. simpl. fold (load_infos s rows). case_bool_decide as Hk.
  - rewrite <- Hk. apply lookup_insert_eq.
  - rewrite lookup_insert_ne by done. done.
Qed.

(** Rows are read back under the key they were written with. *)
Lemma load_table period (db : Infos) rows k :
  (∀ k r, db !! k = Some r → load_key r = k) → map snd rows ≡ₚ map snd (map_to_list db) →
  baselines (load_infos (New period) rows) !! k = db !! k.
Proof.
  intros Hk Hp. rewrite load_lookup. simpl. rewrite lookup_empty.
  destruct (find_last _ rows) as [[k' r]|] eqn:E.
  - apply find_last_Some in E as (l1 & l2 & -> & Hf & _). apply bool_decide_eq_true in Hf. simpl in *.
    assert (r ∈ map snd (map_to_list db)) as ([k'' r'] & -> & Hin)%list_elem_of_fmap.
    { rewrite <- Hp, map_app. apply elem_of_app. right. by left. }
    apply elem_of_map_to_list in Hin. simpl in *. by rewrite <- Hf, (Hk k'' r').
  - destruct (db !! k) as [r|] eqn:Hd; [|done]. apply find_last_None in E. exfalso.
    assert (r ∈ map snd rows) as ([k' r'] & -> & Hin)%list_elem_of_fmap.
    { rewrite Hp. apply list_elem_of_fmap. exists (k, r). split; [done|]. by apply elem_of_map_to_list. }
    rewrite Forall_forall in E. specialize (E _ Hin). apply bool_decide_eq_false in E. simpl in E. auto.
Qed.

Lemma load_dirty s rows : dirty (load_infos s rows) = dirty s.
Proof. unfold load_infos. revert s. induction rows as [|r rows IH]; intros s; simpl; [done|]. by rewrite IH. Qed.

Lemma pinv_row_key s db infl lost k r : pinv s db infl lost → db !! k = Some r → load_key r = k.
Proof.
  intros [Hn Hr _] Hk. destruct (Hr k r Hk) as (_ & b & Hb & E). rewrite (names_key _ _ E). auto.
Qed.

Lemma restart_pinv period s (db : Infos) infl lost rows :
  pinv s db infl lost → map snd rows ≡ₚ map snd (map_to_list db) → pinv (load_infos (New period) rows) db [] ∅.
Proof.
  intros Hinv Hp. assert (∀ k r, db !! k = Some r → load_key r = k) as Hk by (intros k r; by eapply pinv_row_key).
  constructor.
  - intros k b. rewrite (load_table period db) by done. apply Hk.
  - intros k r Hd. split; [by apply (p_row _ _ _ _ Hinv k)|]. exists r. by rewrite (load_table period db).
  - intros k b. rewrite (load_table period db) by done. intros Hd. right. left.
    destruct (p_row _ _ _ _ Hinv k b Hd) as [-> _]. done.
Qed.


(** What the rows of the table give back. *)
Definition rows_text {J : BaselineJSON} (db : gmap string Row) : Prop := ∀ k r, db !! k = Some r → info_text (read_row r).

Section Runs_kept.
Context {J : BaselineJSON}.

Lemma restart_rows (db : gmap string Row) rows : rows ≡ₚ map snd (map_to_list db) →
  map snd (map (λ r, ("", read_row r)) rows) ≡ₚ map snd (map_to_list (read_row <$> db)).
Proof.
  intros Hp. rewrite map_to_list_fmap. assert (map snd (map (λ r, ("", read_row r)) rows) = map read_row rows) as ->
    by (rewrite map_map; by apply map_ext).
  assert (map snd (prod_map id read_row <$> map_to_list db) = map read_row (map snd (map_to_list db))) as ->.
  { clear Hp. induction (map_to_list db) as [|[k r] l IH]; [done|]. simpl. f_equal. exact IH. }
  by apply Permutation_map.
Qed.

Lemma write_rows_text s db keys ok : store_text s → rows_text db → rows_text (persistModified s db keys ok).
Proof.
  intros Hs Hdb. induction keys as [|k keys IH]; [done|]. unfold persistModified. cbn [foldr].
  fold (persistModified s db keys ok). destruct (baselines s !! k) as [b|] eqn:E; [|done]. specialize (Hs k b E).
  unfold persistOne. destruct Hs as (H1 & H2 & H3). destruct (peers_back _ H1) as (bp & -> & E1), (peers_back _ H2) as (fp & -> & E2).
  destruct (ok k); [|done]. cbn [negb]. intros k' r [[_ <-]|[_ H]]%lookup_insert_Some; [|by eapply IH].
  unfold read_row, info_text. cbn. rewrite E1, E2, binaries_back by done. done.
Qed.

Lemma load_text rows : Forall (λ r, info_text (read_row r)) rows → ∀ s, store_text s → store_text (load_rows s (map Some rows)).
Proof.
  induction 1 as [|r rows Hr _ IH]; intros s Hs; [done|]. cbn. apply IH. by apply put_text.
Qed.

Lemma preach_pinv period s db infl lost : preach period s db infl lost →
  pinv s (read_row <$> db) infl lost ∧ store_text s ∧ rows_text db.
Proof.
  induction 1 as [|s db infl lost o _ (IH & Ht & Hr) Hwf|s db lost _ (IH & Ht & Hr)|s db infl lost ok _ (IH & Ht & Hr)|s db infl lost rows _ (IH & Ht & Hr) Hp].
  - rewrite fmap_empty. split_and!; [constructor; simpl; intros ? ?; by rewrite lookup_empty|..]; intros ? ?; simpl; by rewrite lookup_empty.
  - split_and!; [by apply op_pinv|by apply step_text|done].
  - split_and!; [by apply take_pinv|done..].
  - split_and!; [rewrite persist_infos by done; by apply write_pinv|done|by apply write_rows_text].
  - cbn [Load fst]. split_and!; [|..|done].
    + rewrite load_rows_infos. eapply restart_pinv; [done|]. by apply restart_rows.
    + apply load_text; [|intros ? ?; simpl; by rewrite lookup_empty]. rewrite Hp. apply Forall_forall.
      intros r ([k r'] & -> & Hin)%list_elem_of_fmap. apply elem_of_map_to_list in Hin. by eapply Hr.
Qed.

(** C8: on every run of traffic, operator decisions, background writes (each
    of which may fail) and restarts that read the table without an error, with
    names without slashes and texts in UTF-8: the store that a restart reads
    from the table, through the JSON and base64 text of its columns, has every
    baseline of the running store with its peers, forbidden peers, binaries
    and lock (the end of the observation to the microsecond), unless its key
    waits for the next write or the last write of it failed; a baseline that
    is missing after the restart has learned nothing yet. *)
Theorem restart_keeps period s db infl lost rows k b :
  preach period s db infl lost → rows ≡ₚ map snd (map_to_list db) →
  baselines s !! k = Some b → k ∉ dirty s → k ∉ infl → k ∉ lost →
  let s' := (Load (New period) (Some (map Some rows, true))).1 in
  baselines s' !! k = Some (set_end b (timestamptz (ObservationPeriodEnd b)))
  ∨ (baselines s' !! k = None ∧ BaselinePeers b = ∅ ∧ ForbiddenPeers b = ∅ ∧ BaselineBinaries b = ∅ ∧ UserLocked b = false).
Proof.
  intros (Hr & _)%preach_pinv Hp Hb Hd Hi Hl s'. unfold s'. cbn [Load fst]. rewrite load_rows_infos.
  rewrite (load_table period (read_row <$> db)) by (first [by apply restart_rows|intros ? ?; by eapply pinv_row_key]).
  destruct (p_saved _ _ _ _ Hr k b Hb) as [Hk|[Hk|[Hk Hpr]]]; [set_solver|by left|by right].
Qed.
End Runs_kept.

(** ** An instance *)

#[export] Instance peerWire_eq_dec : EqDecision peerWire.
Proof. solve_decision. Defined.
#[export] Instance peerWire_countable : Countable peerWire.
Proof.
  refine (inj_countable' (λ w, (W_I w, W_E w, W_P w, W_X w, W_C w))
    (λ x, {| W_I := x.1.1.1.1; W_E := x.1.1.1.2; W_P := x.1.1.2; W_X := x.1.2; W_C := x.2 |}) _).
  by intros [].
Defined.

(** Documents that are the list of their keys; objects as digits. *)
Fixpoint bits (p : positive) : string :=
  match p with xH => "" | xO p => String "0" (bits p) | xI p => String "1" (bits p) end.
Fixpoint unbits (s : string) : positive :=
  match s with EmptyString => 1 | String c s => if Ascii.eqb c "1" then (unbits s)~1 else (unbits s)~0 end.
Lemma unbits_bits p : unbits (bits p) = p.
Proof. induction p as [p IH|p IH|]; cbn; by rewrite ?IH. Qed.

#[export] Instance demo_json : BaselineJSON.
Proof.
  refine {| JsonDoc := list string; json_object := id; json_keys := Some; json_wire w := Some (bits (encode w));
            json_unwire raw := decode (unbits raw) |}.
  - intros ks _ _. by exists ks.
  - intros w _. eexists. split; [done|]. rewrite unbits_bits. apply decode_encode.
Defined.

(** A deployment runs a program and is then called by another. *)
Definition demo_web : Entity := {| ID := "shop/web"; Type_ := EntityDeployment; Name := "web"; Discovered := false |}.
Definition demo_api : Entity := {| ID := "shop/api"; Type_ := EntityDeployment; Name := "api"; Discovered := false |}.
Definition demo_exec : op := OExec "shop" "web" "/usr/bin/curl" newYear newYear.
Definition demo_flow : op :=
  OFlow {| SrcEntity := demo_api; DstEntity := demo_web; C_DstPort := 443%Z; C_Protocol := TCP; FlowTS := newYear |} newYear.
Definition demo_learned : Store := step (step (New Hour) demo_exec) demo_flow.
Definition demo_store : Store := (take_dirty demo_learned).1.
Definition demo_table : gmap string Row := persistModified demo_store ∅ (take_dirty demo_learned).2 (λ _, true).
Definition demo_lost : gset string :=
  (∅ ∖ list_to_set (take_dirty demo_learned).2) ∪ list_to_set (List.filter (λ k, negb true) (take_dirty demo_learned).2).

Lemma demo_wf : wf_op demo_exec ∧ wf_op demo_flow.
Proof. split; [done|]. split; [split; intros _; by exists "shop"|]. repeat split. Qed.

Lemma demo_preach : preach Hour demo_store demo_table [] demo_lost.
Proof.
  destruct demo_wf as [H1 H2].
  exact (pr_write _ _ _ _ _ (λ _, true) (pr_take _ _ _ _ (pr_op _ _ _ _ _ _ (pr_op _ _ _ _ _ _ (pr_new Hour) H1) H2))).
Qed.

Lemma restart_keeps_witness :
  ∃ b, baselines demo_store !! "shop/web" = Some b ∧ BaselineBinaries b = {["/usr/bin/curl"]} ∧ size (BaselinePeers b) = 1%nat ∧
  baselines (Load (New Hour) (Some (map Some (map snd (map_to_list demo_table)), true))).1 !! "shop/web"
    = Some (set_end b (timestamptz (ObservationPeriodEnd b))).
Proof.
  assert (match baselines demo_store !! "shop/web" with
          | Some b => bool_decide (BaselineBinaries b = {["/usr/bin/curl"]}) && (size (BaselinePeers b) =? 1)%nat
          | None => false end = true) as Hc by (vm_compute; reflexivity).
  destruct (baselines demo_store !! "shop/web") as [b|] eqn:E; [|discriminate].
  apply andb_prop in Hc as [Hb%bool_decide_eq_true Hp%Nat.eqb_eq]. exists b. split; [reflexivity|]. split; [exact Hb|]. split; [exact Hp|].
  destruct (restart_keeps Hour demo_store demo_table [] demo_lost (map snd (map_to_list demo_table)) "shop/web" b demo_preach)
    as [H|(_ & _ & _ & H & _)]; [done|exact E| | | |exact H|].
  - apply (bool_decide_eq_true_1 (_ ∉ _)). vm_compute. reflexivity.
  - by intros ?%not_elem_of_nil.
  - apply (bool_decide_eq_true_1 (_ ∉ _)). vm_compute. reflexivity.
  - rewrite Hb in H. exfalso. exact (non_empty_singleton_L (C := gset string) "/usr/bin/curl" H).
Defined.

(** A restart whose [Load] fails starts with no baselines, and the first thing a
    deployment does then replaces what its row held. *)
Example failed_load_forgets :
  let s := step (Load (New Hour) None).1 (OExec "shop" "web" "/bin/sh" newYear newYear) in
  let db := persistModified s demo_table ["shop/web"] (λ _, true) in
  bool_decide (BaselineBinaries ∘ read_row <$> demo_table !! "shop/web" = Some {["/usr/bin/curl"]})
  && bool_decide (BaselineBinaries ∘ read_row <$> db !! "shop/web" = Some {["/bin/sh"]}) = true.
Proof. vm_compute. reflexivity. Qed.

(** Texts that are no base64, or no JSON below it, make the whole column
    unreadable. *)
Example unreadable_column : unmarshal_peers (J := demo_json) ["="] = None ∧ DecodeString "YWI" = Some "ab" ∧ EncodeToString "ab?" = "YWI_".
Proof. vm_compute. done. Qed.
