(* ===== verification/Checker.v ===== *)
(** * anomaly/internal/checker: would a network policy block this connection?

    checker.go: the policies of the source namespace, cached for 30 seconds, and
    the verdict on a TCP connection of a pod. The Kubernetes client and its label
    selectors are parameters; the reference is the documented meaning of an
    egress NetworkPolicy. *)

From stdpp Require Import base list gmap strings.
From S2P Require Import Prelude GoStrings GoNet.
Local Open Scope string_scope.
Local Open Scope list_scope.
Local Open Scope go_scope.

(** ** The objects of the Kubernetes API, with the fields that matter here *)

Inductive PolicyType := PolicyTypeIngress | PolicyTypeEgress.
Record IPBlock := { CIDR : string; Except : list string }.
Inductive IntOrString := IntPort (n : Z) | NamedPort (s : string).

(** [IntVal] of a named port is 0. *)
Definition IntVal (p : IntOrString) : Z := match p with IntPort n => n | NamedPort _ => 0%Z end.

Record NetworkPolicyPort := { PP_Protocol : string; PP_Port : option IntOrString; PP_EndPort : option Z }.

Inductive Result := Allowed | Blocked.

Section Checker.
  Context {Selector LabelSet : Type}.
  (** [metav1.LabelSelectorAsSelector] with [Matches]: [None] for an invalid selector. *)
  Context (AsSelector : Selector → option (LabelSet → bool)).

Record NetworkPolicyPeer := {
  Peer_IPBlock : option IPBlock;
  Peer_NamespaceSelector : option Selector;
  Peer_PodSelector : option Selector;
}.
Record EgressRule := { To : list NetworkPolicyPeer; Ports : list NetworkPolicyPort }.
Record NetworkPolicy := { PodSelector : Selector; PolicyTypes : list PolicyType; Egress : list EgressRule }.

(** An empty list of peers or ports matches everything. *)
Definition all_or_any {A} (f : A → bool) (l : list A) : bool := match l with [] => true | _ => any f l end.

Definition present {A} (o : option A) : bool := match o with Some _ => true | None => false end.

(** ** The verdict *)

Definition cidr_contains (cidr dstIP : string) : bool :=
  match ParseCIDR cidr with
  | Some n => NetContains n (default [] (ParseIP dstIP))
  | None => false
  end.

(** One round of the loop over [rule.To]. *)
Definition peerMatches (dstIP : string) (peer : NetworkPolicyPeer) : bool :=
  match Peer_IPBlock peer with Some b => cidr_contains (CIDR b) dstIP | None => false end
  || present (Peer_NamespaceSelector peer) || present (Peer_PodSelector peer).

Definition portMatches (dstPort : Z) (p : NetworkPolicyPort) : bool :=
  match PP_Port p with None => true | Some port => (IntVal port =? dstPort)%Z end.

Definition egressRuleMatches (rule : EgressRule) (dstIP : string) (dstPort : Z) : bool :=
  let ipMatch := all_or_any (peerMatches dstIP) (To rule) in
  if negb ipMatch then false else all_or_any (portMatches dstPort) (Ports rule).

Definition selects (set : LabelSet) (p : NetworkPolicy) : bool :=
  match AsSelector (PodSelector p) with Some sel => sel set | None => false end.

Definition is_egress (t : PolicyType) : bool := match t with PolicyTypeEgress => true | _ => false end.
Definition hasEgress (p : NetworkPolicy) : bool := any is_egress (PolicyTypes p).

Definition policy_allows (dstIP : string) (dstPort : Z) (p : NetworkPolicy) : bool :=
  hasEgress p && any (λ rule, egressRuleMatches rule dstIP dstPort) (Egress p).

Definition verdict (policies : list NetworkPolicy) (set : LabelSet) (dstIP : string) (dstPort : Z) : Result :=
  match List.filter (selects set) policies with
  | [] => Allowed
  | applicable => if any (policy_allows dstIP dstPort) applicable then Allowed else Blocked
  end.

(** ** The cache *)

Record nsPolicies := { policies : list NetworkPolicy; refreshed : Time }.
Record Checker := { byNS : gmap string nsPolicies; ttl : Duration }.

Definition New : Checker := {| byNS := ∅; ttl := (30 * Second)%Z |}.

(** [listed] is what the API server answers ([None]: an error). *)
Definition getPolicies (c : Checker) (ns : string) (now : Time) (listed : option (list NetworkPolicy))
  : Checker * list NetworkPolicy :=
  let refresh :=
    match listed with
    | None => (c, match byNS c !! ns with Some e => policies e | None => [] end)
    | Some items => ({| byNS := <[ns := {| policies := items; refreshed := now |}]> (byNS c); ttl := ttl c |}, items)
    end in
  match byNS c !! ns with
  | Some e => if (TSub now (refreshed e) <? ttl c)%Z then (c, policies e) else refresh
  | None => refresh
  end.

(** The error of [getPolicies] is always nil. *)
Definition Check (c : Checker) (srcNS : string) (set : LabelSet) (dstIP : string) (dstPort : Z)
  (now : Time) (listed : option (list NetworkPolicy)) : Checker * Result :=
  let '(c, ps) := getPolicies c srcNS now listed in
  (c, verdict ps set dstIP dstPort).

(** ** What Kubernetes does

    A pod is isolated for egress when a policy with the type Egress selects it;
    then a connection needs a rule of such a policy whose destination and port
    both match. [selects_ip] resolves selector peers, [named] resolves named
    ports. *)
Section Kubernetes.
  Context (selects_ip : NetworkPolicyPeer → string → bool) (named : string → Z → bool).

Definition k8s_peer (dstIP : string) (peer : NetworkPolicyPeer) : bool :=
  match Peer_IPBlock peer with
  | Some b => cidr_contains (CIDR b) dstIP && negb (any (λ e, cidr_contains e dstIP) (Except b))
  | None => (present (Peer_NamespaceSelector peer) || present (Peer_PodSelector peer)) && selects_ip peer dstIP
  end.

Definition k8s_port (dstPort : Z) (p : NetworkPolicyPort) : bool :=
  ((PP_Protocol p == "") || (PP_Protocol p == "TCP")) &&
  match PP_Port p, PP_EndPort p with
  | None, _ => true
  | Some (IntPort n), None => (n =? dstPort)%Z
  | Some (IntPort n), Some e => (n <=? dstPort)%Z && (dstPort <=? e)%Z
  | Some (NamedPort s), _ => named s dstPort
  end.

Definition k8s_rule (dstIP : string) (dstPort : Z) (r : EgressRule) : bool :=
  all_or_any (k8s_peer dstIP) (To r) && all_or_any (k8s_port dstPort) (Ports r).

Definition isolated (ps : list NetworkPolicy) (set : LabelSet) : bool :=
  any (λ p, selects set p && hasEgress p) ps.

Definition k8s_allows (ps : list NetworkPolicy) (set : LabelSet) (dstIP : string) (dstPort : Z) : bool :=
  negb (isolated ps set) ||
  any (λ p, selects set p && hasEgress p && any (k8s_rule dstIP dstPort) (Egress p)) ps.

(** Ports given by number, one at a time. *)
Definition simple_port (p : NetworkPolicyPort) : bool :=
  match PP_Port p with
  | None => true
  | Some (IntPort _) => negb (present (PP_EndPort p))
  | Some (NamedPort _) => false
  end.

(** A rule the checker reads exactly: address blocks without exceptions, TCP. *)
Definition plain_peer (p : NetworkPolicyPeer) : bool :=
  match Peer_IPBlock p with
  | Some b => match Except b with [] => negb (present (Peer_NamespaceSelector p) || present (Peer_PodSelector p))
                                | _ => false end
  | None => negb (present (Peer_NamespaceSelector p) || present (Peer_PodSelector p))
  end.
Definition plain_port (p : NetworkPolicyPort) : bool :=
  simple_port p && ((PP_Protocol p == "") || (PP_Protocol p == "TCP")).
Definition rules (ps : list NetworkPolicy) : list EgressRule := concat (map Egress ps).
Definition simple (ps : list NetworkPolicy) : bool := forallb (λ r, forallb simple_port (Ports r)) (rules ps).
Definition plain (ps : list NetworkPolicy) : bool :=
  forallb (λ r, forallb plain_peer (To r) && forallb plain_port (Ports r)) (rules ps).

End Kubernetes.
End Checker.
Arguments NetworkPolicyPeer : clear implicits.
Arguments EgressRule : clear implicits.
Arguments NetworkPolicy : clear implicits.
Arguments Checker : clear implicits.

(** * The policy checker against the meaning of network policies *)



Section Props.
  Context {Selector LabelSet : Type} (AsSelector : Selector → option (LabelSet → bool)).
  Context (selects_ip : NetworkPolicyPeer Selector → string → bool) (named : string → Z → bool).

(** ** Lists *)

Lemma any_impl {A} (f g : A → bool) l : (∀ x, x ∈ l → f x = true → g x = true) → any f l = true → any g l = true.
Proof. intros H. rewrite !any_true. intros (x & Hx & Hf). exists x. auto. Qed.

Lemma any_ext {A} (f g : A → bool) l : (∀ x, x ∈ l → f x = g x) → any f l = any g l.
Proof.
  intros H. apply eq_bool_prop_intro. rewrite !Is_true_true, !any_true.
  split; intros (x & Hx & Hf); exists x; split; auto; [rewrite <- H|rewrite H]; done.
Qed.

Lemma all_or_any_impl {A} (f g : A → bool) l :
  (∀ x, x ∈ l → f x = true → g x = true) → all_or_any f l = true → all_or_any g l = true.
Proof. destruct l; [done|]. apply any_impl. Qed.

Lemma all_or_any_ext {A} (f g : A → bool) l : (∀ x, x ∈ l → f x = g x) → all_or_any f l = all_or_any g l.
Proof. destruct l; [done|]. apply any_ext. Qed.

Lemma forallb_elem {A} (f : A → bool) l x : forallb f l = true → x ∈ l → f x = true.
Proof. rewrite forallb_forall. intros H Hx. apply H. by apply list_elem_of_In. Qed.

(** ** Peers, ports and rules *)

Lemma k8s_peer_matches ip (p : NetworkPolicyPeer Selector) : k8s_peer selects_ip ip p = true → peerMatches ip p = true.
Proof.
  unfold k8s_peer, peerMatches. destruct (Peer_IPBlock p); intros ?; bool_hyps.
  - by replace (cidr_contains (CIDR i) ip) with true.
  - simpl. destruct H; [by replace (present (Peer_NamespaceSelector p)) with true|].
    replace (present (Peer_PodSelector p)) with true. by rewrite orb_true_r.
Qed.

Lemma plain_peer_matches ip (p : NetworkPolicyPeer Selector) :
  plain_peer p = true → peerMatches ip p = k8s_peer selects_ip ip p.
Proof.
  unfold plain_peer, k8s_peer, peerMatches. destruct (Peer_IPBlock p) as [b|].
  - destruct (Except b); [|done]. intros Hn%negb_true_iff. rewrite <- orb_assoc, Hn. simpl. by rewrite orb_false_r, andb_true_r.
  - intros Hn%negb_true_iff. simpl. by rewrite Hn.
Qed.

Lemma k8s_port_matches port p : simple_port p = true → k8s_port named port p = true → portMatches port p = true.
Proof.
  unfold simple_port, k8s_port, portMatches. intros Hs [_ Hk]%andb_prop.
  destruct (PP_Port p) as [[n|s]|]; [|done|done]. by destruct (PP_EndPort p).
Qed.

Lemma plain_port_matches port p : plain_port p = true → portMatches port p = k8s_port named port p.
Proof.
  unfold plain_port, simple_port, k8s_port, portMatches. intros [Hs Hp]%andb_prop. rewrite Hp. simpl.
  destruct (PP_Port p) as [[n|s]|]; [|done|done]. by destruct (PP_EndPort p).
Qed.

Lemma rule_unfold ip port (r : EgressRule Selector) :
  egressRuleMatches r ip port = all_or_any (peerMatches ip) (To r) && all_or_any (portMatches port) (Ports r).
Proof. unfold egressRuleMatches. by destruct (all_or_any (peerMatches ip) (To r)). Qed.

Lemma k8s_rule_matches ip port (r : EgressRule Selector) :
  forallb simple_port (Ports r) = true → k8s_rule selects_ip named ip port r = true → egressRuleMatches r ip port = true.
Proof.
  intros Hs [Hto Hports]%andb_prop. rewrite rule_unfold. apply andb_true_intro. split.
  - eapply all_or_any_impl; [|exact Hto]. intros p _. apply k8s_peer_matches.
  - eapply all_or_any_impl; [|exact Hports]. intros p Hp. apply k8s_port_matches. by eapply forallb_elem.
Qed.

Lemma plain_rule_matches ip port (r : EgressRule Selector) :
  forallb plain_peer (To r) && forallb plain_port (Ports r) = true →
  egressRuleMatches r ip port = k8s_rule selects_ip named ip port r.
Proof.
  intros [Hpe Hpo]%andb_prop. rewrite rule_unfold. unfold k8s_rule. f_equal.
  - apply all_or_any_ext. intros p Hp. apply plain_peer_matches. by eapply forallb_elem.
  - apply all_or_any_ext. intros p Hp. apply plain_port_matches. by eapply forallb_elem.
Qed.

Lemma rules_elem (ps : list (NetworkPolicy Selector)) p r : p ∈ ps → r ∈ Egress p → r ∈ rules ps.
Proof.
  intros Hp Hr. apply list_elem_of_In, in_concat. exists (Egress p). split; [|by apply list_elem_of_In].
  apply in_map. by apply list_elem_of_In.
Qed.

(** ** The verdict *)

Lemma filter_any {A} (f g : A → bool) l : any g (List.filter f l) = any (λ x, f x && g x) l.
Proof. induction l as [|x l IH]; simpl; [done|]. destruct (f x); simpl; by rewrite IH. Qed.

(** When some policy selects the pod, the verdict is whether a rule matches. *)
Lemma verdict_selected ps set ip port :
  any (selects AsSelector set) ps = true →
  verdict AsSelector ps set ip port
  = if any (λ p, selects AsSelector set p && policy_allows ip port p) ps then Allowed else Blocked.
Proof.
  intros Hs. unfold verdict. rewrite <- filter_any. destruct (List.filter _ ps) eqn:E; [|done].
  exfalso. apply any_true in Hs as (p & Hp & Hsel).
  assert (p ∈ List.filter (selects AsSelector set) ps) as Hin by (by apply list_elem_of_In, filter_In; rewrite <- list_elem_of_In).
  rewrite E in Hin. by apply not_elem_of_nil in Hin.
Qed.

Lemma isolated_selected ps set : isolated AsSelector ps set = true → any (selects AsSelector set) ps = true.
Proof. apply any_impl. by intros p _ [? _]%andb_prop. Qed.

(** C9: where the pod's egress is restricted and the egress rules of the
    cached policies give every port by a single number (no port ranges, no
    named ports), a connection the checker reports as blocked is one the
    network policies do not allow; if moreover the rules are address blocks
    without exceptions and TCP ports, the verdict is exactly theirs. *)
Theorem Check_sound c ns set ip port now listed :
  let ps := (getPolicies c ns now listed).2 in
  isolated AsSelector ps set = true → simple ps = true →
  ((Check AsSelector c ns set ip port now listed).2 = Blocked →
     k8s_allows AsSelector selects_ip named ps set ip port = false)
  ∧ (plain ps = true → k8s_allows AsSelector selects_ip named ps set ip port = false →
     (Check AsSelector c ns set ip port now listed).2 = Blocked).
Proof.
  intros ps Hi Hs. unfold Check. subst ps. destruct (getPolicies c ns now listed) as [c' ps]. simpl in *.
  rewrite verdict_selected by (by apply isolated_selected). unfold k8s_allows. rewrite Hi. simpl. split.
  - intros Hb. apply not_true_iff_false. intros Hk. assert (any (λ p, selects AsSelector set p && policy_allows ip port p) ps = true) as Ha.
    { eapply any_impl; [|exact Hk]. intros p Hp [[Hsel Heg]%andb_prop Hrule]%andb_prop.
      unfold policy_allows. rewrite Hsel, Heg. simpl. eapply any_impl; [|exact Hrule]. intros r Hr.
      apply k8s_rule_matches. apply (forallb_elem _ _ r Hs). by eapply rules_elem. }
    by rewrite Ha in Hb.
  - intros Hpl Hk. erewrite any_ext; [by rewrite Hk|]. intros p Hp. simpl. unfold policy_allows.
    rewrite <- andb_assoc. do 2 f_equal. apply any_ext. intros r Hr. apply plain_rule_matches.
    apply (forallb_elem _ _ r Hpl). by eapply rules_elem.
Qed.

(** A pod selected only by policies that do not restrict egress keeps all
    its egress, but every connection of it is reported as blocked. *)
Theorem ingress_only_blocked c ns set ip port now listed :
  let ps := (getPolicies c ns now listed).2 in
  any (selects AsSelector set) ps = true → isolated AsSelector ps set = false →
  (Check AsSelector c ns set ip port now listed).2 = Blocked
  ∧ k8s_allows AsSelector selects_ip named ps set ip port = true.
Proof.
  intros ps Hs Hi. unfold Check, k8s_allows. subst ps. destruct (getPolicies c ns now listed) as [c' ps]. simpl in *.
  rewrite Hi, verdict_selected by done. simpl. split; [|done].
  replace (any (λ p, selects AsSelector set p && policy_allows ip port p) ps) with false; [done|].
  symmetry. apply any_false. intros p Hp. unfold isolated in Hi. rewrite any_false in Hi.
  specialize (Hi p Hp). unfold policy_allows. destruct (selects AsSelector set p); simpl in *; [|done]. by rewrite Hi.
Qed.
End Props.

(** Examples: selectors as predicates on the application label. *)
Definition demo_selector : string → option (string → bool) := λ s, Some (String.eqb s).
Definition allow_https : NetworkPolicy string :=
  {| PodSelector := "web"; PolicyTypes := [PolicyTypeEgress];
     Egress := [{| To := [{| Peer_IPBlock := Some {| CIDR := "10.0.0.0/8"; Except := [] |};
                             Peer_NamespaceSelector := None; Peer_PodSelector := None |}];
                   Ports := [{| PP_Protocol := "TCP"; PP_Port := Some (IntPort 443%Z); PP_EndPort := None |}] |}] |}.
Definition deny_ingress : NetworkPolicy string :=
  {| PodSelector := "web"; PolicyTypes := [PolicyTypeIngress]; Egress := [] |}.

Lemma Check_sound_witness :
  k8s_allows demo_selector (λ _ _, false) (λ _ _, false) [allow_https] "web" "192.0.2.1" 443%Z = false.
Proof.
  apply (proj1 (Check_sound demo_selector (λ _ _, false) (λ _ _, false) New "shop" "web" "192.0.2.1" 443%Z 0%Z
                  (Some [allow_https]) eq_refl eq_refl)).
  vm_compute. reflexivity.
Defined.

Lemma ingress_only_blocked_witness :
  (Check demo_selector New "shop" "web" "192.0.2.1" 443%Z 0%Z (Some [deny_ingress])).2 = Blocked.
Proof.
  exact (proj1 (ingress_only_blocked demo_selector (λ _ _, false) (λ _ _, false) New "shop" "web" "192.0.2.1" 443%Z 0%Z
                  (Some [deny_ingress]) eq_refl eq_refl)).
Defined.
