(* ===== verification/Anomaly.v ===== *)
(** * anomaly/internal/consumer: what counts as an anomaly

    consumer.go, eval.go, helpers.go, state.go, honeypots.go and the dedup of
    emit.go: a decoded runtime event becomes a list of anomalies. The state is
    the baseline store, the scan detector, the policy cache, the recent
    [memfd_create] calls and the recently reported anomalies. What the cluster
    and the trap registry answer during one evaluation is a [World]. *)

From Stdlib Require Import Ascii.
From stdpp Require Import base list gmap strings.
From S2P Require Import Prelude GoStrings GoNet GoValue Baseline Recon Checker.
Local Open Scope string_scope.
Local Open Scope list_scope.
Local Open Scope go_scope.

(** ** Events *)

Inductive AnomalyKind :=
| KindPolicyBlocked | KindUnauthorizedFlow | KindPortScan' | KindSuspiciousPort' | KindRawSocket
| KindSuspiciousBind | KindUnexpectedListen | KindProcessInjection | KindFilelessExec | KindKernelModuleLoad
| KindEBPFLoad | KindContainerEscape | KindPrivEscalation | KindIOUring | KindUnexpectedBinary
| KindBinaryTampering | KindHoneypotProbe | KindNone.
#[export] Instance AnomalyKind_eq_dec : EqDecision AnomalyKind.
Proof. solve_decision. Defined.

(** The text of a kind; [KindNone] is the zero value of a base event. *)
Definition kind_text (k : AnomalyKind) : string :=
  match k with
  | KindPolicyBlocked => "policy_blocked" | KindUnauthorizedFlow => "unauthorized_flow"
  | KindPortScan' => "port_scan" | KindSuspiciousPort' => "suspicious_port" | KindRawSocket => "raw_socket"
  | KindSuspiciousBind => "suspicious_bind" | KindUnexpectedListen => "unexpected_listen"
  | KindProcessInjection => "process_injection" | KindFilelessExec => "fileless_exec"
  | KindKernelModuleLoad => "kernel_module_load" | KindEBPFLoad => "ebpf_load"
  | KindContainerEscape => "container_escape" | KindPrivEscalation => "privilege_escalation"
  | KindIOUring => "io_uring" | KindUnexpectedBinary => "unexpected_binary"
  | KindBinaryTampering => "binary_tampering" | KindHoneypotProbe => "honeypot_probe" | KindNone => ""
  end.

(** The fields of [AnomalyEvent], grouped as the source groups them. *)
Record EvSource := {
  SrcNamespace : string; SrcDeployment : string; SrcPod : string; SrcNode : string; SrcProcess : string;
  SrcIP : string; SrcContainer : string; SrcServiceAccount : string;
  SrcPID : string; SrcUID : string; SrcCmdline : string;
}.
Record EvHoneypot := { HoneypotID : string; HoneypotName : string; HoneypotService : string; HoneypotKind : string }.
Record EvDest := { DstIP : string; EvDstPort : Z; DstService : string; DstNS : string; EvProtocol : string }.
Record EvScan := { ScannedPorts : list Z; PortCount : nat; PortLabel : string; WindowSec : Z }.

Record AnomalyEvent := {
  Ts : Time;
  EvKind : AnomalyKind;
  Src : EvSource;
  Honeypot : EvHoneypot;
  Dst : EvDest;
  Scan : EvScan;
  Syscall : string;
  EventKind : string;
  BaselineState : string;
  Detail : string;
}.

Definition no_honeypot : EvHoneypot :=
  {| HoneypotID := ""; HoneypotName := ""; HoneypotService := ""; HoneypotKind := "" |}.
Definition no_dest : EvDest := {| DstIP := ""; EvDstPort := 0; DstService := ""; DstNS := ""; EvProtocol := "" |}.
Definition no_scan : EvScan := {| ScannedPorts := []; PortCount := 0; PortLabel := ""; WindowSec := 0 |}.

(** A copy of [base] of the given kind, destination, scan, state and detail. *)
Definition derive (base : AnomalyEvent) (k : AnomalyKind) (d : EvDest) (sc : EvScan) (st detail : string) : AnomalyEvent :=
  {| Ts := Ts base; EvKind := k; Src := Src base; Honeypot := Honeypot base; Dst := d; Scan := sc;
     Syscall := Syscall base; EventKind := EventKind base; BaselineState := st; Detail := detail |}.

Definition withDetail (base : AnomalyEvent) (k : AnomalyKind) (detail : string) : AnomalyEvent :=
  derive base k (Dst base) (Scan base) (BaselineState base) detail.

Definition connectEvent (base : AnomalyEvent) (k : AnomalyKind) (dstIP : string) (dstPort : Z) (svc ns : string)
  : AnomalyEvent :=
  derive base k {| DstIP := dstIP; EvDstPort := dstPort; DstService := svc; DstNS := ns; EvProtocol := "TCP" |}
    (Scan base) (BaselineState base) (Detail base).

(** ** Reading the decoded event (helpers.go) *)

Abbreviation event := (list (string * value)).

Definition strVal (ev : event) (k : string) : string := as_string (vlookup ev k).

Definition addr_keys : list string := ["addr"; "address"; "sockaddr"].

Definition addr_ip (args : event) (key : string) : string :=
  match as_map (vlookup args key) with
  | None => ""
  | Some addr => if as_string (vlookup addr "sin_addr") != "" then as_string (vlookup addr "sin_addr")
                 else as_string (vlookup addr "sin6_addr")
  end.

Fixpoint first_nonempty (l : list string) : string :=
  match l with [] => "" | s :: l' => if s != "" then s else first_nonempty l' end.

Definition addrFieldIP (ev : event) : string :=
  match as_map (vlookup ev "args") with
  | None => ""
  | Some args => first_nonempty (map (addr_ip args) addr_keys)
  end.

Definition parseIPFromAddr (addr : string) : string :=
  let plain := if (CountByte addr "." =? 3)%nat then addr else "" in
  let host_port :=
    match LastIndexByte addr ":" with
    | Some (S idx) =>
        let ip := stake (S idx) addr in
        if (CountByte ip "." =? 3)%nat || Contains ip ":" then ip else plain
    | _ => plain
    end in
  match addr with
  | EmptyString => ""
  | String a _ =>
      if Ascii.eqb a "[" then match IndexByte addr "]" with
                              | Some (S e) => stake e (sdrop 1 addr)
                              | _ => host_port
                              end
      else host_port
  end.

Definition extractIP (ev : event) : string :=
  if addrFieldIP ev != "" then addrFieldIP ev
  else let cmdline := strVal ev "cmdline" in
       if (cmdline != "") && (parseIPFromAddr cmdline != "") then cmdline else "".

Definition port_value (v : option value) : option Z :=
  match v with
  | Some (VStr s) => match ParseUint s 16 with Some p => if (0 <? p)%Z then Some p else None | None => None end
  | Some (VNum f) => if float_gt f 0 && negb (float_gt f 65535) then Some (float_int f) else None
  | _ => None
  end.

Fixpoint first_port (args : event) (keys : list string) : Z :=
  match keys with
  | [] => 0%Z
  | key :: keys' =>
      match as_map (vlookup args key) with
      | None => first_port args keys'
      | Some addr => match port_value (vlookup addr "sin_port") with
                     | Some p => p
                     | None => first_port args keys'
                     end
      end
  end.

Definition extractPort (ev : event) : Z :=
  match as_map (vlookup ev "args") with Some args => first_port args addr_keys | None => 0%Z end.

(** ** The consumer *)

Definition filelessWindow : Duration := (30 * Second)%Z.
Definition dedupWindow : Duration := (5 * Minute)%Z.

(** [PodInfo] of the enricher, as far as it is used. *)
Record PodInfo := { Pod_Deployment : string; Pod_Node : string; Pod_IP : string; Pod_Labels : list (string * string);
                    Pod_ServiceAccount : string }.

Record trap := {
  trap_ID : string; trap_Namespace : string; trap_Name : string; trap_Service : string; trap_Kind : string;
  trap_ClusterIP : string; trap_Selector : list (string * string);
}.

Section Consumer.
  Context {Selector : Type} (AsSelector : Selector → option (list (string * string) → bool)).
  Context {T : CaseTables} {F : FloatText} {O : MapOrder}.
  (** The namespace of the installation, and the text form of times. *)
  Context (own_ns : string) (parse_time : string → option Time).

(** The answers during one evaluation: the clock, the pod, the registered
    traps and the addresses of their pods, the pod once it has an address, the
    service of the destination and the listed policies. *)
Record World := {
  w_now : Time;
  w_pod : PodInfo;
  w_traps : list trap;
  w_trap_ips : trap → list string;
  w_wait : option PodInfo;
  w_svc : string → option (string * string);
  w_policies : option (list (NetworkPolicy Selector));
}.

Record Consumer := {
  base : Baseline.Store;
  recon : Recon.Detector;
  check : Checker.Checker Selector;
  memfdSeen : gmap string Time;
  dedupSeen : gmap string Time;
}.

Definition set_base (c : Consumer) (b : Baseline.Store) : Consumer :=
  {| base := b; recon := recon c; check := check c; memfdSeen := memfdSeen c; dedupSeen := dedupSeen c |}.
Definition set_recon (c : Consumer) (r : Recon.Detector) : Consumer :=
  {| base := base c; recon := r; check := check c; memfdSeen := memfdSeen c; dedupSeen := dedupSeen c |}.
Definition set_check (c : Consumer) (k : Checker.Checker Selector) : Consumer :=
  {| base := base c; recon := recon c; check := k; memfdSeen := memfdSeen c; dedupSeen := dedupSeen c |}.
Definition set_memfd (c : Consumer) (m : gmap string Time) : Consumer :=
  {| base := base c; recon := recon c; check := check c; memfdSeen := m; dedupSeen := dedupSeen c |}.
Definition set_dedup (c : Consumer) (m : gmap string Time) : Consumer :=
  {| base := base c; recon := recon c; check := check c; memfdSeen := memfdSeen c; dedupSeen := m |}.

Definition ignoredNamespaces : list string :=
  [own_ns; "kube-system"; "kube-public"; "kube-node-lease"; "calico-system"; "cert-manager"; "metallb-system"].

(** *** memfd_create followed by an execution (state.go) *)

Definition memfd_key (namespace pod pid : string) : string :=
  namespace +:+ "/" +:+ pod +:+ "/" +:+ (if pid == "" then "unknown" else pid).

Definition recordMemfd (c : Consumer) (namespace pod pid : string) (now : Time) : Consumer :=
  set_memfd c (<[memfd_key namespace pod pid := now]> (memfdSeen c)).

Definition consumeRecentMemfd (c : Consumer) (namespace pod pid : string) (now : Time) : Consumer * bool :=
  let key := memfd_key namespace pod pid in
  match memfdSeen c !! key with
  | None => (c, false)
  | Some ts => (set_memfd c (delete key (memfdSeen c)), (TSub now ts <=? filelessWindow)%Z)
  end.

(** One tick of [cleanupMemfd]. *)
Definition cleanup_memfd (c : Consumer) (now : Time) : Consumer :=
  let cutoff := TAdd now (- (filelessWindow * 2))%Z in
  set_memfd c (filter (λ e, Before e.2 cutoff = false) (memfdSeen c)).

(** *** Traps (honeypots.go) *)

Definition trap_selects (labels : list (string * string)) (tr : trap) : bool :=
  forallb (λ kv, default "" (snd <$> List.find (λ e, e.1 == kv.1) labels) == kv.2) (trap_Selector tr).

Definition isTrapPod (w : World) (ns : string) (labels : list (string * string)) : bool :=
  match labels with
  | [] => false
  | _ => any (λ tr, negb ((trap_Namespace tr != ns) || match trap_Selector tr with [] => true | _ => false end)
                    && trap_selects labels tr) (w_traps w)
  end.

Definition matchTrap (w : World) (dstIP : string) : option trap :=
  match List.find (λ tr, (trap_ClusterIP tr != "") && (trap_ClusterIP tr == dstIP)) (w_traps w) with
  | Some tr => Some tr
  | None => List.find (λ tr, any (λ ip, ip == dstIP) (w_trap_ips w tr)) (w_traps w)
  end.

Definition anyString (v : option value) : string :=
  match v with
  | None | Some VNull => ""
  | Some (VStr s) => s
  | Some (VNum f) => FormatInt (float_int f)
  | Some v => fmt_v v
  end.

(** The negation of the least duration is itself. *)
Definition absDuration (d : Duration) : Duration :=
  if (d <? 0)%Z then (if (d =? minInt64)%Z then minInt64 else - d)%Z else d.

Definition honeypotProbe (ev : event) (b : AnomalyEvent) (tr : trap) (dstIP : string) (dstPort : Z) (now : Time)
  : AnomalyEvent :=
  let s := Src b in
  let cmd := strVal ev "cmdline" in
  {| Ts := match parse_time (strVal ev "ts") with
           | Some ts => if (absDuration (TSub now ts) <? Hour)%Z then ts else Ts b
           | None => Ts b
           end;
     EvKind := KindHoneypotProbe;
     Src := {| SrcNamespace := SrcNamespace s; SrcDeployment := SrcDeployment s; SrcPod := SrcPod s;
               SrcNode := SrcNode s; SrcProcess := SrcProcess s; SrcIP := SrcIP s;
               SrcContainer := SrcContainer s; SrcServiceAccount := SrcServiceAccount s;
               SrcPID := anyString (vlookup ev "pid"); SrcUID := anyString (vlookup ev "uid");
               SrcCmdline := if (cmd != "") && (cmd != dstIP) && (parseIPFromAddr cmd == "") then cmd
                             else strVal ev "execpath" |};
     Honeypot := {| HoneypotID := trap_ID tr; HoneypotName := trap_Name tr; HoneypotService := trap_Service tr;
                    HoneypotKind := trap_Kind tr |};
     Dst := {| DstIP := dstIP; EvDstPort := dstPort; DstService := trap_Name tr; DstNS := trap_Namespace tr;
               EvProtocol := "TCP" |};
     Scan := Scan b; Syscall := Syscall b; EventKind := EventKind b; BaselineState := BaselineState b;
     Detail := "connect to honeypot " +:+ trap_Namespace tr +:+ "/" +:+ trap_Name tr +:+ " (" +:+ trap_Service tr
               +:+ ") from " +:+ SrcProcess s |}.

(** *** Connections *)

Definition recon_event (b : AnomalyEvent) (dstIP : string) (dstPort : Z) (svc ns scanDetail portDetail : string)
  (ra : Recon.Alert) : AnomalyEvent :=
  match A_Kind ra with
  | Recon.KindPortScan =>
      derive b KindPortScan'
        {| DstIP := dstIP; EvDstPort := EvDstPort (Dst b); DstService := svc; DstNS := ns; EvProtocol := EvProtocol (Dst b) |}
        {| ScannedPorts := A_Ports ra; PortCount := A_Count ra; PortLabel := PortLabel (Scan b);
           WindowSec := (ScanWindow / Second)%Z |} (BaselineState b) scanDetail
  | Recon.KindSuspiciousPort =>
      derive b KindSuspiciousPort'
        {| DstIP := dstIP; EvDstPort := dstPort; DstService := svc; DstNS := ns; EvProtocol := EvProtocol (Dst b) |}
        {| ScannedPorts := ScannedPorts (Scan b); PortCount := PortCount (Scan b); PortLabel := A_PortLabel ra;
           WindowSec := WindowSec (Scan b) |} (BaselineState b) portDetail
  end.

Definition reconEvents (c : Consumer) (w : World) (b : AnomalyEvent) (dstIP : string) (dstPort : Z) (svc ns : string)
  : Consumer * list AnomalyEvent :=
  let '(r, alerts) := Observe (recon c) (SrcNamespace (Src b)) (SrcDeployment (Src b)) dstIP dstPort (Ts b) (w_now w) in
  (set_recon c r, map (recon_event b dstIP dstPort svc ns (Detail b) (Detail b)) alerts).

(** [base] with the address the pod got meanwhile. *)
Definition with_pod_ip (w : World) (b : AnomalyEvent) : AnomalyEvent :=
  let s := Src b in
  if SrcIP s == "" then
    match w_wait w with
    | None => b
    | Some info =>
        {| Ts := Ts b; EvKind := EvKind b;
           Src := {| SrcNamespace := SrcNamespace s; SrcDeployment := SrcDeployment s; SrcPod := SrcPod s;
                     SrcNode := if SrcNode s == "" then Pod_Node info else SrcNode s; SrcProcess := SrcProcess s;
                     SrcIP := Pod_IP info; SrcContainer := SrcContainer s;
                     SrcServiceAccount := Pod_ServiceAccount info;
                     SrcPID := SrcPID s; SrcUID := SrcUID s; SrcCmdline := SrcCmdline s |};
           Honeypot := Honeypot b; Dst := Dst b; Scan := Scan b; Syscall := Syscall b; EventKind := EventKind b;
           BaselineState := BaselineState b; Detail := Detail b |}
    end
  else b.

(** The flow of a pod's deployment to an address. *)
Definition flow_of (b : AnomalyEvent) (dstIP : string) (dstPort : Z) : ConnIndicator :=
  let s := Src b in
  {| SrcEntity := {| ID := SrcNamespace s +:+ "/" +:+ SrcDeployment s; Type_ := EntityDeployment;
                     Name := SrcDeployment s; Discovered := false |};
     DstEntity := ExternalEntity dstIP; C_DstPort := dstPort; C_Protocol := TCP; FlowTS := Ts b |}.

Definition evalConnect (c : Consumer) (w : World) (ev : event) (b : AnomalyEvent) : Consumer * list AnomalyEvent :=
  let dstIP := extractIP ev in
  let dstPort := extractPort ev in
  if dstIP == "" then (c, [])
  else match matchTrap w dstIP with
  | Some tr =>
      let b := with_pod_ip w b in
      let '(c, evs) := reconEvents c w b dstIP dstPort (trap_Name tr) (trap_Namespace tr) in
      (c, honeypotProbe ev b tr dstIP dstPort (w_now w) :: evs)
  | None =>
      let '(svc, ns) := default ("", "") (w_svc w dstIP) in
      let '(k, policyResult) := Check AsSelector (check c) (SrcNamespace (Src b)) (Pod_Labels (w_pod w))
                                  dstIP dstPort (w_now w) (w_policies w) in
      let c := set_check c k in
      let blocked := match policyResult with
                     | Blocked => [connectEvent b KindPolicyBlocked dstIP dstPort svc ns]
                     | Allowed => []
                     end in
      let '(st, baselineResult) := ProcessFlowUpdate (base c) (flow_of b dstIP dstPort) (w_now w) in
      let c := set_base c st in
      let flow := match baselineResult with
                  | ResultAnomaly =>
                      let a := connectEvent b KindUnauthorizedFlow dstIP dstPort svc ns in
                      [derive a KindUnauthorizedFlow (Dst a) (Scan a) "locked" (Detail a)]
                  | _ => []
                  end in
      let '(c, evs) := reconEvents c w b dstIP dstPort svc ns in
      (c, blocked ++ flow ++ evs)
  end.

(** *** Sockets *)

Definition stringifySocketDomain (v : option value) : string :=
  match v with
  | Some (VStr s) => s
  | Some (VNum f) => let z := float_int f in
                     if (z =? 2)%Z then "AF_INET" else if (z =? 10)%Z then "AF_INET6"
                     else if (z =? 17)%Z then "AF_PACKET" else ""
  | _ => ""
  end.

Definition stringifySocketType (v : option value) : string :=
  match v with
  | Some (VStr s) => s
  | Some (VNum f) => if (Z.land (float_int f) 3 =? 3)%Z then "SOCK_RAW" else ""
  | _ => ""
  end.

Definition evalSocket (ev : event) (b : AnomalyEvent) : list AnomalyEvent :=
  match as_map (vlookup ev "args") with
  | None => []
  | Some args =>
      let domain := stringifySocketDomain (vlookup args "domain") in
      let sockType := stringifySocketType (vlookup args "type") in
      let isNet := any (String.eqb domain) ["AF_INET"; "AF_INET6"; "AF_PACKET"; "2"; "10"; "17"] in
      let isRaw := Contains sockType "RAW" || (sockType == "3") in
      if isNet && isRaw
      then [withDetail b KindRawSocket ("socket(" +:+ domain +:+ ", " +:+ sockType +:+ ")")] else []
  end.

Definition evalSendto (c : Consumer) (w : World) (ev : event) (b : AnomalyEvent) : Consumer * list AnomalyEvent :=
  let dstIP := extractIP ev in
  let dstPort := extractPort ev in
  if dstIP == "" then (c, [])
  else
    let '(r, alerts) := Observe (recon c) (SrcNamespace (Src b)) (SrcDeployment (Src b)) dstIP dstPort (Ts b) (w_now w) in
    (set_recon c r,
     map (recon_event b dstIP dstPort (DstService (Dst b)) (DstNS (Dst b))
            "detected via sendto (raw socket)" "via raw socket sendto") alerts).

Definition suspiciousBindPorts : list (Z * string) :=
  [(4444%Z, "metasploit-default"); (4445%Z, "metasploit-alt"); (1337%Z, "c2-common"); (31337%Z, "elite-c2");
   (9001%Z, "tor"); (9050%Z, "tor-socks"); (6666%Z, "irc-c2"); (6667%Z, "irc"); (7777%Z, "c2-common");
   (8888%Z, "c2-common")].

Definition evalBind (ev : event) (b : AnomalyEvent) : list AnomalyEvent :=
  let port := extractPort ev in
  if (port =? 0)%Z then []
  else match List.find (λ e, (e.1 =? port)%Z) suspiciousBindPorts with
       | None => []
       | Some (_, label) =>
           [derive b KindSuspiciousBind
              {| DstIP := extractIP ev; EvDstPort := port; DstService := DstService (Dst b); DstNS := DstNS (Dst b);
                 EvProtocol := EvProtocol (Dst b) |}
              {| ScannedPorts := ScannedPorts (Scan b); PortCount := PortCount (Scan b); PortLabel := label;
                 WindowSec := WindowSec (Scan b) |}
              (BaselineState b) "listener opened on suspicious port"]
       end.

Definition server_words : list string := ["web"; "api"; "server"; "gateway"; "nginx"; "proxy"; "ingress"; "frontend"].

Definition evalAccept (ev : event) (b : AnomalyEvent) : list AnomalyEvent :=
  let name := ToLower (SrcDeployment (Src b) +:+ SrcPod (Src b)) in
  if any (Contains name) server_words then []
  else
    let ip := extractIP ev in
    [derive b KindUnexpectedListen
       {| DstIP := ip; EvDstPort := extractPort ev; DstService := DstService (Dst b); DstNS := DstNS (Dst b);
          EvProtocol := EvProtocol (Dst b) |}
       (Scan b) (BaselineState b)
       ("unexpected incoming connection accepted" +:+ (if ip != "" then " from " +:+ ip else ""))].

(** *** Processes *)

Definition evalIOUring (b : AnomalyEvent) : list AnomalyEvent :=
  [withDetail b KindIOUring (Syscall b +:+ " — io_uring async I/O (syscall-monitoring evasion vector)")].

Definition isContainerRuntimeInit (process : string) : bool :=
  let p := ToLower (TrimSpace process) in
  if p == "" then false
  else HasPrefix p "runc" || HasPrefix p "crun" || Contains p "containerd-shim" || Contains p "conmon".

Definition evalCapset (b : AnomalyEvent) : list AnomalyEvent :=
  if isContainerRuntimeInit (SrcProcess (Src b)) then []
  else [withDetail b KindPrivEscalation "capset — capability modification (privilege escalation)"].

Definition suspiciousBinaries : list (string * (AnomalyKind * string)) :=
  [("unshare", (KindContainerEscape, "unshare binary executed — namespace isolation bypass attempt"));
   ("nsenter", (KindContainerEscape, "nsenter binary executed — namespace entry attempt"));
   ("pivot_root", (KindContainerEscape, "pivot_root binary executed — filesystem root change attempt"));
   ("chroot", (KindContainerEscape, "chroot binary executed"));
   ("insmod", (KindKernelModuleLoad, "insmod binary executed — kernel module load attempt"));
   ("modprobe", (KindKernelModuleLoad, "modprobe binary executed — kernel module load attempt"));
   ("rmmod", (KindKernelModuleLoad, "rmmod binary executed — kernel module removal attempt"))].

Definition binName (name : string) : string :=
  let n := ToLower (TrimSpace name) in
  match LastIndexByte n "/" with Some i => sdrop (S i) n | None => n end.

Definition suspicious_binary (names : list string) : option (AnomalyKind * string) :=
  foldr (λ name r, match List.find (λ e, e.1 == binName name) suspiciousBinaries with
                   | Some (_, sb) => Some sb
                   | None => r
                   end) None names.

Definition execBinaryPath (ev : event) (b : AnomalyEvent) : string :=
  let ep := strVal ev "execpath" in
  if (ep != "") && (ep != "—") then ep
  else
    let from_args := match as_map (vlookup ev "args") with
                     | Some args => first_nonempty (map (λ k, as_string (vlookup args k)) ["pathname"; "cmdpath"; "filepath"])
                     | None => ""
                     end in
    if from_args != "" then from_args else SrcProcess (Src b).

Definition evalExecve (c : Consumer) (w : World) (ev : event) (b : AnomalyEvent) : Consumer * list AnomalyEvent :=
  let '(c, recent) := consumeRecentMemfd c (SrcNamespace (Src b)) (SrcPod (Src b)) (strVal ev "pid") (w_now w) in
  if recent then (c, [withDetail b KindFilelessExec "memfd_create followed by execve — possible fileless malware"])
  else match suspicious_binary [strVal ev "pathname"; SrcProcess (Src b)] with
  | Some (k, detail) => (c, [withDetail b k detail])
  | None =>
      let bin := execBinaryPath ev b in
      if bin == "" then (c, [])
      else
        let '(st, res) := ProcessExecUpdate (base c) (SrcNamespace (Src b)) (SrcDeployment (Src b)) bin (Ts b) (w_now w) in
        let c := set_base c st in
        match res with
        | ResultAnomaly =>
            (c, [derive b KindUnexpectedBinary (Dst b) (Scan b) "locked"
                   ("binary never seen during baseline window: " +:+ bin)])
        | _ => (c, [])
        end
  end.

(** *** Binary tampering *)

Definition systemBinaryDirs : list string :=
  ["/bin/"; "/sbin/"; "/usr/bin/"; "/usr/sbin/"; "/usr/local/bin/"; "/usr/local/sbin/"; "/usr/libexec/"].

Definition isSystemBinaryPath (p : string) : bool :=
  any (λ d, HasPrefix p d && (String.length d <? String.length p)%nat) systemBinaryDirs.

Definition add_path (paths : list string) (p : string) : list string :=
  if negb (HasPrefix p "/") || any (String.eqb p) paths then paths else snoc paths p.

Definition arg_strings (ev : event) : list string :=
  match as_map (vlookup ev "args") with
  | Some args => concat (map (λ kv, match kv.2 with VStr s => [s] | _ => [] end) (map_order args))
  | None => []
  end.

Definition tamperTargetPaths (ev : event) : list string :=
  foldl add_path [] (arg_strings ev ++ strVal ev "execpath" :: Fields (strVal ev "cmdline")).

Definition tamperTargetNames (ev : event) : list string :=
  match as_map (vlookup ev "args") with
  | None => []
  | Some args =>
      List.filter (λ v, (v != "") && negb (Contains v "/"))
        (map (λ k, as_string (vlookup args k))
           ["name"; "old_name"; "new_name"; "dentry"; "old_dentry"; "new_dentry"; "basename"])
  end.

Definition systemBinaryNames : list string :=
  ["sh"; "bash"; "dash"; "zsh"; "ash"; "ksh"; "python"; "python3"; "perl"; "ruby"; "node"; "php"; "lua";
   "cat"; "ls"; "cp"; "mv"; "rm"; "ln"; "dd"; "chmod"; "chown"; "chgrp"; "touch"; "mkdir"; "find";
   "grep"; "awk"; "sed"; "sort"; "head"; "tail"; "cut"; "tr"; "xargs"; "tar"; "gzip"; "base64"; "env"; "echo";
   "id"; "whoami"; "uname"; "ps"; "top"; "kill"; "mount"; "umount";
   "sudo"; "su"; "passwd"; "login"; "chsh"; "chfn"; "newgrp";
   "curl"; "wget"; "nc"; "ncat"; "netcat"; "ss"; "ip";
   "ifconfig"; "netstat"; "ssh"; "scp"; "sftp"; "telnet"; "socat";
   "openssl"; "dpkg"; "apt"; "apt-get"; "apk"; "yum"; "dnf";
   "rpm"; "crontab"; "at"; "systemctl"; "service"; "busybox"].

Definition isSystemBinaryName (name : string) : bool := any (String.eqb (ToLower name)) systemBinaryNames.

Definition evalBinaryTamper (ev : event) (b : AnomalyEvent) : list AnomalyEvent :=
  let report p := [withDetail b KindBinaryTampering (Syscall b +:+ " — system binary modified/replaced: " +:+ p)] in
  match tamperTargetPaths ev with
  | [] => match List.find isSystemBinaryName (tamperTargetNames ev) with Some n => report n | None => [] end
  | paths => match List.find isSystemBinaryPath paths with Some p => report p | None => [] end
  end.

(** *** Dispatch *)

Definition base_event (w : World) (ev : event) : AnomalyEvent :=
  let pod := w_pod w in
  {| Ts := w_now w; EvKind := KindNone;
     Src := {| SrcNamespace := strVal ev "namespace"; SrcDeployment := Pod_Deployment pod; SrcPod := strVal ev "pod";
               SrcNode := if Pod_Node pod == "" then strVal ev "node" else Pod_Node pod;
               SrcProcess := strVal ev "process"; SrcIP := Pod_IP pod; SrcContainer := strVal ev "container";
               SrcServiceAccount := Pod_ServiceAccount pod; SrcPID := ""; SrcUID := ""; SrcCmdline := "" |};
     Honeypot := no_honeypot; Dst := no_dest; Scan := no_scan;
     Syscall := strVal ev "syscall"; EventKind := strVal ev "event_kind"; BaselineState := ""; Detail := "" |}.

Definition eval_syscall (c : Consumer) (w : World) (ev : event) (b : AnomalyEvent) (syscall : string)
  : Consumer * list AnomalyEvent :=
  let one_of names := any (String.eqb syscall) names in
  if syscall == "connect" then evalConnect c w ev b
  else if syscall == "socket" then (c, evalSocket ev b)
  else if syscall == "sendto" then evalSendto c w ev b
  else if syscall == "bind" then (c, evalBind ev b)
  else if one_of ["accept"; "accept4"] then (c, evalAccept ev b)
  else if syscall == "ptrace" then (c, [withDetail b KindProcessInjection (strVal ev "cmdline")])
  else if syscall == "process_vm_writev" then
    (c, [withDetail b KindProcessInjection "process_vm_writev — cross-process memory write"])
  else if syscall == "memfd_create" then
    (recordMemfd c (SrcNamespace (Src b)) (SrcPod (Src b)) (strVal ev "pid") (w_now w), [])
  else if one_of ["execve"; "execveat"; "sched_process_exec"] then evalExecve c w ev b
  else if one_of ["init_module"; "finit_module"] then (c, [withDetail b KindKernelModuleLoad (strVal ev "cmdline")])
  else if syscall == "bpf" then (c, [withDetail b KindEBPFLoad (strVal ev "cmdline")])
  else if one_of ["io_uring_setup"; "io_uring_enter"; "io_uring_register"] then (c, evalIOUring b)
  else if syscall == "pivot_root" then
    (c, [withDetail b KindContainerEscape "pivot_root — filesystem root change (container escape)"])
  else if syscall == "unshare" then
    (c, [withDetail b KindContainerEscape "unshare — new namespace (isolation bypass)"])
  else if syscall == "setns" then
    (c, [withDetail b KindContainerEscape "setns — joined existing namespace (possible host access)"])
  else if syscall == "capset" then (c, evalCapset b)
  else if one_of ["security_inode_rename"; "security_inode_unlink"; "security_inode_mknod"; "security_inode_symlink"]
  then (c, evalBinaryTamper ev b)
  else (c, []).

(** [data] is the decoded record ([None]: empty or not a JSON object). *)
Definition evaluateRaw (c : Consumer) (w : World) (data : option event) : Consumer * list AnomalyEvent :=
  match data with
  | None => (c, [])
  | Some ev =>
      let srcNS := strVal ev "namespace" in
      let syscall := strVal ev "syscall" in
      if (srcNS == "") || (strVal ev "pod" == "") || (syscall == "") || any (String.eqb srcNS) ignoredNamespaces
      then (c, [])
      else if isTrapPod w srcNS (Pod_Labels (w_pod w)) then (c, [])
      else eval_syscall c w ev (base_event w ev) syscall
  end.

(** ** Repeats (emit.go) *)

Definition dedupExtra (a : AnomalyEvent) : string :=
  match EvKind a with
  | KindUnexpectedBinary | KindBinaryTampering => Detail a
  | KindSuspiciousBind | KindSuspiciousPort' | KindUnexpectedListen => FormatInt (EvDstPort (Dst a))
  | _ => ""
  end.

Definition anomalyKey (a : AnomalyEvent) : string :=
  let s := Src a in
  SrcNamespace s +:+ "/" +:+ SrcPod s +:+ "/" +:+ SrcProcess s +:+ "/" +:+ Syscall a +:+ "/" +:+ kind_text (EvKind a)
  +:+ (if DstIP (Dst a) != "" then "/" +:+ DstIP (Dst a) else "")
  +:+ (if dedupExtra a != "" then "/" +:+ dedupExtra a else "").

Definition isDuplicate (c : Consumer) (a : AnomalyEvent) (now : Time) : Consumer * bool :=
  let seen := filter (λ e, (TSub now e.2 <=? dedupWindow)%Z = true) (dedupSeen c) in
  (set_dedup c seen,
   match seen !! anomalyKey a with Some last => (TSub now last <? dedupWindow)%Z | None => false end).

Definition markEmitted (c : Consumer) (a : AnomalyEvent) (now : Time) : Consumer :=
  set_dedup c (<[anomalyKey a := now]> (dedupSeen c)).

End Consumer.
