(* ===== verification/AnomalyProps.v ===== *)
(** * What the anomaly consumer promises

    Traffic learned while a deployment is observed stays quiet through every
    later evaluation; the correlation of [memfd_create] with an execution is
    per pod. *)

From Stdlib Require Import Ascii.
From stdpp Require Import base list gmap strings.
From S2P Require Import Prelude GoStrings GoNet GoValue Baseline BaselineProps Recon Checker Anomaly.
Local Open Scope string_scope.
Local Open Scope list_scope.
Local Open Scope go_scope.

#[local] Arguments reconEvents : simpl never.
#[local] Arguments Observe : simpl never.
#[local] Arguments ProcessFlowUpdate : simpl never.

Section Props.
  Context {Selector : Type} (AsSelector : Selector → option (list (string * string) → bool)).
  Context {T : CaseTables} {F : FloatText} {O : MapOrder}.
  Context (own_ns : string) (parse_time : string → option Time).
  Local Abbreviation eval := (evaluateRaw AsSelector own_ns parse_time).
  Local Abbreviation eval_sys := (eval_syscall AsSelector parse_time).
  Local Abbreviation connect_eval := (evalConnect AsSelector parse_time).

(** ** Evaluation touches the baselines only through traffic *)

Definition traffic (o : op) : Prop := match o with OFlow _ _ | OExec _ _ _ _ _ => True | _ => False end.

(** [s'] is [s] after some traffic. *)
Definition grown (s s' : Store) : Prop := ∃ ops, s' = run s ops ∧ Forall traffic ops.

Lemma grown_refl s : grown s s.
Proof. by exists []. Qed.

Lemma grown_op s o : traffic o → grown s (step s o).
Proof. intros Ho. exists [o]. split; [done|by constructor]. Qed.

Lemma recon_base c (w : World (Selector := Selector)) b ip port svc ns :
  base (reconEvents c w b ip port svc ns).1 = base c.
Proof. unfold reconEvents. by destruct (Observe _ _ _ _ _ _ _). Qed.

Lemma connect_base c w ev b : grown (base c) (base (connect_eval c w ev b).1).
Proof.
  unfold evalConnect. case_if; [apply grown_refl|]. destruct (matchTrap w (extractIP ev)) as [tr|].
  - pose proof (recon_base c w (with_pod_ip w b) (extractIP ev) (extractPort ev) (trap_Name tr) (trap_Namespace tr)) as Hb.
    destruct (reconEvents _ _ _ _ _ _ _). simpl in *. rewrite Hb. apply grown_refl.
  - destruct (default ("", "") _) as [svc ns]. destruct (Check _ _ _ _ _ _ _ _) as [k res].
    destruct (ProcessFlowUpdate _ _ _) as [st r] eqn:Hp. simpl in Hp.
    pose proof (recon_base (set_base (set_check c k) st) w b (extractIP ev) (extractPort ev) svc ns) as Hb.
    destruct (reconEvents _ _ _ _ _ _ _). simpl in *. rewrite Hb.
    replace st with (step (base c) (OFlow (flow_of b (extractIP ev) (extractPort ev)) (w_now w)))
      by (simpl; by rewrite Hp). by apply grown_op.
Qed.

Lemma exec_base c (w : World (Selector := Selector)) ev b : grown (base c) (base (evalExecve c w ev b).1).
Proof.
  unfold evalExecve. destruct (consumeRecentMemfd _ _ _ _ _) as [c1 recent] eqn:Hm.
  assert (base c1 = base c) as Hb.
  { unfold consumeRecentMemfd in Hm. destruct (memfdSeen c !! _); by injection Hm as <- _. }
  destruct recent; [rewrite <- Hb; apply grown_refl|].
  destruct (suspicious_binary _) as [[k d]|]; [rewrite <- Hb; apply grown_refl|].
  case_if; [rewrite <- Hb; apply grown_refl|].
  destruct (ProcessExecUpdate _ _ _ _ _ _) as [st r] eqn:Hp.
  replace (base c) with (base c1). set (st' := step (base c1)
    (OExec (SrcNamespace (Src b)) (SrcDeployment (Src b)) (execBinaryPath ev b) (Ts b) (w_now w))).
  assert (st = st') as -> by (unfold st'; simpl; by rewrite Hp).
  destruct r; by apply grown_op.
Qed.

Lemma sendto_base c (w : World (Selector := Selector)) ev b : grown (base c) (base (evalSendto c w ev b).1).
Proof. unfold evalSendto. case_if; [apply grown_refl|]. destruct (Observe _ _ _ _ _ _ _). apply grown_refl. Qed.

Lemma eval_base c w d : grown (base c) (base (eval c w d).1).
Proof.
  unfold evaluateRaw. destruct d as [ev|]; [|apply grown_refl]. unfold eval_syscall.
  repeat match goal with |- grown _ (base (fst (if ?b then _ else _))) => destruct b end;
    first [apply connect_base | apply exec_base | apply sendto_base | apply grown_refl].
Qed.

(** ** Learned connections *)

(** Evaluations and operator decisions. *)
Inductive cstep := CEval (w : World (Selector := Selector)) (d : option event) | COp (o : op).
Definition cnext (c : Consumer) (s : cstep) : Consumer :=
  match s with CEval w d => (eval c w d).1 | COp o => set_base c (step (base c) o) end.
Definition cforbids (k : string) (p : Peer) (s : cstep) : Prop :=
  match s with CEval _ _ => False | COp o => forbids k p o end.

Lemma grown_has_peer s s' k p : grown s s' → has_peer s k p → has_peer s' k p.
Proof.
  intros (ops & -> & Ht) Hp. apply run_has_peer; [|done]. intros o Ho.
  rewrite Forall_forall in Ht. specialize (Ht o Ho). destruct o; simpl in *; tauto.
Qed.

Lemma crun_has_peer c steps k p :
  (∀ s, s ∈ steps → ¬ cforbids k p s) → has_peer (base c) k p → has_peer (base (foldl cnext c steps)) k p.
Proof.
  revert c. induction steps as [|s steps IH]; intros c Hs Hp; simpl; [done|].
  apply IH; [intros s' Hs'; apply Hs; by right|]. assert (¬ cforbids k p s) as Hf by (apply Hs; left).
  destruct s as [w d|o]; simpl in *; [by eapply grown_has_peer; [apply eval_base|]|].
  apply (run_has_peer _ [o]); [|done]. by intros o' ->%list_elem_of_singleton.
Qed.

(** The deployment is being observed at [now]. *)
Definition observing (s : Store) (k : string) (now : Time) : Prop :=
  match baselines s !! k with
  | None => (0 < observationPeriod s)%Z
  | Some b => UserLocked b = false ∧ (now < ObservationPeriodEnd b)%Z
  end.

Lemma key_nonempty a b : a +:+ "/" +:+ b ≠ "".
Proof. by destruct a. Qed.

Lemma observing_result s conn now :
  outbound conn → valid_end (SrcEntity conn) && valid_end (DstEntity conn) = true → FlowTS conn = now →
  observing s (ID (SrcEntity conn)) now → (ProcessFlowUpdate s conn now).2 = ResultObserving.
Proof.
  intros Hout Hv Hts Hobs. rewrite (outbound_flow s conn now Hout Hv).
  assert (shouldUpdate (ensureBaseline s (SrcEntity conn) now).1 (ID (SrcEntity conn)) "" (FlowTS conn) now = true) as ->; [|done].
  unfold shouldUpdate. rewrite Hts. replace (if IsZero now then now else now) with now by (by destruct (IsZero now)).
  destruct Hout as (Hd & _ & Hne). simpl. destruct (String.eqb_spec (ID (SrcEntity conn)) ""); [done|].
  unfold is_deployment in Hd. unfold ensureBaseline, observing in *. rewrite Hd. simpl.
  destruct (baselines s !! ID (SrcEntity conn)) as [b|] eqn:Hb; simpl.
  - rewrite Hb. destruct Hobs as [-> Hend]. unfold After. apply Z.ltb_lt in Hend. by rewrite Hend.
  - destruct (Cut _ _) as [[ns rest] ok]. simpl. rewrite lookup_insert_eq. simpl. unfold After, TAdd.
    replace (now <? now + observationPeriod s)%Z with true by (symmetry; apply Z.ltb_lt; lia). done.
Qed.

Lemma bucket_nonempty ip : ip ≠ "" → bucketToCIDR ip ≠ "".
Proof.
  intros Hip. unfold bucketToCIDR. destruct (ParseIP ip) as [a|]; [|done].
  destruct (To4 a); destruct (ip_text _); by simpl.
Qed.

Lemma flow_outbound b ip port : outbound (flow_of b ip port).
Proof. split_and!; [done|done|apply key_nonempty]. Qed.

Lemma flow_valid b ip port : ip ≠ "" →
  valid_end (SrcEntity (flow_of b ip port)) && valid_end (DstEntity (flow_of b ip port)) = true.
Proof.
  intros Hip. unfold flow_of, valid_end. cbn [SrcEntity DstEntity Type_ ID ExternalEntity ValidPeerEntityTypes andb].
  pose proof (bucket_nonempty ip Hip). destruct (String.eqb_spec (bucketToCIDR ip) ""); [done|].
  pose proof (key_nonempty (SrcNamespace (Src b)) (SrcDeployment (Src b))).
  by destruct (String.eqb_spec (SrcNamespace (Src b) +:+ "/" +:+ SrcDeployment (Src b)) "").
Qed.

(** A connect event that reaches the baseline. *)
Record connects (w : World (Selector := Selector)) (ev : event) : Prop := {
  cn_syscall : strVal ev "syscall" = "connect";
  cn_named : strVal ev "namespace" ≠ "" ∧ strVal ev "pod" ≠ "";
  cn_watched : any (String.eqb (strVal ev "namespace")) (ignoredNamespaces own_ns) = false;
  cn_trap_pod : isTrapPod w (strVal ev "namespace") (Pod_Labels (w_pod w)) = false;
  cn_dest : extractIP ev ≠ "" ∧ matchTrap w (extractIP ev) = None;
}.

Definition deployment_key (w : World (Selector := Selector)) (ev : event) : string :=
  strVal ev "namespace" +:+ "/" +:+ Pod_Deployment (w_pod w).

Definition event_peer (w : World (Selector := Selector)) (ev : event) : Peer :=
  egress_peer (flow_of (base_event w ev) (extractIP ev) (extractPort ev)).

Lemma connects_eval c w ev :
  strVal ev "syscall" = "connect" → 
  (eval c w (Some ev)).2 = [] ∨ eval c w (Some ev) = connect_eval c w ev (base_event w ev).
Proof.
  intros Hs. unfold evaluateRaw. unfold eval_syscall. rewrite Hs. cbn [String.eqb Ascii.eqb Bool.eqb].
  repeat match goal with |- snd (if ?b then _ else _) = _ ∨ _ => destruct b; [by left|] end. by right.
Qed.

Lemma connects_base c w ev :
  connects w ev →
  base (eval c w (Some ev)).1
  = (ProcessFlowUpdate (base c) (flow_of (base_event w ev) (extractIP ev) (extractPort ev)) (w_now w)).1.
Proof.
  intros [Hs [Hns Hpod] Hw Ht [Hip Hm]]. unfold evaluateRaw. rewrite Ht, Hw, Hs.
  destruct (String.eqb_spec (strVal ev "namespace") ""); [done|].
  destruct (String.eqb_spec (strVal ev "pod") ""); [done|]. simpl. unfold eval_syscall. simpl.
  unfold evalConnect. destruct (String.eqb_spec (extractIP ev) ""); [done|]. rewrite Hm.
  destruct (default ("", "") _) as [svc ns]. destruct (Check _ _ _ _ _ _ _ _) as [k res]. simpl.
  destruct (ProcessFlowUpdate _ _ _) as [st r]. simpl.
  pose proof (recon_base (set_base (set_check c k) st) w (base_event w ev) (extractIP ev) (extractPort ev) svc ns) as Hb.
  destruct (reconEvents _ _ _ _ _ _ _). simpl in *. by rewrite ?Hb.
Qed.

Lemma recon_kinds c (w : World (Selector := Selector)) b ip port svc ns a :
  a ∈ (reconEvents c w b ip port svc ns).2 → EvKind a = KindPortScan' ∨ EvKind a = KindSuspiciousPort'.
Proof.
  unfold reconEvents. destruct (Observe _ _ _ _ _ _ _) as [r alerts]. simpl.
  intros (x & -> & _)%list_elem_of_fmap. unfold recon_event. destruct (A_Kind x); auto.
Qed.

Lemma connect_quiet c w ev b :
  (ProcessFlowUpdate (base c) (flow_of b (extractIP ev) (extractPort ev)) (w_now w)).2 ≠ ResultAnomaly →
  ∀ a, a ∈ (connect_eval c w ev b).2 → EvKind a ≠ KindUnauthorizedFlow.
Proof.
  intros Hq a. unfold evalConnect. case_if; [by intros ?%not_elem_of_nil|].
  destruct (matchTrap w (extractIP ev)) as [tr|].
  - pose proof (recon_kinds c w (with_pod_ip w b) (extractIP ev) (extractPort ev) (trap_Name tr) (trap_Namespace tr) a) as Hk.
    destruct (reconEvents _ _ _ _ _ _ _) as [c' evs]. cbn [fst snd] in *.
    intros [->|[-> | ->]%Hk]%elem_of_cons; done.
  - destruct (default ("", "") _) as [svc ns]. destruct (Check _ _ _ _ _ _ _ _) as [k res].
    change (base (set_check c k)) with (base c).
    destruct (ProcessFlowUpdate _ _ _) as [st r]. cbn [fst snd] in *.
    pose proof (recon_kinds (set_base (set_check c k) st) w b (extractIP ev) (extractPort ev) svc ns a) as Hk.
    destruct (reconEvents _ _ _ _ _ _ _) as [c' evs]. cbn [fst snd] in *.
    intros [Hin|[Hin|[-> | ->]%Hk]%elem_of_app]%elem_of_app; [| |done|done];
      [|destruct r; [by apply not_elem_of_nil in Hin|by apply not_elem_of_nil in Hin|done]].
    destruct res; [by apply not_elem_of_nil in Hin|]. by apply list_elem_of_singleton in Hin as ->.
Qed.

(** A connection seen while its deployment is being observed is never
    reported as an unauthorised flow later: not after any further events,
    operator decisions, expiry or locking, whichever pod of the deployment makes
    it and whichever address of the same network (/24, or /48 for IPv6) it goes
    to on that port, unless an operator forbids that peer. *)
Theorem learned_connection_quiet c w ev steps w' ev' :
  connects w ev → observing (base c) (deployment_key w ev) (w_now w) →
  (∀ b, baselines (base c) !! deployment_key w ev = Some b → event_peer w ev ∉ ForbiddenPeers b) →
  (∀ s, s ∈ steps → ¬ cforbids (deployment_key w ev) (event_peer w ev) s) →
  strVal ev' "syscall" = "connect" → deployment_key w' ev' = deployment_key w ev →
  bucketToCIDR (extractIP ev') = bucketToCIDR (extractIP ev) → extractPort ev' = extractPort ev →
  ∀ a, a ∈ (eval (foldl cnext (eval c w (Some ev)).1 steps) w' (Some ev')).2 → EvKind a ≠ KindUnauthorizedFlow.
Proof.
  intros Hc Hobs Hforb Hsteps Hs' Hkey Hbucket Hport a.
  set (c' := foldl cnext _ steps). destruct (connects_eval c' w' ev' Hs') as [->| ->]; [by intros ?%not_elem_of_nil|].
  destruct (cn_dest _ _ Hc) as [Hip _].
  assert (extractIP ev' ≠ "") as Hip'.
  { intros E. rewrite E in Hbucket. pose proof (bucket_nonempty _ Hip). by rewrite <- Hbucket in H. }
  apply connect_quiet. set (conn' := flow_of (base_event w' ev') (extractIP ev') (extractPort ev')).
  apply has_peer_quiet; [apply flow_outbound|by apply flow_valid|].
  assert (ID (SrcEntity conn') = deployment_key w ev) as -> by exact Hkey.
  assert (egress_peer conn' = event_peer w ev) as ->.
  { unfold conn', event_peer, egress_peer, flow_of, ExternalEntity. cbn [DstEntity C_DstPort C_Protocol].
    by rewrite Hbucket, Hport. }
  apply crun_has_peer; [done|]. rewrite connects_base by done.
  apply (observing_has_peer (base c) (flow_of (base_event w ev) (extractIP ev) (extractPort ev)));
    [apply flow_outbound|by apply flow_valid| |done].
  apply observing_result; [apply flow_outbound|by apply flow_valid|done|done].
Qed.

(** ** Fileless execution *)

(** An evaluated event of [syscall] in the pod. *)
Record from_pod (w : World (Selector := Selector)) (ev : event) (ns pod syscall : string) : Prop := {
  fp_ns : strVal ev "namespace" = ns;
  fp_pod : strVal ev "pod" = pod;
  fp_syscall : strVal ev "syscall" = syscall;
  fp_watched : any (String.eqb ns) (ignoredNamespaces own_ns) = false;
  fp_trap : isTrapPod w ns (Pod_Labels (w_pod w)) = false;
}.

Lemma from_pod_eval c w ev ns pod syscall :
  from_pod w ev ns pod syscall → ns ≠ "" → pod ≠ "" → syscall ≠ "" →
  eval c w (Some ev) = eval_sys c w ev (base_event w ev) syscall.
Proof.
  intros [Hn Hp Hs Hw Ht] ? ? ?. unfold evaluateRaw. rewrite Hn, Hp, Hs, Hw, Ht.
  destruct (String.eqb_spec ns ""), (String.eqb_spec pod ""), (String.eqb_spec syscall ""); done.
Qed.

(** The pid of an event is a number, which [strVal] reads as no pid. *)
Lemma numeric_pid ev f : vlookup ev "pid" = Some (VNum f) → strVal ev "pid" = "".
Proof. unfold strVal. by intros ->. Qed.

(** The bridge encodes the pid as a number, so an execution is reported as
    fileless whenever any process of the same pod called [memfd_create] in the
    last 30 seconds, whatever the two pids are. *)
Theorem fileless_any_process c w1 ev1 f1 w2 ev2 f2 ns pod :
  ns ≠ "" → pod ≠ "" →
  from_pod w1 ev1 ns pod "memfd_create" → vlookup ev1 "pid" = Some (VNum f1) →
  from_pod w2 ev2 ns pod "execve" → vlookup ev2 "pid" = Some (VNum f2) →
  (TSub (w_now w2) (w_now w1) <= 30 * Second)%Z →
  map EvKind (eval (eval c w1 (Some ev1)).1 w2 (Some ev2)).2 = [KindFilelessExec].
Proof.
  intros Hns Hpod H1 Hp1 H2 Hp2 Ht.
  rewrite (from_pod_eval _ _ _ _ _ _ H2), (from_pod_eval _ _ _ _ _ _ H1) by done.
  unfold eval_syscall at 2. simpl. rewrite (numeric_pid ev1 f1) by done.
  unfold eval_syscall. simpl. unfold evalExecve, consumeRecentMemfd, recordMemfd.
  rewrite (numeric_pid ev2 f2) by done. cbn [base_event Src SrcNamespace SrcPod set_memfd memfdSeen].
  rewrite (fp_ns _ _ _ _ _ H1), (fp_pod _ _ _ _ _ H1), (fp_ns _ _ _ _ _ H2), (fp_pod _ _ _ _ _ H2).
  rewrite lookup_insert_eq. apply Z.leb_le in Ht. unfold filelessWindow. by rewrite Ht.
Qed.
End Props.

(** ** Examples *)

Definition no_selector : unit → option (list (string * string) → bool) := λ _, None.
Definition no_time : string → option Time := λ _, None.

Definition demo_world (now : Time) : World (Selector := unit) :=
  {| w_now := now;
     w_pod := {| Pod_Deployment := "cart"; Pod_Node := "n1"; Pod_IP := "10.1.2.3"; Pod_Labels := [("app", "cart")];
                 Pod_ServiceAccount := "default" |};
     w_traps := []; w_trap_ips := λ _, []; w_wait := None; w_svc := λ _, None; w_policies := Some [] |}.

Definition demo_connect (ip : string) : event :=
  [("namespace", VStr "shop"); ("pod", VStr "cart-0"); ("syscall", VStr "connect");
   ("args", VMap [("addr", VMap [("sin_addr", VStr ip); ("sin_port", VStr "443")])])].

Definition demo_process (syscall : string) (pid : Z) : event :=
  [("namespace", VStr "shop"); ("pod", VStr "cart-0"); ("syscall", VStr syscall); ("pid", VNum (float_of_Z pid))].

Definition demo_consumer : Consumer (Selector := unit) :=
  {| base := Baseline.New Hour; recon := Recon.New; check := Checker.New; memfdSeen := ∅; dedupSeen := ∅ |}.

Lemma learned_connection_quiet_witness :
  Forall (λ a, EvKind a ≠ KindUnauthorizedFlow)
    (evaluateRaw (T := ascii_tables) (F := small_float_text) (O := keep_order) no_selector "wolfee-watcher" no_time
      (cnext (T := ascii_tables) (F := small_float_text) (O := keep_order) no_selector "wolfee-watcher" no_time
        (evaluateRaw (T := ascii_tables) (F := small_float_text) (O := keep_order) no_selector "wolfee-watcher" no_time
          demo_consumer (demo_world 1000%Z) (Some (demo_connect "93.184.216.34"))).1 (COp (OLock "shop" "cart")))
      (demo_world 9000%Z) (Some (demo_connect "93.184.216.99"))).2.
Proof.
  apply Forall_forall. intros a.
  apply (learned_connection_quiet (T := ascii_tables) (F := small_float_text) (O := keep_order) no_selector
    "wolfee-watcher" no_time demo_consumer (demo_world 1000%Z) (demo_connect "93.184.216.34")
    [COp (OLock "shop" "cart")] (demo_world 9000%Z) (demo_connect "93.184.216.99")).
  - split; try (split; vm_compute; done); vm_compute; done.
  - vm_compute. done.
  - intros b. simpl. by rewrite lookup_empty.
  - intros s ->%list_elem_of_singleton. simpl. tauto.
  - done.
  - done.
  - vm_compute. done.
  - done.
Defined.

Lemma fileless_any_process_witness :
  map EvKind (evaluateRaw (T := ascii_tables) (F := small_float_text) (O := keep_order) no_selector "wolfee-watcher" no_time
    (evaluateRaw (T := ascii_tables) (F := small_float_text) (O := keep_order) no_selector "wolfee-watcher" no_time
       demo_consumer (demo_world 1000%Z) (Some (demo_process "memfd_create" 10%Z))).1
    (demo_world 2000%Z) (Some (demo_process "execve" 4711%Z))).2 = [KindFilelessExec].
Proof.
  apply (fileless_any_process (T := ascii_tables) (F := small_float_text) (O := keep_order) no_selector "wolfee-watcher"
    no_time demo_consumer (demo_world 1000%Z) _ (float_of_Z 10%Z) (demo_world 2000%Z) _ (float_of_Z 4711%Z) "shop" "cart-0").
  - done.
  - done.
  - split; vm_compute; done.
  - done.
  - split; vm_compute; done.
  - done.
  - vm_compute. done.
Defined.
