(* ===== verification/Kafka.v ===== *)
(** * A Kafka consumer

    The client library, as an interface with the documented effect of polling,
    committing and starting again, and a client that reads a list, which shows
    that the laws can hold. *)

From stdpp Require Import base list.
From S2P Require Import Prelude.

(** [pending] are the records the session will still return, [uncommitted] those
    a restart would return again. *)
Class KafkaClient (R : Type) := {
  session : Type;
  PollFetches : session → list R * session;
  CommitUncommittedOffsets : session → session;
  Reopen : session → session;
  pending : session → list R;
  uncommitted : session → list R;
  poll_pending : ∀ k, pending k = (PollFetches k).1 ++ pending (PollFetches k).2;
  poll_uncommitted : ∀ k, uncommitted (PollFetches k).2 = uncommitted k;
  commit_pending : ∀ k, pending (CommitUncommittedOffsets k) = pending k;
  commit_uncommitted : ∀ k, uncommitted (CommitUncommittedOffsets k) = pending k;
  reopen_pending : ∀ k, pending (Reopen k) = uncommitted k;
  reopen_uncommitted : ∀ k, uncommitted (Reopen k) = uncommitted k;
}.

(** A topic read in order, up to [batch] records per poll: position and
    committed position in the list. *)
Program Definition list_client {R : Type} (topic : list R) (batch : nat) : KafkaClient R :=
  {| session := nat * nat;
     PollFetches p := (take batch (drop p.1 topic), ((p.1 + batch)%nat, p.2));
     CommitUncommittedOffsets p := (p.1, p.1);
     Reopen p := (p.2, p.2);
     pending p := drop p.1 topic;
     uncommitted p := drop p.2 topic |}.
Next Obligation. intros R topic batch [p q]. simpl. by rewrite <- drop_drop, take_drop. Qed.
Next Obligation. done. Qed.
Next Obligation. done. Qed.
Next Obligation. done. Qed.
Next Obligation. done. Qed.
Next Obligation. done. Qed.
