(* ===== verification/AnomalyRun.v ===== *)
(** * anomaly/internal/consumer: recording anomalies

    emit.go and the loop of consumer.go: the records of a poll are evaluated in
    order, each new anomaly is inserted into the database under an id made of
    the record's position, and sent on as an alert. The Kafka client is a
    parameter with the documented effect of polling and committing. *)

From Stdlib Require Import Ascii.
From stdpp Require Import base list gmap strings.
From S2P Require Import Prelude GoStrings GoNet GoValue Baseline BaselineProps Recon Checker Anomaly AnomalyProps Kafka.
Local Open Scope string_scope.
Local Open Scope list_scope.
Local Open Scope go_scope.

Definition emitDBAttempts : nat := 3.

Record Rec := { r_partition : Z; r_offset : Z; r_value : option event }.

Definition ext_id (r : Rec) (i : nat) : string :=
  FormatInt (r_partition r) +:+ ":" +:+ FormatInt (r_offset r) +:+ ":" +:+ FormatInt (Z.of_nat i).

(** The table anomaly_events of the cluster, by ext_id. *)
Abbreviation Events := (gmap string AnomalyEvent).

(** [answers] says which attempts reach the database; a list that ends early is
    a shutdown. The result is [None] for an error, else whether a row was added. *)
Fixpoint insert_attempts (n : nat) (rows : Events) (a : AnomalyEvent) (extID : string) (answers : list bool)
  : option (Events * bool) :=
  match n, answers with
  | S n', true :: _ => match rows !! extID with
                       | Some _ => Some (rows, false)
                       | None => Some (<[extID := a]> rows, true)
                       end
  | S n', false :: answers' => insert_attempts n' rows a extID answers'
  | _, _ => None
  end.
Definition insertAnomaly := insert_attempts emitDBAttempts.

Section Run.
  Context {Selector : Type} (AsSelector : Selector → option (list (string * string) → bool)).
  Context {T : CaseTables} {F : FloatText} {O : MapOrder}.
  Context (own_ns : string) (parse_time : string → option Time).

(** [sent]: the alerts handed to the forwarder and the live stream. *)
Record Service := { cons : Consumer (Selector := Selector); rows : Events; sent : list (AnomalyEvent * Time) }.

Definition emit (s : Service) (a : AnomalyEvent) (extID : string) (answers : list bool) (now : Time) : option Service :=
  match insertAnomaly (rows s) a extID answers with
  | None => None
  | Some (rows', inserted) =>
      Some {| cons := cons s; rows := rows'; sent := if inserted then snoc (sent s) (a, now) else sent s |}
  end.

(** One anomaly of a record: false when it could not be recorded. *)
Definition handle (s : Service) (a : AnomalyEvent) (extID : string) (answers : list bool) (now : Time) : Service * bool :=
  let '(c, dup) := isDuplicate (cons s) a now in
  let s := {| cons := c; rows := rows s; sent := sent s |} in
  if dup then (s, true)
  else match emit s a extID answers now with
       | None => (s, false)
       | Some s => ({| cons := markEmitted (cons s) a now; rows := rows s; sent := sent s |}, true)
       end.

Fixpoint handle_all (s : Service) (r : Rec) (i : nat) (l : list AnomalyEvent) (answers : string → list bool) (now : Time)
  : Service * bool :=
  match l with
  | [] => (s, true)
  | a :: l' =>
      let '(s, ok) := handle s a (ext_id r i) (answers (ext_id r i)) now in
      if ok then handle_all s r (S i) l' answers now else (s, false)
  end.

Definition process_record (s : Service) (w : World (Selector := Selector)) (r : Rec) (answers : string → list bool)
  : Service * bool :=
  let '(c, l) := evaluateRaw AsSelector own_ns parse_time (cons s) w (r_value r) in
  handle_all {| cons := c; rows := rows s; sent := sent s |} r 0 l answers (w_now w).

(** [fetches.EachRecord]: after a failure the remaining records are passed over. *)
Fixpoint process_records (s : Service) (worlds : Rec → World (Selector := Selector)) (answers : string → list bool)
  (l : list Rec) : Service * bool :=
  match l with
  | [] => (s, true)
  | r :: l' =>
      let '(s, ok) := process_record s (worlds r) r answers in
      if ok then process_records s worlds answers l' else (s, false)
  end.

(** One round of [Run]; [errs]: the poll reported errors. *)
Definition run_once {K : KafkaClient Rec} (s : Service) (k : session) (worlds : Rec → World (Selector := Selector))
  (answers : string → list bool) (errs : bool) : Service * session :=
  let '(recs, k) := PollFetches k in
  let '(s, ok) := process_records s worlds answers recs in
  if negb ok then (s, k)
  else if errs && match recs with [] => true | _ => false end then (s, k)
  else (s, CommitUncommittedOffsets k).

End Run.

(** * How anomalies are recorded

    Alerts and rows agree one to one and equal alerts are five minutes apart; a
    poll in which the database stays away loses records. *)



#[local] Arguments reconEvents : simpl never.
#[local] Arguments Observe : simpl never.
#[local] Arguments ProcessFlowUpdate : simpl never.
#[local] Arguments ProcessExecUpdate : simpl never.

Section Props.
  Context {Selector : Type} (AsSelector : Selector → option (list (string * string) → bool)).
  Context {T : CaseTables} {F : FloatText} {O : MapOrder}.
  Context (own_ns : string) (parse_time : string → option Time).
  Local Abbreviation eval := (evaluateRaw AsSelector own_ns parse_time).
  Local Abbreviation record_step := (process_record AsSelector own_ns parse_time).
  Local Abbreviation records_step := (process_records AsSelector own_ns parse_time).
  Local Abbreviation round := (run_once AsSelector own_ns parse_time).

(** ** Evaluation leaves the dedup table alone *)

Lemma recon_dedup c (w : World (Selector := Selector)) b ip port svc ns :
  dedupSeen (reconEvents c w b ip port svc ns).1 = dedupSeen c.
Proof. unfold reconEvents. by destruct (Observe _ _ _ _ _ _ _). Qed.

Lemma connect_dedup c w ev b : dedupSeen (evalConnect AsSelector parse_time c w ev b).1 = dedupSeen c.
Proof.
  unfold evalConnect. case_if; [done|]. destruct (matchTrap w (extractIP ev)) as [tr|].
  - pose proof (recon_dedup c w (with_pod_ip w b) (extractIP ev) (extractPort ev) (trap_Name tr) (trap_Namespace tr)) as Hb.
    by destruct (reconEvents _ _ _ _ _ _ _).
  - destruct (default ("", "") _) as [svc ns]. destruct (Check _ _ _ _ _ _ _ _) as [k res].
    destruct (ProcessFlowUpdate _ _ _) as [st r].
    pose proof (recon_dedup (set_base (set_check c k) st) w b (extractIP ev) (extractPort ev) svc ns) as Hb.
    by destruct (reconEvents _ _ _ _ _ _ _).
Qed.

Lemma exec_dedup c (w : World (Selector := Selector)) ev b : dedupSeen (evalExecve c w ev b).1 = dedupSeen c.
Proof.
  unfold evalExecve. destruct (consumeRecentMemfd _ _ _ _ _) as [c1 recent] eqn:Hm.
  assert (dedupSeen c1 = dedupSeen c) as Hb.
  { unfold consumeRecentMemfd in Hm. destruct (memfdSeen c !! _); by injection Hm as <- _. }
  destruct recent; [done|]. destruct (suspicious_binary _) as [[k d]|]; [done|]. case_if; [done|].
  destruct (ProcessExecUpdate _ _ _ _ _ _) as [st r]. by destruct r.
Qed.

Lemma eval_dedup c w d : dedupSeen (eval c w d).1 = dedupSeen c.
Proof.
  unfold evaluateRaw. destruct d as [ev|]; [|done]. unfold eval_syscall, evalSendto.
  repeat match goal with |- dedupSeen (fst (if ?b then _ else _)) = _ => destruct b end;
    first [apply connect_dedup | apply exec_dedup | done | by destruct (Observe _ _ _ _ _ _ _)].
Qed.

(** ** Spacing *)

(** Equal alerts are at least five minutes apart. *)
Definition spaced (l : list (AnomalyEvent * Time)) : Prop :=
  ∀ i j x y, (i < j)%nat → l !! i = Some x → l !! j = Some y → anomalyKey x.1 = anomalyKey y.1 →
  (x.2 + dedupWindow ≤ y.2)%Z.

Lemma spaced_snoc (l : list (AnomalyEvent * Time)) y :
  spaced l → (∀ x, x ∈ l → anomalyKey x.1 = anomalyKey y.1 → (x.2 + dedupWindow ≤ y.2)%Z) → spaced (snoc l y).
Proof.
  intros Hl Hy i j a b Hij [Hi|(Hi & Hi')]%lookup_app_Some [Hj|(Hj & Hj')]%lookup_app_Some Hk.
  - by apply (Hl i j).
  - apply list_lookup_singleton_Some in Hj' as [_ <-]. apply Hy; [by eapply list_elem_of_lookup_2|done].
  - apply lookup_lt_Some in Hj. exfalso. apply (Nat.lt_irrefl i). eapply Nat.lt_le_trans; [exact Hij|].
    eapply Nat.le_trans; [apply Nat.lt_le_incl, Hj|exact Hi].
  - apply list_lookup_singleton_Some in Hi' as [Hi' _]. apply list_lookup_singleton_Some in Hj' as [Hj' _]. lia.
Qed.

Record sinv (rows0 : Events) (s : Service (Selector := Selector)) (t : Time) : Prop := {
  s_time : (unixEpoch ≤ t < horizon)%Z;
  s_rows : map fst (sent s) ++ map snd (map_to_list rows0) ≡ₚ map snd (map_to_list (rows s));
  s_sent : ∀ x, x ∈ sent s → (unixEpoch ≤ x.2 ≤ t)%Z;
  s_seen : ∀ k v, dedupSeen (cons s) !! k = Some v → (unixEpoch ≤ v ≤ t)%Z;
  s_cover : ∀ x, x ∈ sent s →
    (∃ v, dedupSeen (cons s) !! anomalyKey x.1 = Some v ∧ (x.2 ≤ v)%Z) ∨ (x.2 + dedupWindow < t)%Z;
  s_spaced : spaced (sent s);
}.

Lemma isDuplicate_seen (c : Consumer (Selector := Selector)) a now k v :
  dedupSeen (isDuplicate c a now).1 !! k = Some v ↔ dedupSeen c !! k = Some v ∧ (TSub now v ≤ dedupWindow)%Z.
Proof. unfold isDuplicate. cbn [fst dedupSeen set_dedup]. rewrite map_lookup_filter_Some, <- Z.leb_le. done. Qed.

Lemma isDuplicate_false (c : Consumer (Selector := Selector)) a now v :
  (isDuplicate c a now).2 = false → dedupSeen (isDuplicate c a now).1 !! anomalyKey a = Some v →
  (dedupWindow ≤ TSub now v)%Z.
Proof. unfold isDuplicate. cbn [fst snd dedupSeen set_dedup]. intros Hd Hv. rewrite Hv in Hd. by apply Z.ltb_ge. Qed.

(** The state after [isDuplicate], and what it means that there is no repeat. *)
Lemma pruned_sinv rows0 s t a now :
  sinv rows0 s t → (t ≤ now < horizon)%Z →
  let s' := {| cons := (isDuplicate (cons s) a now).1; rows := rows s; sent := sent s |} in
  sinv rows0 s' now ∧
  ((isDuplicate (cons s) a now).2 = false →
   ∀ x, x ∈ sent s → anomalyKey x.1 = anomalyKey a → (x.2 + dedupWindow ≤ now)%Z).
Proof.
  intros [Ht Hr Hs Hd Hc Hsp] Hnow.
  assert (∀ x, x ∈ sent s →
            (∃ v, dedupSeen (isDuplicate (cons s) a now).1 !! anomalyKey x.1 = Some v ∧ (x.2 ≤ v)%Z)
            ∨ (x.2 + dedupWindow < now)%Z) as Hc'.
  { intros x Hx. destruct (Hc x Hx) as [(v & Hv & Hle)|]; [|right; lia]. specialize (Hd _ _ Hv).
    destruct (Z.le_gt_cases (now - v) dedupWindow); [left|right; lia]. exists v. split; [|done].
    apply isDuplicate_seen. split; [done|]. rewrite TSub_exact by lia. done. }
  split.
  - constructor; cbn [cons rows sent]; [lia|done| | |done|done].
    + intros x Hx. specialize (Hs x Hx). lia.
    + intros k v Hv. apply isDuplicate_seen in Hv as [Hv _]. specialize (Hd k v Hv). lia.
  - intros Hnd x Hx Hk. destruct (Hc' x Hx) as [(v & Hv & Hle)|]; [|lia].
    rewrite Hk in Hv. pose proof (isDuplicate_false _ _ _ _ Hnd Hv) as Hge.
    apply isDuplicate_seen in Hv as [Hv _]. specialize (Hd _ _ Hv). rewrite TSub_exact in Hge by lia. lia.
Qed.

Lemma insert_attempts_spec n (rs : Events) a e answers rs' (ins : bool) :
  insert_attempts n rs a e answers = Some (rs', ins) →
  if ins then rs' = <[e := a]> rs ∧ rs !! e = None else rs' = rs.
Proof.
  revert answers. induction n as [|n IH]; intros [|[] answers]; simpl; try done; [|apply IH].
  destruct (rs !! e) eqn:He; by intros [= <- <-].
Qed.

(** Recording an anomaly that is no repeat. *)
Lemma mark_sinv rows0 s now a (rs' : Events) (ins : bool) e :
  sinv rows0 s now →
  (if ins then rs' = <[e := a]> (rows s) ∧ rows s !! e = None else rs' = rows s) →
  (∀ x, x ∈ sent s → anomalyKey x.1 = anomalyKey a → (x.2 + dedupWindow ≤ now)%Z) →
  sinv rows0 {| cons := markEmitted (cons s) a now; rows := rs';
                sent := if ins then snoc (sent s) (a, now) else sent s |} now.
Proof.
  intros [Ht Hr Hs Hd Hc Hsp] Hins Hfar.
  assert (∀ x, x ∈ (if ins then snoc (sent s) (a, now) else sent s) → x ∈ sent s ∨ x = (a, now)) as Hin.
  { intros x. destruct ins; [|by left]. unfold snoc. rewrite elem_of_app, list_elem_of_singleton. tauto. }
  constructor; simpl; [done| | | | |].
  - destruct ins; [destruct Hins as [-> Hn]|by subst]. rewrite map_to_list_insert by done. simpl.
    unfold snoc. rewrite map_app. simpl. rewrite <- Hr. rewrite <- app_assoc. simpl. by rewrite Permutation_middle.
  - intros x [Hx| ->]%Hin; [by apply Hs|simpl; lia].
  - intros k v. destruct (decide (k = anomalyKey a)) as [->|Hk]; [rewrite lookup_insert_eq|rewrite lookup_insert_ne by done].
    + intros [= <-]. lia.
    + apply Hd.
  - intros x Hx. destruct (decide (anomalyKey x.1 = anomalyKey a)) as [Hk|Hk].
    + left. exists now. rewrite Hk, lookup_insert_eq. split; [done|].
      apply Hin in Hx as [Hx| ->]; [specialize (Hs x Hx); lia|simpl; lia].
    + apply Hin in Hx as [Hx| ->]; [|done]. rewrite lookup_insert_ne by done. by apply Hc.
  - destruct ins; [|done]. by apply spaced_snoc.
Qed.

Lemma handle_sinv rows0 s t a e answers now :
  sinv rows0 s t → (t ≤ now < horizon)%Z → sinv rows0 (handle s a e answers now).1 now.
Proof.
  intros Hi Hnow. destruct (pruned_sinv rows0 s t a now Hi Hnow) as [Hp Hf]. unfold handle.
  destruct (isDuplicate (cons s) a now) as [c dup]. simpl in *. destruct dup; [done|].
  unfold emit, insertAnomaly. simpl rows.
  destruct (insert_attempts _ _ _ _ _) as [[rs' ins]|] eqn:Hx; [|done].
  exact (mark_sinv rows0 _ now a rs' ins e Hp (insert_attempts_spec _ _ _ _ _ _ _ Hx) (Hf eq_refl)).
Qed.

Lemma handle_all_sinv rows0 s t r i l answers now :
  sinv rows0 s t → (t ≤ now < horizon)%Z → sinv rows0 (handle_all s r i l answers now).1 now ∨ l = [].
Proof.
  revert s t i. induction l as [|a l IH]; intros s t i Hi Hnow; [by right|]. left. simpl.
  pose proof (handle_sinv rows0 s t a (ext_id r i) (answers (ext_id r i)) now Hi Hnow) as Hh.
  destruct (handle _ _ _ _ _) as [s1 ok]. simpl in Hh. destruct ok; [|done].
  destruct (IH s1 now (S i) Hh) as [?| ->]; [lia|done|done].
Qed.

Lemma sinv_later rows0 s t now : sinv rows0 s t → (t ≤ now < horizon)%Z → sinv rows0 s now.
Proof.
  intros [Ht Hr Hs Hd Hc Hsp] Hnow. constructor; [lia|done| | | |done].
  - intros x Hx. specialize (Hs x Hx). lia.
  - intros k v Hv. specialize (Hd k v Hv). lia.
  - intros x Hx. destruct (Hc x Hx); [by left|right; lia].
Qed.

Lemma record_sinv rows0 s t w r answers :
  sinv rows0 s t → (t ≤ w_now w < horizon)%Z → sinv rows0 (record_step s w r answers).1 (w_now w).
Proof.
  intros Hi Hnow. unfold process_record. pose proof (eval_dedup (cons s) w (r_value r)) as He.
  destruct (eval (cons s) w (r_value r)) as [c l]. simpl in He.
  assert (sinv rows0 {| cons := c; rows := rows s; sent := sent s |} t) as Hi'.
  { destruct Hi. constructor; simpl; rewrite ?He; done. }
  destruct (handle_all_sinv rows0 _ t r 0 l answers (w_now w) Hi' Hnow) as [?| ->]; [done|].
  simpl. by eapply sinv_later.
Qed.

(** A service that found [rows0] in the table, after some records, the clock at [t]. *)
Inductive srun (rows0 : Events) : Service (Selector := Selector) → Time → Prop :=
| srun_start c t : (unixEpoch ≤ t < horizon)%Z → dedupSeen c = ∅ → srun rows0 {| cons := c; rows := rows0; sent := [] |} t
| srun_record s t w r answers :
    srun rows0 s t → (t ≤ w_now w < horizon)%Z → srun rows0 (record_step s w r answers).1 (w_now w).

Lemma srun_sinv rows0 s t : srun rows0 s t → sinv rows0 s t.
Proof.
  induction 1 as [c t Ht Hc|s t w r answers _ IH Hw]; [|by eapply record_sinv].
  constructor; simpl; rewrite ?Hc; try done.
  - by intros x ?%not_elem_of_nil.
  - by intros x ?%not_elem_of_nil.
Qed.

(** On every run, whatever the database does, each row the service adds is
    announced by exactly one alert and each alert has its row, and two alerts
    with the same key (pod, process, syscall, kind, destination) are at least
    five minutes apart. *)
Theorem alerts_spaced rows0 s t i j x y :
  srun rows0 s t →
  map fst (sent s) ++ map snd (map_to_list rows0) ≡ₚ map snd (map_to_list (rows s))
  ∧ ((i < j)%nat → sent s !! i = Some x → sent s !! j = Some y → anomalyKey x.1 = anomalyKey y.1 →
     (x.2 + 5 * Minute ≤ y.2)%Z).
Proof. intros []%srun_sinv. split; [done|]. by apply s_spaced0. Qed.

(** ** Failed polls *)

Lemma records_app s worlds answers l1 l2 :
  records_step s worlds answers (l1 ++ l2) =
  let '(s1, ok) := records_step s worlds answers l1 in
  if ok then records_step s1 worlds answers l2 else (s1, false).
Proof.
  revert s. induction l1 as [|r l1 IH]; intros s; simpl; [done|].
  destruct (process_record _ _ _ _ _ _ _) as [s1 ok]. by destruct ok.
Qed.

(** A poll in which an anomaly cannot be recorded loses records: what was
    polled after the failing record is not evaluated, the loop goes on with the
    next poll, and as soon as that one succeeds its commit covers the whole
    failed poll, so that neither this session nor a restart sees those records
    again. *)
Theorem failed_poll_loses {K : KafkaClient Rec} s0 k0 worlds answers errs pre r post worlds' answers' :
  (PollFetches k0).1 = pre ++ r :: post →
  (records_step s0 worlds answers (pre ++ [r])).2 = false →
  let '(s1, k1) := round s0 k0 worlds answers errs in
  let '(s2, k2) := round s1 k1 worlds' answers' false in
  (records_step s1 worlds' answers' (PollFetches k1).1).2 = true →
  s1 = (records_step s0 worlds answers (pre ++ [r])).1
  ∧ uncommitted k2 = pending k2
  ∧ pending k0 = pre ++ r :: post ++ (PollFetches k1).1 ++ pending k2.
Proof.
  intros Hpoll Hfail. pose proof (poll_pending k0) as Hp0. unfold run_once.
  destruct (PollFetches k0) as [recs k1]. simpl in *. subst recs.
  change (r :: post) with ([r] ++ post). rewrite app_assoc, records_app.
  destruct (records_step s0 worlds answers (pre ++ [r])) as [s1 ok1]. simpl in *. subst ok1. simpl.
  pose proof (poll_pending k1) as Hp1. destruct (PollFetches k1) as [recs2 k2]. simpl in *.
  destruct (records_step s1 worlds' answers' recs2) as [s2 ok2]. simpl.
  destruct ok2; simpl; [|done]. intros _. split; [done|]. rewrite commit_uncommitted, commit_pending.
  split; [done|]. rewrite Hp0, Hp1. by rewrite <- !app_assoc.
Qed.
End Props.

(** Examples: a topic with two records, of which the first cannot be stored. *)
Definition demo_topic : list Rec :=
  [{| r_partition := 0%Z; r_offset := 0%Z; r_value := Some (demo_process "bpf" 7%Z) |};
   {| r_partition := 0%Z; r_offset := 1%Z; r_value := Some (demo_process "ptrace" 7%Z) |};
   {| r_partition := 0%Z; r_offset := 2%Z; r_value := Some (demo_process "setns" 7%Z) |}].
Definition demo_service : Service (Selector := unit) := {| cons := demo_consumer; rows := ∅; sent := [] |}.
Definition demo_step := process_record (T := ascii_tables) (F := small_float_text) (O := keep_order)
  no_selector "wolfee-watcher" no_time.

Lemma alerts_spaced_witness :
  map (λ x, EvKind x.1) (sent (demo_step demo_service (demo_world newYear)
     {| r_partition := 0%Z; r_offset := 0%Z; r_value := Some (demo_process "bpf" 7%Z) |} (λ _, [true])).1) = [KindEBPFLoad]
  ∧ length (sent (demo_step demo_service (demo_world newYear)
     {| r_partition := 0%Z; r_offset := 0%Z; r_value := Some (demo_process "bpf" 7%Z) |} (λ _, [true])).1) = 1%nat.
Proof.
  split; [vm_compute; reflexivity|].
  set (s := (demo_step _ _ _ _).1).
  assert (srun (T := ascii_tables) (F := small_float_text) (O := keep_order) no_selector "wolfee-watcher" no_time ∅ s newYear) as Hr.
  { apply srun_record with newYear; [apply srun_start; [unfold newYear, horizon, Second; lia|done]|simpl; unfold newYear, horizon, Second; lia]. }
  destruct (alerts_spaced (T := ascii_tables) (F := small_float_text) (O := keep_order) no_selector "wolfee-watcher" no_time ∅ s newYear 0 1
    (base_event (demo_world 0%Z) [], 0%Z) (base_event (demo_world 0%Z) [], 0%Z) Hr) as [Hperm _].
  apply Permutation_length in Hperm. rewrite length_app, !length_map in Hperm.
  rewrite map_to_list_empty in Hperm. simpl in Hperm. rewrite Nat.add_0_r in Hperm. rewrite Hperm.
  vm_compute. reflexivity.
Defined.

Lemma failed_poll_loses_witness :
  let K := list_client demo_topic 2 in
  let run := run_once (T := ascii_tables) (F := small_float_text) (O := keep_order) no_selector "wolfee-watcher" no_time (K := K) in
  let '(s1, k1) := run demo_service (0, 0)%nat (λ _, demo_world 1000%Z) (λ _, [false; false; false]) false in
  let '(s2, k2) := run s1 k1 (λ _, demo_world 2000%Z) (λ _, [true]) false in
  uncommitted (KafkaClient := K) k2 = [] ∧ map EvKind (map snd (map_to_list (rows s2))) = [KindContainerEscape].
Proof.
  pose proof (failed_poll_loses (T := ascii_tables) (F := small_float_text) (O := keep_order) no_selector "wolfee-watcher" no_time
    (K := list_client demo_topic 2) demo_service (0, 0)%nat (λ _, demo_world 1000%Z) (λ _, [false; false; false]) false
    [] {| r_partition := 0%Z; r_offset := 0%Z; r_value := Some (demo_process "bpf" 7%Z) |}
    [{| r_partition := 0%Z; r_offset := 1%Z; r_value := Some (demo_process "ptrace" 7%Z) |}]
    (λ _, demo_world 2000%Z) (λ _, [true]) eq_refl eq_refl) as H.
  intros K run. vm_compute in H |- *. destruct (H eq_refl) as (_ & Hu & _). exact (conj Hu eq_refl).
Defined.
