(* ===== verification/AuditEngine.v ===== *)
(** * kvisior/internal/auditengine: one audit event from two sources

    engine.go, pending.go and the statements they use (store/auditstate.go,
    store/audit.go): the admission webhook and the API server log report the
    same request; the engine stores it once, adds to the stored event what the
    second source knows, and acts on each matching rule once. The database is a
    value; an ingest step is one transaction on the state of one event key. A
    transaction that fails changes nothing. *)

From Stdlib Require Import Ascii.
From stdpp Require Import base list gmap strings sorting.
From S2P Require Import Prelude GoStrings GoNet AuditRules.
Local Open Scope string_scope.
Local Open Scope list_scope.
Local Open Scope go_scope.

#[export] Instance Spec_eq_dec : EqDecision Spec.
Proof. solve_decision. Defined.

(** ** Severity *)

Definition sevRank (sev : string) : nat :=
  if sev == SevCritical then 4 else if sev == SevHigh then 3 else if sev == SevMedium then 2
  else if sev == SevLow then 1 else 0.

Definition better (best : option Rule) (r : Rule) : option Rule :=
  if negb (R_Enabled r) then best
  else match best with
       | None => Some r
       | Some b => if (sevRank (R_Severity b) <? sevRank (R_Severity r))%nat then Some r else Some b
       end.

Definition topRule (hits : list Rule) : option Rule := foldl better None hits.

(** ** Data *)

Inductive Origin := OriginAdmission | OriginAPILog | OriginBoth.
#[export] Instance Origin_eq_dec : EqDecision Origin.
Proof. solve_decision. Defined.

Record AuditEnrichment := {
  EventUID : string;
  N_SourceIPs : list string;
  N_ClientIP : string;
  N_UserAgent : string;
  N_AuditID : string;
  N_StatusCode : Z;
  N_Allowed : bool;
  At : Time;
  N_User : string;
  N_Groups : list string;
  N_ImpersonatedUser : string;
  N_ImpersonatedGroups : list string;
  N_Attribution : string;
  N_Event : option Event;
  Materialized : bool;
}.

Record AuditState := { IsAdmitted : bool; Enriched : bool; Pending : option AuditEnrichment }.
Definition no_state : AuditState := {| IsAdmitted := false; Enriched := false; Pending := None |}.

(** A row of audit_events; its uid is the id of the event. *)
Record Row := { row_id : nat; row_ts : Time; row_origin : Origin; row_event : Event; row_rule : string; row_sev : string }.

(** What a rule did for an event key. *)
Record Action := { a_key : string; a_rule : Rule; a_event : Event }.

Record DB := {
  states : gmap string AuditState;
  rows : list Row;
  claims : gset (string * string);
  violations : list Action;
  alerts : list Action;
  thresholds : gmap string (Spec * Time * list Time);
}.

Definition empty_db : DB :=
  {| states := ∅; rows := []; claims := ∅; violations := []; alerts := []; thresholds := ∅ |}.

Definition set_rows (db : DB) (rs : list Row) : DB :=
  {| states := states db; rows := rs; claims := claims db; violations := violations db; alerts := alerts db;
     thresholds := thresholds db |}.

Definition auditJoinSlack : Duration := Hour.
Definition auditTwinSlack : Duration := (30 * Second)%Z.
Definition in_window (slack : Duration) (around ts : Time) : bool :=
  ((around - slack <=? ts) && (ts <=? around + slack))%Z.

Section Engine.
  Context {T : CaseTables}.
  Context (matcher : Matcher) (cluster : string) (retention : Duration).

(** ** The statements *)

(** [partitionedTS]: too old is not stored, far in the future is stored as now. *)
Definition partitionedTS (ts now : Time) : option Time :=
  if Before ts (TAdd now (- retention)%Z) then None
  else if After ts (TAdd now Hour) then Some now else Some ts.

Definition row_of (uid : string) (slack : Duration) (around : Time) (r : Row) : bool :=
  (E_ID (row_event r) == uid) && in_window slack around (row_ts r).

(** [ExistingAuditEvent]; a zero time means now. *)
Definition ExistingAuditEvent (db : DB) (uid : string) (around now : Time) : bool * bool :=
  let around := if IsZero around then now else around in
  let found := List.filter (row_of uid auditJoinSlack around) (rows db) in
  (match found with [] => false | _ => true end,
   any (λ r, bool_decide (row_origin r = OriginBoth)) found).

Definition InsertAuditEvent (db : DB) (ev : Event) (origin : Origin) (ruleID sev : string) (now : Time) : DB :=
  let ts := if IsZero (E_Timestamp ev) then now else E_Timestamp ev in
  match partitionedTS ts now with
  | None => db
  | Some ts => set_rows db (snoc (rows db)
      {| row_id := length (rows db); row_ts := ts; row_origin := origin; row_event := ev; row_rule := ruleID; row_sev := sev |})
  end.

(** [UPDATE ... RETURNING]: the rows with the change, and the first one. *)
Definition update_rows (rs : list Row) (p : Row → bool) (f : Row → Row) : list Row * option Row :=
  (map (λ r, if p r then f r else r) rs, f <$> List.find p rs).

Definition both (r : Row) (ev : Event) : Row :=
  {| row_id := row_id r; row_ts := row_ts r; row_origin := OriginBoth; row_event := ev; row_rule := row_rule r; row_sev := row_sev r |}.

(** The event with what the API server log knows. *)
Definition enriched_event (en : AuditEnrichment) (e : Event) : Event :=
  let actor := N_User en != "" in
  let imp := actor && (N_ImpersonatedUser en != "") in
  {| E_ID := E_ID e; E_Timestamp := E_Timestamp e;
     E_User := if actor then N_User en else E_User e;
     E_ImpersonatedUser := if imp then N_ImpersonatedUser en else E_ImpersonatedUser e;
     E_ImpersonatedGroups := if imp then N_ImpersonatedGroups en else E_ImpersonatedGroups e;
     E_ServiceAccount := if actor then "" else E_ServiceAccount e;
     E_Groups := if actor then N_Groups en else E_Groups e;
     E_SourceIPs := N_SourceIPs en;
     E_ClientIP := if N_ClientIP en == "" then ClientIP (N_SourceIPs en) [] else N_ClientIP en;
     E_UserAgent := N_UserAgent en; E_Kind := E_Kind e; E_Resource := E_Resource e;
     E_WebhookType := E_WebhookType e; E_Namespace := E_Namespace e; E_Name := E_Name e; E_UID := E_UID e;
     E_ResourceVersion := E_ResourceVersion e; E_PrevResourceVersion := E_PrevResourceVersion e;
     E_Unchanged := E_Unchanged e; E_DryRun := E_DryRun e; E_CompletedAt := E_CompletedAt e; E_Source := E_Source e;
     E_Attribution := if actor && (N_Attribution en != "") then N_Attribution en else E_Attribution e;
     E_Container := E_Container e; E_Commands := E_Commands e; E_Ports := E_Ports e;
     E_Allowed := Some (N_Allowed en); E_StatusCode := N_StatusCode en; E_AuditID := N_AuditID en |}.

Definition EnrichAuditEvent (db : DB) (en : AuditEnrichment) (now : Time) : DB * option Row :=
  let around := if IsZero (At en) then now else At en in
  let '(rs, row) := update_rows (rows db)
      (λ r, row_of (EventUID en) auditJoinSlack around r && bool_decide (row_origin r = OriginAdmission))
      (λ r, both r (enriched_event en (row_event r))) in
  (set_rows db rs, row).

(** The event with what the admission request knows: the fields of
    [admissionDetails] that are not empty. *)
Definition over {A} (empty : bool) (new old : A) : A := if empty then old else new.
Definition admitted_event (adm e : Event) : Event :=
  let s new old := over (new == "") new old in
  {| E_ID := E_ID e; E_Timestamp := E_Timestamp e; E_User := E_User e;
     E_ImpersonatedUser := E_ImpersonatedUser e; E_ImpersonatedGroups := E_ImpersonatedGroups e;
     E_ServiceAccount := if E_ImpersonatedUser e != "" then E_ServiceAccount e
                         else s (E_ServiceAccount adm) (E_ServiceAccount e);
     E_Groups := E_Groups e; E_SourceIPs := E_SourceIPs e; E_ClientIP := E_ClientIP e; E_UserAgent := E_UserAgent e;
     E_Kind := E_Kind e; E_Resource := E_Resource e;
     E_WebhookType := s (E_WebhookType adm) (E_WebhookType e);
     E_Namespace := E_Namespace e; E_Name := E_Name e;
     E_UID := s (E_UID adm) (E_UID e);
     E_ResourceVersion := s (E_ResourceVersion adm) (E_ResourceVersion e);
     E_PrevResourceVersion := s (E_PrevResourceVersion adm) (E_PrevResourceVersion e);
     E_Unchanged := E_Unchanged adm || E_Unchanged e; E_DryRun := E_DryRun e;
     E_CompletedAt := match E_CompletedAt adm with Some t => Some t | None => E_CompletedAt e end;
     E_Source := s (E_Source adm) (E_Source e); E_Attribution := E_Attribution e;
     E_Container := s (E_Container adm) (E_Container e);
     E_Commands := match E_Commands adm with [] => E_Commands e | l => l end;
     E_Ports := match E_Ports adm with [] => E_Ports e | l => l end;
     E_Allowed := E_Allowed e; E_StatusCode := E_StatusCode e; E_AuditID := E_AuditID e |}.

Definition MergeAdmissionDetails (db : DB) (adm : Event) (around now : Time) : DB * option Row :=
  let around := if IsZero around then now else around in
  let '(rs, row) := update_rows (rows db)
      (λ r, row_of (E_ID adm) auditJoinSlack around r && bool_decide (row_origin r = OriginAPILog))
      (λ r, both r (admitted_event adm (row_event r))) in
  (set_rows db rs, row).

(** [MarkAuditEventRule] on the row just returned. *)
Definition MarkAuditEventRule (db : DB) (row : Row) (ruleID sev : string) : DB :=
  set_rows db (update_rows (rows db)
    (λ r, (row_id r =? row_id row)%nat && (row_ts r =? row_ts row)%Z)
    (λ r, {| row_id := row_id r; row_ts := row_ts r; row_origin := row_origin r; row_event := row_event r;
             row_rule := ruleID; row_sev := sev |})).1.

(** [MergeAuditObjectMeta]: what an informer saw of the object. *)
Definition object_meta (seen : Event) (attribution : string) (e : Event) : Event :=
  let s new old := over (new == "") new old in
  {| E_ID := E_ID e; E_Timestamp := E_Timestamp e; E_User := E_User e;
     E_ImpersonatedUser := E_ImpersonatedUser e; E_ImpersonatedGroups := E_ImpersonatedGroups e;
     E_ServiceAccount := E_ServiceAccount e; E_Groups := E_Groups e; E_SourceIPs := E_SourceIPs e;
     E_ClientIP := E_ClientIP e; E_UserAgent := E_UserAgent e; E_Kind := E_Kind e; E_Resource := E_Resource e;
     E_WebhookType := s (E_WebhookType seen) (E_WebhookType e);
     E_Namespace := E_Namespace e; E_Name := E_Name e;
     E_UID := s (E_UID seen) (E_UID e);
     E_ResourceVersion := s (E_ResourceVersion seen) (E_ResourceVersion e);
     E_PrevResourceVersion := s (E_PrevResourceVersion seen) (E_PrevResourceVersion e);
     E_Unchanged := E_Unchanged e; E_DryRun := E_DryRun e; E_CompletedAt := E_CompletedAt e; E_Source := E_Source e;
     E_Attribution := s attribution (E_Attribution e); E_Container := E_Container e; E_Commands := E_Commands e;
     E_Ports := E_Ports e; E_Allowed := E_Allowed e; E_StatusCode := E_StatusCode e; E_AuditID := E_AuditID e |}.

(** ** Acting on rules *)

(** [AuditThreshold]: the hits that still count and the time of this one. The
    revision of a rule is its specification and the time of its last change. *)
Definition AuditThreshold (db : DB) (r : Rule) (now : Time) : DB * bool :=
  if S_AlertEvery (R_Spec r) != AlertThreshold then (db, true)
  else
    let times := match thresholds db !! R_ID r with
                 | Some (spec, updated, times) =>
                     if bool_decide (spec = R_Spec r) && (updated =? R_UpdatedAt r)%Z then times else []
                 | None => []
                 end in
    let kept := snoc (List.filter (λ at_, (TSub now at_ <? S_ThMin (R_Spec r) * Minute)%Z) times) now in
    let fire := (S_ThN (R_Spec r) <=? Z.of_nat (length kept))%Z in
    ({| states := states db; rows := rows db; claims := claims db; violations := violations db; alerts := alerts db;
        thresholds := <[R_ID r := (R_Spec r, R_UpdatedAt r, if fire then [] else kept)]> (thresholds db) |}, fire).

Definition act_rule (key : string) (ev : Event) (now : Time) (db : DB) (r : Rule) : DB :=
  if bool_decide ((key, R_ID r) ∈ claims db) then db
  else
    let a := {| a_key := key; a_rule := r; a_event := ev |} in
    let db := {| states := states db; rows := rows db; claims := {[(key, R_ID r)]} ∪ claims db;
                 violations := if R_Enabled r then snoc (violations db) a else violations db;
                 alerts := alerts db; thresholds := thresholds db |} in
    if R_Alert r then
      let '(db, fire) := AuditThreshold db r now in
      {| states := states db; rows := rows db; claims := claims db; violations := violations db;
         alerts := if fire then snoc (alerts db) a else alerts db; thresholds := thresholds db |}
    else db.

Definition rule_le (a b : Rule) : Prop := String.leb (R_ID a) (R_ID b) = true.
#[local] Instance rule_le_dec : RelDecision rule_le.
Proof. intros a b. unfold rule_le. apply _. Defined.

Definition act (db : DB) (key : string) (ev : Event) (hits : list Rule) (now : Time) : DB :=
  foldl (act_rule key ev now) db (merge_sort rule_le hits).

Definition hits_of (ev : Event) : list Rule := Match matcher cluster ev false.

Definition persist (db : DB) (origin : Origin) (key : string) (ev : Event) (now : Time) : DB :=
  let hits := hits_of ev in
  let '(ruleID, sev) := match topRule hits with Some top => (R_ID top, ToUpper (R_Severity top)) | None => ("", "") end in
  act (InsertAuditEvent db ev origin ruleID sev now) key ev hits now.

(** After a row was merged: mark it if a worse rule matches now, and act. *)
Definition react (db : DB) (key : string) (row : Row) (now : Time) : DB :=
  let hits := hits_of (row_event row) in
  let db := match topRule hits with
            | Some top => if (sevRank (ToLower (row_sev row)) <? sevRank (R_Severity top))%nat
                          then MarkAuditEventRule db row (R_ID top) (ToUpper (R_Severity top)) else db
            | None => db
            end in
  act db key (row_event row) hits now.

Definition enrich (db : DB) (key : string) (en : AuditEnrichment) (now : Time) : DB * bool :=
  let '(db, row) := EnrichAuditEvent db en now in
  match row with None => (db, false) | Some row => (react db key row now, true) end.

Definition mergeAdmission (db : DB) (key : string) (ev : Event) (at_ now : Time) : DB :=
  let '(db, row) := MergeAdmissionDetails db ev at_ now in
  match row with None => db | Some row => react db key row now end.

(** ** Twins: two reports of one change of an object *)

Definition twinClockSkew : Duration := (5 * Second)%Z.
Definition twinWatchLag : Duration := (15 * Second)%Z.
Definition sourceInformer : string := "kubernetes-informer".
Definition SourceAPILog : string := "apiserver-log".
Definition AuditInformerResource (resource : string) : bool :=
  any (String.eqb resource) ["mutatingwebhookconfigurations"; "validatingwebhookconfigurations"].

Record AuditTwin := {
  T_EventUID : string; T_Origin : Origin; T_Source : string; T_ObjectUID : string;
  T_ResourceVersion : string; T_PrevResourceVersion : string; T_At : Time; T_CompletedAt : Time;
}.

Definition differ (a b : string) : bool := (a != "") && (b != "") && (a != b).

Definition laterRevision (a b : string) : bool :=
  match ParseUint a 64, ParseUint b 64 with Some x, Some y => (y <? x)%Z | _, _ => false end.

Definition completion (ev : Event) : Time := match E_CompletedAt ev with Some t => t | None => E_Timestamp ev end.

Definition observedAfter (watch received completed : Time) : bool :=
  negb (Before watch (TAdd received (- twinClockSkew)%Z))
  && negb (After watch (TAdd completed (twinWatchLag + twinClockSkew)%Z)).

Definition earlierChange (a b : AuditTwin) : bool :=
  if laterRevision (T_ResourceVersion b) (T_ResourceVersion a) then true
  else if laterRevision (T_ResourceVersion a) (T_ResourceVersion b) then false
  else Before (T_At a) (T_At b).

(** The candidates of the search so far: exact, chained, in order, and how
    many are in order. *)
Record Candidates := { exact : option AuditTwin; chained : option AuditTwin; ordered : option AuditTwin; candidates : nat }.
Definition no_candidates : Candidates := {| exact := None; chained := None; ordered := None; candidates := 0 |}.

Definition set_exact (c : Candidates) (t : AuditTwin) : Candidates :=
  {| exact := match exact c with None => Some t | e => e end; chained := chained c; ordered := ordered c;
     candidates := candidates c |}.
Definition set_chained (c : Candidates) (t : AuditTwin) : Candidates :=
  {| exact := exact c; chained := Some t; ordered := ordered c; candidates := candidates c |}.
Definition inOrder (seen : AuditTwin → bool) (earlier : AuditTwin → AuditTwin → bool) (c : Candidates) (t : AuditTwin)
  : Candidates :=
  if negb (seen t) then c
  else {| exact := exact c; chained := chained c;
          ordered := match ordered c with None => Some t | Some o => if earlier t o then Some t else Some o end;
          candidates := S (candidates c) |}.

Record twinMatch := { uid : string; confirmed : bool }.
Definition attribution (m : twinMatch) : string := if confirmed m then "" else AttributionUnconfirmed.

Definition chosen (c : Candidates) : option twinMatch :=
  match exact c, chained c, ordered c with
  | Some t, _, _ | None, Some t, _ => Some {| uid := T_EventUID t; confirmed := true |}
  | None, None, Some t => Some {| uid := T_EventUID t; confirmed := (candidates c =? 1)%nat |}
  | None, None, None => None
  end.

(** The cases both searches share; [update] decides on two known previous
    revisions. *)
Definition twin_step (ev : Event) (eligible seen : AuditTwin → bool) (earlier : AuditTwin → AuditTwin → bool)
  (update : Candidates → AuditTwin → Candidates) (c : Candidates) (t : AuditTwin) : Candidates :=
  if negb (eligible t) || differ (E_UID ev) (T_ObjectUID t) then c
  else if (E_ResourceVersion ev != "") && (T_ResourceVersion t != "") then
    (if E_ResourceVersion ev == T_ResourceVersion t then set_exact c t else c)
  else if E_Kind ev != KindUpdate then
    (if (E_UID ev != "") && (T_ObjectUID t != "") then set_exact c t else inOrder seen earlier c t)
  else if (E_PrevResourceVersion ev == "") || (T_PrevResourceVersion t == "") then inOrder seen earlier c t
  else update c t.

Definition informerTwin (ev : Event) (twins : list AuditTwin) : option twinMatch :=
  let eligible t := (T_Source t == sourceInformer) && bool_decide (T_Origin t = OriginAdmission) in
  let update c t :=
    if E_PrevResourceVersion ev == T_PrevResourceVersion t then set_exact c t
    else if laterRevision (T_PrevResourceVersion t) (E_PrevResourceVersion ev) then
      match chained c with
      | None => set_chained c t
      | Some b => if laterRevision (T_PrevResourceVersion b) (T_PrevResourceVersion t) then set_chained c t else c
      end
    else c in
  chosen (foldl (twin_step ev eligible (λ t, observedAfter (T_At t) (E_Timestamp ev) (completion ev)) earlierChange update)
            no_candidates twins).

Definition logTwin (ev : Event) (twins : list AuditTwin) : option twinMatch :=
  let eligible t := bool_decide (T_Origin t = OriginAPILog) in
  let sooner t o := Before (T_CompletedAt t) (T_CompletedAt o) in
  let update c t :=
    if (E_PrevResourceVersion ev == T_PrevResourceVersion t)
       || laterRevision (E_PrevResourceVersion ev) (T_PrevResourceVersion t) then
      let started := negb (After (T_At t) (TAdd (E_Timestamp ev) twinClockSkew)) in
      if started && match chained c with None => true | Some b => sooner t b end then set_chained c t else c
    else c in
  chosen (foldl (twin_step ev eligible (λ t, observedAfter (E_Timestamp ev) (T_At t) (T_CompletedAt t)) sooner update)
            no_candidates twins).

(** [FindAuditTwins]: the rows of the object near [ev], nearest first. *)
Definition twin_of (r : Row) : AuditTwin :=
  let e := row_event r in
  {| T_EventUID := E_ID e; T_Origin := row_origin r; T_Source := E_Source e; T_ObjectUID := E_UID e;
     T_ResourceVersion := E_ResourceVersion e; T_PrevResourceVersion := E_PrevResourceVersion e;
     T_At := row_ts r; T_CompletedAt := match E_CompletedAt e with Some t => t | None => row_ts r end |}.

Definition is_twin (ev : Event) (r : Row) : bool :=
  let e := row_event r in
  (E_Kind e == E_Kind ev) && (E_Resource e == E_Resource ev) && (E_Name e == E_Name ev)
  && in_window auditTwinSlack (E_Timestamp ev) (row_ts r) && (E_ID e != "") && IsAllowed e && negb (E_Unchanged e).

Definition nearer (around : Time) (a b : AuditTwin) : Prop := (Z.abs (T_At a - around) ≤ Z.abs (T_At b - around))%Z.
#[local] Instance nearer_dec around : RelDecision (nearer around).
Proof. intros a b. unfold nearer. apply _. Defined.

Definition objectTwins (db : DB) (ev : Event) : list AuditTwin :=
  merge_sort (nearer (E_Timestamp ev)) (map twin_of (List.filter (is_twin ev) (rows db))).

Definition MergeAuditObjectMeta (db : DB) (match_uid : string) (seen : Event) (attr : string) : DB :=
  set_rows db (update_rows (rows db)
    (λ r, row_of match_uid auditTwinSlack (E_Timestamp seen) r && bool_decide (row_origin r = OriginAPILog))
    (λ r, both r (object_meta seen attr (row_event r)))).1.

(** ** Transactions *)

Definition state_of (db : DB) (key : string) : AuditState := default no_state (states db !! key).

Definition put_state (db : DB) (key : string) (st : AuditState) : DB :=
  {| states := <[key := st]> (states db); rows := rows db; claims := claims db; violations := violations db;
     alerts := alerts db; thresholds := thresholds db |}.

Definition set_pending (p : AuditEnrichment) (at_ : Time) : AuditEnrichment :=
  {| EventUID := EventUID p; N_SourceIPs := N_SourceIPs p; N_ClientIP := N_ClientIP p; N_UserAgent := N_UserAgent p;
     N_AuditID := N_AuditID p; N_StatusCode := N_StatusCode p; N_Allowed := N_Allowed p; At := at_;
     N_User := N_User p; N_Groups := N_Groups p; N_ImpersonatedUser := N_ImpersonatedUser p;
     N_ImpersonatedGroups := N_ImpersonatedGroups p; N_Attribution := N_Attribution p; N_Event := N_Event p;
     Materialized := Materialized p |}.
Definition without_event (p : AuditEnrichment) : AuditEnrichment :=
  {| EventUID := EventUID p; N_SourceIPs := N_SourceIPs p; N_ClientIP := N_ClientIP p; N_UserAgent := N_UserAgent p;
     N_AuditID := N_AuditID p; N_StatusCode := N_StatusCode p; N_Allowed := N_Allowed p; At := At p;
     N_User := N_User p; N_Groups := N_Groups p; N_ImpersonatedUser := N_ImpersonatedUser p;
     N_ImpersonatedGroups := N_ImpersonatedGroups p; N_Attribution := N_Attribution p; N_Event := None;
     Materialized := Materialized p |}.

Definition admission_key (u : string) : string := "admission:" +:+ u.
Definition apilog_key (u : string) : string := "apilog:" +:+ u.

(** The second half of an admission: pick up what the log left. *)
Definition admission_pending (db : DB) (key : string) (st : AuditState) (ev : Event) (now : Time) : DB * AuditState :=
  match Pending st with
  | None => (db, st)
  | Some p =>
      if Materialized p then
        (mergeAdmission db key ev (At p) now, {| IsAdmitted := IsAdmitted st; Enriched := true; Pending := None |})
      else if Enriched st then (db, st)
      else
        let '(db, ok) := enrich db key (set_pending p (E_Timestamp ev)) now in
        (db, if ok then {| IsAdmitted := IsAdmitted st; Enriched := true; Pending := None |} else st)
  end.

(** One event of [IngestEvents]. *)
Definition admit_event (db : DB) (ev : Event) (now : Time) : DB :=
  let key := admission_key (E_ID ev) in
  let st := state_of db key in
  let continue db st := let '(db, st) := admission_pending db key st ev now in put_state db key st in
  if IsAdmitted st then continue db st
  else
    let '(adm, enr) := ExistingAuditEvent db (E_ID ev) (E_Timestamp ev) now in
    let st := {| IsAdmitted := adm; Enriched := enr; Pending := Pending st |} in
    let admitted := {| IsAdmitted := true; Enriched := enr; Pending := Pending st |} in
    let twin := if negb adm && (E_Source ev == sourceInformer) && AuditInformerResource (E_Resource ev)
                then logTwin ev (objectTwins db ev) else None in
    match twin with
    | Some m => put_state (MergeAuditObjectMeta db (uid m) ev (attribution m)) key admitted
    | None => if adm then continue db st
              else continue (persist db OriginAdmission key ev now) admitted
    end.

Definition enrichment (u : string) (ev : Event) (actor : bool) : AuditEnrichment :=
  {| EventUID := u; N_SourceIPs := E_SourceIPs ev; N_ClientIP := E_ClientIP ev; N_UserAgent := E_UserAgent ev;
     N_AuditID := E_AuditID ev; N_StatusCode := E_StatusCode ev; N_Allowed := IsAllowed ev; At := E_Timestamp ev;
     N_User := if actor then E_User ev else ""; N_Groups := if actor then E_Groups ev else [];
     N_ImpersonatedUser := if actor then E_ImpersonatedUser ev else "";
     N_ImpersonatedGroups := if actor then E_ImpersonatedGroups ev else [];
     N_Attribution := ""; N_Event := None; Materialized := false |}.

Definition with_attribution (en : AuditEnrichment) (a : string) : AuditEnrichment :=
  {| EventUID := EventUID en; N_SourceIPs := N_SourceIPs en; N_ClientIP := N_ClientIP en; N_UserAgent := N_UserAgent en;
     N_AuditID := N_AuditID en; N_StatusCode := N_StatusCode en; N_Allowed := N_Allowed en; At := At en;
     N_User := N_User en; N_Groups := N_Groups en; N_ImpersonatedUser := N_ImpersonatedUser en;
     N_ImpersonatedGroups := N_ImpersonatedGroups en; N_Attribution := a; N_Event := N_Event en;
     Materialized := Materialized en |}.
Definition with_event (en : AuditEnrichment) (ev : Event) : AuditEnrichment :=
  {| EventUID := EventUID en; N_SourceIPs := N_SourceIPs en; N_ClientIP := N_ClientIP en; N_UserAgent := N_UserAgent en;
     N_AuditID := N_AuditID en; N_StatusCode := N_StatusCode en; N_Allowed := N_Allowed en; At := At en;
     N_User := N_User en; N_Groups := N_Groups en; N_ImpersonatedUser := N_ImpersonatedUser en;
     N_ImpersonatedGroups := N_ImpersonatedGroups en; N_Attribution := N_Attribution en; N_Event := Some ev;
     Materialized := Materialized en |}.

(** A record of [IngestLog] that names no admission request; [ev] has its
    id from [apiLogEventID]. *)
Definition ingest_own (db : DB) (ev : Event) (now : Time) : DB :=
  let key := apilog_key (E_ID ev) in
  let st := state_of db key in
  let done_ := {| IsAdmitted := true; Enriched := Enriched st; Pending := Pending st |} in
  if IsAdmitted st then db
  else
    let watched := IsAllowed ev && negb (E_Unchanged ev) && AuditInformerResource (E_Resource ev) in
    let merged := if watched then
        match informerTwin ev (objectTwins db ev) with
        | Some m => let '(db', ok) := enrich db (admission_key (uid m))
                                        (with_attribution (enrichment (uid m) ev true) (attribution m)) now in
                    if ok then Some db' else None
        | None => None
        end else None in
    match merged with
    | Some db' => put_state db' key done_
    | None => put_state (persist db OriginAPILog key ev now) key done_
    end.

(** A record of [IngestLog] for the admission request [u]. *)
Definition ingest_log (db : DB) (u : string) (ev : Event) (now : Time) : DB :=
  let key := admission_key u in
  let st := state_of db key in
  let en := enrichment u ev (E_ImpersonatedUser ev != "") in
  if Enriched st || match Pending st with Some p => Materialized p | None => false end then db
  else
    let '(adm, enr) := if IsAdmitted st then (true, false) else ExistingAuditEvent db u (E_Timestamp ev) now in
    if enr then put_state db key {| IsAdmitted := adm; Enriched := true; Pending := Pending st |}
    else if negb adm then
      put_state db key {| IsAdmitted := false; Enriched := false; Pending := Some (with_event en ev) |}
    else
      let '(db, ok) := enrich db key en now in
      put_state db key {| IsAdmitted := true; Enriched := ok; Pending := if ok then None else Some en |}.

(** An event with a new id, time, source, verdict and audit id. *)
Definition restamp (id : string) (ts : Time) (source : string) (allowed : option bool) (status : Z) (audit : string)
  (e : Event) : Event :=
  {| E_ID := id; E_Timestamp := ts; E_User := E_User e;
     E_ImpersonatedUser := E_ImpersonatedUser e; E_ImpersonatedGroups := E_ImpersonatedGroups e;
     E_ServiceAccount := E_ServiceAccount e; E_Groups := E_Groups e; E_SourceIPs := E_SourceIPs e;
     E_ClientIP := E_ClientIP e; E_UserAgent := E_UserAgent e; E_Kind := E_Kind e; E_Resource := E_Resource e;
     E_WebhookType := E_WebhookType e; E_Namespace := E_Namespace e; E_Name := E_Name e; E_UID := E_UID e;
     E_ResourceVersion := E_ResourceVersion e; E_PrevResourceVersion := E_PrevResourceVersion e;
     E_Unchanged := E_Unchanged e; E_DryRun := E_DryRun e; E_CompletedAt := E_CompletedAt e;
     E_Source := source; E_Attribution := E_Attribution e; E_Container := E_Container e;
     E_Commands := E_Commands e; E_Ports := E_Ports e; E_Allowed := allowed; E_StatusCode := status;
     E_AuditID := audit |}.

(** The logged event as it is stored when no admission came ([prepare] fills in
    a missing time). *)
Definition logged_event (u auditID : string) (now : Time) (e : Event) : Event :=
  restamp u (if IsZero (E_Timestamp e) then now else E_Timestamp e) SourceAPILog (E_Allowed e) (E_StatusCode e)
    (if E_AuditID e == "" then auditID else E_AuditID e) e.

(** [materialize] of a key whose admission did not come in time. *)
Definition materialize (db : DB) (key : string) (now : Time) : DB :=
  let st := state_of db key in
  match IsAdmitted st, Pending st with
  | false, Some p =>
      match N_Event p with
      | None => db
      | Some logged =>
          let en := without_event p in
          let '(adm, enr) := ExistingAuditEvent db (EventUID en) (E_Timestamp logged) now in
          if adm then
            if enr then put_state db key {| IsAdmitted := true; Enriched := true; Pending := None |}
            else
              let '(db, ok) := enrich db key en now in
              put_state db key {| IsAdmitted := true; Enriched := ok; Pending := if ok then None else Some en |}
          else
            let ev := logged_event (EventUID en) (N_AuditID en) now logged in
            put_state (persist db OriginAPILog key ev now) key
              {| IsAdmitted := true; Enriched := Enriched st;
                 Pending := Some {| EventUID := EventUID en; N_SourceIPs := []; N_ClientIP := ""; N_UserAgent := "";
                                    N_AuditID := ""; N_StatusCode := 0; N_Allowed := false; At := E_Timestamp ev;
                                    N_User := ""; N_Groups := []; N_ImpersonatedUser := ""; N_ImpersonatedGroups := [];
                                    N_Attribution := ""; N_Event := None; Materialized := true |} |}
      end
  | _, _ => db
  end.

(** [dropPendingEvent], after the database rejected the stored event. *)
Definition dropPendingEvent (db : DB) (key : string) : DB :=
  let st := state_of db key in
  match Pending st with
  | Some p => match N_Event p with
              | Some _ => put_state db key {| IsAdmitted := IsAdmitted st; Enriched := Enriched st;
                                              Pending := Some (without_event p) |}
              | None => db
              end
  | None => db
  end.

(** ** What comes in

    Decoding, digests and the encoding of an identity are arguments; the engine
    keeps the time it was started and the trusted proxies of the cluster. *)

(** A NUL byte becomes U+FFFD. *)
Definition clean (s : string) : string := ReplaceByte s "000"%char (encode_rune RuneError).
Definition cleanAll (l : list string) : list string := map clean l.

(** [sanitize], and the client address the engine computes itself. *)
Definition sanitize (trusted : list IPNet) (e : Event) : Event :=
  {| E_ID := clean (E_ID e); E_Timestamp := E_Timestamp e; E_User := clean (E_User e);
     E_ImpersonatedUser := clean (E_ImpersonatedUser e); E_ImpersonatedGroups := cleanAll (E_ImpersonatedGroups e);
     E_ServiceAccount := clean (E_ServiceAccount e); E_Groups := cleanAll (E_Groups e);
     E_SourceIPs := cleanAll (E_SourceIPs e); E_ClientIP := ClientIP (cleanAll (E_SourceIPs e)) trusted;
     E_UserAgent := clean (E_UserAgent e); E_Kind := clean (E_Kind e); E_Resource := clean (E_Resource e);
     E_WebhookType := clean (E_WebhookType e); E_Namespace := clean (E_Namespace e); E_Name := clean (E_Name e);
     E_UID := clean (E_UID e); E_ResourceVersion := clean (E_ResourceVersion e);
     E_PrevResourceVersion := clean (E_PrevResourceVersion e); E_Unchanged := E_Unchanged e; E_DryRun := E_DryRun e;
     E_CompletedAt := E_CompletedAt e; E_Source := clean (E_Source e); E_Attribution := E_Attribution e;
     E_Container := clean (E_Container e); E_Commands := cleanAll (E_Commands e); E_Ports := E_Ports e;
     E_Allowed := E_Allowed e; E_StatusCode := E_StatusCode e; E_AuditID := clean (E_AuditID e) |}.

(** [prepare]: an id and a time for an event without. *)
Definition prepare (sha : string → string) (raw : string) (now : Time) (e : Event) : Event :=
  restamp (if E_ID e == "" then "sha256:" +:+ sha raw else E_ID e)
          (if IsZero (E_Timestamp e) then now else E_Timestamp e)
          (E_Source e) (E_Allowed e) (E_StatusCode e) (E_AuditID e) e.

(** An item of [IngestEvents]: what the webhook claims about the outcome is
    dropped, and so is an event that is too old. *)
Definition admission_item (UnmarshalEvent : string → option Event) (sha : string → string) (trusted : list IPNet)
  (raw : string) (now : Time) : option Event :=
  match UnmarshalEvent raw with
  | None => None
  | Some ev =>
      let ev := sanitize trusted ev in
      let ev := prepare sha raw now (restamp (E_ID ev) (E_Timestamp ev) (E_Source ev) None 0 (E_AuditID ev) ev) in
      if Before (E_Timestamp ev) (TAdd now (- retention)%Z) then None else Some ev
  end.

Record LogRecord := { L_EventUID : string; L_Event : Event }.

(** What [apiLogEventID] takes the digest of. *)
Record Identity := {
  I_AuditID : string; I_Received : Time; I_User : string; I_ImpersonatedUser : string; I_UserAgent : string;
  I_Kind : string; I_Resource : string; I_Namespace : string; I_Name : string; I_Container : string;
  I_Groups : list string; I_ImpersonatedGroups : list string; I_SourceIPs : list string; I_Commands : list string;
  I_Ports : list Z; I_DryRun : bool;
}.

Definition identity (e : Event) : Identity :=
  {| I_AuditID := E_AuditID e; I_Received := E_Timestamp e; I_User := E_User e;
     I_ImpersonatedUser := E_ImpersonatedUser e; I_UserAgent := E_UserAgent e; I_Kind := E_Kind e;
     I_Resource := E_Resource e; I_Namespace := E_Namespace e; I_Name := E_Name e; I_Container := E_Container e;
     I_Groups := E_Groups e; I_ImpersonatedGroups := E_ImpersonatedGroups e; I_SourceIPs := E_SourceIPs e;
     I_Commands := E_Commands e; I_Ports := E_Ports e; I_DryRun := E_DryRun e |}.

Definition apiLogEventID (sha : string → string) (MarshalIdentity : Identity → string) (e : Event) : string :=
  "apilog-sha256:" +:+ sha (MarshalIdentity (identity e)).

(** An item of [IngestLog]: about an admission request, or the log's own, then
    with the key an older version used for it, if it is older than the engine. *)
Inductive log_item := LogOf (u : string) (ev : Event) | LogOwn (ev : Event) (legacy : option string).

Definition log_item_of (sha : string → string) (MarshalIdentity : Identity → string) (MarshalEvent : Event → string)
  (trusted : list IPNet) (started : Time) (rec : LogRecord) (now : Time) : option log_item :=
  let ev := L_Event rec in
  if negb (IsZero (E_Timestamp ev)) && Before (E_Timestamp ev) (TAdd now (- retention)%Z) then None
  else
    let ev := sanitize trusted ev in
    let u := clean (L_EventUID rec) in
    if u != "" then Some (LogOf u ev)
    else
      let audit := if E_AuditID ev == "" then E_ID ev else E_AuditID ev in
      let ev := restamp (E_ID ev) (E_Timestamp ev) SourceAPILog (E_Allowed ev) (E_StatusCode ev) audit ev in
      let legacy := if (audit != "") && Before (E_Timestamp ev) started then Some (apilog_key audit) else None in
      let ev := restamp (apiLogEventID sha MarshalIdentity ev) (E_Timestamp ev) (E_Source ev) (E_Allowed ev)
                  (E_StatusCode ev) (E_AuditID ev) ev in
      Some (LogOwn (prepare sha (MarshalEvent ev) now ev) legacy).

(** [AuditProgress], read before the transactions of a batch. *)
Record AuditProgress := { P_Admitted : bool; P_Enriched : bool; P_Pending : bool }.
Definition progress (seen : DB) (key : string) : AuditProgress :=
  let st := state_of seen key in
  {| P_Admitted := IsAdmitted st; P_Enriched := Enriched st;
     P_Pending := match Pending st with Some _ => true | None => false end |}.

(** One item of a batch, when [seen] is the database the batch started with. *)
Definition ingest_event (seen db : DB) (ev : Event) (now : Time) : DB :=
  let done_ := progress seen (admission_key (E_ID ev)) in
  if P_Admitted done_ && (P_Enriched done_ || negb (P_Pending done_)) then db else admit_event db ev now.

Definition ingest_record (seen db : DB) (it : log_item) (now : Time) : DB :=
  match it with
  | LogOwn ev legacy =>
      if match legacy with Some k => P_Admitted (progress seen k) | None => false end then db
      else if P_Admitted (progress seen (apilog_key (E_ID ev))) then db
      else ingest_own db ev now
  | LogOf u ev =>
      let done_ := progress seen (admission_key u) in
      if P_Enriched done_ || (P_Pending done_ && negb (P_Admitted done_)) then db else ingest_log db u ev now
  end.

(** How the transaction of an item ends: it commits, the database rejects the
    data, or it fails; the last ends the batch, which is then sent again. *)
Inductive outcome := Committed | Rejected | Failed.

Fixpoint batch {A} (step : DB → A → DB) (db : DB) (items : list (A * outcome)) : DB * bool :=
  match items with
  | [] => (db, true)
  | (it, Committed) :: items' => batch step (step db it) items'
  | (_, Rejected) :: items' => batch step db items'
  | (_, Failed) :: _ => (db, false)
  end.

(** The items that are left of a batch, each with how its transaction ends. *)
Definition kept {A B} (item : A → option B) (l : list (A * outcome)) : list (B * outcome) :=
  omap (λ x, (λ b, (b, x.2)) <$> item x.1) l.

Definition IngestEvents (item : string → option Event) (db : DB) (raws : list (string * outcome)) (now : Time) : DB * bool :=
  batch (λ d ev, ingest_event db d ev now) db (kept item raws).
Definition IngestLog (item : LogRecord → option log_item) (db : DB) (recs : list (LogRecord * outcome)) (now : Time)
  : DB * bool :=
  batch (λ d it, ingest_record db d it now) db (kept item recs).

End Engine.
