(* ===== verification/AuditEngineProps.v ===== *)
(** * One request, one audit event

    Whatever the order of the two sources, repeats, failures and late arrivals:
    a request is stored once, acted on once per rule, and ends up with what both
    sources know. *)

From Stdlib Require Import Ascii.
From stdpp Require Import base list gmap strings sorting.
From S2P Require Import Prelude GoStrings GoNet AuditRules AuditEngine.
Local Open Scope string_scope.
Local Open Scope list_scope.
Local Open Scope go_scope.

Section Props.
  Context {T : CaseTables} (matcher : Matcher) (cluster : string) (retention : Duration).
  Local Abbreviation persist_ := (persist matcher cluster retention).
  Local Abbreviation enrich_ := (enrich matcher cluster).
  Local Abbreviation merge_ := (mergeAdmission matcher cluster).
  Local Abbreviation react_ := (react matcher cluster).
  Local Abbreviation admit_ := (admit_event matcher cluster retention).
  Local Abbreviation own_ := (ingest_own matcher cluster retention).
  Local Abbreviation log_ := (ingest_log matcher cluster).
  Local Abbreviation materialize_ := (materialize matcher cluster retention).

(** The items of the two sources and the sweeps, one transaction each. An item
    is checked against the database of an earlier moment first, the one its
    batch started with: [snap] counts back from now. Batches may interleave; a
    transaction that fails or is rejected changes nothing and is not listed. *)
Inductive txn := TEvent (snap : nat) (ev : Event) (now : Time) | TRecord (snap : nat) (it : log_item) (now : Time)
| TMaterialize (key : string) (now : Time) | TDrop (key : string).

(** The database now and its past, newest first. *)
Definition past (s : DB * list DB) (snap : nat) : DB := default s.1 ((s.1 :: s.2) !! snap).

Definition commit (s : DB * list DB) (t : txn) : DB :=
  match t with
  | TEvent snap ev now => ingest_event matcher cluster retention (past s snap) s.1 ev now
  | TRecord snap it now => ingest_record matcher cluster retention (past s snap) s.1 it now
  | TMaterialize key now => materialize_ s.1 key now
  | TDrop key => dropPendingEvent s.1 key
  end.

Definition step (s : DB * list DB) (t : txn) : DB * list DB := (commit s t, s.1 :: s.2).
Definition run (ts : list txn) : DB * list DB := foldl step (empty_db, []) ts.
Definition history (ts : list txn) : DB := (run ts).1.

(** What holds of the empty database and is kept by every transaction. *)
Lemma history_ind (P : DB → Prop) :
  P empty_db → (∀ s t, P s.1 → P (commit s t)) → ∀ ts, P (history ts).
Proof.
  intros H0 Hs ts. unfold history, run. change empty_db with (empty_db, @nil DB).1 in H0.
  revert H0. generalize (empty_db, @nil DB). induction ts as [|t ts IH]; intros s H; simpl; [done|]. apply IH. simpl. auto.
Qed.

(** An item does nothing or runs its transaction. *)
Lemma commit_ind (P : DB → Prop) s t :
  P s.1 → (∀ ev now, P (admit_ s.1 ev now)) → (∀ ev now, P (own_ s.1 ev now)) → (∀ u ev now, P (log_ s.1 u ev now)) →
  (∀ key now, P (materialize_ s.1 key now)) → (∀ key, P (dropPendingEvent s.1 key)) → P (commit s t).
Proof.
  intros H0 Ha Ho Hl Hm Hd. destruct t as [snap ev now|snap [u ev|ev legacy] now|key now|key]; simpl; auto.
  - unfold ingest_event. by destruct (_ && _).
  - unfold ingest_record. by destruct (_ || _).
  - unfold ingest_record. repeat match goal with |- P (if ?b then _ else _) => destruct b end; auto.
Qed.

(** Whole batches are such runs: their items commit one after the other and look
    back at the database the batch started with. *)
Lemma past_step s t i : (i ≤ length s.2)%nat → past (step s t) (S i) = past s i.
Proof.
  intros Hi. unfold past, step. cbn [fst snd]. rewrite lookup_cons_ne_0 by done. cbn [pred].
  destruct (lookup_lt_is_Some_2 (s.1 :: s.2) i) as [d ->]; [simpl; lia|done].
Qed.

Lemma batch_run {A} (f : DB → DB → A → DB) (mk : nat → A → txn) :
  (∀ s i x, commit s (mk i x) = f (past s i) s.1 x) →
  ∀ items s i, (i ≤ length s.2)%nat →
  ∃ ts, (batch (f (past s i)) s.1 items).1 = (foldl step s ts).1.
Proof.
  intros Hmk items. induction items as [|[x []] items IH]; intros s i Hi; simpl.
  - by exists [].
  - destruct (IH (step s (mk i x)) (S i)) as [ts Hts]; [simpl; lia|]. exists (mk i x :: ts). simpl.
    by rewrite past_step, <- Hts in * by done; unfold step; cbn [fst snd]; rewrite Hmk.
  - apply IH. done.
  - by exists [].
Qed.

Lemma IngestEvents_run item ts raws now :
  ∃ ts', (IngestEvents matcher cluster retention item (history ts) raws now).1 = history (ts ++ ts').
Proof.
  destruct (batch_run (λ seen d ev, ingest_event matcher cluster retention seen d ev now) (λ i ev, TEvent i ev now)
              (λ s i x, eq_refl) (kept item raws) (run ts) 0 (Nat.le_0_l _)) as [ts' H].
  exists ts'. unfold history at 2, run. by rewrite foldl_app.
Qed.

Lemma IngestLog_run item ts recs now :
  ∃ ts', (IngestLog matcher cluster retention item (history ts) recs now).1 = history (ts ++ ts').
Proof.
  destruct (batch_run (λ seen d it, ingest_record matcher cluster retention seen d it now) (λ i it, TRecord i it now)
              (λ s i x, eq_refl) (kept item recs) (run ts) 0 (Nat.le_0_l _)) as [ts' H].
  exists ts'. unfold history at 2, run. by rewrite foldl_app.
Qed.

(** ** What acting leaves alone *)

(** [acted db db']: [db'] differs in claims, violations, alerts and thresholds only. *)
Definition acted (db db' : DB) : Prop := states db' = states db ∧ rows db' = rows db.

Lemma act_rule_acted key ev now db r : acted db (act_rule key ev now db r).
Proof.
  unfold act_rule. case_if; [done|]. case_if; [|done]. unfold AuditThreshold. by case_if.
Qed.

Lemma act_acted db key ev hits now : acted db (act db key ev hits now).
Proof.
  unfold act. set (l := merge_sort _ hits). revert db. induction l as [|r l IH]; intros db; simpl; [done|].
  destruct (IH (act_rule key ev now db r)) as [E1 E2]. destruct (act_rule_acted key ev now db r) as [E3 E4].
  split; congruence.
Qed.

(** ** Rows of one uid *)

Definition ruid (r : Row) : string := E_ID (row_event r).
Definition of_uid (u : string) (rs : list Row) : list Row := List.filter (λ r, ruid r == u) rs.

Lemma of_uid_update u rs p f :
  (∀ r, ruid (f r) = ruid r) →
  of_uid u (update_rows rs p f).1 = map (λ r, if p r then f r else r) (of_uid u rs).
Proof.
  intros Hf. unfold update_rows, of_uid. simpl. induction rs as [|r rs IH]; simpl; [done|].
  assert (ruid (if p r then f r else r) = ruid r) as -> by (by destruct (p r)).
  destruct (ruid r == u); simpl; by rewrite IH.
Qed.

Lemma update_find u rs p f :
  (∀ r, p r = true → ruid r = u) → (update_rows rs p f).2 = f <$> List.find p (of_uid u rs).
Proof.
  intros Hp. unfold update_rows, of_uid. simpl. f_equal. induction rs as [|r rs IH]; simpl; [done|].
  destruct (p r) eqn:E.
  - rewrite (Hp r E), String.eqb_refl. simpl. by rewrite E.
  - destruct (ruid r == u); simpl; [by rewrite E|done].
Qed.

(** Rows of other uids stay. *)
Lemma of_uid_other u rs p f :
  (∀ r, ruid (f r) = ruid r) → (∀ r, p r = true → ruid r ≠ u) → of_uid u (update_rows rs p f).1 = of_uid u rs.
Proof.
  intros Hf Hp. rewrite of_uid_update by done. rewrite <- (map_id (of_uid u rs)) at 2. apply map_ext_in.
  intros r Hr. unfold of_uid in Hr. apply filter_In in Hr as [_ Hr%String.eqb_eq].
  destruct (p r) eqn:E; [|done]. by apply Hp in E.
Qed.

Lemma row_of_uid u slack t r : row_of u slack t r = true → ruid r = u.
Proof. unfold row_of. intros [H%String.eqb_eq _]%andb_prop. done. Qed.

(** One row of [u] that the update hits. *)
Lemma of_uid_hit u rs p f r :
  (∀ r, ruid (f r) = ruid r) → (∀ r, p r = true → ruid r = u) → of_uid u rs = [r] → p r = true →
  of_uid u (update_rows rs p f).1 = [f r] ∧ (update_rows rs p f).2 = Some (f r).
Proof.
  intros Hf Hp Hrs Hr. rewrite of_uid_update, (update_find u) by done. rewrite Hrs. simpl. by rewrite Hr.
Qed.

(** ** The number of rows *)

Definition uids (db : DB) : list string := map ruid (rows db).

Lemma update_uids rs p f : (∀ r, ruid (f r) = ruid r) → map ruid (update_rows rs p f).1 = map ruid rs.
Proof. intros Hf. unfold update_rows. simpl. rewrite map_map. apply map_ext. intros r. by destruct (p r). Qed.

Lemma updated_uids rs p f rs' row :
  update_rows rs p f = (rs', row) → (∀ r, ruid (f r) = ruid r) → map ruid rs' = map ruid rs.
Proof. intros Hu Hf. rewrite <- (update_uids rs p f Hf). by rewrite Hu. Qed.

Lemma mark_spec db row r s : states (MarkAuditEventRule db row r s) = states db ∧ uids (MarkAuditEventRule db row r s) = uids db.
Proof. split; [done|]. unfold uids, MarkAuditEventRule. cbn [rows set_rows]. by apply update_uids. Qed.

Lemma react_spec db key row now : states (react_ db key row now) = states db ∧ uids (react_ db key row now) = uids db.
Proof.
  unfold react. set (db1 := match topRule _ with Some _ => _ | None => _ end).
  assert (states db1 = states db ∧ uids db1 = uids db) as [H1 H2].
  { unfold db1. destruct (topRule _); [|done]. case_if; [apply mark_spec|done]. }
  destruct (act_acted db1 key (row_event row) (hits_of matcher cluster (row_event row)) now) as [E1 E2].
  unfold uids in *. by rewrite E1, E2.
Qed.

Lemma enrich_spec db key en now : states (enrich_ db key en now).1 = states db ∧ uids (enrich_ db key en now).1 = uids db.
Proof.
  unfold enrich, EnrichAuditEvent. destruct (update_rows _ _ _) as [rs row] eqn:Hu.
  assert (map ruid rs = uids db) as Hrs by (by eapply updated_uids).
  destruct row as [row|]; simpl; [|done].
  destruct (react_spec (set_rows db rs) key row now) as [-> ->]. done.
Qed.

Lemma merge_spec db key ev at_ now : states (merge_ db key ev at_ now) = states db ∧ uids (merge_ db key ev at_ now) = uids db.
Proof.
  unfold mergeAdmission, MergeAdmissionDetails. destruct (update_rows _ _ _) as [rs row] eqn:Hu.
  assert (map ruid rs = uids db) as Hrs by (by eapply updated_uids).
  destruct row as [row|]; simpl; [|done].
  destruct (react_spec (set_rows db rs) key row now) as [-> ->]. done.
Qed.

Lemma meta_spec db m ev a : states (MergeAuditObjectMeta db m ev a) = states db ∧ uids (MergeAuditObjectMeta db m ev a) = uids db.
Proof. split; [done|]. unfold uids, MergeAuditObjectMeta. cbn [rows set_rows]. by apply update_uids. Qed.

Lemma persist_uids db o key ev now :
  states (persist_ db o key ev now) = states db
  ∧ (uids (persist_ db o key ev now) = uids db ∨ uids (persist_ db o key ev now) = uids db ++ [E_ID ev]).
Proof.
  unfold persist. destruct (match topRule _ with Some _ => _ | None => _ end) as [rid sev].
  set (db1 := InsertAuditEvent _ _ _ _ _ _ _).
  destruct (act_acted db1 key ev (hits_of matcher cluster ev) now) as [-> E2].
  unfold uids. rewrite E2. unfold db1, InsertAuditEvent.
  destruct (partitionedTS _ _ _); [|split; [done|by left]]. split; [done|]. right. simpl.
  unfold snoc. by rewrite map_app.
Qed.

Lemma pending_spec db key st ev now :
  states (admission_pending matcher cluster db key st ev now).1 = states db
  ∧ uids (admission_pending matcher cluster db key st ev now).1 = uids db
  ∧ IsAdmitted (admission_pending matcher cluster db key st ev now).2 = IsAdmitted st
  ∧ (Pending (admission_pending matcher cluster db key st ev now).2 = None
     ∨ Pending (admission_pending matcher cluster db key st ev now).2 = Pending st).
Proof.
  unfold admission_pending. destruct (Pending st) as [p|] eqn:Hp; [|by auto].
  destruct (Materialized p); [|destruct (Enriched st); [by auto|]].
  - destruct (merge_spec db key ev (At p) now) as [E1 E2]. auto.
  - destruct (enrich_spec db key (set_pending p (E_Timestamp ev)) now) as [E1 E2].
    destruct (enrich_ _ _ _ _) as [db' ok]. simpl in *. destruct ok; auto.
Qed.

(** ** At most one row per source of ids *)

Definition count (u : string) (db : DB) : nat := length (List.filter (λ x, x == u) (uids db)).
Definition b2n (b : bool) : nat := if b then 1 else 0.

Lemma count_rows u db : count u db = length (of_uid u (rows db)).
Proof.
  unfold count, uids, of_uid. induction (rows db) as [|r rs IH]; simpl; [done|].
  destruct (ruid r == u); simpl; by rewrite IH.
Qed.

Record einv (db : DB) : Prop := {
  e_key : ∀ k p, Pending (state_of db k) = Some p → k = admission_key (EventUID p);
  e_count : ∀ u, (count u db ≤ b2n (IsAdmitted (state_of db (admission_key u)))
                             + b2n (IsAdmitted (state_of db (apilog_key u))))%nat;
}.

Lemma state_put db k st k' : state_of (put_state db k st) k' = if bool_decide (k = k') then st else state_of db k'.
Proof.
  unfold state_of, put_state. simpl. case_bool_decide; [subst; by rewrite lookup_insert_eq|by rewrite lookup_insert_ne].
Qed.

Lemma admission_key_inj u v : admission_key u = admission_key v → u = v.
Proof. unfold admission_key. apply app_inj_l. Qed.
Lemma apilog_key_inj u v : apilog_key u = apilog_key v → u = v.
Proof. unfold apilog_key. apply app_inj_l. Qed.
Lemma keys_differ u v : admission_key u ≠ apilog_key v.
Proof. done. Qed.

Lemma b2n_le (a b : bool) : (a = true → b = true) → (b2n a ≤ b2n b)%nat.
Proof. destruct a, b; simpl; lia || (intros H; by specialize (H eq_refl)). Qed.

(** A transaction that keeps the rows, or adds one for the key it admits. *)
Lemma put_einv db db' k st :
  einv db → states db' = states db →
  (∀ p, Pending st = Some p → k = admission_key (EventUID p)) →
  (IsAdmitted (state_of db k) = true → IsAdmitted st = true) →
  (uids db' = uids db ∨
   ∃ u, uids db' = uids db ++ [u] ∧ (k = admission_key u ∨ k = apilog_key u)
        ∧ IsAdmitted (state_of db k) = false ∧ IsAdmitted st = true) →
  einv (put_state db' k st).
Proof.
  intros [Hk Hc] Hs Hp Hm Hu.
  assert (∀ k', state_of (put_state db' k st) k' = if bool_decide (k = k') then st else state_of db k') as Hst.
  { intros k'. rewrite state_put. unfold state_of. by rewrite Hs. }
  assert (∀ k', (b2n (IsAdmitted (state_of db k')) ≤ b2n (IsAdmitted (state_of (put_state db' k st) k')))%nat) as Hmono.
  { intros k'. rewrite Hst. apply b2n_le. case_bool_decide; [by subst|done]. }
  constructor.
  - intros k' p. rewrite Hst. case_bool_decide; [subst; apply Hp|apply Hk].
  - intros v. specialize (Hc v). pose proof (Hmono (admission_key v)). pose proof (Hmono (apilog_key v)).
    change (count v (put_state db' k st)) with (count v db'). unfold count in *.
    destruct Hu as [->|(u & -> & Hku & Hf & Ht)]; [lia|].
    rewrite List.filter_app, length_app. simpl. destruct (String.eqb_spec u v) as [<-|]; simpl; [|lia].
    assert (IsAdmitted (state_of (put_state db' k st) k) = true) as Hnew by (rewrite Hst, bool_decide_true; done).
    destruct Hku as [-> | ->]; rewrite Hnew; rewrite Hf in Hc; simpl in *; lia.
Qed.

Lemma admit_einv db ev now : einv db → einv (admit_ db ev now).
Proof.
  intros Hi. unfold admit_event. set (key := admission_key (E_ID ev)). set (st := state_of db key).
  assert (∀ db1 st1, states db1 = states db →
            (IsAdmitted st = true → IsAdmitted st1 = true) → Pending st1 = Pending st →
            (uids db1 = uids db ∨ (uids db1 = uids db ++ [E_ID ev] ∧ IsAdmitted st = false ∧ IsAdmitted st1 = true)) →
            einv (let '(db, st) := admission_pending matcher cluster db1 key st1 ev now in put_state db key st)) as Hcont.
  { intros db1 st1 Hs1 Hm Hp Hu. destruct (pending_spec db1 key st1 ev now) as (E1 & E2 & E3 & E4).
    destruct (admission_pending _ _ _ _ _ _ _) as [db2 st2]. simpl in *.
    apply (put_einv db); [done|congruence| | |].
    - intros p Hp2. destruct E4 as [E4|E4]; [congruence|]. apply (e_key _ Hi). fold st. congruence.
    - fold st. intros Ha. rewrite E3. auto.
    - rewrite E2. destruct Hu as [->|(-> & Hf & Ht)]; [by left|]. right. exists (E_ID ev).
      split_and!; [done|by left|done|congruence]. }
  destruct (IsAdmitted st) eqn:Ha; [apply Hcont; auto|].
  destruct (ExistingAuditEvent db (E_ID ev) (E_Timestamp ev) now) as [adm enr].
  destruct (if negb adm && _ && _ then _ else None) as [m|].
  - destruct (meta_spec db (uid m) ev (attribution m)) as [E1 E2]. apply (put_einv db); [done|done| | |by left]; simpl.
    + intros p Hp. by apply (e_key _ Hi).
    + fold st. congruence.
  - destruct adm; [apply Hcont; auto|].
    destruct (persist_uids db OriginAdmission key ev now) as [E1 E2]. apply Hcont; [done|done|done|].
    destruct E2 as [E2|E2]; [by left|right; auto].
Qed.

Lemma own_einv db ev now : einv db → einv (own_ db ev now).
Proof.
  intros Hi. unfold ingest_own. set (key := apilog_key (E_ID ev)). set (st := state_of db key).
  destruct (IsAdmitted st) eqn:Ha; [done|]. set (done_ := {| IsAdmitted := true; Enriched := Enriched st; Pending := Pending st |}).
  assert (∀ p, Pending done_ = Some p → key = admission_key (EventUID p)) as Hp by (intros p; apply (e_key _ Hi)).
  assert (einv (put_state (persist_ db OriginAPILog key ev now) key done_)) as Hper.
  { destruct (persist_uids db OriginAPILog key ev now) as [E1 E2]. apply (put_einv db); try done.
    destruct E2 as [E2|E2]; [by left|right]. exists (E_ID ev). split_and!; [done|by right|done|done]. }
  destruct (IsAllowed ev && _ && _); [|done]. destruct (informerTwin _ _) as [m|]; [|done].
  set (en := with_attribution _ _). destruct (enrich_spec db (admission_key (uid m)) en now) as [E1 E2].
  destruct (enrich_ db (admission_key (uid m)) en now) as [db' ok]. simpl in *. destruct ok; [|done].
  apply (put_einv db); try done. by left.
Qed.

Lemma log_einv db u ev now : einv db → einv (log_ db u ev now).
Proof.
  intros Hi. unfold ingest_log. set (key := admission_key u). set (st := state_of db key).
  set (en := enrichment u ev _). case_if; [done|].
  assert (∀ adm enr, (if IsAdmitted st then (true, false) else ExistingAuditEvent db u (E_Timestamp ev) now) = (adm, enr) →
            IsAdmitted st = true → adm = true) as Hadm by (intros adm enr He Hx; rewrite Hx in He; congruence).
  destruct (if IsAdmitted st then (true, false) else _) as [adm enr] eqn:He. specialize (Hadm adm enr eq_refl).
  destruct enr; [|destruct adm; simpl].
  - apply (put_einv db); [done|done| |done|by left]. intros p. apply (e_key _ Hi).
  - destruct (enrich_spec db key en now) as [E1 E2]. destruct (enrich_ db key en now) as [db' ok]. simpl in *.
    apply (put_einv db); [done|done| |done|by left]. simpl. destruct ok; [done|]. by intros p [= <-].
  - apply (put_einv db); [done|done| |done|by left]. simpl. by intros p [= <-].
Qed.

Lemma materialize_einv db key now : einv db → einv (materialize_ db key now).
Proof.
  intros Hi. unfold materialize. set (st := state_of db key). destruct (IsAdmitted st) eqn:Ha; [done|].
  destruct (Pending st) as [p|] eqn:Hp; [|done]. destruct (N_Event p) as [logged|]; [|done].
  pose proof (e_key _ Hi key p Hp) as Hkey. set (en := without_event p).
  destruct (ExistingAuditEvent _ _ _ _) as [adm enr]. destruct adm; [destruct enr|].
  - apply (put_einv db); try done. by left.
  - destruct (enrich_spec db key en now) as [E1 E2]. destruct (enrich_ db key en now) as [db' ok]. simpl in *.
    apply (put_einv db); [done|done| |done|by left]. simpl. destruct ok; [done|]. by intros q [= <-].
  - set (ev := logged_event _ _ _ _). destruct (persist_uids db OriginAPILog key ev now) as [E1 E2].
    apply (put_einv db); [done|done| |done|].
    + simpl. by intros q [= <-].
    + destruct E2 as [E2|E2]; [by left|right]. exists (E_ID ev). split_and!; [done|by left|done|done].
Qed.

Lemma drop_einv db key : einv db → einv (dropPendingEvent db key).
Proof.
  intros Hi. unfold dropPendingEvent. destruct (Pending (state_of db key)) as [p|] eqn:Hp; [|done].
  destruct (N_Event p); [|done]. apply (put_einv db); [done|done| |done|by left]. simpl.
  intros q [= <-]. exact (e_key _ Hi key p Hp).
Qed.

Lemma history_einv ts : einv (history ts).
Proof.
  apply history_ind.
  - constructor; [|intros u; apply Nat.le_0_l]. intros k p. unfold state_of. simpl. by rewrite lookup_empty.
  - intros s t H. apply commit_ind; eauto using admit_einv, own_einv, log_einv, materialize_einv, drop_einv.
Qed.

(** ** Each rule acts once per event *)

Definition akey (a : Action) : string * string := (a_key a, R_ID (a_rule a)).
Definition claimed_once (c : gset (string * string)) (l : list Action) : Prop :=
  NoDup (map akey l) ∧ ∀ a, a ∈ l → akey a ∈ c.
Definition cinv (db : DB) : Prop := claimed_once (claims db) (violations db) ∧ claimed_once (claims db) (alerts db).

Lemma claimed_snoc c l a : akey a ∉ c → claimed_once c l → claimed_once ({[akey a]} ∪ c) (snoc l a).
Proof.
  intros Hn [Hd Hl]. unfold snoc. split.
  - rewrite map_app. simpl. apply NoDup_app. split_and!; [done| |apply NoDup_singleton].
    intros x Hx ->%list_elem_of_singleton. apply list_elem_of_fmap in Hx as (b & Hb & Hin). apply Hn. rewrite Hb. auto.
  - intros b [Hb|Hb]%elem_of_app; [apply elem_of_union_r; auto|]. apply list_elem_of_singleton in Hb as ->. set_solver.
Qed.

Lemma claimed_more c l x : claimed_once c l → claimed_once ({[x]} ∪ c) l.
Proof. intros [Hd Hl]. split; [done|]. intros a Ha. apply elem_of_union_r. auto. Qed.

Lemma act_rule_cinv key ev now db r : cinv db → cinv (act_rule key ev now db r).
Proof.
  intros [Hv Ha]. unfold act_rule. case_bool_decide as Hc; [done|].
  set (a := {| a_key := key; a_rule := r; a_event := ev |}). change (key, R_ID r) with (akey a) in *.
  assert (claimed_once ({[akey a]} ∪ claims db) (if R_Enabled r then snoc (violations db) a else violations db)) as Hv'.
  { destruct (R_Enabled r); [by apply claimed_snoc|by apply claimed_more]. }
  assert (claimed_once ({[akey a]} ∪ claims db) (alerts db)) as Ha' by by apply claimed_more.
  destruct (R_Alert r); [|done]. unfold AuditThreshold.
  destruct (negb _); simpl; [split; [done|by apply claimed_snoc]|].
  destruct (_ <=? _)%Z; simpl; (split; [done|]); [by apply claimed_snoc|done].
Qed.

Lemma act_cinv db key ev hits now : cinv db → cinv (act db key ev hits now).
Proof.
  unfold act. set (l := merge_sort _ hits). revert db. induction l as [|r l IH]; intros db Hdb; simpl; [done|].
  by apply IH, act_rule_cinv.
Qed.

Lemma rows_cinv db rs : cinv db → cinv (set_rows db rs).
Proof. done. Qed.

Lemma react_cinv db key row now : cinv db → cinv (react_ db key row now).
Proof. intros H. unfold react. apply act_cinv. destruct (topRule _); [|done]. by case_if. Qed.

Lemma enrich_cinv db key en now : cinv db → cinv (enrich_ db key en now).1.
Proof.
  intros H. unfold enrich, EnrichAuditEvent. destruct (update_rows _ _ _) as [rs [row|]]; simpl; [|done].
  by apply react_cinv.
Qed.

Lemma merge_cinv db key ev at_ now : cinv db → cinv (merge_ db key ev at_ now).
Proof.
  intros H. unfold mergeAdmission, MergeAdmissionDetails. destruct (update_rows _ _ _) as [rs [row|]]; simpl; [|done].
  by apply react_cinv.
Qed.

Lemma persist_cinv db o key ev now : cinv db → cinv (persist_ db o key ev now).
Proof.
  intros H. unfold persist. destruct (match topRule _ with Some _ => _ | None => _ end) as [rid sev].
  apply act_cinv. unfold InsertAuditEvent. by destruct (partitionedTS _ _ _).
Qed.

Lemma pending_cinv db key st ev now : cinv db → cinv (admission_pending matcher cluster db key st ev now).1.
Proof.
  intros H. unfold admission_pending. destruct (Pending st) as [p|]; [|done].
  destruct (Materialized p); [by apply merge_cinv|]. destruct (Enriched st); [done|].
  pose proof (enrich_cinv db key (set_pending p (E_Timestamp ev)) now H) as He. by destruct (enrich_ _ _ _ _).
Qed.

Lemma admit_cinv db ev now : cinv db → cinv (admit_ db ev now).
Proof.
  intros H. unfold admit_event. set (key := admission_key _).
  assert (∀ db1 st1, cinv db1 →
    cinv (let '(db, st) := admission_pending matcher cluster db1 key st1 ev now in put_state db key st)) as Hcont.
  { intros db1 st1 H1. pose proof (pending_cinv db1 key st1 ev now H1). by destruct (admission_pending _ _ _ _ _ _ _). }
  destruct (IsAdmitted _); [by apply Hcont|]. destruct (ExistingAuditEvent _ _ _ _) as [adm enr].
  destruct (if negb adm && _ && _ then _ else None); [done|]. destruct adm; [by apply Hcont|].
  by apply Hcont, persist_cinv.
Qed.

Lemma own_cinv db ev now : cinv db → cinv (own_ db ev now).
Proof.
  intros H. unfold ingest_own. destruct (IsAdmitted _); [done|].
  assert (∀ o k e n st, cinv (put_state (persist_ db o k e n) k st)) as Hp by (intros; by apply persist_cinv).
  destruct (_ && _ && _); [|apply Hp]. destruct (informerTwin _ _) as [m|]; [|apply Hp].
  set (en := with_attribution _ _). pose proof (enrich_cinv db (admission_key (uid m)) en now H) as He.
  destruct (enrich_ _ _ _ _) as [db' ok]. destruct ok; [done|apply Hp].
Qed.

Lemma log_cinv db u ev now : cinv db → cinv (log_ db u ev now).
Proof.
  intros H. unfold ingest_log. case_if; [done|]. destruct (if IsAdmitted _ then _ else _) as [adm enr].
  destruct enr; [done|]. destruct adm; simpl; [|done].
  set (en := enrichment _ _ _). pose proof (enrich_cinv db (admission_key u) en now H) as He.
  by destruct (enrich_ _ _ _ _).
Qed.

Lemma materialize_cinv db key now : cinv db → cinv (materialize_ db key now).
Proof.
  intros H. unfold materialize. destruct (IsAdmitted _); [done|]. destruct (Pending _) as [p|]; [|done].
  destruct (N_Event p) as [logged|]; [|done]. destruct (ExistingAuditEvent _ _ _ _) as [adm enr].
  destruct adm; [destruct enr; [done|]|by apply persist_cinv].
  pose proof (enrich_cinv db key (without_event p) now H) as He. by destruct (enrich_ _ _ _ _).
Qed.

Lemma drop_cinv db key : cinv db → cinv (dropPendingEvent db key).
Proof. intros H. unfold dropPendingEvent. destruct (Pending _) as [p|]; [|done]. by destruct (N_Event p). Qed.

Lemma history_cinv ts : cinv (history ts).
Proof.
  apply history_ind.
  - split; (split; [constructor|]); by intros a ?%not_elem_of_nil.
  - intros s t H. apply commit_ind; auto using admit_cinv, own_cinv, log_cinv, materialize_cinv, drop_cinv.
Qed.

(** One row per request and source, one violation and one alert per rule. *)
Lemma history_once ts u :
  (length (List.filter (λ r, E_ID (row_event r) == u) (rows (history ts)))
     ≤ b2n (IsAdmitted (state_of (history ts) (admission_key u))) + b2n (IsAdmitted (state_of (history ts) (apilog_key u))))%nat
  ∧ NoDup (map akey (violations (history ts))) ∧ NoDup (map akey (alerts (history ts))).
Proof.
  destruct (history_einv ts) as [_ Hc], (history_cinv ts) as [[Hv _] [Ha _]]. split_and!; [|done|done].
  specialize (Hc u). by rewrite count_rows in Hc.
Qed.

(** C10: a request is stored and acted on once: after any sequence of items of
    the two sources, of late materialisation and of rejected events, with any
    interleaving of their batches, there is at most one row per admission id and one per log id, and
    for no event does a rule report two violations or two alerts. *)
Theorem audit_exactly_once ts u :
  (length (List.filter (λ r, E_ID (row_event r) == u) (rows (history ts)))
     ≤ b2n (IsAdmitted (state_of (history ts) (admission_key u))) + b2n (IsAdmitted (state_of (history ts) (apilog_key u))))%nat
  ∧ NoDup (map akey (violations (history ts))) ∧ NoDup (map akey (alerts (history ts))).
Proof. apply history_once. Qed.

(** ** The two sources join *)

(** Marking a row changes its rule and severity only. *)
Definition row_sim (r r' : Row) : Prop :=
  row_ts r' = row_ts r ∧ row_origin r' = row_origin r ∧ row_event r' = row_event r.

Lemma row_sim_refl rs : Forall2 row_sim rs rs.
Proof. induction rs; by constructor. Qed.

Lemma of_uid_react u db key row now : Forall2 row_sim (of_uid u (rows db)) (of_uid u (rows (react_ db key row now))).
Proof.
  unfold react. set (db1 := match topRule _ with Some _ => _ | None => _ end).
  destruct (act_acted db1 key (row_event row) (hits_of matcher cluster (row_event row)) now) as [_ ->].
  unfold db1. destruct (topRule _) as [top|]; [|apply row_sim_refl]. case_if; [|apply row_sim_refl].
  unfold MarkAuditEventRule. cbn [rows set_rows]. rewrite of_uid_update by done.
  induction (of_uid u (rows db)) as [|x rs IH]; [constructor|]. simpl. constructor; [by case_if|done].
Qed.

Lemma enrich_frame u db key en now :
  EventUID en ≠ u → Forall2 row_sim (of_uid u (rows db)) (of_uid u (rows (enrich_ db key en now).1)).
Proof.
  intros Hu. unfold enrich, EnrichAuditEvent. destruct (update_rows _ _ _) as [rs row] eqn:Hrs.
  assert (of_uid u rs = of_uid u (rows db)) as Hof.
  { assert (rs = (update_rows (rows db) _ _).1) as -> by (by rewrite Hrs). apply of_uid_other; [done|].
    intros r [Hr%row_of_uid _]%andb_prop. congruence. }
  destruct row as [row|]; simpl; [|rewrite Hof; apply row_sim_refl].
  rewrite <- Hof. apply (of_uid_react u (set_rows db rs)).
Qed.

Lemma merge_frame u db key ev at_ now :
  E_ID ev ≠ u → Forall2 row_sim (of_uid u (rows db)) (of_uid u (rows (merge_ db key ev at_ now))).
Proof.
  intros Hu. unfold mergeAdmission, MergeAdmissionDetails. destruct (update_rows _ _ _) as [rs row] eqn:Hrs.
  assert (of_uid u rs = of_uid u (rows db)) as Hof.
  { assert (rs = (update_rows (rows db) _ _).1) as -> by (by rewrite Hrs). apply of_uid_other; [done|].
    intros r [Hr%row_of_uid _]%andb_prop. congruence. }
  destruct row as [row|]; simpl; [|rewrite Hof; apply row_sim_refl].
  rewrite <- Hof. apply (of_uid_react u (set_rows db rs)).
Qed.

Lemma persist_other u db o key ev now : E_ID ev ≠ u → of_uid u (rows (persist_ db o key ev now)) = of_uid u (rows db).
Proof.
  intros Hu. unfold persist. destruct (match topRule _ with Some _ => _ | None => _ end) as [rid sev].
  destruct (act_acted (InsertAuditEvent retention db ev o rid sev now) key ev (hits_of matcher cluster ev) now) as [_ ->].
  unfold InsertAuditEvent. destruct (partitionedTS _ _ _); [|done]. simpl. unfold of_uid, snoc.
  rewrite List.filter_app. simpl. unfold ruid at 2. simpl. destruct (String.eqb_spec (E_ID ev) u); [done|]. by rewrite app_nil_r.
Qed.

Lemma persist_own db o key ev now :
  E_Timestamp ev ≠ 0%Z → partitionedTS retention (E_Timestamp ev) now = Some (E_Timestamp ev) →
  ∃ r, of_uid (E_ID ev) (rows (persist_ db o key ev now)) = of_uid (E_ID ev) (rows db) ++ [r]
       ∧ row_ts r = E_Timestamp ev ∧ row_origin r = o ∧ row_event r = ev.
Proof.
  intros Hz Hts. unfold persist. destruct (match topRule _ with Some _ => _ | None => _ end) as [rid sev].
  destruct (act_acted (InsertAuditEvent retention db ev o rid sev now) key ev (hits_of matcher cluster ev) now) as [_ ->].
  unfold InsertAuditEvent. assert (IsZero (E_Timestamp ev) = false) as -> by by apply Z.eqb_neq. rewrite Hts.
  eexists. simpl. unfold of_uid, snoc. rewrite List.filter_app. simpl. unfold ruid at 2. simpl.
  rewrite String.eqb_refl. done.
Qed.

(** The single row of an id, hit by an update that makes it [both]. *)
Definition good (u : string) (r : Row) : Prop := ruid r = u ∧ AuditInformerResource (E_Resource (row_event r)) = false.


Lemma react_both u db key row now r :
  of_uid u (rows db) = [r] → row_origin r = OriginBoth → good u r →
  ∃ r', of_uid u (rows (react_ db key row now)) = [r'] ∧ row_origin r' = OriginBoth ∧ good u r'.
Proof.
  intros Hr Ho [Hg1 Hg2]. pose proof (of_uid_react u db key row now) as Hs. rewrite Hr in Hs.
  inversion Hs as [|x r' l l' (E1 & E2 & E3) Hnil]; subst. inversion Hnil; subst. exists r'.
  split_and!; [done|congruence|]. unfold good, ruid. rewrite E3. done.
Qed.

Lemma enrich_hit u db key en now r :
  EventUID en = u → At en ≠ 0%Z → of_uid u (rows db) = [r] → row_origin r = OriginAdmission → good u r →
  in_window auditJoinSlack (At en) (row_ts r) = true →
  (enrich_ db key en now).2 = true
  ∧ ∃ r', of_uid u (rows (enrich_ db key en now).1) = [r'] ∧ row_origin r' = OriginBoth ∧ good u r'.
Proof.
  intros Hu Hz Hr Ho [Hg1 Hg2] Hw. unfold enrich, EnrichAuditEvent.
  assert (IsZero (At en) = false) as -> by by apply Z.eqb_neq.
  match goal with |- context [update_rows (rows db) ?p ?f] => destruct (of_uid_hit u (rows db) p f r) as [H1 H2] end.
  - done.
  - intros x [Hx%row_of_uid _]%andb_prop. congruence.
  - done.
  - unfold row_of. unfold ruid in Hg1. rewrite Hg1, Hu, String.eqb_refl, Hw, bool_decide_true by done. done.
  - destruct (update_rows _ _ _) as [rs row]. simpl in H1, H2. subst row. simpl. split; [done|].
    by eapply (react_both u (set_rows db rs)).
Qed.

Lemma merge_hit u db key ev at_ now r :
  E_ID ev = u → at_ ≠ 0%Z → of_uid u (rows db) = [r] → row_origin r = OriginAPILog → good u r →
  in_window auditJoinSlack at_ (row_ts r) = true →
  ∃ r', of_uid u (rows (merge_ db key ev at_ now)) = [r'] ∧ row_origin r' = OriginBoth ∧ good u r'.
Proof.
  intros Hu Hz Hr Ho [Hg1 Hg2] Hw. unfold mergeAdmission, MergeAdmissionDetails.
  assert (IsZero at_ = false) as -> by by apply Z.eqb_neq.
  match goal with |- context [update_rows (rows db) ?p ?f] => destruct (of_uid_hit u (rows db) p f r) as [H1 H2] end.
  - done.
  - intros x [Hx%row_of_uid _]%andb_prop. congruence.
  - done.
  - unfold row_of. unfold ruid in Hg1. rewrite Hg1, Hu, String.eqb_refl, Hw, bool_decide_true by done. done.
  - destruct (update_rows _ _ _) as [rs row]. simpl in H1, H2. subst row. simpl.
    by eapply (react_both u (set_rows db rs)).
Qed.

Lemma existing_none u db around now : of_uid u (rows db) = [] → ExistingAuditEvent db u around now = (false, false).
Proof.
  intros Hr. unfold ExistingAuditEvent. set (t := if IsZero around then now else around).
  assert (List.filter (row_of u auditJoinSlack t) (rows db) = []) as ->; [|done].
  unfold of_uid in Hr. induction (rows db) as [|r rs IH]; simpl in *; [done|].
  destruct (row_of u auditJoinSlack t r) eqn:E; [apply row_of_uid in E; unfold ruid in *; rewrite E, String.eqb_refl in Hr; done|].
  destruct (ruid r == u); [done|auto].
Qed.

(** A twin is one of the rows of the object. *)
Definition from (l : list AuditTwin) (c : Candidates) : Prop :=
  ∀ t, exact c = Some t ∨ chained c = Some t ∨ ordered c = Some t → t ∈ l.

Lemma set_exact_from l c t : t ∈ l → from l c → from l (set_exact c t).
Proof.
  intros Ht Hc x. unfold set_exact. simpl. destruct (exact c) eqn:E.
  - intros H. apply Hc. by rewrite E.
  - intros [[= <-]|H]; [done|]. apply Hc. by right.
Qed.

Lemma set_chained_from l c t : t ∈ l → from l c → from l (set_chained c t).
Proof.
  intros Ht Hc x [H|[[= <-]|H]]; [|done|]; apply Hc; [by left|right; by right].
Qed.

Lemma inOrder_from l seen earlier c t : t ∈ l → from l c → from l (inOrder seen earlier c t).
Proof.
  intros Ht Hc x. unfold inOrder. case_if; [apply Hc|]. simpl. intros [H'|[H'|H']]; [apply Hc; by left|apply Hc; right; by left|].
  destruct (ordered c) as [o|] eqn:E; [|by injection H' as <-].
  case_if; injection H' as <-; [done|]. apply Hc. right. by right.
Qed.

Lemma twin_step_from l ev el seen earlier up c t :
  t ∈ l → (∀ c, from l c → from l (up c t)) → from l c → from l (twin_step ev el seen earlier up c t).
Proof.
  intros Ht Hup Hc. unfold twin_step.
  repeat (match goal with |- from _ (if ?b then _ else _) => destruct b end);
    auto using set_exact_from, inOrder_from.
Qed.

Lemma twins_from l ev el seen earlier up :
  (∀ c t, t ∈ l → from l c → from l (up c t)) →
  from l (foldl (twin_step ev el seen earlier up) no_candidates l).
Proof.
  intros Hup. assert (∀ l1 c, (∀ t, t ∈ l1 → t ∈ l) → from l c → from l (foldl (twin_step ev el seen earlier up) c l1)) as Hl.
  { induction l1 as [|t l1 IH]; intros c Hin Hc; simpl; [done|]. apply IH; [intros x Hx; apply Hin; by right|].
    assert (t ∈ l) by (apply Hin; left). apply twin_step_from; auto. }
  apply Hl; [done|]. intros t [H|[H|H]]; done.
Qed.

Lemma chosen_from l c m : from l c → chosen c = Some m → ∃ t, t ∈ l ∧ T_EventUID t = uid m.
Proof.
  intros Hc. unfold chosen. destruct (exact c) as [t|] eqn:E1; [intros [= <-]; exists t; split; [apply Hc; by left|done]|].
  destruct (chained c) as [t|] eqn:E2; [intros [= <-]; exists t; split; [apply Hc; right; by left|done]|].
  destruct (ordered c) as [t|] eqn:E3; [|done]. intros [= <-]. exists t. split; [apply Hc; right; by right|done].
Qed.

Lemma informerTwin_from ev l m : informerTwin ev l = Some m → ∃ t, t ∈ l ∧ T_EventUID t = uid m.
Proof.
  apply chosen_from, twins_from. intros c t Ht Hc. case_if; [by apply set_exact_from|].
  case_if; [|done]. destruct (chained c) as [b|]; [case_if; [|done]|]; by apply set_chained_from.
Qed.

Lemma logTwin_from ev l m : logTwin ev l = Some m → ∃ t, t ∈ l ∧ T_EventUID t = uid m.
Proof.
  apply chosen_from, twins_from. intros c t Ht Hc. cbv zeta.
  repeat match goal with |- from _ (if ?b then _ else _) => destruct b end; auto using set_chained_from.
Qed.

Lemma twin_row (db : DB) ev m :
  (∃ t, t ∈ objectTwins db ev ∧ T_EventUID t = uid m) →
  ∃ r, r ∈ of_uid (uid m) (rows db) ∧ E_Resource (row_event r) = E_Resource ev.
Proof.
  intros (t & Ht & Hu). unfold objectTwins in Ht. rewrite merge_sort_Permutation in Ht.
  apply list_elem_of_fmap in Ht as (r & -> & Hr). apply list_elem_of_In, filter_In in Hr as [Hin Htw].
  exists r. unfold is_twin in Htw. bool_hyps. split; [|done].
  apply list_elem_of_In. unfold of_uid. apply filter_In. split; [done|]. by apply String.eqb_eq.
Qed.

Section Join.
  (** The request [u] as the webhook reports it and as the log does. *)
  Context (u : string) (eva evl : Event).
  Context (Hida : E_ID eva = u).
  Context (Hra : AuditInformerResource (E_Resource eva) = false) (Hrl : AuditInformerResource (E_Resource evl) = false).
  Context (Hta : E_Timestamp eva ≠ 0%Z) (Htl : E_Timestamp evl ≠ 0%Z).
  Context (Hnear : (Z.abs (E_Timestamp eva - E_Timestamp evl) ≤ auditJoinSlack)%Z).

(** Both times are stored as they are. *)
Definition timely (now : Time) : Prop :=
  partitionedTS retention (E_Timestamp eva) now = Some (E_Timestamp eva)
  ∧ partitionedTS retention (E_Timestamp evl) now = Some (E_Timestamp evl).

(** Any transactions, those on [u] being reports of this request. *)
Definition reports (t : txn) : Prop :=
  match t with
  | TEvent _ ev now => E_ID ev = u → ev = eva ∧ timely now
  | TRecord _ (LogOwn ev _) _ => E_ID ev ≠ u
  | TRecord _ (LogOf v ev) now => v = u → ev = evl ∧ timely now
  | TMaterialize _ now => timely now
  | TDrop _ => True
  end.

Definition is_admit (t : txn) : bool := match t with TEvent _ ev _ => E_ID ev == u | _ => false end.
Definition is_log (t : txn) : bool := match t with TRecord _ (LogOf v _) _ => v == u | _ => false end.

(** Where the request is: nothing yet; the log waits for the webhook; the log's
    version is stored; the webhook's version is stored; joined. *)
Inductive phase : bool → bool → AuditState → list Row → Prop :=
| ph_none : phase false false no_state []
| ph_wait p : EventUID p = u → Materialized p = false → (N_Event p = None ∨ N_Event p = Some evl) →
    phase false true {| IsAdmitted := false; Enriched := false; Pending := Some p |} []
| ph_late p r : EventUID p = u → Materialized p = true → At p = E_Timestamp evl →
    row_origin r = OriginAPILog → row_ts r = E_Timestamp evl → good u r →
    phase false true {| IsAdmitted := true; Enriched := false; Pending := Some p |} [r]
| ph_adm r : row_origin r = OriginAdmission → row_ts r = E_Timestamp eva → good u r →
    phase true false {| IsAdmitted := true; Enriched := false; Pending := None |} [r]
| ph_both r : row_origin r = OriginBoth → good u r →
    phase true true {| IsAdmitted := true; Enriched := true; Pending := None |} [r].

Definition at_phase (a l : bool) (db : DB) : Prop :=
  phase a l (state_of db (admission_key u)) (of_uid u (rows db)).

Lemma phase_sim a l st rs rs' : phase a l st rs → Forall2 row_sim rs rs' → phase a l st rs'.
Proof.
  intros Hp Hs. destruct Hp; inversion Hs as [|x y l1 l2 (E1 & E2 & E3) Hn]; subst; try (inversion Hn; subst);
    [by constructor|by constructor|apply ph_late|apply ph_adm|apply ph_both]; try congruence;
    unfold good, ruid in *; rewrite E3; done.
Qed.

Lemma phase_good a l st rs r : phase a l st rs → r ∈ rs → good u r.
Proof. intros Hp Hr. destruct Hp; by apply list_elem_of_singleton in Hr as -> || by apply not_elem_of_nil in Hr. Qed.

(** A transaction on another key leaves the request where it is. *)
Lemma frame_phase a l db db' k st :
  at_phase a l db → k ≠ admission_key u → states db' = states db →
  Forall2 row_sim (of_uid u (rows db)) (of_uid u (rows db')) → at_phase a l (put_state db' k st).
Proof.
  unfold at_phase. intros Hp Hk Hs Hr. rewrite state_put, bool_decide_false by done.
  unfold state_of in *. rewrite Hs. by eapply phase_sim.
Qed.

Lemma own_phase db k st rs : k = admission_key u → of_uid u (rows db) = rs →
  ∀ a l, phase a l st rs → at_phase a l (put_state db k st).
Proof. intros -> Hr a l Hp. unfold at_phase. rewrite state_put, bool_decide_true by done. simpl. by rewrite Hr. Qed.

Lemma window_self t : in_window auditJoinSlack t t = true.
Proof. unfold in_window, auditJoinSlack. apply andb_true_intro. split; apply Z.leb_le; unfold Hour, Minute, Second; lia. Qed.

Lemma window_near : in_window auditJoinSlack (E_Timestamp evl) (E_Timestamp eva) = true.
Proof. unfold in_window. apply andb_true_intro. split; apply Z.leb_le; lia. Qed.

Lemma good_adm r : row_event r = eva → good u r.
Proof. intros Hr. unfold good, ruid. by rewrite Hr. Qed.

(** The webhook reports the request. *)
Lemma admit_own a l db now : at_phase a l db → timely now → at_phase true l (admit_ db eva now).
Proof.
  unfold at_phase at 1. intros Hp [Hna _]. unfold admit_event. rewrite Hida. set (key := admission_key u) in *.
  remember (state_of db key) as st eqn:Hst. remember (of_uid u (rows db)) as rs eqn:Hrs.
  destruct Hp as [|p He Hm Hev|p r He Hm Hat Ho Hts Hg|r Ho Hts Hg|r Ho Hg]; cbn [IsAdmitted Pending no_state].
  1,2: rewrite existing_none by done; rewrite Hra, andb_false_r; simpl;
       destruct (persist_own db OriginAdmission key eva now Hta Hna) as (r & Hr & Ht & Ho & Hr2);
       rewrite Hida, <- Hrs in Hr; simpl in Hr; pose proof (good_adm r Hr2) as Hg.
  - unfold admission_pending. simpl. eapply own_phase; [done|exact Hr|]. by apply ph_adm.
  - unfold admission_pending. simpl. rewrite Hm.
    destruct (enrich_hit u (persist_ db OriginAdmission key eva now) key (set_pending p (E_Timestamp eva)) now r)
      as [Hok (r' & Hr' & Ho' & Hg')]; [done|done|done|done|done|simpl; rewrite Ht; apply window_self|].
    destruct (enrich_ _ _ _ _) as [db' ok]. simpl in *. subst ok. eapply own_phase; [done|exact Hr'|]. by apply ph_both.
  - unfold admission_pending. simpl. rewrite Hm, Hat.
    destruct (merge_hit u db key eva (E_Timestamp evl) now r) as (r' & Hr' & Ho' & Hg');
      [done|done|done|done|done|rewrite Hts; apply window_self|].
    eapply own_phase; [done|exact Hr'|]. by apply ph_both.
  - unfold admission_pending. simpl. eapply own_phase; [done|by symmetry|]. by apply ph_adm.
  - unfold admission_pending. simpl. eapply own_phase; [done|by symmetry|]. by apply ph_both.
Qed.

(** The log reports it. *)
Lemma log_own a l db now : at_phase a l db → timely now → at_phase a true (log_ db u evl now).
Proof.
  intros Hp0 [_ Hnl]. pose proof Hp0 as Hp. unfold at_phase in Hp. unfold ingest_log. set (key := admission_key u) in *.
  remember (state_of db key) as st eqn:Hst. remember (of_uid u (rows db)) as rs eqn:Hrs. set (en := enrichment u evl _).
  destruct Hp as [|p He Hm Hev|p r He Hm Hat Ho Hts Hg|r Ho Hts Hg|r Ho Hg]; cbn [IsAdmitted Enriched Pending no_state orb].
  - rewrite existing_none by done. simpl. eapply own_phase; [done|by symmetry|]. apply ph_wait; auto.
  - rewrite Hm, existing_none by done. simpl. eapply own_phase; [done|by symmetry|]. apply ph_wait; auto.
  - rewrite Hm. done.
  - destruct (enrich_hit u db key en now r) as [Hok (r' & Hr' & Ho' & Hg')];
      [done|done|done|done|done|rewrite Hts; apply window_near|].
    destruct (enrich_ _ _ _ _) as [db' ok]. simpl in *. subst ok. eapply own_phase; [done|exact Hr'|]. by apply ph_both.
  - done.
Qed.

(** The sweep stores the log's version. *)
Lemma materialize_own a l db now :
  at_phase a l db → timely now → at_phase a l (materialize_ db (admission_key u) now).
Proof.
  intros Hp0 [_ Hnl]. pose proof Hp0 as Hp. unfold at_phase in Hp. unfold materialize. set (key := admission_key u) in *.
  remember (state_of db key) as st eqn:Hst. remember (of_uid u (rows db)) as rs eqn:Hrs.
  destruct Hp as [|p He Hm Hev|p r He Hm Hat Ho Hts Hg|r Ho Hts Hg|r Ho Hg]; cbn [IsAdmitted Pending no_state]; try done.
  destruct Hev as [-> | ->]; [done|]. cbn [EventUID without_event]. rewrite He, existing_none by done.
  set (ev := logged_event u _ now evl).
  assert (E_Timestamp ev = E_Timestamp evl) as Hev.
  { unfold ev. simpl. by assert (IsZero (E_Timestamp evl) = false) as -> by by apply Z.eqb_neq. }
  destruct (persist_own db OriginAPILog key ev now) as (r & Hr & Ht & Ho & Hr2); [congruence|by rewrite Hev|].
  change (E_ID ev) with u in Hr. rewrite <- Hrs in Hr. simpl in Hr.
  eapply own_phase; [done|exact Hr|]. apply ph_late; try done; [congruence|]. unfold good, ruid. by rewrite Hr2.
Qed.

Lemma drop_own a l db : at_phase a l db → at_phase a l (dropPendingEvent db (admission_key u)).
Proof.
  intros Hp0. pose proof Hp0 as Hp. unfold at_phase in Hp. unfold dropPendingEvent. set (key := admission_key u) in *.
  remember (state_of db key) as st eqn:Hst. remember (of_uid u (rows db)) as rs eqn:Hrs.
  destruct Hp as [|p He Hm Hev|p r He Hm Hat Ho Hts Hg|r Ho Hts Hg|r Ho Hg]; cbn [IsAdmitted Enriched Pending no_state]; try done.
  - destruct (N_Event p); [|done]. eapply own_phase; [done|by symmetry|]. apply ph_wait; auto.
  - destruct (N_Event p); [|done]. eapply own_phase; [done|by symmetry|]. by apply ph_late.
Qed.

(** ** Transactions on other requests *)

Lemma key_other v : v ≠ u → admission_key v ≠ admission_key u.
Proof. intros Hv Hk. by apply admission_key_inj in Hk. Qed.

Lemma twin_other a l db ev m :
  at_phase a l db → AuditInformerResource (E_Resource ev) = true →
  (∃ t, t ∈ objectTwins db ev ∧ T_EventUID t = uid m) → uid m ≠ u.
Proof.
  intros Hp Hres Ht Hm. apply twin_row in Ht as (r & Hr & Hre). rewrite Hm in Hr.
  destruct (phase_good _ _ _ _ _ Hp Hr) as [_ Hg]. congruence.
Qed.

Lemma pending_other db db1 st1 ev now :
  einv db → E_ID ev ≠ u → Pending st1 = Pending (state_of db (admission_key (E_ID ev))) →
  Forall2 row_sim (of_uid u (rows db1))
    (of_uid u (rows (admission_pending matcher cluster db1 (admission_key (E_ID ev)) st1 ev now).1)).
Proof.
  intros Hi Hu Hp. unfold admission_pending. destruct (Pending st1) as [p|]; [|apply row_sim_refl].
  assert (EventUID p ≠ u) as Hpu.
  { symmetry in Hp. apply (e_key _ Hi), admission_key_inj in Hp. congruence. }
  destruct (Materialized p); [by apply merge_frame|]. destruct (Enriched st1); [apply row_sim_refl|].
  pose proof (enrich_frame u db1 (admission_key (E_ID ev)) (set_pending p (E_Timestamp ev)) now Hpu) as Hf.
  by destruct (enrich_ _ _ _ _).
Qed.

Lemma admit_other a l db ev now : einv db → E_ID ev ≠ u → at_phase a l db → at_phase a l (admit_ db ev now).
Proof.
  intros Hi Hu Hp. unfold admit_event. set (key := admission_key (E_ID ev)). set (st := state_of db key).
  assert (∀ db1 st1, states db1 = states db → of_uid u (rows db1) = of_uid u (rows db) → Pending st1 = Pending st →
    at_phase a l (let '(db, st) := admission_pending matcher cluster db1 key st1 ev now in put_state db key st)) as Hcont.
  { intros db1 st1 Hs Hr Hpe. pose proof (pending_other db db1 st1 ev now Hi Hu Hpe) as Hf.
    destruct (pending_spec db1 key st1 ev now) as (E1 & _). fold key in Hf.
    destruct (admission_pending _ _ _ _ _ _ _) as [db2 st2]. simpl in *.
    apply (frame_phase a l db); [done|by apply key_other|congruence|]. by rewrite <- Hr. }
  destruct (IsAdmitted st); [by apply Hcont|]. destruct (ExistingAuditEvent _ _ _ _) as [adm enr].
  destruct (negb adm && (E_Source ev == sourceInformer) && AuditInformerResource (E_Resource ev)) eqn:Hc.
  - destruct (logTwin ev (objectTwins db ev)) as [m|] eqn:Hm.
    + apply andb_prop in Hc as [_ Hc]. pose proof (twin_other a l db ev m Hp Hc (logTwin_from _ _ _ Hm)) as Hmu.
      apply (frame_phase a l db); [done|by apply key_other|done|]. unfold MergeAuditObjectMeta. cbn [rows set_rows].
      rewrite of_uid_other; [apply row_sim_refl|done|]. intros r [Hr%row_of_uid _]%andb_prop. congruence.
    + destruct adm; [by apply Hcont|]. apply Hcont; [by apply persist_uids|by apply persist_other|done].
  - destruct adm; [by apply Hcont|]. apply Hcont; [by apply persist_uids|by apply persist_other|done].
Qed.

Lemma own_other a l db ev now : E_ID ev ≠ u → at_phase a l db → at_phase a l (own_ db ev now).
Proof.
  intros Hu Hp. unfold ingest_own. set (key := apilog_key (E_ID ev)). destruct (IsAdmitted _); [done|].
  assert (key ≠ admission_key u) as Hk by (intros E; symmetry in E; by apply keys_differ in E).
  assert (∀ st, at_phase a l (put_state (persist_ db OriginAPILog key ev now) key st)) as Hper.
  { intros st. apply (frame_phase a l db); [done|done|by apply persist_uids|]. rewrite persist_other by done. apply row_sim_refl. }
  destruct (IsAllowed ev && negb (E_Unchanged ev) && AuditInformerResource (E_Resource ev)) eqn:Hc; [|apply Hper].
  destruct (informerTwin ev (objectTwins db ev)) as [m|] eqn:Hm; [|apply Hper].
  apply andb_prop in Hc as [_ Hc]. pose proof (twin_other a l db ev m Hp Hc (informerTwin_from _ _ _ Hm)) as Hmu.
  set (en := with_attribution _ _).
  pose proof (enrich_frame u db (admission_key (uid m)) en now Hmu) as Hf.
  destruct (enrich_spec db (admission_key (uid m)) en now) as [E1 _].
  destruct (enrich_ _ _ _ _) as [db' ok]. simpl in *. destruct ok; [|apply Hper]. by apply (frame_phase a l db).
Qed.

Lemma log_other a l db v ev now : v ≠ u → at_phase a l db → at_phase a l (log_ db v ev now).
Proof.
  intros Hu Hp. unfold ingest_log. set (key := admission_key v). set (en := enrichment v ev _).
  pose proof (key_other v Hu) as Hk. case_if; [done|]. destruct (if IsAdmitted _ then _ else _) as [adm enr].
  destruct enr; [apply (frame_phase a l db); [done|done|done|apply row_sim_refl]|]. destruct adm; simpl.
  - pose proof (enrich_frame u db key en now Hu) as Hf. destruct (enrich_spec db key en now) as [E1 _].
    destruct (enrich_ _ _ _ _) as [db' ok]. by apply (frame_phase a l db).
  - apply (frame_phase a l db); [done|done|done|apply row_sim_refl].
Qed.

Lemma materialize_other a l db key now :
  einv db → key ≠ admission_key u → at_phase a l db → at_phase a l (materialize_ db key now).
Proof.
  intros Hi Hk Hp. unfold materialize. destruct (IsAdmitted _); [done|].
  destruct (Pending (state_of db key)) as [p|] eqn:Hpe; [|done].
  assert (EventUID p ≠ u) as Hpu by (pose proof (e_key _ Hi key p Hpe); congruence).
  destruct (N_Event p) as [logged|]; [|done]. destruct (ExistingAuditEvent _ _ _ _) as [adm enr].
  destruct adm; [destruct enr|].
  - apply (frame_phase a l db); [done|done|done|apply row_sim_refl].
  - pose proof (enrich_frame u db key (without_event p) now Hpu) as Hf.
    destruct (enrich_spec db key (without_event p) now) as [E1 _].
    destruct (enrich_ _ _ _ _) as [db' ok]. by apply (frame_phase a l db).
  - apply (frame_phase a l db); [done|done|by apply persist_uids|]. rewrite persist_other by done. apply row_sim_refl.
Qed.

Lemma drop_other a l db key : key ≠ admission_key u → at_phase a l db → at_phase a l (dropPendingEvent db key).
Proof.
  intros Hk Hp. unfold dropPendingEvent. destruct (Pending _) as [p|]; [|done]. destruct (N_Event p); [|done].
  apply (frame_phase a l db); [done|done|done|apply row_sim_refl].
Qed.

(** An item that was skipped had been reported before its batch started. *)
Lemma skipped_event a l seen :
  at_phase a l seen →
  (let p := progress seen (admission_key u) in P_Admitted p && (P_Enriched p || negb (P_Pending p))) = true → a = true.
Proof. unfold at_phase, progress. intros Hp. by destruct Hp. Qed.

Lemma skipped_record a l seen :
  at_phase a l seen →
  (let p := progress seen (admission_key u) in P_Enriched p || (P_Pending p && negb (P_Admitted p))) = true → l = true.
Proof. unfold at_phase, progress. intros Hp. by destruct Hp. Qed.

(** The request in the past: not further than now. *)
Definition behind (a l : bool) (db : DB) : Prop :=
  ∃ a' l', at_phase a' l' db ∧ (a' = true → a = true) ∧ (l' = true → l = true).

Lemma behind_more a l a2 l2 db : behind a l db → (a = true → a2 = true) → (l = true → l2 = true) → behind a2 l2 db.
Proof. intros (a' & l' & H & Ha & Hl) H1 H2. exists a', l'. auto. Qed.

Lemma past_behind a l s snap : at_phase a l s.1 → Forall (behind a l) s.2 → behind a l (past s snap).
Proof.
  intros Hp Hs. unfold past. assert (behind a l s.1) as H0 by (exists a, l; auto).
  destruct ((s.1 :: s.2) !! snap) as [d|] eqn:E; [|done]. simpl.
  apply list_elem_of_lookup_2 in E. apply elem_of_cons in E as [->|E]; [done|]. rewrite Forall_forall in Hs. auto.
Qed.

Lemma commit_phase a l s t :
  einv s.1 → reports t → at_phase a l s.1 → Forall (behind a l) s.2 →
  at_phase (is_admit t || a) (is_log t || l) (commit s t).
Proof.
  intros Hi Ht Hp Hs. destruct t as [snap ev now|snap [v ev|ev legacy] now|key now|key]; simpl in *.
  - destruct (past_behind a l s snap Hp Hs) as (a' & l' & Hb & Ha & _). unfold ingest_event.
    destruct (String.eqb_spec (E_ID ev) u) as [E|E].
    + rewrite E. destruct (_ && _) eqn:Hskip; [rewrite (Ha (skipped_event _ _ _ Hb Hskip)) in Hp; done|].
      destruct (Ht E) as [-> Hn]. by apply (admit_own a).
    + destruct (_ && _); [done|]. by apply admit_other.
  - destruct (past_behind a l s snap Hp Hs) as (a' & l' & Hb & _ & Hl). unfold ingest_record.
    destruct (String.eqb_spec v u) as [->|E].
    + match goal with |- at_phase _ _ (if ?b then _ else _) => destruct b eqn:Hskip end; [rewrite (Hl (skipped_record _ _ _ Hb Hskip)) in Hp; done|].
      destruct (Ht eq_refl) as [-> Hn]. by apply (log_own a l).
    + match goal with |- at_phase _ _ (if ?b then _ else _) => destruct b; [done|] end. by apply log_other.
  - unfold ingest_record.
    repeat match goal with |- at_phase _ _ (if ?b then _ else _) => destruct b; [done|] end. by apply own_other.
  - destruct (decide (key = admission_key u)) as [->|]; [by apply materialize_own|by apply materialize_other].
  - destruct (decide (key = admission_key u)) as [->|]; [by apply drop_own|by apply drop_other].
Qed.

Lemma run_phase ts : Forall reports ts →
  at_phase (any is_admit ts) (any is_log ts) (history ts) ∧ Forall (behind (any is_admit ts) (any is_log ts)) (run ts).2.
Proof.
  induction ts as [|t ts IH] using rev_ind; intros Hts.
  - split; [|constructor]. unfold at_phase, history, state_of. simpl. rewrite lookup_empty. constructor.
  - apply Forall_app in Hts as [Hts Ht]. inversion Ht as [|? ? Ht1 _]; subst. destruct (IH Hts) as [Hp Hs].
    pose proof (commit_phase _ _ (run ts) t (history_einv ts) Ht1 Hp Hs) as Hc.
    unfold any in *. rewrite !existsb_app. simpl.
    rewrite !orb_false_r, (orb_comm (existsb is_admit ts)), (orb_comm (existsb is_log ts)).
    unfold history, run. rewrite foldl_app. simpl. fold (run ts). split; [done|]. constructor.
    + exists (existsb is_admit ts), (existsb is_log ts). split_and!; [done|..]; intros ->; apply orb_true_r.
    + eapply Forall_impl; [exact Hs|]. intros d Hd. eapply behind_more; [exact Hd|..]; intros ->; apply orb_true_r.
Qed.

(** The two reports of a request join whatever their order: after any
    transactions in which the webhook reported the request at least once and
    the log at least once, however often, checked against any earlier state of
    the database, with the sweep storing the log's version in between or not,
    and with any traffic for other requests, there is exactly one row for it,
    it has both origins, and nothing is pending. *)
Theorem audit_sources_join ts :
  Forall reports ts → any is_admit ts = true → any is_log ts = true →
  (∃ r, List.filter (λ r, E_ID (row_event r) == u) (rows (history ts)) = [r] ∧ row_origin r = OriginBoth)
  ∧ state_of (history ts) (admission_key u) = {| IsAdmitted := true; Enriched := true; Pending := None |}.
Proof.
  intros Hts Ha Hl. destruct (run_phase ts Hts) as [Hp _]. rewrite Ha, Hl in Hp. unfold at_phase, of_uid, ruid in Hp.
  inversion Hp as [| | | |r Ho Hg E1 E2]. split; [|done]. by exists r.
Qed.
End Join.
End Props.

(** A pod exec: the log is read first and its version stored, then the webhook
    reports, and the log line is read again after a restart. *)
Definition exec_event (id user : string) (ts : Time) : Event :=
  {| E_ID := id; E_Timestamp := ts; E_User := user; E_ImpersonatedUser := ""; E_ImpersonatedGroups := [];
     E_ServiceAccount := ""; E_Groups := []; E_SourceIPs := ["10.0.0.7"]; E_ClientIP := ""; E_UserAgent := "kubectl";
     E_Kind := "exec"; E_Resource := "pods"; E_WebhookType := ""; E_Namespace := "prod"; E_Name := "web"; E_UID := "";
     E_ResourceVersion := ""; E_PrevResourceVersion := ""; E_Unchanged := false; E_DryRun := false;
     E_CompletedAt := None; E_Source := ""; E_Attribution := ""; E_Container := "app"; E_Commands := ["sh"];
     E_Ports := []; E_Allowed := Some true; E_StatusCode := 101; E_AuditID := "a1" |}.

Lemma audit_sources_join_witness :
  let ts := (1000 * Hour)%Z in let now := (ts + Minute)%Z in
  let eva := exec_event "u1" "ann" ts in let evl := exec_event "" "ann" (ts + Second)%Z in
  let steps := [TRecord 0 (LogOf "u1" evl) now; TMaterialize (admission_key "u1") now; TEvent 1 eva now;
                TRecord 3 (LogOf "u1" evl) now] in
  let db := @history ascii_tables NewMatcher "c1" (720 * Hour)%Z steps in
  (∃ r, List.filter (λ r, E_ID (row_event r) == "u1") (rows db) = [r] ∧ row_origin r = OriginBoth)
  ∧ state_of db (admission_key "u1") = {| IsAdmitted := true; Enriched := true; Pending := None |}.
Proof.
  intros ts now eva evl steps.
  refine (@audit_sources_join ascii_tables NewMatcher "c1" (720 * Hour)%Z "u1" eva evl _ _ _ _ _ _ steps _ _ _);
    [reflexivity|reflexivity|reflexivity|intros H; discriminate H|intros H; discriminate H| | |reflexivity|reflexivity].
  - intros H. discriminate H.
  - repeat (apply Forall_cons; split); [..|apply Forall_nil; exact I]; simpl; try (intros _; split; [reflexivity|]); split; reflexivity.
Defined.

(** ** Thresholds *)

(** Whether a rule alerts, hit by hit. *)
Fixpoint fires (db : DB) (r : Rule) (ts : list Time) : list bool :=
  match ts with
  | [] => []
  | t :: ts' => let '(db, f) := AuditThreshold db r t in f :: fires db r ts'
  end.

(** The same from the whole history: [hist] are the hits since the last alert. *)
Definition recent_hits (r : Rule) (t : Time) (hist : list Time) : list Time :=
  List.filter (λ h, (t - h <? S_ThMin (R_Spec r) * Minute)%Z) hist.
Fixpoint ref_fires (r : Rule) (hist : list Time) (ts : list Time) : list bool :=
  match ts with
  | [] => []
  | t :: ts' => let f := (S_ThN (R_Spec r) <=? Z.of_nat (S (length (recent_hits r t hist))))%Z in
                f :: ref_fires r (if f then [] else snoc hist t) ts'
  end.

Lemma recent_recent r t t' hist : (t ≤ t')%Z → recent_hits r t' (recent_hits r t hist) = recent_hits r t' hist.
Proof.
  intros Ht. unfold recent_hits. induction hist as [|h hist IH]; simpl; [done|].
  destruct (t - h <? _)%Z eqn:E; simpl; [by rewrite IH|].
  apply Z.ltb_ge in E. assert ((t' - h <? S_ThMin (R_Spec r) * Minute)%Z = false) as -> by (apply Z.ltb_ge; lia). done.
Qed.

Definition times_of (db : DB) (r : Rule) : list Time :=
  match thresholds db !! R_ID r with
  | Some (spec, updated, times) => if bool_decide (spec = R_Spec r) && (updated =? R_UpdatedAt r)%Z then times else []
  | None => []
  end.

Lemma threshold_step db r t :
  S_AlertEvery (R_Spec r) = AlertThreshold → (unixEpoch ≤ t < horizon)%Z → Forall (λ h, unixEpoch ≤ h < horizon)%Z (times_of db r) →
  let f := (S_ThN (R_Spec r) <=? Z.of_nat (S (length (recent_hits r t (times_of db r)))))%Z in
  (AuditThreshold db r t).2 = f
  ∧ times_of (AuditThreshold db r t).1 r = if f then [] else snoc (recent_hits r t (times_of db r)) t.
Proof.
  intros Hev Ht Hh. unfold AuditThreshold. rewrite Hev. simpl negb. cbv iota. fold (times_of db r).
  assert (List.filter (λ at_, (TSub t at_ <? S_ThMin (R_Spec r) * Minute)%Z) (times_of db r) = recent_hits r t (times_of db r)) as ->.
  { unfold recent_hits. apply filter_ext_in. intros h Hin%list_elem_of_In. rewrite Forall_forall in Hh.
    specialize (Hh h Hin). by rewrite TSub_exact. }
  assert (length (snoc (recent_hits r t (times_of db r)) t) = S (length (recent_hits r t (times_of db r)))) as ->.
  { unfold snoc. rewrite length_app. simpl. lia. }
  cbn [fst snd]. split; [done|].
  unfold times_of at 1. cbn [thresholds]. by rewrite lookup_insert_eq, bool_decide_true, Z.eqb_refl by done.
Qed.

(** The table holds enough of the history for every later hit. *)
Lemma fires_ref r (Hev : S_AlertEvery (R_Spec r) = AlertThreshold) ts db hist last :
  StronglySorted Z.le ts → Forall (λ t, unixEpoch ≤ t < horizon)%Z ts → Forall (Z.le last) ts →
  Forall (λ h, unixEpoch ≤ h < horizon)%Z (times_of db r) →
  (∀ t, (last ≤ t)%Z → recent_hits r t (times_of db r) = recent_hits r t hist) →
  fires db r ts = ref_fires r hist ts.
Proof.
  revert db hist last. induction ts as [|t ts IH]; intros db hist last Hs Hall Hlast Hh Ht; simpl; [done|].
  inversion Hall as [|? ? Ht0 Hall']; inversion Hs as [|? ? Hs' Hle]; inversion Hlast as [|? ? Hl _]; subst.
  destruct (threshold_step db r t Hev Ht0 Hh) as [Hf Htimes].
  rewrite Ht in Hf by done. pose proof (Ht t Hl) as Htt.
  destruct (AuditThreshold db r t) as [db' f]. cbn [fst snd] in *. rewrite Htt in Htimes. subst f. f_equal.
  apply (IH db' _ t); [done|done|done| |].
  - rewrite Htimes. destruct (_ <=? _)%Z; [constructor|]. apply Forall_app. split; [|by constructor].
    rewrite <- Htt. rewrite Forall_forall in *. intros h Hin. apply Hh.
    apply list_elem_of_In, filter_In in Hin as [Hin _]. by apply list_elem_of_In.
  - intros t' Ht'. rewrite Htimes. destruct (_ <=? _)%Z; [done|]. unfold snoc, recent_hits at 1 3.
    rewrite !List.filter_app. f_equal. by apply recent_recent.
Qed.

(** C11: for a threshold rule with no hits in the table, and hits at ascending
    times between 1970 and 2116: the rule alerts at a hit if and only if it
    had at least the configured number of hits, this one included, within the
    configured minutes since its last alert, although expired hits are dropped
    from the table. *)
Theorem threshold_exact db r ts :
  S_AlertEvery (R_Spec r) = AlertThreshold → thresholds db !! R_ID r = None →
  StronglySorted Z.le ts → Forall (λ t, unixEpoch ≤ t < horizon)%Z ts →
  fires db r ts = ref_fires r [] ts.
Proof.
  intros Hev Hnone Hs Hall. destruct ts as [|t ts]; [done|]. apply (fires_ref r Hev _ db [] t); [done|done| | |].
  - inversion Hs; subst. constructor; [lia|done].
  - assert (times_of db r = []) as -> by (unfold times_of, Time in *; by rewrite Hnone). constructor.
  - intros t1 _. assert (times_of db r = []) as -> by (unfold times_of, Time in *; by rewrite Hnone). done.
Qed.

Definition threshold_rule : Rule :=
  {| R_ID := "r1"; R_Name := "exec"; R_Group := ""; R_Origin := ""; R_Enabled := true;
     R_Alert := true; R_Severity := SevHigh; R_UpdatedBy := ""; R_UpdatedAt := 7%Z;
     R_Spec := {| S_Kinds := ["exec"]; S_Resources := []; S_NS := ""; S_NSExclude := ""; S_ObjName := "";
       S_Subject := ""; S_Users := ""; S_UsersExclude := ""; S_IPMode := ""; S_IPList := ""; S_Forwarded := false;
       S_Result := ""; S_Cmd := ""; S_AlertEvery := AlertThreshold; S_ThN := 2; S_ThMin := 5; S_Clusters := [] |} |}.

(** Two hits in five minutes: the second hit comes too late, the third counts. *)
Lemma threshold_exact_witness :
  let ts := [newYear + 1 * Minute; newYear + 7 * Minute; newYear + 9 * Minute; newYear + 10 * Minute]%Z in
  fires empty_db threshold_rule ts = ref_fires threshold_rule [] ts
  ∧ fires empty_db threshold_rule ts = [false; false; true; false].
Proof.
  split; [|vm_compute; reflexivity]. apply (threshold_exact empty_db threshold_rule); [done|done| |].
  - repeat constructor; done.
  - repeat constructor; done.
Defined.
