(* ===== verification/LogRecord.v ===== *)
(** * sentry-audit/internal/logtail/record.go: lines of the API server log

    A line becomes the audit event it describes, or is dropped: not an event of
    interest, not finished, or made by a component of the cluster. Decoding JSON
    is a parameter; an event is decoded into the structure of the source. *)

From Stdlib Require Import Ascii.
From stdpp Require Import base list gmap strings.
From S2P Require Import Prelude GoStrings GlobSpec AuditRules.
Local Open Scope string_scope.
Local Open Scope list_scope.
Local Open Scope go_scope.

(** ** Data *)

Record userInfo := { Username : string; UserGroups : list string }.
Record objectRef := {
  O_Resource : string; O_Namespace : string; O_Name : string; O_Subresource : string; O_UID : string;
  O_ResourceVersion : string;
}.
(** [details]: the uid in it, when there are details. *)
Record responseStatus := { Code : Z; Details : option string }.
Record objectMeta := { M_UID : string; M_ResourceVersion : string }.

Record apiEvent := {
  A_AuditID : string;
  A_Stage : string;
  A_Verb : string;
  A_RequestURI : string;
  A_User : userInfo;
  A_ImpersonatedUser : option userInfo;
  A_SourceIPs : list string;
  A_UserAgent : string;
  A_ObjectRef : option objectRef;
  A_ResponseStatus : option responseStatus;
  A_RequestObject : string;
  A_ResponseObject : option objectMeta;
  A_RequestReceivedTimestamp : Time;
  A_StageTimestamp : Time;
  A_Annotations : gmap string string;
}.

(** webhook/decoder.go *)
Definition EventKindCreate := "create".
Definition EventKindUpdate := "update".
Definition EventKindDelete := "delete".
Definition EventKindExec := "exec".
Definition EventKindAttach := "attach".
Definition EventKindPortForward := "portforward".
Definition EventKindGet := "get".
Definition EventKindList := "list".
Definition EventKindUnknown := "unknown".
Definition EventIDAnnotation := "event-id".
Definition ChangePolicyName := "webhook-changes.wolfee-watcher.io".
Definition ObjectUIDAnnotation := ChangePolicyName +:+ "/object-uid".
Definition PreviousRevisionAnnotation := ChangePolicyName +:+ "/previous-resource-version".
Definition ChangedAnnotation := ChangePolicyName +:+ "/changed".

Record AuditEvent := {
  W_ID : string; W_Timestamp : Time; W_User : string; W_ImpersonatedUser : string;
  W_ImpersonatedGroups : list string; W_ServiceAccount : string; W_Groups : list string; W_SourceIPs : list string;
  W_UserAgent : string; W_Kind : string; W_Resource : string; W_WebhookType : string; W_Namespace : string;
  W_Name : string; W_UID : string; W_ResourceVersion : string; W_PrevResourceVersion : string; W_Unchanged : bool;
  W_DryRun : bool; W_CompletedAt : option Time; W_Source : string; W_Container : string; W_Commands : list string;
  W_Ports : list Z; W_Allowed : bool; W_StatusCode : Z; W_AuditID : string;
}.

Record Record_ := { Rec_EventUID : string; Rec_Event : AuditEvent }.
Record Filter := { DropResources : list string; DropUsers : list string }.

Definition DefaultFilter : Filter := {|
  DropResources := ["leases"; "events"; "endpoints"; "endpointslices"; "tokenreviews"; "subjectaccessreviews";
                    "selfsubjectaccessreviews"; "selfsubjectrulesreviews"; "localsubjectaccessreviews"];
  DropUsers := ["system:node:*"; "system:kube-*"; "system:apiserver"; "system:anonymous";
                "system:serviceaccount:kube-system:*"];
|}.

(** ** Patterns *)

(** The pieces between the first and the last, then the last. *)
Fixpoint glob_rest (parts : list string) (s : string) : bool :=
  match parts with
  | [] => true
  | [last] => HasSuffix s last
  | p :: parts' => match Index s p with
                   | None => false
                   | Some i => glob_rest parts' (sdrop (i + String.length p) s)
                   end
  end.

Definition log_glob (pattern s : string) : bool :=
  if negb (Contains pattern "*") then pattern == s
  else match Split pattern star with
       | [] => true
       | p :: parts => if negb (HasPrefix s p) then false else glob_rest parts (sdrop (String.length p) s)
       end.

Definition matchAny (patterns : list string) (s : string) : bool := any (λ p, log_glob p s) patterns.

(** ** What a request does *)

Definition eventKind (verb subresource : string) : option string :=
  if subresource == "exec" then Some EventKindExec
  else if subresource == "attach" then Some EventKindAttach
  else if subresource == "portforward" then Some EventKindPortForward
  else if verb == "create" then Some EventKindCreate
  else if (verb == "update") || (verb == "patch") then Some EventKindUpdate
  else if (verb == "delete") || (verb == "deletecollection") then Some EventKindDelete
  else if verb == "get" then Some EventKindGet
  else if verb == "list" then Some EventKindList
  else None.

Definition isRead (k : string) : bool := (k == EventKindGet) || (k == EventKindList).
Definition humanSystemUsers (user : string) : bool := user == "system:admin".
Definition watchedResources (r : string) : bool :=
  any (String.eqb r) ["mutatingwebhookconfigurations"; "validatingwebhookconfigurations"].
Definition isPerson (user : string) : bool := (user != "") && (humanSystemUsers user || negb (HasPrefix user "system:")).

Fixpoint first_nonempty (values : list string) : string :=
  match values with [] => "" | v :: vs => if v != "" then v else first_nonempty vs end.

(** ** Query strings: [url.ParseQuery] and [url.QueryUnescape] *)

Definition hex_value (a : ascii) : option Z :=
  let b := byte_of a in
  if (48 <=? b)%Z && (b <=? 57)%Z then Some (b - 48)%Z
  else if (97 <=? b)%Z && (b <=? 102)%Z then Some (b - 87)%Z
  else if (65 <=? b)%Z && (b <=? 70)%Z then Some (b - 55)%Z else None.

Fixpoint QueryUnescape (s : string) : option string :=
  match s with
  | EmptyString => Some ""
  | String "%"%char s1 =>
      match s1 with
      | String h (String l s2) =>
          match hex_value h, hex_value l, QueryUnescape s2 with
          | Some x, Some y, Some r => Some (String (ascii_of (16 * x + y)) r)
          | _, _, _ => None
          end
      | _ => None
      end
  | String "+"%char s1 => String " "%char <$> QueryUnescape s1
  | String c s1 => String c <$> QueryUnescape s1
  end.

(** The key and value of one piece; [None] when it is malformed. *)
Definition query_pair (piece : string) : option (string * string) :=
  if Contains piece ";" then None
  else let '(k, v, _) := Cut piece "="%char in
       match QueryUnescape k, QueryUnescape v with Some k, Some v => Some (k, v) | _, _ => None end.

(** The pairs, unless a piece is malformed. *)
Definition ParseQuery (q : string) : option (list (string * string)) :=
  mapM query_pair (List.filter (λ p, p != "") (Split q "&"%char)).

Definition dryRun (uri : string) : bool :=
  match IndexByte uri "?"%char with
  | None => false
  | Some i => match ParseQuery (sdrop (i + 1) uri) with
              | Some pairs => any (λ kv, kv.1 == "dryRun") pairs
              | None => false
              end
  end.

Section Parse.
  Context {O : MapOrder}.
  (** [json.Unmarshal] into an [apiEvent], and of the [dryRun] member of delete
      options. *)
  Context (UnmarshalEvent : string → option apiEvent) (UnmarshalDryRun : string → option (list string)).

Definition annotation (a : apiEvent) (k : string) : string := default "" (A_Annotations a !! k).

(** [identify] on an event whose other fields are set. *)
Definition identify (a : apiEvent) (ref : objectRef) (e : AuditEvent) : AuditEvent :=
  let response := match A_ResponseObject a with Some o => M_UID o | None => "" end in
  let version := match A_ResponseObject a with
                 | Some o => if W_Kind e != EventKindDelete then M_ResourceVersion o else W_ResourceVersion e
                 | None => W_ResourceVersion e
                 end in
  let removed := match A_ResponseStatus a with Some s => default "" (Details s) | None => "" end in
  let replaced := if A_Verb a == "update" then O_UID ref else "" in
  let previous := if A_Verb a == "update" then
                    match ParseUint (O_ResourceVersion ref) 64 with
                    | Some n => if (n =? 0)%Z then "" else O_ResourceVersion ref
                    | None => O_ResourceVersion ref
                    end else "" in
  let prev := if W_Kind e == EventKindUpdate
              then first_nonempty [annotation a PreviousRevisionAnnotation; previous] else W_PrevResourceVersion e in
  {| W_ID := W_ID e; W_Timestamp := W_Timestamp e; W_User := W_User e; W_ImpersonatedUser := W_ImpersonatedUser e;
     W_ImpersonatedGroups := W_ImpersonatedGroups e; W_ServiceAccount := W_ServiceAccount e; W_Groups := W_Groups e;
     W_SourceIPs := W_SourceIPs e; W_UserAgent := W_UserAgent e; W_Kind := W_Kind e; W_Resource := W_Resource e;
     W_WebhookType := W_WebhookType e; W_Namespace := W_Namespace e; W_Name := W_Name e;
     W_UID := first_nonempty [annotation a ObjectUIDAnnotation; response; removed; replaced];
     W_ResourceVersion := version; W_PrevResourceVersion := prev;
     W_Unchanged := W_DryRun e || (annotation a ChangedAnnotation == "false") || ((version != "") && (version == prev));
     W_DryRun := W_DryRun e;
     W_CompletedAt := if IsZero (A_StageTimestamp a) then W_CompletedAt e else Some (A_StageTimestamp a);
     W_Source := W_Source e; W_Container := W_Container e; W_Commands := W_Commands e; W_Ports := W_Ports e;
     W_Allowed := W_Allowed e; W_StatusCode := W_StatusCode e; W_AuditID := W_AuditID e |}.

Definition is_connect (kind : string) : bool :=
  (kind == EventKindExec) || (kind == EventKindAttach) || (kind == EventKindPortForward).

(** Whether the stage is the one an event of this kind is taken from. *)
Definition stage_ok (stage kind : string) : bool :=
  (stage == "ResponseComplete") || ((stage == "ResponseStarted") && is_connect kind).

Definition status_code (a : apiEvent) : Z := match A_ResponseStatus a with Some s => Code s | None => 0 end.

Definition base_event (a : apiEvent) (ref : objectRef) (kind : string) (now : Time) : AuditEvent :=
  let code := status_code a in
  let ts := if IsZero (A_RequestReceivedTimestamp a) then now else A_RequestReceivedTimestamp a in
  let options := if (kind == EventKindDelete) && (A_RequestObject a != "")
                 then match UnmarshalDryRun (A_RequestObject a) with Some (_ :: _) => true | _ => false end else false in
  let imp := match A_ImpersonatedUser a with Some u => if Username u != "" then Some u else None | None => None end in
  {| W_ID := A_AuditID a; W_Timestamp := ts; W_User := Username (A_User a);
     W_ImpersonatedUser := match imp with Some u => Username u | None => "" end;
     W_ImpersonatedGroups := match imp with Some u => UserGroups u | None => [] end;
     W_ServiceAccount := ""; W_Groups := UserGroups (A_User a); W_SourceIPs := A_SourceIPs a;
     W_UserAgent := A_UserAgent a; W_Kind := kind; W_Resource := O_Resource ref; W_WebhookType := "";
     W_Namespace := O_Namespace ref; W_Name := O_Name ref; W_UID := ""; W_ResourceVersion := "";
     W_PrevResourceVersion := ""; W_Unchanged := false;
     W_DryRun := dryRun (A_RequestURI a) || options; W_CompletedAt := None; W_Source := ""; W_Container := "";
     W_Commands := []; W_Ports := []; W_Allowed := (code <? 400)%Z; W_StatusCode := code; W_AuditID := A_AuditID a |}.

Definition with_resource (r : string) (e : AuditEvent) : AuditEvent :=
  {| W_ID := W_ID e; W_Timestamp := W_Timestamp e; W_User := W_User e; W_ImpersonatedUser := W_ImpersonatedUser e;
     W_ImpersonatedGroups := W_ImpersonatedGroups e; W_ServiceAccount := W_ServiceAccount e; W_Groups := W_Groups e;
     W_SourceIPs := W_SourceIPs e; W_UserAgent := W_UserAgent e; W_Kind := W_Kind e; W_Resource := r;
     W_WebhookType := W_WebhookType e; W_Namespace := W_Namespace e; W_Name := W_Name e; W_UID := W_UID e;
     W_ResourceVersion := W_ResourceVersion e; W_PrevResourceVersion := W_PrevResourceVersion e;
     W_Unchanged := W_Unchanged e; W_DryRun := W_DryRun e; W_CompletedAt := W_CompletedAt e; W_Source := W_Source e;
     W_Container := W_Container e; W_Commands := W_Commands e; W_Ports := W_Ports e; W_Allowed := W_Allowed e;
     W_StatusCode := W_StatusCode e; W_AuditID := W_AuditID e |}.

(** The id the admission webhook left in the annotations. *)
Definition event_uid (a : apiEvent) : option string :=
  snd <$> List.find (λ kv, HasSuffix kv.1 ("/" +:+ EventIDAnnotation) && (kv.2 != "")) (map_order (map_to_list (A_Annotations a))).

(** An event without that id: whether it is kept, and as what. *)
Definition keep_own (f : Filter) (a : apiEvent) (ref : objectRef) (kind : string) (ev : AuditEvent) : option Record_ :=
  let code := status_code a in
  let sub := (O_Subresource ref != "") && negb (is_connect kind) in
  if (400 <=? code)%Z && negb (code =? 401)%Z && negb (code =? 403)%Z then None
  else if sub && (O_Subresource ref == "status") then None
  else
    let ev := if sub then with_resource (O_Resource ref +:+ "/" +:+ O_Subresource ref) ev else ev in
    let watched := watchedResources (O_Resource ref) && (O_Subresource ref == "") && negb (isRead kind) && (code <? 400)%Z in
    let ev := if watched then identify a ref ev else ev in
    if matchAny (DropResources f) (O_Resource ref) || (negb watched && matchAny (DropUsers f) (W_User ev)) then None
    else if isRead kind && negb (isPerson (W_User ev)) && (O_Resource ref != "secrets") then None
    else Some {| Rec_EventUID := ""; Rec_Event := ev |}.

Definition parse_event (f : Filter) (a : apiEvent) (now : Time) : option Record_ :=
  match A_ObjectRef a with
  | None => None
  | Some ref =>
      if O_Resource ref == "" then None
      else match eventKind (A_Verb a) (O_Subresource ref) with
           | None => None
           | Some kind =>
               if negb (stage_ok (A_Stage a) kind) then None
               else
                 let ev := base_event a ref kind now in
                 match event_uid a with
                 | Some u => Some {| Rec_EventUID := u; Rec_Event := ev |}
                 | None => keep_own f a ref kind ev
                 end
           end
  end.

Definition Parse (f : Filter) (line : string) (now : Time) : option Record_ :=
  match UnmarshalEvent line with Some a => parse_event f a now | None => None end.
End Parse.

(** ** The pattern matcher *)

Lemma glob_rest_greedy mid last s : glob_rest (mid ++ [last]) s = greedy mid last s.
Proof.
  revert s. induction mid as [|p mid IH]; intros s; [done|]. cbn [app glob_rest greedy].
  destruct (mid ++ [last]) as [|q l] eqn:E; [by destruct mid|]. destruct (Index s p); [|done]. apply IH.
Qed.

(** The third wildcard matcher of the code base decides the same meaning. *)
Lemma log_glob_correct pattern s : log_glob pattern s = true ↔ glob pattern s.
Proof.
  unfold log_glob. destruct (Contains pattern "*") eqn:E; cbn [negb].
  - destruct (Split_many _ _ E) as (p & mid & last & Hs).
    pose proof (Join_Split pattern star) as Hj. pose proof (Split_lacks pattern star) as Hl.
    unfold star in *. rewrite Hs in Hj, Hl |- *.
    assert (glob pattern s ↔ placed (p :: mid ++ [last]) s) as ->.
    { rewrite <-Hj. by apply glob_placed. }
    rewrite placed_greedy, glob_rest_greedy. destruct (HasPrefix s p); simpl; intuition done.
  - rewrite String.eqb_eq. apply lacks_Contains in E.
    pose proof (glob_placed [pattern] s) as Hp. cbn in Hp. rewrite Hp by (done || by repeat constructor). intuition done.
Qed.

(** ** What is kept *)

Section ParseProps.
  Context {O : MapOrder}.
  Context (UnmarshalEvent : string → option apiEvent) (UnmarshalDryRun : string → option (list string)).
  Local Abbreviation Parse_ := (Parse UnmarshalEvent UnmarshalDryRun).

Lemma find_unique {A} (p : A → bool) l x :
  (∀ y, y ∈ l → p y = true → y = x) → x ∈ l → p x = true → List.find p l = Some x.
Proof.
  intros Hu Hx Hp. destruct (List.find p l) as [y|] eqn:E.
  - apply find_some in E as [Hy%list_elem_of_In Hpy]. f_equal. auto.
  - apply find_none with (x := x) in E; [congruence|]. by apply list_elem_of_In.
Qed.

(** The webhook answers each admission request with its id as an audit
    annotation; the API server logs it under the name of the webhook. The line
    is then kept whatever the filter, and carries the id back. *)
Lemma Parse_event_id f line now a ref kind webhook id :
  UnmarshalEvent line = Some a → A_ObjectRef a = Some ref → O_Resource ref ≠ "" →
  eventKind (A_Verb a) (O_Subresource ref) = Some kind → stage_ok (A_Stage a) kind = true →
  A_Annotations a !! (webhook +:+ "/" +:+ EventIDAnnotation) = Some id → id ≠ "" →
  (∀ k v, A_Annotations a !! k = Some v → HasSuffix k ("/" +:+ EventIDAnnotation) = true → k = webhook +:+ "/" +:+ EventIDAnnotation) →
  ∃ ev, Parse_ f line now = Some {| Rec_EventUID := id; Rec_Event := ev |} ∧ W_AuditID ev = A_AuditID a.
Proof.
  intros Hl Hr Hres Hk Hs Hid Hne Hu. unfold Parse, parse_event. rewrite Hl, Hr, Hk, Hs.
  destruct (String.eqb_spec (O_Resource ref) ""); [done|]. cbn [negb].
  assert (event_uid a = Some id) as ->; [|by eexists].
  unfold event_uid. set (k := webhook +:+ "/" +:+ EventIDAnnotation) in *.
  erewrite (find_unique _ _ (k, id)); [done| | |].
  - intros [k' v'] Hin Hp. rewrite map_order_perm, elem_of_map_to_list in Hin. cbn [fst snd] in Hp. bool_hyps.
    pose proof (Hu k' v' Hin H) as ->. congruence.
  - rewrite map_order_perm. by apply elem_of_map_to_list.
  - cbn [fst snd]. apply andb_true_intro. split.
    + apply HasSuffix_spec. by exists webhook.
    + destruct (String.eqb_spec id ""); done.
Qed.

(** Every finished change of a webhook configuration is kept, whoever made it. *)
Lemma Parse_keeps_webhook_changes line now a ref kind :
  UnmarshalEvent line = Some a → A_ObjectRef a = Some ref → watchedResources (O_Resource ref) = true →
  O_Subresource ref = "" → eventKind (A_Verb a) "" = Some kind → isRead kind = false →
  A_Stage a = "ResponseComplete" → (status_code a < 400)%Z →
  ∃ r, Parse_ DefaultFilter line now = Some r ∧ W_Resource (Rec_Event r) = O_Resource ref
       ∧ W_User (Rec_Event r) = Username (A_User a) ∧ W_Allowed (Rec_Event r) = true.
Proof.
  intros Hl Hr Hw Hsub Hk Hread Hst Hcode. unfold Parse, parse_event. rewrite Hl, Hr, Hsub, Hk, Hst.
  assert (W_Allowed (base_event UnmarshalDryRun a ref kind now) = true) as Hall by (by apply Z.ltb_lt).
  destruct (String.eqb_spec (O_Resource ref) "") as [E|_]; [by rewrite E in Hw|]. cbn [stage_ok String.eqb orb negb].
  unfold stage_ok. simpl. destruct (event_uid a); [by eexists|]. unfold keep_own. rewrite Hsub, Hread, Hw.
  assert ((400 <=? status_code a)%Z = false) as -> by (apply Z.leb_gt; lia).
  assert ((status_code a <? 400)%Z = true) as -> by (apply Z.ltb_lt; lia). cbn [String.eqb negb andb orb].
  assert (matchAny (DropResources DefaultFilter) (O_Resource ref) = false) as ->; [|by eexists].
  unfold watchedResources in Hw. apply any_true in Hw as (r & Hin & E%String.eqb_eq). rewrite E.
  rewrite !elem_of_cons in Hin. destruct Hin as [->|[->|[]%not_elem_of_nil]]; vm_compute; done.
Qed.
End ParseProps.
