(* ===== verification/LogTail.v ===== *)
(** * sentry-audit/internal/logtail/tail.go: following the API server log

    The tailer reads the lines of the log from where it stopped, sends the
    records in batches, remembers how far the receiver has acknowledged, and
    moves on to the next file when the log was rotated.

    The tailer runs in a changing environment. Every system call and every call
    of the sink happens at a [Moment]: the directory as it is then, and how the
    call turns out. A run consumes a script of moments; when the script ends
    the process is killed. *)

From Stdlib Require Import Ascii.
From stdpp Require Import base list gmap strings sorting.
From S2P Require Import Prelude GoStrings.
Local Open Scope string_scope.
Local Open Scope list_scope.
Local Open Scope go_scope.

(** ** The environment *)

Record Inode := { i_data : string; i_mtime : Time; i_regular : bool }.

(** The directory of the log; a file that is open stays readable. [w_log] is the
    history of the log, the inodes in the order the API server opened them; the
    code does not see it. *)
Record World := { w_names : gmap string Z; w_inodes : gmap Z Inode; w_now : Time; w_log : list Z }.

Inductive sink_result := SinkOk | SinkRejected | SinkFailed.

(** [m_ok]: the call succeeds; [m_renamed]: a failed checkpoint write got as far
    as the rename; [m_cancelled]: the context is done. *)
Record Moment := { m_world : World; m_ok : bool; m_renamed : bool; m_sink : sink_result; m_cancelled : bool }.

Definition stat (w : World) (name : string) : option (Z * Inode) :=
  match w_names w !! name with
  | Some i => (λ d, (i, d)) <$> w_inodes w !! i
  | None => None
  end.

(** ** Constants and data *)

Definition maxLineBytes : nat := Z.to_nat (2 ^ 20).
Definition maxBatch : nat := 200.
Definition readerSize : nat := Z.to_nat (2 ^ 18).
Definition defaultPollInterval : Duration := (5 * Second)%Z.
Definition saveEvery : Duration := (5 * Second)%Z.
Definition maxBackoff : Duration := (30 * Second)%Z.
Definition probeInterval : Duration := (2 * Second)%Z.

Record checkpoint := { cp_Inode : Z; cp_Offset : Z; cp_Mtime : Z }.
#[export] Instance checkpoint_eq_dec : EqDecision checkpoint.
Proof. solve_decision. Defined.

Record logFile := { lf_path : string; lf_inode : Z; lf_mtime : Time; lf_size : nat }.

Record backlog := { b_bytes : nat; b_files : nat; b_rotated : bool; b_headroom : nat }.
Definition no_backlog : backlog := {| b_bytes := 0; b_files := 0; b_rotated := false; b_headroom := 0 |}.

(** ** The files of a log *)

(** [filepath.Ext] of a name. *)
Definition Ext (name : string) : string :=
  match LastIndexByte name "."%char with Some i => sdrop i name | None => "" end.

Definition is_retained (base name : string) : bool :=
  let ext := Ext base in
  let stem := TrimSuffix base ext in
  if (name == base) || HasSuffix name ".gz" then false
  else (HasPrefix name (stem +:+ "-") && (Ext name == ext)) || HasPrefix name (base +:+ ".").

Definition file_le (a b : logFile) : Prop :=
  (lf_mtime a < lf_mtime b)%Z ∨ (lf_mtime a = lf_mtime b ∧ String.leb (lf_path a) (lf_path b) = true).
#[export] Instance file_le_dec : RelDecision file_le.
Proof. intros a b. unfold file_le. apply _. Defined.

Definition log_file (w : World) (base : string) (entry : string * Z) : option logFile :=
  if negb (is_retained base entry.1) then None
  else match w_inodes w !! entry.2 with
       | Some d => if i_regular d then Some {| lf_path := entry.1; lf_inode := entry.2; lf_mtime := i_mtime d;
                                               lf_size := String.length (i_data d) |} else None
       | None => None
       end.

Definition retained (w : World) (base : string) : list logFile :=
  merge_sort file_le (omap (log_file w base) (map_to_list (w_names w))).

(** ** Lines

    [readLine] on the bytes that are left of the file: [ReadSlice] gives the
    bytes up to a newline, a full buffer, or what is there before the end. *)
Inductive slice := Line (chunk : string) | Full (chunk : string) | AtEnd.

Definition newline : ascii := "010"%char.

Definition ReadSlice (rest : string) : slice :=
  match IndexByte (stake readerSize rest) newline with
  | Some i => Line (stake (i + 1) rest)
  | None => if (readerSize <=? String.length rest)%nat then Full (stake readerSize rest) else AtEnd
  end.

(** The line collected so far, without what is too long, and the bytes
    consumed. [None] when the line is not finished. *)
Fixpoint read_chunks (fuel : nat) (rest line : string) (consumed : nat) (tooLong : bool) : option (string * nat) :=
  let add chunk :=
    if tooLong then (line, true)
    else if (maxLineBytes <? String.length line + String.length chunk)%nat then ("", true)
    else (line +:+ chunk, false) in
  match fuel with
  | O => None
  | S fuel' =>
      match ReadSlice rest with
      | Line chunk => Some ((add chunk).1, consumed + String.length chunk)%nat
      | Full chunk => let '(line, tooLong) := add chunk in
                      read_chunks fuel' (sdrop readerSize rest) line (consumed + String.length chunk)%nat tooLong
      | AtEnd => None
      end
  end.

Definition read_line (rest : string) : option (string * nat) := read_chunks (S (String.length rest)) rest "" 0 false.

Section Tail.
  (** The records and the filter's [Parse] (LogRecord), the name of the log
      file and whether there is a state directory. *)
  Context {Rec : Type} (Parse : string → Time → option Rec) (base : string) (stateDir : bool) (poll : Duration)
          (has_probe : bool).

(** ** State *)

Record Stats := { s_Lines : nat; s_Sent : nat; s_Skipped : nat; s_Rejected : nat }.

Record Tailer := {
  t_open : bool;
  t_inode : Z;
  t_offset : nat;
  t_committed : nat;
  t_pending : list Rec;
  t_pendingEnd : nat;
  t_saved : Time;
  t_written : checkpoint;
  t_stats : Stats;
  t_backlog : backlog;
}.

Definition New : Tailer :=
  {| t_open := false; t_inode := 0%Z; t_offset := 0; t_committed := 0; t_pending := []; t_pendingEnd := 0;
     t_saved := 0%Z; t_written := {| cp_Inode := 0%Z; cp_Offset := 0%Z; cp_Mtime := 0%Z |};
     t_stats := {| s_Lines := 0; s_Sent := 0; s_Skipped := 0; s_Rejected := 0 |}; t_backlog := no_backlog |}.

(** What happened: the receiver acknowledged a batch or rejected a record for
    good. The rest marks what the log of events notes about the run and the code
    does not see: a name that meant another file when it was opened, a file that
    could not be opened or read, a file left with the context done. *)
Inductive trouble := Raced | ReopenFailed | CallFailed | Interrupted.
Inductive event := Delivered (batch : list Rec) | Dropped (r : Rec) | Trouble (t : trouble).

Record St := { st_mem : Tailer; st_disk : option checkpoint; st_world : World; st_script : list Moment; st_trace : list event }.

(** ** Running *)

Definition M (A : Type) : Type := St → St * option A.
#[export] Instance M_ret : MRet M := λ A a s, (s, Some a).
#[export] Instance M_bind : MBind M := λ A B k m s,
  let '(s', r) := m s in match r with Some a => k a s' | None => (s', None) end.

Definition tick : M Moment := λ s,
  match st_script s with
  | [] => (s, None)
  | m :: ms => ({| st_mem := st_mem s; st_disk := st_disk s; st_world := m_world m; st_script := ms; st_trace := st_trace s |}, Some m)
  end.
Definition emit (e : event) : M unit := λ s,
  ({| st_mem := st_mem s; st_disk := st_disk s; st_world := st_world s; st_script := st_script s; st_trace := snoc (st_trace s) e |}, Some ()).
Definition get : M Tailer := λ s, (s, Some (st_mem s)).
Definition put (t : Tailer) : M unit := λ s,
  ({| st_mem := t; st_disk := st_disk s; st_world := st_world s; st_script := st_script s; st_trace := st_trace s |}, Some ()).
Definition write_disk (cp : checkpoint) : M unit := λ s,
  ({| st_mem := st_mem s; st_disk := Some cp; st_world := st_world s; st_script := st_script s; st_trace := st_trace s |}, Some ()).
Definition read_disk : M (option checkpoint) := λ s, (s, Some (st_disk s)).

(** Field updates. *)
Definition set_position (t : Tailer) (offset committed : nat) (pending : list Rec) (pendingEnd : nat) (st : Stats) : Tailer :=
  {| t_open := t_open t; t_inode := t_inode t; t_offset := offset; t_committed := committed; t_pending := pending;
     t_pendingEnd := pendingEnd; t_saved := t_saved t; t_written := t_written t; t_stats := st; t_backlog := t_backlog t |}.
Definition set_saved (t : Tailer) (at_ : Time) (cp : checkpoint) : Tailer :=
  {| t_open := t_open t; t_inode := t_inode t; t_offset := t_offset t; t_committed := t_committed t;
     t_pending := t_pending t; t_pendingEnd := t_pendingEnd t; t_saved := at_; t_written := cp; t_stats := t_stats t;
     t_backlog := t_backlog t |}.
Definition set_file (t : Tailer) (open : bool) (inode : Z) (offset : nat) : Tailer :=
  {| t_open := open; t_inode := inode; t_offset := offset; t_committed := offset; t_pending := []; t_pendingEnd := 0;
     t_saved := t_saved t; t_written := t_written t; t_stats := t_stats t; t_backlog := t_backlog t |}.
Definition closed (t : Tailer) : Tailer :=
  {| t_open := false; t_inode := t_inode t; t_offset := t_offset t; t_committed := t_committed t;
     t_pending := t_pending t; t_pendingEnd := t_pendingEnd t; t_saved := t_saved t; t_written := t_written t;
     t_stats := t_stats t; t_backlog := t_backlog t |}.
Definition add_stats (s : Stats) (lines sent skipped rejected : nat) : Stats :=
  {| s_Lines := s_Lines s + lines; s_Sent := s_Sent s + sent; s_Skipped := s_Skipped s + skipped;
     s_Rejected := s_Rejected s + rejected |}.
Definition count (lines sent skipped rejected : nat) : M unit :=
  t ← get; put (set_position t (t_offset t) (t_committed t) (t_pending t) (t_pendingEnd t)
                  (add_stats (t_stats t) lines sent skipped rejected)).
Definition commit_to (n : nat) : M unit :=
  t ← get; put (set_position t (t_offset t) n (t_pending t) (t_pendingEnd t) (t_stats t)).
Definition set_pending (batch : list Rec) (n : nat) : M unit :=
  t ← get; put (set_position t (t_offset t) (t_committed t) batch n (t_stats t)).

(** ** Checkpoints *)

Definition loadCheckpoint (disk : option checkpoint) : option checkpoint :=
  if negb stateDir then None
  else match disk with
       | Some cp => if (cp_Inode cp =? 0)%Z || (cp_Offset cp <? 0)%Z then None else Some cp
       | None => None
       end.

Definition mtime_of (w : World) (i : Z) : Time := match w_inodes w !! i with Some d => i_mtime d | None => 0%Z end.

Definition saveCheckpoint (force : bool) : M unit :=
  t ← get;
  m ← tick;
  if negb stateDir || negb (t_open t) || (negb force && (TSub (w_now (m_world m)) (t_saved t) <? saveEvery)%Z) then mret ()
  else if negb (IsZero (t_saved t)) && (cp_Inode (t_written t) =? t_inode t)%Z
          && (cp_Offset (t_written t) =? Z.of_nat (t_committed t))%Z then mret ()
  else
    let cp := {| cp_Inode := t_inode t; cp_Offset := Z.of_nat (t_committed t);
                 cp_Mtime := mtime_of (m_world m) (t_inode t) |} in
    if m_ok m then write_disk cp ≫= λ _, put (set_saved t (w_now (m_world m)) cp)
    else if m_renamed m then write_disk cp else mret ().

(** ** Opening *)

(** The file after the current one: its path, and the inode it has now. *)
Definition newer (cur : Inode) (inode : Z) (curPath : string) (f : logFile) : bool :=
  negb (lf_inode f =? inode)%Z
  && (After (lf_mtime f) (i_mtime cur)
      || ((curPath != "") && (lf_mtime f =? i_mtime cur)%Z && negb (String.leb (lf_path f) curPath))).

Definition successor_in (w : World) (cur : Inode) (inode : Z) : string :=
  let files := retained w base in
  let curPath := match find_last (λ f, (lf_inode f =? inode)%Z) files with Some f => lf_path f | None => "" end in
  match List.find (newer cur inode curPath) files with Some f => lf_path f | None => base end.

Definition successor : M (string * option Z) :=
  t ← get;
  m1 ← tick;
  match (if m_ok m1 then w_inodes (m_world m1) !! t_inode t else None) with
  | None => emit (Trouble CallFailed) ≫= λ _, mret (base, w_names (m_world m1) !! base)
  | Some cur =>
      m2 ← tick;
      if m_ok m2 then let path := successor_in (m_world m2) cur (t_inode t) in mret (path, w_names (m_world m2) !! path)
      else emit (Trouble CallFailed) ≫= λ _, mret (base, w_names (m_world m2) !! base)
  end.

(** Where a checkpoint leads when its file is not the live one. *)
Definition resume_in (w : World) (cp : checkpoint) : string * nat :=
  let files := retained w base in
  match List.find (λ f, (lf_inode f =? cp_Inode cp)%Z && (cp_Offset cp <=? Z.of_nat (lf_size f))%Z) files with
  | Some f => (lf_path f, Z.to_nat (cp_Offset cp))
  | None =>
      if (cp_Mtime cp =? 0)%Z then (base, 0%nat)
      else match List.find (λ f, negb (Before (lf_mtime f) (cp_Mtime cp))) files with
           | Some f => (lf_path f, 0%nat)
           | None => (base, 0%nat)
           end
  end.

(** The path, the offset and the inode the path has now; [None] is an error. *)
Definition start : M (option (string * nat * option Z)) :=
  m1 ← tick;
  match (if m_ok m1 then stat (m_world m1) base else None) with
  | None => mret None
  | Some (live, d) =>
      m2 ← tick;
      disk ← read_disk;
      (if m_ok m2 || negb stateDir then mret () else emit (Trouble CallFailed)) ≫= λ _,
      match (if m_ok m2 then loadCheckpoint disk else None) with
      | None => mret (Some (base, String.length (i_data d), Some live))
      | Some cp =>
          if (cp_Inode cp =? live)%Z then
            mret (Some (base, if (cp_Offset cp <=? Z.of_nat (String.length (i_data d)))%Z then Z.to_nat (cp_Offset cp) else 0%nat,
                        Some live))
          else
            m3 ← tick;
            if m_ok m3 then let '(path, offset) := resume_in (m_world m3) cp in
                            mret (Some (path, offset, w_names (m_world m3) !! path))
            else emit (Trouble CallFailed) ≫= λ _, mret (Some (base, 0%nat, w_names (m_world m3) !! base))
      end
  end.

Definition open_at (path : string) (offset : nat) (expected : option Z) : M bool :=
  m ← tick;
  match (if m_ok m then stat (m_world m) path else None) with
  | None => mret false
  | Some (i, d) =>
      (if bool_decide (expected = Some i) then mret () else emit (Trouble Raced)) ≫= λ _,
      t ← get;
      put (set_file t true i (if (String.length (i_data d) <? offset)%nat then 0%nat else offset)) ≫= λ _,
      saveCheckpoint true ≫= λ _, mret true
  end.

Definition open (first : bool) : M bool :=
  t ← get;
  if first then
    r ← start;
    match r with None => mret false | Some (path, offset, expected) => open_at path offset expected end
  else if t_open t then
    '(path, expected) ← successor; open_at path 0 expected
  else
    m ← tick; open_at base 0 (w_names (m_world m) !! base).

(** ** Reading and sending *)

Definition readLine : M (option string) :=
  t ← get;
  m ← tick;
  match w_inodes (m_world m) !! t_inode t with
  | None => mret None
  | Some d =>
      match read_line (sdrop (t_offset t) (i_data d)) with
      | None => mret None
      | Some (line, consumed) =>
          put (set_position t (t_offset t + consumed) (t_committed t) (t_pending t) (t_pendingEnd t)
                 (add_stats (t_stats t) 1 0 0 0)) ≫= λ _, mret (Some line)
      end
  end.

(** [send]: a rejected batch is halved until the rejected record is alone. *)
Fixpoint send_ (fuel : nat) (batch : list Rec) : M bool :=
  match fuel with
  | O => λ s, (s, None)
  | S fuel' =>
      m ← tick;
      match m_sink m with
      | SinkOk => emit (Delivered batch) ≫= λ _, count 0 (length batch) 0 0 ≫= λ _, mret true
      | SinkFailed => mret false
      | SinkRejected =>
          match batch with
          | [r] => emit (Dropped r) ≫= λ _, count 0 0 0 1 ≫= λ _, mret true
          | _ => let mid := (length batch / 2)%nat in
                 ok ← send_ fuel' (take mid batch);
                 if negb ok then mret false else send_ fuel' (drop mid batch)
          end
      end
  end.
Definition send (batch : list Rec) : M bool := send_ (length batch) batch.

Definition flush (batch : list Rec) : M bool :=
  t ← get;
  match batch with
  | [] => commit_to (t_offset t) ≫= λ _, saveCheckpoint false ≫= λ _, mret true
  | _ =>
      ok ← send batch;
      if negb ok then set_pending batch (t_offset t) ≫= λ _, mret false
      else commit_to (t_offset t) ≫= λ _, saveCheckpoint false ≫= λ _, mret true
  end.

Inductive drained := DrainErr | DrainDone | DrainCancelled.
#[export] Instance drained_eq_dec : EqDecision drained.
Proof. solve_decision. Defined.

Fixpoint drain_loop (fuel : nat) (batch : list Rec) : M drained :=
  match fuel with
  | O => λ s, (s, None)
  | S fuel' =>
      m ← tick;
      if m_cancelled m then ok ← flush batch; mret (if ok : bool then DrainCancelled else DrainErr)
      else
        l ← readLine;
        match l with
        | None => ok ← flush batch; mret (if ok : bool then DrainDone else DrainErr)
        | Some line =>
            t ← get;
            match Parse line (w_now (m_world m)) with
            | None =>
                count 0 0 1 0 ≫= λ _,
                (match batch with [] => commit_to (t_offset t) | _ => mret () end) ≫= λ _, drain_loop fuel' batch
            | Some rec =>
                let batch := snoc batch rec in
                if (length batch =? maxBatch)%nat then
                  ok ← flush batch; if ok : bool then drain_loop fuel' [] else mret DrainErr
                else drain_loop fuel' batch
            end
        end
  end.

(** The batch that failed last time goes first. *)
Definition send_pending : M bool :=
  t ← get;
  match t_pending t with
  | [] => mret true
  | batch =>
      ok ← send batch;
      if negb ok then mret false
      else commit_to (t_pendingEnd t) ≫= λ _, set_pending [] 0 ≫= λ _, saveCheckpoint false ≫= λ _, mret true
  end.

(** As many turns as there are moments left. *)
Definition drain_lines : M drained := λ s, drain_loop (S (length (st_script s))) [] s.

Definition drain : M drained :=
  ok ← send_pending; if negb ok then mret DrainErr else drain_lines.

(** ** Rotation *)

Definition rotated : M bool :=
  t ← get;
  m ← tick;
  mret match (if m_ok m then stat (m_world m) base else None) with
       | None => false
       | Some (i, d) => negb (i =? t_inode t)%Z || (String.length (i_data d) <? t_offset t)%nat
       end.

(** The body of the loop of [Run] once the file was drained again: open the next
    file and drain it. *)
Definition reopen (continue : M bool) : M bool :=
  ok ← open false;
  if negb ok then emit (Trouble ReopenFailed) ≫= λ _, t ← get; put (closed t) ≫= λ _, mret true
  else
    d ← drain;
    if bool_decide (d = DrainErr) then mret false else continue.

(** The loop of [Run] after a drain: [false] is an error. *)
Fixpoint catch_up (fuel : nat) : M bool :=
  match fuel with
  | O => λ s, (s, None)
  | S fuel' =>
      rot ← rotated;
      if negb rot then mret true
      else
        d ← drain;
        match d with
        | DrainErr => mret false
        | DrainCancelled => emit (Trouble Interrupted) ≫= λ _, reopen (catch_up fuel')
        | DrainDone => reopen (catch_up fuel')
        end
  end.

Definition catch_up_all : M bool := λ s, catch_up (S (length (st_script s))) s.

(** [measure]: how much is left to read. *)
Definition measure_in (w : World) (t : Tailer) : backlog :=
  if negb (t_open t) then no_backlog
  else match w_inodes w !! t_inode t with
       | None => t_backlog t
       | Some cur =>
           let own := (String.length (i_data cur) - t_committed t)%nat in
           let files := if (0 <? own)%nat then 1%nat else 0%nat in
           let live := stat w base in
           if match live with Some (i, _) => (i =? t_inode t)%Z | None => false end
           then {| b_bytes := own; b_files := files; b_rotated := false; b_headroom := 0 |}
           else
             let behind f := negb (lf_inode f =? t_inode t)%Z && After (lf_mtime f) (i_mtime cur) in
             let after := List.filter behind (retained w base) in
             let last := match live with Some (_, d) => String.length (i_data d) | None => 0%nat end in
             {| b_bytes := own + sum_list (map lf_size after) + last;
                b_files := files + length after + match live with Some _ => 1 | None => 0 end;
                b_rotated := true;
                b_headroom := length (List.filter (λ f, negb (behind f)) (retained w base)) |}
       end.

Definition measure : M unit :=
  m ← tick; t ← get;
  put {| t_open := t_open t; t_inode := t_inode t; t_offset := t_offset t; t_committed := t_committed t;
         t_pending := t_pending t; t_pendingEnd := t_pendingEnd t; t_saved := t_saved t; t_written := t_written t;
         t_stats := t_stats t; t_backlog := if m_ok m then measure_in (m_world m) t else t_backlog t |}.

(** ** The loop *)

Record Retry := { r_backoff : Duration; r_retryAt : Time; r_probedAt : Time }.

Definition probe_step (r : Retry) : M Retry :=
  t ← get;
  m ← tick;
  let now := w_now (m_world m) in
  if t_open t && has_probe && Before now (r_retryAt r) && (probeInterval <=? TSub now (r_probedAt r))%Z then
    m' ← tick;
    mret {| r_backoff := r_backoff r; r_retryAt := if m_ok m' then 0%Z else r_retryAt r; r_probedAt := now |}
  else mret r.

Definition next_backoff (b : Duration) : Duration := Z.min (Z.max (2 * b) poll) maxBackoff.

Definition deliver_step (r : Retry) : M Retry :=
  t ← get;
  m ← tick;
  if negb (t_open t) || Before (w_now (m_world m)) (r_retryAt r) then mret r
  else
    d ← drain;
    ok ← (if bool_decide (d = DrainErr) then mret false else catch_up_all);
    m' ← tick;
    let r := if ok : bool then {| r_backoff := 0%Z; r_retryAt := r_retryAt r; r_probedAt := r_probedAt r |}
             else if m_cancelled m' then r
             else {| r_backoff := next_backoff (r_backoff r);
                     r_retryAt := TAdd (w_now (m_world m')) (next_backoff (r_backoff r)); r_probedAt := r_probedAt r |} in
    saveCheckpoint false ≫= λ _, mret r.

(** One turn of [Run]: [first] is whether no file has been opened yet. *)
Definition turn (first : bool) (r : Retry) : M (bool * Retry) :=
  t ← get;
  first ← (if t_open t then mret first else ok ← open first; mret (if ok : bool then false else first));
  r ← probe_step r;
  r ← deliver_step r;
  measure ≫= λ _, mret (first, r).

Fixpoint Run_ (fuel : nat) (first : bool) (r : Retry) : M unit :=
  match fuel with
  | O => λ s, (s, None)
  | S fuel' =>
      '(first, r) ← turn first r;
      m ← tick;
      if m_cancelled m then saveCheckpoint true else Run_ fuel' first r
  end.

Definition Run : M unit := λ s,
  Run_ (S (length (st_script s))) true {| r_backoff := 0%Z; r_retryAt := 0%Z; r_probedAt := 0%Z |} s.
End Tail.
