(* ===== verification/LogTailLines.v ===== *)
(** * Lines of a log file

    [split_lines] is the meaning of a log file: its finished lines and what is
    left. Reading in buffer-sized chunks finds exactly the first finished line,
    with lines over the limit blanked. *)

From Stdlib Require Import Ascii.
From stdpp Require Import base list strings gmap sorting.
From S2P Require Import Prelude GoStrings LogTail.
Local Open Scope string_scope.
Local Open Scope list_scope.

(** The finished lines, each with its newline, and the rest. *)
Fixpoint split_lines (s : string) : list string * string :=
  match s with
  | EmptyString => ([], "")
  | String a s' =>
      let '(ls, r) := split_lines s' in
      if Ascii.eqb a newline then (String a "" :: ls, r)
      else match ls with
           | l :: ls' => (String a l :: ls', r)
           | [] => ([], String a r)
           end
  end.

Lemma split_lines_app s t :
  (split_lines s).2 = "" → split_lines (s +:+ t) = ((split_lines s).1 ++ (split_lines t).1, (split_lines t).2).
Proof.
  induction s as [|a s IH]; intros Hs; simpl in *; [by destruct (split_lines t)|].
  destruct (split_lines s) as [ls r]. simpl in *.
  destruct (Ascii.eqb a newline); simpl in *; [by rewrite IH by done|].
  destruct ls as [|l ls]; simpl in *; [done|]. by rewrite IH.
Qed.

Lemma split_lines_cons s l ls r :
  split_lines s = (l :: ls, r) → ∃ t, s = l +:+ t ∧ split_lines t = (ls, r) ∧ split_lines l = ([l], "").
Proof.
  revert l ls r. induction s as [|a s IH]; intros l ls r; simpl; [done|].
  destruct (split_lines s) as [ls' r'] eqn:E. destruct (Ascii.eqb a newline) eqn:Ea.
  - intros [= <- <- <-]. exists s. simpl. by rewrite Ea.
  - destruct ls' as [|l' ls']; [done|]. intros [= <- <- <-]. destruct (IH _ _ _ eq_refl) as (t & -> & Ht & Hl).
    exists t. split_and!; [done|done|]. simpl. by rewrite Hl, Ea.
Qed.

(** Where the first finished line ends. *)
Lemma split_lines_index s :
  (split_lines s).1 = match IndexByte s newline with
                      | Some i => stake (i + 1) s :: (split_lines (sdrop (i + 1) s)).1
                      | None => []
                      end.
Proof.
  induction s as [|a s IH]; simpl; [done|]. destruct (split_lines s) as [ls r] eqn:E. simpl in IH.
  destruct (Ascii.eqb a newline); simpl; [by destruct s; rewrite ?E|].
  destruct (IndexByte s newline) as [i|]; simpl; subst ls; done.
Qed.

(** ** Reading *)

Lemma IndexByte_stake n s c :
  IndexByte (stake n s) c = match IndexByte s c with Some i => if (i <? n)%nat then Some i else None | None => None end.
Proof.
  revert n. induction s as [|a s IH]; intros [|n]; simpl; try done.
  - by destruct (Ascii.eqb a c); [|destruct (IndexByte s c)].
  - destruct (Ascii.eqb a c); [done|]. rewrite IH. destruct (IndexByte s c) as [i|]; simpl; [|done].
    destruct (Nat.ltb_spec i n), (Nat.ltb_spec (S i) (S n)); done || lia.
Qed.

Lemma IndexByte_sdrop n s c i : IndexByte s c = Some i → (n ≤ i)%nat → IndexByte (sdrop n s) c = Some (i - n)%nat.
Proof.
  revert n i. induction s as [|a s IH]; intros [|n] i; simpl; try done.
  - by intros -> ?; rewrite Nat.sub_0_r.
  - destruct (Ascii.eqb a c); [intros [= <-]; lia|]. destruct (IndexByte s c) as [j|] eqn:E; [|done].
    intros [= <-] Hn. rewrite (IH n j); [done|done|lia].
Qed.

Lemma IndexByte_sdrop_None n s c : IndexByte s c = None → IndexByte (sdrop n s) c = None.
Proof.
  revert n. induction s as [|a s IH]; intros [|n]; simpl; try done.
  destruct (Ascii.eqb a c); [done|]. destruct (IndexByte s c); [done|]. auto.
Qed.

Lemma IndexByte_length s c i : IndexByte s c = Some i → (i < String.length s)%nat.
Proof.
  revert i. induction s as [|a s IH]; intros i; simpl; [done|]. destruct (Ascii.eqb a c); [intros [= <-]; lia|].
  destruct (IndexByte s c) as [j|]; [|done]. intros [= <-]. specialize (IH j eq_refl). lia.
Qed.

Lemma stake_all n s : (String.length s ≤ n)%nat → stake n s = s.
Proof. revert n. induction s as [|a s IH]; intros [|n]; simpl; intros H; try done; try lia. by rewrite IH by lia. Qed.

Lemma readerSize_pos : (0 < readerSize)%nat.
Proof. unfold readerSize. change (Z.to_nat (2 ^ 18)) with (Z.to_nat 262144). lia. Qed.
#[global] Opaque maxLineBytes readerSize.

Definition line_view (l : string) : string := if (maxLineBytes <? String.length l)%nat then "" else l.

Lemma read_chunks_spec fuel rest line consumed (tooLong : bool) :
  (String.length rest < fuel)%nat → (tooLong = true → line = "") →
  read_chunks fuel rest line consumed tooLong
  = match IndexByte rest newline with
    | None => None
    | Some i => Some (if tooLong || (maxLineBytes <? String.length line + (i + 1))%nat then ""
                      else line +:+ stake (i + 1) rest, consumed + (i + 1))%nat
    end.
Proof.
  revert rest line consumed tooLong. induction fuel as [|fuel IH]; intros rest line consumed tooLong Hf Ht; [lia|].
  cbn [read_chunks]. unfold ReadSlice. rewrite IndexByte_stake. pose proof readerSize_pos as HN.
  destruct (IndexByte rest newline) as [i|] eqn:Ei.
  - pose proof (IndexByte_length _ _ _ Ei). destruct (Nat.ltb_spec i readerSize) as [Hi|Hi].
    + rewrite length_stake by lia. destruct tooLong; [by rewrite Ht|]. simpl. by case_if.
    + destruct (Nat.leb_spec readerSize (String.length rest)); [|lia].
      rewrite length_stake by done.
      assert (i + 1 = readerSize + (i - readerSize + 1))%nat as Hsplit by lia.
      assert (consumed + readerSize + (i - readerSize + 1) = consumed + (i + 1))%nat as Hsum by lia.
      destruct tooLong; [rewrite Ht by done|].
      * rewrite IH by (rewrite ?length_sdrop; lia || done). rewrite (IndexByte_sdrop _ _ _ i) by done. simpl. by rewrite Hsum.
      * simpl. destruct (Nat.ltb_spec maxLineBytes (String.length line + readerSize)) as [Hm|Hm]; simpl;
          rewrite IH by (rewrite ?length_sdrop; lia || done); rewrite (IndexByte_sdrop _ _ _ i) by done; simpl; rewrite Hsum.
        -- destruct (Nat.ltb_spec maxLineBytes (String.length line + (i + 1))); [done|lia].
        -- rewrite length_app_s, length_stake by done.
           rewrite app_assoc_s, <- stake_add, <- Hsplit.
           by replace (String.length line + readerSize + (i - readerSize + 1))%nat with (String.length line + (i + 1))%nat by lia.
  - destruct (Nat.leb_spec readerSize (String.length rest)) as [Hl|Hl]; [|done].
    destruct (if tooLong then _ else _) as [line' tooLong'] eqn:E.
    rewrite IH; [by rewrite IndexByte_sdrop_None|rewrite length_sdrop; lia|].
    intros ->. destruct tooLong; [injection E as <-; auto|]. simpl in E.
    destruct (_ <? _)%nat; by injection E as <-.
Qed.

(** Reading finds the first finished line. *)
Lemma read_line_spec rest :
  read_line rest = match (split_lines rest).1 with [] => None | l :: _ => Some (line_view l, String.length l) end.
Proof.
  unfold read_line. rewrite read_chunks_spec by (lia || done). rewrite split_lines_index.
  destruct (IndexByte rest newline) as [i|] eqn:Ei; [|done]. apply IndexByte_length in Ei.
  unfold line_view. rewrite length_stake by lia. simpl. by case_if.
Qed.

(** After the line comes the rest. *)
Lemma split_lines_next rest l ls :
  (split_lines rest).1 = l :: ls →
  stake (String.length l) rest = l ∧ (split_lines (sdrop (String.length l) rest)).1 = ls ∧ split_lines l = ([l], "")
  ∧ (String.length l ≤ String.length rest)%nat ∧ (0 < String.length l)%nat.
Proof.
  destruct (split_lines rest) as [ls' r] eqn:E. simpl. intros ->.
  destruct (split_lines_cons _ _ _ _ E) as (t & -> & Ht & Hl). rewrite stake_app, sdrop_app, Ht, length_app_s.
  split_and!; [done|done|done|lia|]. destruct l; simpl; [done|lia].
Qed.

(** * The rotated files of a log

    [retained] lists them by time and name, and [successor_in] finds the one
    after the current file. *)



Lemma string_leb_trans s t u : String.leb s t = true → String.leb t u = true → String.leb s u = true.
Proof.
  unfold String.leb. revert t u. induction s as [|a s IH]; intros [|b t] [|c u]; simpl; try done.
  unfold Ascii.compare.
  destruct (N.compare_spec (N_of_ascii a) (N_of_ascii b)) as [E1|E1|E1],
           (N.compare_spec (N_of_ascii b) (N_of_ascii c)) as [E2|E2|E2],
           (N.compare_spec (N_of_ascii a) (N_of_ascii c)) as [E3|E3|E3]; try done; try lia. apply IH.
Qed.

#[export] Instance file_le_trans : Transitive file_le.
Proof.
  intros a b c [H1|[H1 H1']] [H2|[H2 H2']]; unfold file_le; [left; lia..|]. right. split; [lia|]. by eapply string_leb_trans.
Qed.
#[export] Instance file_le_total : Total file_le.
Proof.
  intros a b. unfold file_le. destruct (Z.lt_total (lf_mtime a) (lf_mtime b)) as [H|[H|H]]; [tauto| |tauto].
  destruct (String.leb_total (lf_path a) (lf_path b)) as [E|E]; [by auto|right; right; by rewrite E].
Qed.

Lemma retained_sorted w base : StronglySorted file_le (retained w base).
Proof. apply StronglySorted_merge_sort; apply _. Qed.

Lemma HasPrefix_empty s c : HasPrefix "" (s +:+ String c "") = false.
Proof. by destruct s. Qed.

Lemma elem_of_retained w base f :
  f ∈ retained w base →
  w_names w !! lf_path f = Some (lf_inode f)
  ∧ (∃ d, w_inodes w !! lf_inode f = Some d ∧ lf_mtime f = i_mtime d ∧ lf_size f = String.length (i_data d))
  ∧ lf_path f ≠ "".
Proof.
  unfold retained. rewrite merge_sort_Permutation. intros ([name i] & Hin & Hf)%list_elem_of_omap.
  apply elem_of_map_to_list in Hin. unfold log_file in Hf. cbn [fst snd] in Hf.
  destruct (is_retained base name) eqn:Hr; [|done]. cbn [negb] in Hf.
  destruct (w_inodes w !! i) as [d|] eqn:Hd; [|done]. destruct (i_regular d); [|done]. injection Hf as <-. simpl.
  split_and!; [done|by exists d|]. intros ->. unfold is_retained in Hr. rewrite !HasPrefix_empty in Hr.
  by destruct (_ || _) in Hr.
Qed.

Lemma retained_paths w base : NoDup (map lf_path (retained w base)).
Proof.
  unfold retained. rewrite (merge_sort_Permutation file_le). pose proof (NoDup_fst_map_to_list (w_names w)) as Hn.
  induction (map_to_list (w_names w)) as [|[name i] l IH]; simpl in *; [constructor|]. inversion Hn as [|? ? Hx Hn']; subst.
  destruct (log_file w base (name, i)) as [f|] eqn:E; [|auto]. simpl. constructor; [|auto].
  assert (lf_path f = name) as ->.
  { unfold log_file in E. destruct (negb _); [done|]. destruct (w_inodes _ !! _) as [d|]; [|done].
    destruct (i_regular d); [|done]. by injection E as <-. }
  intros Hin. apply Hx. apply list_elem_of_fmap in Hin as (g & -> & Hg). apply list_elem_of_omap in Hg as ([n' i'] & Hin & Hg).
  apply list_elem_of_fmap. exists (n', i'). split; [|done]. simpl. unfold log_file in Hg. destruct (negb _); [done|].
  destruct (w_inodes _ !! _) as [d|]; [|done]. destruct (i_regular d); [|done]. by injection Hg as <-.
Qed.

Lemma find_split {A} (p : A → bool) l1 x l2 :
  Forall (λ y, p y = false) l1 → p x = true → List.find p (l1 ++ x :: l2) = Some x.
Proof. induction 1 as [|y l1 Hy _ IH]; intros Hx; simpl; [by rewrite Hx|]. rewrite Hy. auto. Qed.

(** The file after [f] in the listing, or the live file after the last. *)
Lemma successor_next w base l1 f l2 cur :
  retained w base = l1 ++ f :: l2 → NoDup (map lf_inode (retained w base)) →
  w_inodes w !! lf_inode f = Some cur →
  successor_in base w cur (lf_inode f) = match l2 with g :: _ => lf_path g | [] => base end.
Proof.
  intros Hl Hn Hcur. unfold successor_in.
  assert (∀ g, g ∈ l1 ++ l2 → (lf_inode g =? lf_inode f)%Z = false) as Hne.
  { intros g Hg. apply Z.eqb_neq. intros E. rewrite Hl, map_app in Hn. simpl in Hn.
    rewrite <- Permutation_middle in Hn. inversion Hn as [|? ? Hx _]; subst. apply Hx.
    rewrite <- E, <- map_app. by apply list_elem_of_fmap_2. }
  destruct (elem_of_retained w base f) as (_ & (d & Hd & Hmt & _) & Hpath); [rewrite Hl; apply elem_of_app; right; left|].
  rewrite Hd in Hcur. injection Hcur as ->.
  assert (find_last (λ g, (lf_inode g =? lf_inode f)%Z) (retained w base) = Some f) as ->.
  { rewrite Hl. apply find_last_Some. exists l1, l2. split_and!; [done|by apply Z.eqb_refl|].
    apply Forall_forall. intros g Hg. apply Hne. apply elem_of_app. by right. }
  pose proof (retained_sorted w base) as Hs. pose proof (retained_paths w base) as Hp. rewrite Hl in *.
  apply StronglySorted_app in Hs as (Hlt & _ & Hs2). inversion Hs2 as [|? ? Hs3 Hle]; subst.
  assert (Forall (λ g, newer cur (lf_inode f) (lf_path f) g = false) (l1 ++ [f])) as Hold.
  { apply Forall_app. split; [|constructor; [|constructor]].
    - apply Forall_forall. intros g Hg. unfold newer. assert (file_le g f) as [Hle1|[Hle1 Hle2]] by (apply Hlt; [done|left]).
      + rewrite Hmt in Hle1. assert (After (lf_mtime g) (i_mtime cur) = false) as -> by (apply Z.ltb_ge; lia).
        assert ((lf_mtime g =? i_mtime cur)%Z = false) as -> by (apply Z.eqb_neq; lia). by rewrite andb_false_r, andb_false_r.
      + rewrite Hle2. rewrite Hmt in Hle1. assert (After (lf_mtime g) (i_mtime cur) = false) as -> by (apply Z.ltb_ge; lia).
        by rewrite !andb_false_r.
    - unfold newer. by rewrite Z.eqb_refl. }
  destruct l2 as [|g l2].
  - assert (List.find (newer cur (lf_inode f) (lf_path f)) (l1 ++ [f]) = None) as -> by (by apply find_None). done.
  - change (l1 ++ f :: g :: l2) with (l1 ++ [f] ++ g :: l2). rewrite app_assoc, find_split; [done|done|].
    unfold newer. rewrite Hne by (apply elem_of_app; right; left). simpl.
    inversion Hle as [|? ? [H1|[H1 H2]] _]; subst.
    + assert (After (lf_mtime g) (i_mtime cur) = true) as -> by (apply Z.ltb_lt; lia). done.
    + assert ((lf_mtime g =? i_mtime cur)%Z = true) as -> by (apply Z.eqb_eq; lia).
      destruct (String.eqb_spec (lf_path f) ""); [done|]. simpl.
      destruct (String.leb (lf_path g) (lf_path f)) eqn:E; [|by rewrite orb_true_r].
      exfalso. rewrite map_app in Hp. apply NoDup_app in Hp as (_ & _ & Hp). simpl in Hp.
      inversion Hp as [|? ? Hx _]; subst. apply Hx. rewrite (String.leb_antisym _ _ H2 E). left.
Qed.
