(* ===== verification/LogTailProps.v ===== *)
(** * Nothing is lost between the log and the receiver

    Whatever happens to the process, the files and the receiver: the lines the
    checkpoint has passed were acknowledged, rejected or not of interest. *)

From Stdlib Require Import Ascii.
From stdpp Require Import base list gmap strings sorting.
From S2P Require Import Prelude GoStrings LogTail LogTailLines.
Local Open Scope string_scope.
Local Open Scope list_scope.

Create HintDb tail.

Section Safe.
  Context {Rec : Type} (Parse : string → Time → option Rec) (base : string) (poll : Duration) (has_probe : bool).
  (** Where the first file of the log was left when the story begins. *)
  Context (origin : nat).
  Local Abbreviation St_ := (St (Rec := Rec)).
  Local Abbreviation M_ := (M (Rec := Rec)).

(** ** How the log behaves *)

Definition live (w : World) : list Z := match w_names w !! base with Some i => [i] | None => [] end.
Definition order (w : World) : list Z := map lf_inode (retained w base) ++ live w.
Definition data (w : World) (i : Z) : string := match w_inodes w !! i with Some d => i_data d | None => "" end.

(** The files the directory lists, by time and name, then the live file, end in
    the files of the log in the order they were opened. *)
Record wf (w : World) : Prop := {
  wf_order : ∃ older, order w = older ++ w_log w;
  wf_nodup : NoDup (order w);
  wf_data : ∀ i, i ∈ w_log w → is_Some (w_inodes w !! i);
  wf_nonzero : 0%Z ∉ w_log w;
}.

(** Files are opened at the end of the log, the live file grows, and a file that
    is no longer live does not change. *)
Record evolves (w w' : World) : Prop := {
  ev_log : w_log w `prefix_of` w_log w';
  ev_grow : ∀ i, i ∈ w_log w → ∃ t, data w' i = data w i +:+ t;
  ev_still : ∀ i, i ∈ w_log w → i ∉ live w → w_inodes w' !! i = w_inodes w !! i;
}.

Fixpoint chain (w : World) (ms : list Moment) : Prop :=
  match ms with [] => True | m :: ms' => evolves w (m_world m) ∧ wf (m_world m) ∧ chain (m_world m) ms' end.

(** A file of the log that is not its last. *)
Definition frozen (w : World) (i : Z) : Prop := ∃ j, w_log w !! j = Some i ∧ is_Some (w_log w !! S j).

Lemma frozen_not_live w i : wf w → frozen w i → i ∉ live w.
Proof.
  intros [[older Ho] Hn _ _] (j & Hj & [x Hx]) Hl. unfold live in Hl.
  destruct (w_names w !! base) as [b|] eqn:Eb; [|by apply not_elem_of_nil in Hl].
  apply list_elem_of_singleton in Hl as ->. unfold order, live in Ho, Hn. rewrite Eb in Ho, Hn.
  assert (older ++ w_log w = map lf_inode (retained w base) ++ [b]) as Heq by done.
  destruct (exists_last (l := w_log w)) as (l1 & y & Hl1); [by intros E; rewrite E in Hj|].
  rewrite Hl1 in Heq, Hj, Hx. rewrite app_assoc in Heq. apply app_inj_tail in Heq as [Hm ->].
  rewrite <- Hm in Hn. rewrite <- app_assoc in Hn. apply NoDup_app in Hn as (_ & _ & Hn).
  pose proof (lookup_lt_Some _ _ _ Hx) as Hlt. rewrite length_app in Hlt. simpl in Hlt.
  rewrite lookup_app_l in Hj by lia. apply NoDup_app in Hn as (_ & Hn & _).
  eapply Hn; [by eapply list_elem_of_lookup_2|by apply list_elem_of_singleton].
Qed.

Lemma evolves_lookup w w' k i : evolves w w' → w_log w !! k = Some i → w_log w' !! k = Some i.
Proof. intros [H _ _] Hk. by eapply prefix_lookup_Some. Qed.

Lemma frozen_evolves w w' i : evolves w w' → frozen w i → frozen w' i.
Proof.
  intros He (j & Hj & [x Hx]). exists j. split; [by eapply evolves_lookup|]. exists x. by eapply evolves_lookup.
Qed.

Lemma frozen_same w w' i : wf w → evolves w w' → frozen w i → w_inodes w' !! i = w_inodes w !! i.
Proof.
  intros Hw He Hf. apply (ev_still _ _ He); [|by apply frozen_not_live].
  destruct Hf as (j & Hj & _). by eapply list_elem_of_lookup_2.
Qed.

(** ** What has been done *)

Definition handled (tr : list (event (Rec := Rec))) (r : Rec) : Prop :=
  ∃ e, e ∈ tr ∧ match e with Delivered b => r ∈ b | Dropped r' => r' = r | Trouble _ => False end.

(** A line is covered when it gives no record, or one that was handled or is in
    the batch. *)
Definition covered (tr : list event) (batch : list Rec) (l : string) : Prop :=
  ∃ now, match Parse (line_view l) now with None => True | Some r => handled tr r ∨ r ∈ batch end.

Lemma handled_more tr tr' r : tr `prefix_of` tr' → handled tr r → handled tr' r.
Proof. intros [x ->] (e & He & H). exists e. split; [|done]. apply elem_of_app. by left. Qed.

Lemma covered_more tr tr' b b' l :
  tr `prefix_of` tr' → (∀ r, r ∈ b → handled tr' r ∨ r ∈ b') → covered tr b l → covered tr' b' l.
Proof.
  intros Ht Hb (now & H). exists now. destruct (Parse _ now) as [r|]; [|done].
  destruct H as [H|H]; [left; by eapply handled_more|auto].
Qed.

Definition start_of (k : nat) : nat := if (k =? 0)%nat then origin else 0%nat.

(** All finished lines of a file from [a] on; the lines of a file from [a] to [b]. *)
Definition full (w : World) (tr : list event) (i : Z) (a : nat) : Prop :=
  (a ≤ String.length (data w i))%nat ∧ Forall (covered tr []) (split_lines (sdrop a (data w i))).1.
Definition part (w : World) (tr : list event) (batch : list Rec) (i : Z) (a b : nat) : Prop :=
  (a ≤ b ≤ String.length (data w i))%nat
  ∧ (split_lines (stake (b - a) (sdrop a (data w i)))).2 = ""
  ∧ Forall (covered tr batch) (split_lines (stake (b - a) (sdrop a (data w i)))).1.

(** The log up to byte [c] of its file [k]. *)
Definition done_to (w : World) (tr : list event) (k c : nat) : Prop :=
  (∀ j i, (j < k)%nat → w_log w !! j = Some i → full w tr i (start_of j))
  ∧ ∃ i, w_log w !! k = Some i ∧ part w tr [] i (start_of k) c.

Lemma sdrop_app_le n s t : (n ≤ String.length s)%nat → sdrop n (s +:+ t) = sdrop n s +:+ t.
Proof.
  revert s. induction n as [|n IH]; intros s H; [done|]. destruct s as [|a s]; simpl in *; [lia|]. apply IH. lia.
Qed.
Lemma part_stable w w' tr tr' b b' i a c :
  i ∈ w_log w → evolves w w' → tr `prefix_of` tr' → (∀ r, r ∈ b → handled tr' r ∨ r ∈ b') →
  part w tr b i a c → part w' tr' b' i a c.
Proof.
  intros Hi He Ht Hb (Hac & H2 & H3). destruct (ev_grow _ _ He i Hi) as [t Hd]. unfold part. rewrite Hd, length_app_s.
  rewrite sdrop_app_le, stake_app_le by (rewrite ?length_sdrop; lia). split_and!; [lia|lia|done|].
  eapply Forall_impl; [exact H3|]. intros l. by apply covered_more.
Qed.

Lemma full_stable w w' tr tr' i a :
  wf w → frozen w i → evolves w w' → tr `prefix_of` tr' → full w tr i a → full w' tr' i a.
Proof.
  intros Hw Hf He Ht [Ha H]. unfold full, data. rewrite (frozen_same w w') by done. split; [done|].
  eapply Forall_impl; [exact H|]. intros l. apply covered_more; [done|]. by intros r ?%not_elem_of_nil.
Qed.

Lemma done_stable w w' tr tr' k c :
  wf w → evolves w w' → tr `prefix_of` tr' → done_to w tr k c → done_to w' tr' k c.
Proof.
  intros Hw He Ht [Hf (i & Hk & Hp)]. split.
  - intros j i' Hj Hi'. pose proof (lookup_lt_Some _ _ _ Hk) as Hlen.
    destruct (lookup_lt_is_Some_2 (w_log w) j) as [x Hx]; [lia|].
    pose proof (evolves_lookup _ _ _ _ He Hx) as Hx'. rewrite Hi' in Hx'. injection Hx' as ->.
    apply (full_stable w w' tr); [done| |done|done|by apply (Hf j)]. exists j. split; [done|]. apply lookup_lt_is_Some_2. lia.
  - exists i. split; [by eapply evolves_lookup|]. eapply part_stable; [by eapply list_elem_of_lookup_2|done|done| |done].
    by intros r ?%not_elem_of_nil.
Qed.

(** A part and the next. *)
Lemma part_app w tr b i x y z : part w tr b i x y → part w tr b i y z → part w tr b i x z.
Proof.
  intros (H1 & H2 & H3) (H4 & H5 & H6). unfold part. split; [lia|].
  replace (z - x)%nat with ((y - x) + (z - y))%nat by lia. rewrite stake_add, <- sdrop_add.
  replace (x + (y - x))%nat with y by lia. rewrite split_lines_app by done. simpl. split; [done|]. by apply Forall_app.
Qed.

Lemma part_nil w tr b i x : (x ≤ String.length (data w i))%nat → part w tr b i x x.
Proof. intros H. unfold part. rewrite Nat.sub_diag. simpl. split_and!; [lia|lia|done|constructor]. Qed.

(** A part up to where no finished line is left. *)
Lemma part_full w tr i x y :
  part w tr [] i x y → (split_lines (sdrop y (data w i))).1 = [] → full w tr i x.
Proof.
  intros (H1 & H2 & H3) H4. split; [lia|]. rewrite <- (stake_sdrop (y - x) (sdrop x (data w i))).
  rewrite split_lines_app by done. simpl. rewrite <- sdrop_add. replace (x + (y - x))%nat with y by lia.
  rewrite H4, app_nil_r. done.
Qed.

(** ** Assertions about a run *)

Local Abbreviation send__ := (send_ (Rec := Rec)).
Local Abbreviation save_ := (saveCheckpoint (Rec := Rec) true).
Local Abbreviation flush_ := (flush (Rec := Rec) true).

Definition dirty (s : St_) : Prop := ∃ t, Trouble t ∈ st_trace s.

Definition disk_ok (s : St_) : Prop :=
  ∃ cp k c, st_disk s = Some cp ∧ w_log (st_world s) !! k = Some (cp_Inode cp) ∧ cp_Offset cp = Z.of_nat c
            ∧ done_to (st_world s) (st_trace s) k c.

(** What holds at every moment, also when the process is killed there. *)
Record I (s : St_) : Prop := {
  I_wf : wf (st_world s);
  I_chain : chain (st_world s) (st_script s);
  I_disk : disk_ok s;
}.

(** The position in memory. *)
Definition core (t : Tailer (Rec := Rec)) := (t_open t, t_inode t, t_offset t, t_committed t, t_pending t, t_pendingEnd t).

(** The file is open at [off], [com] bytes are committed, and the records of the
    lines between are handled or in [b]; [F] is what else is known of the
    directory and stays true. *)
Definition at_file (F : World → Prop) (b : list Rec) (i : Z) (off com : nat) (s : St_) : Prop :=
  ∃ k, w_log (st_world s) !! k = Some i ∧ done_to (st_world s) (st_trace s) k com
       ∧ part (st_world s) (st_trace s) b i com off ∧ F (st_world s).

Definition Pos (F : World → Prop) (b : list Rec) (i : Z) (off com : nat) (p : list Rec) (pe : nat) (s : St_) : Prop :=
  I s ∧ core (st_mem s) = (true, i, off, com, p, pe) ∧ at_file F b i off com s.

(** ** Triples

    [triple P m Q]: from a state in [P], the run ends in trouble, or it is
    killed in a state in [I], or it gives a result in [Q]. *)
Definition triple {A} (P : St_ → Prop) (m : M_ A) (Q : A → St_ → Prop) : Prop :=
  ∀ s, P s → dirty (m s).1 ∨ match (m s).2 with Some a => Q a (m s).1 | None => I (m s).1 end.

(** A program only adds to the trace. *)
Class Grows {A} (m : M_ A) : Prop := grows : ∀ s, st_trace s `prefix_of` st_trace (m s).1.

#[export] Instance grows_ret {A} (a : A) : Grows (mret a).
Proof. intros s. done. Qed.
#[export] Instance grows_bind {A B} (m : M_ A) (k : A → M_ B) : Grows m → (∀ a, Grows (k a)) → Grows (m ≫= k).
Proof.
  intros Hm Hk s. pose proof (Hm s) as H. unfold mbind, M_bind. destruct (m s) as [s' [a|]]; [|done].
  etrans; [exact H|apply (Hk a s')].
Qed.
#[export] Instance grows_tick : Grows tick.
Proof. intros s. unfold tick. by destruct (st_script s). Qed.
#[export] Instance grows_emit e : Grows (emit e).
Proof. intros s. by exists [e]. Qed.
#[export] Instance grows_get : Grows get.
Proof. intros s. done. Qed.
#[export] Instance grows_put t : Grows (put t).
Proof. intros s. done. Qed.
#[export] Instance grows_write cp : Grows (write_disk cp).
Proof. intros s. done. Qed.
#[export] Instance grows_read : Grows read_disk.
Proof. intros s. done. Qed.
#[export] Instance grows_stop {A} : Grows (λ s, (s, @None A)).
Proof. intros s. done. Qed.
#[export] Instance grows_if {A} (b : bool) (m1 m2 : M_ A) : Grows m1 → Grows m2 → Grows (if b then m1 else m2).
Proof. by destruct b. Qed.

Lemma triple_conseq {A} (P P' : St_ → Prop) (m : M_ A) (Q Q' : A → St_ → Prop) :
  triple P' m Q' → (∀ s, P s → P' s) → (∀ a s, Q' a s → Q a s) → triple P m Q.
Proof. intros H HP HQ s Hs. destruct (H s (HP s Hs)) as [H'|H']; [by left|right]. destruct (m s).2; auto. Qed.

Lemma triple_ret {A} (P : St_ → Prop) (a : A) Q : (∀ s, P s → Q a s) → triple P (mret a) Q.
Proof. intros H s Hs. right. simpl. auto. Qed.

Lemma triple_bind {A B} (P : St_ → Prop) (m : M_ A) (k : A → M_ B) Q R :
  triple P m Q → (∀ a, triple (Q a) (k a) R) → (∀ a, Grows (k a)) → triple P (m ≫= k) R.
Proof.
  intros Hm Hk Hg s Hs. specialize (Hm s Hs). unfold mbind, M_bind. destruct (m s) as [s' [a|]]; simpl in *.
  - destruct Hm as [[t Ht]|Hm]; [|by apply Hk]. left. exists t. pose proof (Hg a s') as [x Hx]. rewrite Hx.
    apply elem_of_app. by left.
  - destruct Hm; auto.
Qed.

Lemma triple_pre {A} (P : Prop) (P' : St_ → Prop) (m : M_ A) Q : (P → triple P' m Q) → triple (λ s, P ∧ P' s) m Q.
Proof. intros H s [Hp Hs]. by apply H. Qed.

Lemma triple_get {A} (P : St_ → Prop) (k : _ → M_ A) R :
  (∀ t, triple (λ s, st_mem s = t ∧ P s) (k t) R) → triple P (get ≫= k) R.
Proof. intros H s Hs. unfold mbind, M_bind, get. simpl. by apply H. Qed.

Lemma triple_trouble {A} (P : St_ → Prop) t (k : unit → M_ A) R : (∀ a, Grows (k a)) → triple P (emit (Trouble t) ≫= k) R.
Proof.
  intros Hg s _. left. unfold mbind, M_bind, emit. simpl. exists t.
  match goal with |- context [k tt ?s'] => destruct (Hg tt s') as [x ->] end. simpl.
  apply elem_of_app. left. unfold snoc. apply elem_of_app. right. by apply list_elem_of_singleton.
Qed.

Lemma bind_ret {A B} (a : A) (k : A → M_ B) : mret a ≫= k = k a.
Proof. done. Qed.
Lemma bind_read {B} (k : _ → M_ B) s : (read_disk ≫= k) s = k (st_disk s) s.
Proof. done. Qed.

(** ** Moving to the next moment *)

Definition advance (s : St_) (m : Moment) (ms : list Moment) : St_ :=
  {| st_mem := st_mem s; st_disk := st_disk s; st_world := m_world m; st_script := ms; st_trace := st_trace s |}.

Class WStable (F : World → Prop) : Prop := wstable : ∀ w w', wf w → evolves w w' → F w → F w'.
#[export] Instance wstable_true : WStable (λ _, True).
Proof. by intros w w'. Qed.
#[export] Instance wstable_frozen i : WStable (λ w, frozen w i).
Proof. intros w w' _. apply frozen_evolves. Qed.
#[export] Instance wstable_unread i off : WStable (λ w, frozen w i ∧ (split_lines (sdrop off (data w i))).1 = []).
Proof.
  intros w w' Hw He [Hf Hu]. split; [by eapply frozen_evolves|]. unfold data in *. by rewrite (frozen_same w).
Qed.

Definition stable (P : St_ → Prop) : Prop :=
  ∀ s m ms, I s → evolves (st_world s) (m_world m) → wf (m_world m) → chain (m_world m) ms → P s → P (advance s m ms).

Lemma I_stable : stable I.
Proof.
  intros s m ms [Hw Hc Hd] He Hw' Hc' _. constructor; [done|done|]. destruct Hd as (cp & k & c & H1 & H2 & H3 & H4).
  exists cp, k, c. split_and!; [done|by eapply evolves_lookup|done|]. by apply (done_stable (st_world s) _ (st_trace s)).
Qed.

Lemma at_file_stable F b i off com `{!WStable F} : stable (at_file F b i off com).
Proof.
  intros s m ms [Hw Hc Hd] He Hw' Hc' (k & H1 & H2 & H3 & H4). exists k. split_and!.
  - by eapply evolves_lookup.
  - by apply (done_stable (st_world s) _ (st_trace s)).
  - apply (part_stable (st_world s) _ (st_trace s) _ b); [by eapply list_elem_of_lookup_2|done|done|auto|done].
  - by apply (wstable (F := F) (st_world s)).
Qed.

Lemma Pos_stable F b i off com p pe `{!WStable F} : stable (Pos F b i off com p pe).
Proof.
  intros s m ms Hi He Hw' Hc' (_ & H1 & H2). split_and!; [by apply I_stable|done|by apply at_file_stable].
Qed.

Lemma triple_tick {A} (P : St_ → Prop) (k : Moment → M_ A) R :
  stable P → (∀ s, P s → I s) → (∀ m, triple (λ s, st_world s = m_world m ∧ P s) (k m) R) → triple P (tick ≫= k) R.
Proof.
  intros Hst HI Hk s Hs. unfold mbind, M_bind, tick. destruct (st_script s) as [|m ms] eqn:E; simpl; [right; auto|].
  apply (Hk m). split; [done|]. pose proof (I_chain _ (HI s Hs)) as Hc. rewrite E in Hc.
  destruct Hc as (He & Hw' & Hc'). apply (Hst s m ms); auto.
Qed.

Lemma stable_and (P Q : St_ → Prop) : stable P → stable Q → stable (λ s, P s ∧ Q s).
Proof. intros HP HQ s m ms Hi He Hw Hc [H1 H2]. split; [by apply HP|by apply HQ]. Qed.
Lemma stable_mem t : stable (λ s, st_mem s = t).
Proof. intros s m ms Hi He Hw Hc H. done. Qed.
#[local] Hint Resolve Pos_stable I_stable stable_and stable_mem : tail.
#[local] Hint Extern 1 (I _) => match goal with H : Pos _ _ _ _ _ _ _ _ |- _ => exact (proj1 H) end : tail.
#[local] Hint Extern 1 (WStable _) => apply _ : tail.

(** The triple of one moment for the usual assertion. *)
Local Tactic Notation "tick_step" ident(m) := apply triple_tick; [solve [eauto with tail]|intros ?; try tauto; unfold Pos; tauto|intros m].

(** ** Steps on memory, trace and disk *)

Lemma evolves_refl w : evolves w w.
Proof. constructor; [done|intros i _; exists ""; by rewrite app_nil_r_s|done]. Qed.

Lemma Pos_mem F b i off com p pe s t off' com' p' pe' b' :
  Pos F b i off com p pe s → core t = (true, i, off', com', p', pe') → at_file F b' i off' com' s →
  Pos F b' i off' com' p' pe' (put t s).1.
Proof. intros ([Hw Hc Hd] & _ & _) Ht Ha. split_and!; [by constructor|done|done]. Qed.

Lemma Pos_emit F b b' i off com p pe s e :
  (∀ r, r ∈ b → handled (snoc (st_trace s) e) r ∨ r ∈ b') →
  Pos F b i off com p pe s → Pos F b' i off com p pe (emit e s).1.
Proof.
  intros Hb ([Hw Hc Hd] & Hm & (k & H1 & H2 & H3 & H4)).
  assert (st_trace s `prefix_of` snoc (st_trace s) e) as Hpre by (by exists [e]).
  pose proof (evolves_refl (st_world s)) as He. split_and!; [constructor; [done|done|]|done|].
  - destruct Hd as (cp & k' & c & D1 & D2 & D3 & D4). exists cp, k', c. split_and!; try done. simpl. by eapply done_stable.
  - exists k. split_and!; [done| | |done]; simpl; [by eapply done_stable|].
    eapply part_stable; [by eapply list_elem_of_lookup_2|done|done|exact Hb|done].
Qed.

Lemma Pos_more F b b' i off com p pe s :
  (∀ r, r ∈ b → handled (st_trace s) r ∨ r ∈ b') → Pos F b i off com p pe s → Pos F b' i off com p pe s.
Proof.
  intros Hb (Hi & Hm & (k & H1 & H2 & H3 & H4)). split_and!; [done|done|]. exists k. split_and!; [done|done| |done].
  eapply part_stable; [by eapply list_elem_of_lookup_2|apply evolves_refl|done|exact Hb|done].
Qed.

Lemma count_ok F b i off com p pe n1 n2 n3 n4 :
  triple (Pos F b i off com p pe) (count n1 n2 n3 n4) (λ _, Pos F b i off com p pe).
Proof.
  intros s Hs. right. unfold count, mbind, M_bind, get. simpl. pose proof Hs as (_ & Hm & Ha). eapply Pos_mem; [done| |done].
  unfold core in *. simpl. congruence.
Qed.

Lemma save_ok F b i off com p pe force `{!WStable F} :
  triple (Pos F b i off com p pe) (save_ force) (λ _, Pos F b i off com p pe).
Proof.
  unfold saveCheckpoint. apply triple_get. intros t. tick_step m.
  case_if; [apply triple_ret; tauto|]. case_if; [apply triple_ret; tauto|].
  assert (∀ s cp, st_mem s = t → Pos F b i off com p pe s → cp_Inode cp = t_inode t →
            cp_Offset cp = Z.of_nat (t_committed t) → Pos F b i off com p pe (write_disk cp s).1) as Hwr.
  { intros s cp Ht ([Hw Hc Hd] & Hm & Ha) E1 E2. split_and!; [constructor; [done|done|]|done|done].
    destruct Ha as (k & K1 & K2 & K3 & K4). rewrite Ht in Hm. injection Hm as _ Hi Ho Hco Hp Hpe.
    exists cp, k, com. split_and!; [done|simpl; congruence|congruence|done]. }
  destruct (m_ok m); [|destruct (m_renamed m); [|apply triple_ret; tauto]].
  - intros s (_ & Ht & Hs). right. unfold mbind, M_bind. simpl.
    match goal with |- context [Some ?cp] => pose proof (Hwr s cp Ht Hs eq_refl eq_refl) as Hp end.
    pose proof Hp as (_ & Hm & Ha). simpl in Hm. rewrite Ht in Hm. 
    exact (Pos_mem _ _ _ _ _ _ _ _ (set_saved t _ _) _ _ _ _ _ Hp Hm Ha).
  - intros s (_ & Ht & Hs). right. simpl. by apply Hwr.
Qed.

#[export] Instance grows_count n1 n2 n3 n4 : Grows (count n1 n2 n3 n4).
Proof. unfold count. apply _. Qed.
#[export] Instance grows_commit n : Grows (commit_to n).
Proof. unfold commit_to. apply _. Qed.
#[export] Instance grows_pending l n : Grows (set_pending l n).
Proof. unfold set_pending. apply _. Qed.
#[export] Instance grows_save d force : Grows (saveCheckpoint d force).
Proof. unfold saveCheckpoint. apply _. Qed.
#[export] Instance grows_send n b : Grows (send__ n b).
Proof.
  revert b. induction n as [|n IH]; intros b; cbn [send_]; [apply _|]. apply grows_bind; [apply _|]. intros m.
  destruct (m_sink m); [apply _| |apply _]. destruct b as [|x [|y b]]; apply _.
Qed.
#[export] Instance grows_flush b : Grows (flush_ b).
Proof. unfold flush. apply grows_bind; [apply _|]. intros t. destruct b; unfold send; apply _. Qed.

(** ** Sending *)

Lemma send_ok n batch F b i off com p pe `{!WStable F} :
  triple (Pos F (batch ++ b) i off com p pe) (send__ n batch)
    (λ ok : bool, if ok then Pos F b i off com p pe else Pos F (batch ++ b) i off com p pe).
Proof.
  revert batch b. induction n as [|n IH]; intros batch b; cbn [send_]; [intros s Hs; right; apply Hs|].
  tick_step m. destruct (m_sink m).
  - eapply (triple_bind _ _ _ (λ _, Pos F b i off com p pe)); [| |apply _].
    + intros s [_ Hs]. right. apply (Pos_emit F (batch ++ b)); [|done]. intros r [Hr|Hr]%elem_of_app; [left|by right].
      exists (Delivered batch). split; [|done]. unfold snoc. apply elem_of_app. right. by apply list_elem_of_singleton.
    + intros ?. eapply triple_bind; [apply count_ok| |apply _]. intros ?. by apply triple_ret.
  - assert (∀ x y l, batch = x :: y :: l → triple (Pos F (batch ++ b) i off com p pe)
        (ok ← send__ n (take (length batch / 2) batch);
         if negb ok then mret false else send__ n (drop (length batch / 2) batch))
        (λ ok : bool, if ok then Pos F b i off com p pe else Pos F (batch ++ b) i off com p pe)) as Hsplit.
    { intros x y l _. set (mid := (length batch / 2)%nat).
      assert (batch ++ b = take mid batch ++ (drop mid batch ++ b)) as -> by (by rewrite app_assoc, take_drop). eapply triple_bind; [apply IH| |intros a; apply _]. intros ok. destruct ok; simpl; [|by apply triple_ret].
      eapply triple_conseq; [apply IH|done|]. intros [] s; [done|]. apply Pos_more. intros r Hr. right. apply elem_of_app. by right. }
    destruct batch as [|x [|y l]].
    + simpl. eapply triple_conseq; [|intros s [_ Hs]; exact Hs|intros a s Hs; exact Hs].
      eapply (triple_bind _ _ _ (λ ok : bool, Pos F b i off com p pe)); [| |intros a; apply _].
      * eapply triple_conseq; [apply (IH [] b)|done|]. by intros [].
      * intros ok. destruct ok; simpl; [|by apply triple_ret].
        eapply triple_conseq; [apply (IH [] b)|done|]. by intros [].
    + eapply (triple_bind _ _ _ (λ _, Pos F b i off com p pe)); [| |apply _].
      * intros s [_ Hs]. right. apply (Pos_emit F ([x] ++ b)); [|done]. intros r [Hr|Hr]%elem_of_cons; [left|by right].
        exists (Dropped x). split; [|done]. unfold snoc. apply elem_of_app. right. by apply list_elem_of_singleton.
      * intros ?. eapply triple_bind; [apply count_ok| |apply _]. intros ?. by apply triple_ret.
    + eapply triple_conseq; [by eapply Hsplit|tauto|done].
  - apply triple_ret. tauto.
Qed.

(** ** Committing *)

Lemma commit_ok F i off com p pe :
  triple (Pos F [] i off com p pe) (commit_to off) (λ _, Pos F [] i off off p pe).
Proof.
  intros s Hs. right. unfold commit_to, mbind, M_bind, get. simpl. pose proof Hs as (_ & Hm & (k & H1 & H2 & H3 & H4)).
  eapply Pos_mem; [exact Hs|unfold core in *; simpl; congruence|].
  exists k. split_and!; [done| | |done]; [|apply part_nil; apply H3].
  destruct H2 as [Hf (i' & Hi' & Hp)]. split; [done|]. exists i'. split; [done|]. rewrite H1 in Hi'. injection Hi' as <-.
  by eapply part_app.
Qed.

Lemma pending_ok F b i off com p pe l n :
  triple (Pos F b i off com p pe) (set_pending l n) (λ _, Pos F b i off com l n).
Proof.
  intros s Hs. right. unfold set_pending, mbind, M_bind, get. simpl. pose proof Hs as (_ & Hm & Ha).
  eapply Pos_mem; [exact Hs|unfold core in *; simpl; congruence|done].
Qed.

(** Fields of a known core. *)
Lemma triple_core {A} F b i off com p pe t (k : M_ A) R :
  (t_offset t = off → t_pending t = p → t_pendingEnd t = pe → t_inode t = i → triple (Pos F b i off com p pe) k R) →
  triple (λ s, st_mem s = t ∧ Pos F b i off com p pe s) k R.
Proof. intros H s [Ht Hs]. pose proof Hs as (_ & Hm & _). rewrite Ht in Hm. injection Hm as ? ? ? ? ? ?. by apply H. Qed.

Lemma flush_ok batch F i off com pe `{!WStable F} :
  triple (Pos F batch i off com [] pe) (flush_ batch)
    (λ ok : bool, if ok then Pos F [] i off off [] pe else Pos F batch i off com batch off).
Proof.
  unfold flush. apply triple_get. intros t. apply triple_core. intros <- _ _ _.
  assert (triple (Pos F [] i (t_offset t) com [] pe)
            (commit_to (t_offset t) ≫= λ _, save_ false ≫= λ _, mret true)
            (λ ok : bool, if ok then Pos F [] i (t_offset t) (t_offset t) [] pe
                          else Pos F batch i (t_offset t) com batch (t_offset t))) as Hc.
  { eapply triple_bind; [apply commit_ok| |apply _]. intros ?. eapply triple_bind; [by apply save_ok| |apply _].
    intros ?. by apply triple_ret. }
  destruct batch as [|r batch]; [done|].
  eapply (triple_bind _ _ _ (λ ok : bool, if ok then Pos F [] i (t_offset t) com [] pe
                                          else Pos F (r :: batch) i (t_offset t) com [] pe));
    [|intros ok|intros ok; apply _].
  - eapply triple_conseq; [apply (send_ok _ _ F [] i (t_offset t) com [] pe)|by rewrite app_nil_r|].
    intros [] s Hs; [done|]. by rewrite app_nil_r in Hs.
  - destruct ok; simpl; [done|]. eapply triple_bind; [apply pending_ok| |apply _]. intros ?. by apply triple_ret.
Qed.

(** ** Reading *)

Lemma readLine_ok F b i off com p pe `{!WStable F} :
  triple (Pos F b i off com p pe) readLine
    (λ l s, match l with
            | None => Pos F b i off com p pe s ∧ (split_lines (sdrop off (data (st_world s) i))).1 = []
            | Some line => ∃ l, line = line_view l ∧
                ∀ b', (∀ r, r ∈ b → r ∈ b') → covered (st_trace s) b' l → Pos F b' i (off + String.length l) com p pe s
            end).
Proof.
  unfold readLine. apply triple_get. intros t. tick_step m. intros s (Hw & Ht & Hs).
  pose proof Hs as (Hi & Hm & (k & H1 & H2 & H3 & H4)). rewrite Ht in Hm. injection Hm as Ho Hti Hto Htc Htp Htpe.
  destruct (wf_data _ (I_wf _ Hi) i) as [d Hd]; [by eapply list_elem_of_lookup_2|]. rewrite <- Hw, Hti, Hd, Hto.
  assert (data (st_world s) i = i_data d) as Hdata by (unfold data; by rewrite Hd).
  rewrite read_line_spec. right. destruct ((split_lines (sdrop off (i_data d))).1) as [|l ls] eqn:El; simpl.
  - split; [done|]. by rewrite Hdata.
  - exists l. split; [done|]. intros b' Hb Hc. destruct (split_lines_next _ _ _ El) as (E1 & E2 & E3 & E4 & E5).
    rewrite length_sdrop in E4.
    eapply (Pos_mem _ b _ off com p pe); [done|unfold core; simpl; congruence|].
    exists k. split_and!; [done|done| |done]. apply (part_app _ _ _ _ _ off).
    + eapply part_stable; [by eapply list_elem_of_lookup_2|apply evolves_refl|done| |done]. auto.
    + unfold part. rewrite Hdata. replace (off + String.length l - off)%nat with (String.length l) by lia.
      rewrite E1, E3. simpl. destruct H3 as (? & _). rewrite Hdata in *. split_and!; [lia|lia|done|]. by constructor.
Qed.

#[export] Instance grows_readLine : Grows readLine.
Proof.
  unfold readLine. apply grows_bind; [apply _|]. intros t. apply grows_bind; [apply _|]. intros m.
  destruct (w_inodes _ !! _); [|apply _]. destruct (read_line _) as [[l n]|]; apply _.
Qed.

Definition drain_post (F : World → Prop) (i : Z) (pe : nat) (fz : bool) (d : drained) (s : St_) : Prop :=
  match d with
  | DrainErr => ∃ off com b, Pos F b i off com b off s
  | DrainDone => ∃ off, Pos (λ w, F w ∧ (fz = true → frozen w i ∧ (split_lines (sdrop off (data w i))).1 = [])) [] i off off [] pe s
  | DrainCancelled => ∃ off, Pos F [] i off off [] pe s
  end.

#[export] Instance wstable_and (F G : World → Prop) : WStable F → WStable G → WStable (λ w, F w ∧ G w).
Proof. intros HF HG w w' Hw He [H1 H2]. split; [by apply (HF w)|by apply (HG w)]. Qed.
#[export] Instance wstable_imp (b : bool) (F : World → Prop) : WStable F → WStable (λ w, b = true → F w).
Proof. intros HF w w' Hw He H Hb. apply (HF w); auto. Qed.

#[export] Instance grows_drain_loop n b : Grows (drain_loop Parse true n b).
Proof.
  revert b. induction n as [|n IH]; intros b; cbn [drain_loop]; [apply _|]. apply grows_bind; [apply _|]. intros m.
  apply grows_if; [apply _|]. apply grows_bind; [apply _|]. intros [l|]; [|apply _]. apply grows_bind; [apply _|]. intros t.
  destruct (Parse l _); [apply _|]. apply grows_bind; [apply _|]. intros ?. apply grows_bind; [destruct b; apply _|apply _].
Qed.

Lemma Pos_weaken (F G : World → Prop) b i off com p pe s :
  (F (st_world s) → G (st_world s)) → Pos F b i off com p pe s → Pos G b i off com p pe s.
Proof. intros H (Hi & Hm & (k & H1 & H2 & H3 & H4)). split_and!; [done|done|]. exists k. auto. Qed.

(** The end of a drain that has read everything. *)
Lemma drain_end F i off com pe batch (fz : bool) `{!WStable F} :
  (∀ w, F w → fz = true → frozen w i) →
  triple (λ s, Pos F batch i off com [] pe s ∧ (split_lines (sdrop off (data (st_world s) i))).1 = [])
    (ok ← flush_ batch; mret (if ok : bool then DrainDone else DrainErr)) (drain_post F i pe fz).
Proof.
  intros Hfz. set (G := λ w, F w ∧ (fz = true → frozen w i ∧ (split_lines (sdrop off (data w i))).1 = [])).
  eapply triple_bind; [|intros ok; apply triple_ret|intros ok; apply _].
  - eapply triple_conseq; [apply (flush_ok batch G i off com pe)| |intros ok s Hs; exact Hs].
    intros s [Hs Hu]. pose proof Hs as (_ & _ & (k & _ & _ & _ & HF)). eapply Pos_weaken; [|exact Hs]. unfold G. eauto.
  - intros s Hs. destruct ok; [by exists off|]. exists off, com, batch. eapply Pos_weaken; [|exact Hs]. by intros [? _].
Qed.

Lemma drain_loop_ok n batch F i off com pe (fz : bool) `{!WStable F} :
  (∀ w, F w → fz = true → frozen w i) →
  triple (Pos F batch i off com [] pe) (drain_loop Parse true n batch) (drain_post F i pe fz).
Proof.
  intros Hfz. revert batch off com. induction n as [|n IH]; intros batch off com; cbn [drain_loop]; [intros s Hs; right; apply Hs|].
  tick_step m. eapply triple_conseq; [|intros s [_ Hs]; exact Hs|intros d s Hs; exact Hs]. destruct (m_cancelled m).
  { eapply triple_bind; [by apply flush_ok|intros ok; apply triple_ret|intros ok; apply _].
    intros s Hs. destruct ok; [by exists off|by exists off, com, batch]. }
  eapply triple_bind; [by apply readLine_ok|intros l|intros l; destruct l; [|apply _]].
  2: { apply grows_bind; [apply _|]. intros t. destruct (Parse _ _); [apply _|]. apply grows_bind; [apply _|].
       intros ?. apply grows_bind; [destruct batch; apply _|apply _]. }
  destruct l as [line|]; [|by apply drain_end]. apply triple_get. intros t.
  intros s (Ht & l & -> & Hl).
  destruct (Parse (line_view l) (w_now (m_world m))) as [r|] eqn:Hp.
  - assert (Pos F (snoc batch r) i (off + String.length l) com [] pe s) as Hs.
    { apply Hl; [intros x Hx; by apply elem_of_app; left|]. exists (w_now (m_world m)). rewrite Hp. right.
      apply elem_of_app. right. by apply list_elem_of_singleton. }
    destruct (_ =? _)%nat; [|exact (IH (snoc batch r) _ _ s Hs)].
    refine ((_ : triple (Pos F (snoc batch r) i (off + String.length l) com [] pe) _ _) s Hs).
    eapply triple_bind; [by apply (flush_ok (snoc batch r))|intros ok|intros ok; apply _].
    destruct ok; [apply IH|]. apply triple_ret. intros s' Hs'. by eexists _, _, _.
  - assert (Pos F batch i (off + String.length l) com [] pe s) as Hs.
    { apply Hl; [done|]. exists (w_now (m_world m)). by rewrite Hp. }
    assert (t_offset t = off + String.length l)%nat as Hoff.
    { destruct Hs as (_ & Hm & _). rewrite Ht in Hm. by injection Hm. }
    rewrite Hoff. refine ((_ : triple (Pos F batch i (off + String.length l) com [] pe) _ _) s Hs).
    eapply triple_bind; [apply count_ok| |intros ?; apply grows_bind; [destruct batch; apply _|apply _]]. intros ?. destruct batch as [|x batch].
    + eapply triple_bind; [apply commit_ok| |apply _]. intros ?. apply IH.
    + eapply (triple_bind _ _ _ (λ _, Pos F (x :: batch) i (off + String.length l) com [] pe));
        [by apply triple_ret|intros ?; apply IH|apply _].
Qed.

(** ** Draining *)

Local Abbreviation drain_ := (drain Parse true).
Local Abbreviation pending_ := (send_pending (Rec := Rec) true).

#[export] Instance grows_send_pending : Grows pending_.
Proof. unfold send_pending. apply grows_bind; [apply _|]. intros t. destruct (t_pending t); unfold send; apply _. Qed.
#[export] Instance grows_drain_lines : Grows (drain_lines Parse true).
Proof. intros s. unfold drain_lines. apply (grows_drain_loop _ _ s). Qed.
#[export] Instance grows_drain : Grows drain_.
Proof. unfold drain. apply _. Qed.

Lemma send_pending_ok F p i off com pe `{!WStable F} :
  triple (λ s, (p ≠ [] → pe = off) ∧ Pos F p i off com p pe s) pending_
    (λ ok s, if ok : bool then ∃ com' pe', Pos F [] i off com' [] pe' s else p ≠ [] ∧ Pos F p i off com p pe s).
Proof.
  apply triple_pre. intros Hpe. unfold send_pending. apply triple_get. intros t. apply triple_core. intros _ -> -> _.
  destruct p as [|r p]; [apply triple_ret; eauto|]. rewrite Hpe by done.
  eapply (triple_bind _ _ _ (λ ok : bool, if ok then Pos F [] i off com (r :: p) off else Pos F (r :: p) i off com (r :: p) off));
    [|intros ok|intros ok; apply _].
  - eapply triple_conseq; [apply (send_ok _ _ F [] i off com (r :: p) off)|by rewrite app_nil_r|].
    intros [] s Hs; [done|]. by rewrite app_nil_r in Hs.
  - destruct ok; simpl; [|apply triple_ret; auto].
    eapply triple_bind; [apply commit_ok|intros ?|apply _]. eapply triple_bind; [apply pending_ok|intros ?|apply _].
    eapply triple_bind; [by apply save_ok|intros ?|apply _]. apply triple_ret. eauto.
Qed.

Lemma drain_ok F p i off com pe (fz : bool) `{!WStable F} :
  (∀ w, F w → fz = true → frozen w i) →
  triple (λ s, (p ≠ [] → pe = off) ∧ Pos F p i off com p pe s) drain_ (λ d s, ∃ pe', drain_post F i pe' fz d s).
Proof.
  intros Hfz. unfold drain. eapply (triple_bind _ _ _ (λ ok s, if ok : bool then ∃ com' pe', Pos F [] i off com' [] pe' s
      else Pos F p i off com p off s)); [|intros ok|intros ok; apply _].
  - intros s Hs. pose proof (send_pending_ok F p i off com pe s Hs) as H. destruct H as [H|H]; [by left|right].
    destruct (pending_ s) as [s' [[]|]]; simpl in *; try done.
    destruct H as [Hne H]. by rewrite (proj1 Hs Hne) in H.
  - destruct ok; simpl.
    + intros s (com' & pe' & Hs). pose proof (drain_loop_ok (S (length (st_script s))) [] F i off com' pe' fz Hfz s Hs) as H.
      destruct H as [H|H]; [by left|right]. unfold drain_lines. destruct (drain_loop _ _ _ _ _) as [s' [d|]]; simpl in *; eauto.
    + apply triple_ret. intros s Hs. exists 0%nat. simpl. by exists off, com, p.
Qed.

(** ** Rotation *)

Lemma live_last w i i' k : wf w → w_names w !! base = Some i' → w_log w !! k = Some i → i' ≠ i → frozen w i.
Proof.
  intros [[older Ho] _ _ _] Hb Hk Hne. exists k. split; [done|]. unfold order, live in Ho. rewrite Hb in Ho.
  destruct (exists_last (l := w_log w)) as (l1 & y & Hl1); [by intros E; rewrite E in Hk|].
  rewrite Hl1, app_assoc in Ho. apply app_inj_tail in Ho as [_ <-]. rewrite Hl1 in *.
  destruct (decide (k < length l1)%nat) as [Hlt|Hge].
  - apply lookup_lt_is_Some_2. rewrite length_app. simpl. lia.
  - rewrite lookup_app_r in Hk by lia. destruct (k - length l1)%nat; simpl in Hk; [congruence|done].
Qed.

Lemma rotated_ok F b i off com p pe `{!WStable F} :
  triple (Pos F b i off com p pe) (rotated base)
    (λ r s, (r = true → frozen (st_world s) i) ∧ Pos F b i off com p pe s).
Proof.
  unfold rotated. apply triple_get. intros t. tick_step m. apply triple_ret. intros s (Hw & Ht & Hs). split; [|done].
  pose proof Hs as (Hi & Hm & (k & H1 & _ & (H3 & _) & _)). rewrite Ht in Hm. injection Hm as _ -> Hto _ _ _. rewrite Hto.
  destruct (m_ok m); [|done]. unfold stat. rewrite <- Hw. destruct (w_names (st_world s) !! base) as [i'|] eqn:Hb; [|done].
  destruct (w_inodes (st_world s) !! i') as [d|] eqn:Hd; [|done]. simpl. intros Hr.
  apply (live_last _ _ i' k); [apply Hi|done|done|]. intros ->. rewrite Z.eqb_refl in Hr. apply Nat.ltb_lt in Hr.
  unfold data in H3. rewrite Hd in H3. lia.
Qed.

(** The next file of the log is the one the code finds. *)
Lemma successor_log w k i cur i' :
  wf w → w_log w !! k = Some i → i ∉ live w → w_inodes w !! i = Some cur →
  w_names w !! successor_in base w cur i = Some i' → w_log w !! S k = Some i'.
Proof.
  intros [[older Ho] Hn _ _] Hk Hl Hcur Hs.
  assert (order w !! (length older + k)%nat = Some i) as Hp by (rewrite Ho, lookup_app_r by lia; by replace (length older + k - length older)%nat with k by lia).
  assert (order w !! S (length older + k) = w_log w !! S k) as Hnext.
  { rewrite Ho, lookup_app_r by lia. f_equal. lia. }
  rewrite <- Hnext. set (p := (length older + k)%nat) in *. clearbody p. clear Hnext Ho older Hk. unfold order in *.
  destruct (decide (p < length (map lf_inode (retained w base)))%nat) as [Hlt|Hge].
  2: { rewrite lookup_app_r in Hp by lia. by apply list_elem_of_lookup_2 in Hp. }
  rewrite lookup_app_l in Hp by lia. apply list_lookup_fmap_Some in Hp as (f & -> & Hf).
  pose proof (take_drop_middle _ _ _ Hf) as Hmid. rewrite length_map in Hlt. apply NoDup_app in Hn as (Hn & _ & _).
  rewrite (successor_next w base (take p (retained w base)) f (drop (S p) (retained w base)) cur) in Hs; [|done|done|done].
  destruct (drop (S p) (retained w base)) as [|g l2] eqn:Ed.
  - assert (length (retained w base) = S p) as Hlen.
    { apply (f_equal length) in Ed. rewrite length_drop in Ed. simpl in Ed. lia. }
    rewrite lookup_app_r by (rewrite length_map; lia). rewrite length_map, Hlen, Nat.sub_diag. unfold live. by rewrite Hs.
  - assert (retained w base !! S p = Some g) as Hg.
    { rewrite <- (Nat.add_0_r (S p)), <- lookup_drop, Ed. done. }
    destruct (elem_of_retained w base g) as (Hname & _); [by eapply list_elem_of_lookup_2|].
    rewrite lookup_app_l by (rewrite length_map; by apply lookup_lt_Some in Hg).
    apply list_lookup_fmap_Some. exists g. split; [congruence|done].
Qed.

(** ** Opening *)

(** The inode a path is expected to have is a file of the log, read up to [off]. *)
Definition Known (expected : option Z) (off : nat) (s : St_) : Prop :=
  ∀ i, expected = Some i → ∃ k, w_log (st_world s) !! k = Some i ∧ done_to (st_world s) (st_trace s) k off.

Lemma Known_stable e off : stable (Known e off).
Proof.
  intros s m ms Hi He Hw Hc H i' Hi'. destruct (H i' Hi') as (k & H1 & H2). exists k.
  split; [by eapply evolves_lookup|]. apply (done_stable (st_world s) _ (st_trace s)); [apply Hi|done|done|done].
Qed.

Definition Checkpointed (cp : checkpoint) (k c : nat) (s : St_) : Prop :=
  st_disk s = Some cp ∧ w_log (st_world s) !! k = Some (cp_Inode cp) ∧ cp_Offset cp = Z.of_nat c
  ∧ done_to (st_world s) (st_trace s) k c.

Lemma Checkpointed_stable cp k c : stable (Checkpointed cp k c).
Proof.
  intros s m ms Hi He Hw Hc (H1 & H2 & H3 & H4). split_and!; [done|by eapply evolves_lookup|done|].
  apply (done_stable (st_world s) _ (st_trace s)); [apply Hi|done|done|done].
Qed.

Lemma stable_world F `{!WStable F} : stable (λ s, F (st_world s)).
Proof. intros s m ms Hi He Hw Hc H. simpl. by apply (wstable (F := F) (st_world s)); [apply Hi| |]. Qed.
#[local] Hint Resolve Known_stable Checkpointed_stable stable_world : tail.

Local Abbreviation open_at_ := (open_at (Rec := Rec) true).
Local Abbreviation start_ := (start (Rec := Rec) base true).
Local Abbreviation successor_ := (successor (Rec := Rec) base).
Local Abbreviation Open := (Pos (λ _, True) []).

#[export] Instance grows_open_at path off e : Grows (open_at_ path off e).
Proof.
  unfold open_at. apply grows_bind; [apply _|]. intros m. destruct (if m_ok m then _ else _) as [[i d]|]; apply _.
Qed.
#[export] Instance grows_start : Grows start_.
Proof.
  unfold start. apply grows_bind; [apply _|]. intros m. destruct (if m_ok m then _ else _) as [[i d]|]; [|apply _].
  apply grows_bind; [apply _|]. intros m2. apply grows_bind; [apply _|]. intros disk. apply grows_bind; [apply _|]. intros ?.
  destruct (if m_ok m2 then _ else _); [|apply _]. apply grows_if; [apply _|]. apply grows_bind; [apply _|]. intros m3.
  apply grows_if; [|apply _]. destruct (resume_in _ _ _). apply _.
Qed.
#[export] Instance grows_successor : Grows successor_.
Proof.
  unfold successor. apply grows_bind; [apply _|]. intros t. apply grows_bind; [apply _|]. intros m.
  destruct (if m_ok m then _ else _); apply _.
Qed.

Lemma open_at_ok path off e t :
  triple (λ s, Known e off s ∧ I s ∧ st_mem s = t) (open_at_ path off e)
    (λ ok s, if ok : bool then ∃ i, Open i off off [] 0 s else I s ∧ st_mem s = t).
Proof.
  unfold open_at. tick_step m. destruct (if m_ok m then stat (m_world m) path else None) as [[i d]|] eqn:Hst; [|apply triple_ret; tauto].
  case_bool_decide as He; [|by apply triple_trouble; apply _].
  assert (w_inodes (m_world m) !! i = Some d) as Hd.
  { destruct (m_ok m); [|done]. unfold stat in Hst. destruct (w_names (m_world m) !! path) as [i'|]; [|done].
    destruct (w_inodes (m_world m) !! i') as [d'|] eqn:E; [|done]. by injection Hst as <- <-. }
  rewrite bind_ret. intros s (Hw & Hk & Hi & Ht).
  destruct (Hk i He) as (k & Hlog & Hdone). pose proof Hdone as [_ (i' & Hi' & Hp & _)]. rewrite Hlog in Hi'. injection Hi' as <-.
  assert (off ≤ String.length (data (st_world s) i))%nat as Hlen by lia. unfold data in Hp. rewrite Hw, Hd in Hp.
  assert ((String.length (i_data d) <? off)%nat = false) as -> by (apply Nat.ltb_ge; lia).
  refine ((_ : triple (λ s', s' = s) _ (λ (ok : bool) s, if ok then ∃ i, Open i off off [] 0 s else I s ∧ st_mem s = t)) s eq_refl).
  apply triple_get. intros t'. eapply (triple_bind _ _ _ (λ _, Open i off off [] 0)); [|intros ?|apply _].
  - intros s' [Ht' ->]. right. simpl. destruct Hi as [Hwf Hc Hdk]. split_and!; [by constructor|done|]. exists k.
    split_and!; [done|done| |done]. by apply part_nil.
  - eapply triple_bind; [by apply (save_ok (λ _, True))|intros ?|apply _]. apply triple_ret. eauto.
Qed.

#[export] Instance wstable_inode i cur off :
  WStable (λ w, (frozen w i ∧ (split_lines (sdrop off (data w i))).1 = []) ∧ w_inodes w !! i = Some cur).
Proof.
  intros w w' Hw He [Hf Hc]. split; [exact (wstable_unread i off w w' Hw He Hf)|].
  rewrite (frozen_same w w'); [done|done|done|apply Hf].
Qed.

Lemma successor_ok i off pe :
  triple (Pos (λ w, frozen w i ∧ (split_lines (sdrop off (data w i))).1 = []) [] i off off [] pe) successor_
    (λ r s, Known r.2 0 s ∧ I s).
Proof.
  unfold successor. apply triple_get. intros t. apply triple_core. intros _ _ _ ->. tick_step m1.
  destruct (if m_ok m1 then _ else None) as [cur|] eqn:Hcur; [|by apply triple_trouble; apply _].
  eapply (triple_conseq _ (Pos (λ w, (frozen w i ∧ (split_lines (sdrop off (data w i))).1 = []) ∧ w_inodes w !! i = Some cur)
                            [] i off off [] pe)); [| |intros r s Hs; exact Hs].
  2: { intros s [Hw Hs]. eapply Pos_weaken; [|exact Hs]. rewrite Hw. destruct (m_ok m1); [auto|done]. }
  tick_step m2. destruct (m_ok m2); [|by apply triple_trouble; apply _].
  apply triple_ret. intros s (Hw & Hs). split; [|apply Hs]. intros i' Hi'. simpl in Hi'.
  destruct Hs as (Hi & _ & (k & H1 & H2 & H3 & ((Hfz & Hu) & Hc))). rewrite <- Hw in Hi'.
  exists (S k). pose proof (frozen_not_live _ _ (I_wf _ Hi) Hfz) as Hnl.
  pose proof (successor_log _ _ _ _ _ (I_wf _ Hi) H1 Hnl Hc Hi') as Hnext. split; [done|].
  destruct H2 as [Hf (i0 & Hi0 & Hp)]. rewrite H1 in Hi0. injection Hi0 as <-. split.
  - intros j i2 Hj Hi2. destruct (decide (j = k)) as [->|]; [|apply Hf; [lia|done]].
    rewrite H1 in Hi2. injection Hi2 as <-. by eapply part_full.
  - exists i'. split; [done|]. apply part_nil. lia.
Qed.

Lemma resume_spec w k c cp :
  wf w → w_log w !! k = Some (cp_Inode cp) → frozen w (cp_Inode cp) → cp_Offset cp = Z.of_nat c →
  (c ≤ String.length (data w (cp_Inode cp)))%nat →
  ∃ path, resume_in base w cp = (path, c) ∧ w_names w !! path = Some (cp_Inode cp).
Proof.
  intros Hw Hk Hf Hoff Hc. pose proof (frozen_not_live _ _ Hw Hf) as Hnl. destruct Hw as [[older Ho] Hn Hd Hz].
  assert (cp_Inode cp ∈ order w) as Hin by (rewrite Ho; apply elem_of_app; right; by eapply list_elem_of_lookup_2).
  unfold order in Hin. apply elem_of_app in Hin as [Hin|Hin]; [|done].
  apply list_elem_of_fmap in Hin as (f & Hfi & Hf'). unfold resume_in.
  set (p := λ f, (lf_inode f =? cp_Inode cp)%Z && (cp_Offset cp <=? Z.of_nat (lf_size f))%Z).
  destruct (List.find p (retained w base)) as [g|] eqn:E.
  - apply find_some in E as [Hg%list_elem_of_In Hp]. unfold p in Hp. apply andb_prop in Hp as [Hp _]. apply Z.eqb_eq in Hp.
    exists (lf_path g). rewrite Hoff, Nat2Z.id. split; [done|]. rewrite <- Hp. exact (proj1 (elem_of_retained w base g Hg)).
  - exfalso. apply find_None in E. rewrite Forall_forall in E. specialize (E f Hf'). unfold p in E. rewrite <- Hfi, Z.eqb_refl in E.
    apply elem_of_retained in Hf' as (_ & (d & Hd' & _ & Hsz) & _). unfold data in Hc. rewrite Hfi, Hd' in Hc.
    rewrite Hsz in E. simpl in E. apply Z.leb_gt in E. lia.
Qed.

Lemma start_ok t :
  triple (λ s, I s ∧ st_mem s = t) start_
    (λ r s, (match r with None => True | Some (path, off, e) => Known e off s end) ∧ I s ∧ st_mem s = t).
Proof.
  intros s0 [Hi0 Ht0]. destruct (I_disk _ Hi0) as (cp & k & c & Hcp).
  set (Q := λ (r : option (string * nat * option Z)) (s : St_),
    match r with None => True | Some (path, off, e) => Known e off s end ∧ I s ∧ st_mem s = t).
  refine ((_ : triple (λ s, Checkpointed cp k c s ∧ I s ∧ st_mem s = t) _ Q) s0 _); [|done]. clear s0 Hi0 Ht0 Hcp.
  unfold start. tick_step m1. destruct (if m_ok m1 then stat (m_world m1) base else None) as [[lv d]|] eqn:Hst; [|apply triple_ret; unfold Q; tauto].
  set (P := λ s, (cp_Inode cp ≠ lv → frozen (st_world s) (cp_Inode cp)) ∧ Checkpointed cp k c s ∧ I s ∧ st_mem s = t).
  assert (stable P) as HP.
  { apply stable_and; [|eauto with tail]. intros s m ms Hi He Hw Hc H Hne. by eapply frozen_evolves, H. }
  intros s (Hw & (Hdk & Hlog & Hoff & Hdone) & Hi & Ht).
  assert (w_names (m_world m1) !! base = Some lv ∧ w_inodes (m_world m1) !! lv = Some d) as [Hb Hd].
  { destruct (m_ok m1); [|done]. unfold stat in Hst. destruct (w_names (m_world m1) !! base) as [i'|]; [|done].
    destruct (w_inodes (m_world m1) !! i') as [d'|] eqn:E; [|done]. by injection Hst as <- <-. }
  assert (cp_Inode cp = lv → (c ≤ String.length (i_data d))%nat) as Hsize.
  { intros E. destruct Hdone as [_ (i' & Hi' & Hp & _)]. rewrite Hlog in Hi'. injection Hi' as <-. unfold data in Hp.
    rewrite Hw, E, Hd in Hp. lia. }
  assert (P s) as HPs.
  { split_and!; [|done..]. intros Hne. apply (live_last _ _ lv k); [apply Hi|by rewrite Hw|done|congruence]. }
  revert s HPs Hw Hdk Hlog Hoff Hdone Hi Ht. intros s HPs _ _ _ Hoff _ _ _.
  refine ((_ : triple P _ Q) s HPs). clear s HPs. apply triple_tick; [done|unfold P; tauto|]. intros m2.
  intros s (Hw & HPs). rewrite bind_read.
  destruct (m_ok m2) eqn:Hok; [|by apply (triple_trouble (λ _, True)); [|done]; intros ?; apply _].
  cbn [orb]. rewrite bind_ret.
  pose proof HPs as (Hfz & (Hdk & Hlog & _ & Hdone) & Hi & Ht).
  assert (loadCheckpoint true (st_disk s) = Some cp) as ->.
  { rewrite Hdk. unfold loadCheckpoint. cbn [negb]. destruct (Z.eqb_spec (cp_Inode cp) 0) as [E|E].
    - destruct (wf_nonzero _ (I_wf _ Hi)). rewrite <- E. by eapply list_elem_of_lookup_2.
    - assert ((cp_Offset cp <? 0)%Z = false) as -> by (apply Z.ltb_ge; lia). done. }
  destruct (Z.eqb_spec (cp_Inode cp) lv) as [E|E].
  - right. simpl. split; [|done]. intros i'. intros [= <-]. exists k. split; [by rewrite <- E|].
    rewrite Hoff. assert ((Z.of_nat c <=? Z.of_nat (String.length (i_data d)))%Z = true) as -> by (apply Z.leb_le; specialize (Hsize E); lia).
    by rewrite Nat2Z.id.
  - refine ((_ : triple P _ Q) s HPs). clear s Hw HPs Hfz Hdk Hlog Hdone Hi Ht. apply triple_tick; [done|unfold P; tauto|]. intros m3.
    destruct (m_ok m3); [|by apply triple_trouble; apply _].
    intros s (Hw & Hfz & (Hdk & Hlog & _ & Hdone) & Hi & Ht). pose proof Hdone as [_ (i' & Hi' & Hp & _)].
    rewrite Hlog in Hi'. injection Hi' as <-.
    destruct (resume_spec (st_world s) k c cp) as (path & Hres & Hname); [apply Hi|done|auto|done|lia|].
    rewrite <- Hw, Hres. right. simpl. split; [|done]. intros i2 Hi2. exists k. split; [congruence|done].
Qed.

Local Abbreviation open_ := (open (Rec := Rec) base true).

#[export] Instance grows_open first : Grows (open_ first).
Proof.
  unfold open. apply grows_bind; [apply _|]. intros t. apply grows_if; [|apply grows_if].
  - apply grows_bind; [apply _|]. intros [[[path off] e]|]; apply _.
  - apply grows_bind; [apply _|]. intros [path e]. apply _.
  - apply _.
Qed.

Lemma open_first_ok t :
  triple (λ s, I s ∧ st_mem s = t) (open_ true)
    (λ ok s, if ok : bool then ∃ i off, Open i off off [] 0 s else I s ∧ st_mem s = t).
Proof.
  unfold open. apply triple_get. intros t'. eapply triple_bind; [eapply triple_conseq; [apply (start_ok t)|tauto|intros r s Hs; exact Hs]| |].
  - intros [[[path off] e]|]; [|apply triple_ret; tauto].
    eapply triple_conseq; [apply (open_at_ok path off e t)|tauto|]. intros [] s; [|done]. intros [i Hs]. eauto.
  - intros [[[path off] e]|]; apply _.
Qed.

Lemma open_next_ok i off pe :
  triple (Pos (λ w, frozen w i ∧ (split_lines (sdrop off (data w i))).1 = []) [] i off off [] pe) (open_ false)
    (λ ok s, if ok : bool then ∃ i', Open i' 0 0 [] 0 s else I s).
Proof.
  unfold open. apply triple_get. intros t. intros s [Ht Hs]. pose proof Hs as (_ & Hm & _). rewrite Ht in Hm.
  injection Hm as -> _ _ _ _ _.
  refine ((_ : triple _ _ (λ (ok : bool) s, if ok then ∃ i', Open i' 0 0 [] 0 s else I s)) s Hs).
  eapply triple_bind; [apply successor_ok| |intros [path e]; apply _]. intros [path e] s' Hs'. simpl in Hs'.
  destruct (open_at_ok path 0 e (st_mem s') s') as [H|H]; [tauto|by left|right].
  destruct (open_at_ path 0 e s') as [s2 [[]|]]; simpl in *; tauto.
Qed.

(** ** The loop *)

(** Between drains: a file is open, and a batch that failed waits. *)
Definition Rest (s : St_) : Prop :=
  ∃ i off com p pe, (p ≠ [] → pe = off) ∧ Pos (λ _, True) p i off com p pe s.

Lemma Rest_stable : stable Rest.
Proof.
  intros s m ms Hi He Hw Hc (i & off & com & p & pe & Hp & Hs). exists i, off, com, p, pe. split; [done|]. by apply Pos_stable.
Qed.
Lemma Rest_I s : Rest s → I s.
Proof. intros (i & off & com & p & pe & _ & Hs). apply Hs. Qed.

Lemma triple_Rest {A} (m : M_ A) Q :
  (∀ i off com p pe, triple (λ s, (p ≠ [] → pe = off) ∧ Pos (λ _, True) p i off com p pe s) m Q) → triple Rest m Q.
Proof. intros H s (i & off & com & p & pe & Hs). by apply (H i off com p pe). Qed.

Lemma drain_post_Rest F i pe fz d s : drain_post F i pe fz d s → Rest s.
Proof.
  destruct d; simpl.
  - intros (off & com & b & H). exists i, off, com, b, off. split; [done|]. by eapply Pos_weaken.
  - intros (off & H). exists i, off, off, [], pe. split; [done|]. by eapply Pos_weaken.
  - intros (off & H). exists i, off, off, [], pe. split; [done|]. by eapply Pos_weaken.
Qed.

Lemma drain_rest : triple Rest drain_ (λ _, Rest).
Proof.
  apply triple_Rest. intros i off com p pe. eapply triple_conseq; [apply (drain_ok (λ _, True) p i off com pe false); done|done|].
  intros d s (pe' & H). by eapply drain_post_Rest.
Qed.

Local Abbreviation catch_up_ := (catch_up Parse base true).
#[export] Instance grows_rotated : Grows (rotated (Rec := Rec) base).
Proof. unfold rotated. apply _. Qed.
#[export] Instance grows_reopen k : Grows k → Grows (reopen Parse base true k).
Proof. intros Hk. unfold reopen. apply _. Qed.
#[export] Instance grows_catch_up n : Grows (catch_up_ n).
Proof.
  induction n as [|n IH]; cbn [catch_up]; [apply _|]. apply grows_bind; [apply _|]. intros r. apply grows_if; [apply _|].
  apply grows_bind; [apply _|]. intros []; apply _.
Qed.

(** A file that was read to its end after it was rotated away. *)
Lemma reopen_ok k i off pe : Grows k →
  triple Rest k (λ _, Rest) →
  triple (Pos (λ w, frozen w i ∧ (split_lines (sdrop off (data w i))).1 = []) [] i off off [] pe)
    (reopen Parse base true k) (λ _, Rest).
Proof.
  intros Hg IH. unfold reopen. eapply triple_bind; [apply open_next_ok| |intros ok; apply _].
  intros []; simpl; [|apply triple_trouble; apply _]. eapply (triple_bind _ _ _ (λ _, Rest)); [| |intros d; apply _].
  - eapply triple_conseq; [apply drain_rest| |done]. intros s (i' & Hs). exists i', 0%nat, 0%nat, [], 0%nat. by split.
  - intros d. case_bool_decide; [by apply triple_ret|done].
Qed.

Lemma catch_up_ok n : triple Rest (catch_up_ n) (λ _, Rest).
Proof.
  induction n as [|n IH]; cbn [catch_up]; [intros s Hs; right; by apply Rest_I|].
  apply triple_Rest. intros i off com p pe. apply triple_pre. intros Hpe.
  eapply triple_bind; [by apply (rotated_ok (λ _, True))| |].
  - intros []; simpl; [|apply triple_ret; intros s [_ Hs]; by exists i, off, com, p, pe].
    eapply (triple_bind _ _ _ (λ d s, ∃ pe', drain_post (λ w, frozen w i) i pe' true d s)); [| |intros []; apply _].
    + eapply triple_conseq; [apply (drain_ok (λ w, frozen w i) p i off com pe true); auto| |done].
      intros s [Hf Hs]. split; [done|]. eapply Pos_weaken; [|exact Hs]. auto.
    + intros []; simpl.
      * apply triple_ret. intros s (pe' & Hs). by eapply (drain_post_Rest _ _ pe' true DrainErr).
      * intros s (pe' & off' & Hs). refine ((reopen_ok _ i off' pe' _ IH) s _).
        eapply Pos_weaken; [|exact Hs]. intros [_ H]. auto.
      * apply triple_trouble. apply _.
  - intros rot. apply grows_if; [apply _|]. apply grows_bind; [apply _|]. intros []; apply _.
Qed.

(** The state between the steps of a turn: a file is open, or none was yet. *)
Definition V (first : bool) (s : St_) : Prop := Rest s ∨ (first = true ∧ I s ∧ t_open (st_mem s) = false).

Lemma V_I first s : V first s → I s.
Proof. intros [H|H]; [by apply Rest_I|tauto]. Qed.
Lemma V_stable first : stable (V first).
Proof.
  intros s m ms Hi He Hw Hc [H|(H1 & H2 & H3)]; [left; by apply Rest_stable|right]. split_and!; [done|by apply I_stable|done].
Qed.
Lemma Rest_open s : Rest s → t_open (st_mem s) = true.
Proof. intros (i & off & com & p & pe & _ & (_ & Hm & _)). by injection Hm. Qed.

Lemma V_tick {A} first (k : Moment → M_ A) R :
  (∀ m, triple (V first) (k m) R) → triple (V first) (tick ≫= k) R.
Proof.
  intros H. apply triple_tick; [apply V_stable|apply V_I|]. intros m. eapply triple_conseq; [apply H|tauto|done].
Qed.

Lemma V_save first force : triple (V first) (save_ force) (λ _, V first).
Proof.
  intros s [(i & off & com & p & pe & Hp & Hs)|Hs].
  - destruct (save_ok (λ _, True) p i off com p pe force s Hs) as [H|H]; [by left|right].
    destruct (save_ force s) as [s' [a|]]; [|done]. left. by exists i, off, com, p, pe.
  - refine ((_ : triple (λ s, first = true ∧ I s ∧ t_open (st_mem s) = false) _ (λ _, V first)) s Hs). clear s Hs.
    unfold saveCheckpoint. apply triple_get. intros t.
    apply triple_tick; [|tauto|].
    + intros s m ms Hi He Hw Hc (H1 & H2 & H3 & H4). split_and!; [done|done|by apply I_stable|done].
    + intros m. intros s (_ & Ht & Hs). assert (t_open t = false) as -> by (rewrite <- Ht; tauto).
      rewrite orb_true_r. simpl. right. right. tauto.
Qed.

Lemma V_measure first : triple (V first) (measure base) (λ _, V first).
Proof.
  unfold measure. apply V_tick. intros m s Hs. right. simpl. destruct Hs as [(i & off & com & p & pe & Hp & Hs)|(H1 & [Hw Hc Hd] & H3)].
  - left. exists i, off, com, p, pe. split; [done|]. pose proof Hs as (_ & Hm & Ha).
    exact (Pos_mem _ _ _ _ _ _ _ _ {| t_open := t_open (st_mem s) |} _ _ _ _ _ Hs Hm Ha).
  - right. split_and!; [done|by constructor|done].
Qed.

Lemma V_probe first r : triple (V first) (probe_step has_probe r) (λ _, V first).
Proof.
  unfold probe_step. apply triple_get. intros t. eapply triple_conseq; [|intros s [_ Hs]; exact Hs|intros a s Hs; exact Hs].
  apply V_tick. intros m. case_if; [|by apply triple_ret]. apply V_tick. intros m'. by apply triple_ret.
Qed.

#[export] Instance grows_catch_up_all : Grows (catch_up_all Parse base true).
Proof. intros s. unfold catch_up_all. apply (grows_catch_up _ s). Qed.

Lemma V_deliver first r : triple (V first) (deliver_step Parse base true poll r) (λ _, V first).
Proof.
  unfold deliver_step. apply triple_get. intros t.
  apply triple_tick; [apply stable_and; [apply stable_mem|apply V_stable]|intros s [_ Hs]; by eapply V_I|]. intros m.
  destruct (negb (t_open t)) eqn:Hop; [apply triple_ret; tauto|]. apply negb_false_iff in Hop. cbn [orb].
  destruct (Before _ _); [apply triple_ret; tauto|].
  eapply (triple_bind _ _ _ (λ _, Rest)); [| |intros d; apply _].
  - eapply triple_conseq; [apply drain_rest| |done]. intros s (_ & Ht & [Hs|(_ & _ & Hs)]); [done|]. congruence.
  - intros d. eapply (triple_bind _ _ _ (λ _, Rest)); [| |intros ok; apply _].
    + destruct (bool_decide (d = DrainErr)); [by apply triple_ret|]. intros s Hs. exact (catch_up_ok (S (length (st_script s))) s Hs).
    + intros ok. eapply (triple_conseq _ (V first) _ (λ _, V first)); [|intros s Hs; left; exact Hs|intros a s Hs; exact Hs]. apply V_tick. intros m'.
      eapply triple_bind; [apply V_save| |apply _]. intros ?. by apply triple_ret.
Qed.

#[export] Instance grows_deliver r : Grows (deliver_step Parse base true poll r).
Proof. unfold deliver_step. apply _. Qed.
#[export] Instance grows_probe r : Grows (probe_step (Rec := Rec) has_probe r).
Proof. unfold probe_step. apply _. Qed.
#[export] Instance grows_measure : Grows (measure (Rec := Rec) base).
Proof. unfold measure. apply _. Qed.
#[export] Instance grows_turn first r : Grows (turn Parse base true poll has_probe first r).
Proof. unfold turn. apply _. Qed.
#[export] Instance grows_Run_ n first r : Grows (Run_ Parse base true poll has_probe n first r).
Proof.
  revert first r. induction n as [|n IH]; intros first r; cbn [Run_]; [apply _|]. apply grows_bind; [apply _|].
  intros [first' r']. apply _.
Qed.

Lemma turn_ok first r : triple (V first) (turn Parse base true poll has_probe first r) (λ x, V x.1).
Proof.
  unfold turn. apply triple_get. intros t.
  eapply (triple_bind _ _ _ V); [| |intros first'; apply _].
  - destruct (t_open t) eqn:Ho; [apply triple_ret; tauto|].
    intros s [Ht [Hs|(-> & Hi & Hc)]]; [apply Rest_open in Hs; congruence|].
    refine ((_ : triple (λ s, I s ∧ st_mem s = t) _ V) s (conj Hi Ht)).
    eapply triple_bind; [apply open_first_ok| |apply _]. intros []; apply triple_ret.
    + intros s' (i & off & Hs). left. exists i, off, off, [], 0%nat. by split.
    + intros s' [Hi' Ht']. right. split_and!; [done|done|congruence].
  - intros first'. eapply triple_bind; [apply V_probe|intros r'|intros r'; apply _].
    eapply triple_bind; [apply V_deliver|intros r''|intros r''; apply _].
    eapply triple_bind; [apply V_measure|intros ?|apply _]. by apply triple_ret.
Qed.

Lemma Run_ok n first r : triple (V first) (Run_ Parse base true poll has_probe n first r) (λ _, I).
Proof.
  revert first r. induction n as [|n IH]; intros first r; cbn [Run_]; [intros s Hs; right; by eapply V_I|].
  eapply triple_bind; [apply turn_ok| |intros [first' r']; apply _]. intros [first' r']. simpl. apply V_tick. intros m.
  destruct (m_cancelled m); [|apply IH]. eapply triple_conseq; [apply V_save|done|]. intros ? s. apply V_I.
Qed.

(** ** Every run *)

Local Abbreviation Run__ := (Run Parse base true poll has_probe).
#[export] Instance grows_Run : Grows Run__.
Proof. intros s. unfold Run. apply (grows_Run_ _ _ _ s). Qed.

(** A new process: memory is lost, the disk is not. *)
Definition boot (s : St_) (ms : list Moment) : St_ :=
  {| st_mem := New; st_disk := st_disk s; st_world := st_world s; st_script := ms; st_trace := st_trace s |}.

(** The tailer is started any number of times, and killed at any moment. *)
Inductive reach (s0 : St_) : St_ → Prop :=
| reach_start : reach s0 s0
| reach_run s ms : reach s0 s → chain (st_world s) ms → reach s0 (Run__ (boot s ms)).1.

Lemma I_boot s ms : wf (st_world s) → disk_ok s → chain (st_world s) ms → I (boot s ms).
Proof. intros Hw Hd Hc. by constructor. Qed.

Lemma boot_run s ms : wf (st_world s) → disk_ok s → chain (st_world s) ms → dirty (Run__ (boot s ms)).1 ∨ I (Run__ (boot s ms)).1.
Proof.
  intros Hw Hd Hc. assert (V true (boot s ms)) as HV by (right; split_and!; [done|by apply I_boot|done]).
  unfold Run. destruct (Run_ok (S (length (st_script (boot s ms)))) true {| r_backoff := 0%Z; r_retryAt := 0%Z; r_probedAt := 0%Z |} _ HV)
    as [H|H]; [by left|right]. by destruct (Run_ _ _ _ _ _ _ _ _ _) as [s' [a|]].
Qed.

Lemma reach_ok s0 s : wf (st_world s0) → disk_ok s0 → reach s0 s → dirty s ∨ (wf (st_world s) ∧ disk_ok s).
Proof.
  intros Hw0 Hd0. induction 1 as [|s ms _ IH Hc]; [by right|]. destruct IH as [[t Ht]|[Hw Hd]].
  - left. exists t. destruct (grows_Run (boot s ms)) as [x Hx]. rewrite Hx. apply elem_of_app. by left.
  - destruct (boot_run s ms Hw Hd Hc) as [H|[H1 H2 H3]]; auto.
Qed.

Lemma first_disk_ok s0 cp :
  st_disk s0 = Some cp → w_log (st_world s0) !! 0%nat = Some (cp_Inode cp) →
  cp_Offset cp = Z.of_nat origin → (origin ≤ String.length (data (st_world s0) (cp_Inode cp)))%nat → disk_ok s0.
Proof.
  intros Hdk Hlog Hoff Hlen. exists cp, 0%nat, origin. split_and!; [done|done|done|]. split; [lia|].
  exists (cp_Inode cp). split; [done|]. by apply part_nil.
Qed.

(** C12: from an existing checkpoint on, over any number of restarts and kills
    at any moment, with the log growing and being rotated and the receiver
    accepting, rejecting and failing as they please: every finished line
    before the checkpoint on disk gave no record or one that was acknowledged
    or rejected on its own, provided no trouble was met, that is no directory
    or file call failed, no rotation fell between looking up a file and
    opening it, and no shutdown interrupted the reading of a rotated file. *)
Theorem tail_covers s0 s cp :
  wf (st_world s0) → st_disk s0 = Some cp → w_log (st_world s0) !! 0%nat = Some (cp_Inode cp) →
  cp_Offset cp = Z.of_nat origin → (origin ≤ String.length (data (st_world s0) (cp_Inode cp)))%nat →
  reach s0 s → (∀ t, Trouble t ∉ st_trace s) →
  ∃ cp k c, st_disk s = Some cp ∧ w_log (st_world s) !! k = Some (cp_Inode cp) ∧ cp_Offset cp = Z.of_nat c
    ∧ (∀ j i, (j < k)%nat → w_log (st_world s) !! j = Some i →
         Forall (covered (st_trace s) []) (split_lines (sdrop (start_of j) (data (st_world s) i))).1)
    ∧ Forall (covered (st_trace s) [])
        (split_lines (stake (c - start_of k) (sdrop (start_of k) (data (st_world s) (cp_Inode cp))))).1.
Proof.
  intros Hw Hdk Hlog Hoff Hlen Hr Hclean.
  pose proof (first_disk_ok s0 cp Hdk Hlog Hoff Hlen) as Hd.
  destruct (reach_ok s0 s Hw Hd Hr) as [[t Ht]|[_ (cp' & k & c & H1 & H2 & H3 & [H4 (i & H5 & H6)])]]; [by destruct (Hclean t)|].
  exists cp', k, c. rewrite H2 in H5. injection H5 as <-. split_and!; [done|done|done| |apply H6].
  intros j i Hj Hi. by apply (H4 j i).
Qed.
End Safe.

(** ** Examples *)

(** A log of two files, the first rotated away. Records are the lines that start
    with a brace. *)
Definition line_record (l : string) (now : Time) : option string := if HasPrefix l "{" then Some l else None.
Definition nl : string := String newline "".
Definition old_file : Inode := {| i_data := "{a}" +:+ nl +:+ "noise" +:+ nl +:+ "{b}" +:+ nl; i_mtime := 10%Z; i_regular := true |}.
Definition live_file : Inode := {| i_data := "{c}" +:+ nl +:+ "{unfinished"; i_mtime := 20%Z; i_regular := true |}.
Definition two_files : World :=
  {| w_names := {["audit-1.log" := 7%Z; "audit.log" := 8%Z]}; w_inodes := {[7%Z := old_file; 8%Z := live_file]};
     w_now := (1000 * Hour)%Z; w_log := [7%Z; 8%Z] |}.
Definition good_moment (w : World) : Moment :=
  {| m_world := w; m_ok := true; m_renamed := false; m_sink := SinkOk; m_cancelled := false |}.
Definition resumed : St (Rec := string) :=
  {| st_mem := New; st_disk := Some {| cp_Inode := 7%Z; cp_Offset := 0%Z; cp_Mtime := 10%Z |}; st_world := two_files;
     st_script := []; st_trace := [] |}.
Definition resumed_run : St := (Run line_record "audit.log" true Second false (boot resumed (replicate 60 (good_moment two_files)))).1.

Lemma two_files_wf : wf "audit.log" two_files.
Proof.
  constructor.
  - exists []. vm_compute. done.
  - vm_compute. repeat constructor; set_solver.
  - intros i Hi. cbn [w_log two_files] in Hi. rewrite !elem_of_cons in Hi. destruct Hi as [->|[->|[]%not_elem_of_nil]]; vm_compute; eauto.
  - vm_compute. set_solver.
Qed.

Lemma static_chain base w n : wf base w → chain base w (replicate n (good_moment w)).
Proof. intros Hw. induction n as [|n IH]; simpl; [done|]. split_and!; [apply evolves_refl|done|done]. Qed.

Lemma tail_covers_witness :
  st_trace resumed_run = [Delivered ["{a}" +:+ nl; "{b}" +:+ nl]; Delivered ["{c}" +:+ nl]]
  ∧ ∃ cp k c, st_disk resumed_run = Some cp ∧ w_log (st_world resumed_run) !! k = Some (cp_Inode cp)
    ∧ cp_Offset cp = Z.of_nat c
    ∧ (∀ j i, (j < k)%nat → w_log (st_world resumed_run) !! j = Some i →
         Forall (covered line_record (st_trace resumed_run) []) (split_lines (sdrop (start_of 0 j) (data (st_world resumed_run) i))).1)
    ∧ Forall (covered line_record (st_trace resumed_run) [])
        (split_lines (stake (c - start_of 0 k) (sdrop (start_of 0 k) (data (st_world resumed_run) (cp_Inode cp))))).1.
Proof.
  assert (st_trace resumed_run = [Delivered ["{a}" +:+ nl; "{b}" +:+ nl]; Delivered ["{c}" +:+ nl]]) as Ht by (vm_compute; reflexivity).
  split; [exact Ht|].
  apply (tail_covers line_record "audit.log" Second false 0 resumed resumed_run {| cp_Inode := 7%Z; cp_Offset := 0%Z; cp_Mtime := 10%Z |}).
  - exact two_files_wf.
  - reflexivity.
  - reflexivity.
  - reflexivity.
  - apply Nat.le_0_l.
  - apply (reach_run line_record "audit.log" Second false resumed resumed); [constructor|]. apply static_chain, two_files_wf.
  - intros t. rewrite Ht. rewrite !elem_of_cons, elem_of_nil. intros [H|[H|[]]]; discriminate H.
Defined.

(** ** What is lost *)

(** A shutdown in the middle of the backlog skips it: when the context is
    done while a rotated file is being read, the drain returns without an error,
    the loop goes on to the next file and saves that position; the record of the
    first file is never sent, not in this run and not in the next. *)
Theorem shutdown_skips_backlog :
  let cancelled := {| m_world := two_files; m_ok := true; m_renamed := false; m_sink := SinkOk; m_cancelled := true |} in
  let s1 := (Run line_record "audit.log" true Second false (boot resumed (replicate 40 cancelled))).1 in
  let s2 := (Run line_record "audit.log" true Second false (boot s1 (replicate 60 (good_moment two_files)))).1 in
  st_disk s1 = Some {| cp_Inode := 8%Z; cp_Offset := 0%Z; cp_Mtime := 20%Z |}
  ∧ ∀ batch, Delivered batch ∈ st_trace s2 → ("{a}" +:+ nl) ∉ batch.
Proof.
  cbv zeta. split; [vm_compute; reflexivity|]. intros batch.
  match goal with |- context [st_trace ?s] => assert (st_trace s = [Trouble Interrupted; Delivered ["{c}" +:+ nl]]) as -> by (vm_compute; reflexivity) end.
  rewrite !elem_of_cons, elem_of_nil. intros [H|[H|[]]]; [discriminate H|]. injection H as ->. intros Hin.
  apply list_elem_of_singleton in Hin. discriminate Hin.
Qed.
