(* ===== verification/LogTailLive.v ===== *)
(** * The tailer catches up

    When the directory holds still, calls succeed and the receiver accepts, one
    run deals with every finished line of every file, whatever happened before. *)

From Stdlib Require Import Ascii.
From stdpp Require Import base list gmap strings sorting.
From S2P Require Import Prelude GoStrings LogTail LogTailLines LogTailProps.
Local Open Scope string_scope.
Local Open Scope list_scope.

Section Live.
  Context {Rec : Type} (Parse : string → Time → option Rec) (base : string) (poll : Duration) (has_probe : bool).
  Context (origin : nat) (w : World).
  Context (Hw : wf base w) (Hlive : is_Some (w_names w !! base)).
  Local Abbreviation St_ := (St (Rec := Rec)).
  Local Abbreviation M_ := (M (Rec := Rec)).
  Local Abbreviation T_ := (Tailer (Rec := Rec)).












(** ** Positions *)







(** ** Draining *)







(** ** Files *)









(** ** Catching up *)




(** ** One turn *)


Section Turn.
  Context (cp : checkpoint) (k c : nat).
  Context (Hk : w_log w !! k = Some (cp_Inode cp)) (Hoff : cp_Offset cp = Z.of_nat c)
          (Hc : (c ≤ String.length (data w (cp_Inode cp)))%nat).
  Context (Hnow : (0 ≤ w_now w)%Z).





End Turn.

(** ** The whole log *)



End Live.



