(* ===== verification/GoText.v ===== *)
(** * Text the standard library renders: quoted strings and dates

    [%q] of package fmt ([strconv.Quote]) and the date of a [time.Time] in UTC.
    Which runes above ASCII are printable is a table of package unicode, here a
    parameter. *)

From Stdlib Require Import Ascii.
From stdpp Require Import base list strings.
From S2P Require Import Prelude GoStrings.
Local Open Scope string_scope.
Local Open Scope list_scope.
Local Open Scope go_scope.

(** ** Quoting *)

Class PrintTables := { unicode_IsPrint : Z → bool }.
Definition no_wide_print : PrintTables := {| unicode_IsPrint _ := false |}.

(** The runes of a string with the bytes they stand for; an invalid byte is
    U+FFFD with that byte. *)
Fixpoint pieces (s : string) : list (Z * string) :=
  match s with
  | EmptyString => []
  | String a0 s1 =>
      let b0 := byte_of a0 in
      let invalid := (RuneError, String a0 "") in
      if (b0 <? 128)%Z then (b0, String a0 "") :: pieces s1
      else match s1 with
      | EmptyString => [invalid]
      | String a1 s2 =>
        let b1 := byte_of a1 in
        if ((194 <=? b0) && (b0 <=? 223) && is_cont b1)%Z
        then (((b0 - 192) * 64 + (b1 - 128))%Z, String a0 (String a1 "")) :: pieces s2
        else match s2 with
        | EmptyString => invalid :: pieces s1
        | String a2 s3 =>
          let b2 := byte_of a2 in
          if ((224 <=? b0) && (b0 <=? 239) && second_ok b0 b1 && is_cont b2)%Z
          then (((b0 - 224) * 4096 + (b1 - 128) * 64 + (b2 - 128))%Z, String a0 (String a1 (String a2 ""))) :: pieces s3
          else match s3 with
          | EmptyString => invalid :: pieces s1
          | String a3 s4 =>
            let b3 := byte_of a3 in
            if ((240 <=? b0) && (b0 <=? 244) && second_ok b0 b1 && is_cont b2 && is_cont b3)%Z
            then (((b0 - 240) * 262144 + (b1 - 128) * 4096 + (b2 - 128) * 64 + (b3 - 128))%Z,
                  String a0 (String a1 (String a2 (String a3 "")))) :: pieces s4
            else invalid :: pieces s1
          end
        end
      end
  end.

Definition hex_char (z : Z) : ascii := ascii_of (if (z <? 10)%Z then 48 + z else 87 + z)%Z.

(** The last [n] hexadecimal digits of [z]. *)
Fixpoint hex_text (n : nat) (z : Z) : string :=
  match n with O => "" | S n' => hex_text n' (z / 16) +:+ String (hex_char (z mod 16)) "" end.

Definition quote_char : string := String (ascii_of 34) "".

(** [appendEscapedRune] for a double-quoted string. *)
Definition escaped {P : PrintTables} (piece : Z * string) : string :=
  let '(r, bytes) := piece in
  if (r =? RuneError)%Z && (String.length bytes =? 1)%nat
  then "\x" +:+ hex_text 2 (match bytes with String a _ => byte_of a | "" => 0%Z end)
  else if (r =? 34)%Z || (r =? 92)%Z then "\" +:+ bytes
  else if ((32 <=? r) && (r <? 127))%Z || ((128 <=? r)%Z && unicode_IsPrint r) then bytes
  else if (r =? 7)%Z then "\a"
  else if (r =? 8)%Z then "\b"
  else if (r =? 12)%Z then "\f"
  else if (r =? 10)%Z then "\n"
  else if (r =? 13)%Z then "\r"
  else if (r =? 9)%Z then "\t"
  else if (r =? 11)%Z then "\v"
  else if (r <? 32)%Z || (r =? 127)%Z then "\x" +:+ hex_text 2 r
  else if (r <? 65536)%Z then "\u" +:+ hex_text 4 r
  else "\U" +:+ hex_text 8 r.

Definition Quote {P : PrintTables} (s : string) : string :=
  quote_char +:+ Join (map escaped (pieces s)) "" +:+ quote_char.

Example quote_plain : @Quote no_wide_print "web-1" = quote_char +:+ "web-1" +:+ quote_char.
Proof. vm_compute. reflexivity. Qed.

(** ** Dates

    Days are counted from 1 January of year 1, where Go's zero time lies. *)

Definition day_number (t : Time) : Z := t / (24 * Hour).

Definition is_leap (y : Z) : bool := (y mod 4 =? 0)%Z && (negb (y mod 100 =? 0)%Z || (y mod 400 =? 0)%Z).

(** The day of the year before each month. *)
Definition days_before (leap : bool) (m : Z) : Z :=
  let common := nth (Z.to_nat (m - 1)) [0; 31; 59; 90; 120; 151; 181; 212; 243; 273; 304; 334]%Z 0%Z in
  if leap && (2 <? m)%Z then (common + 1)%Z else common.

Fixpoint month_of (fuel : nat) (leap : bool) (m doy : Z) : Z :=
  match fuel with
  | O => m
  | S fuel' => if (days_before leap m <=? doy)%Z then m else month_of fuel' leap (m - 1) doy
  end.

(** Centuries, four-year cycles and years of a 400-year cycle; the last day of a
    cycle belongs to its last year. *)
Definition Date (n : Z) : Z * Z * Z :=
  let era := (n / 146097)%Z in
  let d := (n mod 146097)%Z in
  let c := Z.min (d / 36524) 3 in
  let d := (d - 36524 * c)%Z in
  let q := (d / 1461)%Z in
  let d := (d mod 1461)%Z in
  let y := Z.min (d / 365) 3 in
  let doy := (d - 365 * y)%Z in
  let year := (400 * era + 100 * c + 4 * q + y + 1)%Z in
  let month := month_of 11 (is_leap year) 12 doy in
  (year, month, (doy - days_before (is_leap year) month + 1)%Z).

(** The day a date names. *)
Definition day_of (date : Z * Z * Z) : Z :=
  let '(y, m, d) := date in
  (365 * (y - 1) + (y - 1) / 4 - (y - 1) / 100 + (y - 1) / 400 + days_before (is_leap y) m + d - 1)%Z.

Definition digit (z : Z) : ascii := ascii_of (48 + z mod 10).
Definition digits2 (z : Z) : string := String (digit (z / 10)) (String (digit z) "").

(** [t.UTC().Format] with the layout 20060102. *)
Definition FormatDay (t : Time) : string :=
  let '(y, m, d) := Date (day_number t) in
  (if (y <? 10000)%Z then digits2 (y / 100) +:+ digits2 y else FormatInt y) +:+ digits2 m +:+ digits2 d.

Example format_day : FormatDay (63926928000 * Second)%Z = "20261007".
Proof. vm_compute. reflexivity. Qed.

(** *** The date and the day are inverse *)

(** The parts of a day number. *)
Record split_day (n era c q y doy : Z) : Prop := {
  sd_n : (n = 146097 * era + 36524 * c + 1461 * q + 365 * y + doy)%Z;
  sd_c : (0 ≤ c ≤ 3)%Z;
  sd_q : (0 ≤ q ≤ 24)%Z;
  sd_y : (0 ≤ y ≤ 3)%Z;
  sd_doy : (0 ≤ doy ≤ 365)%Z;
  sd_leap : (doy = 365 → y = 3 ∧ (q = 24 → c = 3))%Z;
}.

Lemma Date_split n :
  ∃ era c q y doy, split_day n era c q y doy ∧
    let year := (400 * era + 100 * c + 4 * q + y + 1)%Z in
    let month := month_of 11 (is_leap year) 12 doy in
    Date n = (year, month, (doy - days_before (is_leap year) month + 1)%Z).
Proof.
  unfold Date. do 5 eexists. split; [|reflexivity]. constructor.
  all: pose proof (Z.div_mod n 146097 ltac:(lia)); pose proof (Z.mod_pos_bound n 146097 ltac:(lia)).
  all: set (d := (n mod 146097)%Z) in *; pose proof (Z.div_mod d 36524 ltac:(lia)); pose proof (Z.mod_pos_bound d 36524 ltac:(lia)).
  all: set (d1 := (d - 36524 * Z.min (d / 36524) 3)%Z) in *; pose proof (Z.div_mod d1 1461 ltac:(lia)); pose proof (Z.mod_pos_bound d1 1461 ltac:(lia)).
  all: set (d2 := (d1 mod 1461)%Z) in *; pose proof (Z.div_mod d2 365 ltac:(lia)); pose proof (Z.mod_pos_bound d2 365 ltac:(lia)); lia.
Qed.

Lemma day_of_Date n : day_of (Date n) = n.
Proof.
  destruct (Date_split n) as (era & c & q & y & doy & [Hn Hc Hq Hy Hd _] & ->). cbv zeta. unfold day_of.
  set (l := is_leap _). set (m := month_of _ _ _ _).
  replace (400 * era + 100 * c + 4 * q + y + 1 - 1)%Z with (400 * era + 100 * c + 4 * q + y)%Z by lia.
  rewrite <- (Z.div_unique_pos (400 * era + 100 * c + 4 * q + y) 4 (100 * era + 25 * c + q) y) by lia.
  rewrite <- (Z.div_unique_pos (400 * era + 100 * c + 4 * q + y) 100 (4 * era + c) (4 * q + y)) by lia.
  rewrite <- (Z.div_unique_pos (400 * era + 100 * c + 4 * q + y) 400 era (100 * c + 4 * q + y)) by lia. lia.
Qed.

(** The month of a day of the year. *)
Lemma month_of_ok leap doy :
  (0 ≤ doy)%Z → (doy ≤ if leap : bool then 365 else 364)%Z →
  (1 ≤ month_of 11 leap 12 doy ≤ 12 ∧ 1 ≤ doy - days_before leap (month_of 11 leap 12 doy) + 1 ≤ 31)%Z.
Proof.
  intros H1 H2. destruct leap; cbn [month_of]; repeat case_if;
    repeat match goal with H : context [days_before ?l ?m] |- _ =>
      let v := eval vm_compute in (days_before l m) in change (days_before l m) with v in H end;
    match goal with |- context [days_before ?l ?m] =>
      let v := eval vm_compute in (days_before l m) in change (days_before l m) with v end; lia.
Qed.

Lemma leap_day era c q y doy n :
  split_day n era c q y doy → (doy ≤ if is_leap (400 * era + 100 * c + 4 * q + y + 1) then 365 else 364)%Z.
Proof.
  intros [_ Hc Hq Hy Hd Hl]. destruct (is_leap _) eqn:E; [lia|]. destruct (decide (doy = 365)%Z) as [->|]; [|lia].
  destruct (Hl eq_refl) as [-> Hqc]. exfalso. unfold is_leap in E.
  replace ((400 * era + 100 * c + 4 * q + 3 + 1) mod 4)%Z with 0%Z in E
    by (symmetry; apply Z.mod_divide; [lia|]; exists (100 * era + 25 * c + q + 1)%Z; lia).
  cbn [Z.eqb andb] in E. apply orb_false_iff in E as [E1 E2]. apply negb_false_iff, Z.eqb_eq in E1. apply Z.eqb_neq in E2.
  apply Z.mod_divide in E1 as [k Hk]; [|lia]. assert (q = 24)%Z as -> by lia. rewrite (Hqc eq_refl) in E2.
  apply E2, Z.mod_divide; [lia|]. exists (era + 1)%Z. lia.
Qed.

(** A date of the calendar. *)
Lemma Date_ok n : (1 ≤ (Date n).1.2 ≤ 12 ∧ 1 ≤ (Date n).2 ≤ 31)%Z.
Proof.
  destruct (Date_split n) as (era & c & q & y & doy & Hs & ->). apply month_of_ok; [apply Hs|by eapply leap_day].
Qed.

Lemma Date_year n : (0 ≤ n < 3652059)%Z → (1 ≤ (Date n).1.1 < 10000)%Z.
Proof.
  intros Hn. destruct (Date_split n) as (era & c & q & y & doy & [Hs Hc Hq Hy Hd Hl] & ->). cbv zeta. cbn [fst].
  destruct (decide (doy = 365)%Z) as [->|]; [destruct (Hl eq_refl)|]; lia.
Qed.

Lemma digit_inj a b : (0 ≤ a < 10)%Z → (0 ≤ b < 10)%Z → digit a = digit b → a = b.
Proof.
  intros Ha Hb H. unfold digit in H. rewrite !Z.mod_small in H by lia. unfold ascii_of in H.
  apply (f_equal Ascii.N_of_ascii) in H. rewrite !Ascii.N_ascii_embedding in H by lia. lia.
Qed.

Lemma digit_mod a b : digit a = digit b → (a mod 10 = b mod 10)%Z.
Proof.
  intros H. apply (digit_inj (a mod 10) (b mod 10)); [apply Z.mod_pos_bound; lia..|].
  unfold digit. rewrite !Z.mod_mod by lia. exact H.
Qed.

Lemma digits2_inj a b : (0 ≤ a < 100)%Z → (0 ≤ b < 100)%Z → digits2 a = digits2 b → a = b.
Proof.
  intros Ha Hb [= H1%digit_mod H2%digit_mod].
  rewrite !(Z.mod_small (_ / 10)) in H1 by (split; [apply Z.div_pos|apply Z.div_lt_upper_bound]; lia).
  rewrite (Z.div_mod a 10), (Z.div_mod b 10) by lia. lia.
Qed.

(** Two moments of the years 1 to 9999 have the same text exactly on the same
    day. *)
Lemma FormatDay_inj t u :
  (0 ≤ day_number t < 3652059)%Z → (0 ≤ day_number u < 3652059)%Z →
  FormatDay t = FormatDay u → day_number t = day_number u.
Proof.
  intros Ht Hu. unfold FormatDay. rewrite <- (day_of_Date (day_number t)), <- (day_of_Date (day_number u)).
  pose proof (Date_year _ Ht) as Yt. pose proof (Date_year _ Hu) as Yu.
  pose proof (Date_ok (day_number t)) as Ot. pose proof (Date_ok (day_number u)) as Ou.
  rewrite !day_of_Date. rewrite <- (day_of_Date (day_number t)) at 2. rewrite <- (day_of_Date (day_number u)) at 2.
  destruct (Date (day_number t)) as [[y m] d], (Date (day_number u)) as [[y' m'] d']. simpl in Yt, Yu, Ot, Ou.
  rewrite !(proj2 (Z.ltb_lt _ _)) by lia. intros H.
  assert (digits2 (y / 100) = digits2 (y' / 100) ∧ digits2 y = digits2 y' ∧ digits2 m = digits2 m' ∧ digits2 d = digits2 d')
    as (H1 & H2 & H3 & H4) by (unfold digits2 in *; simpl in H; injection H; intros; split_and!; congruence).
  apply digits2_inj in H3, H4; [|lia..]. subst.
  apply digits2_inj in H1; [|split; [apply Z.div_pos|apply Z.div_lt_upper_bound]; lia..].
  assert (y mod 100 = y' mod 100)%Z as H5.
  { injection H2. intros B A. apply digit_mod in A, B.
    rewrite !(Z.rem_mul_r _ 10 10), A, B by lia. done. }
  assert (y = y') as -> by (rewrite (Z.div_mod y 100), (Z.div_mod y' 100) by lia; congruence). done.
Qed.
