(* ===== verification/Posture.v ===== *)
(** * kvisior/internal/posture/posture.go: checks of a cluster snapshot

    A snapshot is what the sensor sent, decoded into the structures of the
    source; policies of type Build look at the images of the cluster and their
    history, policies of type Deploy at the workloads, network policies and
    services. Every finding has a fingerprint that names its day. *)

From Stdlib Require Import Ascii.
From stdpp Require Import base list gmap strings sorting.
From S2P Require Import Prelude GoStrings GoValue GoText.
Local Open Scope string_scope.
Local Open Scope list_scope.
Local Open Scope go_scope.

Definition maxPatternLength : nat := 256.

Definition systemNamespaces (ns : string) : bool :=
  any (String.eqb ns) ["kube-system"; "kube-public"; "kube-node-lease"; "calico-system"; "calico-apiserver";
                       "cilium"; "cert-manager"].

(** ** Data *)

Record Policy := {
  P_ID : string;
  P_Name : string;
  P_Sev : string;
  P_Action : string;
  P_Namespace : string;
  P_DetType : string;
  P_Enabled : option bool;
  P_TrustedRegistries : string;
  P_BuildInstruction : string;
  P_DeployChecks : list string;
}.

Definition active (p : Policy) : bool := match P_Enabled p with None => true | Some b => b end.
Definition sevOr (p : Policy) (def : string) : string := if P_Sev p != "" then P_Sev p else def.

Record Finding := {
  F_VType : string;
  F_Fingerprint : string;
  F_PolicyID : string;
  F_Policy : string;
  F_Sev : string;
  F_Action : string;
  F_Detail : string;
  F_Image : string;
  F_Instruction : string;
  F_Namespace : string;
  F_BuildCheck : string;
  F_Pending : bool;
  F_Workload : string;
  F_Kind : string;
  F_NS : string;
  F_Check : string;
}.

Definition Subject (f : Finding) : string := if F_VType f == "build" then F_Image f else F_Workload f.
Definition Scope (f : Finding) : string := if F_VType f == "build" then F_Namespace f else F_NS f.

Record meta := { M_Name : string; M_Namespace : string; M_Annotations : gmap string string }.
Record capabilities := { Drop : list string }.
Record seccomp := { SType : string }.
Record securityContext := {
  Privileged : option bool;
  AllowPrivilegeEscalation : option bool;
  RunAsUser : option Z;
  RunAsNonRoot : option bool;
  ReadOnlyRootFilesystem : option bool;
  Capabilities : option capabilities;
  SeccompProfile : option seccomp;
}.
Record podSecurityContext := {
  SupplementalGroups : list Z;
  FSGroup : option Z;
  PodSeccompProfile : option seccomp;
}.
Record port := { ContainerPort : Z; HostPort : Z }.
Record volumeMount := { VM_Name : string; ReadOnly : bool }.
Record container := {
  C_Name : string;
  C_Image : string;
  SecurityContext : option securityContext;
  Ports : list port;
  VolumeMounts : list volumeMount;
  Limits : list (string * value);
  Requests : list (string * value);
  (** [env]: [valueFrom], and [secretKeyRef] in it; [envFrom]: [secretRef]. *)
  Env : list (option (option string));
  EnvFrom : list (option string);
}.
Record volume := { V_Name : string; HostPath : option string }.
Record podSpec := {
  Containers : list container;
  InitContainers : list container;
  HostPID : bool;
  HostIPC : bool;
  HostNetwork : bool;
  PodSecurityContext : option podSecurityContext;
  ServiceAccountName : string;
  AutomountServiceAccountToken : option bool;
  Volumes : list volume;
}.
Record workload := { W_Metadata : meta; W_Spec : podSpec; W_kind : string }.
Record pod := { Pod_Metadata : meta; Pod_Spec : podSpec }.
(** The peers of each rule. *)
Record networkPolicy := { NP_Metadata : meta; NP_Ingress : list (list string); NP_Egress : list (list string) }.
Record service := { S_Metadata : meta; S_Type : string }.
Record Snapshot := {
  Deployments : list workload;
  StatefulSets : list workload;
  DaemonSets : list workload;
  Pods : list pod;
  NetworkPolicies : list networkPolicy;
  Namespaces : list meta;
  Services : list service;
}.

Definition with_kind (kind : string) (w : workload) : workload :=
  {| W_Metadata := W_Metadata w; W_Spec := W_Spec w; W_kind := kind |}.

Definition workloads (s : Snapshot) : list workload :=
  map (with_kind "Deployment") (Deployments s) ++ map (with_kind "StatefulSet") (StatefulSets s)
  ++ map (with_kind "DaemonSet") (DaemonSets s).

(** Layers are their [created_by]. *)
Record History := { H_Image : string; H_Status : string; H_Error : string; H_Layers : list string }.
Record Evaluator := { Cluster : string; Now : Time }.

Definition day (e : Evaluator) : string := FormatDay (Now e).

Definition with_id (f : Finding) (vtype fp : string) : Finding :=
  {| F_VType := vtype; F_Fingerprint := fp; F_PolicyID := F_PolicyID f; F_Policy := F_Policy f; F_Sev := F_Sev f;
     F_Action := F_Action f; F_Detail := F_Detail f; F_Image := F_Image f; F_Instruction := F_Instruction f;
     F_Namespace := F_Namespace f; F_BuildCheck := F_BuildCheck f; F_Pending := F_Pending f; F_Workload := F_Workload f;
     F_Kind := F_Kind f; F_NS := F_NS f; F_Check := F_Check f |}.

Definition build (e : Evaluator) (f : Finding) : Finding :=
  with_id f "build" (Join ["bld"; Cluster e; F_PolicyID f; F_Image f; F_BuildCheck f; day e] "::").
Definition deploy (e : Evaluator) (f : Finding) : Finding :=
  with_id f "deploy" (Join ["dep"; Cluster e; F_PolicyID f; F_Workload f; F_NS f; F_Check f; day e] "::").

(** ** Images of the cluster *)

Record image := { i_ref : string; i_namespaces : gset string }.

(** [add] of [clusterImages]: the images by reference, in the order they were
    met. *)
Fixpoint add_image (ref ns : string) (imgs : list image) : list image :=
  let mark m := if ns != "" then {[ns]} ∪ m else m in
  match imgs with
  | [] => [{| i_ref := ref; i_namespaces := mark ∅ |}]
  | img :: imgs' => if i_ref img == ref then {| i_ref := ref; i_namespaces := mark (i_namespaces img) |} :: imgs'
                    else img :: add_image ref ns imgs'
  end.
Definition add (ref ns : string) (imgs : list image) : list image := if ref == "" then imgs else add_image ref ns imgs.

Definition all_containers (s : podSpec) : list container := Containers s ++ InitContainers s.

(** The references the images come from: running pods, else workloads, else the
    histories. *)
Definition pod_refs (s : Snapshot) : list (string * string) :=
  p ← Pods s; (λ c, (C_Image c, M_Namespace (Pod_Metadata p))) <$> all_containers (Pod_Spec p).
Definition workload_refs (s : Snapshot) : list (string * string) :=
  w ← workloads s; (λ c, (C_Image c, M_Namespace (W_Metadata w))) <$> all_containers (W_Spec w).

Definition add_all (refs : list (string * string)) (imgs : list image) : list image :=
  fold_left (λ imgs rn, add rn.1 rn.2 imgs) refs imgs.

Definition clusterImages (s : option Snapshot) (histories : list History) : list image :=
  let imgs := match s with
              | None => []
              | Some s => match add_all (pod_refs s) [] with
                          | [] => add_all (workload_refs s) []
                          | imgs => imgs
                          end
              end in
  match imgs with [] => add_all (map (λ h, (H_Image h, "")) histories) [] | _ => imgs end.

(** ** Build policies *)

Definition splitList {T : CaseTables} (s : string) : list string :=
  List.filter (λ p, p != "") (map (λ p, ToLower (TrimSpace p)) (Split s ","%char)).

(** The white space of [\s] in package regexp. *)
Definition re_space (a : ascii) : bool := any (Ascii.eqb a) ["009"; "010"; "012"; "013"; "032"]%char.
Fixpoint skip_space (s : string) : string :=
  match s with String a s' => if re_space a then skip_space s' else s | "" => "" end.

(** [ReplaceAllString] with the pattern of a prefix and white space after it. *)
Definition replace_prefix (prefix by_ s : string) : string :=
  if HasPrefix s prefix then
    match sdrop (String.length prefix) s with
    | String a s' => if re_space a then by_ +:+ skip_space s' else s
    | "" => s
    end
  else s.

Definition shown (l : string) : string := replace_prefix "/bin/sh -c" "RUN " (replace_prefix "/bin/sh -c #(nop)" "" l).

Section Evaluate.
  Context {T : CaseTables} {PT : PrintTables}.

Definition inScope (nsFilter : string) (img : image) : bool :=
  (nsFilter == "") || bool_decide (i_namespaces img = ∅) || bool_decide (nsFilter ∈ i_namespaces img).

Definition build_literal (p : Policy) (sev action img detail instruction ns check : string) (pending : bool) : Finding :=
  {| F_VType := ""; F_Fingerprint := ""; F_PolicyID := P_ID p; F_Policy := P_Name p; F_Sev := sevOr p sev;
     F_Action := action; F_Detail := detail; F_Image := img; F_Instruction := instruction; F_Namespace := ns;
     F_BuildCheck := check; F_Pending := pending; F_Workload := ""; F_Kind := ""; F_NS := ""; F_Check := "" |}.

Definition registry_finding (e : Evaluator) (p : Policy) (trusted : list string) (img : image) : option Finding :=
  let nsFilter := TrimSpace (P_Namespace p) in
  if negb (inScope nsFilter img) then None
  else if any (HasPrefix (ToLower (i_ref img))) trusted then None
  else Some (build e (build_literal p "HIGH" (P_Action p) (i_ref img)
         ("Image not from trusted registry. Trusted: " +:+ Join trusted ", ") (P_TrustedRegistries p) nsFilter "registry" false)).

Definition history_finding (e : Evaluator) (p : Policy) (histories : list History) (img : image) : option Finding :=
  let nsFilter := TrimSpace (P_Namespace p) in
  let needle := ToLower (TrimSpace (P_BuildInstruction p)) in
  if negb (inScope nsFilter img) || HasPrefix (i_ref img) "localhost/" || HasPrefix (i_ref img) "localhost:" then None
  else match find_last (λ h, H_Image h == i_ref img) histories with
       | None => None
       | Some h =>
           if (H_Status h == "pending") || (H_Status h == "fetching") then None
           else if H_Status h == "unavailable" then
             let reason := if H_Error h == "" then "registry unreachable" else H_Error h in
             Some (build e (build_literal p "MEDIUM" "alert" (i_ref img) ("History unavailable: " +:+ reason)
                              (P_BuildInstruction p) nsFilter "history" true))
           else match List.find (λ l, Contains (ToLower l) needle) (H_Layers h) with
                | None => None
                | Some l => Some (build e (build_literal p "MEDIUM" (P_Action p) (i_ref img)
                                     ("Layer matches: " +:+ TrimSpace (shown l)) (P_BuildInstruction p) nsFilter "layer" false))
                end
       end.

Definition build_policy (e : Evaluator) (histories : list History) (images : list image) (p : Policy) : list Finding :=
  if negb (active p) || (P_DetType p != "Build") then []
  else
    let trusted := splitList (P_TrustedRegistries p) in
    let pattern := TrimSpace (P_BuildInstruction p) in
    (match trusted with [] => [] | _ => omap (registry_finding e p trusted) images end)
    ++ (if (pattern == "") || (maxPatternLength <? String.length pattern)%nat then []
        else omap (history_finding e p histories) images).

Definition Build (e : Evaluator) (policies : list Policy) (s : option Snapshot) (histories : list History) : list Finding :=
  policies ≫= build_policy e histories (clusterImages s histories).

(** ** Checks of a workload *)

Definition isTrue (b : option bool) : bool := match b with Some b => b | None => false end.
Definition isFalse (b : option bool) : bool := match b with Some b => negb b | None => false end.

Definition no_securityContext : securityContext :=
  {| Privileged := None; AllowPrivilegeEscalation := None; RunAsUser := None; RunAsNonRoot := None;
     ReadOnlyRootFilesystem := None; Capabilities := None; SeccompProfile := None |}.
Definition sc (c : container) : securityContext := default no_securityContext (SecurityContext c).
Definition drops (c : container) : list string :=
  match Capabilities (sc c) with Some k => Drop k | None => [] end.

Definition quantity (m : list (string * value)) (key : string) : bool :=
  match vlookup m key with
  | None | Some VNull => false
  | Some (VStr t) => t != ""
  | Some (VNum t) => negb (f_mant t =? 0)%Z
  | Some _ => true
  end.

Definition after_last (s : string) (c : ascii) : string :=
  match LastIndexByte s c with Some i => sdrop (i + 1) s | None => s end.

Definition latestTag (img : string) : bool :=
  if (img == "") || Contains img "@" then img == ""
  else
    let last := after_last img "/"%char in
    match LastIndexByte last ":"%char with None => true | Some i => sdrop (i + 1) last == "latest" end.

Definition mem (x : string) (l : list string) : bool := any (String.eqb x) l.

Definition writableHostPath (spec : podSpec) : option (string * string) :=
  let writable v := any (λ c, any (λ m, (VM_Name m == V_Name v) && negb (ReadOnly m)) (VolumeMounts c)) (all_containers spec) in
  match List.find (λ v, match HostPath v with Some _ => writable v | None => false end) (Volumes spec) with
  | Some v => (λ path, (V_Name v, path)) <$> HostPath v
  | None => None
  end.

Definition unconfined (p : option seccomp) : bool := match p with Some p => SType p == "Unconfined" | None => false end.

Definition secret_of (c : container) : option string :=
  match List.find (λ e, match e with Some (Some _) => true | _ => false end) (Env c) with
  | Some (Some (Some name)) => Some ("Container " +:+ Quote (C_Name c) +:+ " exposes secret " +:+ Quote name +:+ " as env var")
  | _ => match List.find (λ e : option string, match e with Some _ => true | None => false end) (EnvFrom c) with
         | Some (Some name) => Some ("Container " +:+ Quote (C_Name c) +:+ " exposes all keys of secret " +:+ Quote name +:+ " via envFrom")
         | _ => None
         end
  end.

Fixpoint first_some {A B} (f : A → option B) (l : list A) : option B :=
  match l with [] => None | x :: l' => match f x with Some y => Some y | None => first_some f l' end end.

Definition checkWorkload (check : string) (w : workload) : option string :=
  let spec := W_Spec w in
  let containers := all_containers spec in
  let one_of names := mem check names in
  let found (pred : container → bool) (text : container → string) : option string := text <$> List.find pred containers in
  let when (b : bool) (text : string) : option string := if b then Some text else None in
  if one_of ["no-privileged"; "privileged-pod-rt"] then
    found (λ c, isTrue (Privileged (sc c))) (λ c, "Container " +:+ Quote (C_Name c) +:+ " has privileged: true")
  else if one_of ["no-host-pid"; "host-pid-pod-rt"] then when (HostPID spec) "spec.hostPID is true"
  else if one_of ["no-host-ipc"] then when (HostIPC spec) "spec.hostIPC is true"
  else if one_of ["no-host-net"; "host-network-pod-rt"] then when (HostNetwork spec) "spec.hostNetwork is true"
  else if one_of ["no-priv-esc"] then
    found (λ c, negb (isFalse (AllowPrivilegeEscalation (sc c))))
      (λ c, "Container " +:+ Quote (C_Name c) +:+ " — allowPrivilegeEscalation not false")
  else if one_of ["no-root"] then
    found (λ c, match RunAsUser (sc c) with Some u => (u =? 0)%Z | None => false end || isFalse (RunAsNonRoot (sc c)))
      (λ c, "Container " +:+ Quote (C_Name c) +:+ " runs as root")
  else if one_of ["no-root-group"] then
    when (match PodSecurityContext spec with
          | Some p => any (Z.eqb 0) (SupplementalGroups p) || match FSGroup p with Some g => (g =? 0)%Z | None => false end
          | None => false
          end) "supplementalGroups or fsGroup includes GID 0"
  else if one_of ["drop-net-raw"] then
    found (λ c, negb (mem "NET_RAW" (drops c)) && negb (mem "ALL" (drops c)))
      (λ c, "Container " +:+ Quote (C_Name c) +:+ " does not drop NET_RAW")
  else if one_of ["drop-all-caps"] then
    found (λ c, negb (mem "ALL" (drops c))) (λ c, "Container " +:+ Quote (C_Name c) +:+ " does not drop ALL capabilities")
  else if one_of ["no-seccomp-unconfined"] then
    when (unconfined (PodSecurityContext spec ≫= PodSeccompProfile) || any (λ c, unconfined (SeccompProfile (sc c))) containers)
      "seccompProfile is Unconfined"
  else if one_of ["no-apparmor-unconfined"] then
    let keys := merge_sort str_le (map fst (map_to_list (M_Annotations (W_Metadata w)))) in
    (λ k, "AppArmor annotation " +:+ k +:+ "=unconfined") <$>
      List.find (λ k, HasPrefix k "container.apparmor" && (default "" (M_Annotations (W_Metadata w) !! k) == "unconfined")) keys
  else if one_of ["readonly-root"] then
    found (λ c, negb (isTrue (ReadOnlyRootFilesystem (sc c)))) (λ c, "Container " +:+ Quote (C_Name c) +:+ " has writable root filesystem")
  else if one_of ["no-host-path"] then
    first_some (λ v, (λ path, "Volume " +:+ Quote (V_Name v) +:+ " uses hostPath: " +:+ path) <$> HostPath v) (Volumes spec)
  else if one_of ["no-host-path-write"] then
    (λ np, "hostPath " +:+ Quote np.1 +:+ " mounted writable") <$> writableHostPath spec
  else if one_of ["no-host-path-write-rt"] then
    (λ np, "hostPath " +:+ Quote np.1 +:+ " mounted writable at " +:+ np.2) <$> writableHostPath spec
  else if one_of ["no-host-port"] then
    (λ p, "Port " +:+ FormatInt (ContainerPort p) +:+ " exposes hostPort " +:+ FormatInt (HostPort p)) <$>
      first_some (λ c, List.find (λ p, negb (HostPort p =? 0)%Z) (Ports c)) containers
  else if one_of ["resource-limits"] then
    found (λ c, negb (quantity (Limits c) "cpu") || negb (quantity (Limits c) "memory"))
      (λ c, "Container " +:+ Quote (C_Name c) +:+ " missing CPU/memory limits")
  else if one_of ["resource-requests"] then
    found (λ c, negb (quantity (Requests c) "cpu") || negb (quantity (Requests c) "memory"))
      (λ c, "Container " +:+ Quote (C_Name c) +:+ " missing CPU/memory requests")
  else if one_of ["no-latest-tag"] then
    found (λ c, latestTag (C_Image c)) (λ c, "Container " +:+ Quote (C_Name c) +:+ " uses :latest tag: " +:+ C_Image c)
  else if one_of ["no-default-sa"] then
    when (((ServiceAccountName spec == "") || (ServiceAccountName spec == "default"))
          && negb (isFalse (AutomountServiceAccountToken spec)))
      "Default ServiceAccount with automountServiceAccountToken enabled"
  else if one_of ["secret-as-env-rt"] then first_some secret_of containers
  else None.

(** ** Deploy policies *)

Definition deploy_literal (p : Policy) (sev detail name kind ns check : string) : Finding :=
  {| F_VType := ""; F_Fingerprint := ""; F_PolicyID := P_ID p; F_Policy := P_Name p; F_Sev := sevOr p sev;
     F_Action := P_Action p; F_Detail := detail; F_Image := ""; F_Instruction := ""; F_Namespace := "";
     F_BuildCheck := ""; F_Pending := false; F_Workload := name; F_Kind := kind; F_NS := ns; F_Check := check |}.

Definition skip (nsFilter ns : string) : bool := systemNamespaces ns || ((nsFilter != "") && (ns != nsFilter)).

Definition emit (e : Evaluator) (p : Policy) (check sevDef name kind ns detail : string) : Finding :=
  deploy e (deploy_literal p sevDef detail name kind ns check).

Definition clusterChecks (e : Evaluator) (p : Policy) (s : Snapshot) (nsFilter : string) : list Finding :=
  let has check := mem check (P_DeployChecks p) in
  let covered name := any (λ np, M_Namespace (NP_Metadata np) == name) (NetworkPolicies s) in
  let open_rule (rules : list (list string)) := any (λ peers, match peers with [] => true | _ => false end) rules in
  let on_policies check sev (rules : networkPolicy → list (list string)) way :=
    omap (λ np, let name := M_Name (NP_Metadata np) in let ns := M_Namespace (NP_Metadata np) in
                if skip nsFilter ns then None
                else if open_rule (rules np)
                     then Some (emit e p check sev name "NetworkPolicy" ns ("NetworkPolicy " +:+ Quote name +:+ " allows all " +:+ way))
                     else None) (NetworkPolicies s) in
  (if has "ns-no-netpol-rt" then
     omap (λ m, let name := M_Name m in
                if skip nsFilter name || covered name then None
                else Some (emit e p "ns-no-netpol-rt" "MEDIUM" name "Namespace" name
                             ("Namespace " +:+ Quote name +:+ " has no NetworkPolicy"))) (Namespaces s)
   else [])
  ++ (if has "allow-all-ingress-rt" then on_policies "allow-all-ingress-rt" "HIGH" NP_Ingress "ingress" else [])
  ++ (if has "allow-all-egress-rt" then on_policies "allow-all-egress-rt" "MEDIUM" NP_Egress "egress" else [])
  ++ (if has "nodeport-exposed-rt" then
        omap (λ svc, let name := M_Name (S_Metadata svc) in let ns := M_Namespace (S_Metadata svc) in
                     if skip nsFilter ns || (S_Type svc != "NodePort") then None
                     else Some (emit e p "nodeport-exposed-rt" "MEDIUM" name "Service" ns
                                  ("Service " +:+ Quote name +:+ " is type NodePort"))) (Services s)
      else []).

Definition workload_finding (e : Evaluator) (p : Policy) (w : workload) (check : string) : option Finding :=
  (λ detail, deploy e (deploy_literal p "HIGH" detail (M_Name (W_Metadata w)) (W_kind w) (M_Namespace (W_Metadata w)) check))
    <$> checkWorkload check w.

Definition deploy_policy (e : Evaluator) (s : Snapshot) (p : Policy) : list Finding :=
  if negb (active p) || (P_DetType p != "Deploy") then []
  else
    let nsFilter := TrimSpace (P_Namespace p) in
    (w ← workloads s;
     if (nsFilter != "") && (M_Namespace (W_Metadata w) != nsFilter) then []
     else omap (workload_finding e p w) (P_DeployChecks p))
    ++ clusterChecks e p s nsFilter.

Definition Deploy (e : Evaluator) (policies : list Policy) (s : option Snapshot) : list Finding :=
  match s with None => [] | Some s => policies ≫= deploy_policy e s end.
End Evaluate.
