(* ===== verification/PostureProps.v ===== *)
(** * What the posture checks report

    The checks written as string cases agree with what they are meant to find:
    a declarative account of a violation per check, of the images of a cluster
    and of the findings of a policy. *)

From Stdlib Require Import Ascii.
From stdpp Require Import base list gmap strings sorting.
From S2P Require Import Prelude GoStrings GoValue GoText Posture.
Local Open Scope string_scope.
Local Open Scope list_scope.
Local Open Scope go_scope.

(** ** Violations *)

(** A quantity is set when it is there and neither null, empty nor zero. *)
Definition quantity_set (m : list (string * value)) (key : string) : Prop :=
  ∃ v, vlookup m key = Some v ∧ v ≠ VNull ∧ v ≠ VStr "" ∧ ∀ f, v = VNum f → f_mant f ≠ 0%Z.

(** The tag of an image without a digest is [latest], or there is none: the name
    follows the last slash, the tag the last colon of the name. *)
Inductive latest_image : string → Prop :=
| latest_empty : latest_image ""
| latest_untagged path name :
    path = "" ∨ (∃ p, path = p +:+ "/") → Contains (path +:+ name) "@" = false →
    Contains name "/" = false → Contains name ":" = false → latest_image (path +:+ name)
| latest_tagged path name :
    path = "" ∨ (∃ p, path = p +:+ "/") → Contains (path +:+ name +:+ ":latest") "@" = false →
    Contains name "/" = false → latest_image (path +:+ name +:+ ":latest").

(** What is wrong with one container. *)
Inductive bad_container (c : container) : string → Prop :=
| bad_privileged check : check ∈ ["no-privileged"; "privileged-pod-rt"] → Privileged (sc c) = Some true → bad_container c check
| bad_priv_esc : AllowPrivilegeEscalation (sc c) ≠ Some false → bad_container c "no-priv-esc"
| bad_root_user : RunAsUser (sc c) = Some 0%Z → bad_container c "no-root"
| bad_root_allowed : RunAsNonRoot (sc c) = Some false → bad_container c "no-root"
| bad_net_raw : "NET_RAW" ∉ drops c → "ALL" ∉ drops c → bad_container c "drop-net-raw"
| bad_caps : "ALL" ∉ drops c → bad_container c "drop-all-caps"
| bad_seccomp : SeccompProfile (sc c) = Some {| SType := "Unconfined" |} → bad_container c "no-seccomp-unconfined"
| bad_rootfs : ReadOnlyRootFilesystem (sc c) ≠ Some true → bad_container c "readonly-root"
| bad_port p : p ∈ Ports c → HostPort p ≠ 0%Z → bad_container c "no-host-port"
| bad_limits key : key ∈ ["cpu"; "memory"] → ¬ quantity_set (Limits c) key → bad_container c "resource-limits"
| bad_requests key : key ∈ ["cpu"; "memory"] → ¬ quantity_set (Requests c) key → bad_container c "resource-requests"
| bad_image : latest_image (C_Image c) → bad_container c "no-latest-tag"
| bad_env name : Some (Some name) ∈ Env c → bad_container c "secret-as-env-rt"
| bad_envFrom name : Some name ∈ EnvFrom c → bad_container c "secret-as-env-rt".

Inductive Violates (w : workload) : string → Prop :=
| V_container c check : c ∈ all_containers (W_Spec w) → bad_container c check → Violates w check
| V_pid check : check ∈ ["no-host-pid"; "host-pid-pod-rt"] → HostPID (W_Spec w) = true → Violates w check
| V_ipc : HostIPC (W_Spec w) = true → Violates w "no-host-ipc"
| V_net check : check ∈ ["no-host-net"; "host-network-pod-rt"] → HostNetwork (W_Spec w) = true → Violates w check
| V_groups p : PodSecurityContext (W_Spec w) = Some p → 0%Z ∈ SupplementalGroups p → Violates w "no-root-group"
| V_fsgroup p : PodSecurityContext (W_Spec w) = Some p → FSGroup p = Some 0%Z → Violates w "no-root-group"
| V_seccomp p : PodSecurityContext (W_Spec w) = Some p → PodSeccompProfile p = Some {| SType := "Unconfined" |} →
    Violates w "no-seccomp-unconfined"
| V_apparmor k : M_Annotations (W_Metadata w) !! k = Some "unconfined" → (∃ t, k = "container.apparmor" +:+ t) →
    Violates w "no-apparmor-unconfined"
| V_hostpath v path : v ∈ Volumes (W_Spec w) → HostPath v = Some path → Violates w "no-host-path"
| V_writable check v path c m : check ∈ ["no-host-path-write"; "no-host-path-write-rt"] →
    v ∈ Volumes (W_Spec w) → HostPath v = Some path → c ∈ all_containers (W_Spec w) → m ∈ VolumeMounts c →
    VM_Name m = V_Name v → ReadOnly m = false → Violates w check
| V_account : ServiceAccountName (W_Spec w) ∈ [""; "default"] → AutomountServiceAccountToken (W_Spec w) ≠ Some false →
    Violates w "no-default-sa".

(** ** The checks decide them *)

Lemma mem_spec x l : mem x l = true ↔ x ∈ l.
Proof.
  unfold mem. rewrite any_true. split; [intros (y & Hy & E); bool_hyps; by subst|]. intros H. exists x. split; [done|apply String.eqb_refl].
Qed.
Lemma mem_false x l : mem x l = false ↔ x ∉ l.
Proof. rewrite <- mem_spec. by destruct (mem x l). Qed.

Lemma quantity_spec m key : quantity m key = true ↔ quantity_set m key.
Proof.
  unfold quantity, quantity_set. split.
  - destruct (vlookup m key) as [[| | f | s | |]|]; intros H; try done; bool_hyps; eexists; split_and!; try done.
    + intros g [= ->]. done.
    + intros [= ->]. done.
  - intros (v & -> & H1 & H2 & H3). destruct v as [| |f|s| |]; try done.
    + apply negb_true_iff, Z.eqb_neq. by apply H3.
    + apply negb_true_iff, String.eqb_neq. congruence.
Qed.

Lemma find_is_Some {A} (f : A → bool) l : is_Some (List.find f l) ↔ ∃ x, x ∈ l ∧ f x = true.
Proof.
  split.
  - intros [x H]. apply find_some in H as [H1%list_elem_of_In H2]. eauto.
  - intros (x & Hx & Hf). destruct (List.find f l) as [y|] eqn:E; [eauto|]. apply find_None in E. rewrite Forall_forall in E.
    by rewrite (E x Hx) in Hf.
Qed.

Lemma first_some_is_Some {A B} (f : A → option B) l : is_Some (first_some f l) ↔ ∃ x, x ∈ l ∧ is_Some (f x).
Proof.
  induction l as [|a l IH]; simpl.
  - split; [by intros []|]. by intros (x & ?%not_elem_of_nil & _).
  - destruct (f a) as [b|] eqn:E.
    + split; [|by eauto]. intros _. exists a. split; [left|by rewrite E].
    + rewrite IH. split; intros (x & Hx & Hf); exists x; (split; [|done]); [by right|].
      apply elem_of_cons in Hx as [->|Hx]; [|done]. rewrite E in Hf. by destruct Hf.
Qed.

Lemma secret_of_spec {PT : PrintTables} c :
  is_Some (secret_of c) ↔ (∃ name, Some (Some name) ∈ Env c) ∨ (∃ name, Some name ∈ EnvFrom c).
Proof.
  unfold secret_of. destruct (List.find _ (Env c)) as [e|] eqn:E1.
  - apply find_some in E1 as [H1%list_elem_of_In H2]. destruct e as [[name|]|]; try done. split; [by eauto|]. by eauto.
  - apply find_None in E1. rewrite Forall_forall in E1.
    assert (¬ ∃ name, Some (Some name) ∈ Env c) as Hno by (intros [name Hn]; by specialize (E1 _ Hn)).
    destruct (List.find _ (EnvFrom c)) as [e|] eqn:E2.
    + apply find_some in E2 as [H1%list_elem_of_In H2]. destruct e as [name|]; [|done]. split; [by eauto|]. by eauto.
    + apply find_None in E2. rewrite Forall_forall in E2. split; [by intros []|]. intros [H|[name Hn]]; [done|]. by specialize (E2 _ Hn).
Qed.

Lemma writable_spec s :
  is_Some (writableHostPath s) ↔
  ∃ v path c m, v ∈ Volumes s ∧ HostPath v = Some path ∧ c ∈ all_containers s ∧ m ∈ VolumeMounts c
                ∧ VM_Name m = V_Name v ∧ ReadOnly m = false.
Proof.
  unfold writableHostPath. set (p := λ v, match HostPath v with Some _ => _ | None => false end).
  assert (∀ v, p v = true ↔ ∃ path c m, HostPath v = Some path ∧ c ∈ all_containers s ∧ m ∈ VolumeMounts c
                ∧ VM_Name m = V_Name v ∧ ReadOnly m = false) as Hp.
  { intros v. unfold p. destruct (HostPath v) as [path|]; [|split; [done|by intros (? & ? & ? & ? & _)]].
    rewrite any_true. split.
    - intros (c & Hc & H). apply any_true in H as (m & Hm & H). bool_hyps. by exists path, c, m.
    - intros (_ & c & m & _ & Hc & Hm & H1 & H2). exists c. split; [done|]. apply any_true. exists m. split; [done|].
      by rewrite H1, H2, String.eqb_refl. }
  destruct (List.find p (Volumes s)) as [v|] eqn:E.
  - apply find_some in E as [H1%list_elem_of_In H2]. apply Hp in H2 as (path & c & m & Hpath & Hc & Hm & Hn & Hr).
    rewrite Hpath. split; [|by eauto]. intros _. by exists v, path, c, m.
  - apply find_None in E. rewrite Forall_forall in E. split; [by intros []|].
    intros (v & path & c & m & Hv & H). specialize (E v Hv). assert (p v = true) by (apply Hp; eauto). congruence.
Qed.

(** *** Image tags *)

Lemma last_split s c i :
  LastIndexByte s c = Some i → ∃ a b, s = a +:+ String c b ∧ String.length a = i ∧ LastIndexByte b c = None.
Proof.
  revert i. induction s as [|x s IH]; intros i; simpl; [done|]. destruct (LastIndexByte s c) as [j|] eqn:E.
  - intros [= <-]. destruct (IH j eq_refl) as (a & b & -> & <- & H). by exists (String x a), b.
  - destruct (Ascii.eqb_spec x c) as [->|]; intros [= <-]. by exists "", s.
Qed.

Lemma last_app a c b : LastIndexByte b c = None → LastIndexByte (a +:+ String c b) c = Some (String.length a).
Proof. intros H. induction a as [|x a IH]; simpl; [by rewrite H, Ascii.eqb_refl|]. by rewrite IH. Qed.

Lemma last_app_Some a c b : is_Some (LastIndexByte (a +:+ String c b) c).
Proof.
  induction a as [|x a [i IH]]; simpl; [|rewrite IH; eauto]. destruct (LastIndexByte b c); [eauto|]. by rewrite Ascii.eqb_refl.
Qed.

Lemma last_None s c : LastIndexByte s c = None ↔ Contains s (String c "") = false.
Proof.
  rewrite <- not_true_iff_false, Contains_spec. split.
  - intros H (a & b & ->). simpl in H. destruct (last_app_Some a c b) as [i Hi]. congruence.
  - intros H. destruct (LastIndexByte s c) as [i|] eqn:E; [|done]. apply last_split in E as (a & b & -> & _). destruct H. by exists a, b.
Qed.

(** A name after a directory. *)
Definition dir (path : string) : Prop := path = "" ∨ ∃ p, path = p +:+ "/".

Lemma after_last_dir path name : dir path → Contains name "/" = false → after_last (path +:+ name) "/" = name.
Proof.
  intros [->|[p ->]] H%last_None; unfold after_last.
  - simpl. by rewrite H.
  - rewrite app_assoc_s. simpl. rewrite last_app by done. rewrite <- (app_assoc_s p "/" name : _ = p +:+ String "/" name).
    replace (String.length p + 1)%nat with (String.length (p +:+ "/")) by (by rewrite length_app_s). apply sdrop_app.
Qed.

Lemma after_last_split s : ∃ path, dir path ∧ s = path +:+ after_last s "/" ∧ Contains (after_last s "/") "/" = false.
Proof.
  unfold after_last. destruct (LastIndexByte s "/") as [i|] eqn:E.
  - apply last_split in E as (a & b & -> & <- & Hb). exists (a +:+ "/"). rewrite <- (app_assoc_s a "/" b : _ = a +:+ String "/" b).
    replace (String.length a + 1)%nat with (String.length (a +:+ "/")) by (by rewrite length_app_s). rewrite sdrop_app.
    split_and!; [by right; exists a|done|by apply last_None].
  - exists "". split_and!; [by left|done|by apply last_None].
Qed.

Lemma contains_tag name : Contains name "/" = false → Contains (name +:+ ":latest") "/" = false.
Proof.
  rewrite <- !(last_None _ "/"%char). induction name as [|x name IH]; simpl; [done|].
  destruct (LastIndexByte name "/"); [done|]. rewrite IH by done. done.
Qed.

Lemma latestTag_spec img : latestTag img = true ↔ latest_image img.
Proof.
  unfold latestTag. split.
  - case_if; [intros ->%String.eqb_eq; constructor|]. destruct (after_last_split img) as (path & Hd & Hs & Hc).
    set (last := after_last img "/") in *. destruct (LastIndexByte last ":") as [i|] eqn:E.
    + intros Ht%String.eqb_eq. apply last_split in E as (a & b & El & <- & Hb). rewrite El in Ht.
      rewrite <- (app_assoc_s a ":" b : _ = a +:+ String ":" b) in Ht.
      replace (String.length a + 1)%nat with (String.length (a +:+ ":")) in Ht by (by rewrite length_app_s). rewrite sdrop_app in Ht. subst b.
      rewrite Hs, El in *. apply (latest_tagged path a); [done|done|]. revert Hc. rewrite <- !(last_None _ "/"%char). clear.
      induction a as [|x a IH]; simpl; [done|]. destruct (LastIndexByte (a +:+ ":latest") "/"); [done|]. by rewrite IH.
    + intros _. rewrite Hs in *. apply latest_untagged; [done|done|done|by apply last_None].
  - intros H. destruct H as [|path name Hd Ha Hn Ht|path name Hd Ha Hn]; [done| |].
    + rewrite Ha, orb_false_r, after_last_dir by done. destruct (String.eqb_spec (path +:+ name) ""); [done|]. by apply last_None in Ht as ->.
    + rewrite Ha, orb_false_r, after_last_dir by (done || by apply contains_tag).
      destruct (String.eqb_spec (path +:+ name +:+ ":latest") "") as [E|]; [done|]. simpl. rewrite last_app by done.
      rewrite <- (app_assoc_s name ":" "latest" : _ = name +:+ ":latest").
      replace (String.length name + 1)%nat with (String.length (name +:+ ":")) by (by rewrite length_app_s). by rewrite sdrop_app.
Qed.

(** *** All checks *)

Section Checks.
  Context {T : CaseTables} {PT : PrintTables}.

Lemma found_spec {A B} (pred : A → bool) (text : A → B) l :
  is_Some (text <$> List.find pred l) ↔ ∃ c, c ∈ l ∧ pred c = true.
Proof. by rewrite fmap_is_Some, find_is_Some. Qed.

Lemma when_spec (b : bool) (text : string) : is_Some (if b then Some text else None) ↔ b = true.
Proof. destruct b; split; [done|by eauto|by intros []|done]. Qed.

(** The branch of a check. *)
Local Ltac branch :=
  unfold checkWorkload; cbv zeta;
  repeat match goal with |- context [if mem ?x (?a :: ?l) then _ else _] =>
    let b := eval vm_compute in (mem x (a :: l)) in change (mem x (a :: l)) with b; cbv iota end.
Local Ltac name_of H := repeat (apply elem_of_cons in H as [->|H]); try (apply elem_of_nil in H; done).

(** Every check of a container finds the bad containers. *)
Lemma bad_container_found w c check :
  c ∈ all_containers (W_Spec w) → bad_container c check → is_Some (checkWorkload check w).
Proof.
  intros Hc H. destruct H as [check Hn H|H|H|H|H1 H2|H|H|H|p Hp H|key Hk H|key Hk H|H|name H|name H];
    try name_of Hn; branch; rewrite ?found_spec, ?fmap_is_Some, ?first_some_is_Some, ?when_spec.
  - exists c. split; [done|]. by rewrite H.
  - exists c. split; [done|]. by rewrite H.
  - exists c. split; [done|]. by destruct (AllowPrivilegeEscalation (sc c)) as [[]|].
  - exists c. split; [done|]. by rewrite H.
  - exists c. split; [done|]. rewrite H. by rewrite orb_true_r.
  - exists c. split; [done|]. by rewrite (proj2 (mem_false _ _) H1), (proj2 (mem_false _ _) H2).
  - exists c. split; [done|]. by rewrite (proj2 (mem_false _ _) H).
  - apply orb_true_iff. right. apply any_true. exists c. split; [done|]. by rewrite H.
  - exists c. split; [done|]. by destruct (ReadOnlyRootFilesystem (sc c)) as [[]|].
  - exists c. split; [done|]. apply find_is_Some. exists p. split; [done|]. by apply negb_true_iff, Z.eqb_neq.
  - exists c. split; [done|]. rewrite <- quantity_spec in H. apply orb_true_iff.
    name_of Hk; [left|right]; by apply negb_true_iff, not_true_is_false.
  - exists c. split; [done|]. rewrite <- quantity_spec in H. apply orb_true_iff.
    name_of Hk; [left|right]; by apply negb_true_iff, not_true_is_false.
  - exists c. split; [done|]. by apply latestTag_spec.
  - exists c. split; [done|]. apply secret_of_spec. eauto.
  - exists c. split; [done|]. apply secret_of_spec. eauto.
Qed.

Lemma Violates_found w check : Violates w check → is_Some (checkWorkload check w).
Proof.
  intros H. destruct H as [c check Hc H|check Hn H|H|check Hn H|p Hp H|p Hp H|p Hp H|k Hk [t ->]|v path Hv H|check v path c m Hn Hv Hp Hc Hm H1 H2|H1 H2];
    [by eapply bad_container_found|try name_of Hn; branch..]; rewrite ?found_spec, ?fmap_is_Some, ?first_some_is_Some, ?when_spec, ?writable_spec; try done.
  - rewrite Hp. apply orb_true_iff. left. apply any_true. exists 0%Z. done.
  - rewrite Hp, H. by rewrite orb_true_r.
  - rewrite Hp. simpl. by rewrite H.
  - exists ("container.apparmor" +:+ t). split.
    + rewrite merge_sort_Permutation. apply list_elem_of_fmap. exists ("container.apparmor" +:+ t, "unconfined"). split; [done|].
      by apply elem_of_map_to_list.
    + rewrite HasPrefix_app, Hk. done.
  - exists v. split; [done|]. rewrite H. eauto.
  - by exists v, path, c, m.
  - by exists v, path, c, m.
  - apply andb_true_iff. split.
    + by name_of H1.
    + by destruct (AutomountServiceAccountToken (W_Spec w)) as [[]|].
Qed.

(** Case on which check it is. *)
Local Ltac which E :=
  match goal with |- context [if mem ?check ?l then _ else _] =>
    destruct (mem check l) eqn:E; [apply mem_spec in E|clear E] end.

Lemma found_Violates w check : is_Some (checkWorkload check w) → Violates w check.
Proof.
  unfold checkWorkload. cbv zeta.
  which E; [rewrite found_spec; intros (c & Hc & H); apply (V_container w c); [done|]; apply bad_privileged; [done|];
            by destruct (Privileged (sc c)) as [[]|]|].
  which E; [rewrite when_spec; intros H; by apply V_pid|].
  which E; [name_of E; rewrite when_spec; intros H; by apply V_ipc|].
  which E; [rewrite when_spec; intros H; by apply V_net|].
  which E; [name_of E; rewrite found_spec; intros (c & Hc & H); apply (V_container w c); [done|]; apply bad_priv_esc;
            intros E; by rewrite E in H|].
  which E; [name_of E; rewrite found_spec; intros (c & Hc & [H|H]%orb_true_iff); apply (V_container w c); try done;
            [apply bad_root_user; destruct (RunAsUser (sc c)); bool_hyps; [by subst|done]
            |apply bad_root_allowed; by destruct (RunAsNonRoot (sc c)) as [[]|]]|].
  which E; [name_of E; rewrite when_spec; destruct (PodSecurityContext (W_Spec w)) as [p|] eqn:Ep; [|done];
            intros [H|H]%orb_true_iff; [apply (V_groups w p); [done|]; apply any_true in H as (x & Hx & H); bool_hyps; by subst
            |apply (V_fsgroup w p); [done|]; destruct (FSGroup p); bool_hyps; [by subst|done]]|].
  which E; [name_of E; rewrite found_spec; intros (c & Hc & H); bool_hyps; apply (V_container w c); [done|];
            apply bad_net_raw; by apply mem_false|].
  which E; [name_of E; rewrite found_spec; intros (c & Hc & H); bool_hyps; apply (V_container w c); [done|];
            apply bad_caps; by apply mem_false|].
  which E; [name_of E; rewrite when_spec; intros [H|H]%orb_true_iff;
            [destruct (PodSecurityContext (W_Spec w)) as [p|] eqn:Ep; [|done]; simpl in H; apply (V_seccomp w p); [done|];
             destruct (PodSeccompProfile p) as [[ty]|]; simpl in H; bool_hyps; [by subst|done]
            |apply any_true in H as (c & Hc & H); apply (V_container w c); [done|]; apply bad_seccomp;
             destruct (SeccompProfile (sc c)) as [[ty]|]; simpl in H; bool_hyps; [by subst|done]]|].
  which E; [name_of E; rewrite found_spec; intros (k & Hk & H); bool_hyps; apply (V_apparmor w k);
            [destruct (M_Annotations (W_Metadata w) !! k); simpl in *; congruence|by apply HasPrefix_spec]|].
  which E; [name_of E; rewrite found_spec; intros (c & Hc & H); bool_hyps; apply (V_container w c); [done|]; apply bad_rootfs;
            intros E; by rewrite E in H|].
  which E; [name_of E; rewrite first_some_is_Some; intros (v & Hv & H); rewrite fmap_is_Some in H; destruct H as [path H];
            by apply (V_hostpath w v path)|].
  which E; [rewrite fmap_is_Some, writable_spec; intros (v & path & c & m & H); name_of E; apply (V_writable w _ v path c m); set_solver|].
  which E; [rewrite fmap_is_Some, writable_spec; intros (v & path & c & m & H); name_of E; apply (V_writable w _ v path c m); set_solver|].
  which E; [name_of E; rewrite fmap_is_Some, first_some_is_Some; intros (c & Hc & (p & Hp & H)%find_is_Some); bool_hyps;
            apply (V_container w c); [done|]; by apply (bad_port c p)|].
  which E; [name_of E; rewrite found_spec; intros (c & Hc & [H|H]%orb_true_iff); apply (V_container w c); try done;
            [apply (bad_limits c "cpu")|apply (bad_limits c "memory")]; try set_solver; rewrite <- quantity_spec; bool_hyps; congruence|].
  which E; [name_of E; rewrite found_spec; intros (c & Hc & [H|H]%orb_true_iff); apply (V_container w c); try done;
            [apply (bad_requests c "cpu")|apply (bad_requests c "memory")]; try set_solver; rewrite <- quantity_spec; bool_hyps; congruence|].
  which E; [name_of E; rewrite found_spec; intros (c & Hc & H%latestTag_spec); apply (V_container w c); [done|]; by apply bad_image|].
  which E; [name_of E; rewrite when_spec; intros [H1 H2]%andb_true_iff; apply V_account;
            [apply orb_true_iff in H1 as [H1|H1]; bool_hyps; rewrite H1; set_solver|intros E; by rewrite E in H2]|].
  which E; [|by intros []]. name_of E. rewrite first_some_is_Some. intros (c & Hc & [[name H]|[name H]]%secret_of_spec); apply (V_container w c); try done.
  - by apply (bad_env c name).
  - by apply (bad_envFrom c name).
Qed.

(** A check reports a workload exactly when it violates it. *)
Lemma checkWorkload_exact check w : is_Some (checkWorkload check w) ↔ Violates w check.
Proof. split; [apply found_Violates|apply Violates_found]. Qed.
End Checks.

(** ** The findings of the deploy policies *)

Section Findings.
  Context {T : CaseTables} {PT : PrintTables}.

Definition in_scope (p : Policy) (ns : string) : Prop := TrimSpace (P_Namespace p) = "" ∨ ns = TrimSpace (P_Namespace p).

Definition WorkloadReport (e : Evaluator) (p : Policy) (s : Snapshot) (f : Finding) : Prop :=
  ∃ w check detail, w ∈ workloads s ∧ in_scope p (M_Namespace (W_Metadata w)) ∧ check ∈ P_DeployChecks p ∧ Violates w check
    ∧ f = deploy e (deploy_literal p "HIGH" detail (M_Name (W_Metadata w)) (W_kind w) (M_Namespace (W_Metadata w)) check)
    ∧ checkWorkload check w = Some detail.

Inductive ClusterReport (e : Evaluator) (p : Policy) (s : Snapshot) : Finding → Prop :=
| CR_uncovered m : "ns-no-netpol-rt" ∈ P_DeployChecks p → m ∈ Namespaces s → systemNamespaces (M_Name m) = false →
    in_scope p (M_Name m) → (∀ np, np ∈ NetworkPolicies s → M_Namespace (NP_Metadata np) ≠ M_Name m) →
    ClusterReport e p s (emit e p "ns-no-netpol-rt" "MEDIUM" (M_Name m) "Namespace" (M_Name m)
                           ("Namespace " +:+ Quote (M_Name m) +:+ " has no NetworkPolicy"))
| CR_ingress np : "allow-all-ingress-rt" ∈ P_DeployChecks p → np ∈ NetworkPolicies s →
    systemNamespaces (M_Namespace (NP_Metadata np)) = false → in_scope p (M_Namespace (NP_Metadata np)) → [] ∈ NP_Ingress np →
    ClusterReport e p s (emit e p "allow-all-ingress-rt" "HIGH" (M_Name (NP_Metadata np)) "NetworkPolicy" (M_Namespace (NP_Metadata np))
                           ("NetworkPolicy " +:+ Quote (M_Name (NP_Metadata np)) +:+ " allows all ingress"))
| CR_egress np : "allow-all-egress-rt" ∈ P_DeployChecks p → np ∈ NetworkPolicies s →
    systemNamespaces (M_Namespace (NP_Metadata np)) = false → in_scope p (M_Namespace (NP_Metadata np)) → [] ∈ NP_Egress np →
    ClusterReport e p s (emit e p "allow-all-egress-rt" "MEDIUM" (M_Name (NP_Metadata np)) "NetworkPolicy" (M_Namespace (NP_Metadata np))
                           ("NetworkPolicy " +:+ Quote (M_Name (NP_Metadata np)) +:+ " allows all egress"))
| CR_nodeport svc : "nodeport-exposed-rt" ∈ P_DeployChecks p → svc ∈ Services s →
    systemNamespaces (M_Namespace (S_Metadata svc)) = false → in_scope p (M_Namespace (S_Metadata svc)) → S_Type svc = "NodePort" →
    ClusterReport e p s (emit e p "nodeport-exposed-rt" "MEDIUM" (M_Name (S_Metadata svc)) "Service" (M_Namespace (S_Metadata svc))
                           ("Service " +:+ Quote (M_Name (S_Metadata svc)) +:+ " is type NodePort")).

Lemma scope_spec p ns : ((TrimSpace (P_Namespace p) != "") && (ns != TrimSpace (P_Namespace p))) = false ↔ in_scope p ns.
Proof.
  unfold in_scope. destruct (String.eqb_spec (TrimSpace (P_Namespace p)) "") as [->|H1], (String.eqb_spec ns (TrimSpace (P_Namespace p))) as [->|H2];
    simpl; split; auto; try done. intros [H|H]; congruence.
Qed.

Lemma skip_spec p ns : skip (TrimSpace (P_Namespace p)) ns = false ↔ systemNamespaces ns = false ∧ in_scope p ns.
Proof. unfold skip. by rewrite orb_false_iff, scope_spec. Qed.

(** A finding of a list of objects, when the policy has the check. *)
Lemma elem_of_checked {A} (b : bool) (g : A → option Finding) l f :
  f ∈ (if b then omap g l else []) ↔ b = true ∧ ∃ x, x ∈ l ∧ g x = Some f.
Proof. destruct b; [by rewrite list_elem_of_omap; naive_solver|]. by rewrite elem_of_nil; naive_solver. Qed.

Lemma if_None {A} (b : bool) (x y : A) : (if b then None else Some x) = Some y ↔ b = false ∧ x = y.
Proof. destruct b; naive_solver. Qed.

Lemma open_rule_spec (rules : list (list string)) :
  any (λ peers : list string, match peers with [] => true | _ => false end) rules = true ↔ [] ∈ rules.
Proof.
  rewrite any_true. split; [intros (x & Hx & H); by destruct x|]. intros H. by exists [].
Qed.

Lemma on_policy_spec p ns (b : bool) (x f : Finding) :
  (if skip (TrimSpace (P_Namespace p)) ns then None else if b then Some x else None) = Some f
  ↔ (systemNamespaces ns = false ∧ in_scope p ns) ∧ b = true ∧ x = f.
Proof. rewrite <- skip_spec. destruct (skip _ ns), b; naive_solver. Qed.

Lemma clusterChecks_exact e p s f : f ∈ clusterChecks e p s (TrimSpace (P_Namespace p)) ↔ ClusterReport e p s f.
Proof.
  unfold clusterChecks. cbv zeta. rewrite !elem_of_app, !elem_of_checked, !mem_spec. split.
  - intros [[Hc (m & Hm & H)]|[[Hc (np & Hn & H)]|[[Hc (np & Hn & H)]|[Hc (svc & Hs & H)]]]].
    + rewrite if_None, orb_false_iff, skip_spec in H. destruct H as [[[H1 H2] H3] <-]. apply CR_uncovered; try done.
      intros np Hnp Heq. rewrite any_false in H3. specialize (H3 np Hnp). bool_hyps. done.
    + rewrite on_policy_spec, open_rule_spec in H. destruct H as ((H1 & H2) & H3 & <-). by apply CR_ingress.
    + rewrite on_policy_spec, open_rule_spec in H. destruct H as ((H1 & H2) & H3 & <-). by apply CR_egress.
    + rewrite if_None, orb_false_iff, skip_spec, negb_false_iff, String.eqb_eq in H. destruct H as [[[H1 H2] H3] <-]. by apply CR_nodeport.
  - intros [m Hc Hm H1 H2 H3|np Hc Hn H1 H2 H3|np Hc Hn H1 H2 H3|svc Hc Hs H1 H2 H3].
    + left. split; [done|]. exists m. split; [done|]. rewrite if_None, orb_false_iff, skip_spec. split_and!; try done.
      apply any_false. intros np Hnp. apply String.eqb_neq. auto.
    + right; left. split; [done|]. exists np. split; [done|]. by rewrite on_policy_spec, open_rule_spec.
    + right; right; left. split; [done|]. exists np. split; [done|]. by rewrite on_policy_spec, open_rule_spec.
    + right; right; right. split; [done|]. exists svc. split; [done|].
      by rewrite if_None, orb_false_iff, skip_spec, negb_false_iff, String.eqb_eq.
Qed.

Lemma deploy_policy_spec e s p f :
  f ∈ deploy_policy e s p ↔
  active p = true ∧ P_DetType p = "Deploy" ∧ (WorkloadReport e p s f ∨ ClusterReport e p s f).
Proof.
  unfold deploy_policy. destruct (active p); [|by rewrite elem_of_nil; naive_solver]. cbn [negb orb].
  destruct (String.eqb_spec (P_DetType p) "Deploy") as [Hd|Hd]; cbn [negb]; [|by rewrite elem_of_nil; naive_solver].
  rewrite elem_of_app, clusterChecks_exact, list_elem_of_bind. unfold WorkloadReport. split.
  - intros [(w & Hf & Hw)|H]; [|by auto]. split_and!; [done|done|left].
    destruct ((TrimSpace (P_Namespace p) != "") && _) eqn:E; [by apply elem_of_nil in Hf|]. apply scope_spec in E.
    apply list_elem_of_omap in Hf as (check & Hc & H). unfold workload_finding in H. apply fmap_Some in H as (detail & Hd' & ->).
    exists w, check, detail. split_and!; try done. apply checkWorkload_exact. by rewrite Hd'.
  - intros (_ & _ & [(w & check & detail & Hw & Hs & Hc & _ & -> & Hd')|H]); [left|by auto]. exists w. split; [|done].
    apply scope_spec in Hs as ->. apply list_elem_of_omap. exists check. split; [done|]. unfold workload_finding. by rewrite Hd'.
Qed.

(** C14: a deploy finding is reported exactly for what violates a check: the
    findings of an evaluation are those of the active policies of type Deploy
    whose scope holds a workload that violates one of the policy's checks, a
    namespace without a network policy, a network policy open to all peers or a
    service on a node port, system namespaces aside for the latter. *)
Theorem Deploy_exact e policies s f :
  f ∈ Deploy e policies (Some s) ↔
  ∃ p, p ∈ policies ∧ active p = true ∧ P_DetType p = "Deploy" ∧ (WorkloadReport e p s f ∨ ClusterReport e p s f).
Proof.
  unfold Deploy. rewrite list_elem_of_bind. split.
  - intros (p & Hf & Hp). exists p. split; [done|]. by apply deploy_policy_spec.
  - intros (p & Hp & H). exists p. split; [|done]. by apply deploy_policy_spec.
Qed.

(** ** The images of a cluster *)

(** [imgs] are the images of the references [refs], each once, with the
    namespaces it was met in. *)
Record images_of (refs : list (string * string)) (imgs : list image) : Prop := {
  io_nodup : NoDup (map i_ref imgs);
  io_refs : ∀ r, r ∈ map i_ref imgs ↔ r ≠ "" ∧ ∃ n, (r, n) ∈ refs;
  io_ns : ∀ img n, img ∈ imgs → n ∈ i_namespaces img ↔ n ≠ "" ∧ (i_ref img, n) ∈ refs;
}.

Lemma add_image_refs r n imgs : r ∈ map i_ref imgs → map i_ref (add_image r n imgs) = map i_ref imgs.
Proof.
  induction imgs as [|i imgs IH]; simpl; [by intros ?%not_elem_of_nil|]. destruct (String.eqb_spec (i_ref i) r) as [->|Hne]; [done|].
  intros [H|H]%elem_of_cons; [congruence|]. simpl. by rewrite IH.
Qed.

Lemma add_image_new r n imgs :
  r ∉ map i_ref imgs → add_image r n imgs = imgs ++ [{| i_ref := r; i_namespaces := if n != "" then {[n]} ∪ ∅ else ∅ |}].
Proof.
  induction imgs as [|i imgs IH]; simpl; intros H; [done|]. apply not_elem_of_cons in H as [H1 H2].
  destruct (String.eqb_spec (i_ref i) r) as [E|_]; [congruence|]. by rewrite IH.
Qed.

(** The images after adding: the one of [r] has the namespace too. *)
Lemma elem_of_add_image r n imgs img :
  NoDup (map i_ref imgs) → r ∈ map i_ref imgs →
  img ∈ add_image r n imgs ↔
  (i_ref img ≠ r ∧ img ∈ imgs)
  ∨ ∃ i, i ∈ imgs ∧ i_ref i = r ∧ img = {| i_ref := r; i_namespaces := if n != "" then {[n]} ∪ i_namespaces i else i_namespaces i |}.
Proof.
  induction imgs as [|i imgs IH]; simpl; intros Hnd Hr; [by apply not_elem_of_nil in Hr|].
  apply NoDup_cons in Hnd as [Hi Hnd]. destruct (String.eqb_spec (i_ref i) r) as [<-|Hne].
  - rewrite elem_of_cons. split.
    + intros [->|H]; [right; exists i; split; [left|done]|left]. split; [|by right]. intros E. apply Hi. rewrite <- E.
      by apply list_elem_of_fmap_2.
    + intros [[H1 [->|H2]%elem_of_cons]|(i' & [->|Hi']%elem_of_cons & E & ->)]; [done|by right|by left|].
      destruct Hi. rewrite <- E. by apply list_elem_of_fmap_2.
  - apply elem_of_cons in Hr as [Hr|Hr]; [congruence|]. rewrite elem_of_cons, IH by done. split.
    + intros [->|[[H1 H2]|(i' & Hi' & H)]]; [left; split; [done|left]|left; split; [done|by right]|right; exists i'; split; [by right|done]].
    + intros [[H1 [->|H2]%elem_of_cons]|(i' & [->|Hi']%elem_of_cons & E & H)]; [by left|by right; left|congruence|right; right; by exists i'].
Qed.

Lemma images_of_add refs imgs r n : images_of refs imgs → images_of (refs ++ [(r, n)]) (add r n imgs).
Proof.
  intros [Hnd Hrefs Hns]. unfold add. destruct (String.eqb_spec r "") as [->|Hr].
  - constructor; [done| |].
    + intros x. rewrite Hrefs. split; intros (H1 & m & H2); (split; [done|]); exists m; [by apply elem_of_app; left|].
      apply elem_of_app in H2 as [H2|H2]; [done|]. apply list_elem_of_singleton in H2. congruence.
    + intros img m Hi. rewrite (Hns img m Hi), elem_of_app, list_elem_of_singleton. split; [naive_solver|].
      intros (H1 & [H2|[= E _]]); [done|]. exfalso. assert (i_ref img ≠ "") as Hn by (apply Hrefs; by apply list_elem_of_fmap_2). done.
  - assert (∀ x m, (x, m) ∈ refs ++ [(r, n)] ↔ (x, m) ∈ refs ∨ (x = r ∧ m = n)) as Hin.
    { intros x m. rewrite elem_of_app, list_elem_of_singleton. naive_solver. }
    destruct (decide (r ∈ map i_ref imgs)) as [Hold|Hnew].
    + constructor; [by rewrite add_image_refs| |].
      * intros x. rewrite add_image_refs by done. rewrite Hrefs. setoid_rewrite Hin. split; [naive_solver|].
        intros (H1 & m & [H2|[-> ->]]); [by eauto|]. by apply Hrefs.
      * intros img m Hi. rewrite elem_of_add_image in Hi by done. destruct Hi as [[H1 H2]|(i & Hi & E & ->)].
        -- rewrite (Hns img m H2), Hin. naive_solver.
        -- simpl. rewrite Hin. specialize (Hns i m Hi). rewrite E in Hns. destruct (String.eqb_spec n "") as [->|Hn]; simpl; [naive_solver|].
           rewrite elem_of_union, elem_of_singleton, Hns. naive_solver.
    + rewrite add_image_new by done. constructor.
      * rewrite map_app. apply NoDup_app. split_and!; [done| |apply NoDup_singleton]. simpl. intros x Hx ->%list_elem_of_singleton. done.
      * intros x. rewrite map_app, elem_of_app, Hrefs. simpl. rewrite list_elem_of_singleton. setoid_rewrite Hin. naive_solver.
      * intros img m [Hi|Hi]%elem_of_app.
        -- rewrite (Hns img m Hi), Hin. assert (i_ref img ≠ r) by (intros <-; by apply Hnew, list_elem_of_fmap_2). naive_solver.
        -- apply list_elem_of_singleton in Hi as ->. simpl. rewrite Hin.
           assert ((r, m) ∉ refs) by (intros H; apply Hnew, Hrefs; eauto).
           destruct (String.eqb_spec n "") as [->|Hn]; simpl; set_solver.
Qed.

Lemma add_all_spec refs : images_of refs (add_all refs []).
Proof.
  unfold add_all. induction refs as [|[r n] refs IH] using rev_ind; simpl.
  - constructor; [constructor| |]; simpl; set_solver.
  - rewrite fold_left_app. simpl. by apply images_of_add.
Qed.

(** When a pod runs an image, the images are those of the pods. *)
Lemma clusterImages_pods s histories ref ns :
  ref ≠ "" → (ref, ns) ∈ pod_refs s → images_of (pod_refs s) (clusterImages (Some s) histories).
Proof.
  intros Hr Hp. unfold clusterImages. pose proof (add_all_spec (pod_refs s)) as H.
  destruct (add_all (pod_refs s) []) as [|i imgs]; [|done]. exfalso.
  assert (ref ∈ map i_ref ([] : list image)) as Hin by (apply (io_refs _ _ H); eauto). by apply not_elem_of_nil in Hin.
Qed.

(** The images of any cluster are distinct. *)
Lemma clusterImages_nodup s histories : NoDup (map i_ref (clusterImages s histories)).
Proof.
  unfold clusterImages. destruct s as [s|].
  - destruct (add_all (pod_refs s) []) eqn:E1; [|rewrite <- E1; apply (io_nodup _ _ (add_all_spec (pod_refs s)))].
    destruct (add_all (workload_refs s) []) eqn:E2; [|rewrite <- E2; apply (io_nodup _ _ (add_all_spec (workload_refs s)))].
    apply (io_nodup _ _ (add_all_spec (map (λ h, (H_Image h, "")) histories))).
  - apply (io_nodup _ _ (add_all_spec (map (λ h, (H_Image h, "")) histories))).
Qed.

(** ** The findings of the build policies *)

(** The policy may look at an image of these references. *)
Definition image_in_scope (p : Policy) (refs : list (string * string)) (ref : string) : Prop :=
  (∃ ns, (ref, ns) ∈ refs ∧ in_scope p ns) ∨ (∀ ns, (ref, ns) ∈ refs → ns = "").

Lemma inScope_spec p refs imgs img :
  images_of refs imgs → img ∈ imgs → inScope (TrimSpace (P_Namespace p)) img = true ↔ image_in_scope p refs (i_ref img).
Proof.
  intros H Hi. unfold inScope, image_in_scope, in_scope. rewrite !orb_true_iff, !bool_decide_eq_true, String.eqb_eq.
  assert (∃ ns, (i_ref img, ns) ∈ refs) as [n0 Hn0] by (by apply (io_refs _ _ H), list_elem_of_fmap_2).
  pose proof (λ n, io_ns _ _ H img n Hi) as Hns. split.
  - intros [[Hf|He]|Hin]; [left; by eauto|right|left].
    + intros n Hn. destruct (decide (n = "")) as [|Hne]; [done|]. exfalso. assert (n ∈ i_namespaces img) by (by apply Hns). set_solver.
    + apply Hns in Hin as [_ Hin]. by eauto.
  - intros [(n & Hn & [Hf| ->])|Hall]; [by auto| |left; right].
    + destruct (decide (TrimSpace (P_Namespace p) = "")) as [|Hne]; [by auto|]. right. by apply Hns.
    + apply set_eq. intros n. rewrite Hns. split; [|set_solver]. intros [Hne Hn]. by destruct (Hne (Hall n Hn)).
Qed.

Lemma registry_finding_spec e p refs imgs trusted img f :
  images_of refs imgs → img ∈ imgs →
  registry_finding e p trusted img = Some f →
  image_in_scope p refs (i_ref img) ∧ (∀ t, t ∈ trusted → HasPrefix (ToLower (i_ref img)) t = false)
  ∧ F_PolicyID f = P_ID p ∧ F_Image f = i_ref img ∧ F_BuildCheck f = "registry".
Proof.
  intros Hio Hi. unfold registry_finding. destruct (inScope _ img) eqn:E1; cbn [negb]; [|done].
  destruct (any _ trusted) eqn:E2; [done|]. intros [= <-]. split_and!; [by eapply inScope_spec|by apply any_false|done..].
Qed.

Lemma history_finding_check e p hs img f :
  history_finding e p hs img = Some f →
  F_PolicyID f = P_ID p ∧ F_Image f = i_ref img ∧ (F_BuildCheck f = "history" ∨ F_BuildCheck f = "layer").
Proof.
  unfold history_finding. destruct (negb _ || _ || _); [done|]. destruct (find_last _ hs) as [h|]; [|done].
  destruct (_ || _); [done|]. destruct (H_Status h == "unavailable").
  - intros [= <-]. simpl. auto.
  - destruct (List.find _ (H_Layers h)); [|done]. intros [= <-]. simpl. auto.
Qed.

Lemma elem_of_build_policy e hs imgs p f :
  f ∈ build_policy e hs imgs p →
  (active p = true ∧ P_DetType p = "Build")
  ∧ ((splitList (P_TrustedRegistries p) ≠ [] ∧ ∃ img, img ∈ imgs ∧ registry_finding e p (splitList (P_TrustedRegistries p)) img = Some f)
     ∨ ∃ img, img ∈ imgs ∧ history_finding e p hs img = Some f).
Proof.
  unfold build_policy. destruct (active p); cbn [negb orb]; [|by intros ?%not_elem_of_nil].
  destruct (String.eqb_spec (P_DetType p) "Build"); cbn [negb]; [|by intros ?%not_elem_of_nil].
  intros [H|H]%elem_of_app; (split; [done|]).
  - left. destruct (splitList _) as [|t ts]; [by apply not_elem_of_nil in H|]. split; [done|].
    apply list_elem_of_omap in H as (img & Hi & H). eauto.
  - right. case_if; [by apply not_elem_of_nil in H|]. apply list_elem_of_omap in H as (img & Hi & H). eauto.
Qed.

(** An image a pod runs is reported as not from a trusted registry exactly when
    an active build policy that names registries has it in scope and none of
    them starts its reference. *)
Lemma Build_registry_exact e policies s hs id ref :
  ref ≠ "" → (∃ ns, (ref, ns) ∈ pod_refs s) →
  (∃ f, f ∈ Build e policies (Some s) hs ∧ F_PolicyID f = id ∧ F_Image f = ref ∧ F_BuildCheck f = "registry")
  ↔ ∃ p, p ∈ policies ∧ P_ID p = id ∧ active p = true ∧ P_DetType p = "Build" ∧ splitList (P_TrustedRegistries p) ≠ []
         ∧ image_in_scope p (pod_refs s) ref ∧ ∀ t, t ∈ splitList (P_TrustedRegistries p) → HasPrefix (ToLower ref) t = false.
Proof.
  intros Hr [ns Hn]. pose proof (clusterImages_pods s hs ref ns Hr Hn) as Hio. unfold Build. split.
  - intros (f & (p & Hf & Hp)%list_elem_of_bind & <- & <- & Hc). apply elem_of_build_policy in Hf as [[Ha Hd] [[Ht (img & Hi & H)]|(img & Hi & H)]].
    + destruct (registry_finding_spec _ _ _ _ _ _ _ Hio Hi H) as (H1 & H2 & H3 & H4 & _). exists p. rewrite H3, H4. by split_and!.
    + apply history_finding_check in H as (_ & _ & [H|H]); congruence.
  - intros (p & Hp & <- & Ha & Hd & Ht & Hs & Hall).
    assert (ref ∈ map i_ref (clusterImages (Some s) hs)) as (img & -> & Hi)%list_elem_of_fmap by (apply (io_refs _ _ Hio); eauto).
    destruct (registry_finding e p (splitList (P_TrustedRegistries p)) img) as [f|] eqn:E.
    + exists f. pose proof (registry_finding_spec _ _ _ _ _ _ _ Hio Hi E) as (_ & _ & H). split; [|done].
      apply list_elem_of_bind. exists p. split; [|done]. unfold build_policy. rewrite Ha, Hd. cbn [negb orb]. rewrite String.eqb_refl. cbn [negb].
      apply elem_of_app. left. destruct (splitList _); [done|]. apply list_elem_of_omap. eauto.
    + exfalso. unfold registry_finding in E. rewrite (proj2 (inScope_spec p _ _ img Hio Hi) Hs) in E. cbn [negb] in E.
      rewrite (proj2 (any_false _ _) Hall) in E. done.
Qed.

(** *** One finding per policy, image and check *)

Definition build_key (f : Finding) : string * string * string := (F_PolicyID f, F_Image f, F_BuildCheck f).

Lemma NoDup_omap_key {A B K} (g : A → option B) (key : B → K) (ref : A → string) (l : list A) :
  NoDup (map ref l) → (∀ x y b c, g x = Some b → g y = Some c → key b = key c → ref x = ref y) → NoDup (map key (omap g l)).
Proof.
  intros Hn Hk. induction l as [|x l IH]; simpl; [constructor|]. apply NoDup_cons in Hn as [Hx Hn].
  destruct (g x) as [b|] eqn:E; [|by apply IH]. simpl. apply NoDup_cons. split; [|by apply IH].
  intros (c & Hkc & Hc)%list_elem_of_fmap. apply list_elem_of_omap in Hc as (y & Hy & Hgy). apply Hx.
  rewrite (Hk x y b c) by done. by apply list_elem_of_fmap_2.
Qed.

Lemma registry_key e p trusted img f : registry_finding e p trusted img = Some f → build_key f = (P_ID p, i_ref img, "registry").
Proof. unfold registry_finding. repeat case_if; try done. by intros [= <-]. Qed.

Lemma build_policy_keys e hs imgs p : NoDup (map i_ref imgs) → NoDup (map build_key (build_policy e hs imgs p)).
Proof.
  intros Hn. unfold build_policy. case_if; [constructor|]. rewrite map_app. apply NoDup_app. split_and!.
  - destruct (splitList _) as [|t ts]; [constructor|]. apply (NoDup_omap_key _ _ i_ref); [done|].
    intros x y b c Hb%registry_key Hc%registry_key. congruence.
  - intros k H1 H2. assert (k.2 = "registry") as E1.
    { destruct (splitList _); [by apply not_elem_of_nil in H1|]. apply list_elem_of_fmap in H1 as (f & -> & Hf).
      apply list_elem_of_omap in Hf as (img & _ & ->%registry_key). done. }
    case_if; [by apply not_elem_of_nil in H2|]. apply list_elem_of_fmap in H2 as (f & -> & Hf).
    apply list_elem_of_omap in Hf as (img & _ & (_ & _ & [Hh|Hh])%history_finding_check); simpl in E1; congruence.
  - case_if; [constructor|]. apply (NoDup_omap_key _ _ i_ref); [done|].
    intros x y b c (_ & Hb & _)%history_finding_check (_ & Hc & _)%history_finding_check. unfold build_key. congruence.
Qed.

Lemma build_policy_id e hs imgs p f : f ∈ build_policy e hs imgs p → F_PolicyID f = P_ID p.
Proof.
  intros [_ [[_ (img & _ & H%registry_key)]|(img & _ & H%history_finding_check)]]%elem_of_build_policy; [by injection H|tauto].
Qed.

Lemma Build_distinct e policies s hs : NoDup (map P_ID policies) → NoDup (map build_key (Build e policies s hs)).
Proof.
  unfold Build. pose proof (clusterImages_nodup s hs) as Hn. induction policies as [|p ps IH]; intros Hp; [constructor|].
  apply NoDup_cons in Hp as [Hp Hps]. cbn [mbind list_bind]. rewrite map_app. apply NoDup_app. split_and!; [by apply build_policy_keys| |by apply IH].
  intros k (f & -> & Hf%build_policy_id)%list_elem_of_fmap (g & Hk & Hg)%list_elem_of_fmap.
  apply list_elem_of_bind in Hg as (q & Hg%build_policy_id & Hq). apply Hp. injection Hk as Hk _ _.
  rewrite <- Hf, Hk, Hg. by apply list_elem_of_fmap_2.
Qed.
End Findings.
