(* ===== verification/Violations.v ===== *)
(** * The table kvisior_violations (kvisior/internal/store/store.go, violations.go)

    One row per cluster and fingerprint, with the data of the latest write of the
    violation, when it was first and last seen, and its state, which a person
    sets and which can expire. The data of a violation is a type of its own. *)

From stdpp Require Import base list gmap strings.
From S2P Require Import Prelude.
Local Open Scope string_scope.
Local Open Scope list_scope.
Local Open Scope go_scope.

Section Violations.
  Context {D : Type}.

Record StoredWrite := {
  vw_VType : string; vw_RuleID : string; vw_RuleName : string; vw_Sev : string; vw_NS : string; vw_Pod : string;
  vw_Fingerprint : string; vw_Data : D;
}.

Record StoredViolation := {
  v_ts : Time; v_type : string; v_rule_id : string; v_rule_name : string; v_sev : string; v_namespace : string;
  v_pod : string; v_data : D; v_last_seen : Time; v_state : string; v_state_expires_at : option Time;
}.

(** One statement of [writeViolationSQL] at database time [at_]. *)
Definition upsert (cluster : string) (at_ : Time) (w : StoredWrite) (vs : gmap (string * string) StoredViolation)
  : gmap (string * string) StoredViolation :=
  let key := (cluster, vw_Fingerprint w) in
  let row := match vs !! key with
    | None => {| v_ts := at_; v_type := vw_VType w; v_rule_id := vw_RuleID w; v_rule_name := vw_RuleName w; v_sev := vw_Sev w;
                 v_namespace := vw_NS w; v_pod := vw_Pod w; v_data := vw_Data w; v_last_seen := at_; v_state := "ACTIVE";
                 v_state_expires_at := None |}
    | Some v =>
        let expired := any (String.eqb (v_state v)) ["FP"; "ACK"; "DISMISSED"]
                       && match v_state_expires_at v with Some t => Before t at_ | None => false end in
        {| v_ts := v_ts v; v_type := v_type v; v_rule_id := v_rule_id v; v_rule_name := v_rule_name v; v_sev := v_sev v;
           v_namespace := v_namespace v; v_pod := v_pod v; v_data := vw_Data w; v_last_seen := at_;
           v_state := if expired then "ACTIVE" else v_state v;
           v_state_expires_at := if expired then None else v_state_expires_at v |}
    end in
  <[key := row]> vs.

(** [SetViolationState]; [until] is the time the state expires. *)
Definition SetViolationState (cluster fingerprint state : string) (until : option Time) (vs : gmap (string * string) StoredViolation)
  : gmap (string * string) StoredViolation * bool :=
  if fingerprint == "" then (vs, true)
  else if negb (any (String.eqb state) ["FP"; "ACK"; "ACTIVE"; "DISMISSED"]) then (vs, false)
  else
    (alter (λ v, {| v_ts := v_ts v; v_type := v_type v; v_rule_id := v_rule_id v; v_rule_name := v_rule_name v; v_sev := v_sev v;
                    v_namespace := v_namespace v; v_pod := v_pod v; v_data := v_data v; v_last_seen := v_last_seen v;
                    v_state := state; v_state_expires_at := until |}) (cluster, fingerprint) vs, true).

(** Rows stay, with the time they were first seen. *)
Lemma upsert_keeps c now w vs k v :
  vs !! k = Some v → ∃ v', upsert c now w vs !! k = Some v' ∧ v_ts v' = v_ts v.
Proof.
  intros H. unfold upsert. destruct (decide ((c, vw_Fingerprint w) = k)) as [<-|Hne].
  - rewrite lookup_insert_eq, H. by eexists.
  - rewrite lookup_insert_ne by done. eauto.
Qed.

Lemma upsert_has c now w vs : is_Some (upsert c now w vs !! (c, vw_Fingerprint w)).
Proof. unfold upsert. rewrite lookup_insert_eq. eauto. Qed.

Lemma SetViolationState_keeps c fp state until vs k v :
  vs !! k = Some v → ∃ v', (SetViolationState c fp state until vs).1 !! k = Some v' ∧ v_ts v' = v_ts v.
Proof.
  intros H. unfold SetViolationState. case_if; [eauto|]. case_if; [eauto|]. simpl. destruct (decide ((c, fp) = k)) as [<-|Hne].
  - rewrite lookup_alter_eq, H. by eexists.
  - rewrite lookup_alter_ne by done. eauto.
Qed.
End Violations.
