(* ===== verification/PostureRun.v ===== *)
(** * kvisior/posture.go: evaluating the clusters every minute

    The runner keeps, per cluster, when each finding was first detected, writes a
    violation for every new one, and saves the list the console shows. Memory is
    lost on a restart; the tables of store/posture.go and store/store.go are
    not. Every statement can fail, and a failed write can have happened. *)

From Stdlib Require Import Ascii.
From stdpp Require Import base list gmap strings sorting.
From S2P Require Import Prelude GoStrings GoValue GoText Violations Posture.
Local Open Scope string_scope.
Local Open Scope list_scope.
Local Open Scope go_scope.

Definition postureInterval : Duration := Minute.
Definition postureRefreshEvery : Duration := (5 * Minute)%Z.
Definition PostureFindingsMax : nat := 5000.
Definition DefaultCluster : string := "default".

(** [t.UnixMilli()] *)
Definition UnixMilli (t : Time) : Z := (t - unixEpoch) / 1000000.

Record postureFinding := { pf_Finding : Finding; pf_DetectedAt : Z }.

(** ** The tables *)

Abbreviation ViolationWrite := (StoredWrite (D := postureFinding)).
Abbreviation Violation := (StoredViolation (D := postureFinding)).

Record PostureRow := { p_evaluated_at : Time; p_count : nat; p_findings : list postureFinding }.

(** [postureReady]: the table of the findings exists. *)
Record DB := {
  violations : gmap (string * string) Violation;
  posture : gmap (string * string) PostureRow;
  db_postureReady : bool;
}.

(** The batch is one implicit transaction. *)
Definition WriteViolations (cluster : string) (at_ : Time) (ws : list ViolationWrite) (db : DB) : DB :=
  {| violations := fold_left (λ vs w, upsert cluster at_ w vs) ws (violations db);
     posture := posture db; db_postureReady := db_postureReady db |}.

(** The first-seen times of those fingerprints that have a row. *)
Definition ViolationFirstSeen (cluster : string) (fps : list string) (db : DB) (fp : string) : option Time :=
  if mem fp fps then v_ts <$> violations db !! (cluster, fp) else None.

Definition SavePosture (cluster vtype : string) (evaluatedAt : Time) (count : nat) (findings : list postureFinding) (db : DB) : DB :=
  if negb (db_postureReady db) then db
  else
    let row := {| p_evaluated_at := evaluatedAt; p_count := count; p_findings := findings |} in
    let update := {| violations := violations db; posture := <[(cluster, vtype) := row]> (posture db);
                     db_postureReady := db_postureReady db |} in
    match posture db !! (cluster, vtype) with
    | Some old => if Before evaluatedAt (p_evaluated_at old) then db else update
    | None => update
    end.

(** ** The runner *)

(** What one evaluation meets: the decoded snapshot and histories, the clocks of
    the process and the database, and how its statements end. *)
Record Meeting := {
  m_snapshot : option Snapshot;
  m_histories : option (list History);
  m_now : Time;
  m_dbnow : Time;
  m_known : bool;
  m_write : ending;
  m_stored : bool;
  m_save : string → ending;
}.

Section Runner.
  Context {T : CaseTables} {PT : PrintTables} {O : MapOrder}.
  (** SHA-256 of the JSON text of the list. *)
  Context (Sum256 : list postureFinding → Z).

Record postureSave := { s_sum : Z; s_at : Time }.
Record postureRunner := { r_seen : gmap string (gmap string Z); r_saved : gmap string postureSave }.
Definition newRunner : postureRunner := {| r_seen := ∅; r_saved := ∅ |}.

(** The loop over the findings: the times that are known, the new fingerprints,
    and the finding each stands for. *)
Record scan := { sc_next : gmap string Z; sc_fresh : list string; sc_byFP : gmap string Finding }.
Definition scan_one (prev : gmap string Z) (a : scan) (f : Finding) : scan :=
  match prev !! F_Fingerprint f with
  | Some t => {| sc_next := <[F_Fingerprint f := t]> (sc_next a); sc_fresh := sc_fresh a; sc_byFP := sc_byFP a |}
  | None => {| sc_next := sc_next a; sc_fresh := snoc (sc_fresh a) (F_Fingerprint f);
               sc_byFP := <[F_Fingerprint f := f]> (sc_byFP a) |}
  end.

Definition to_write (f : Finding) (fp : string) (now : Time) : ViolationWrite :=
  {| vw_VType := F_VType f; vw_RuleID := F_PolicyID f; vw_RuleName := F_Policy f; vw_Sev := F_Sev f; vw_NS := Scope f;
     vw_Pod := Subject f; vw_Fingerprint := fp; vw_Data := {| pf_Finding := f; pf_DetectedAt := UnixMilli now |} |}.

(** The loop over the new fingerprints. *)
Record plan := { pl_next : gmap string Z; pl_writes : list ViolationWrite; pl_written : list string }.
Definition plan_one (known : string → option Time) (byFP : gmap string Finding) (now : Time) (a : plan) (fp : string) : plan :=
  match known fp with
  | Some ts => {| pl_next := <[fp := UnixMilli ts]> (pl_next a); pl_writes := pl_writes a; pl_written := pl_written a |}
  | None =>
      match byFP !! fp with
      | Some f => {| pl_next := pl_next a; pl_writes := snoc (pl_writes a) (to_write f fp now); pl_written := snoc (pl_written a) fp |}
      | None => a
      end
  end.

Definition settle_one (stored : string → option Time) (now : Time) (next : gmap string Z) (fp : string) : gmap string Z :=
  <[fp := match stored fp with Some ts => UnixMilli ts | None => UnixMilli now end]> next.

(** What is shown of a list: at most [PostureFindingsMax] findings. *)
Definition shown_list (next : gmap string Z) (l : list Finding) : list postureFinding :=
  map (λ f, {| pf_Finding := f; pf_DetectedAt := default 0%Z (next !! F_Fingerprint f) |}) (take PostureFindingsMax l).

Definition save_key (cluster vtype : string) : string := cluster +:+ "/" +:+ vtype.

(** Saving the lists in turn; [false] is an error, which ends the loop. *)
Fixpoint save_lists (cluster : string) (m : Meeting) (next : gmap string Z) (lists : list (string * list Finding))
    (r : postureRunner) (db : DB) : postureRunner * DB * bool :=
  match lists with
  | [] => (r, db, true)
  | (vtype, l) :: lists' =>
      let out := shown_list next l in
      let key := save_key cluster vtype in
      let sum := Sum256 out in
      let fresh := match r_saved r !! key with
                   | Some last => (s_sum last =? sum)%Z && (TSub (m_now m) (s_at last) <? postureRefreshEvery)%Z
                   | None => false
                   end in
      if fresh then save_lists cluster m next lists' r db
      else
        let db' := if applied (m_save m vtype) then SavePosture cluster vtype (m_now m) (length l) out db else db in
        if negb (heard (m_save m vtype)) then (r, db', false)
        else save_lists cluster m next lists'
               {| r_seen := r_seen r; r_saved := <[key := {| s_sum := sum; s_at := m_now m |}]> (r_saved r) |} db'
  end.

Definition evaluate (cluster : string) (policies : list Policy) (m : Meeting) (r : postureRunner) (db : DB)
  : postureRunner * DB * bool :=
  match m_snapshot m, m_histories m with
  | Some snap, Some histories =>
      let ev := {| Cluster := cluster; Now := m_now m |} in
      let findings := map_order [("build", Build ev policies (Some snap) histories); ("deploy", Deploy ev policies (Some snap))] in
      let prev := default ∅ (r_seen r !! cluster) in
      let a := fold_left (scan_one prev) (findings ≫= snd) {| sc_next := ∅; sc_fresh := []; sc_byFP := ∅ |} in
      if negb (m_known m) && negb (length (sc_fresh a) =? 0)%nat then (r, db, false)
      else
        let p := fold_left (plan_one (ViolationFirstSeen cluster (sc_fresh a) db) (sc_byFP a) (m_now m)) (sc_fresh a)
                   {| pl_next := sc_next a; pl_writes := []; pl_written := [] |} in
        let nothing := (length (pl_writes p) =? 0)%nat in
        let db' := if nothing || negb (applied (m_write m)) then db else WriteViolations cluster (m_dbnow m) (pl_writes p) db in
        if negb nothing && negb (heard (m_write m)) then (r, db', false)
        else if negb (m_stored m) && negb (length (pl_written p) =? 0)%nat then (r, db', false)
        else
          let next := fold_left (settle_one (ViolationFirstSeen cluster (pl_written p) db') (m_now m)) (pl_written p) (pl_next p) in
          save_lists cluster m next findings
            {| r_seen := <[cluster := next]> (r_seen r); r_saved := r_saved r |} db'
  | _, _ => (r, db, false)
  end.

(** One tick: the snapshots the hub holds, and the policies that decode, of the
    two types. *)
Definition posture_policies (decoded : list (option Policy)) : list Policy :=
  List.filter (λ p, (P_DetType p == "Build") || (P_DetType p == "Deploy")) (omap id decoded).

Fixpoint tick_clusters (policies : list Policy) (snaps : list (string * Meeting)) (r : postureRunner) (db : DB) : postureRunner * DB :=
  match snaps with
  | [] => (r, db)
  | (cluster, m) :: snaps' =>
      let cluster := if cluster == "" then DefaultCluster else cluster in
      let '(r', db', _) := evaluate cluster policies m r db in
      tick_clusters policies snaps' r' db'
  end.

(** [listed]: the policies the store returned, or an error. *)
Definition tick (snaps : list (string * Meeting)) (listed : option (list (option Policy))) (r : postureRunner) (db : DB)
  : postureRunner * DB :=
  match snaps, listed with
  | [], _ | _, None => (r, db)
  | _, Some decoded => tick_clusters (posture_policies decoded) snaps r db
  end.
End Runner.
