(* ===== verification/PostureRunProps.v ===== *)
(** * When a finding was first detected

    The time shown beside a finding is the time its violation was stored, and it
    stays that time over evaluations, failures and restarts. *)

From Stdlib Require Import Ascii.
From stdpp Require Import base list gmap strings sorting.
From S2P Require Import Prelude GoStrings GoValue GoText Violations Posture PostureProps PostureRun.
Local Open Scope string_scope.
Local Open Scope list_scope.
Local Open Scope go_scope.

Section Runs.
  Context {T : CaseTables} {PT : PrintTables} {O : MapOrder} (Sum256 : list postureFinding → Z).

(** The row of a fingerprint says when it was first seen. *)
Definition dated (db : DB) (cluster fp : string) (t : Z) : Prop :=
  ∃ v, violations db !! (cluster, fp) = Some v ∧ UnixMilli (v_ts v) = t.

(** Rows stay, with their first time. *)
Definition keeps (db db' : DB) : Prop :=
  ∀ k v, violations db !! k = Some v → ∃ v', violations db' !! k = Some v' ∧ v_ts v' = v_ts v.

Lemma keeps_refl db : keeps db db.
Proof. intros k v H. eauto. Qed.
Lemma keeps_trans a b c : keeps a b → keeps b c → keeps a c.
Proof. intros H1 H2 k v Hv. destruct (H1 k v Hv) as (v1 & Hv1 & E1). destruct (H2 k v1 Hv1) as (v2 & Hv2 & E2). exists v2. split; congruence. Qed.
Lemma dated_keeps db db' c fp t : keeps db db' → dated db c fp t → dated db' c fp t.
Proof. intros H (v & Hv & E). destruct (H _ _ Hv) as (v' & Hv' & E'). exists v'. split; [done|congruence]. Qed.
Lemma dated_unique db c fp t t' : dated db c fp t → dated db c fp t' → t = t'.
Proof. intros (v & Hv & <-) (v' & Hv' & <-). congruence. Qed.

(** *** Writing violations *)

Lemma WriteViolations_keeps c now ws db : keeps db (WriteViolations c now ws db).
Proof.
  intros k v. simpl. generalize (violations db) as vs. revert v. induction ws as [|w ws IH]; intros v vs H; simpl; [eauto|].
  destruct (upsert_keeps c now w vs k v H) as (v1 & H1 & E1). destruct (IH v1 _ H1) as (v2 & H2 & E2). exists v2. split; congruence.
Qed.

Lemma WriteViolations_has c now ws db w :
  w ∈ ws → is_Some (violations (WriteViolations c now ws db) !! (c, vw_Fingerprint w)).
Proof.
  simpl. generalize (violations db) as vs. induction ws as [|x ws IH]; intros vs Hw; [by apply not_elem_of_nil in Hw|].
  apply elem_of_cons in Hw as [->|Hw]; simpl; [|by apply IH].
  assert (is_Some (upsert c now x vs !! (c, vw_Fingerprint x))) as [v Hv] by (unfold upsert; rewrite lookup_insert_eq; eauto).
  destruct (WriteViolations_keeps c now ws {| violations := upsert c now x vs; posture := ∅; db_postureReady := true |} _ _ Hv)
    as (v' & Hv' & _). simpl in Hv'. eauto.
Qed.

Lemma SavePosture_keeps c vt now n l db : keeps db (SavePosture c vt now n l db).
Proof. unfold SavePosture. repeat case_if; destruct (posture db !! (c, vt)); repeat case_if; intros k v H; eauto. Qed.

(** *** The loops *)

Section Loops.
  Context (cluster : string).

Definition all_dated (db : DB) (next : gmap string Z) : Prop := ∀ fp t, next !! fp = Some t → dated db cluster fp t.

Lemma all_dated_insert db next fp t : all_dated db next → dated db cluster fp t → all_dated db (<[fp := t]> next).
Proof. intros H Ht fp' t' [[<- <-]|[Hne Hl]]%lookup_insert_Some; [done|by apply H]. Qed.

Lemma all_dated_keeps db db' next : keeps db db' → all_dated db next → all_dated db' next.
Proof. intros Hk H fp t Hl. eapply dated_keeps; [done|by apply H]. Qed.

Lemma insert_is_Some (m : gmap string Z) k v i : is_Some (m !! i) → is_Some (<[k := v]> m !! i).
Proof. intros H. apply lookup_insert_is_Some'. by right. Qed.

Lemma scan_spec db prev fs a :
  all_dated db prev → all_dated db (sc_next a) →
  let a' := fold_left (scan_one prev) fs a in
  all_dated db (sc_next a')
  ∧ (∀ fp, is_Some (sc_next a !! fp) ∨ fp ∈ sc_fresh a → is_Some (sc_next a' !! fp) ∨ fp ∈ sc_fresh a')
  ∧ (∀ f, f ∈ fs → is_Some (sc_next a' !! F_Fingerprint f) ∨ F_Fingerprint f ∈ sc_fresh a')
  ∧ ((∀ fp, fp ∈ sc_fresh a → is_Some (sc_byFP a !! fp)) → ∀ fp, fp ∈ sc_fresh a' → is_Some (sc_byFP a' !! fp)).
Proof.
  intros Hp. revert a. induction fs as [|f fs IH]; intros a Ha; simpl.
  - split_and!; [done|done|by intros f ?%not_elem_of_nil|done].
  - assert (all_dated db (sc_next (scan_one prev a f))
      ∧ (∀ fp, is_Some (sc_next a !! fp) ∨ fp ∈ sc_fresh a → is_Some (sc_next (scan_one prev a f) !! fp) ∨ fp ∈ sc_fresh (scan_one prev a f))
      ∧ (is_Some (sc_next (scan_one prev a f) !! F_Fingerprint f) ∨ F_Fingerprint f ∈ sc_fresh (scan_one prev a f))
      ∧ ((∀ fp, fp ∈ sc_fresh a → is_Some (sc_byFP a !! fp)) → ∀ fp, fp ∈ sc_fresh (scan_one prev a f) → is_Some (sc_byFP (scan_one prev a f) !! fp)))
      as (H1 & H2 & H3 & H4).
    { unfold scan_one. destruct (prev !! F_Fingerprint f) as [t|] eqn:E; simpl; split_and!; try done.
      - apply all_dated_insert; [done|by apply Hp].
      - intros fp [H|H]; [left; by apply insert_is_Some|by right].
      - left. rewrite lookup_insert_eq. eauto.
      - intros fp [H|H]; [by left|right]. unfold snoc. set_solver.
      - right. unfold snoc. set_solver.
      - intros H fp Hf. unfold snoc in Hf. apply elem_of_app in Hf as [Hf|Hf]; apply lookup_insert_is_Some'; [right; auto|left].
        by apply list_elem_of_singleton in Hf. }
    destruct (IH _ H1) as (I1 & I2 & I3 & I4). split_and!; auto.
    intros f' [->|Hf]%elem_of_cons; auto.
Qed.

Lemma plan_spec db known byFP now fresh p :
  (∀ fp ts, known fp = Some ts → dated db cluster fp (UnixMilli ts)) →
  (∀ fp, fp ∈ fresh → is_Some (byFP !! fp)) → all_dated db (pl_next p) → map vw_Fingerprint (pl_writes p) = pl_written p →
  let p' := fold_left (plan_one known byFP now) fresh p in
  all_dated db (pl_next p') ∧ map vw_Fingerprint (pl_writes p') = pl_written p'
  ∧ (∀ fp, is_Some (pl_next p !! fp) ∨ fp ∈ pl_written p ∨ fp ∈ fresh → is_Some (pl_next p' !! fp) ∨ fp ∈ pl_written p').
Proof.
  intros Hk. revert p. induction fresh as [|fp fresh IH]; intros p Hb Hp Hw; simpl.
  - split_and!; [done|done|]. intros fp [H|[H|H%not_elem_of_nil]]; [by left|by right|done].
  - assert (∀ x, x ∈ fresh → is_Some (byFP !! x)) as Hb' by (intros x Hx; apply Hb; by right).
    destruct (Hb fp ltac:(left)) as [f Hf].
    set (q := plan_one known byFP now p fp).
    assert (all_dated db (pl_next q) ∧ map vw_Fingerprint (pl_writes q) = pl_written q
      ∧ (∀ x, is_Some (pl_next p !! x) ∨ x ∈ pl_written p ∨ x = fp → is_Some (pl_next q !! x) ∨ x ∈ pl_written q)) as (Q1 & Q2 & Q3).
    { unfold q, plan_one. rewrite Hf. destruct (known fp) as [ts|] eqn:E; simpl; split_and!; try done.
      - apply all_dated_insert; auto.
      - intros x [H|[H| ->]]; [left; by apply insert_is_Some|by right|left]. rewrite lookup_insert_eq. eauto.
      - unfold snoc. rewrite map_app, Hw. done.
      - unfold snoc. intros x [H|[H| ->]]; [by left|right; set_solver..]. }
    destruct (IH q Hb' Q1 Q2) as (I1 & I2 & I3). split_and!; [done|done|].
    intros x [H|[H|[E|H]%elem_of_cons]]; apply I3; [| | |by auto]; destruct (Q3 x) as [H'|H']; auto.
Qed.

Lemma settle_spec db stored now written next :
  (∀ fp, fp ∈ written → ∃ ts, stored fp = Some ts ∧ dated db cluster fp (UnixMilli ts)) → all_dated db next →
  let next' := fold_left (settle_one stored now) written next in
  all_dated db next' ∧ ∀ fp, is_Some (next !! fp) ∨ fp ∈ written → is_Some (next' !! fp).
Proof.
  revert next. induction written as [|fp written IH]; intros next Hs Hn; simpl.
  - split; [done|]. intros x [H|H%not_elem_of_nil]; done.
  - destruct (Hs fp ltac:(left)) as (ts & Hst & Hd).
    assert (all_dated db (settle_one stored now next fp)) as Hd' by (unfold settle_one; rewrite Hst; by apply all_dated_insert).
    destruct (IH (settle_one stored now next fp)) as [I1 I2]; [intros x Hx; apply Hs; by right|done|].
    split; [done|]. intros x [H|[->|H]%elem_of_cons]; apply I2; [left; by apply insert_is_Some|left|by right].
    unfold settle_one. rewrite lookup_insert_eq. eauto.
Qed.

(** What is shown has its date. *)
Lemma shown_dated db next l pf :
  all_dated db next → (∀ f, f ∈ l → is_Some (next !! F_Fingerprint f)) → pf ∈ shown_list next l →
  dated db cluster (F_Fingerprint (pf_Finding pf)) (pf_DetectedAt pf).
Proof.
  intros Hn Hl (f & -> & Hf)%list_elem_of_fmap. destruct (Hl f) as [t Ht].
  { by apply (subseteq_take PostureFindingsMax l). }
  simpl. rewrite Ht. by apply Hn.
Qed.
End Loops.

(** ** Every step keeps the dates *)

Record Inv (r : postureRunner) (db : DB) : Prop := {
  inv_seen : ∀ c m, r_seen r !! c = Some m → all_dated c db m;
  inv_shown : ∀ c vt row pf, posture db !! (c, vt) = Some row → pf ∈ p_findings row →
                dated db c (F_Fingerprint (pf_Finding pf)) (pf_DetectedAt pf);
}.

Lemma Inv_violations r db vs :
  Inv r db → keeps db {| violations := vs; posture := posture db; db_postureReady := db_postureReady db |} →
  Inv r {| violations := vs; posture := posture db; db_postureReady := db_postureReady db |}.
Proof.
  intros [H1 H2] Hk. constructor.
  - intros c m Hm. by eapply all_dated_keeps, H1.
  - intros c vt row pf Hr Hp. eapply dated_keeps; [done|]. by eapply H2.
Qed.

Lemma Inv_save r db c vt now n l :
  Inv r db → (∀ pf, pf ∈ l → dated db c (F_Fingerprint (pf_Finding pf)) (pf_DetectedAt pf)) → Inv r (SavePosture c vt now n l db).
Proof.
  intros [H1 H2] Hl. pose proof (SavePosture_keeps c vt now n l db) as Hk. constructor.
  - intros c' m Hm. by eapply all_dated_keeps, H1.
  - intros c' vt' row pf Hr Hp. eapply dated_keeps; [done|].
    assert (posture db !! (c', vt') = Some row ∨ (c' = c ∧ p_findings row = l)) as [H|[-> E]]; [|by eapply H2|subst l; auto].
    revert Hr. unfold SavePosture. destruct (negb (db_postureReady db)); [auto|].
    assert (∀ row0, <[(c, vt) := row0]> (posture db) !! (c', vt') = Some row → p_findings row0 = l →
              posture db !! (c', vt') = Some row ∨ (c' = c ∧ p_findings row = l)) as Hins.
    { intros row0 [[[= -> ->] <-]|[_ Hr]]%lookup_insert_Some E; auto. }
    destruct (posture db !! (c, vt)); [case_if; [auto|]|]; intros Hr; by eapply Hins.
Qed.

Lemma save_lists_ok c m next lists r db :
  Inv r db → all_dated c db next → (∀ vt l f, (vt, l) ∈ lists → f ∈ l → is_Some (next !! F_Fingerprint f)) →
  let '(r', db', _) := save_lists Sum256 c m next lists r db in Inv r' db' ∧ keeps db db'.
Proof.
  revert r db. induction lists as [|[vt l] lists IH]; intros r db Hi Hd Hl; cbn [save_lists]; [by split; [|apply keeps_refl]|].
  assert (∀ vt' l' f, (vt', l') ∈ lists → f ∈ l' → is_Some (next !! F_Fingerprint f)) as Hl'.
  { intros vt' l' f Hin. apply (Hl vt'). by right. }
  destruct (match r_saved r !! save_key c vt with Some _ => _ | None => _ end); [by apply IH|].
  set (db' := if applied (m_save m vt) then _ else db).
  assert (Inv r db' ∧ keeps db db') as [Hi' Hk'].
  { unfold db'. destruct (applied (m_save m vt)); [|by split; [|apply keeps_refl]]. split; [|apply SavePosture_keeps].
    apply Inv_save; [done|]. intros pf. apply shown_dated; [done|]. intros f. apply (Hl vt). left. }
  destruct (negb (heard (m_save m vt))); [done|].
  set (r' := {| r_seen := r_seen r; r_saved := _ |}).
  assert (Inv r' db') as Hi2 by (destruct Hi' as [A B]; by constructor).
  specialize (IH r' db' Hi2 (all_dated_keeps _ _ _ _ Hk' Hd) Hl').
  destruct (save_lists Sum256 c m next lists r' db') as [[r2 db2] ok]. destruct IH as [A B]. split; [done|]. by eapply keeps_trans.
Qed.

Lemma evaluate_ok c policies m r db :
  Inv r db → let '(r', db', _) := evaluate Sum256 c policies m r db in Inv r' db' ∧ keeps db db'.
Proof.
  intros Hi. unfold evaluate. destruct (m_snapshot m) as [snap|]; [|by split; [|apply keeps_refl]].
  destruct (m_histories m) as [hs|]; [|by split; [|apply keeps_refl]]. cbv zeta.
  set (findings := map_order _). set (prev := default ∅ (r_seen r !! c)).
  assert (all_dated c db prev) as Hprev.
  { unfold prev. destruct (r_seen r !! c) eqn:E; simpl; [by apply (inv_seen _ _ Hi)|]. intros fp t H. by rewrite lookup_empty in H. }
  destruct (scan_spec c db prev (findings ≫= snd) {| sc_next := ∅; sc_fresh := []; sc_byFP := ∅ |} Hprev) as (A1 & _ & A3 & A4).
  { intros fp t H. simpl in H. by rewrite lookup_empty in H. }
  set (a := fold_left (scan_one prev) _ _) in *. specialize (A4 ltac:(by intros fp ?%not_elem_of_nil)).
  case_if; [by split; [|apply keeps_refl]|].
  destruct (plan_spec c db (ViolationFirstSeen c (sc_fresh a) db) (sc_byFP a) (m_now m) (sc_fresh a)
              {| pl_next := sc_next a; pl_writes := []; pl_written := [] |}) as (P1 & P2 & P3); [|done|done|done|].
  { intros fp ts H. unfold ViolationFirstSeen in H. case_if; [|done]. apply fmap_Some in H as (v & Hv & ->). by exists v. }
  set (p := fold_left (plan_one _ _ _) _ _) in *.
  set (nothing := (length (pl_writes p) =? 0)%nat).
  set (db' := if nothing || negb (applied (m_write m)) then db else _).
  assert (Inv r db' ∧ keeps db db') as [Hi' Hk'].
  { unfold db'. destruct (nothing || _); [by split; [|apply keeps_refl]|]. split; [|apply WriteViolations_keeps].
    apply Inv_violations; [done|]. apply WriteViolations_keeps. }
  destruct (negb nothing && negb (heard (m_write m))) eqn:Ew; [done|].
  case_if; [done|].
  destruct (settle_spec c db' (ViolationFirstSeen c (pl_written p) db') (m_now m) (pl_written p) (pl_next p)) as [S1 S2].
  { intros fp Hfp. unfold ViolationFirstSeen. rewrite (proj2 (mem_spec fp _) Hfp).
    rewrite <- P2 in Hfp. apply list_elem_of_fmap in Hfp as (w & -> & Hw).
    assert (is_Some (violations db' !! (c, vw_Fingerprint w))) as [v Hv].
    { assert (nothing = false) as Hno.
      { unfold nothing. destruct (pl_writes p); [by apply not_elem_of_nil in Hw|done]. }
      unfold db'. rewrite Hno in *. simpl in Ew. destruct (m_write m); [by apply WriteViolations_has|by destruct Ew..]. }
    exists (v_ts v). rewrite Hv. split; [done|]. by exists v. }
  { by eapply all_dated_keeps. }
  set (next := fold_left (settle_one _ _) _ _) in *.
  set (r' := {| r_seen := _; r_saved := r_saved r |}).
  assert (Inv r' db') as Hi2.
  { constructor; [|apply Hi']. intros c' m' Hm. simpl in Hm. apply lookup_insert_Some in Hm as [[<- <-]|[_ Hm]]; [done|by apply Hi']. }
  pose proof (save_lists_ok c m next findings r' db' Hi2 S1) as Hsave.
  destruct (save_lists Sum256 c m next findings r' db') as [[r2 db2] ok]. destruct Hsave as [B1 B2].
  - intros vt l f Hin Hf. apply S2, P3. destruct (A3 f) as [H|H]; [|by left|by right; right].
    apply list_elem_of_bind. by exists (vt, l).
  - split; [done|]. by eapply keeps_trans.
Qed.

Lemma tick_ok snaps listed r db : Inv r db → Inv (tick Sum256 snaps listed r db).1 (tick Sum256 snaps listed r db).2 ∧ keeps db (tick Sum256 snaps listed r db).2.
Proof.
  intros Hi. unfold tick. destruct listed as [decoded|]; [|by destruct snaps; split; try apply keeps_refl].
  assert (∀ ps, Inv (tick_clusters Sum256 ps snaps r db).1 (tick_clusters Sum256 ps snaps r db).2
                ∧ keeps db (tick_clusters Sum256 ps snaps r db).2) as H.
  { intros ps. revert r db Hi. induction snaps as [|[c m] snaps IH]; intros r db Hi; simpl; [by split; [|apply keeps_refl]|].
    set (c' := if c == "" then DefaultCluster else c). pose proof (evaluate_ok c' ps m r db Hi) as He.
    destruct (evaluate Sum256 c' ps m r db) as [[r' db'] ok]. destruct He as [H1 H2]. destruct (IH r' db' H1) as [H3 H4].
    split; [done|]. by eapply keeps_trans. }
  destruct snaps; [by split; [|apply keeps_refl]|apply H].
Qed.

(** ** Runs *)

Definition set_violations (db : DB) (vs : gmap (string * string) Violation) : DB :=
  {| violations := vs; posture := posture db; db_postureReady := db_postureReady db |}.

(** The runner ticks, the process restarts, and others write violations and set
    their state. *)
Inductive move : postureRunner * DB → postureRunner * DB → Prop :=
| move_tick snaps listed r db : move (r, db) (tick Sum256 snaps listed r db)
| move_restart r db : move (r, db) (newRunner, db)
| move_write c now w r db : move (r, db) (r, set_violations db (upsert c now w (violations db)))
| move_mark c fp state until r db : move (r, db) (r, set_violations db (SetViolationState c fp state until (violations db)).1).

Lemma move_ok s s' : move s s' → Inv s.1 s.2 → Inv s'.1 s'.2 ∧ keeps s.2 s'.2.
Proof.
  intros [snaps listed r db|r db|c now w r db|c fp state until r db] Hi; simpl in *.
  - by apply tick_ok.
  - split; [|apply keeps_refl]. constructor; [|apply Hi]. intros c m H. simpl in H. by rewrite lookup_empty in H.
  - assert (keeps db (set_violations db (upsert c now w (violations db)))) as Hk by (intros k v; apply upsert_keeps).
    split; [|done]. by apply Inv_violations.
  - assert (keeps db (set_violations db (SetViolationState c fp state until (violations db)).1)) as Hk by (intros k v; apply SetViolationState_keeps).
    split; [|done]. by apply Inv_violations.
Qed.

Lemma moves_ok s s' : rtc move s s' → Inv s.1 s.2 → Inv s'.1 s'.2 ∧ keeps s.2 s'.2.
Proof.
  induction 1 as [|x y z H _ IH]; intros Hi; [by split; [|apply keeps_refl]|].
  destruct (move_ok x y H Hi) as [H1 H2]. destruct (IH H1) as [H3 H4]. split; [done|]. by eapply keeps_trans.
Qed.

(** The detection time of a finding is stable: two lists the console shows
    for a cluster, at any two moments of a run with evaluations, failed
    statements, restarts and other writers of violations, give a finding of one
    fingerprint the same time, which is when its violation was first stored. *)
Theorem detection_time_stable db0 s s' c vt vt' row row' pf pf' :
  posture db0 = ∅ → rtc move (newRunner, db0) s → rtc move s s' →
  posture s.2 !! (c, vt) = Some row → pf ∈ p_findings row →
  posture s'.2 !! (c, vt') = Some row' → pf' ∈ p_findings row' →
  F_Fingerprint (pf_Finding pf) = F_Fingerprint (pf_Finding pf') →
  pf_DetectedAt pf = pf_DetectedAt pf' ∧ dated s'.2 c (F_Fingerprint (pf_Finding pf)) (pf_DetectedAt pf).
Proof.
  intros H0 Hs Hs' Hr Hp Hr' Hp' E.
  assert (Inv newRunner db0) as Hi0.
  { constructor; [intros ? ? H; simpl in H; by rewrite lookup_empty in H|]. intros ? ? ? ? H. rewrite H0 in H. by rewrite lookup_empty in H. }
  destruct (moves_ok _ _ Hs Hi0) as [Hi _]. destruct (moves_ok _ _ Hs' Hi) as [Hi' Hk].
  pose proof (dated_keeps _ _ _ _ _ Hk (inv_shown _ _ Hi _ _ _ _ Hr Hp)) as D1.
  pose proof (inv_shown _ _ Hi' _ _ _ _ Hr' Hp') as D2. rewrite <- E in D2. split; [by eapply dated_unique|done].
Qed.
End Runs.

(** ** Examples *)

Definition privileged_container : container :=
  {| C_Name := "main"; C_Image := "quay.io/db:1"; SecurityContext := Some
       {| Privileged := Some true; AllowPrivilegeEscalation := None; RunAsUser := None; RunAsNonRoot := None;
          ReadOnlyRootFilesystem := None; Capabilities := None; SeccompProfile := None |};
     Ports := []; VolumeMounts := []; Limits := []; Requests := []; Env := []; EnvFrom := [] |}.
Definition privileged_workload : workload :=
  {| W_Metadata := {| M_Name := "db"; M_Namespace := "shop"; M_Annotations := ∅ |};
     W_Spec := {| Containers := [privileged_container]; InitContainers := []; HostPID := false; HostIPC := false; HostNetwork := false;
                  PodSecurityContext := None; ServiceAccountName := "db"; AutomountServiceAccountToken := None; Volumes := [] |};
     W_kind := "" |}.
Definition twin_snapshot : Snapshot :=
  {| Deployments := [privileged_workload]; StatefulSets := [privileged_workload]; DaemonSets := []; Pods := [];
     NetworkPolicies := []; Namespaces := []; Services := [] |}.
Definition privileged_policy : Policy :=
  {| P_ID := "p1"; P_Name := "no privileged"; P_Sev := ""; P_Action := "alert"; P_Namespace := ""; P_DetType := "Deploy";
     P_Enabled := None; P_TrustedRegistries := ""; P_BuildInstruction := ""; P_DeployChecks := ["no-privileged"] |}.
Definition noon : Time := (unixEpoch + 1000 * (24 * Hour) + 12 * Hour)%Z.
Definition meeting_at (t : Time) : Meeting :=
  {| m_snapshot := Some twin_snapshot; m_histories := Some []; m_now := t; m_dbnow := (t + Second)%Z; m_known := true;
     m_write := Done; m_stored := true; m_save := λ _, Done |}.
Definition empty_db : DB := {| violations := ∅; posture := ∅; db_postureReady := true |}.
#[local] Existing Instance ascii_tables.
#[local] Existing Instance no_wide_print.
#[local] Existing Instance keep_order.
Definition length_sum (l : list postureFinding) : Z := Z.of_nat (length l).
Definition one_tick (t : Time) (r : postureRunner) (db : DB) : postureRunner * DB :=
  tick length_sum [("c1", meeting_at t)] (Some [Some privileged_policy]) r db.

(** The first evaluation, and the one after a restart two hours later. *)
Definition before_restart : postureRunner * DB := one_tick noon newRunner empty_db.
Definition after_restart : postureRunner * DB := one_tick (noon + 2 * Hour)%Z newRunner before_restart.2.
Definition no_row : PostureRow := {| p_evaluated_at := 0%Z; p_count := 0; p_findings := [] |}.
Definition shown_row (s : postureRunner * DB) : PostureRow := default no_row (posture s.2 !! ("c1", "deploy")).
Definition shown_first (s : postureRunner * DB) : option postureFinding := head (p_findings (shown_row s)).

Lemma detection_time_stable_witness :
  ∃ pf pf', shown_first before_restart = Some pf ∧ shown_first after_restart = Some pf'
    ∧ pf_DetectedAt pf = UnixMilli (noon + Second)%Z ∧ pf_DetectedAt pf = pf_DetectedAt pf'
    ∧ dated after_restart.2 "c1" (F_Fingerprint (pf_Finding pf)) (pf_DetectedAt pf).
Proof.
  destruct (shown_first before_restart) as [pf|] eqn:E1; [|vm_compute in E1; discriminate E1].
  destruct (shown_first after_restart) as [pf'|] eqn:E2; [|vm_compute in E2; discriminate E2].
  exists pf, pf'. split; [reflexivity|]. split; [reflexivity|].
  assert (pf_DetectedAt pf = UnixMilli (noon + Second)%Z) as Ht by (vm_compute in E1; injection E1 as <-; vm_compute; reflexivity).
  split; [exact Ht|].
  apply (detection_time_stable length_sum empty_db before_restart after_restart "c1" "deploy" "deploy"
           (shown_row before_restart) (shown_row after_restart) pf pf').
  - reflexivity.
  - apply rtc_once. exact (move_tick length_sum [("c1", meeting_at noon)] (Some [Some privileged_policy]) newRunner empty_db).
  - eapply rtc_l; [|apply rtc_once; exact (move_tick length_sum [("c1", meeting_at (noon + 2 * Hour)%Z)] (Some [Some privileged_policy]) newRunner before_restart.2)].
    destruct before_restart as [r db]. apply move_restart.
  - vm_compute. reflexivity.
  - apply head_Some_elem_of. exact E1.
  - vm_compute. reflexivity.
  - apply head_Some_elem_of. exact E2.
  - vm_compute in E1, E2. injection E1 as <-. injection E2 as <-. reflexivity.
Defined.

(** Workloads of two kinds share a violation: a deployment and a stateful
    set of one name in one namespace give two findings, of two kinds, with one
    fingerprint, and one violation is stored, with the data of the second. *)
Theorem kinds_share_violation :
  map (λ f, (F_Kind f, F_Workload f)) (Deploy {| Cluster := "c1"; Now := noon |} [privileged_policy] (Some twin_snapshot))
    = [("Deployment", "db"); ("StatefulSet", "db")]
  ∧ map (λ kv, F_Kind (pf_Finding (v_data kv.2))) (map_to_list (violations before_restart.2)) = ["StatefulSet"].
Proof. split; vm_compute; reflexivity. Qed.
