(* ===== verification/ClusterCtx.v ===== *)
(** * kvisior/internal/clusterctx: which cluster a request belongs to

    A push is attributed to the cluster of the client certificate; only without
    one, and only where headers are trusted, to the cluster of the header. *)

From Stdlib Require Import Ascii.
From stdpp Require Import base list strings.
From S2P Require Import Prelude GoStrings.
Local Open Scope string_scope.
Local Open Scope list_scope.
Local Open Scope go_scope.

(** ** Cluster ids (store/cluster.go) *)

Definition id_alnum (a : ascii) : bool :=
  let b := byte_of a in ((97 <=? b) && (b <=? 122) || (48 <=? b) && (b <=? 57))%Z.
Definition id_char (a : ascii) : bool := id_alnum a || Ascii.eqb a "-".

(** [[a-z0-9-]{0,n}[a-z0-9]] to the end of the text. *)
Fixpoint id_rest (n : nat) (s : string) {struct s} : bool :=
  match s with
  | "" => false
  | String a "" => id_alnum a
  | String a s' => match n with O => false | S n' => id_char a && id_rest n' s' end
  end.

Definition ValidClusterID (id : string) : bool :=
  match id with
  | "" => false
  | String a "" => id_alnum a
  | String a s => id_alnum a && id_rest 61 s
  end.

(** ** The identity of a request *)

Definition ClusterOUPrefix : string := "cluster:".

(** The settings [Init] reads. *)
Record settings := { local : string; trustHdr : bool; hub : bool; mode : string }.

(** [Init] with the values of the environment; [None] when it ends the process. *)
Definition Init {T : CaseTables} (envTrust envMode envLocal : string) : option settings :=
  let folded := ToLower envTrust in
  let trust := (folded == "true") || (envTrust == "1") || (folded == "yes") in
  let mode := ToLower (TrimSpace envMode) in
  if (mode == "hub") || (mode == "ingest") || (mode == "audit-worker")
  then Some {| local := ""; trustHdr := trust; hub := true; mode := mode |}
  else
    let v := TrimSpace envLocal in
    let trust := trust || any (String.eqb folded) ["1"; "true"; "yes"] in
    if v == "" then Some {| local := "default"; trustHdr := trust; hub := false; mode := mode |}
    else if ValidClusterID v then Some {| local := v; trustHdr := trust; hub := false; mode := mode |}
    else None.

Fixpoint clusterFromOUs (ous : list string) : option string :=
  match ous with
  | [] => None
  | ou :: ous' =>
      if negb (HasPrefix ou ClusterOUPrefix) then clusterFromOUs ous'
      else let id := TrimSpace (sdrop (String.length ClusterOUPrefix) ou) in
           if ValidClusterID id then Some id else clusterFromOUs ous'
  end.

(** [r_ous]: the organizational units of the client certificate, when there is
    one; the values of the header and of the query parameter. *)
Record Request := { r_ous : option (list string); r_header : string; r_query : string }.

Definition FromPeerCert (r : Request) : option string := r_ous r ≫= clusterFromOUs.

Definition named (v : string) : option string :=
  let id := TrimSpace v in if (id != "") && ValidClusterID id then Some id else None.

Definition ForPush (cfg : settings) (r : Request) : string :=
  match FromPeerCert r with
  | Some id => id
  | None => match (if trustHdr cfg then named (r_header r) else None) with
            | Some id => id
            | None => local cfg
            end
  end.

Definition ForRead (cfg : settings) (r : Request) : string :=
  match named (r_header r) with
  | Some id => id
  | None => match named (r_query r) with Some id => id | None => local cfg end
  end.

Definition ForGRPC (cfg : settings) (r : Request) : string :=
  match FromPeerCert r with Some id => id | None => local cfg end.

(** ** Properties *)

(** The language of the pattern of cluster ids. *)
Definition id_pattern (id : string) : Prop :=
  ∃ a rest, id = String a rest ∧ id_alnum a = true
    ∧ (rest = "" ∨ ∃ mid b, rest = mid +:+ String b "" ∧ id_alnum b = true ∧ (String.length mid ≤ 61)%nat
                            ∧ Forall (λ c, id_char c = true) (String.list_ascii_of_string mid)).

Lemma id_rest_spec n s :
  id_rest n s = true ↔ ∃ mid b, s = mid +:+ String b "" ∧ id_alnum b = true ∧ (String.length mid ≤ n)%nat
                               ∧ Forall (λ c, id_char c = true) (String.list_ascii_of_string mid).
Proof.
  revert n. induction s as [|a s IH]; intros n.
  - split; [done|]. intros (mid & b & H & _). by destruct mid.
  - destruct s as [|a' s'].
    + cbn [id_rest]. split.
      * intros H. exists "", a. split_and!; [done|done|simpl; lia|constructor].
      * intros (mid & b & H & Hb & _). destruct mid as [|m mid]; simpl in H; [by injection H as ->|]. injection H as _ H. by destruct mid.
    + set (s := String a' s') in *. change (id_rest n (String a s)) with (match n with O => false | S n' => id_char a && id_rest n' s end).
      destruct n as [|n].
      * split; [done|]. intros (mid & b & H & _ & Hl & _). destruct mid; simpl in *; [done|lia].
      * rewrite andb_true_iff, IH. split.
        -- intros (Ha & mid & b & -> & Hb & Hl & Hf). exists (String a mid), b. split_and!; [done|done|simpl; lia|by constructor].
        -- intros (mid & b & H & Hb & Hl & Hf). destruct mid as [|m mid]; simpl in H; [done|]. injection H as <- H.
           inversion Hf; subst. split; [done|]. exists mid, b. split_and!; try done. simpl in Hl. lia.
Qed.

Lemma ValidClusterID_spec id : ValidClusterID id = true ↔ id_pattern id.
Proof.
  unfold id_pattern. destruct id as [|a s]; [split; [done|by intros (a & rest & H & _)]|]. split.
  - intros H. exists a, s. destruct s as [|a' s']; [by auto|]. cbn [ValidClusterID] in H. bool_hyps. split_and!; [done|done|right].
    by apply id_rest_spec.
  - intros (a' & rest & [= <- <-] & Ha & [->|H]); [done|]. apply id_rest_spec in H. destruct s; [done|]. cbn [ValidClusterID]. by rewrite Ha, H.
Qed.

Lemma clusterFromOUs_valid ous id : clusterFromOUs ous = Some id → ValidClusterID id = true.
Proof. induction ous as [|ou ous IH]; simpl; [done|]. repeat case_if; auto. by intros [= <-]. Qed.

Lemma named_valid v id : named v = Some id → ValidClusterID id = true.
Proof. unfold named. case_if; [|done]. by intros [= <-]. Qed.

(** The cluster of a push is the one of its certificate, whatever the headers
    say; without a certificate and without trust in headers it is the local one;
    and it is always a valid id, or none in hub mode. *)
Lemma ForPush_identity {T : CaseTables} envTrust envMode envLocal cfg r :
  Init envTrust envMode envLocal = Some cfg →
  (∀ id, FromPeerCert r = Some id → ForPush cfg r = id)
  ∧ (FromPeerCert r = None → trustHdr cfg = false → ForPush cfg r = local cfg)
  ∧ (ValidClusterID (ForPush cfg r) = true ∨ (hub cfg = true ∧ ForPush cfg r = "")).
Proof.
  intros Hi. assert (ValidClusterID (local cfg) = true ∨ (hub cfg = true ∧ local cfg = "")) as Hl.
  { unfold Init in Hi. repeat case_if; try done; injection Hi as <-; simpl; auto. }
  unfold ForPush. split_and!.
  - by intros id ->.
  - by intros -> ->.
  - destruct (FromPeerCert r) as [id|] eqn:E.
    + left. unfold FromPeerCert in E. destruct (r_ous r) as [ous|]; [|done]. by eapply clusterFromOUs_valid.
    + destruct (trustHdr cfg); [|done]. destruct (named (r_header r)) eqn:En; [left; by eapply named_valid|done].
Qed.
