(* ===== verification/AuditInbox.v ===== *)
(** * kvisior/internal/auditdelivery and store/auditinbox.go: receiving batches

    The receiver admits a bounded number of requests, checks a batch and puts it
    into the inbox of its cluster; workers take the oldest batch of a cluster,
    hand it to the engine and mark it processed, or set it back for a while.

    The engine is the interface [Processor] of the source. Decoding JSON,
    PostgreSQL's reading of a JSON array and SHA-256 are parameters. *)

From Stdlib Require Import Ascii.
From stdpp Require Import base list gmap strings sorting.
From S2P Require Import Prelude GoStrings AuditRules AuditEngine ClusterCtx.
Local Open Scope string_scope.
Local Open Scope list_scope.
Local Open Scope go_scope.

(** ** json.Marshal of a json.RawMessage *)

Definition json_space (a : ascii) : bool := any (Ascii.eqb a) [" "; "009"; "010"; "013"]%char.
Definition json_escape (a : ascii) : option string :=
  if Ascii.eqb a "<" then Some "\u003c"
  else if Ascii.eqb a ">" then Some "\u003e"
  else if Ascii.eqb a "&" then Some "\u0026"
  else None.

(** [within]: inside a string; [skip]: after a backslash. Spaces between tokens go,
    the characters of HTML and the line separators U+2028 and U+2029 are escaped. *)
Fixpoint json_compact_from (within skip : bool) (s : string) : string :=
  match s with
  | "" => ""
  | String a s1 =>
      match json_escape a with
      | Some e => e +:+ json_compact_from within false s1
      | None =>
          match a, s1 with
          | "226"%char, String "128" (String "168" s3) => "\u2028" +:+ json_compact_from within false s3
          | "226"%char, String "128" (String "169" s3) => "\u2029" +:+ json_compact_from within false s3
          | _, _ =>
              if within then String a (json_compact_from (skip || negb (Ascii.eqb a "034")) (negb skip && Ascii.eqb a "\") s1)
              else if json_space a then json_compact_from false false s1
              else String a (json_compact_from (Ascii.eqb a "034") false s1)
          end
      end
  end.
Definition Compact (raw : string) : string := json_compact_from false false raw.

(** ** Text PostgreSQL can store *)

Definition jsonNUL : string := "\u0000".

(** The loop of [StorableJSON]. *)
Fixpoint storable (s : string) : string :=
  match s with
  | "" => ""
  | String a s1 =>
      if negb (Ascii.eqb a "\") then String a (storable s1)
      else match s1 with
           | "" => String a ""
           | String b s2 =>
               match s2 with
               | String c (String d (String e (String f s6))) =>
                   if Ascii.eqb b "u" && Ascii.eqb c "0" && Ascii.eqb d "0" && Ascii.eqb e "0" && Ascii.eqb f "0"
                   then "\ufffd" +:+ storable s6
                   else String a (String b (storable s2))
               | _ => String a (String b (storable s2))
               end
           end
  end.
Definition StorableJSON (raw : string) : string := if negb (Contains raw jsonNUL) then raw else storable raw.

(** ** The inbox *)

Record InboxRow := {
  ib_id : nat;
  ib_cluster : string;
  ib_kind : string;
  ib_key : string;
  ib_payload : list string;
  ib_created : Time;
  ib_attempts : nat;
  ib_next : Time;
  ib_processed : option Time;
}.

(** The rows in the order of their ids, and the next id. *)
Record Inbox := { ib_rows : list InboxRow; ib_seq : nat }.
Definition empty_inbox : Inbox := {| ib_rows := []; ib_seq := 0 |}.

Definition unprocessed (r : InboxRow) : bool := match ib_processed r with None => true | Some _ => false end.
Definition of_cluster (cluster : string) (r : InboxRow) : bool := ib_cluster r == cluster.
Definition pending (cluster : string) (ib : Inbox) : list InboxRow :=
  List.filter (λ r, of_cluster cluster r && unprocessed r) (ib_rows ib).

Definition update_row (id : nat) (f : InboxRow → InboxRow) (ib : Inbox) : Inbox :=
  {| ib_rows := map (λ r, if (ib_id r =? id)%nat then f r else r) (ib_rows ib); ib_seq := ib_seq ib |}.

Record AuditBatch := {
  B_ID : nat; B_Cluster : string; B_Kind : string; B_Payload : list string; B_CreatedAt : Time; B_Attempts : nat;
}.

(** ** The receiver *)

Definition MaxAuditBody : Z := (2 ^ 22)%Z.
Definition maxWrites : nat := 16.

Record Receiver := {
  MaxPending : nat;
  PerCluster : nat;
  BudgetBytes : Z;
  rv_writes : nat;
  rv_active : gmap string nat;
  rv_reserved : Z;
}.

Definition NewReceiver (maxPending : nat) : Receiver :=
  {| MaxPending := maxPending; PerCluster := 4; BudgetBytes := (24 * 2 ^ 20)%Z; rv_writes := 0; rv_active := ∅; rv_reserved := 0 |}.

Definition set_use (h : Receiver) (writes : nat) (active : gmap string nat) (reserved : Z) : Receiver :=
  {| MaxPending := MaxPending h; PerCluster := PerCluster h; BudgetBytes := BudgetBytes h; rv_writes := writes;
     rv_active := active; rv_reserved := reserved |}.

Definition active_of (h : Receiver) (cluster : string) : nat := default 0%nat (rv_active h !! cluster).

(** [None]: refused. *)
Definition acquire (cluster : string) (size : Z) (h : Receiver) : option Receiver :=
  if (0 <? PerCluster h)%nat && (PerCluster h <=? active_of h cluster)%nat then None
  else if (0 <? BudgetBytes h)%Z && (BudgetBytes h <? rv_reserved h + size)%Z then None
  else if (maxWrites <=? rv_writes h)%nat then None
  else Some (set_use h (S (rv_writes h)) (<[cluster := S (active_of h cluster)]> (rv_active h)) (rv_reserved h + size)).

(** [None]: the receive from the channel blocks. *)
Definition release (cluster : string) (size : Z) (h : Receiver) : option Receiver :=
  match rv_writes h with
  | O => None
  | S n =>
      let left := (active_of h cluster - 1)%nat in
      Some (set_use h n (if (left =? 0)%nat then delete cluster (rv_active h) else <[cluster := left]> (rv_active h)) (rv_reserved h - size))
  end.

(** What reading the body gives. *)
Inductive body := Batch (events records : list string) | TooLarge | Incomplete | Malformed.
Record AuditRequest := { rq_method : string; rq_cluster : string; rq_length : Z; rq_body : body }.

Definition reserve_size (rq : AuditRequest) : Z := if (0 <? rq_length rq)%Z then rq_length rq else MaxAuditBody.

(** ** Processing *)

Class Processor (E X : Type) := {
  ingest_events : string → list string → X → E → E * bool;
  ingest_log_records : string → list LogRecord → X → E → E * bool;
}.

Section Delivery.
  (** SHA-256 in hexadecimal, and the elements of a JSON array as PostgreSQL
      gives them back; [None] is a data error. *)
  Context (sha : string → string) (elements : string → option (list string)).
  (** [json.Unmarshal] and [json.Marshal] of events and log records. *)
  Context (UnmarshalEvent : string → option Event) (UnmarshalLog : string → option LogRecord) (MarshalEvent : Event → string).
  Context {E X : Type} {Pr : Processor E X}.

Definition array_text (records : list string) : string := "[" +:+ Join (map Compact records) "," +:+ "]".
Definition payload_text (records : list string) : string := StorableJSON (array_text records).

Inductive enqueued := EnqOk | EnqFull | EnqData | EnqError.

Definition EnqueueAudit (cluster kind : string) (records : list string) (maxPending : nat) (now : Time) (e : ending) (ib : Inbox)
  : Inbox * enqueued :=
  if negb (ValidClusterID cluster) || ((kind != "events") && (kind != "log")) then (ib, EnqError)
  else if negb (applied e) then (ib, EnqError)
  else
    let text := payload_text records in
    let key := sha text in
    if any (λ r, of_cluster cluster r && (ib_kind r == kind) && (ib_key r == key)) (ib_rows ib)
    then (ib, if heard e then EnqOk else EnqError)
    else if (0 <? maxPending)%nat && (maxPending <=? length (pending cluster ib))%nat then (ib, EnqFull)
    else match elements text with
         | None => (ib, EnqData)
         | Some l =>
             let row := {| ib_id := ib_seq ib; ib_cluster := cluster; ib_kind := kind; ib_key := key; ib_payload := l;
                           ib_created := now; ib_attempts := 0; ib_next := now; ib_processed := None |} in
             ({| ib_rows := snoc (ib_rows ib) row; ib_seq := S (ib_seq ib) |}, if heard e then EnqOk else EnqError)
         end.

Definition starts_object (raw : string) : bool := match raw with String a _ => Ascii.eqb a "{" | "" => false end.
Definition readable (kind raw : string) : bool :=
  starts_object raw
  && if kind == "events" then match UnmarshalEvent raw with Some _ => true | None => false end
     else match UnmarshalLog raw with Some _ => true | None => false end.

(** The response of the receiver once it has a slot; [slot] is whether it has. *)
Definition receive (kind : string) (maxPending : nat) (store slot : bool) (now : Time) (e : ending) (rq : AuditRequest) (ib : Inbox)
  : Inbox * Z :=
  if rq_method rq != "POST" then (ib, 405%Z)
  else if negb (ValidClusterID (rq_cluster rq)) then (ib, 403%Z)
  else if (MaxAuditBody <? rq_length rq)%Z then (ib, 413%Z)
  else if negb store then (ib, 503%Z)
  else if negb slot then (ib, 503%Z)
  else match rq_body rq with
       | TooLarge => (ib, 413%Z)
       | Incomplete => (ib, 503%Z)
       | Malformed => (ib, 400%Z)
       | Batch events records =>
           let records := if kind == "log" then records else events in
           if (512 <? length records)%nat then (ib, 413%Z)
           else if any (λ raw, negb (readable kind raw)) records then (ib, 400%Z)
           else match records with
                | [] => (ib, 204%Z)
                | _ => match EnqueueAudit (rq_cluster rq) kind records maxPending now e ib with
                       | (ib', EnqOk) => (ib', 202%Z)
                       | (ib', EnqData) => (ib', 400%Z)
                       | (ib', _) => (ib', 503%Z)
                       end
                end
       end.

Definition stableEvent (ev : Event) (raw : string) (b : AuditBatch) : Event :=
  let id := if E_ID ev == "" then "inbox-" +:+ sha (B_Cluster b +:+ String "000" raw) else E_ID ev in
  let ts := if IsZero (E_Timestamp ev) then B_CreatedAt b else E_Timestamp ev in
  restamp id ts (E_Source ev) (E_Allowed ev) (E_StatusCode ev) (E_AuditID ev) ev.

Definition Process (b : AuditBatch) (x : X) (eng : E) : E * bool :=
  if B_Kind b == "events" then
    ingest_events (B_Cluster b)
      (omap (λ raw, (λ ev, MarshalEvent (stableEvent ev raw b)) <$> UnmarshalEvent raw) (B_Payload b)) x eng
  else if B_Kind b != "log" then (eng, false)
  else
    ingest_log_records (B_Cluster b)
      (omap (λ raw, (λ rec, {| L_EventUID := L_EventUID rec; L_Event := stableEvent (L_Event rec) raw b |}) <$> UnmarshalLog raw)
            (B_Payload b)) x eng.

Definition batch_of (r : InboxRow) : AuditBatch :=
  {| B_ID := ib_id r; B_Cluster := ib_cluster r; B_Kind := ib_kind r; B_Payload := ib_payload r; B_CreatedAt := ib_created r;
     B_Attempts := ib_attempts r |}.

Definition retry_delay (attempts : nat) : Duration := (Second * 2 ^ Z.of_nat (Nat.min attempts 5))%Z.

Definition mark_processed (now : Time) (r : InboxRow) : InboxRow :=
  {| ib_id := ib_id r; ib_cluster := ib_cluster r; ib_kind := ib_kind r; ib_key := ib_key r; ib_payload := [];
     ib_created := ib_created r; ib_attempts := ib_attempts r; ib_next := ib_next r; ib_processed := Some now |}.
Definition mark_failed (now : Time) (r : InboxRow) : InboxRow :=
  {| ib_id := ib_id r; ib_cluster := ib_cluster r; ib_kind := ib_kind r; ib_key := ib_key r; ib_payload := ib_payload r;
     ib_created := ib_created r; ib_attempts := S (ib_attempts r); ib_next := TAdd now (retry_delay (ib_attempts r));
     ib_processed := None |}.

Definition ready (now : Time) (r : InboxRow) : bool := negb (After (ib_next r) now).

(** What one attempt does: the row it took and whether the engine accepted it,
    whether there was work, and whether it ended without an error. *)
Record attempt := { at_inbox : Inbox; at_engine : E; at_row : option (InboxRow * bool); at_worked : bool; at_ok : bool }.

Definition processAuditCluster (cluster : string) (now : Time) (x : X) (e : ending) (locked : bool) (ib : Inbox) (eng : E) : attempt :=
  let idle := {| at_inbox := ib; at_engine := eng; at_row := None; at_worked := false; at_ok := true |} in
  if negb locked then idle
  else match pending cluster ib with
       | [] => idle
       | r :: _ =>
           if negb (ready now r) then idle
           else
             let '(eng', ok) := Process (batch_of r) x eng in
             let ib' := if applied e then update_row (ib_id r) (if ok then mark_processed now else mark_failed now) ib else ib in
             {| at_inbox := ib'; at_engine := eng'; at_row := Some (r, ok); at_worked := true; at_ok := ok && heard e |}
       end.

(** The clusters whose oldest batch is due, oldest first. *)
Definition is_head (ib : Inbox) (r : InboxRow) : bool :=
  match pending (ib_cluster r) ib with h :: _ => (ib_id h =? ib_id r)%nat | [] => false end.
Definition due_clusters (now : Time) (ib : Inbox) : list string :=
  take 64 (map ib_cluster (List.filter (λ r, unprocessed r && is_head ib r && ready now r) (ib_rows ib))).

(** The first of them that is not served elsewhere and has work. *)
Fixpoint process_first (clusters : list string) (routed : string → bool) (locked : string → bool) (now : Time) (x : X) (e : ending)
    (ib : Inbox) (engines : string → E) : option (string * attempt) :=
  match clusters with
  | [] => None
  | c :: clusters' =>
      if routed c then process_first clusters' routed locked now x e ib engines
      else let a := processAuditCluster c now x e (locked c) ib (engines c) in
           if negb (at_ok a) || at_worked a then Some (c, a) else process_first clusters' routed locked now x e ib engines
  end.

Definition ProcessAuditBatch (routed locked : string → bool) (now : Time) (x : X) (e : ending) (ib : Inbox) (engines : string → E)
  : option (string * attempt) := process_first (due_clusters now ib) routed locked now x e ib engines.

(** ** Retention *)

Definition auditInboxCleanChunk : nat := 5000.
Definition expired (cutoff : Time) (r : InboxRow) : bool :=
  match ib_processed r with Some t => Before t cutoff | None => false end.
Definition older (a b : InboxRow) : Prop := (default 0%Z (ib_processed a) ≤ default 0%Z (ib_processed b))%Z.
#[local] Instance older_dec : RelDecision older.
Proof. intros a b. unfold older. apply _. Defined.

Definition chunk_of (cutoff : Time) (rows : list InboxRow) : list InboxRow :=
  take auditInboxCleanChunk (merge_sort older (List.filter (expired cutoff) rows)).
Definition without (gone rows : list InboxRow) : list InboxRow :=
  List.filter (λ r, negb (any (λ g, (ib_id g =? ib_id r)%nat) gone)) rows.

(** [left] statements succeed. *)
Fixpoint clean_rows (left : nat) (cutoff : Time) (rows : list InboxRow) : list InboxRow :=
  match left with
  | O => rows
  | S left' =>
      let gone := chunk_of cutoff rows in
      let rows' := without gone rows in
      if (length gone <? auditInboxCleanChunk)%nat then rows' else clean_rows left' cutoff rows'
  end.
Definition CleanAuditInbox (left : nat) (cutoff : Time) (ib : Inbox) : Inbox :=
  {| ib_rows := clean_rows left cutoff (ib_rows ib); ib_seq := ib_seq ib |}.
End Delivery.
