(* ===== verification/AuditInboxProps.v ===== *)
(** * From an accepted batch to the engine

    A batch the receiver accepted stays in the inbox until the engine has taken
    it, and the engine sees the batches of a cluster in order, whatever fails or
    is repeated. *)

From Stdlib Require Import Ascii.
From stdpp Require Import base list gmap strings sorting.
From S2P Require Import Prelude GoStrings GoNet AuditRules AuditEngine AuditEngineProps ClusterCtx AuditInbox.
Local Open Scope string_scope.
Local Open Scope list_scope.
Local Open Scope go_scope.

(** ** The receiver's slots *)

(** Requests that hold a slot: their cluster and what they reserved. *)
Record holds (h : Receiver) (held : list (string * Z)) : Prop := {
  ho_writes : rv_writes h = length held;
  ho_active : ∀ c, active_of h c = length (List.filter (λ x : string * Z, x.1 == c) held);
  ho_none : ∀ c, rv_active h !! c ≠ Some 0%nat;
  ho_reserved : rv_reserved h = foldr Z.add 0%Z (map snd held);
}.

Lemma holds_perm h l l' : l ≡ₚ l' → holds h l → holds h l'.
Proof.
  intros Hp [H1 H2 H3 H4]. constructor; [by rewrite <- Hp| |done|].
  - intros c. rewrite H2. apply Permutation_length, filter_perm. done.
  - rewrite H4. clear -Hp. induction Hp; simpl; lia.
Qed.

Lemma acquire_holds c size h h' held : holds h held → acquire c size h = Some h' → holds h' ((c, size) :: held).
Proof.
  intros [H1 H2 H3 H4]. unfold acquire. destruct (_ && _); [done|]. destruct (_ && _); [done|]. destruct (_ <=? _)%nat; [done|].
  intros [= <-]. constructor; simpl; [lia| | |lia].
  - intros c'. unfold active_of. simpl. destruct (String.eqb_spec c c') as [<-|Hne].
    + rewrite lookup_insert_eq. simpl. f_equal. apply (H2 c).
    + rewrite lookup_insert_ne by done. apply (H2 c').
  - intros c'. destruct (decide (c = c')) as [<-|]; [by rewrite lookup_insert_eq|by rewrite lookup_insert_ne].
Qed.

Lemma release_holds c size h held :
  (c, size) ∈ held → holds h held → ∃ h' held', release c size h = Some h' ∧ held ≡ₚ (c, size) :: held' ∧ holds h' held'.
Proof.
  intros (held' & Hp)%elem_of_Permutation Hh. pose proof (holds_perm _ _ _ Hp Hh) as [H1 H2 H3 H4]. simpl in H1. unfold release. rewrite H1.
  eexists _, held'. split; [done|]. split; [done|]. pose proof (H2 c) as Hc. simpl in Hc. rewrite String.eqb_refl in Hc. simpl in Hc.
  constructor; simpl; [done| | |simpl in H4; lia].
  - intros c'. specialize (H2 c'). simpl in H2. unfold active_of in *. simpl. destruct (String.eqb_spec c c') as [Heq|Hne].
    + rewrite <- Heq in *. simpl in H2. rewrite H2. simpl. rewrite Nat.sub_0_r. destruct (_ =? 0)%nat eqn:E0.
      * apply Nat.eqb_eq in E0. by rewrite lookup_delete_eq, E0.
      * by rewrite lookup_insert_eq.
    + destruct (_ =? 0)%nat; [by rewrite lookup_delete_ne|by rewrite lookup_insert_ne].
  - intros c'. destruct (_ =? 0)%nat eqn:E0.
    + destruct (decide (c = c')) as [<-|]; [by rewrite lookup_delete_eq|by rewrite lookup_delete_ne].
    + apply Nat.eqb_neq in E0. destruct (decide (c = c')) as [<-|]; [rewrite lookup_insert_eq; congruence|by rewrite lookup_insert_ne].
Qed.

(** Requests come and go in any order. *)
Inductive serving (h0 : Receiver) : Receiver → list (string * Z) → Prop :=
| serving_start : serving h0 h0 []
| serving_in c size h h' held : serving h0 h held → (0 < size)%Z → acquire c size h = Some h' → serving h0 h' ((c, size) :: held)
| serving_out c size h h' held held' : serving h0 h held → held ≡ₚ (c, size) :: held' → release c size h = Some h' → serving h0 h' held'.

Lemma serving_holds max h held : serving (NewReceiver max) h held → holds h held.
Proof.
  induction 1 as [|c size h h' held _ IH _ Ha|c size h h' held held' _ IH Hp Hr].
  - constructor; simpl; [done| |by intros c; rewrite lookup_empty|done]. intros c. unfold active_of. simpl. by rewrite lookup_empty.
  - by eapply acquire_holds.
  - assert ((c, size) ∈ held) as Hin by (rewrite Hp; left). destruct (release_holds c size h held Hin IH) as (h2 & held2 & E & Hp2 & Hh2).
    rewrite Hr in E. injection E as ->. apply (holds_perm _ held2); [|done]. rewrite Hp in Hp2. by apply Permutation_cons_inv in Hp2.
Qed.

(** The receiver stays within its limits: whatever requests come and go, at
    most 16 hold a slot, at most four of one cluster, together they reserve at
    most the budget, and giving a slot back never blocks. *)
Lemma receiver_bounded max h held :
  serving (NewReceiver max) h held →
  (length held ≤ maxWrites)%nat ∧ (∀ c, length (List.filter (λ x : string * Z, x.1 == c) held) ≤ 4)%nat
  ∧ (foldr Z.add 0 (map snd held) ≤ 24 * 2 ^ 20)%Z ∧ ∀ c size, (c, size) ∈ held → is_Some (release c size h).
Proof.
  intros Hs. pose proof (serving_holds _ _ _ Hs) as Hh.
  assert (rv_writes h ≤ maxWrites ∧ PerCluster h = 4 ∧ BudgetBytes h = (24 * 2 ^ 20)%Z ∧ (∀ c, active_of h c ≤ 4)
          ∧ (0 ≤ rv_reserved h ≤ 24 * 2 ^ 20)%Z ∧ Forall (λ x : string * Z, 0 < x.2)%Z held)%nat as (B1 & _ & _ & B2 & B3 & _).
  { clear Hh. induction Hs as [|c size h h' held Hs IH Hpos Ha|c size h h' held held' Hs IH Hp Hr].
    - split_and!; simpl; try done; try lia. intros c. unfold active_of. simpl. rewrite lookup_empty. simpl. lia.
    - destruct IH as (I1 & I2 & I3 & I4 & I5 & I6). unfold acquire in Ha. rewrite I2, I3 in Ha.
      destruct (_ && _) eqn:E1 in Ha; [done|]. destruct (_ && _) eqn:E2 in Ha; [done|]. destruct (_ <=? _)%nat eqn:E3 in Ha; [done|].
      injection Ha as <-. apply andb_false_iff in E1 as [E1|E1]; [done|]. apply Nat.leb_gt in E1, E3. split_and!; simpl; try done; try lia.
      + intros c'. unfold active_of in E1 |- *. simpl. destruct (decide (c = c')) as [<-|Hne]; [rewrite lookup_insert_eq; simpl; lia|].
        rewrite lookup_insert_ne by done. apply I4.
      + by constructor.
    - destruct IH as (I1 & I2 & I3 & I4 & I5 & I6). pose proof (serving_holds _ _ _ Hs) as Hh.
      assert ((c, size) ∈ held) as Hin by (rewrite Hp; left).
      destruct (release_holds c size h held Hin Hh) as (h2 & held2 & E & Hp2 & Hh2). rewrite Hr in E. injection E as <-.
      rewrite Hp in I6. inversion I6 as [|? ? Hpos I7]; subst. simpl in Hpos. unfold release in Hr. destruct (rv_writes h) as [|n] eqn:Ew; [done|].
      injection Hr as <-. split_and!; simpl; try done; try lia.
      + intros c'. unfold active_of. simpl. pose proof (I4 c') as I4'. pose proof (I4 c) as I4c. unfold active_of in *. case_if.
        * destruct (decide (c = c')) as [<-|]; [rewrite lookup_delete_eq; simpl; lia|]. by rewrite lookup_delete_ne.
        * destruct (decide (c = c')) as [<-|]; [rewrite lookup_insert_eq; simpl; lia|]. by rewrite lookup_insert_ne.
      + pose proof (ho_reserved _ _ Hh2) as Hres. simpl in Hres. rewrite Hres.
        assert (Forall (λ x : string * Z, 0 < x.2)%Z held2) as Hall.
        { assert (held2 ≡ₚ held') as -> by (rewrite Hp in Hp2; symmetry in Hp2; by apply Permutation_cons_inv in Hp2). done. }
        clear -Hall. induction Hall; simpl; lia. }
  split_and!.
  - by rewrite <- (ho_writes _ _ Hh).
  - intros c. by rewrite <- (ho_active _ _ Hh).
  - rewrite <- (ho_reserved _ _ Hh). lia.
  - intros c size Hin. destruct (release_holds c size h held Hin Hh) as (h2 & _ & -> & _). eauto.
Qed.

(** ** Rows *)

Definition row_key (r : InboxRow) : string * string * string := (ib_cluster r, ib_kind r, ib_key r).

Lemma elem_of_filter_bool {A} (f : A → bool) l x : x ∈ List.filter f l ↔ x ∈ l ∧ f x = true.
Proof. rewrite !list_elem_of_In. apply filter_In. Qed.

Lemma elem_of_pending c ib r : r ∈ pending c ib ↔ r ∈ ib_rows ib ∧ ib_cluster r = c ∧ unprocessed r = true.
Proof. unfold pending, of_cluster. rewrite elem_of_filter_bool, andb_true_iff, String.eqb_eq. done. Qed.

(** The ids of the rows grow and are below the next one. *)
Record ids_ok (ib : Inbox) : Prop := {
  ids_sorted : StronglySorted lt (map ib_id (ib_rows ib));
  ids_below : ∀ r, r ∈ ib_rows ib → (ib_id r < ib_seq ib)%nat;
}.

Lemma sorted_filter (f : InboxRow → bool) l : StronglySorted lt (map ib_id l) → StronglySorted lt (map ib_id (List.filter f l)).
Proof.
  induction l as [|r l IH]; simpl; intros H; [done|]. inversion H as [|? ? Hs Hf]; subst. destruct (f r); simpl; [|by apply IH].
  constructor; [by apply IH|]. rewrite Forall_forall in *. intros i (x & -> & Hx)%list_elem_of_fmap. apply elem_of_filter_bool in Hx as [Hx _].
  apply Hf. by apply list_elem_of_fmap_2.
Qed.

Lemma sorted_ids_inj l a b : StronglySorted lt (map ib_id l) → a ∈ l → b ∈ l → ib_id a = ib_id b → a = b.
Proof.
  induction l as [|r l IH]; simpl; intros H Ha Hb E; [by apply not_elem_of_nil in Ha|]. inversion H as [|? ? Hs Hf]; subst.
  assert (∀ x, x ∈ l → (ib_id r < ib_id x)%nat) as Hlt.
  { intros x Hx. rewrite Forall_forall in Hf. apply Hf. by apply list_elem_of_fmap_2. }
  apply elem_of_cons in Ha as [->|Ha], Hb as [->|Hb]; [done|specialize (Hlt b Hb); lia|specialize (Hlt a Ha); lia|by apply IH].
Qed.

Lemma pending_head c ib r rs x :
  ids_ok ib → pending c ib = r :: rs → x ∈ pending c ib → (ib_id r ≤ ib_id x)%nat.
Proof.
  intros [Hs _] E Hx. pose proof (sorted_filter (λ r, of_cluster c r && unprocessed r) _ Hs) as H. fold (pending c ib) in H. rewrite E in *.
  inversion H as [|? ? _ Hf]; subst. apply elem_of_cons in Hx as [->|Hx]; [done|]. rewrite Forall_forall in Hf.
  specialize (Hf (ib_id x) ltac:(by apply list_elem_of_fmap_2)). lia.
Qed.

(** Updating the row of an id. *)
Lemma elem_of_update id f ib x :
  (∀ r, ib_id (f r) = ib_id r) → ids_ok ib →
  x ∈ ib_rows (update_row id f ib) ↔ ∃ r, r ∈ ib_rows ib ∧ x = if (ib_id r =? id)%nat then f r else r.
Proof. intros Hf _. simpl. rewrite list_elem_of_fmap. naive_solver. Qed.

Lemma ids_update id f ib : (∀ r, ib_id (f r) = ib_id r) → ids_ok ib → ids_ok (update_row id f ib).
Proof.
  intros Hf [H1 H2]. assert (map ib_id (ib_rows (update_row id f ib)) = map ib_id (ib_rows ib)) as E.
  { simpl. rewrite map_map. apply map_ext. intros r. case_if; [apply Hf|done]. }
  constructor; [by rewrite E|]. simpl. intros r (x & -> & Hx)%list_elem_of_fmap. case_if; rewrite ?Hf; by apply H2.
Qed.

(** ** Runs *)

Section Runs.
  Context (sha : string → string) (elements : string → option (list string)).
  Context (UnmarshalEvent : string → option Event) (UnmarshalLog : string → option LogRecord) (MarshalEvent : Event → string).
  Context {E X : Type} {Pr : Processor E X} (max : nat).

(** The inbox, the engine's data per cluster, the batches that were answered
    with 202, and the rows the engine took, in order. *)
Record Sys := { s_ib : Inbox; s_eng : string → E; s_acked : list (string * string * string); s_done : list InboxRow }.

(** A request arrives, a worker tries, the sweep runs, or the engine does other
    work on the data of a cluster. *)
Inductive action :=
| Receive (kind : string) (rq : AuditRequest) (store slot : bool) (now : Time) (e : ending)
| Work (routed locked : string → bool) (now : Time) (x : X) (e : ending)
| Clean (n : nat) (cutoff : Time)
| Other (c : string) (g : E → E).

Definition records_of (kind : string) (rq : AuditRequest) : list string :=
  match rq_body rq with Batch events records => if kind == "log" then records else events | _ => [] end.

Definition act (s : Sys) (a : action) : Sys :=
  match a with
  | Receive kind rq store slot now e =>
      let '(ib, status) := receive sha elements UnmarshalEvent UnmarshalLog kind max store slot now e rq (s_ib s) in
      {| s_ib := ib; s_eng := s_eng s;
         s_acked := if (status =? 202)%Z then snoc (s_acked s) (rq_cluster rq, kind, sha (payload_text (records_of kind rq))) else s_acked s;
         s_done := s_done s |}
  | Work routed locked now x e =>
      match ProcessAuditBatch sha UnmarshalEvent UnmarshalLog MarshalEvent routed locked now x e (s_ib s) (s_eng s) with
      | None => s
      | Some (c, a) =>
          {| s_ib := at_inbox a; s_eng := λ c', if c' == c then at_engine a else s_eng s c'; s_acked := s_acked s;
             s_done := match at_row a with Some (r, true) => snoc (s_done s) r | _ => s_done s end |}
      end
  | Clean n cutoff => {| s_ib := CleanAuditInbox n cutoff (s_ib s); s_eng := s_eng s; s_acked := s_acked s; s_done := s_done s |}
  | Other c g => {| s_ib := s_ib s; s_eng := λ c', if c' == c then g (s_eng s c') else s_eng s c'; s_acked := s_acked s; s_done := s_done s |}
  end.

Definition start (eng : E) : Sys := {| s_ib := empty_inbox; s_eng := λ _, eng; s_acked := []; s_done := [] |}.
Definition inbox_run (eng : E) (acts : list action) : Sys := foldl act (start eng) acts.

(** The payload of a row is the one its key was taken of. *)
Definition genuine (r : InboxRow) : Prop :=
  ∃ records, ib_key r = sha (payload_text records) ∧ elements (payload_text records) = Some (ib_payload r).

Record Inv (s : Sys) : Prop := {
  v_ids : ids_ok (s_ib s);
  v_acked : ∀ k, k ∈ s_acked s →
    (∃ r, r ∈ ib_rows (s_ib s) ∧ row_key r = k ∧ unprocessed r = true) ∨ ∃ d, d ∈ s_done s ∧ row_key d = k;
  v_processed : ∀ r, r ∈ ib_rows (s_ib s) → unprocessed r = false → ∃ d, d ∈ s_done s ∧ row_key d = row_key r ∧ ib_id d = ib_id r;
  v_genuine : ∀ r, r ∈ ib_rows (s_ib s) → unprocessed r = true → genuine r;
  v_taken : ∀ d, d ∈ s_done s → genuine d;
  v_bound : ∀ c, (length (pending c (s_ib s)) ≤ max)%nat;
  v_below : ∀ d, d ∈ s_done s → (ib_id d < ib_seq (s_ib s))%nat;
  v_later : ∀ d r, d ∈ s_done s → r ∈ ib_rows (s_ib s) → ib_cluster r = ib_cluster d → unprocessed r = true → (ib_id d ≤ ib_id r)%nat;
  v_sorted : ∀ c, StronglySorted le (map ib_id (List.filter (of_cluster c) (s_done s)));
}.

(** *** Receiving *)

Lemma enqueue_cases c kind records now e ib ib' res :
  EnqueueAudit sha elements c kind records max now e ib = (ib', res) →
  (ib' = ib ∧ (res = EnqOk → ∃ r, r ∈ ib_rows ib ∧ row_key r = (c, kind, sha (payload_text records))))
  ∨ ∃ l, elements (payload_text records) = Some l ∧ (0 < max → length (pending c ib) < max)%nat
         ∧ ib' = {| ib_rows := snoc (ib_rows ib)
                      {| ib_id := ib_seq ib; ib_cluster := c; ib_kind := kind; ib_key := sha (payload_text records); ib_payload := l;
                         ib_created := now; ib_attempts := 0; ib_next := now; ib_processed := None |}; ib_seq := S (ib_seq ib) |}.
Proof.
  unfold EnqueueAudit. destruct (_ || _); [intros [= <- <-]; by left|]. destruct (negb (applied e)); [intros [= <- <-]; by left|].
  destruct (any _ (ib_rows ib)) eqn:Ea.
  - intros [= <- <-]. left. split; [done|]. intros _. apply any_true in Ea as (r & Hr & H). unfold of_cluster in H. bool_hyps.
    exists r. split; [done|]. unfold row_key. congruence.
  - destruct (_ && _) eqn:Eb; [intros [= <- <-]; by left|]. destruct (elements _) as [l|] eqn:El; [|intros [= <- <-]; by left].
    intros [= <- _]. right. exists l. split; [done|]. split; [|done]. intros Hm. apply andb_false_iff in Eb as [Eb|Eb]; bool_hyps; lia.
Qed.

Lemma receive_cases kind rq store slot now e ib ib' status :
  receive sha elements UnmarshalEvent UnmarshalLog kind max store slot now e rq ib = (ib', status) →
  (ib' = ib ∧ status ≠ 202%Z)
  ∨ ∃ res, EnqueueAudit sha elements (rq_cluster rq) kind (records_of kind rq) max now e ib = (ib', res) ∧ (status = 202%Z → res = EnqOk).
Proof.
  unfold receive. repeat (match goal with |- (if ?b then _ else _) = _ → _ => destruct b; [intros [= <- <-]; by left|] end).
  unfold records_of. destruct (rq_body rq) as [events records| | |]; try (intros [= <- <-]; by left).
  cbv zeta. set (l := if kind == "log" then records else events). repeat (match goal with |- (if ?b then _ else _) = _ → _ => destruct b; [intros [= <- <-]; by left|] end).
  destruct (EnqueueAudit _ _ _ _ _ _ _ _ _) as [ib2 res]. destruct res; intros [= <- <-]; right; eexists; (split; [done|]); done.
Qed.

Lemma unprocessed_case r : unprocessed r = true ∨ unprocessed r = false.
Proof. destruct (unprocessed r); auto. Qed.

Lemma receive_Inv s kind rq store slot now e : (0 < max)%nat → Inv s → Inv (act s (Receive kind rq store slot now e)).
Proof.
  intros Hmax Hi. simpl. destruct (receive _ _ _ _ _ _ _ _ _ _ _ _) as [ib status] eqn:Er.
  apply receive_cases in Er as [[-> Hst]|(res & He & Hst)].
  - destruct (status =? 202)%Z eqn:E2; [by apply Z.eqb_eq in E2|]. by destruct s, Hi.
  - apply enqueue_cases in He as [[-> Hok]|(l & El & Hlt & ->)].
    + destruct Hi as [I1 I2 I3 I4 I4' I5 I6 I7 I8]. constructor; try done. simpl. intros k Hk. case_if; [|by apply I2].
      unfold snoc in Hk. apply elem_of_app in Hk as [Hk|Hk]; [by apply I2|]. apply list_elem_of_singleton in Hk as ->.
      destruct Hok as (r & Hr & Hkey); [auto|]. destruct (unprocessed_case r) as [Hu|Hu]; [left; by exists r|right].
      destruct (I3 r Hr Hu) as (d & Hd & Hkd & _). exists d. split; [done|congruence].
    + set (new := {| ib_id := ib_seq (s_ib s) |}). destruct Hi as [I1 I2 I3 I4 I4' I5 I6 I7 I8].
      assert (∀ r, r ∈ snoc (ib_rows (s_ib s)) new ↔ r ∈ ib_rows (s_ib s) ∨ r = new) as Hin.
      { intros r. unfold snoc. by rewrite elem_of_app, list_elem_of_singleton. }
      constructor; simpl; setoid_rewrite Hin || idtac.
      * destruct I1 as [Hs Hb]. constructor; simpl.
        -- unfold snoc. rewrite map_app. simpl. apply StronglySorted_app_2; [|done|repeat constructor].
           intros i j (r & -> & Hr)%list_elem_of_fmap ->%list_elem_of_singleton. by apply Hb.
        -- intros r [Hr| ->]%Hin; [specialize (Hb r Hr); lia|simpl; lia].
      * intros k Hk. assert (k ∈ s_acked s ∨ k = row_key new) as [H| ->].
        { case_if; [|by left]. unfold snoc in Hk. apply elem_of_app in Hk as [Hk|Hk]; [by left|right]. by apply list_elem_of_singleton in Hk. }
        -- destruct (I2 k H) as [(r & Hr & H')|H']; [left; exists r; split; [by left|done]|by right].
        -- left. exists new. split; [by right|done].
      * intros r [Hr| ->] Hu; [by apply I3|done].
      * intros r [Hr| ->] Hu; [by apply I4|]. by exists (records_of kind rq).
      * done.
      * intros c. unfold pending, snoc. simpl. rewrite List.filter_app, length_app. specialize (I5 c). unfold pending in I5. simpl.
        unfold of_cluster at 2. simpl. destruct (String.eqb_spec (rq_cluster rq) c) as [<-|]; simpl; [|lia].
        specialize (Hlt Hmax). unfold pending in Hlt. lia.
      * intros d Hd. specialize (I6 d Hd). lia.
      * intros d r Hd [Hr| ->] Hc Hu; [by apply I7|]. simpl. specialize (I6 d Hd). lia.
      * done.
Qed.

(** *** Working *)

Lemma process_first_is clusters routed locked now x e ib engines c a :
  process_first sha UnmarshalEvent UnmarshalLog MarshalEvent clusters routed locked now x e ib engines = Some (c, a) →
  a = processAuditCluster sha UnmarshalEvent UnmarshalLog MarshalEvent c now x e (locked c) ib (engines c).
Proof.
  induction clusters as [|c' clusters IH]; simpl; [done|]. destruct (routed c'); [done|]. case_if; [|done]. by intros [= <- <-].
Qed.

(** An attempt leaves everything as it is, or takes the oldest batch of the
    cluster. *)
Lemma attempt_cases c now x e locked ib eng :
  let a := processAuditCluster sha UnmarshalEvent UnmarshalLog MarshalEvent c now x e locked ib eng in
  (at_inbox a = ib ∧ at_engine a = eng ∧ at_row a = None)
  ∨ ∃ r rs ok, pending c ib = r :: rs ∧ at_row a = Some (r, ok)
      ∧ (at_engine a, ok) = Process sha UnmarshalEvent UnmarshalLog MarshalEvent (batch_of r) x eng
      ∧ (at_inbox a = ib ∨ at_inbox a = update_row (ib_id r) (if ok then mark_processed now else mark_failed now) ib).
Proof.
  unfold processAuditCluster. destruct (negb locked); [by left|]. destruct (pending c ib) as [|r rs]; [by left|].
  destruct (negb (ready now r)); [by left|]. destruct (Process _ _ _ _ _ _ _) as [eng' ok] eqn:Ep. right. exists r, rs, ok.
  simpl. split_and!; try done. destruct (applied e); auto.
Qed.

(** The rows after marking row [r]: the others, and [r] with its mark. *)
Lemma elem_of_marked ib r f x :
  ids_ok ib → r ∈ ib_rows ib →
  x ∈ ib_rows (update_row (ib_id r) f ib) ↔ (x ∈ ib_rows ib ∧ x ≠ r ∧ ib_id x ≠ ib_id r) ∨ x = f r.
Proof.
  intros [Hs _] Hr. simpl. rewrite list_elem_of_fmap. split.
  - intros (y & -> & Hy). destruct (Nat.eqb_spec (ib_id y) (ib_id r)) as [E'|Hne].
    + right. f_equal. by apply (sorted_ids_inj (ib_rows ib)).
    + left. split_and!; [done|congruence|done].
  - intros [(Hx & _ & Hne)| ->]; [exists x|exists r]; (split; [|done]).
    + destruct (Nat.eqb_spec (ib_id x) (ib_id r)); congruence.
    + by rewrite Nat.eqb_refl.
Qed.

Lemma pending_marked ib r f c :
  (∀ x, ib_cluster (f x) = ib_cluster x) → ids_ok ib → r ∈ ib_rows ib → unprocessed r = true →
  (length (pending c (update_row (ib_id r) f ib)) ≤ length (pending c ib))%nat.
Proof.
  intros Hf [Hs _] Hr Hu. unfold pending. simpl. 
  assert (∀ l, (∀ x, x ∈ l → ib_id x = ib_id r → x = r) →
    (length (List.filter (λ r, of_cluster c r && unprocessed r) (map (λ x, if (ib_id x =? ib_id r)%nat then f x else x) l))
     ≤ length (List.filter (λ r, of_cluster c r && unprocessed r) l))%nat) as H.
  { induction l as [|y l IH]; intros Hl; simpl; [lia|].
    specialize (IH ltac:(intros x Hx; apply Hl; by right)). destruct (Nat.eqb_spec (ib_id y) (ib_id r)) as [E'|Hne].
    - assert (y = r) as -> by (apply Hl; [left|done]). unfold of_cluster in *. rewrite Hf, Hu, andb_true_r.
      destruct (ib_cluster r == c); simpl; [|lia]. destruct (unprocessed (f r)); simpl; lia.
    - destruct (_ && _); simpl; lia. }
  apply H. intros x Hx E'. by apply (sorted_ids_inj (ib_rows ib)).
Qed.

Lemma work_Inv s routed locked now x e : Inv s → Inv (act s (Work routed locked now x e)).
Proof.
  intros Hi. simpl. destruct (ProcessAuditBatch _ _ _ _ _ _ _ _ _ _ _) as [[c a]|] eqn:Ep; [|done].
  apply process_first_is in Ep. pose proof (attempt_cases c now x e (locked c) (s_ib s) (s_eng s c)) as Hc. cbv zeta in Hc. rewrite <- Ep in Hc.
  destruct Hc as [(E1 & E2 & E3)|(r & rs & ok & Epend & Erow & _ & Hib)].
  { rewrite E1, E3. destruct Hi as [I1 I2 I3 I4 I4' I5 I6 I7 I8]. by constructor. }
  assert (r ∈ pending c (s_ib s)) as Hrp by (rewrite Epend; left). pose proof Hrp as (Hr & Hcl & Hu)%elem_of_pending.
  destruct Hi as [I1 I2 I3 I4 I4' I5 I6 I7 I8]. rewrite Erow.
  set (done' := match Some (r, ok) with Some (r, true) => snoc (s_done s) r | _ => s_done s end).
  assert (∀ d, d ∈ done' ↔ d ∈ s_done s ∨ (ok = true ∧ d = r)) as Hdone.
  { intros d. unfold done'. destruct ok; unfold snoc; rewrite ?elem_of_app, ?list_elem_of_singleton; naive_solver. }
  assert (∀ d, d ∈ done' → (ib_id d < ib_seq (s_ib s))%nat) as Hbelow.
  { intros d [Hd|[_ ->]]%Hdone; [by apply I6|by apply I1]. }
  assert (∀ d y, d ∈ done' → y ∈ ib_rows (s_ib s) → ib_cluster y = ib_cluster d → unprocessed y = true → (ib_id d ≤ ib_id y)%nat) as Hlater.
  { intros d y [Hd|[_ ->]]%Hdone Hy Hyc Hyu; [by apply I7|]. apply (pending_head c (s_ib s) r rs); [done|done|]. apply elem_of_pending.
    split_and!; [done|congruence|done]. }
  assert (∀ c', StronglySorted le (map ib_id (List.filter (of_cluster c') done'))) as Hsorted.
  { intros c'. unfold done'. destruct ok; [|done]. unfold snoc. rewrite List.filter_app, map_app. apply StronglySorted_app_2; [|done|].
    - intros i j (d & -> & Hd)%list_elem_of_fmap (d' & -> & Hd')%list_elem_of_fmap.
      apply elem_of_filter_bool in Hd as [Hd Hdc], Hd' as [Hd' Hdc']. apply list_elem_of_singleton in Hd' as ->.
      unfold of_cluster in *. bool_hyps. apply I7; [done|done|congruence|done].
    - simpl. destruct (of_cluster c' r); simpl; repeat constructor. }
  assert (∀ d, d ∈ done' → genuine d) as Hgen by (intros d [Hd|[_ ->]]%Hdone; auto).
  destruct Hib as [->|Hib].
  - constructor; simpl; try done.
    + intros k Hk. destruct (I2 k Hk) as [H|(d & Hd & Hkd)]; [by left|right]. exists d. rewrite Hdone. auto.
    + intros y Hy Hyu. destruct (I3 y Hy Hyu) as (d & Hd & H). exists d. rewrite Hdone. auto.
  - rewrite Hib. set (f := if ok then mark_processed now else mark_failed now) in *.
    assert (∀ y, ib_id (f y) = ib_id y) as Hfid by (intros y; unfold f; by destruct ok).
    assert (row_key (f r) = row_key r) as Hfk by (unfold f; by destruct ok).
    assert (unprocessed (f r) = negb ok) as Hfu by (unfold f; by destruct ok).
    constructor; simpl.
    + by apply ids_update.
    + intros k Hk. destruct (I2 k Hk) as [(y & Hy & Hky & Hyu)|(d & Hd & Hkd)]; [|right; exists d; rewrite Hdone; auto].
      destruct (decide (ib_id y = ib_id r)) as [E'|Hne].
      * assert (y = r) as -> by (apply (sorted_ids_inj (ib_rows (s_ib s))); [apply I1|done..]). destruct ok eqn:Eok.
        -- right. exists r. rewrite Hdone. auto.
        -- left. exists (f r). split; [apply (elem_of_marked (s_ib s) r f); [done|done|by right]|]. by rewrite Hfk, Hfu.
      * left. exists y. split; [|done]. apply (elem_of_marked (s_ib s) r f); [done|done|]. left. split_and!; [done|congruence|done].
    + intros y Hy Hyu. apply (elem_of_marked (s_ib s) r f) in Hy as [(Hy & _ & _)| ->]; [| |done..].
      * destruct (I3 y Hy Hyu) as (d & Hd & H). exists d. rewrite Hdone. auto.
      * exists r. rewrite Hfu in Hyu. apply negb_false_iff in Hyu. rewrite Hdone, Hfk, Hfid. auto.
    + intros y Hy Hyu. apply (elem_of_marked (s_ib s) r f) in Hy as [(Hy & _ & _)| ->]; [by apply I4| |done..].
      rewrite Hfu in Hyu. apply negb_true_iff in Hyu. destruct (I4 r Hr Hu) as (records & K1 & K2). exists records.
      unfold f. by rewrite Hyu.
    + done.
    + intros c'. etrans; [|apply (I5 c')]. apply pending_marked; [|done|done|done]. intros y. unfold f. by destruct ok.
    + done.
    + intros d y Hd Hy Hyc Hyu. apply (elem_of_marked (s_ib s) r f) in Hy as [(Hy & _ & _)| ->]; [by apply Hlater| |done..].
      rewrite Hfid. apply Hlater; [done|done| |done]. rewrite <- Hyc. unfold f. by destruct ok.
    + done.
Qed.

(** *** Cleaning *)

Lemma filter_filter_bool {A} (f g : A → bool) l : List.filter g (List.filter f l) = List.filter (λ x, f x && g x) l.
Proof. induction l as [|x l IH]; simpl; [done|]. destruct (f x); simpl; [|exact IH]. destruct (g x); simpl; congruence. Qed.

Lemma clean_rows_sub n cutoff rows :
  StronglySorted lt (map ib_id rows) →
  ∃ keep, clean_rows n cutoff rows = List.filter keep rows ∧ ∀ r, r ∈ rows → unprocessed r = true → keep r = true.
Proof.
  revert rows. induction n as [|n IH]; intros rows Hs; simpl.
  - exists (λ _, true). split; [|done]. clear. induction rows as [|r rows IH]; simpl; congruence.
  - set (gone := chunk_of cutoff rows).
    assert (∀ r, r ∈ rows → unprocessed r = true → negb (any (λ g, (ib_id g =? ib_id r)%nat) gone) = true) as Hk.
    { intros r Hr Hu. apply negb_true_iff, any_false. intros g Hg. apply Nat.eqb_neq. intros E'.
      assert (g ∈ List.filter (expired cutoff) rows) as [Hg' Hexp]%elem_of_filter_bool.
      { unfold gone, chunk_of in Hg. apply (subseteq_take auditInboxCleanChunk) in Hg. by rewrite merge_sort_Permutation in Hg. }
      assert (g = r) as -> by (by apply (sorted_ids_inj rows)). unfold expired, unprocessed in *. by destruct (ib_processed r). }
    case_if; [by exists (λ r, negb (any (λ g, (ib_id g =? ib_id r)%nat) gone))|].
    destruct (IH (without gone rows)) as (keep & -> & H); [by apply sorted_filter|].
    exists (λ r, negb (any (λ g, (ib_id g =? ib_id r)%nat) gone) && keep r). split.
    + apply filter_filter_bool.
    + intros r Hr Hu. rewrite (Hk r Hr Hu). simpl. apply H; [|done]. apply elem_of_filter_bool. auto.
Qed.

Lemma filter_le {A} (f g : A → bool) l : (length (List.filter f (List.filter g l)) ≤ length (List.filter f l))%nat.
Proof. induction l as [|x l IH]; simpl; [lia|]. destruct (g x), (f x) eqn:Ef; simpl; rewrite ?Ef; simpl; lia. Qed.

Lemma clean_Inv s n cutoff : Inv s → Inv (act s (Clean n cutoff)).
Proof.
  intros [[Hs Hb] I2 I3 I4 I4' I5 I6 I7 I8]. simpl. unfold CleanAuditInbox.
  destruct (clean_rows_sub n cutoff (ib_rows (s_ib s)) Hs) as (keep & -> & Hk).
  assert (∀ r, r ∈ List.filter keep (ib_rows (s_ib s)) → r ∈ ib_rows (s_ib s)) as Hsub by (intros r [H _]%elem_of_filter_bool; done).
  constructor; simpl; try done.
  - constructor; simpl; [by apply sorted_filter|]. intros r Hr. auto.
  - intros k Hk'. destruct (I2 k Hk') as [(r & Hr & Hkr & Hu)|H]; [left|by right]. exists r. split; [|done]. apply elem_of_filter_bool. auto.
  - intros r Hr. auto.
  - intros r Hr. auto.
  - intros c. etrans; [|apply (I5 c)]. unfold pending. simpl. apply filter_le.
  - intros d r Hd Hr. auto.
Qed.

Lemma inbox_Inv eng acts : (0 < max)%nat → Inv (inbox_run eng acts).
Proof.
  intros Hmax. unfold inbox_run. assert (Inv (start eng)) as H0.
  { constructor; simpl; try by (intros ? ?%not_elem_of_nil).
    - constructor; simpl; [constructor|by intros ? ?%not_elem_of_nil].
    - intros c. simpl. lia.
    - intros d r Hd. by apply not_elem_of_nil in Hd.
    - intros c. constructor. }
  revert H0. generalize (start eng). induction acts as [|a acts IH]; intros s Hs; simpl; [done|]. apply IH.
  destruct a; [by apply receive_Inv|by apply work_Inv|by apply clean_Inv|by destruct s, Hs].
Qed.

(** C15: an accepted batch is not lost: whatever statements fail, are repeated or
    go unheard, a batch that was answered with 202 is in the inbox, waiting, with
    the payload its key was taken of, or the engine has taken that payload
    without an error. *)
Theorem accepted_kept eng acts c kind key :
  (0 < max)%nat → (c, kind, key) ∈ s_acked (inbox_run eng acts) →
  ∃ r, (r ∈ pending c (s_ib (inbox_run eng acts)) ∨ r ∈ s_done (inbox_run eng acts))
       ∧ row_key r = (c, kind, key) ∧ genuine r.
Proof.
  intros Hmax Hk. pose proof (inbox_Inv eng acts Hmax) as [_ I2 _ I4 I4' _ _ _ _]. destruct (I2 _ Hk) as [(r & Hr & Hkr & Hu)|(d & Hd & Hkd)].
  - exists r. split; [left|by auto]. apply elem_of_pending. split_and!; [done|by injection Hkr|done].
  - exists d. auto.
Qed.

(** The engine takes the batches of a cluster in the order they were
    accepted: the ids it took never decrease, no batch waits behind one that was
    accepted later and taken, and never more than the limit wait. *)
Theorem inbox_in_order eng acts c :
  (0 < max)%nat →
  StronglySorted le (map ib_id (List.filter (of_cluster c) (s_done (inbox_run eng acts))))
  ∧ (∀ d r, d ∈ s_done (inbox_run eng acts) → ib_cluster d = c → r ∈ pending c (s_ib (inbox_run eng acts)) → (ib_id d ≤ ib_id r)%nat)
  ∧ (length (pending c (s_ib (inbox_run eng acts))) ≤ max)%nat.
Proof.
  intros Hmax. pose proof (inbox_Inv eng acts Hmax) as [_ _ _ _ _ I5 _ I7 I8]. split_and!; [done| |done].
  intros d r Hd Hc (Hr & Hrc & Hu)%elem_of_pending. apply I7; [done|done|congruence|done].
Qed.
End Runs.

(** ** With the audit engine *)

(** What an ingestion meets: the time, and how the transaction of each item ends. *)
Record Circumstance := { x_now : Time; x_ends : nat → outcome }.

Section Engine.
  Context {T : CaseTables} (matcher : Matcher) (retention : Duration) (trusted : list IPNet) (started : Time).
  Context (sha : string → string) (elements : string → option (list string)).
  Context (UnmarshalEvent : string → option Event) (UnmarshalLog : string → option LogRecord) (MarshalEvent : Event → string)
          (MarshalIdentity : Identity → string) (max : nat).

(** The engine as the processor of batches. *)
Definition engine_processor : Processor DB Circumstance := {|
  ingest_events cluster raws x db :=
    IngestEvents matcher cluster retention (λ raw, admission_item retention UnmarshalEvent sha trusted raw (x_now x)) db
      (imap (λ i raw, (raw, x_ends x i)) raws) (x_now x);
  ingest_log_records cluster recs x db :=
    IngestLog matcher cluster retention (λ rec, log_item_of retention sha MarshalIdentity MarshalEvent trusted started rec (x_now x)) db
      (imap (λ i rec, (rec, x_ends x i)) recs) (x_now x);
|}.
#[local] Existing Instance engine_processor.

(** The engine's own sweeps over pending enrichments. *)
Inductive sweep (c : string) : (DB → DB) → Prop :=
| sweep_materialize key now : sweep c (λ db, materialize matcher c retention db key now)
| sweep_drop key : sweep c (λ db, dropPendingEvent db key).

Definition engine_action (a : action (E := DB) (X := Circumstance)) : Prop := match a with Other c g => sweep c g | _ => True end.

Lemma history_snoc c ts t : history matcher c retention (ts ++ [t]) = commit matcher c retention (run matcher c retention ts) t.
Proof. unfold history, run. by rewrite foldl_app. Qed.

Lemma Process_history c b x ts :
  B_Cluster b = c → ∃ ts', (Process sha UnmarshalEvent UnmarshalLog MarshalEvent b x (history matcher c retention ts)).1 = history matcher c retention ts'.
Proof.
  intros <-. unfold Process. case_if; [|case_if].
  - destruct (IngestEvents_run matcher (B_Cluster b) retention (λ raw, admission_item retention UnmarshalEvent sha trusted raw (x_now x)) ts
      (imap (λ i raw, (raw, x_ends x i)) (omap (λ raw, (λ ev, MarshalEvent (stableEvent sha ev raw b)) <$> UnmarshalEvent raw) (B_Payload b))) (x_now x))
      as [ts' H]. by exists (ts ++ ts').
  - by exists ts.
  - edestruct (IngestLog_run matcher (B_Cluster b) retention (λ rec, log_item_of retention sha MarshalIdentity MarshalEvent trusted started rec (x_now x)) ts)
      as [ts' H]. exists (ts ++ ts'). apply H.
Qed.

(** The data of every cluster is what some sequence of transactions leaves. *)
Lemma inbox_history acts c :
  Forall engine_action acts →
  ∃ ts, s_eng (inbox_run sha elements UnmarshalEvent UnmarshalLog MarshalEvent max empty_db acts) c = history matcher c retention ts.
Proof.
  intros Ha. unfold inbox_run.
  assert (∀ c, ∃ ts, s_eng (start empty_db : Sys) c = history matcher c retention ts) as H0 by (intros c'; by exists []).
  revert c H0. generalize (start empty_db : Sys). induction Ha as [|a acts Ha _ IH]; intros s c Hs; simpl; [apply Hs|].
  apply IH. clear IH c. intros c. destruct a as [kind rq st slot now e|routed locked now x e|n cutoff|c' g]; simpl.
  - destruct (receive _ _ _ _ _ _ _ _ _ _ _ _) as [ib status]. apply Hs.
  - destruct (ProcessAuditBatch _ _ _ _ _ _ _ _ _ _ _) as [[c' a]|] eqn:Ep; [|apply Hs]. apply process_first_is in Ep.
    simpl. destruct (String.eqb_spec c c') as [->|]; [|apply Hs]. destruct (Hs c') as [ts Hts].
    pose proof (attempt_cases sha UnmarshalEvent UnmarshalLog MarshalEvent c' now x e (locked c') (s_ib s) (s_eng s c')) as Hc. cbv zeta in Hc.
    rewrite <- Ep in Hc. destruct Hc as [(_ & -> & _)|(r & rs & ok & Epend & _ & Hpr & _)]; [by exists ts|].
    assert (r ∈ pending c' (s_ib s)) as (_ & Hrc & _)%elem_of_pending by (rewrite Epend; left).
    destruct (Process_history c' (batch_of r) x ts Hrc) as [ts' H']. exists ts'. rewrite <- H', <- Hts, <- Hpr. done.
  - apply Hs.
  - destruct (String.eqb_spec c c') as [->|]; [|apply Hs]. destruct (Hs c') as [ts ->]. destruct Ha as [key now|key].
    + exists (ts ++ [TMaterialize key now]). by rewrite history_snoc.
    + exists (ts ++ [TDrop key]). by rewrite history_snoc.
Qed.

(** Retried deliveries do not repeat an event: however often a batch is sent,
    set back or taken again, by whatever path a request reaches the engine, the
    data of a cluster has at most one row per request and source, and no rule
    reports an event twice. *)
Theorem inbox_exactly_once acts c u :
  Forall engine_action acts →
  let db := s_eng (inbox_run sha elements UnmarshalEvent UnmarshalLog MarshalEvent max empty_db acts) c in
  (length (List.filter (λ r, E_ID (row_event r) == u) (rows db))
     ≤ b2n (IsAdmitted (state_of db (admission_key u))) + b2n (IsAdmitted (state_of db (apilog_key u))))%nat
  ∧ NoDup (map akey (violations db)) ∧ NoDup (map akey (alerts db)).
Proof. intros Ha. cbv zeta. destruct (inbox_history acts c Ha) as [ts ->]. apply history_once. Qed.
End Engine.

(** ** Examples *)

(** Records are event ids in braces, and arrays of them split at commas. *)
Definition plain_elements (text : string) : option (list string) := Some (Split (stake (String.length text - 2) (sdrop 1 text)) ","%char).
Definition plain_event (raw : string) : option Event :=
  if starts_object raw then Some (exec_event raw "ann" (1000 * Hour)%Z) else None.
Definition plain_log (raw : string) : option LogRecord := (λ ev, {| L_EventUID := ""; L_Event := ev |}) <$> plain_event raw.
Definition plain_batch (records : list string) : AuditRequest :=
  {| rq_method := "POST"; rq_cluster := "east"; rq_length := 100; rq_body := Batch records [] |}.
Definition at_hour (h : Z) : Circumstance := {| x_now := (h * Hour)%Z; x_ends := λ _, Committed |}.

(** The response to the first batch is lost and it is sent again; the first
    attempt ends before the row is marked, and it is taken twice. *)
Definition repeated : list (action (E := DB) (X := Circumstance)) :=
  [Receive "events" (plain_batch ["{a}"; "{b}"]) true true (1000 * Hour)%Z DoneUnheard;
   Receive "events" (plain_batch ["{a}"; "{b}"]) true true (1000 * Hour)%Z Done;
   Receive "events" (plain_batch ["{c}"]) true true (1000 * Hour)%Z Done;
   Work (λ _, false) (λ _, true) (1000 * Hour)%Z (at_hour 1000) NotDone;
   Work (λ _, false) (λ _, true) (1000 * Hour)%Z (at_hour 1000) Done;
   Clean 3 (999 * Hour)%Z].
#[local] Existing Instance ascii_tables.
#[local] Instance example_processor : Processor DB Circumstance :=
  engine_processor NewMatcher (24 * Hour)%Z [] 0%Z id plain_event E_ID (λ _, "").
Definition repeated_run : Sys (E := DB) := inbox_run id plain_elements plain_event plain_log E_ID 10 empty_db repeated.

Lemma accepted_kept_witness :
  s_acked repeated_run = [("east", "events", "[{a},{b}]"); ("east", "events", "[{c}]")]
  ∧ ∃ r, (r ∈ pending "east" (s_ib repeated_run) ∨ r ∈ s_done repeated_run)
         ∧ row_key r = ("east", "events", "[{c}]") ∧ genuine id plain_elements r.
Proof.
  assert (s_acked repeated_run = [("east", "events", "[{a},{b}]"); ("east", "events", "[{c}]")]) as E by (vm_compute; reflexivity).
  split; [exact E|]. apply (accepted_kept id plain_elements plain_event plain_log E_ID 10 empty_db repeated).
  - lia.
  - fold repeated_run. rewrite E. right. left.
Defined.

Lemma inbox_in_order_witness :
  map ib_id (s_done repeated_run) = [0; 0]%nat
  ∧ StronglySorted le (map ib_id (List.filter (of_cluster "east") (s_done repeated_run)))
  ∧ (∀ d r, d ∈ s_done repeated_run → ib_cluster d = "east" → r ∈ pending "east" (s_ib repeated_run) → (ib_id d ≤ ib_id r)%nat)
  ∧ (length (pending "east" (s_ib repeated_run)) ≤ 10)%nat.
Proof.
  split; [vm_compute; reflexivity|]. apply (inbox_in_order id plain_elements plain_event plain_log E_ID 10 empty_db repeated "east"). lia.
Defined.

Lemma inbox_exactly_once_witness :
  map (λ r, E_ID (row_event r)) (rows (s_eng repeated_run "east")) = ["{a}"; "{b}"]
  ∧ (length (List.filter (λ r, E_ID (row_event r) == "{a}") (rows (s_eng repeated_run "east")))
       ≤ b2n (IsAdmitted (state_of (s_eng repeated_run "east") (admission_key "{a}")))
         + b2n (IsAdmitted (state_of (s_eng repeated_run "east") (apilog_key "{a}"))))%nat
  ∧ NoDup (map akey (violations (s_eng repeated_run "east"))) ∧ NoDup (map akey (alerts (s_eng repeated_run "east"))).
Proof.
  split; [vm_compute; reflexivity|].
  apply (inbox_exactly_once NewMatcher (24 * Hour)%Z [] 0%Z id plain_elements plain_event plain_log E_ID (λ _, "") 10 repeated "east" "{a}").
  repeat constructor.
Defined.
