(* ===== verification/AuditForward.v ===== *)
(** * sentry-audit/internal/webhook/kvisior_fwd.go: sending batches to the hub

    [Send] cuts the items into batches the receiver takes and posts them one
    after the other; [admit] refuses the events of busy actors while the spool is
    nearly full. What a post does to the rest of the world is a parameter; the
    receiver is put in its place below. *)

From Stdlib Require Import Ascii.
From stdpp Require Import base list gmap strings.
From S2P Require Import Prelude GoStrings GoValue PushQueue AuditRules AuditEngine ClusterCtx AuditInbox AuditInboxProps.
Local Open Scope string_scope.
Local Open Scope list_scope.
Local Open Scope go_scope.

Definition fwdQueueCap : nat := 1024.
Definition fwdMaxBatch : nat := 64.
Definition sendMaxRecords : nat := 512.
Definition sendMaxBytes : Z := (2 ^ 21)%Z.
Definition len (x : string) : Z := Z.of_nat (String.length x).

(** ** Results (pkg/alerts/forward.go) *)

Definition ClassifyHTTPStatus (status : Z) : DeliveryResult :=
  if (status <? 400)%Z then DeliveryOK
  else if any (Z.eqb status) [400; 413; 422; 501]%Z then DeliveryPermanent
  else DeliveryRetry.

(** [None]: the request failed. *)
Definition classify (status : option Z) : DeliveryResult :=
  match status with
  | None => DeliveryRetry
  | Some s => if any (Z.eqb s) [401; 403; 404]%Z then DeliveryRetry else ClassifyHTTPStatus s
  end.

(** ** Sending *)

(** How many items the next batch takes, and their size. *)
Fixpoint span (n : nat) (size : Z) (items : list string) : nat :=
  match n, items with
  | S n', x :: items' => if (sendMaxBytes <? size + len x + 1)%Z then O
                         else S (span n' (size + len x + 1)%Z items')
  | _, _ => O
  end.

Inductive send_result := SendOk | SendPermanent | SendFailed.

Section Send.
  (** [json.Valid]: an item that is not valid JSON makes [json.Marshal] of the
      batch fail; [url_ok]: the address of the receiver is one a request can be
      built for. Posting one batch: the new state and the status. *)
  Context (Valid : string → bool) (url_ok : bool).
  Context {S_ : Type} (post : list string → S_ → S_ * option Z).

Definition deliverBatch (items : list string) (s : S_) : S_ * DeliveryResult :=
  if negb (forallb Valid items) then (s, DeliveryPermanent)
  else if negb url_ok then (s, DeliveryPermanent)
  else let '(s', status) := post items s in (s', classify status).

Fixpoint send_from (fuel : nat) (items : list string) (s : S_) : S_ * option send_result :=
  match items with
  | [] => (s, Some SendOk)
  | _ =>
      match fuel with
      | O => (s, None)
      | S fuel' =>
          let n := span sendMaxRecords 0 items in
          if (n =? 0)%nat then (s, Some SendPermanent)
          else
            let '(s', r) := deliverBatch (take n items) s in
            match r with
            | DeliveryOK => send_from fuel' (drop n items) s'
            | DeliveryPermanent => (s', Some SendPermanent)
            | DeliveryRetry => (s', Some SendFailed)
            end
      end
  end.

(** Every turn sends at least one item. *)
Definition Send (items : list string) (s : S_) : S_ * option send_result := send_from (length items) items s.
End Send.

(** ** The batches *)

(** The batches [Send] makes of the items, and whether all of them fit. *)
Fixpoint slices_from (fuel : nat) (items : list string) : list (list string) * bool :=
  match items with
  | [] => ([], true)
  | _ =>
      match fuel with
      | O => ([], false)
      | S fuel' =>
          let n := span sendMaxRecords 0 items in
          if (n =? 0)%nat then ([], false)
          else let '(rest, ok) := slices_from fuel' (drop n items) in (take n items :: rest, ok)
      end
  end.
Definition slices (items : list string) : list (list string) * bool := slices_from (length items) items.

Definition bytes_of (items : list string) : Z := foldr (λ x n, len x + 1 + n)%Z 0%Z items.

Lemma elem_of_concat {A} (x : A) ls : x ∈ concat ls ↔ ∃ l, x ∈ l ∧ l ∈ ls.
Proof. rewrite list_elem_of_In, in_concat. setoid_rewrite list_elem_of_In. naive_solver. Qed.

Lemma span_ok n size items :
  (span n size items ≤ n)%nat ∧ (span n size items ≤ length items)%nat
  ∧ (size ≤ sendMaxBytes → size + bytes_of (take (span n size items) items) ≤ sendMaxBytes)%Z.
Proof.
  revert size items. induction n as [|n IH]; intros size items; [simpl; lia|].
  destruct items as [|x items]; cbn [span]; [simpl; lia|].
  destruct (Z.ltb_spec sendMaxBytes (size + len x + 1)) as [H|H]; [simpl; lia|].
  destruct (IH (size + len x + 1)%Z items) as (I1 & I2 & I3). split_and!; [lia|simpl; lia|]. intros _.
  cbn [take]. unfold bytes_of in *. cbn [foldr]. specialize (I3 H). lia.
Qed.

Lemma span_pos x items : (len x < sendMaxBytes)%Z → (0 < span sendMaxRecords 0 (x :: items))%nat.
Proof.
  intros H. assert (sendMaxRecords = S 511) as -> by reflexivity. cbn [span].
  destruct (Z.ltb_spec sendMaxBytes (0 + len x + 1)); lia.
Qed.

(** The batches are the items in order, each within the limits. *)
Lemma slices_from_ok fuel items :
  (length items ≤ fuel)%nat →
  (∃ rest, concat (slices_from fuel items).1 ++ rest = items ∧ ((slices_from fuel items).2 = true → rest = [])
           ∧ ((slices_from fuel items).2 = false → ∃ x l, rest = x :: l ∧ (sendMaxBytes ≤ len x)%Z))
  ∧ Forall (λ b, b ≠ [] ∧ (length b ≤ sendMaxRecords)%nat ∧ (bytes_of b ≤ sendMaxBytes)%Z) (slices_from fuel items).1.
Proof.
  revert items. induction fuel as [|fuel IH]; intros items Hl.
  - destruct items as [|x items]; simpl in *; [|lia]. split; [|constructor]. exists []. done.
  - destruct items as [|x items]; [simpl; split; [|constructor]; by exists []|]. cbn [slices_from].
    pose proof (span_ok sendMaxRecords 0 (x :: items)) as (S1 & S2 & S3). pose proof (span_pos x items) as Hp.
    generalize dependent (span sendMaxRecords 0 (x :: items)). intros n S1 S2 S3 Hp.
    destruct (Nat.eqb_spec n 0) as [E|E].
    + simpl. split; [|constructor]. exists (x :: items). split_and!; [done|done|]. intros _. exists x, items. split; [done|].
      destruct (Z.le_gt_cases sendMaxBytes (len x)) as [H|H]; [done|]. specialize (Hp H). lia.
    + specialize (IH (drop n (x :: items))). rewrite length_drop in IH. destruct IH as [(rest & Hc & Ht & Hf) Hall]; [simpl in *; lia|].
      destruct (slices_from fuel (drop n (x :: items))) as [bs ok]. simpl in Hc, Ht, Hf, Hall. cbn [fst snd]. split.
      * exists rest. split_and!; [|done|done]. cbn [concat]. rewrite <- app_assoc, Hc. apply take_drop.
      * constructor; [|done]. split_and!.
        -- intros H. apply (f_equal length) in H. rewrite length_take in H. simpl in H. lia.
        -- rewrite length_take. lia.
        -- apply S3. unfold sendMaxBytes. lia.
Qed.

(** Posting the batches one after the other. *)
Section Slices.
  Context (Valid : string → bool) (url_ok : bool).
  Context {S_ : Type} (post : list string → S_ → S_ * option Z).

Fixpoint deliver_all (bs : list (list string)) (fits : bool) (s : S_) : S_ * send_result :=
  match bs with
  | [] => (s, if fits then SendOk else SendPermanent)
  | b :: bs' =>
      match deliverBatch Valid url_ok post b s with
      | (s', DeliveryOK) => deliver_all bs' fits s'
      | (s', DeliveryPermanent) => (s', SendPermanent)
      | (s', DeliveryRetry) => (s', SendFailed)
      end
  end.

Lemma send_from_slices fuel items s :
  (length items ≤ fuel)%nat →
  send_from Valid url_ok post fuel items s
  = let '(s', r) := deliver_all (slices_from fuel items).1 (slices_from fuel items).2 s in (s', Some r).
Proof.
  revert items s. induction fuel as [|fuel IH]; intros items s Hl; (destruct items as [|x items]; [done|]); [simpl in Hl; lia|].
  cbn [send_from slices_from]. generalize (span sendMaxRecords 0 (x :: items)). intros n. destruct (Nat.eqb_spec n 0) as [E|E]; [done|].
  specialize (IH (drop n (x :: items))). rewrite length_drop in IH.
  destruct (slices_from fuel (drop n (x :: items))) as [bs ok]. cbn [fst snd deliver_all] in *.
  destruct (deliverBatch Valid url_ok post _ s) as [s' r]. destruct r; [|done..]. apply IH. simpl in *. lia.
Qed.

Lemma Send_deliver_all items s :
  Send Valid url_ok post items s = let '(s', r) := deliver_all (slices items).1 (slices items).2 s in (s', Some r).
Proof. apply send_from_slices. done. Qed.

(** C18: [Send] returns, for any items and whatever each request does: it posts
    batches one after the other until one is not accepted, the batches are the
    items in order, none of them empty, above 512 records or above 2 MiB, and
    items are left out only from one that alone is too large. *)
Theorem Send_returns items s :
  ∃ bs fits s' r rest,
    Send Valid url_ok post items s = (s', Some r) ∧ deliver_all bs fits s = (s', r)
    ∧ concat bs ++ rest = items ∧ (if fits then rest = [] else ∃ x l, rest = x :: l ∧ (sendMaxBytes ≤ len x)%Z)
    ∧ Forall (λ b, b ≠ [] ∧ (length b ≤ sendMaxRecords)%nat ∧ (bytes_of b ≤ sendMaxBytes)%Z) bs.
Proof.
  rewrite Send_deliver_all. destruct (slices_from_ok (length items) items (le_n _)) as [(rest & Hc & Ht & Hf) Hall].
  fold (slices items) in *. destruct (slices items) as [bs fits]. simpl in *.
  destruct (deliver_all bs fits s) as [s' r] eqn:Ed. exists bs, fits, s', r, rest. split_and!; [done..| |done].
  destruct fits; auto.
Qed.
End Slices.

(** ** To the receiver *)

Section ToReceiver.
  Context (Valid : string → bool) (url_ok : bool).
  Context (sha : string → string) (elements : string → option (list string)).
  Context (UnmarshalEvent : string → option Event) (UnmarshalLog : string → option LogRecord) (MarshalEvent : Event → string).
  Context {E X : Type} {Pr : Processor E X} (max : nat) (cluster kind : string).

Definition dquote : string := String "034" "".
Definition bodyKey : string := if kind == "log" then "records" else "events".

Definition body_text (items : list string) : string :=
  "{" +:+ dquote +:+ bodyKey +:+ dquote +:+ ":" +:+ array_text items +:+ "}".
Definition request (items : list string) : AuditRequest :=
  {| rq_method := "POST"; rq_cluster := cluster; rq_length := len (body_text items);
     rq_body := if kind == "log" then Batch [] (map Compact items) else Batch (map Compact items) [] |}.

(** What a request meets: what else happened before, whether it arrives, whether
    its response does, and the state of the receiver and its database. *)
Record Weather := {
  wt_before : list (action (E := E) (X := X));
  wt_arrives : bool;
  wt_answered : bool;
  wt_store : bool;
  wt_slot : bool;
  wt_now : Time;
  wt_end : ending;
}.

#[local] Abbreviation Act := (act sha elements UnmarshalEvent UnmarshalLog MarshalEvent max).

Definition post_weather (items : list string) (w : Sys (E := E) * list Weather) : Sys (E := E) * list Weather * option Z :=
  match w.2 with
  | [] => (w, None)
  | h :: rest =>
      let s := foldl Act w.1 (wt_before h) in
      if negb (wt_arrives h) then ((s, rest), None)
      else
        ((Act s (Receive kind (request items) (wt_store h) (wt_slot h) (wt_now h) (wt_end h)), rest),
         if wt_answered h then
           Some (receive sha elements UnmarshalEvent UnmarshalLog kind max (wt_store h) (wt_slot h) (wt_now h) (wt_end h) (request items) (s_ib s)).2
         else None)
  end.

(** [json.Marshal] made the items, and so writing them again does not make them
    longer. *)
Definition marshalled (items : list string) : Prop := Forall (λ x, len (Compact x) ≤ len x)%Z items.

Lemma records_of_request items : records_of kind (request items) = map Compact items.
Proof. unfold records_of, request. simpl. by destruct (kind == "log") eqn:Ek; rewrite ?Ek. Qed.

Lemma len_app a b : len (a +:+ b) = (len a + len b)%Z.
Proof. unfold len. rewrite length_app_s. lia. Qed.

Lemma len_Join items : (len (Join items ",") ≤ bytes_of items)%Z.
Proof.
  induction items as [|x items IH]; [done|]. destruct items as [|y items]; [simpl; lia|].
  change (Join (x :: y :: items) ",") with (x +:+ "," +:+ Join (y :: items) ","). rewrite !len_app.
  change (bytes_of (x :: y :: items)) with (len x + 1 + bytes_of (y :: items))%Z. change (len ",") with 1%Z. lia.
Qed.

(** The receiver cannot read an item, or the database cannot store the batch. *)
Definition unfit (b : list string) : Prop :=
  (∃ x, x ∈ b ∧ readable UnmarshalEvent UnmarshalLog kind (Compact x) = false) ∨ elements (payload_text (map Compact b)) = None.

(** The agent cannot write the body or build the request. *)
Definition unsendable (b : list string) : Prop := (∃ x, x ∈ b ∧ Valid x = false) ∨ url_ok = false.

(** What the receiver answers to a batch within the limits. *)
Lemma bytes_of_compact items : marshalled items → (bytes_of (map Compact items) ≤ bytes_of items)%Z.
Proof. induction 1 as [|x items Hx _ IH]; [done|]. unfold bytes_of in *. simpl. lia. Qed.

Lemma answer_cases items store slot now e ib ib' status :
  items ≠ [] → (length items ≤ sendMaxRecords)%nat → (bytes_of items ≤ sendMaxBytes)%Z →
  receive sha elements UnmarshalEvent UnmarshalLog kind max store slot now e (request items) ib = (ib', status) →
  status = 202%Z ∨ classify (Some status) = DeliveryRetry
  ∨ (marshalled items → status = 400%Z ∧ unfit items) ∧ classify (Some status) = DeliveryPermanent.
Proof.
  intros Hne Hl Hb. unfold receive. change (rq_method (request items)) with "POST".
  change (rq_cluster (request items)) with cluster. simpl negb. cbv iota. destruct (ValidClusterID cluster); [|intros [= <- <-]; by right; left].
  destruct (Z.ltb_spec MaxAuditBody (rq_length (request items))) as [H|_].
  { intros [= <- <-]. right. right. split; [|done]. intros Hm. exfalso. unfold request, body_text, array_text in H. cbn [rq_length] in H.
    rewrite !len_app in H. pose proof (len_Join (map Compact items)) as HJ. pose proof (bytes_of_compact items Hm).
    assert (len bodyKey ≤ 7)%Z by (unfold bodyKey; case_if; done). unfold MaxAuditBody, sendMaxBytes in *.
    change (len "{") with 1%Z in H. change (len dquote) with 1%Z in H. change (len ":") with 1%Z in H. change (len "[") with 1%Z in H.
    change (len "]") with 1%Z in H. change (len "}") with 1%Z in H. lia. }
  destruct store; [|intros [= <- <-]; by right; left]. destruct slot; [|intros [= <- <-]; by right; left]. simpl negb. cbv iota.
  pose proof (records_of_request items) as Hr. unfold records_of in Hr. cbn [rq_body request] in *.
  destruct (if kind == "log" then Batch [] (map Compact items) else Batch (map Compact items) []) as [events records| | |] eqn:Eb;
    try (by destruct (kind == "log")).
  rewrite Hr. rewrite length_map. destruct (Nat.ltb_spec 512 (length items)) as [H|_]; [unfold sendMaxRecords in Hl; lia|].
  destruct (any _ (map Compact items)) eqn:Ea.
  { intros [= <- <-]. right. right. split; [|done]. intros _. split; [done|]. left. apply any_true in Ea as (y & Hy & H).
    apply list_elem_of_fmap in Hy as (x & -> & Hx). exists x. by apply negb_true_iff in H. }
  destruct items as [|x items]; [done|]. unfold EnqueueAudit. simpl map at 1.
  destruct (_ || _); [intros [= <- <-]; by right; left|]. destruct (negb (applied e)); [intros [= <- <-]; by right; left|].
  destruct (any _ (ib_rows ib)); [destruct (heard e); intros [= <- <-]; [by left|by right; left]|].
  destruct (_ && _); [intros [= <- <-]; by right; left|].
  destruct (elements _) eqn:El; [|intros [= <- <-]; right; right; split; [intros _; split; [done|by right]|done]].
  destruct (heard e); intros [= <- <-]; [by left|by right; left].
Qed.

(** What a batch within the limits leaves behind. *)
Lemma deliver_cases items s ws s' ws' r :
  items ≠ [] → (length items ≤ sendMaxRecords)%nat → (bytes_of items ≤ sendMaxBytes)%Z →
  deliverBatch Valid url_ok post_weather items (s, ws) = ((s', ws'), r) →
  (∃ acts, s' = foldl Act s acts)
  ∧ (r = DeliveryOK → (cluster, kind, sha (payload_text (map Compact items))) ∈ s_acked s')
  ∧ (r = DeliveryPermanent → marshalled items → unsendable items ∨ unfit items).
Proof.
  intros Hne Hl Hb. unfold deliverBatch. destruct (forallb Valid items) eqn:Ev; cbn [negb].
  2: { intros [= <- <- <-]. split_and!; [by exists []|done|]. intros _ _. left. left.
       apply not_true_iff_false in Ev. rewrite forallb_forall in Ev. setoid_rewrite <-list_elem_of_In in Ev.
       clear -Ev. induction items as [|x items IH]; [destruct Ev; by intros x ?%not_elem_of_nil|].
       destruct (Valid x) eqn:E; [|exists x; split; [by left|done]].
       destruct IH as (y & Hy & Ey); [|exists y; split; [by right|done]].
       intros H. apply Ev. intros y [->|Hy]%elem_of_cons; auto. }
  destruct url_ok eqn:Eu; cbn [negb]; [|intros [= <- <- <-]; split_and!; [by exists []|done|by left; right]].
  unfold post_weather. cbn [fst snd]. destruct ws as [|h ws]; [intros [= <- <- <-]; split_and!; [by exists []|done..]|].
  destruct (wt_arrives h); simpl negb; cbv iota; [|intros [= <- <- <-]; split_and!; [by eexists|done..]].
  set (s1 := foldl Act s (wt_before h)). set (a := Receive kind (request items) (wt_store h) (wt_slot h) (wt_now h) (wt_end h)).
  intros [= <- <- <-]. split; [exists (wt_before h ++ [a]); by rewrite foldl_app|].
  destruct (wt_answered h); [|split; done]. unfold a, act.
  destruct (receive _ _ _ _ _ _ _ _ _ _ _ _) as [ib status] eqn:Er. cbn [snd].
  destruct (answer_cases _ _ _ _ _ _ _ _ Hne Hl Hb Er) as [->|[Hr|[Hp Hr]]].
  - split; [|done]. intros _. simpl. rewrite records_of_request. unfold snoc. set_solver.
  - rewrite Hr. split; done.
  - rewrite Hr. split; [done|]. intros _ Hm. right. by apply Hp.
Qed.

Lemma foldl_acked s acts k : k ∈ s_acked s → k ∈ s_acked (foldl Act s acts).
Proof.
  revert s. induction acts as [|a acts IH]; intros s Hk; [done|]. simpl. apply IH. destruct a; simpl; try done.
  - destruct (receive _ _ _ _ _ _ _ _ _ _ _ _). simpl. case_if; [unfold snoc; set_solver|done].
  - destruct (ProcessAuditBatch _ _ _ _ _ _ _ _ _ _ _) as [[? ?]|]; done.
Qed.

Lemma deliver_all_cases bs fits s ws s' ws' r :
  Forall (λ b, b ≠ [] ∧ (length b ≤ sendMaxRecords)%nat ∧ (bytes_of b ≤ sendMaxBytes)%Z) bs →
  deliver_all Valid url_ok post_weather bs fits (s, ws) = ((s', ws'), r) →
  (∃ acts, s' = foldl Act s acts)
  ∧ (r = SendOk → fits = true ∧ ∀ b, b ∈ bs → (cluster, kind, sha (payload_text (map Compact b))) ∈ s_acked s')
  ∧ (r = SendPermanent → fits = false ∨ ∃ b, b ∈ bs ∧ (marshalled b → unsendable b ∨ unfit b)).
Proof.
  intros Hall. revert s ws. induction Hall as [|b bs (Hne & Hl & Hb) Hall IH]; intros s ws Hd; simpl in Hd.
  - destruct fits; simplify_eq; (split_and!; [by exists []| |]); try done; intros _.
    + split; [done|]. by intros b ?%not_elem_of_nil.
    + by left.
  - destruct (deliverBatch Valid url_ok post_weather b (s, ws)) as [[s1 ws1] res] eqn:Eb.
    destruct (deliver_cases _ _ _ _ _ _ Hne Hl Hb Eb) as ([acts ->] & Hok & Hperm). destruct res; simplify_eq.
    + destruct (IH _ _ Hd) as ([acts' ->] & Hok' & Hperm'). split_and!.
      * exists (acts ++ acts'). by rewrite foldl_app.
      * intros H. destruct (Hok' H) as [Hf Hacked]. split; [done|]. intros b' [->|Hb']%elem_of_cons; [|auto].
        apply foldl_acked. auto.
      * intros H. destruct (Hperm' H) as [Hf|(b' & Hb' & Hr)]; [by left|right]. exists b'. split; [by right|done].
    + split_and!; [by eexists|done..].
    + split_and!; [by eexists|done|]. intros _. right. exists b. split; [left|auto].
Qed.

(** C16: what the agent counts as sent is not lost: when [Send] returned without
    an error, whatever requests and responses were lost on the way and whatever
    happens later, every item belongs to a batch that waits in the inbox or that
    the engine has taken. *)
Theorem forwarded_kept eng acts items ws s ws' later x :
  (0 < max)%nat →
  Send Valid url_ok post_weather items (inbox_run sha elements UnmarshalEvent UnmarshalLog MarshalEvent max eng acts, ws) = ((s, ws'), Some SendOk) →
  x ∈ items →
  ∃ b r, x ∈ b ∧ (r ∈ pending cluster (s_ib (foldl Act s later)) ∨ r ∈ s_done (foldl Act s later))
         ∧ row_key r = (cluster, kind, sha (payload_text (map Compact b))) ∧ genuine sha elements r.
Proof.
  intros Hmax Hs Hx. rewrite Send_deliver_all in Hs.
  destruct (slices_from_ok (length items) items (le_n _)) as [(rest & Hc & Ht & _) Hall]. fold (slices items) in *.
  destruct (deliver_all _ _ _ _) as [[s1 ws1] r] eqn:Ed. simplify_eq.
  destruct (deliver_all_cases _ _ _ _ _ _ _ Hall Ed) as ([acts' ->] & Hok & _). destruct (Hok eq_refl) as [Hf Hacked].
  rewrite (Ht Hf), app_nil_r in Hc. rewrite <- Hc in Hx. apply elem_of_concat in Hx as (b & Hxb & Hb).
  pose proof (inbox_Inv sha elements UnmarshalEvent UnmarshalLog MarshalEvent max eng (acts ++ acts' ++ later) Hmax) as Hi.
  unfold inbox_run in *. rewrite !foldl_app in Hi. specialize (Hacked b Hb). apply (foldl_acked _ later) in Hacked.
  destruct Hi as [_ I2 _ I4 I4' _ _ _ _]. exists b. destruct (I2 _ Hacked) as [(r & Hr & Hkr & Hu)|(d & Hd & Hkd)].
  - exists r. split_and!; auto. left. apply elem_of_pending. split_and!; [done|by injection Hkr|done].
  - exists d. split_and!; auto.
Qed.

(** C17: for items as json.Marshal writes them, so that writing them again
    does not make them longer: Send fails for good only when one of the items
    alone is too large, one of a batch is not valid JSON, no request can be
    built for the configured address, the receiver cannot read one of a batch,
    or the database cannot store the batch; never because of the size or the
    number of records of a batch, a full inbox, a refusal of the secret or a
    lost request. *)
Theorem given_up_for_cause items s ws s' ws' :
  marshalled items →
  Send Valid url_ok post_weather items (s, ws) = ((s', ws'), Some SendPermanent) →
  ∃ x b, x ∈ b ∧ (∀ y, y ∈ b → y ∈ items) ∧ ((sendMaxBytes ≤ len x)%Z ∨ unsendable b ∨ unfit b).
Proof.
  intros Hm Hs. rewrite Send_deliver_all in Hs.
  destruct (slices_from_ok (length items) items (le_n _)) as [(rest & Hc & _ & Hf) Hall]. fold (slices items) in *.
  destruct (deliver_all _ _ _ _) as [[s1 ws1] r] eqn:Ed. simplify_eq.
  destruct (deliver_all_cases _ _ _ _ _ _ _ Hall Ed) as (_ & _ & Hperm). destruct (Hperm eq_refl) as [H|(b & Hb & Hu)].
  - destruct (Hf H) as (x & l & -> & Hlen). exists x, [x]. split_and!; [left| |by left]. intros y ->%list_elem_of_singleton. rewrite <- Hc. set_solver.
  - assert (∀ y, y ∈ b → y ∈ items) as Hin.
    { intros y Hy. rewrite <- Hc. apply elem_of_app. left. apply elem_of_concat. eauto. }
    rewrite Forall_forall in Hall. destruct (Hall b Hb) as (Hne & _). destruct b as [|x b]; [done|]. exists x, (x :: b).
    split_and!; [left|done|right]. apply Hu. unfold marshalled in *. rewrite Forall_forall in *. auto.
Qed.
End ToReceiver.

(** ** Shedding *)

Record actorWindow := { w_start : Time; w_count : nat }.
Record SpoolUse := { u_Bytes : Z; u_DeadBytes : Z; u_Capacity : Z }.
Record Shedding := { h_windows : gmap string actorWindow; h_shed : gmap string nat; h_total : nat }.
Definition no_shedding : Shedding := {| h_windows := ∅; h_shed := ∅; h_total := 0 |}.
Definition shedActorsTracked : nat := 4096.

(** A product of float64 values, rounded to 53 bits, halves to even. *)
Definition round53 (m e : Z) : float64 :=
  let n := (Z.log2 m + 1)%Z in
  if (n <=? 53)%Z then {| f_mant := m; f_exp := e |}
  else
    let d := (2 ^ (n - 53))%Z in
    let q := (m / d)%Z in
    let r := (m mod d)%Z in
    let q := if (2 * r <? d)%Z then q else if (d <? 2 * r)%Z then (q + 1)%Z else if Z.even q then q else (q + 1)%Z in
    {| f_mant := q; f_exp := (e + (n - 53))%Z |}.
Definition fmul_int (f : float64) (z : Z) : float64 := round53 (f_mant f * z) (f_exp f).

(** The windows after [admit] made room, and the actor the event counts for. *)
Definition window_for (s : Shedding) (actor : string) (now : Time) : gmap string actorWindow * string :=
  let fresh := λ w, negb (Minute <=? TSub now (w_start w))%Z in
  match h_windows s !! actor with
  | Some _ => (h_windows s, actor)
  | None =>
      if (size (h_windows s) <? shedActorsTracked)%nat then (h_windows s, actor)
      else
        let ws := filter (λ kv : string * actorWindow, fresh kv.2 = true) (h_windows s) in
        if (size ws <? shedActorsTracked)%nat then (ws, actor) else (ws, "other")
  end.

Section Admit.
  Context (ShedAt : float64) (ShedPerActor : nat).

Definition shed_admit (u : SpoolUse) (actor : string) (now : Time) (s : Shedding) : Shedding * bool :=
  if (f_mant ShedAt <=? 0)%Z || (ShedPerActor =? 0)%nat then (s, true)
  else if (u_Capacity u <=? 0)%Z || float_gt (fmul_int ShedAt (u_Capacity u)) (u_Bytes u + u_DeadBytes u) then (s, true)
  else
    let actor := if actor == "" then "unknown" else actor in
    let '(ws, actor) := window_for s actor now in
    let w := default {| w_start := 0%Z; w_count := 0 |} (ws !! actor) in
    let w := if (Minute <=? TSub now (w_start w))%Z then {| w_start := now; w_count := 0 |} else w in
    let w := {| w_start := w_start w; w_count := S (w_count w) |} in
    let ws := <[actor := w]> ws in
    if (w_count w <=? ShedPerActor)%nat then ({| h_windows := ws; h_shed := h_shed s; h_total := h_total s |}, true)
    else
      let key := match h_shed s !! actor with
                 | Some _ => actor
                 | None => if (size (h_shed s) <? shedActorsTracked)%nat then actor else "other"
                 end in
      ({| h_windows := ws; h_shed := <[key := S (default 0%nat (h_shed s !! key))]> (h_shed s); h_total := S (h_total s) |}, false).
End Admit.

(** At most the tracked actors and "other" have an entry. *)
Definition bounded {A} (m : gmap string A) : Prop :=
  (size m ≤ shedActorsTracked)%nat ∨ (size m ≤ S shedActorsTracked)%nat ∧ is_Some (m !! "other").

Lemma bounded_insert {A} (m : gmap string A) k x :
  bounded m → is_Some (m !! k) ∨ (size m < shedActorsTracked)%nat ∨ k = "other" → bounded (<[k := x]> m).
Proof.
  intros Hb Hk. unfold bounded. rewrite map_size_insert. destruct (m !! k) as [y|] eqn:Em.
  - destruct Hb as [Hb|[Hb Ho]]; [by left|right]. split; [done|]. destruct (decide (k = "other")) as [->|]; [by rewrite lookup_insert_eq|].
    by rewrite lookup_insert_ne.
  - destruct Hk as [[? H]|[H| ->]]; [done|by left|]. right. rewrite lookup_insert_eq. split; [|by eexists].
    destruct Hb as [Hb|[_ [? H]]]; [lia|congruence].
Qed.

Lemma bounded_filter {A} (P : string * A → Prop) `{∀ x, Decision (P x)} (m : gmap string A) : bounded m → bounded (filter P m).
Proof.
  intros Hb. pose proof (map_size_filter P m) as Hle. unfold bounded.
  destruct (decide (size (filter P m) ≤ shedActorsTracked)%nat) as [|Hn]; [by left|right]. destruct Hb as [Hb|[Hb Ho]]; [lia|].
  split; [lia|]. assert (size (filter P m) = size m) as E by lia.
  assert (filter P m = m) as ->; [|done]. apply map_subseteq_size_eq; [|lia]. apply map_filter_subseteq.
Qed.

(** Shedding counts every refused event and keeps a bounded number of entries. *)
Lemma shed_bounded ShedAt ShedPerActor u actor now s s' ok :
  bounded (h_windows s) → bounded (h_shed s) → shed_admit ShedAt ShedPerActor u actor now s = (s', ok) →
  bounded (h_windows s') ∧ bounded (h_shed s') ∧ h_total s' = (h_total s + if ok then 0 else 1)%nat.
Proof.
  intros Hw Hs. unfold shed_admit. destruct (_ || _); [intros [= <- <-]; auto|]. destruct (_ || _); [intros [= <- <-]; auto|].
  set (a := if actor == "" then "unknown" else actor). destruct (window_for s a now) as [ws k] eqn:Ew.
  assert (∀ w, bounded (<[k := w]> ws)) as Hi.
  { intros w. unfold window_for in Ew. destruct (h_windows s !! a) eqn:Ea; [simplify_eq; apply bounded_insert; eauto|].
    destruct (Nat.ltb_spec (size (h_windows s)) shedActorsTracked); [simplify_eq; apply bounded_insert; auto|].
    destruct (Nat.ltb_spec (size (filter (λ kv : string * actorWindow, negb (Minute <=? TSub now (w_start kv.2))%Z = true) (h_windows s))) shedActorsTracked);
      simplify_eq; apply bounded_insert; auto using bounded_filter. }
  case_if; intros [= <- <-]; simpl; (split_and!; [auto| |lia]); [done|].
  apply bounded_insert; [done|]. destruct (h_shed s !! k) eqn:Ek; [eauto|]. destruct (Nat.ltb_spec (size (h_shed s)) shedActorsTracked); auto.
Qed.

(** ** Examples *)

Section Examples.
#[local] Existing Instance ascii_tables.
#[local] Instance forward_processor : Processor DB Circumstance :=
  engine_processor NewMatcher (24 * Hour)%Z [] 0%Z id plain_event E_ID (λ _, "").

(** Texts that are not empty. *)
Definition demo_valid (x : string) : bool := negb (x == "").

Definition fair : Weather (E := DB) (X := Circumstance) :=
  {| wt_before := []; wt_arrives := true; wt_answered := true; wt_store := true; wt_slot := true; wt_now := (1000 * Hour)%Z; wt_end := Done |}.
Definition plain_send (items : list string) :=
  Send demo_valid true (post_weather id plain_elements plain_event plain_log E_ID 10 "east" "events") items
    (inbox_run id plain_elements plain_event plain_log E_ID 10 empty_db [], [fair]).
Definition plain_after : Sys (E := DB) := (plain_send ["{a}"; "{b}"]).1.1.
Definition worked : list (action (E := DB) (X := Circumstance)) := [Work (λ _, false) (λ _, true) (1000 * Hour)%Z (at_hour 1000) Done].

Lemma forwarded_kept_witness :
  ∃ b r, "{b}" ∈ b
    ∧ (r ∈ pending "east" (s_ib (foldl (act id plain_elements plain_event plain_log E_ID 10) plain_after worked))
       ∨ r ∈ s_done (foldl (act id plain_elements plain_event plain_log E_ID 10) plain_after worked))
    ∧ row_key r = ("east", "events", id (payload_text (map Compact b))) ∧ genuine id plain_elements r.
Proof.
  apply (forwarded_kept demo_valid true id plain_elements plain_event plain_log E_ID 10 "east" "events" empty_db [] ["{a}"; "{b}"] [fair]
           plain_after [] worked "{b}"); [lia| |right; left].
  vm_compute. reflexivity.
Defined.

(** A record that is not an object. *)
Lemma given_up_for_cause_witness :
  ∃ x b, x ∈ b ∧ (∀ y, y ∈ b → y ∈ ["{a}"; "7"]) ∧ ((sendMaxBytes ≤ len x)%Z ∨ unsendable demo_valid true b ∨ unfit plain_elements plain_event plain_log "events" b).
Proof.
  apply (given_up_for_cause demo_valid true id plain_elements plain_event plain_log E_ID 10 "east" "events" ["{a}"; "7"]
           (inbox_run id plain_elements plain_event plain_log E_ID 10 empty_db []) [fair]
           (plain_send ["{a}"; "7"]).1.1 []).
  - repeat constructor; vm_compute; discriminate.
  - vm_compute. reflexivity.
Defined.
End Examples.
