(* ===== verification/WatchRing.v ===== *)
(** * Watched pods (kvisior/internal/watchring, podwatch and the live consumer)

    The manager keeps which syscalls, hooks and tracepoints of a pod are watched,
    a copy of the table of watches; the ring keeps the captured events of each
    pod, at most 500 per name and none for longer than a day. [live_record] is
    what [RunLive] of kafka/consumer.go does with a record, [warm_record] what
    [WarmWatchRing] of kafka/backfill.go does with one after a restart. *)

From Stdlib Require Import Ascii.
From stdpp Require Import base list gmap strings.
From S2P Require Import Prelude GoStrings GoValue RuleMatcher.
Local Open Scope string_scope.
Local Open Scope list_scope.
Local Open Scope go_scope.

(** ** Kinds (kvisior/internal/events) *)

Definition Syscall : string := "syscall".
Definition LSMHook : string := "lsm_hook".
Definition Tracepoint : string := "tracepoint".

Definition tracepoints : list string :=
  ["sched_process_exec"; "sched_process_fork"; "sched_process_exit"; "task_rename"; "sched_switch";
   "module_load"; "module_free"; "cgroup_mkdir"; "cgroup_rmdir"; "cgroup_attach_task"].

Definition KindFor (name : string) : string :=
  if HasPrefix name "security_" then LSMHook
  else if any (String.eqb name) tracepoints then Tracepoint
  else Syscall.

(** ** The ring *)

Definition maxPerKey : nat := 500.
Definition retention : Duration := (24 * Hour)%Z.

Record entry := { e_raw : string; e_ts : Time }.
Abbreviation Ring := (gmap string (list entry)).

Definition ringKey (ns pod podUID kind name : string) : string :=
  ns +:+ "/" +:+ pod +:+ "/" +:+ podUID +:+ "/" +:+ kind +:+ "/" +:+ name.

(** The buffer without the entries at its front that are before [cutoff]. *)
Fixpoint drop_old (cutoff : Time) (buf : list entry) : list entry :=
  match buf with
  | e :: buf' => if Before (e_ts e) cutoff then drop_old cutoff buf' else buf
  | [] => []
  end.

Definition cutoff_at (now : Time) : Time := (TAdd now (- retention))%Z.

Definition evict (now : Time) (r : Ring) : Ring :=
  omap (λ buf, match drop_old (cutoff_at now) buf with [] => None | buf' => Some buf' end) r.

Definition push_entry (now : Time) (e : entry) (buf : list entry) : list entry :=
  let buf := snoc (drop_old (cutoff_at now) buf) e in
  if (maxPerKey <? length buf)%nat then drop (length buf - maxPerKey) buf else buf.

Definition Add (ns pod podUID kind name raw : string) (ts now : Time) (r : Ring) : Ring :=
  let key := ringKey ns pod podUID kind name in
  <[key := push_entry now {| e_raw := raw; e_ts := ts |} (default [] (r !! key))]> r.

Record PodWatchSelection := { Syscalls : list string; LSMHooks : list string; Tracepoints : list string }.
Definition no_selection : PodWatchSelection := {| Syscalls := []; LSMHooks := []; Tracepoints := [] |}.

(** ** The manager *)

Record watchEntry := { w_selection : PodWatchSelection; w_updatedAt : Time }.

(** The manager's copy, the table pod_syscall_watches of the cluster ([None]: no
    database), and the ring. *)
Record Manager := { m_watches : gmap string watchEntry; m_store : option (gmap string watchEntry); m_ring : Ring }.

Definition set_ring (m : Manager) (r : Ring) : Manager := {| m_watches := m_watches m; m_store := m_store m; m_ring := r |}.
Definition podKey (ns pod : string) : string := ns +:+ "/" +:+ pod.

Definition Load (ok : bool) (m : Manager) : Manager :=
  match m_store m with
  | Some rows => if ok then {| m_watches := rows; m_store := m_store m; m_ring := m_ring m |} else m
  | None => m
  end.

Definition selection_of (m : Manager) (ns pod : string) : PodWatchSelection :=
  match m_watches m !! podKey ns pod with Some e => w_selection e | None => no_selection end.

Definition names_of (sel : PodWatchSelection) (kind : string) : list string :=
  if kind == LSMHook then LSMHooks sel else if kind == Tracepoint then Tracepoints sel else Syscalls sel.

Definition ShouldCapture (m : Manager) (ns pod kind name : string) : bool :=
  any (String.eqb name) (names_of (selection_of m ns pod) kind).

Definition SetWatch (ns pod : string) (sel : PodWatchSelection) (now : Time) (e : ending) (m : Manager) : Manager * bool :=
  match m_store m with
  | None => (m, true)
  | Some rows =>
      let entry := {| w_selection := sel; w_updatedAt := now |} in
      let rows := if applied e then <[podKey ns pod := entry]> rows else rows in
      ({| m_watches := if heard e then <[podKey ns pod := entry]> (m_watches m) else m_watches m; m_store := Some rows;
          m_ring := m_ring m |}, heard e)
  end.

Definition DeleteWatch (ns pod : string) (e : ending) (m : Manager) : Manager * bool :=
  match m_store m with
  | None => (m, true)
  | Some rows =>
      let rows := if applied e then delete (podKey ns pod) rows else rows in
      ({| m_watches := if heard e then delete (podKey ns pod) (m_watches m) else m_watches m; m_store := Some rows;
          m_ring := m_ring m |}, heard e)
  end.

Section Events.
  (** [json.Unmarshal] of an object, [time.Parse] with RFC 3339, and
      [time.Unix] of a float64 number of seconds. *)
  Context (Unmarshal : string → option (list (string * value))) (ParseTime : string → option Time).

Definition rawContainerID (raw : string) : string :=
  match Unmarshal raw with
  | None => ""
  | Some ev => match vlookup ev "containerId" with
               | Some (VStr v) => v
               | _ => as_string (vlookup ev "container_id")
               end
  end.

(** What [Get] takes of one buffer. *)
Definition fresh_raws (now : Time) (buf : list entry) : list string :=
  map e_raw (List.filter (λ e, negb (Before (e_ts e) (cutoff_at now))) buf).

(** [buffer podUID kind name]. *)
Definition get_events (buffer : string → string → string → list entry) (podUID containerID : string) (sel : PodWatchSelection) (now : Time)
  : list string :=
  let take kind names :=
    concat (map (λ name,
      fresh_raws now (buffer podUID kind name)
      ++ if (podUID != "") && (containerID != "")
         then List.filter (λ raw, rawContainerID raw == containerID) (fresh_raws now (buffer "" kind name)) else []) names) in
  take Syscall (Syscalls sel) ++ take LSMHook (LSMHooks sel) ++ take Tracepoint (Tracepoints sel).

Definition Get (ns pod podUID containerID : string) (sel : PodWatchSelection) (now : Time) (r : Ring) : list string :=
  get_events (λ uid kind name, default [] (r !! ringKey ns pod uid kind name)) podUID containerID sel now.

Definition nothing_selected (sel : PodWatchSelection) : bool :=
  (length (Syscalls sel) + length (LSMHooks sel) + length (Tracepoints sel) =? 0)%nat.

Definition GetEvents (ns pod podUID containerID : string) (now : Time) (m : Manager) : list string :=
  let sel := selection_of m ns pod in
  if nothing_selected sel then [] else Get ns pod podUID containerID sel now (m_ring m).

(** ** The live consumer *)

Definition eventKindFromMap (ev : list (string * value)) (sc : string) : string :=
  match vlookup ev "event_kind" with
  | Some (VStr raw) => if raw != "" then raw else KindFor sc
  | _ => KindFor sc
  end.


Definition eventTime (ev : list (string * value)) (now : Time) : Time :=
  match vlookup ev "ts" with
  | Some (VStr v) => default now (ParseTime v)
  | Some (VNum f) => (TAdd unixEpoch (float_int f * Second))%Z
  | _ => now
  end.

Definition podUID_of (ev : list (string * value)) : string :=
  let uid := as_string (vlookup ev "pod_uid") in
  if uid == "" then as_string (vlookup ev "podUID") else uid.

(** A captured event: where it goes, and the entry. *)
Record captured := { c_ns : string; c_pod : string; c_uid : string; c_kind : string; c_name : string; c_entry : entry }.

Definition add_captured (now : Time) (c : captured) (m : Manager) : Manager :=
  set_ring m (Add (c_ns c) (c_pod c) (c_uid c) (c_kind c) (c_name c) (e_raw (c_entry c)) (e_ts (c_entry c)) now (m_ring m)).

(** What a record is captured as, if it is, and whether it is published. *)
Definition live_capture (m : Manager) (raw : string) (now : Time) : option captured :=
  match Unmarshal raw with
  | None => None
  | Some ev =>
      let sc := as_string (vlookup ev "syscall") in
      let kind := eventKindFromMap ev sc in
      let ns := as_string (vlookup ev "namespace") in
      let pod := as_string (vlookup ev "pod") in
      if (sc != "") && ShouldCapture m ns pod kind sc
      then Some {| c_ns := ns; c_pod := pod; c_uid := podUID_of ev; c_kind := kind; c_name := sc;
                   c_entry := {| e_raw := raw; e_ts := eventTime ev now |} |}
      else None
  end.

Definition live_record (matcher : option Matcher) (raw : string) (now : Time) (m : Manager) : Manager * bool :=
  match Unmarshal raw with
  | None => (m, false)
  | Some ev =>
      let sc := as_string (vlookup ev "syscall") in
      let c := live_capture m raw now in
      (match c with Some c => add_captured now c m | None => m end,
       IsBinaryExec sc || (match c with Some _ => true | None => false end)
       || match matcher with Some mt => AllowsSyscall mt sc | None => false end)
  end.

(** ** After a restart *)

(** [watches] is the manager's copy when the reading began; [ts] the record's time. *)
Definition warm_selects (sel : PodWatchSelection) (kind sc : string) : bool :=
  let kn := kind +:+ "/" +:+ sc in
  any (λ n, Syscall +:+ "/" +:+ n == kn) (Syscalls sel) || any (λ n, LSMHook +:+ "/" +:+ n == kn) (LSMHooks sel)
  || any (λ n, Tracepoint +:+ "/" +:+ n == kn) (Tracepoints sel).

Definition warm_capture (watches : gmap string watchEntry) (raw : string) (ts : Time) : option captured :=
  match Unmarshal raw with
  | None => None
  | Some ev =>
      let ns := as_string (vlookup ev "namespace") in
      let pod := as_string (vlookup ev "pod") in
      let sc := as_string (vlookup ev "syscall") in
      let kind := eventKindFromMap ev sc in
      if (ns == "") || (pod == "") || (sc == "") then None
      else match watches !! podKey ns pod with
           | None => None
           | Some w =>
               if negb (warm_selects (w_selection w) kind sc) || Before ts (w_updatedAt w) then None
               else Some {| c_ns := ns; c_pod := pod; c_uid := podUID_of ev; c_kind := kind; c_name := sc;
                            c_entry := {| e_raw := raw; e_ts := ts |} |}
           end
  end.

Definition warm_record (watches : gmap string watchEntry) (raw : string) (ts now : Time) (m : Manager) : Manager :=
  match warm_capture watches raw ts with Some c => add_captured now c m | None => m end.
End Events.

(** * What a watched pod shows

    The ring drops and evicts, yet it shows exactly what an unbounded log of the
    captured events would: the events of the last day among the last 500 of each
    name. *)



(** ** The last elements of a list *)

Definition lastn {A} (n : nat) (l : list A) : list A := drop (length l - n) l.

Lemma lastn_app {A} n (a b : list A) : lastn n (a ++ b) = lastn (n - length b) a ++ lastn n b.
Proof.
  unfold lastn. rewrite length_app, drop_app. f_equal; [|f_equal; lia].
  destruct (decide (length b ≤ n)%nat); [f_equal; lia|]. rewrite !drop_ge; [done|lia..].
Qed.

Lemma lastn_all {A} n (l : list A) : (length l ≤ n)%nat → lastn n l = l.
Proof. intros H. unfold lastn. by replace (length l - n)%nat with 0%nat by lia. Qed.

Lemma lastn_lastn {A} n k (l : list A) : (k ≤ n)%nat → lastn k (lastn n l) = lastn k l.
Proof. intros H. unfold lastn. rewrite drop_drop, length_drop. f_equal. lia. Qed.

Lemma length_lastn {A} n (l : list A) : (length (lastn n l) ≤ n)%nat.
Proof. unfold lastn. rewrite length_drop. lia. Qed.

Lemma Forall_lastn {A} (P : A → Prop) n l : Forall P l → Forall P (lastn n l).
Proof. apply Forall_drop. Qed.

(** ** Keys *)

Definition no_slash (s : string) : Prop := IndexByte s "/" = None.

Lemma slash_split a b x y : no_slash a → no_slash b → a +:+ "/" +:+ x = b +:+ "/" +:+ y → a = b ∧ x = y.
Proof.
  unfold no_slash. revert b. induction a as [|c a IH]; intros b Ha Hb E; destruct b as [|d b]; simpl in *.
  - by injection E.
  - injection E as <- _. done.
  - injection E as -> _. done.
  - injection E as <- E. destruct (Ascii.eqb c "/"); [done|].
    destruct (IndexByte a "/") eqn:Ea; [done|]. destruct (IndexByte b "/") eqn:Eb; [done|].
    destruct (IH b) as [-> ->]; auto.
Qed.

Lemma ringKey_inj ns pod uid kind name ns' pod' uid' kind' name' :
  no_slash ns → no_slash pod → no_slash uid → no_slash kind → no_slash ns' → no_slash pod' → no_slash uid' → no_slash kind' →
  ringKey ns pod uid kind name = ringKey ns' pod' uid' kind' name' →
  (ns, pod, uid, kind, name) = (ns', pod', uid', kind', name').
Proof.
  unfold ringKey. intros ? ? ? ? ? ? ? ? E. apply slash_split in E as [-> E]; [|done..]. apply slash_split in E as [-> E]; [|done..].
  apply slash_split in E as [-> E]; [|done..]. by apply slash_split in E as [-> ->]; [|done..].
Qed.

(** ** One buffer *)

Definition stale (cutoff : Time) (e : entry) : Prop := Before (e_ts e) cutoff = true.

Lemma drop_old_split cutoff buf : ∃ old, buf = old ++ drop_old cutoff buf ∧ Forall (stale cutoff) old.
Proof.
  induction buf as [|e buf (old & E & H)]; simpl; [by exists []|]. destruct (Before (e_ts e) cutoff) eqn:Eb; [|by exists []].
  exists (e :: old). split; [simpl; congruence|by constructor].
Qed.

Lemma stale_later t t' e : (t ≤ t')%Z → stale t e → stale t' e.
Proof. unfold stale, Before. rewrite !Z.ltb_lt. lia. Qed.

Lemma cutoff_le t t' : (t ≤ t')%Z → (cutoff_at t ≤ cutoff_at t')%Z.
Proof. unfold cutoff_at, TAdd. lia. Qed.

(** [buf] stands for the last 500 of [log]: what is missing is stale. *)
Definition stands (now : Time) (log buf : list entry) : Prop :=
  ∃ old, lastn maxPerKey log = old ++ buf ∧ Forall (stale (cutoff_at now)) old.

Lemma stands_later now now' log buf : (now ≤ now')%Z → stands now log buf → stands now' log buf.
Proof.
  intros Hle (old & E & H). exists old. split; [done|]. eapply Forall_impl; [done|]. intros e. by apply stale_later, cutoff_le.
Qed.

Lemma stands_drop now log buf : stands now log buf → stands now log (drop_old (cutoff_at now) buf).
Proof.
  intros (old & E & H). destruct (drop_old_split (cutoff_at now) buf) as (old' & E' & H'). exists (old ++ old').
  rewrite E, E' at 1. split; [by rewrite app_assoc|by apply Forall_app].
Qed.

Lemma stands_push now log buf e : stands now log buf → stands now (log ++ [e]) (push_entry now e buf).
Proof.
  intros (old & E & H)%stands_drop. unfold push_entry, snoc. set (b := drop_old (cutoff_at now) buf) in *.
  replace (if (maxPerKey <? length (b ++ [e]))%nat then _ else _) with (lastn maxPerKey (b ++ [e])).
  2: { case_if; [done|]. by apply lastn_all. }
  exists (lastn (maxPerKey - length (b ++ [e])) old). split; [|by apply Forall_lastn].
  rewrite <- (lastn_app maxPerKey old (b ++ [e])), app_assoc, <- E.
  rewrite !lastn_app. simpl. f_equal. rewrite lastn_lastn; [done|]. unfold maxPerKey. lia.
Qed.

Lemma fresh_stands now log buf : stands now log buf → fresh_raws now buf = fresh_raws now (lastn maxPerKey log).
Proof.
  intros (old & -> & H). unfold fresh_raws. rewrite List.filter_app, map_app. replace (List.filter _ old) with (@nil entry); [done|].
  induction H as [|e old He _ IH]; simpl; [done|]. unfold stale in He. by rewrite He.
Qed.

(** ** Runs *)

Section Runs.
  Context (Unmarshal : string → option (list (string * value))) (ParseTime : string → option Time) (matcher : option Matcher).

Inductive op :=
| Live (raw : string)
| Warm (watches : gmap string watchEntry) (raw : string) (ts : Time)
| Evict
| Set_ (ns pod : string) (sel : PodWatchSelection) (e : ending)
| Delete_ (ns pod : string) (e : ending)
| Load_ (ok : bool).

Definition step (m : Manager) (o : Time * op) : Manager :=
  let now := o.1 in
  match o.2 with
  | Live raw => (live_record Unmarshal ParseTime matcher raw now m).1
  | Warm watches raw ts => warm_record Unmarshal watches raw ts now m
  | Evict => set_ring m (evict now (m_ring m))
  | Set_ ns pod sel e => (SetWatch ns pod sel now e m).1
  | Delete_ ns pod e => (DeleteWatch ns pod e m).1
  | Load_ ok => Load ok m
  end.
Definition run (m : Manager) (ops : list (Time * op)) : Manager := foldl step m ops.

(** The abstract manager: the watches, and a log of everything captured. *)
Record Abstract := { a_watches : gmap string watchEntry; a_store : option (gmap string watchEntry); a_log : list captured }.

Definition with_ring (a : Abstract) (r : Ring) : Manager := {| m_watches := a_watches a; m_store := a_store a; m_ring := r |}.
Definition of_manager (a : Abstract) (m : Manager) : Abstract := {| a_watches := m_watches m; a_store := m_store m; a_log := a_log a |}.
Definition log_captured (a : Abstract) (c : option captured) : Abstract :=
  {| a_watches := a_watches a; a_store := a_store a; a_log := match c with Some c => snoc (a_log a) c | None => a_log a end |}.

Definition a_step (a : Abstract) (o : Time * op) : Abstract :=
  let now := o.1 in
  match o.2 with
  | Live raw => log_captured a (live_capture Unmarshal ParseTime (with_ring a ∅) raw now)
  | Warm watches raw ts => log_captured a (warm_capture Unmarshal watches raw ts)
  | Evict => a
  | Set_ ns pod sel e => of_manager a (SetWatch ns pod sel now e (with_ring a ∅)).1
  | Delete_ ns pod e => of_manager a (DeleteWatch ns pod e (with_ring a ∅)).1
  | Load_ ok => of_manager a (Load ok (with_ring a ∅))
  end.
Definition a_run (a : Abstract) (ops : list (Time * op)) : Abstract := foldl a_step a ops.

(** The last 500 captured events of a pod and a name. *)
Definition captured_as (ns pod uid kind name : string) (c : captured) : bool :=
  (c_ns c == ns) && (c_pod c == pod) && (c_uid c == uid) && (c_kind c == kind) && (c_name c == name).
Definition a_buffer (log : list captured) (ns pod uid kind name : string) : list entry :=
  lastn maxPerKey (map c_entry (List.filter (captured_as ns pod uid kind name) log)).
Definition a_GetEvents (ns pod uid containerID : string) (now : Time) (a : Abstract) : list string :=
  let sel := selection_of (with_ring a ∅) ns pod in
  if nothing_selected sel then []
  else get_events Unmarshal (a_buffer (a_log a) ns pod) uid containerID sel now.

(** Names of Kubernetes and kinds have no slash. *)
Definition plain (c : captured) : Prop := no_slash (c_ns c) ∧ no_slash (c_pod c) ∧ no_slash (c_uid c) ∧ no_slash (c_kind c).

Record sim (now : Time) (a : Abstract) (m : Manager) : Prop := {
  sim_watches : m_watches m = a_watches a;
  sim_store : m_store m = a_store a;
  sim_ring : ∀ key, stands now (map c_entry (List.filter (λ c, ringKey (c_ns c) (c_pod c) (c_uid c) (c_kind c) (c_name c) == key) (a_log a)))
                           (default [] (m_ring m !! key));
}.

Lemma sim_later now now' a m : (now ≤ now')%Z → sim now a m → sim now' a m.
Proof. intros Hle [H1 H2 H3]. constructor; [done..|]. intros key. by eapply stands_later. Qed.

Lemma sim_add now a m c : sim now a m → sim now (log_captured a (Some c)) (add_captured now c m).
Proof.
  intros [H1 H2 H3]. constructor; [done..|]. intros key. simpl. unfold snoc. rewrite List.filter_app, map_app. simpl.
  unfold add_captured, Add. simpl. destruct (String.eqb_spec (ringKey (c_ns c) (c_pod c) (c_uid c) (c_kind c) (c_name c)) key) as [<-|Hne].
  - rewrite lookup_insert_eq. simpl. destruct c as [? ? ? ? ? [raw ts]]. simpl. by apply stands_push.
  - rewrite lookup_insert_ne by done. rewrite app_nil_r. apply H3.
Qed.

Lemma sim_evict now a m : sim now a m → sim now a (set_ring m (evict now (m_ring m))).
Proof.
  intros [H1 H2 H3]. constructor; [done..|]. intros key. simpl. unfold evict. rewrite lookup_omap.
  specialize (H3 key). destruct (m_ring m !! key) as [buf|]; simpl in *; [|done]. apply stands_drop in H3.
  by destruct (drop_old (cutoff_at now) buf).
Qed.

Lemma live_record_ring raw now m :
  (live_record Unmarshal ParseTime matcher raw now m).1
  = match live_capture Unmarshal ParseTime m raw now with Some c => add_captured now c m | None => m end.
Proof. unfold live_record. destruct (Unmarshal raw) eqn:Eu; [done|]. unfold live_capture. by rewrite Eu. Qed.

Lemma sim_step now a m o : (now ≤ o.1)%Z → sim now a m → sim o.1 (a_step a o) (step m o).
Proof.
  intros Hle Hs%(sim_later now o.1); [|done]. destruct o as [t o]. simpl in *. pose proof Hs as [H1 H2 H3].
  assert (m = with_ring a (m_ring m)) as Em by (destruct m; simpl in *; by subst).
  destruct o as [raw|watches raw ts| |ns pod sel e|ns pod e|ok]; unfold step, a_step; cbn [fst snd].
  - rewrite live_record_ring. assert (live_capture Unmarshal ParseTime m raw t = live_capture Unmarshal ParseTime (with_ring a ∅) raw t) as ->
      by (by rewrite Em). destruct (live_capture _ _ (with_ring a ∅) raw t); [by apply sim_add|]. by constructor.
  - unfold warm_record. destruct (warm_capture _ _ _ _); [by apply sim_add|by constructor].
  - by apply sim_evict.
  - rewrite Em. unfold SetWatch. simpl. destruct (a_store a); by constructor.
  - rewrite Em. unfold DeleteWatch. simpl. destruct (a_store a); by constructor.
  - rewrite Em. unfold Load. simpl. destruct (a_store a); [destruct ok|]; by constructor.
Qed.

(** Clock readings that do not go back. *)
Fixpoint clocked (now : Time) (ops : list (Time * op)) : Prop :=
  match ops with [] => True | o :: ops' => (now ≤ o.1)%Z ∧ clocked o.1 ops' end.
Definition end_time (now : Time) (ops : list (Time * op)) : Time := default now (last (map fst ops)).

Lemma sim_run now a m ops : clocked now ops → sim now a m → ∃ t, sim t (a_run a ops) (run m ops) ∧ t = end_time now ops.
Proof.
  revert now a m. induction ops as [|o ops IH]; intros now a m Hc Hs; simpl in *; [by exists now|]. destruct Hc as [Hle Hc].
  destruct (IH o.1 (a_step a o) (step m o) Hc) as (t & Ht & ->); [by eapply sim_step|]. exists (end_time o.1 ops). split; [done|].
  unfold end_time. cbn [map]. rewrite last_cons. by destruct (last (map fst ops)).
Qed.

Lemma filter_ext_in {A} (f g : A → bool) l : (∀ x, x ∈ l → f x = g x) → List.filter f l = List.filter g l.
Proof.
  induction l as [|x l IH]; simpl; intros H; [done|]. rewrite (H x) by left. rewrite IH; [done|]. intros y Hy. apply H. by right.
Qed.

(** Buffers as [get_events] sees them. *)
Lemma get_events_ext buf buf' uid cid sel now :
  (∀ u kind name, (u = uid ∨ u = "") → (kind = Syscall ∨ kind = LSMHook ∨ kind = Tracepoint) →
     fresh_raws now (buf u kind name) = fresh_raws now (buf' u kind name)) →
  get_events Unmarshal buf uid cid sel now = get_events Unmarshal buf' uid cid sel now.
Proof.
  intros H. unfold get_events.
  f_equal; [|f_equal]; f_equal; apply map_ext; intros name; rewrite (H uid), (H "") by auto; done.
Qed.

Definition a_start (rows : option (gmap string watchEntry)) : Abstract := {| a_watches := ∅; a_store := rows; a_log := [] |}.
Definition m_start (rows : option (gmap string watchEntry)) : Manager := {| m_watches := ∅; m_store := rows; m_ring := ∅ |}.

(** C19: the bounded ring loses nothing that should be shown: after any sequence of
    live records, records read again after a restart, evictions, and watches set,
    deleted and reloaded, with failing statements, the events shown for a pod are
    exactly those an unbounded log gives: of the last 500 captured under each
    selected name, the ones of the last 24 hours, in order. *)
Theorem watch_refines rows t0 ops now ns pod uid cid :
  clocked t0 ops → (end_time t0 ops ≤ now)%Z →
  Forall plain (a_log (a_run (a_start rows) ops)) → no_slash ns → no_slash pod → no_slash uid →
  GetEvents Unmarshal ns pod uid cid now (run (m_start rows) ops) = a_GetEvents ns pod uid cid now (a_run (a_start rows) ops).
Proof.
  intros Hc Hnow Hpl Hns Hpod Huid.
  destruct (sim_run t0 (a_start rows) (m_start rows) ops Hc) as (t & Hs & ->).
  { constructor; [done..|]. intros key. simpl. rewrite lookup_empty. by exists []. }
  apply (sim_later _ now) in Hs as [H1 H2 H3]; [|done].
  unfold GetEvents, a_GetEvents. assert (selection_of (run (m_start rows) ops) ns pod = selection_of (with_ring (a_run (a_start rows) ops) ∅) ns pod) as ->
    by (unfold selection_of; by rewrite H1).
  case_if; [done|]. unfold Get. apply get_events_ext. intros u kind name Hu Hk.
  rewrite (fresh_stands now _ _ (H3 _)). unfold a_buffer. do 3 f_equal. apply filter_ext_in. intros c Hcin.
  rewrite Forall_forall in Hpl. destruct (Hpl c Hcin) as (P1 & P2 & P3 & P4). unfold captured_as.
  destruct (String.eqb_spec (ringKey (c_ns c) (c_pod c) (c_uid c) (c_kind c) (c_name c)) (ringKey ns pod u kind name)) as [E|E].
  - apply ringKey_inj in E; [|done..|by destruct Hu as [->| ->]|by destruct Hk as [->|[->| ->]]]. injection E as -> -> -> -> ->.
    by rewrite !String.eqb_refl.
  - symmetry. apply not_true_iff_false. intros H. bool_hyps. congruence.
Qed.
End Runs.

(** ** Example *)

(** Two hooks of a watched pod, one captured and read again a day later. *)
Definition exec_at (uid ts : string) : list (string * value) :=
  [("syscall", VStr "execve"); ("namespace", VStr "prod"); ("pod", VStr "web"); ("pod_uid", VStr uid); ("ts", VStr ts)].
Definition parse_record (raw : string) : option (list (string * value)) :=
  if raw == "one" then Some (exec_at "u1" "1") else if raw == "two" then Some (exec_at "u1" "30") else None.
Definition hours (s : string) : option Time := if s == "1" then Some Hour else if s == "30" then Some (30 * Hour)%Z else None.
Definition watching : PodWatchSelection := {| Syscalls := ["execve"]; LSMHooks := []; Tracepoints := [] |}.
Definition watched_ops : list (Time * op) :=
  [(Hour, Set_ "prod" "web" watching Done); (Hour, Live "one"); ((30 * Hour)%Z, Live "two"); ((30 * Hour)%Z, Live "none");
   ((31 * Hour)%Z, Evict)].

Lemma watch_refines_witness :
  GetEvents parse_record "prod" "web" "u1" "" (31 * Hour)%Z (run parse_record hours None (m_start (Some ∅)) watched_ops) = ["two"]
  ∧ GetEvents parse_record "prod" "web" "u1" "" (31 * Hour)%Z (run parse_record hours None (m_start (Some ∅)) watched_ops)
    = a_GetEvents parse_record "prod" "web" "u1" "" (31 * Hour)%Z (a_run parse_record hours (a_start (Some ∅)) watched_ops).
Proof.
  split; [vm_compute; reflexivity|].
  apply (watch_refines parse_record hours None (Some ∅) 0%Z watched_ops); try reflexivity.
  - repeat split; vm_compute; discriminate.
  - vm_compute. repeat constructor.
Defined.
