(* ===== verification/HubConsumer.v ===== *)
(** * kvisior/internal/kafka/consumer.go: the hub's policy consumer

    Records are processed in order: an executed binary or a watched event is
    stored, and every rule the event matches becomes a violation, written until
    the write succeeds. Offsets are committed after all records of a poll. *)

From Stdlib Require Import Ascii.
From stdpp Require Import base list gmap strings.
From S2P Require Import Prelude GoStrings GoValue Kafka Violations RuleMatcher WatchRing.
Local Open Scope string_scope.
Local Open Scope list_scope.
Local Open Scope go_scope.

Definition writeRetryMin : Duration := Second.
Definition writeRetryMax : Duration := (30 * Second)%Z.

(** ** Stored events (store/ingest.go) *)

Record BinaryRow := {
  b_event_id : string; b_ts : Time; b_ns : string; b_pod : string; b_pod_uid : string; b_pod_ip : string;
  b_container : string; b_node : string; b_binary : string; b_process : string; b_cmdline : string; b_data : string;
}.

Record HubDB := {
  hub_violations : gmap (string * string) (StoredViolation (D := string));
  hub_binaries : gmap (string * string) BinaryRow;
}.

Section Store.
  Context (Unmarshal : string → option (list (string * value))) (ParseTime : string → option Time) (sha : string → string).

(** The first of the fields that is a non-empty string. *)
Fixpoint first_field (ev : list (string * value)) (names : list string) : string :=
  match names with
  | [] => ""
  | name :: names' => let v := as_string (vlookup ev name) in if v != "" then v else first_field ev names'
  end.

Definition stored_time (v : value) (now : Time) : Time :=
  match v with
  | VStr text => default now (ParseTime text)
  | VNum f => if float_gt f 0 then (TAdd unixEpoch (float_int f * Second))%Z else now
  | _ => now
  end.

(** The key and the row; [inl true] when there is nothing to store, [inl false]
    when the record cannot be read. *)
Definition binary_row (cluster raw : string) (now : Time) : bool + (string * string) * BinaryRow :=
  match Unmarshal raw with
  | None => inl false
  | Some ev =>
      let ns := first_field ev ["namespace"; "ns"] in
      let pod := first_field ev ["pod"] in
      if (ns == "") || (pod == "") then inl true
      else
        let ts := match vlookup ev "ts" with
                  | Some v => stored_time v now
                  | None => match vlookup ev "timestamp" with Some v => stored_time v now | None => now end
                  end in
        inr ((cluster, sha raw),
             {| b_event_id := first_field ev ["id"; "event_id"; "eventId"]; b_ts := ts; b_ns := ns; b_pod := pod;
                b_pod_uid := first_field ev ["pod_uid"; "podUID"; "uid"]; b_pod_ip := first_field ev ["pod_ip"; "podIP"];
                b_container := first_field ev ["container"; "containerId"]; b_node := first_field ev ["node"];
                b_binary := first_field ev ["execpath"; "binary"]; b_process := first_field ev ["process"];
                b_cmdline := first_field ev ["cmdline"]; b_data := raw |})
  end.

Definition InsertBinaryExecEvent (cluster raw : string) (now : Time) (e : ending) (db : HubDB) : HubDB * bool :=
  match binary_row cluster raw now with
  | inl ok => (db, ok)
  | inr (key, row) =>
      (if applied e then
         {| hub_violations := hub_violations db;
            hub_binaries := match hub_binaries db !! key with Some _ => hub_binaries db | None => <[key := row]> (hub_binaries db) end |}
       else db, heard e)
  end.

Definition DefaultClusterID : string := "default".
Definition nul : string := String "000" "".

(** [sha12]: the first 12 bytes of SHA-256, in hexadecimal. *)
Definition Fingerprint (sha12 : string → string) (cluster ruleID ns pod : string) : string :=
  let cluster := if cluster == "" then DefaultClusterID else cluster in
  sha12 (cluster +:+ nul +:+ ruleID +:+ nul +:+ ns +:+ nul +:+ pod).

Definition WriteViolationChecked (cluster : string) (w : StoredWrite (D := string)) (at_ : Time) (e : ending) (db : HubDB) : HubDB * bool :=
  (if applied e then {| hub_violations := upsert cluster at_ w (hub_violations db); hub_binaries := hub_binaries db |} else db, heard e).
End Store.

(** ** Writing until it succeeds *)

(** The attempts that are made before the shutdown. *)
Fixpoint retryWrite {S_ : Type} (write : ending → S_ → S_ * bool) (attempts : list ending) (s : S_) : S_ * bool :=
  match attempts with
  | [] => (s, false)
  | e :: attempts' => let '(s', ok) := write e s in if ok then (s', true) else retryWrite write attempts' s'
  end.

(** The pause after each failed attempt. *)
Fixpoint pauses (backoff : Duration) (n : nat) : list Duration :=
  match n with
  | O => []
  | S n' => backoff :: pauses (Z.min (backoff * 2) writeRetryMax) n'
  end.

(** ** The consumer *)

Definition shouldPersistRuntimeEvent (syscall : string) (watched : bool) : bool := IsBinaryExec syscall || watched.

Definition sysViol (v : Violation) (fp : string) : Violation * string := (v, fp).

(** The data, what was published, and the number of records that could not be
    read. *)
Record Sink := { k_db : HubDB; k_published : list (Violation * string); k_malformed : nat }.
Definition with_db (s : Sink) (db : HubDB) : Sink := {| k_db := db; k_published := k_published s; k_malformed := k_malformed s |}.

Section Consumer.
  Context {T : CaseTables} {F : FloatText}.
  Context (Unmarshal : string → option (list (string * value))) (ParseTime : string → option Time) (sha sha12 : string → string).
  Context (cluster : string).

Definition violation_of (raw ns pod : string) (v : Violation) : StoredWrite (D := string) :=
  {| vw_VType := "syscall"; vw_RuleID := V_RuleID v; vw_RuleName := V_Rule v; vw_Sev := V_Sev v; vw_NS := ns; vw_Pod := pod;
     vw_Fingerprint := Fingerprint sha12 cluster (V_RuleID v) ns pod; vw_Data := raw |}.

(** [store] is whether there is a database; [tries i] are the attempts of write
    [i]; [now] is the time. *)
Fixpoint write_matches (store : bool) (raw ns pod : string) (tries : nat → list ending) (i : nat) (now : Time) (l : list Violation) (s : Sink)
  : Sink * bool :=
  match l with
  | [] => (s, true)
  | v :: l' =>
      let w := violation_of raw ns pod v in
      let '(db, ok) := if store then retryWrite (WriteViolationChecked cluster w now) (tries i) (k_db s) else (k_db s, true) in
      if negb ok then (with_db s db, false)
      else write_matches store raw ns pod tries (S i) now l'
             {| k_db := db; k_published := snoc (k_published s) (sysViol v (vw_Fingerprint w)); k_malformed := k_malformed s |}
  end.

Definition watched_event (watch : option Manager) (ev : list (string * value)) : bool :=
  let sc := as_string (vlookup ev "syscall") in
  let ns := as_string (vlookup ev "namespace") in
  let pod := as_string (vlookup ev "pod") in
  match watch with
  | Some m => (ns != "") && (pod != "") && ShouldCapture m ns pod (eventKindFromMap ev sc) sc
  | None => false
  end.

Definition processRecord (store : bool) (watch : option Manager) (mt : Matcher) (tries : nat → list ending) (now : Time) (raw : string) (s : Sink)
  : Sink * bool :=
  match Unmarshal raw with
  | None => ({| k_db := k_db s; k_published := k_published s; k_malformed := S (k_malformed s) |}, true)
  | Some ev =>
      let sc := as_string (vlookup ev "syscall") in
      let ns := as_string (vlookup ev "namespace") in
      let pod := as_string (vlookup ev "pod") in
      let '(db, ok) := if shouldPersistRuntimeEvent sc (watched_event watch ev) && store
                       then retryWrite (InsertBinaryExecEvent Unmarshal ParseTime sha cluster raw now) (tries 0%nat) (k_db s)
                       else (k_db s, true) in
      if negb ok then (with_db s db, false)
      else write_matches store raw ns pod tries 1 now (Match mt ev) (with_db s db)
  end.

(** A row of runtime_policies: the type and the rule in its document, if they can
    be read. *)
Record RuleRow := { rr_detType : option string; rr_rule : option Rule }.
Definition syscall_rules (rows : list RuleRow) : list Rule :=
  omap (λ r, match rr_detType r with
             | Some d => if any (String.eqb d) ["Syscall"; "Binary"; "LSM"; "Tracepoint"; ""] then rr_rule r else None
             | None => None
             end) rows.
Definition refreshRules (rows : option (list RuleRow)) (mt : Matcher) : Matcher :=
  match rows with Some rows => Replace mt (syscall_rules rows) | None => mt end.

(** ** The loop *)

(** Between polls, working on the records of a poll, or stopped by a failure. *)
Inductive phase := Idle | Busy (rest : list string) | Stopped.

Context {K : KafkaClient string}.

(** [x_done]: the records processed without an error, with the rules and watches
    they were processed with. *)
Record Loop := {
  x_sink : Sink; x_matcher : Matcher; x_watch : option Manager; x_session : session; x_phase : phase;
  x_done : list (string * Matcher * option Manager);
}.

Inductive event :=
| Poll
| Next (tries : nat → list ending) (now : Time)
| Commit (ok : bool)
| Restart
| Refresh (rows : option (list RuleRow))
| Rewatch (m : option Manager)
| Mark (fingerprint state : string) (until : option Time).

Definition set_phase (x : Loop) (k : session) (p : phase) : Loop :=
  {| x_sink := x_sink x; x_matcher := x_matcher x; x_watch := x_watch x; x_session := k; x_phase := p; x_done := x_done x |}.

(** [Run], [refreshRules] beside it, changes of the watches, and the states people
    give to violations. *)
Definition step (store : bool) (x : Loop) (e : event) : Loop :=
  match e with
  | Poll => match x_phase x with
            | Idle => let '(recs, k) := PollFetches (x_session x) in set_phase x k (Busy recs)
            | _ => x
            end
  | Next tries now =>
      match x_phase x with
      | Busy (raw :: rest) =>
          let '(sink, ok) := processRecord store (x_watch x) (x_matcher x) tries now raw (x_sink x) in
          {| x_sink := sink; x_matcher := x_matcher x; x_watch := x_watch x; x_session := x_session x;
             x_phase := if ok then Busy rest else Stopped;
             x_done := if ok then snoc (x_done x) (raw, x_matcher x, x_watch x) else x_done x |}
      | _ => x
      end
  | Commit ok => match x_phase x with
                 | Busy [] => set_phase x (if ok then CommitUncommittedOffsets (x_session x) else x_session x) Idle
                 | _ => x
                 end
  | Restart => {| x_sink := x_sink x; x_matcher := New; x_watch := x_watch x; x_session := Reopen (x_session x); x_phase := Idle;
                  x_done := x_done x |}
  | Refresh rows => {| x_sink := x_sink x; x_matcher := refreshRules rows (x_matcher x); x_watch := x_watch x; x_session := x_session x;
                       x_phase := x_phase x; x_done := x_done x |}
  | Rewatch m => {| x_sink := x_sink x; x_matcher := x_matcher x; x_watch := m; x_session := x_session x; x_phase := x_phase x;
                    x_done := x_done x |}
  | Mark fp state until =>
      let db := {| hub_violations := (SetViolationState cluster fp state until (hub_violations (k_db (x_sink x)))).1;
                   hub_binaries := hub_binaries (k_db (x_sink x)) |} in
      {| x_sink := with_db (x_sink x) db; x_matcher := x_matcher x; x_watch := x_watch x; x_session := x_session x;
         x_phase := x_phase x; x_done := x_done x |}
  end.
End Consumer.
