(* ===== verification/HubConsumerProps.v ===== *)
(** * Nothing is committed before it is stored

    The hub's consumer stops at a record it cannot store and commits only what it
    has stored, so a restart reads the rest again. *)

From Stdlib Require Import Ascii.
From stdpp Require Import base list gmap strings.
From S2P Require Import Prelude GoStrings GoValue Kafka Violations RuleMatcher WatchRing HubConsumer.
Local Open Scope string_scope.
Local Open Scope list_scope.
Local Open Scope go_scope.

(** ** Rows stay *)

Record db_le (a b : HubDB) : Prop := {
  le_violations : ∀ k, is_Some (hub_violations a !! k) → is_Some (hub_violations b !! k);
  le_binaries : ∀ k, is_Some (hub_binaries a !! k) → is_Some (hub_binaries b !! k);
}.
#[export] Instance db_le_preorder : PreOrder db_le.
Proof. split; [by constructor|]. intros a b c [H1 H2] [H3 H4]. constructor; auto. Qed.

Record sink_le (a b : Sink) : Prop := {
  sl_db : db_le (k_db a) (k_db b);
  sl_published : ∀ p, p ∈ k_published a → p ∈ k_published b;
}.
#[export] Instance sink_le_preorder : PreOrder sink_le.
Proof. split; [by constructor|]. intros a b c [H1 H2] [H3 H4]. constructor; [by etrans|auto]. Qed.

Section Retry.
  Context {S_ : Type} (R : relation S_) `{!PreOrder R} (Q : S_ → Prop) (write : ending → S_ → S_ * bool).

Lemma retryWrite_spec attempts s s' ok :
  (∀ e s, R s (write e s).1) → (∀ e s s', write e s = (s', true) → Q s') →
  retryWrite write attempts s = (s', ok) → R s s' ∧ (ok = true → Q s').
Proof.
  intros HR HQ. revert s. induction attempts as [|e attempts IH]; intros s H; simpl in H; [by simplify_eq|].
  specialize (HR e s) as Hs. destruct (write e s) as [s1 ok1] eqn:Ew. simpl in Hs. destruct ok1; simplify_eq.
  - split; [done|]. intros _. eauto.
  - destruct (IH _ H) as [H1 H2]. split; [by etrans|done].
Qed.

(** With an attempt that succeeds, the write returns, and succeeds. *)
Lemma retryWrite_succeeds pre e post s : 
  (∀ s, (write e s).2 = true) → (retryWrite write (pre ++ e :: post) s).2 = true.
Proof.
  intros He. revert s. induction pre as [|d pre IH]; intros s; simpl.
  - specialize (He s). destruct (write e s) as [s' ok]. simpl in He. by subst.
  - destruct (write d s) as [s' ok]. destruct ok; [done|apply IH].
Qed.
End Retry.

Lemma pauses_bounded n b : (0 < b ≤ writeRetryMax)%Z → Forall (λ d, 0 < d ≤ writeRetryMax)%Z (pauses b n).
Proof.
  revert b. induction n as [|n IH]; intros b Hb; simpl; [constructor|]. constructor; [done|]. apply IH.
  unfold writeRetryMax, Second in *. lia.
Qed.

Section Consumer.
  Context {T : CaseTables} {F : FloatText}.
  Context (Unmarshal : string → option (list (string * value))) (ParseTime : string → option Time) (sha sha12 : string → string).
  Context (cluster : string).

Lemma insert_binary_le raw now e db : db_le db (InsertBinaryExecEvent Unmarshal ParseTime sha cluster raw now e db).1.
Proof.
  unfold InsertBinaryExecEvent. destruct (binary_row _ _ _ _ _ _) as [ok|[key row]]; [reflexivity|]. simpl.
  destruct (applied e); [|reflexivity]. constructor; simpl; [done|]. intros k Hk. destruct (hub_binaries db !! key); [done|].
  destruct (decide (key = k)) as [->|]; [rewrite lookup_insert_eq; eauto|by rewrite lookup_insert_ne].
Qed.

(** An executed binary with a namespace and a pod. *)
Definition in_pod (ev : list (string * value)) : bool := (first_field ev ["namespace"; "ns"] != "") && (first_field ev ["pod"] != "").

Lemma insert_binary_has raw ev now e db db' :
  Unmarshal raw = Some ev → in_pod ev = true →
  InsertBinaryExecEvent Unmarshal ParseTime sha cluster raw now e db = (db', true) → is_Some (hub_binaries db' !! (cluster, sha raw)).
Proof.
  intros Eu Hp. unfold InsertBinaryExecEvent, binary_row. rewrite Eu. unfold in_pod in Hp. bool_hyps.
  destruct (_ == "") eqn:E1; bool_hyps; [done|]. destruct (_ == "") eqn:E2; bool_hyps; [done|]. simpl.
  destruct e; simpl; intros [= <-]. simpl. destruct (hub_binaries db !! (cluster, sha raw)) eqn:E; [rewrite E; eauto|].
  rewrite lookup_insert_eq. eauto.
Qed.

Lemma write_violation_le w at_ e db : db_le db (WriteViolationChecked cluster w at_ e db).1.
Proof.
  unfold WriteViolationChecked. simpl. destruct (applied e); [|reflexivity]. constructor; simpl; [|done].
  intros k [v Hv]. destruct (upsert_keeps cluster at_ w _ k v Hv) as (v' & -> & _). eauto.
Qed.

Lemma write_violation_has w at_ e db db' :
  WriteViolationChecked cluster w at_ e db = (db', true) → is_Some (hub_violations db' !! (cluster, vw_Fingerprint w)).
Proof. unfold WriteViolationChecked. destruct e; simpl; intros [= <-]. apply upsert_has. Qed.

(** The violations of the matches are stored and were published. *)
Definition recorded (s : Sink) (raw ns pod : string) (l : list Violation) : Prop :=
  ∀ v, v ∈ l → let fp := Fingerprint sha12 cluster (V_RuleID v) ns pod in
    is_Some (hub_violations (k_db s) !! (cluster, fp)) ∧ (v, fp) ∈ k_published s.

Lemma recorded_le a b raw ns pod l : sink_le a b → recorded a raw ns pod l → recorded b raw ns pod l.
Proof. intros [[H1 _] H2] Hr v Hv. destruct (Hr v Hv) as [H3 H4]. simpl in *. auto. Qed.

Lemma write_matches_spec raw ns pod tries i now l s s' ok :
  write_matches sha12 cluster true raw ns pod tries i now l s = (s', ok) →
  sink_le s s' ∧ (ok = true → recorded s' raw ns pod l).
Proof.
  revert i s. induction l as [|v l IH]; intros i s H; simpl in H.
  - simplify_eq. split; [done|]. by intros _ v ?%not_elem_of_nil.
  - destruct (retryWrite _ _ _) as [db okw] eqn:Er.
    apply (retryWrite_spec db_le (λ db, is_Some (hub_violations db !! (cluster, vw_Fingerprint (violation_of sha12 cluster raw ns pod v))))) in Er
      as [Hle Hhas]; [|apply write_violation_le|apply write_violation_has].
    destruct okw; simpl in H; [|simplify_eq; split; [by constructor|done]].
    apply IH in H as [Hle' Hrec].
    assert (sink_le s {| k_db := db; k_published := snoc (k_published s) (v, Fingerprint sha12 cluster (V_RuleID v) ns pod);
                         k_malformed := k_malformed s |}) as Hs.
    { constructor; [done|]. simpl. unfold snoc. set_solver. }
    split; [by etrans|]. intros Hok x [->|Hx]%elem_of_cons; [|by apply (Hrec Hok)]. split.
    + destruct Hle' as [[H1 _] _]. apply H1. simpl. by apply Hhas.
    + destruct Hle' as [_ H2]. apply H2. simpl. unfold snoc. set_solver.
Qed.

(** What a record of the topic should leave behind, with the rules and watches of
    the moment. *)
Definition accounted (s : Sink) (r : string * Matcher * option Manager) : Prop :=
  let '(raw, mt, watch) := r in
  match Unmarshal raw with
  | None => True
  | Some ev =>
      (shouldPersistRuntimeEvent (as_string (vlookup ev "syscall")) (watched_event watch ev) && in_pod ev = true →
         is_Some (hub_binaries (k_db s) !! (cluster, sha raw)))
      ∧ recorded s raw (as_string (vlookup ev "namespace")) (as_string (vlookup ev "pod")) (Match mt ev)
  end.

Lemma accounted_le a b r : sink_le a b → accounted a r → accounted b r.
Proof.
  intros Hle. destruct r as [[raw mt] watch]. unfold accounted. destruct (Unmarshal raw) as [ev|]; [|done].
  intros [H1 H2]. split; [|by eapply recorded_le]. intros H. destruct Hle as [[_ Hb] _]. auto.
Qed.

Lemma processRecord_spec watch mt tries now raw s s' ok :
  processRecord Unmarshal ParseTime sha sha12 cluster true watch mt tries now raw s = (s', ok) →
  sink_le s s' ∧ (ok = true → accounted s' (raw, mt, watch)).
Proof.
  unfold processRecord, accounted. destruct (Unmarshal raw) as [ev|] eqn:Eu; [|intros [= <- <-]; split; [by constructor|done]].
  destruct (shouldPersistRuntimeEvent _ _) eqn:Ep; simpl.
  - destruct (retryWrite _ _ _) as [db okw] eqn:Er.
    apply (retryWrite_spec db_le (λ db, in_pod ev = true → is_Some (hub_binaries db !! (cluster, sha raw)))) in Er as [Hle Hhas];
      [|apply insert_binary_le|intros ? ? ? ? ?; by eapply insert_binary_has].
    destruct okw; simpl; [|intros [= <- <-]; split; [by constructor|done]]. intros H. apply write_matches_spec in H as [Hle' Hrec].
    assert (sink_le s (with_db s db)) as Hs by (by constructor). split; [by etrans|]. intros Hok. split; [|auto].
    intros Hin. destruct Hle' as [[_ Hb] _]. apply Hb. simpl. auto.
  - intros H. apply write_matches_spec in H as [Hle' Hrec]. split; [by destruct s|]. intros Hok. split; [done|auto].
Qed.

(** ** Runs *)

Context {K : KafkaClient string}.
Local Abbreviation step_ := (step Unmarshal ParseTime sha sha12 cluster true).

Definition start (sink : Sink) (watch : option Manager) (k : session) : Loop :=
  {| x_sink := sink; x_matcher := New; x_watch := watch; x_session := k; x_phase := Idle; x_done := [] |}.

Definition done_raw (x : Loop) (raw : string) : Prop := ∃ mt watch, (raw, mt, watch) ∈ x_done x.

(** [fresh]: what the session returned since the last commit. *)
Record Inv (topic : list string) (x : Loop) : Prop := {
  i_committed : ∃ C, topic = C ++ uncommitted (x_session x) ∧ ∀ raw, raw ∈ C → done_raw x raw;
  i_session : x_phase x ≠ Stopped →
    ∃ U, uncommitted (x_session x) = U ++ match x_phase x with Busy rest => rest | _ => [] end ++ pending (x_session x)
         ∧ ∀ raw, raw ∈ U → done_raw x raw;
  i_done : ∀ r, r ∈ x_done x → accounted (x_sink x) r;
}.

Lemma done_snoc x x' r raw : x_done x' = snoc (x_done x) r → done_raw x raw → done_raw x' raw.
Proof. intros E (mt & w & H). exists mt, w. rewrite E. unfold snoc. set_solver. Qed.

Lemma next_Inv topic x tries now : Inv topic x → Inv topic (step_ x (Next tries now)).
Proof.
  intros [I1 I2 I3]. unfold step. destruct (x_phase x) as [|[|raw rest]|] eqn:Ep; try (by constructor; rewrite ?Ep).
  destruct (processRecord _ _ _ _ _ _ _ _ _ _ _ _) as [sink ok] eqn:Er. apply processRecord_spec in Er as [Hle Hacc].
  destruct I1 as (C & EC & HC). destruct (I2 ltac:(done)) as (U & EU & HU). constructor; simpl.
  - exists C. split; [done|]. intros y Hy. destruct (HC y Hy) as (mt & w & H). exists mt, w. simpl. case_if; [unfold snoc; set_solver|done].
  - destruct ok; [|done]. intros _. exists (U ++ [raw]). split; [rewrite EU, <- !app_assoc; done|].
    intros y [Hy|Hy]%elem_of_app.
    + destruct (HU y Hy) as (mt & w & H). exists mt, w. simpl. unfold snoc. set_solver.
    + apply list_elem_of_singleton in Hy as ->. exists (x_matcher x), (x_watch x). simpl. unfold snoc. set_solver.
  - intros r Hr. destruct ok; [|by eapply accounted_le; [|apply I3]]. unfold snoc in Hr. apply elem_of_app in Hr as [Hr|Hr].
    + eapply accounted_le; [done|auto].
    + apply list_elem_of_singleton in Hr as ->. auto.
Qed.

Lemma step_Inv topic x e : Inv topic x → Inv topic (step_ x e).
Proof.
  intros Hi. destruct e as [|tries now|ok| |rows|m|fp state until]; [|by apply next_Inv|..]; destruct Hi as [I1 I2 I3].
  - unfold step. destruct (x_phase x) eqn:Ep; try (by constructor; rewrite ?Ep). destruct (PollFetches (x_session x)) as [recs k] eqn:Ek.
    pose proof (poll_pending (x_session x)) as P1. pose proof (poll_uncommitted (x_session x)) as P2. rewrite Ek in P1, P2. simpl in P1, P2.
    constructor; simpl; [by rewrite P2| |done]. intros _. destruct (I2 ltac:(done)) as (U & EU & HU). exists U. rewrite P2, EU, P1. done.
  - unfold step. destruct (x_phase x) as [|[|]|] eqn:Ep; try (by constructor; rewrite ?Ep).
    destruct I1 as (C & EC & HC). destruct (I2 ltac:(done)) as (U & EU & HU). simpl in EU. destruct ok; constructor; simpl; try done.
    + exists (C ++ U). rewrite commit_uncommitted. split; [by rewrite EC, EU, app_assoc|]. intros y [Hy|Hy]%elem_of_app; [by apply HC|by apply HU].
    + intros _. exists []. rewrite commit_uncommitted, commit_pending. split; [done|]. by intros y ?%not_elem_of_nil.
    + by exists C.
    + intros _. by exists U.
  - constructor; simpl; [by rewrite reopen_uncommitted| |done]. intros _. exists []. rewrite reopen_uncommitted, reopen_pending.
    split; [done|]. by intros y ?%not_elem_of_nil.
  - by constructor.
  - by constructor.
  - constructor; simpl; [done..|]. intros r Hr. eapply accounted_le; [|by apply I3]. constructor; simpl; [|done]. constructor; simpl; [|done].
    intros k [v Hv]. destruct (SetViolationState_keeps cluster fp state until _ k v Hv) as (v' & -> & _). eauto.
Qed.

(** C20: the hub's consumer never passes over an event: whatever writes fail or go
    unheard, whenever it stops, restarts, loads rules or fails to commit, every
    record before the committed position that can be read was processed: if it
    is an executed binary or a watched event of a pod it is stored, and for every
    rule in force when it was processed that it matches, the violation is stored
    and was published. *)
Theorem committed_stored sink watch k events :
  let x := foldl step_ (start sink watch (Reopen k)) events in
  ∃ committed, uncommitted k = committed ++ uncommitted (x_session x)
    ∧ ∀ raw, raw ∈ committed → ∃ mt w, (raw, mt, w) ∈ x_done x ∧ accounted (x_sink x) (raw, mt, w).
Proof.
  cbv zeta. assert (Inv (uncommitted k) (foldl step_ (start sink watch (Reopen k)) events)) as [(C & EC & HC) _ I3].
  { assert (Inv (uncommitted k) (start sink watch (Reopen k))) as H0.
    { constructor; simpl; [..|by intros r ?%not_elem_of_nil].
      - exists []. rewrite reopen_uncommitted. split; [done|]. by intros y ?%not_elem_of_nil.
      - intros _. exists []. rewrite reopen_uncommitted, reopen_pending. split; [done|]. by intros y ?%not_elem_of_nil. }
    revert H0. generalize (start sink watch (Reopen k)). induction events as [|e events IH]; intros x Hx; simpl; [done|].
    by apply IH, step_Inv. }
  exists C. split; [done|]. intros raw Hraw. destruct (HC raw Hraw) as (mt & w & H). exists mt, w. auto.
Qed.
End Consumer.

(** ** Example *)

Section Example.
#[local] Existing Instance ascii_tables.
#[local] Existing Instance small_float_text.

Definition mount_rule : Rule :=
  {| R_ID := "r1"; R_Name := "mount"; R_Enabled := None; R_Syscall := "mount"; R_Category := ""; R_DetType := "Syscall"; R_Namespace := "";
     R_PodPattern := ""; R_ProcessFilter := ""; R_PathFilter := ""; R_Sev := "high" |}.
Definition mount_record (raw : string) : option (list (string * value)) :=
  if raw == "mount" then Some [("syscall", VStr "mount"); ("namespace", VStr "prod"); ("pod", VStr "web")] else None.
Definition one_record : KafkaClient string := list_client ["mount"] 10.
Definition empty_sink : Sink := {| k_db := {| hub_violations := ∅; hub_binaries := ∅ |}; k_published := []; k_malformed := 0 |}.
Definition mount_rows : list RuleRow := [{| rr_detType := Some "Syscall"; rr_rule := Some mount_rule |}].

(** The write fails, the process stops and reads the record again. *)
Definition retried_events : list event :=
  [Refresh (Some mount_rows); Poll; Next (λ _, [NotDone]) 0%Z; Restart; Refresh (Some mount_rows); Poll; Next (λ _, [NotDone; Done]) 0%Z;
   Commit true].

Example retried_stored :
  let x := foldl (step (K := one_record) mount_record (λ _, None) id id "east" true) (start (K := one_record) empty_sink None (0, 0)%nat)
                 retried_events in
  x_session (K := one_record) x = (10, 10)%nat
  ∧ map_to_list (v_rule_id <$> hub_violations (k_db (x_sink x)))
    = [(("east", Fingerprint id "east" "r1" "prod" "web"), "r1")].
Proof. vm_compute. auto. Qed.

(** When the rules cannot be loaded at the start, the consumer goes on without
    any: the record is committed, and the rule that matches it, loaded later,
    never sees it. *)
Definition unloaded_events : list event := [Refresh None; Poll; Next (λ _, [Done]) 0%Z; Commit true; Refresh (Some mount_rows); Poll].

Example unloaded_passes_over :
  let x := foldl (step (K := one_record) mount_record (λ _, None) id id "east" true) (start (K := one_record) empty_sink None (0, 0)%nat)
                 unloaded_events in
  length (M_rules (x_matcher (K := one_record) x)) = 1%nat
  ∧ x_phase (K := one_record) x = Busy [] ∧ map_to_list (hub_violations (k_db (x_sink (K := one_record) x))) = [].
Proof. vm_compute. auto. Qed.
End Example.
