(* ===== verification/PodIndex.v ===== *)
(** * kvisior/internal/podindex: which pod had an address

    The index keeps, per cluster and address, the pod the last snapshot with that
    address had there, and when it was gone; [Lookup] says which pod the address
    belonged to at a time. *)

From Stdlib Require Import Ascii.
From stdpp Require Import base list gmap strings.
From S2P Require Import Prelude GoStrings.
Local Open Scope string_scope.
Local Open Scope list_scope.
Local Open Scope go_scope.

Definition clockSlack : Duration := (5 * Second)%Z.

Record Client := {
  C_Namespace : string; C_Pod : string; C_UID : string; C_Workload : string; C_ServiceAccount : string; C_Node : string;
  C_Image : string; C_CreatedAt : Time; C_FinishedAt : Time; C_SeenAt : Time; C_running : bool;
}.

Record Index := { x_keep : Duration; x_byCluster : gmap string (gmap string Client) }.
Definition New (keep : Duration) : Index := {| x_keep := keep; x_byCluster := ∅ |}.

Record ownerReference := { o_Kind : string; o_Name : string }.
Record snapshotPod := {
  p_Name : string; p_Namespace : string; p_UID : string; p_CreationTimestamp : Time; p_OwnerReferences : list ownerReference;
  p_ServiceAccountName : string; p_NodeName : string; p_HostNetwork : bool; p_Images : list string;
  p_Phase : string; p_PodIP : string; p_Terminated : list (option Time);
}.

Fixpoint workload_in (refs : list ownerReference) : string :=
  match refs with
  | [] => ""
  | ref :: refs' =>
      if o_Kind ref == "ReplicaSet" then
        match LastIndexByte (o_Name ref) "-" with
        | Some (S i) => stake (S i) (o_Name ref)
        | _ => o_Name ref
        end
      else if o_Name ref != "" then o_Name ref else workload_in refs'
  end.
Definition workload (p : snapshotPod) : string := workload_in (p_OwnerReferences p).

(** The latest end of the containers. *)
Definition finished (p : snapshotPod) : Time :=
  foldl (λ acc t, match t with Some f => if After f acc then f else acc | None => acc end) 0%Z (p_Terminated p).

Definition clientOf (p : snapshotPod) (now : Time) : Client :=
  let running := (p_Phase p != "Succeeded") && (p_Phase p != "Failed") in
  {| C_Namespace := p_Namespace p; C_Pod := p_Name p; C_UID := p_UID p; C_Workload := workload p;
     C_ServiceAccount := p_ServiceAccountName p; C_Node := p_NodeName p;
     C_Image := match p_Images p with i :: _ => i | [] => "" end; C_CreatedAt := p_CreationTimestamp p;
     C_FinishedAt := if running then 0%Z else finished p; C_SeenAt := now; C_running := running |}.

Definition preferred (a b : Client) : bool :=
  if Bool.eqb (C_running a) (C_running b) then After (C_CreatedAt a) (C_CreatedAt b) else C_running a.

Definition addressed (p : snapshotPod) : bool := (p_PodIP p != "") && negb (p_HostNetwork p).

(** The client of each address of a snapshot. *)
Definition best_one (now : Time) (best : gmap string Client) (p : snapshotPod) : gmap string Client :=
  if negb (addressed p) then best
  else
    let c := clientOf p now in
    match best !! p_PodIP p with
    | Some cur => if negb (preferred c cur) then best else <[p_PodIP p := c]> best
    | None => <[p_PodIP p := c]> best
    end.
Definition best_of (pods : list snapshotPod) (now : Time) : gmap string Client := foldl (best_one now) ∅ pods.

Definition gone (now : Time) (c : Client) : Client :=
  {| C_Namespace := C_Namespace c; C_Pod := C_Pod c; C_UID := C_UID c; C_Workload := C_Workload c; C_ServiceAccount := C_ServiceAccount c;
     C_Node := C_Node c; C_Image := C_Image c; C_CreatedAt := C_CreatedAt c; C_FinishedAt := now; C_SeenAt := C_SeenAt c; C_running := false |}.

(** The loop over the addresses of the cluster. *)
Definition settle (keep : Duration) (best : gmap string Client) (now : Time) (ip : string) (c : Client) : option Client :=
  let c := if bool_decide (best !! ip = None) && IsZero (C_FinishedAt c) then gone now c else c in
  if (keep <? TSub now (C_SeenAt c))%Z then None else Some c.

(** [None]: the snapshot cannot be read. *)
Definition Update (cluster : string) (snapshot : option (list snapshotPod)) (now : Time) (x : Index) : Index * bool :=
  match snapshot with
  | None => (x, false)
  | Some pods =>
      let best := best_of pods now in
      let known := default ∅ (x_byCluster x !! cluster) in
      ({| x_keep := x_keep x;
          x_byCluster := <[cluster := map_imap (settle (x_keep x) best now) (best ∪ known)]> (x_byCluster x) |}, true)
  end.

Definition in_time (c : Client) (at_ : Time) : bool :=
  negb (negb (IsZero (C_CreatedAt c)) && After (C_CreatedAt c) (TAdd at_ clockSlack))
  && negb (negb (IsZero (C_FinishedAt c)) && Before (C_FinishedAt c) (TAdd at_ (- clockSlack)%Z)).

Definition Lookup (cluster ip : string) (at_ : Time) (x : Index) : option Client :=
  match x_byCluster x !! cluster ≫= (λ pods : gmap string Client, pods !! ip) with
  | None => None
  | Some c => if in_time c at_ then Some c else None
  end.

(** ** The client of an address in a snapshot *)

Definition candidate (pods : list snapshotPod) (now : Time) (ip : string) (c : Client) : Prop :=
  ∃ p, p ∈ pods ∧ addressed p = true ∧ p_PodIP p = ip ∧ c = clientOf p now.

Lemma preferred_irrefl a : preferred a a = false.
Proof. unfold preferred, After. rewrite Bool.eqb_reflx. apply Z.ltb_irrefl. Qed.
Lemma preferred_cotrans a b c : preferred b a = false → preferred c b = false → preferred c a = false.
Proof.
  unfold preferred, After. destruct (C_running a), (C_running b), (C_running c); simpl; rewrite ?Z.ltb_ge; try done; lia.
Qed.
Lemma preferred_asym a b : preferred a b = true → preferred b a = false.
Proof.
  unfold preferred, After. destruct (C_running a), (C_running b); simpl; rewrite ?Z.ltb_lt, ?Z.ltb_ge; try done; lia.
Qed.

(** The client of an address is one of its pods, and no other is preferred. *)
Definition is_best (pods : list snapshotPod) (now : Time) (ip : string) (o : option Client) : Prop :=
  match o with
  | Some c => candidate pods now ip c ∧ ∀ c', candidate pods now ip c' → preferred c' c = false
  | None => ∀ c, ¬ candidate pods now ip c
  end.

Lemma candidate_snoc pods p now ip c :
  candidate (pods ++ [p]) now ip c ↔ candidate pods now ip c ∨ (addressed p = true ∧ p_PodIP p = ip ∧ c = clientOf p now).
Proof.
  unfold candidate. split.
  - intros (q & [Hq|Hq]%elem_of_app & H); [left; eauto|]. apply list_elem_of_singleton in Hq as ->. by right.
  - intros [(q & Hq & H)|H]; [exists q; split; [set_solver|done]|exists p; split; [set_solver|done]].
Qed.

Lemma best_of_best pods now ip : is_best pods now ip (best_of pods now !! ip).
Proof.
  induction pods as [|p pods IH] using rev_ind.
  - unfold best_of. simpl. rewrite lookup_empty. intros c (p & Hp & _). by apply not_elem_of_nil in Hp.
  - unfold best_of in *. rewrite foldl_app. simpl. set (best := foldl (best_one now) ∅ pods) in *. unfold best_one.
    destruct (addressed p) eqn:Ea; simpl.
    2: { destruct (best !! ip) as [c|]; simpl in *.
         - destruct IH as [IH1 IH2]. split; [apply candidate_snoc; by left|]. intros c' [H|(? & _)]%candidate_snoc; [auto|congruence].
         - intros c [H|(? & _)]%candidate_snoc; [by apply (IH c)|congruence]. }
    destruct (decide (p_PodIP p = ip)) as [<-|Hne].
    + set (c := clientOf p now). destruct (best !! p_PodIP p) as [cur|] eqn:Eb; [|].
      * destruct IH as [IH1 IH2]. destruct (preferred c cur) eqn:Epr; simpl.
        -- rewrite lookup_insert_eq. simpl. split; [apply candidate_snoc; by right|]. intros c' Hc'.
           apply candidate_snoc in Hc' as [Hc'|(_ & _ & ->)]; [|apply preferred_irrefl]. specialize (IH2 c' Hc').
           apply (preferred_cotrans _ cur); [by apply preferred_asym|done].
        -- rewrite Eb. simpl. split; [apply candidate_snoc; by left|]. intros c' Hc'.
           apply candidate_snoc in Hc' as [Hc'|(_ & _ & ->)]; auto.
      * rewrite lookup_insert_eq. simpl. split; [apply candidate_snoc; by right|]. intros c' Hc'.
        apply candidate_snoc in Hc' as [Hc'|(_ & _ & ->)]; [|apply preferred_irrefl]. by apply IH in Hc'.
    + assert ((match best !! p_PodIP p with
               | Some cur => if negb (preferred (clientOf p now) cur) then best else <[p_PodIP p:=clientOf p now]> best
               | None => <[p_PodIP p:=clientOf p now]> best
               end) !! ip = best !! ip) as ->.
      { destruct (best !! p_PodIP p); [case_if; [done|]|]; by rewrite lookup_insert_ne. }
      destruct (best !! ip) as [c|]; simpl in *.
      * destruct IH as [IH1 IH2]. split; [apply candidate_snoc; by left|]. intros c' Hc'.
        apply candidate_snoc in Hc' as [Hc'|(_ & H & _)]; [auto|done].
      * intros c Hc. apply candidate_snoc in Hc as [Hc|(_ & H & _)]; [by apply (IH c)|done].
Qed.

(** ** The index and the snapshots *)

Record update := { u_cluster : string; u_snapshot : option (list snapshotPod); u_now : Time }.
Definition apply_update (x : Index) (u : update) : Index := (Update (u_cluster u) (u_snapshot u) (u_now u) x).1.
Definition index_run (keep : Duration) (us : list update) : Index := foldl apply_update (New keep) us.

(** The readable snapshots of a cluster, in order. *)
Definition snapshots (cluster : string) (us : list update) : list (list snapshotPod * Time) :=
  omap (λ u, if u_cluster u == cluster then (λ pods, (pods, u_now u)) <$> u_snapshot u else None) us.

(** What is known of an address after some snapshots: the client of the last one
    that has the address, gone with the first one after it, and forgotten when
    it was seen too long ago. *)
Fixpoint known_client (keep : Duration) (ip : string) (snaps : list (list snapshotPod * Time)) : option Client :=
  match snaps with
  | [] => None
  | (pods, now) :: earlier =>
      match best_of pods now !! ip with
      | Some c => Some c
      | None => match known_client keep ip earlier with
                | Some c =>
                    let c := if IsZero (C_FinishedAt c) then gone now c else c in
                    if (keep <? TSub now (C_SeenAt c))%Z then None else Some c
                | None => None
                end
      end
  end.

Lemma TSub_self t : TSub t t = 0%Z.
Proof. unfold TSub, minInt64, maxInt64. rewrite Z.sub_diag. lia. Qed.

Lemma best_seen pods now ip c : best_of pods now !! ip = Some c → C_SeenAt c = now.
Proof. intros H. pose proof (best_of_best pods now ip) as Hb. rewrite H in Hb. by destruct Hb as [(p & _ & _ & _ & ->) _]. Qed.

Lemma index_run_known keep us cluster ip :
  (0 ≤ keep)%Z →
  x_keep (index_run keep us) = keep
  ∧ (x_byCluster (index_run keep us) !! cluster ≫= (λ pods, pods !! ip)) = known_client keep ip (reverse (snapshots cluster us)).
Proof.
  intros Hk. induction us as [|u us [IH1 IH2]] using rev_ind; [by split|].
  unfold index_run in *. rewrite foldl_app. simpl. set (x := foldl apply_update (New keep) us) in *.
  unfold snapshots. rewrite omap_app. simpl. fold (snapshots cluster us). unfold apply_update, Update.
  destruct (u_snapshot u) as [pods|] eqn:Es; simpl; [|destruct (_ == _); simpl; rewrite ?app_nil_r; auto].
  split; [done|]. destruct (String.eqb_spec (u_cluster u) cluster) as [<-|Hne]; simpl.
  2: { rewrite app_nil_r. by rewrite lookup_insert_ne. }
  rewrite lookup_insert_eq, reverse_app. simpl. rewrite map_lookup_imap, lookup_union.
  set (best := best_of pods (u_now u)). destruct (best !! ip) as [c|] eqn:Eb; simpl.
  - rewrite union_Some_l. simpl. unfold settle. rewrite bool_decide_eq_false_2 by congruence. simpl.
    assert (C_SeenAt c = u_now u) as -> by (by eapply best_seen). rewrite TSub_self, IH1. case_if; [lia|done].
  - rewrite left_id_L by apply _. fold (snapshots (u_cluster u) us). rewrite <- IH2.
    destruct (x_byCluster x !! u_cluster u) as [m|] eqn:Em; simpl; [|by rewrite lookup_empty].
    destruct (m !! ip) as [c|]; simpl; [|done]. unfold settle. rewrite bool_decide_eq_true_2 by done. rewrite IH1. simpl. done.
Qed.

(** An address is attributed to the right pod: after any snapshots of any
    clusters, [Lookup] gives the pod that the last snapshot of the cluster with
    that address had there (a running one before an ended one, then the newest),
    gone when a later snapshot no longer has the address, and only for times
    between its creation and its end, up to five seconds. *)
Theorem lookup_exact keep us cluster ip at_ :
  (0 ≤ keep)%Z →
  Lookup cluster ip at_ (index_run keep us)
  = match known_client keep ip (reverse (snapshots cluster us)) with
    | Some c => if in_time c at_ then Some c else None
    | None => None
    end
  ∧ ∀ pods now, is_best pods now ip (best_of pods now !! ip).
Proof.
  intros Hk. split; [|intros; apply best_of_best]. unfold Lookup. destruct (index_run_known keep us cluster ip Hk) as [_ ->]. done.
Qed.

(** ** Example *)

Definition a_pod (name phase : string) (created : Time) : snapshotPod :=
  {| p_Name := name; p_Namespace := "prod"; p_UID := name; p_CreationTimestamp := created;
     p_OwnerReferences := [{| o_Kind := "ReplicaSet"; o_Name := "web-5d9" |}]; p_ServiceAccountName := "default"; p_NodeName := "n1";
     p_HostNetwork := false; p_Images := ["nginx"]; p_Phase := phase; p_PodIP := "10.0.0.1"; p_Terminated := [] |}.
Definition two_snapshots : list update :=
  [{| u_cluster := "east"; u_snapshot := Some [a_pod "old" "Failed" (1 * Hour)%Z; a_pod "web" "Running" (1 * Hour)%Z]; u_now := (2 * Hour)%Z |};
   {| u_cluster := "west"; u_snapshot := Some []; u_now := (2 * Hour)%Z |};
   {| u_cluster := "east"; u_snapshot := Some []; u_now := (3 * Hour)%Z |}].

Lemma lookup_exact_witness :
  (C_Pod <$> Lookup "east" "10.0.0.1" (2 * Hour)%Z (index_run (24 * Hour)%Z two_snapshots)) = Some "web"
  ∧ Lookup "east" "10.0.0.1" (4 * Hour)%Z (index_run (24 * Hour)%Z two_snapshots) = None
  ∧ Lookup "east" "10.0.0.1" (2 * Hour)%Z (index_run (24 * Hour)%Z two_snapshots)
    = match known_client (24 * Hour)%Z "10.0.0.1" (reverse (snapshots "east" two_snapshots)) with
      | Some c => if in_time c (2 * Hour)%Z then Some c else None
      | None => None
      end.
Proof.
  split; [vm_compute; reflexivity|]. split; [vm_compute; reflexivity|].
  apply (lookup_exact (24 * Hour)%Z two_snapshots "east" "10.0.0.1" (2 * Hour)%Z). vm_compute. discriminate.
Defined.
