(* ===== verification/UiHub.v ===== *)
(** * kvisior/internal/hub: the console's event stream

    The hub keeps the last events, within a number and a size, and the latest
    snapshot of each cluster; a subscriber gets these and then every event that
    is published, as long as its queue has room. *)

From Stdlib Require Import Ascii.
From stdpp Require Import base list gmap strings.
From S2P Require Import Prelude GoStrings.
Local Open Scope string_scope.
Local Open Scope list_scope.
Local Open Scope go_scope.

Record Event := { Ev_Type : string; Ev_Cluster : string; Ev_Data : string }.

Definition maxClients : nat := 512.
Definition maxBufBytes : Z := (32 * 2 ^ 20)%Z.
Definition clientQueue : nat := 256.

Definition latestOnly (typ : string) : bool := any (String.eqb typ) ["sensor_snapshot"].
Definition size_of (e : Event) : Z := Z.of_nat (String.length (Ev_Data e)).

(** A subscriber: what is left to replay, its live queue, the event its goroutine
    holds, the queue of the response, and what was read from it. *)
Record Subscriber := { s_replay : list Event; s_live : list Event; s_held : option Event; s_out : list Event; s_read : list Event }.

Record Hub := { h_clients : gmap nat Subscriber; h_buf : list Event; h_bufBytes : Z; h_bufMax : nat; h_latest : gmap string Event }.
Definition New (bufMax : nat) : Hub := {| h_clients := ∅; h_buf := []; h_bufBytes := 0; h_bufMax := bufMax; h_latest := ∅ |}.

(** The loop that drops from the front. *)
Fixpoint trim (bufMax : nat) (bytes : Z) (buf : list Event) : list Event * Z :=
  match buf with
  | [] => ([], bytes)
  | e :: buf' => if (bufMax <? length buf)%nat || (maxBufBytes <? bytes)%Z then trim bufMax (bytes - size_of e)%Z buf' else (buf, bytes)
  end.

Definition offer (e : Event) (s : Subscriber) : Subscriber :=
  if (length (s_live s) <? clientQueue)%nat
  then {| s_replay := s_replay s; s_live := snoc (s_live s) e; s_held := s_held s; s_out := s_out s; s_read := s_read s |}
  else s.

Definition Publish (e : Event) (h : Hub) : Hub :=
  let '(buf, bytes) := trim (h_bufMax h) (h_bufBytes h + size_of e)%Z (snoc (h_buf h) e) in
  if latestOnly (Ev_Type e)
  then {| h_clients := offer e <$> h_clients h; h_buf := h_buf h; h_bufBytes := h_bufBytes h; h_bufMax := h_bufMax h;
          h_latest := <[Ev_Type e +:+ "/" +:+ Ev_Cluster e := e]> (h_latest h) |}
  else {| h_clients := offer e <$> h_clients h; h_buf := buf; h_bufBytes := bytes; h_bufMax := h_bufMax h; h_latest := h_latest h |}.

Section Subscribers.
  Context {O : MapOrder}.

Definition Latest (typ : string) (h : Hub) : list Event :=
  List.filter (λ e, Ev_Type e == typ) (map_order (map_to_list (h_latest h)).*2).

(** [None]: the hub is full. *)
Definition Subscribe (id : nat) (h : Hub) : option Hub :=
  if (maxClients <=? size (h_clients h))%nat then None
  else
    let snap := map_order (map_to_list (h_latest h)).*2 ++ h_buf h in
    Some {| h_clients := <[id := {| s_replay := snap; s_live := []; s_held := None; s_out := []; s_read := [] |}]> (h_clients h);
            h_buf := h_buf h; h_bufBytes := h_bufBytes h; h_bufMax := h_bufMax h; h_latest := h_latest h |}.
End Subscribers.

(** One step of the goroutine of a subscriber: it takes the next event, or hands
    over the one it holds. *)
Definition forward (s : Subscriber) : Subscriber :=
  match s_held s with
  | Some e => if (length (s_out s) <? clientQueue)%nat
              then {| s_replay := s_replay s; s_live := s_live s; s_held := None; s_out := snoc (s_out s) e; s_read := s_read s |}
              else s
  | None =>
      match s_replay s, s_live s with
      | e :: replay, _ => {| s_replay := replay; s_live := s_live s; s_held := Some e; s_out := s_out s; s_read := s_read s |}
      | [], e :: live => {| s_replay := []; s_live := live; s_held := Some e; s_out := s_out s; s_read := s_read s |}
      | [], [] => s
      end
  end.

(** The response reads its queue. *)
Definition read_one (s : Subscriber) : Subscriber :=
  match s_out s with
  | e :: out => {| s_replay := s_replay s; s_live := s_live s; s_held := s_held s; s_out := out; s_read := snoc (s_read s) e |}
  | [] => s
  end.

(** What the response writes for a request of cluster [want]. *)
Definition shown (want : string) (l : list Event) : list Event :=
  List.filter (λ e, negb ((want != "") && (want != "*") && (Ev_Cluster e != "") && (Ev_Cluster e != want))) l.

(** ** The buffer *)

Definition total (l : list Event) : Z := foldr (λ e n, size_of e + n)%Z 0%Z l.
Definition fits (bufMax : nat) (l : list Event) : bool := (length l <=? bufMax)%nat && (total l <=? maxBufBytes)%Z.

(** The longest end of a list that fits. *)
Fixpoint longest (bufMax : nat) (l : list Event) : list Event :=
  match l with
  | [] => []
  | e :: l' => if fits bufMax l then l else longest bufMax l'
  end.

Lemma size_nonneg e : (0 ≤ size_of e)%Z.
Proof. unfold size_of. lia. Qed.
Lemma total_nonneg l : (0 ≤ total l)%Z.
Proof. induction l as [|e l IH]; simpl; [lia|]. pose proof (size_nonneg e). unfold total in *. lia. Qed.
Lemma total_app a b : total (a ++ b) = (total a + total b)%Z.
Proof. induction a as [|e a IH]; simpl; [done|]. unfold total in *. lia. Qed.

Lemma trim_longest bufMax buf : trim bufMax (total buf) buf = (longest bufMax buf, total (longest bufMax buf)).
Proof.
  induction buf as [|e buf IH]; [done|]. cbn [trim longest]. unfold fits at 1.
  replace ((bufMax <? length (e :: buf))%nat || (maxBufBytes <? total (e :: buf))%Z)
    with (negb ((length (e :: buf) <=? bufMax)%nat && (total (e :: buf) <=? maxBufBytes)%Z)).
  2: { rewrite negb_andb, Nat.leb_antisym, Z.leb_antisym, !negb_involutive. done. }
  destruct (_ && _) eqn:E; simpl.
  - unfold fits. by rewrite E.
  - unfold fits. rewrite E. replace (size_of e + total buf - size_of e)%Z with (total buf) by lia. apply IH.
Qed.

Lemma fits_prefix bufMax l x : fits bufMax (l ++ [x]) = true → fits bufMax l = true.
Proof.
  unfold fits. rewrite length_app, total_app. simpl. intros H. bool_hyps. pose proof (size_nonneg x). apply andb_true_iff.
  split; [apply Nat.leb_le|apply Z.leb_le]; lia.
Qed.

(** Dropping as events come gives what dropping once at the end gives. *)
Lemma longest_snoc bufMax l x : longest bufMax (longest bufMax l ++ [x]) = longest bufMax (l ++ [x]).
Proof.
  induction l as [|e l IH]; [done|]. cbn [longest]. destruct (fits bufMax (e :: l)) eqn:E; [done|]. rewrite IH.
  cbn [app longest]. destruct (fits bufMax (e :: l ++ [x])) eqn:E2; [|done].
  change (e :: l ++ [x]) with ((e :: l) ++ [x]) in E2. apply fits_prefix in E2. congruence.
Qed.

(** ** Runs *)

Section Runs.
  Context {O : MapOrder}.

Inductive op := Pub (e : Event) | Sub (id : nat) | Forward (id : nat) | Read_ (id : nat) | Leave (id : nat).

Definition act (h : Hub) (o : op) : Hub :=
  match o with
  | Pub e => Publish e h
  | Sub id => match h_clients h !! id with Some _ => h | None => default h (Subscribe id h) end
  | Forward id => {| h_clients := alter forward id (h_clients h); h_buf := h_buf h; h_bufBytes := h_bufBytes h; h_bufMax := h_bufMax h;
                     h_latest := h_latest h |}
  | Read_ id => {| h_clients := alter read_one id (h_clients h); h_buf := h_buf h; h_bufBytes := h_bufBytes h; h_bufMax := h_bufMax h;
                   h_latest := h_latest h |}
  | Leave id => {| h_clients := delete id (h_clients h); h_buf := h_buf h; h_bufBytes := h_bufBytes h; h_bufMax := h_bufMax h;
                   h_latest := h_latest h |}
  end.
Definition hub_run (bufMax : nat) (ops : list op) : Hub := foldl act (New bufMax) ops.

Definition published (ops : list op) : list Event := omap (λ o, match o with Pub e => Some e | _ => None end) ops.
Definition buffered (ops : list op) : list Event := List.filter (λ e, negb (latestOnly (Ev_Type e))) (published ops).

Lemma published_app a b : published (a ++ b) = published a ++ published b.
Proof. apply omap_app. Qed.
Lemma buffered_snoc ops o : buffered (ops ++ [o]) = buffered ops ++ buffered [o].
Proof. unfold buffered. by rewrite published_app, List.filter_app. Qed.

Lemma hub_buffer bufMax ops :
  let h := hub_run bufMax ops in
  h_bufMax h = bufMax ∧ h_buf h = longest bufMax (buffered ops) ∧ h_bufBytes h = total (h_buf h).
Proof.
  cbv zeta. induction ops as [|o ops (IH1 & IH2 & IH3)] using rev_ind; [done|].
  unfold hub_run in *. rewrite foldl_app. simpl. set (h := foldl act (New bufMax) ops) in *. rewrite buffered_snoc.
  destruct o as [e|id|id|id|id]; simpl; unfold buffered at 2; simpl; rewrite ?app_nil_r; auto.
  - unfold Publish. destruct (latestOnly (Ev_Type e)) eqn:El; simpl.
    + destruct (trim _ _ _) as [buf bytes]. simpl. by rewrite app_nil_r.
    + replace (h_bufBytes h + size_of e)%Z with (total (snoc (h_buf h) e)) by (unfold snoc; rewrite total_app; simpl; lia).
      rewrite trim_longest. simpl. rewrite IH1. split_and!; [done| |done]. unfold snoc. rewrite IH2. apply longest_snoc.
  - destruct (h_clients h !! id); [done|]. unfold Subscribe. case_if; done.
Qed.

(** Everything a subscriber has or was given, in order. *)
Definition given (s : Subscriber) : list Event :=
  s_read s ++ s_out s ++ option_list (s_held s) ++ s_replay s ++ s_live s.

Lemma given_forward s : given (forward s) = given s.
Proof.
  unfold forward, given. destruct s as [rep live held out rd]. simpl. destruct held as [e|]; simpl.
  - case_if; simpl; unfold snoc; [by rewrite <- app_assoc|done].
  - destruct rep as [|e rep]; [destruct live as [|e live]|]; done.
Qed.
Lemma given_read s : given (read_one s) = given s.
Proof. unfold read_one, given. destruct s as [rep live held [|e out] rd]; simpl; [done|]. unfold snoc. by rewrite <- app_assoc. Qed.
Lemma given_offer e s : given (offer e s) = given s ++ (if (length (s_live s) <? clientQueue)%nat then [e] else []).
Proof.
  unfold offer, given. case_if; simpl; [|by rewrite app_nil_r]. unfold snoc. by rewrite !app_assoc.
Qed.

Definition client_of (h : Hub) (id : nat) : option Subscriber := h_clients h !! id.
Definition full (h : Hub) (id : nat) : Prop := ∃ s, client_of h id = Some s ∧ (clientQueue ≤ length (s_live s))%nat.

(** Other clients do not matter to one, and its own steps keep what it was given. *)
Lemma act_client h o id s :
  client_of h id = Some s → o ≠ Leave id →
  ∃ s', client_of (act h o) id = Some s'
    ∧ given s' = given s ++ match o with Pub e => if (length (s_live s) <? clientQueue)%nat then [e] else [] | _ => [] end.
Proof.
  unfold client_of. intros Hs Ho. destruct o as [e|id'|id'|id'|id']; simpl.
  - exists (offer e s). split; [|apply given_offer]. unfold Publish. destruct (trim _ _ _). case_if; simpl; by rewrite lookup_fmap, Hs.
  - exists s. rewrite app_nil_r. split; [|done]. destruct (h_clients h !! id') eqn:E; [done|]. unfold Subscribe. case_if; simpl; [done|].
    rewrite lookup_insert_ne; [done|congruence].
  - destruct (decide (id' = id)) as [->|Hne].
    + exists (forward s). rewrite lookup_alter_eq, Hs. by rewrite given_forward, app_nil_r.
    + exists s. rewrite lookup_alter_ne, app_nil_r; auto.
  - destruct (decide (id' = id)) as [->|Hne].
    + exists (read_one s). rewrite lookup_alter_eq, Hs. by rewrite given_read, app_nil_r.
    + exists s. rewrite lookup_alter_ne, app_nil_r; auto.
  - exists s. rewrite lookup_delete_ne, app_nil_r; [done|congruence].
Qed.

Lemma run_client h id s ops :
  client_of h id = Some s → Leave id ∉ ops →
  ∃ s' kept, client_of (foldl act h ops) id = Some s' ∧ given s' = given s ++ kept ∧ kept `sublist_of` published ops
    ∧ (kept = published ops ∨ ∃ before after, ops = before ++ after ∧ full (foldl act h before) id).
Proof.
  intros Hs. induction ops as [|o ops IH] using rev_ind; intros Hl.
  - exists s, []. rewrite app_nil_r. split_and!; try done. by left.
  - destruct IH as (s1 & kept & H1 & H2 & H3 & H4); [set_solver|]. rewrite foldl_app, published_app. simpl.
    destruct (act_client (foldl act h ops) o id s1) as (s2 & H5 & H6); [done|set_solver|].
    set (more := match o with Pub e => if (length (s_live s1) <? clientQueue)%nat then [e] else [] | _ => [] end) in *.
    assert (more = published [o] ∨ full (foldl act h ops) id ∧ more = []) as Hm.
    { unfold more. destruct o as [e| | | |]; [|by left..]. case_if; [by left|right]. split; [|done]. by exists s1. }
    exists s2, (kept ++ more). split_and!; [done|by rewrite H6, H2, app_assoc| |].
    + apply sublist_app; [done|]. destruct Hm as [->|[_ ->]]; [done|apply sublist_nil_l].
    + destruct H4 as [->|(b & a & -> & Hb)].
      * destruct Hm as [->|[Hf _]]; [by left|]. right. by exists ops, [o].
      * right. exists b, (a ++ [o]). by rewrite app_assoc.
Qed.

(** C21: a subscriber of the console's stream sees the past and the present without
    a seam: whatever others do, it is given the latest snapshots, then exactly the
    longest end of the past events that fits the limits, then the events published
    since, in order and each once; none is missing unless its queue was full. *)
Theorem replay_then_live bufMax past id ops :
  client_of (hub_run bufMax past) id = None → (size (h_clients (hub_run bufMax past)) < maxClients)%nat → Leave id ∉ ops →
  ∃ s kept, client_of (hub_run bufMax (past ++ Sub id :: ops)) id = Some s
    ∧ given s = map_order (map_to_list (h_latest (hub_run bufMax past))).*2 ++ longest bufMax (buffered past) ++ kept
    ∧ kept `sublist_of` published ops
    ∧ (kept = published ops ∨ ∃ before after, ops = before ++ after ∧ full (hub_run bufMax (past ++ Sub id :: before)) id).
Proof.
  intros Hn Hsz Hl. destruct (hub_buffer bufMax past) as (_ & Hbuf & _). unfold hub_run in *. rewrite foldl_app. simpl.
  set (h := foldl act (New bufMax) past) in *. unfold client_of in Hn. rewrite Hn.
  assert (∃ h' s, Subscribe id h = Some h' ∧ client_of h' id = Some s
            ∧ given s = map_order (map_to_list (h_latest h)).*2 ++ longest bufMax (buffered past)) as (h' & s & Hsub & Hs & Hg).
  { unfold Subscribe. case_if; [lia|]. eexists _, _. split; [done|]. unfold client_of. simpl. rewrite lookup_insert_eq. split; [done|].
    unfold given. simpl. by rewrite app_nil_r, Hbuf. }
  rewrite Hsub. simpl. destruct (run_client h' id s ops Hs Hl) as (s' & kept & H1 & H2 & H3 & H4). exists s', kept.
  split_and!; [done|by rewrite H2, Hg, <- app_assoc|done|]. destruct H4 as [->|(b & a & E & Hf)]; [by left|right]. exists b, a.
  split; [done|]. rewrite foldl_app. simpl. fold h. by rewrite Hn, Hsub.
Qed.
End Runs.

(** ** Example *)

Definition note (typ data : string) : Event := {| Ev_Type := typ; Ev_Cluster := "east"; Ev_Data := data |}.
Definition past_ops : list op := [Pub (note "violation" "a"); Pub (note "sensor_snapshot" "s"); Pub (note "violation" "b"); Pub (note "violation" "c")].
Definition live_ops : list op := [Forward 7; Pub (note "violation" "d"); Forward 7; Read_ 7].

Lemma replay_then_live_witness :
  map Ev_Data (longest 2 (buffered past_ops)) = ["b"; "c"]
  ∧ ∃ s kept, client_of (hub_run (O := keep_order) 2 (past_ops ++ Sub 7 :: live_ops)) 7 = Some s
    ∧ given s = map_order (MapOrder := keep_order) (map_to_list (h_latest (hub_run (O := keep_order) 2 past_ops))).*2
                ++ longest 2 (buffered past_ops) ++ kept
    ∧ kept `sublist_of` published live_ops
    ∧ (kept = published live_ops ∨ ∃ before after, live_ops = before ++ after ∧ full (hub_run (O := keep_order) 2 (past_ops ++ Sub 7 :: before)) 7).
Proof.
  split; [vm_compute; reflexivity|]. apply (replay_then_live (O := keep_order) 2 past_ops 7 live_ops).
  - vm_compute. reflexivity.
  - apply Nat.ltb_lt. vm_compute. reflexivity.
  - intros H. apply list_elem_of_In in H. simpl in H. by destruct H as [H|[H|[H|[H|H]]]].
Defined.
