(* ===== verification/HubPush.v ===== *)
(** * Events pushed to the hub (kvisior/internal/push, grpcserver)

    [HandleEvents] and [PushEvents] match pushed events against the rules and
    store the violations before they answer; [HandleHoneypotEvents] stores the
    hits of honeypots with the pod they came from, and [resolveLater] looks for
    the pod again when it was not known yet (push/clientqueue.go). *)

From Stdlib Require Import Ascii.
From stdpp Require Import base list gmap strings.
From S2P Require Import Prelude GoStrings GoValue RuleMatcher Violations WatchRing HubConsumer HubConsumerProps PodIndex.
Local Open Scope string_scope.
Local Open Scope list_scope.
Local Open Scope go_scope.

(** ** One write of a request *)

(** No slot became free in time, or the statement ran, perhaps into its timeout. *)
Inductive slot := NoSlot | Write (e : ending) (timedOut : bool).

(** [Some] is the status of a failure. *)
Definition syncWrite {S_ : Type} (store : bool) (w : slot) (fn : ending → S_ → S_ * bool) (s : S_) : S_ * option Z :=
  if negb store then (s, Some 503%Z)
  else match w with
       | NoSlot => (s, Some 503%Z)
       | Write e timedOut => let '(s', ok) := fn e s in (s', if ok then None else Some (if timedOut then 503%Z else 500%Z))
       end.

(** [syncWrite] of grpcserver: without a database there is nothing to do. *)
Definition syncWriteStream {S_ : Type} (store : bool) (w : slot) (fn : ending → S_ → S_ * bool) (s : S_) : S_ * bool :=
  if negb store then (s, true)
  else match w with NoSlot => (s, false) | Write e _ => fn e s end.

Section Events.
  Context {T : CaseTables} {F : FloatText}.
  Context (Unmarshal : string → option (list (string * value))) (sha12 : string → string) (cluster : string).

(** The violations and what was published, and the events that went to the live
    stream. *)
Record PushState := { q_sink : Sink; q_live : list string }.

(** [write]: how a violation is written; [None]: written. *)
Section Loop.
  Context {R : Type} (write : slot → StoredWrite (D := string) → HubDB → HubDB * option R).

Fixpoint push_matches (slots : nat → slot) (i : nat) (raw ns pod : string) (l : list Violation) (s : Sink) : Sink * option R :=
  match l with
  | [] => (s, None)
  | v :: l' =>
      let w := violation_of sha12 cluster raw ns pod v in
      match write (slots i) w (k_db s) with
      | (db, Some r) => (with_db s db, Some r)
      | (db, None) =>
          push_matches slots (S i) raw ns pod l'
            {| k_db := db; k_published := snoc (k_published s) (sysViol v (vw_Fingerprint w)); k_malformed := k_malformed s |}
      end
  end.

(** [slots n i]: what write [i] of event [n] meets. *)
Fixpoint push_events (mt : Matcher) (slots : nat → nat → slot) (n : nat) (raws : list string) (s : PushState) : PushState * option R :=
  match raws with
  | [] => (s, None)
  | raw :: raws' =>
      match Unmarshal raw with
      | None => push_events mt slots (S n) raws' s
      | Some ev =>
          let live := if AllowsLiveStream mt (as_string (vlookup ev "syscall")) then snoc (q_live s) raw else q_live s in
          match push_matches (slots n) 0 raw (as_string (vlookup ev "namespace")) (as_string (vlookup ev "pod")) (Match mt ev) (q_sink s) with
          | (sink, Some r) => ({| q_sink := sink; q_live := live |}, Some r)
          | (sink, None) => push_events mt slots (S n) raws' {| q_sink := sink; q_live := live |}
          end
      end
  end.
End Loop.

Definition write_http (store : bool) (now : Time) (w : slot) (v : StoredWrite (D := string)) (db : HubDB) : HubDB * option Z :=
  syncWrite store w (WriteViolationChecked cluster v now) db.
Definition write_stream (store : bool) (now : Time) (w : slot) (v : StoredWrite (D := string)) (db : HubDB) : HubDB * option unit :=
  let '(db', ok) := syncWriteStream store w (WriteViolationChecked cluster v now) db in (db', if ok then None else Some tt).

(** [None]: the body cannot be read. *)
Definition HandleEvents (method : string) (body : option (list string)) (store : bool) (mt : Matcher) (slots : nat → nat → slot) (now : Time)
    (s : PushState) : PushState * Z :=
  if method != "POST" then (s, 405%Z)
  else match body with
       | None => (s, 400%Z)
       | Some raws => match push_events (write_http store now) mt slots 0 raws s with
                      | (s', Some status) => (s', status)
                      | (s', None) => (s', 204%Z)
                      end
       end.

(** The requests of a stream; [Some]: the number of accepted events at its end. *)
Fixpoint PushEvents (store : bool) (mt : Matcher) (slots : nat → nat → slot) (now : Time) (accepted : nat) (reqs : list (list string)) (s : PushState)
  : PushState * option nat :=
  match reqs with
  | [] => (s, Some accepted)
  | raws :: reqs' =>
      match push_events (write_stream store now) mt slots accepted raws s with
      | (s', Some _) => (s', None)
      | (s', None) => PushEvents store mt slots now (accepted + length raws) reqs' s'
      end
  end.
End Events.

(** ** Who may call what (grpcserver) *)

Definition allowedCallers (method : string) : option string :=
  if method == "/wolfeewatcher.PushService/PushEvents" then Some "tracee-bridge"
  else if method == "/wolfeewatcher.PushService/PushAuditEvents" then Some "sentry-audit"
  else if method == "/wolfeewatcher.PushService/PushSensorSnapshot" then Some "sensor"
  else if method == "/wolfeewatcher.PushService/PushAnomalyEvents" then Some "anomaly-detector"
  else None.

Inductive verdict := Allowed | Denied | Unauthenticated.

(** [caller]: the common name of the client certificate. *)
Definition authorize (peer : bool) (caller : option string) (method : string) : verdict :=
  match allowedCallers method with
  | None => Denied
  | Some want =>
      if negb peer then Unauthenticated
      else match caller with
           | None => Unauthenticated
           | Some cn => if cn != want then Denied else Allowed
           end
  end.

(** ** Honeypots *)

Record honeypotEvent := {
  h_ID : string; h_HoneypotID : string; h_HoneypotName : string; h_Namespace : string; h_Kind : string; h_Service : string; h_Pod : string;
  h_Timestamp : string; h_Server : string; h_SrcIP : string; h_SrcPort : string; h_DestIP : string; h_DestPort : string; h_Action : string;
  h_Status : string; h_Data : string; h_Username : string; h_Password : string; h_ClientSnapshot : option Client;
}.

Definition enrich (id : string) (c : option Client) (ev : honeypotEvent) : honeypotEvent :=
  {| h_ID := id; h_HoneypotID := h_HoneypotID ev; h_HoneypotName := h_HoneypotName ev; h_Namespace := h_Namespace ev; h_Kind := h_Kind ev;
     h_Service := h_Service ev; h_Pod := h_Pod ev; h_Timestamp := h_Timestamp ev; h_Server := h_Server ev; h_SrcIP := h_SrcIP ev;
     h_SrcPort := h_SrcPort ev; h_DestIP := h_DestIP ev; h_DestPort := h_DestPort ev; h_Action := h_Action ev; h_Status := h_Status ev;
     h_Data := h_Data ev; h_Username := h_Username ev; h_Password := h_Password ev; h_ClientSnapshot := c |}.

Definition clientRetryAfter : Duration := (75 * Second)%Z.
Definition clientRetryTries : nat := 3.
Definition clientQueueCap : nat := 2048.

Record pendingClient := {
  pc_cluster : string; pc_ns : string; pc_honeypot : string; pc_id : string; pc_ip : string; pc_at : Time; pc_next : Time; pc_tries : nat;
}.
Definition retry_at (next : Time) (tries : nat) (p : pendingClient) : pendingClient :=
  {| pc_cluster := pc_cluster p; pc_ns := pc_ns p; pc_honeypot := pc_honeypot p; pc_id := pc_id p; pc_ip := pc_ip p; pc_at := pc_at p;
     pc_next := next; pc_tries := tries |}.

Definition queue_add (p : pendingClient) (items : list pendingClient) : list pendingClient :=
  let items := if (clientQueueCap <=? length items)%nat then drop 1 items else items in
  snoc items (retry_at (TAdd (pc_at p) clientRetryAfter) (pc_tries p) p).

(** What is due, and what stays. *)
Definition queue_due (now : Time) (items : list pendingClient) : list pendingClient * list pendingClient :=
  (List.filter (λ p, negb (Before now (pc_next p))) items, List.filter (λ p, Before now (pc_next p)) items).

Abbreviation HoneypotTable := (gmap (string * string * string * string) honeypotEvent).

Definition WriteHoneypotEvent (cluster : string) (ev : honeypotEvent) (e : ending) (db : HoneypotTable) : HoneypotTable * bool :=
  let key := (cluster, h_Namespace ev, h_HoneypotName ev, h_ID ev) in
  (if applied e then match db !! key with Some _ => db | None => <[key := ev]> db end else db, heard e).

(** One statement takes the row out and puts it back with the client, unless it
    has one. *)
Definition AttachHoneypotClient (key : string * string * string * string) (c : Client) (e : ending) (db : HoneypotTable) : HoneypotTable :=
  if applied e then
    alter (λ ev, match h_ClientSnapshot ev with Some _ => ev | None => enrich (h_ID ev) (Some c) ev end) key db
  else db.

Record HoneypotState := {
  z_db : HoneypotTable; z_pending : option (list pendingClient); z_pods : option Index; z_published : list (string * honeypotEvent);
}.

Section Honeypots.
  Context (UnmarshalHoneypot : string → option honeypotEvent) (sha : string → string) (hub_mode : bool) (local : string).

Definition unit_sep : string := String "031" "".
Definition honeypotEventID (ev : honeypotEvent) : string :=
  sha (Join [h_Timestamp ev; h_Server ev; h_SrcIP ev; h_SrcPort ev; h_DestIP ev; h_DestPort ev; h_Action ev; h_Status ev; h_Data ev;
             h_Username ev; h_Password ev] unit_sep).

Definition resolveClient (pods : option Index) (cluster ip : string) (at_ : Time) : option Client :=
  match pods with
  | None => None
  | Some x =>
      if ip == "" then None
      else match Lookup cluster ip at_ x with
           | Some c => Some c
           | None => if negb hub_mode && (cluster != local) then Lookup local ip at_ x else None
           end
  end.

(** The event as it is stored and published. *)
Definition enriched (cluster : string) (pods : option Index) (now : Time) (ev : honeypotEvent) : honeypotEvent :=
  enrich (honeypotEventID ev) (resolveClient pods cluster (h_SrcIP ev) now) ev.

Definition stored (ev : honeypotEvent) : bool := (h_HoneypotName ev != "") && (h_Namespace ev != "").

Definition wait_for (cluster : string) (now : Time) (ev : honeypotEvent) (pending : option (list pendingClient)) : option (list pendingClient) :=
  match h_ClientSnapshot ev, pending with
  | None, Some items =>
      if h_SrcIP ev != "" then
        Some (queue_add {| pc_cluster := cluster; pc_ns := h_Namespace ev; pc_honeypot := h_HoneypotName ev; pc_id := h_ID ev; pc_ip := h_SrcIP ev;
                           pc_at := now; pc_next := 0%Z; pc_tries := 0 |} items)
      else pending
  | _, _ => pending
  end.

Fixpoint honeypot_events (cluster : string) (store : bool) (slots : nat → slot) (now : Time) (n : nat) (raws : list string) (s : HoneypotState)
  : HoneypotState * option Z :=
  match raws with
  | [] => (s, None)
  | raw :: raws' =>
      match UnmarshalHoneypot raw with
      | None => honeypot_events cluster store slots now (S n) raws' s
      | Some ev =>
          let ev := enriched cluster (z_pods s) now ev in
          let '(db, failed) := if stored ev then syncWrite store (slots n) (WriteHoneypotEvent cluster ev) (z_db s) else (z_db s, None) in
          match failed with
          | Some status => ({| z_db := db; z_pending := z_pending s; z_pods := z_pods s; z_published := z_published s |}, Some status)
          | None =>
              honeypot_events cluster store slots now (S n) raws'
                {| z_db := db; z_pending := if stored ev then wait_for cluster now ev (z_pending s) else z_pending s; z_pods := z_pods s;
                   z_published := snoc (z_published s) (cluster, ev) |}
          end
      end
  end.

Definition HandleHoneypotEvents (method : string) (body : option (list string)) (cluster : string) (store : bool) (slots : nat → slot) (now : Time)
    (s : HoneypotState) : HoneypotState * Z :=
  if method != "POST" then (s, 405%Z)
  else match body with
       | None => (s, 400%Z)
       | Some raws => match honeypot_events cluster store slots now 0 raws s with
                      | (s', Some status) => (s', status)
                      | (s', None) => (s', 204%Z)
                      end
       end.

(** One entry that is due: the table, and what goes back into the queue. *)
Definition resolve_one (pods : option Index) (now : Time) (e : ending) (p : pendingClient) (db : HoneypotTable)
  : HoneypotTable * option pendingClient :=
  match resolveClient pods (pc_cluster p) (pc_ip p) (pc_at p) with
  | None => (db, if (S (pc_tries p) <? clientRetryTries)%nat then Some (retry_at (TAdd now clientRetryAfter) (S (pc_tries p)) p) else None)
  | Some c => (AttachHoneypotClient (pc_cluster p, pc_ns p, pc_honeypot p, pc_id p) c e db, None)
  end.

Fixpoint resolve_all (pods : option Index) (now : Time) (ends : nat → ending) (n : nat) (l : list pendingClient) (db : HoneypotTable)
    (items : list pendingClient) : HoneypotTable * list pendingClient :=
  match l with
  | [] => (db, items)
  | p :: l' =>
      let '(db', again) := resolve_one pods now (ends n) p db in
      resolve_all pods now ends (S n) l' db' (items ++ option_list again)
  end.

(** One tick of [resolveLater]. *)
Definition resolveLater (now : Time) (ends : nat → ending) (s : HoneypotState) : HoneypotState :=
  match z_pending s with
  | None => s
  | Some items =>
      let '(due, keep) := queue_due now items in
      let '(db, items') := resolve_all (z_pods s) now ends 0 due (z_db s) keep in
      {| z_db := db; z_pending := Some items'; z_pods := z_pods s; z_published := z_published s |}
  end.
End Honeypots.

(** * What the hub acknowledges it has stored *)



Section Events.
  Context {T : CaseTables} {F : FloatText}.
  Context (Unmarshal : string → option (list (string * value))) (sha12 : string → string) (cluster : string).

(** A way to write that keeps rows and, when it reports no failure, has written. *)
Record good_write {R} (write : slot → StoredWrite (D := string) → HubDB → HubDB * option R) : Prop := {
  gw_le : ∀ w v db, db_le db (write w v db).1;
  gw_has : ∀ w v db db', write w v db = (db', None) → is_Some (hub_violations db' !! (cluster, vw_Fingerprint v));
}.

Lemma write_http_good now : good_write (write_http cluster true now).
Proof.
  constructor.
  - intros [|e t] v db; unfold write_http, syncWrite; simpl; [reflexivity|]. apply (write_violation_le cluster v now e db).
  - intros [|e t] v db db'; unfold write_http, syncWrite; [done|]. cbv iota beta. destruct (WriteViolationChecked _ _ _ _ _) as [d ok] eqn:E.
    destruct ok; intros [= <-]. by eapply write_violation_has.
Qed.

Lemma write_stream_good now : good_write (write_stream cluster true now).
Proof.
  constructor.
  - intros [|e t] v db; unfold write_stream, syncWriteStream; simpl; [reflexivity|]. apply (write_violation_le cluster v now e db).
  - intros [|e t] v db db'; unfold write_stream, syncWriteStream; [done|]. cbv iota beta. destruct (WriteViolationChecked _ _ _ _ _) as [d ok] eqn:E.
    destruct ok; intros [= <-]. by eapply write_violation_has.
Qed.

Section Loop.
  Context {R : Type} (write : slot → StoredWrite (D := string) → HubDB → HubDB * option R) (Hw : good_write write).

Lemma push_matches_spec slots i raw ns pod l s s' res :
  push_matches sha12 cluster write slots i raw ns pod l s = (s', res) →
  sink_le s s' ∧ (res = None → recorded sha12 cluster s' raw ns pod l).
Proof.
  revert i s. induction l as [|v l IH]; intros i s H; simpl in H.
  - simplify_eq. split; [done|]. by intros _ v ?%not_elem_of_nil.
  - destruct (write _ _ _) as [db r] eqn:Ew. pose proof (gw_le _ Hw (slots i) (violation_of sha12 cluster raw ns pod v) (k_db s)) as Hle.
    rewrite Ew in Hle. simpl in Hle. destruct r as [r|]; [simplify_eq; split; [by constructor|done]|].
    apply (gw_has _ Hw) in Ew. apply IH in H as [Hle' Hrec].
    assert (sink_le s {| k_db := db; k_published := snoc (k_published s) (v, Fingerprint sha12 cluster (V_RuleID v) ns pod);
                         k_malformed := k_malformed s |}) as Hs.
    { constructor; [done|]. simpl. unfold snoc. set_solver. }
    split; [by etrans|]. intros Hok x [->|Hx]%elem_of_cons; [|by apply (Hrec Hok)]. split.
    + destruct Hle' as [[H1 _] _]. apply H1. done.
    + destruct Hle' as [_ H2]. apply H2. simpl. unfold snoc. set_solver.
Qed.

(** The violations of an event are stored and were published. *)
Definition settled (mt : Matcher) (s : Sink) (raw : string) : Prop :=
  ∀ ev, Unmarshal raw = Some ev →
    recorded sha12 cluster s raw (as_string (vlookup ev "namespace")) (as_string (vlookup ev "pod")) (Match mt ev).

Lemma push_events_spec mt slots n raws s s' res :
  push_events Unmarshal sha12 cluster write mt slots n raws s = (s', res) →
  sink_le (q_sink s) (q_sink s') ∧ (res = None → ∀ raw, raw ∈ raws → settled mt (q_sink s') raw).
Proof.
  revert n s. induction raws as [|raw raws IH]; intros n s H; simpl in H.
  - simplify_eq. split; [done|]. by intros _ raw ?%not_elem_of_nil.
  - destruct (Unmarshal raw) as [ev|] eqn:Eu.
    + destruct (push_matches _ _ _ _ _ _ _ _ _ _) as [sink r] eqn:Em. apply push_matches_spec in Em as [Hle Hrec].
      destruct r as [r|]; [by simplify_eq|]. apply IH in H as [Hle' Hall]. simpl in Hle'. split; [by etrans|].
      intros Hr y [->|Hy]%elem_of_cons; [|by apply Hall]. intros ev' Hev'. simplify_eq. eapply recorded_le; [done|auto].
    + apply IH in H as [Hle Hall]. split; [done|]. intros Hr y [->|Hy]%elem_of_cons; [|by apply Hall]. intros ev' Hev'. congruence.
Qed.

(** A failure is one of a write. *)
Lemma push_events_failed (P : R → Prop) mt slots n raws s s' r :
  (∀ w v db db' r, write w v db = (db', Some r) → P r) →
  push_events Unmarshal sha12 cluster write mt slots n raws s = (s', Some r) → P r.
Proof.
  intros HP. assert (∀ sl i raw ns pod l s s' r, push_matches sha12 cluster write sl i raw ns pod l s = (s', Some r) → P r) as Hm.
  { intros sl i raw ns pod l. revert i. induction l as [|v l IH]; intros i t t' q H; simpl in H; [done|].
    destruct (write _ _ _) as [db [q'|]] eqn:Ew; [|by apply IH in H]. simplify_eq. by eapply HP. }
  revert n s. induction raws as [|raw raws IH]; intros n s H; simpl in H; [done|]. destruct (Unmarshal raw); [|by apply IH in H].
  destruct (push_matches _ _ _ _ _ _ _ _ _ _) as [sink [q|]] eqn:Em; [simplify_eq; by eapply Hm|by apply IH in H].
Qed.
End Loop.

Lemma PushEvents_spec mt slots now accepted reqs s s' n :
  PushEvents Unmarshal sha12 cluster true mt slots now accepted reqs s = (s', n) →
  sink_le (q_sink s) (q_sink s')
  ∧ ∀ k, n = Some k → k = (accepted + length (concat reqs))%nat ∧ ∀ raw, raw ∈ concat reqs → settled mt (q_sink s') raw.
Proof.
  revert accepted s. induction reqs as [|raws reqs IH]; intros accepted s H; simpl in H.
  - simplify_eq. split; [done|]. intros k [= <-]. simpl. split; [lia|]. by intros raw ?%not_elem_of_nil.
  - destruct (push_events _ _ _ _ _ _ _ _ _) as [s1 r] eqn:Ep. apply push_events_spec in Ep as [Hle Hall]; [|apply write_stream_good].
    destruct r as [r|]; [by simplify_eq|]. apply IH in H as [Hle' Hk]. split; [by etrans|]. intros k ->. destruct (Hk k eq_refl) as [-> Hset].
    simpl. rewrite length_app. split; [lia|]. intros raw [Hr|Hr]%elem_of_app; [|by apply Hset].
    intros ev Hev. eapply recorded_le; [done|]. by apply Hall.
Qed.

(** C22: what the hub acknowledges it has stored: when it answers a push of events
    with 204, then for every event of it and every rule in force that the event
    matches, the violation is stored and was published. *)
Theorem acknowledged_stored mt slots now raws s s' :
  HandleEvents Unmarshal sha12 cluster "POST" (Some raws) true mt slots now s = (s', 204%Z) →
  ∀ raw, raw ∈ raws → settled mt (q_sink s') raw.
Proof.
  unfold HandleEvents. simpl. destruct (push_events _ _ _ _ _ _ _ _ _) as [s1 r] eqn:Ep.
  pose proof (push_events_failed (write_http cluster true now) (λ st, st ≠ 204%Z) mt slots 0 raws s) as Hf.
  pose proof Ep as Ep'. apply push_events_spec in Ep' as [_ Hall]; [|apply write_http_good]. destruct r as [st|]; [intros [= -> ->]|intros [= ->]; by apply Hall].
  exfalso. apply (Hf s' 204%Z) in Ep; [done|]. intros [|e t] v db db' q; unfold write_http, syncWrite; simpl; [by intros [= _ <-]|].
  destruct (heard e); [done|]. by destruct t; intros [= _ <-].
Qed.
End Events.

(** ** Honeypots *)

Abbreviation row_id := (string * string * string * string)%type.

Section Honeypots.
  Context (UnmarshalHoneypot : string → option honeypotEvent) (sha : string → string) (hub_mode : bool) (local : string).

Definition key_of (cluster : string) (ev : honeypotEvent) : row_id := (cluster, h_Namespace ev, h_HoneypotName ev, honeypotEventID sha ev).

(** What happens: a push, a tick, and a new index. *)
Inductive hop :=
| Push (cluster : string) (raws : list string) (store : bool) (slots : nat → slot) (now : Time)
| Tick (now : Time) (ends : nat → ending)
| Index_ (x : option Index).

(** [g_acked]: the events of pushes answered with 204; [g_pushed]: the events of
    all pushes with the index of the moment. *)
Record Ghost := { g_state : HoneypotState; g_acked : list (string * honeypotEvent); g_pushed : list (string * honeypotEvent); g_indexes : list (option Index) }.

Definition decoded (raws : list string) : list honeypotEvent := omap UnmarshalHoneypot raws.

Definition hstep (g : Ghost) (o : hop) : Ghost :=
  match o with
  | Push cluster raws store slots now =>
      let '(s', status) := HandleHoneypotEvents UnmarshalHoneypot sha hub_mode local "POST" (Some raws) cluster store slots now (g_state g) in
      let evs := map (pair cluster) (decoded raws) in
      {| g_state := s'; g_acked := if (status =? 204)%Z then g_acked g ++ evs else g_acked g; g_pushed := g_pushed g ++ evs;
         g_indexes := g_indexes g |}
  | Tick now ends => {| g_state := resolveLater hub_mode local now ends (g_state g); g_acked := g_acked g; g_pushed := g_pushed g;
                        g_indexes := g_indexes g |}
  | Index_ x => {| g_state := {| z_db := z_db (g_state g); z_pending := z_pending (g_state g); z_pods := x; z_published := z_published (g_state g) |};
                   g_acked := g_acked g; g_pushed := g_pushed g; g_indexes := snoc (g_indexes g) x |}
  end.

Definition hstart : Ghost :=
  {| g_state := {| z_db := ∅; z_pending := Some []; z_pods := None; z_published := [] |}; g_acked := []; g_pushed := []; g_indexes := [None] |}.

(** [c] is what an index of the run gave for the source of a pushed event of the
    key. *)
Definition traced (pushed : list (string * honeypotEvent)) (indexes : list (option Index)) (k : row_id) (c : Client) : Prop :=
  ∃ cluster ev x at_, (cluster, ev) ∈ pushed ∧ key_of cluster ev = k ∧ x ∈ indexes
    ∧ resolveClient hub_mode local x cluster (h_SrcIP ev) at_ = Some c.

Definition waiting (pushed : list (string * honeypotEvent)) (p : pendingClient) : Prop :=
  ∃ ev, (pc_cluster p, ev) ∈ pushed ∧ key_of (pc_cluster p) ev = (pc_cluster p, pc_ns p, pc_honeypot p, pc_id p) ∧ pc_ip p = h_SrcIP ev
        ∧ (pc_tries p < clientRetryTries)%nat.

Definition rows_ok (pushed : list (string * honeypotEvent)) (indexes : list (option Index)) (db : HoneypotTable) : Prop :=
  ∀ k row c, db !! k = Some row → h_ClientSnapshot row = Some c → traced pushed indexes k c.

(** Rows stay, and so do their clients. *)
Definition table_le (a b : HoneypotTable) : Prop :=
  ∀ k row, a !! k = Some row → ∃ row', b !! k = Some row' ∧ (h_ClientSnapshot row ≠ None → row' = row).
#[local] Instance table_le_preorder : PreOrder table_le.
Proof.
  split; [by intros a k row H; exists row|]. intros a b c H1 H2 k row H. destruct (H1 k row H) as (r1 & E1 & K1). destruct (H2 k r1 E1) as (r2 & E2 & K2).
  exists r2. split; [done|]. intros Hn. rewrite <- (K1 Hn). apply K2. by rewrite (K1 Hn).
Qed.

Lemma traced_mono p p' i i' k c : (∀ x, x ∈ p → x ∈ p') → (∀ x, x ∈ i → x ∈ i') → traced p i k c → traced p' i' k c.
Proof. intros Hp Hi (cl & ev & x & at_ & H1 & H2 & H3 & H4). exists cl, ev, x, at_. auto. Qed.

Lemma write_honeypot_ok pushed indexes cluster pods now ev e db :
  (cluster, ev) ∈ pushed → pods ∈ indexes → rows_ok pushed indexes db →
  let ev' := enriched sha hub_mode local cluster pods now ev in
  let db' := (WriteHoneypotEvent cluster ev' e db).1 in
  rows_ok pushed indexes db' ∧ table_le db db' ∧ (heard e = true → is_Some (db' !! key_of cluster ev)).
Proof.
  intros Hin Hpods Hok. cbv zeta. unfold WriteHoneypotEvent. simpl.
  change (cluster, h_Namespace ev, h_HoneypotName ev, honeypotEventID sha ev) with (key_of cluster ev).
  destruct (applied e) eqn:Ea; [|split_and!; [done|reflexivity|by destruct e]].
  destruct (db !! key_of cluster ev) as [row|] eqn:Er; [split_and!; [done|reflexivity|rewrite Er; eauto]|]. split_and!.
  - intros k row c Hk Hc. destruct (decide (key_of cluster ev = k)) as [<-|Hne]; [|rewrite lookup_insert_ne in Hk by done; by eapply Hok].
    rewrite lookup_insert_eq in Hk. injection Hk as <-. exists cluster, ev, pods, now. split_and!; [done..|]. exact Hc.
  - intros k row Hk. exists row. split; [|done]. rewrite lookup_insert_ne; [done|congruence].
  - intros _. rewrite lookup_insert_eq. eauto.
Qed.

Lemma attach_ok pushed indexes k c e db :
  traced pushed indexes k c → rows_ok pushed indexes db →
  rows_ok pushed indexes (AttachHoneypotClient k c e db) ∧ table_le db (AttachHoneypotClient k c e db).
Proof.
  intros Ht Hok. unfold AttachHoneypotClient. destruct (applied e); [|by split]. split.
  - intros k' row' c' Hk Hc. destruct (decide (k = k')) as [<-|Hne]; [|rewrite lookup_alter_ne in Hk by done; by eapply Hok].
    rewrite lookup_alter_eq in Hk. destruct (db !! k) as [row|] eqn:Er; simplify_eq/=.
    destruct (h_ClientSnapshot row) as [c0|] eqn:Ec; [by eapply Hok|]. simpl in Hc. by simplify_eq.
  - intros k' row Hk. destruct (decide (k = k')) as [<-|Hne]; [|rewrite lookup_alter_ne by done; by exists row].
    rewrite lookup_alter_eq, Hk. simpl. eexists. split; [done|]. intros Hn. by destruct (h_ClientSnapshot row).
Qed.

Lemma queue_add_waiting pushed p items :
  waiting pushed p → Forall (waiting pushed) items → Forall (waiting pushed) (queue_add p items).
Proof.
  intros Hp Hi. unfold queue_add, snoc. apply Forall_app. split; [case_if; [by apply Forall_drop|done]|]. repeat constructor. done.
Qed.

Definition pending_ok (pushed : list (string * honeypotEvent)) (o : option (list pendingClient)) : Prop :=
  match o with Some items => Forall (waiting pushed) items | None => True end.

Lemma wait_for_ok pushed cluster pods now ev o :
  (cluster, ev) ∈ pushed → pending_ok pushed o →
  pending_ok pushed (wait_for cluster now (enriched sha hub_mode local cluster pods now ev) o).
Proof.
  intros Hin Ho. unfold wait_for. destruct (h_ClientSnapshot _); [done|]. destruct o as [items|]; [|done]. simpl.
  case_if; [|done]. apply queue_add_waiting; [|done]. exists ev. split_and!; [done..|]. unfold clientRetryTries. simpl. lia.
Qed.

(** What holds of the table and the queue throughout. *)
Record HInv (pushed : list (string * honeypotEvent)) (indexes : list (option Index)) (s : HoneypotState) : Prop := {
  hi_rows : rows_ok pushed indexes (z_db s);
  hi_pending : pending_ok pushed (z_pending s);
  hi_pods : z_pods s ∈ indexes;
}.

Lemma honeypot_events_spec pushed indexes cluster store slots now n raws s s' res :
  (∀ ev, ev ∈ decoded raws → (cluster, ev) ∈ pushed) → HInv pushed indexes s →
  honeypot_events UnmarshalHoneypot sha hub_mode local cluster store slots now n raws s = (s', res) →
  HInv pushed indexes s' ∧ table_le (z_db s) (z_db s')
  ∧ (res = None → ∀ ev, ev ∈ decoded raws → stored ev = true → is_Some (z_db s' !! key_of cluster ev))
  ∧ ∀ st, res = Some st → st ≠ 204%Z.
Proof.
  revert n s. induction raws as [|raw raws IH]; intros n s Hin Hi H; simpl in H.
  - simplify_eq. split_and!; [done|reflexivity| |done]. by intros _ ev ?%not_elem_of_nil.
  - unfold decoded in *. simpl in Hin. simpl. destruct (UnmarshalHoneypot raw) as [ev|]; [|by eapply IH].
    assert ((cluster, ev) ∈ pushed) as Hev by (apply Hin; left).
    assert (∀ ev', ev' ∈ omap UnmarshalHoneypot raws → (cluster, ev') ∈ pushed) as Hin' by (intros ev' H'; apply Hin; by right).
    set (ev' := enriched sha hub_mode local cluster (z_pods s) now ev) in *. change (stored ev') with (stored ev) in H.
    destruct Hi as [I1 I2 I3]. destruct (stored ev) eqn:Est.
    + assert (∃ db failed, syncWrite store (slots n) (WriteHoneypotEvent cluster ev') (z_db s) = (db, failed)
              ∧ rows_ok pushed indexes db ∧ table_le (z_db s) db ∧ (failed = None → is_Some (db !! key_of cluster ev)) ∧ ∀ st, failed = Some st → st ≠ 204%Z)
        as (db & failed & Ew & W1 & W2 & W3 & W4).
      { unfold syncWrite. destruct store; cbn [negb]; [|exists (z_db s), (Some 503%Z); split_and!; [done..|congruence]].
        destruct (slots n) as [|e t]; [exists (z_db s), (Some 503%Z); split_and!; [done..|congruence]|].
        destruct (write_honeypot_ok pushed indexes cluster (z_pods s) now ev e (z_db s) Hev I3 I1) as (W1 & W2 & W3). cbv zeta in W1, W2, W3. fold ev' in W1, W2, W3.
        destruct (WriteHoneypotEvent cluster ev' e (z_db s)) as [db ok] eqn:Ew. exists db, (if ok then None else Some (if t then 503 else 500)%Z).
        simpl in W1, W2, W3. split_and!; [done..| |by intros st; destruct ok, t; intros [= <-]]. intros Hn. apply W3.
        unfold WriteHoneypotEvent in Ew. injection Ew as _ <-. by destruct (heard e). }
      rewrite Ew in H. destruct failed as [st|]; [simplify_eq; by split_and!|].
      apply IH in H as (H1 & H2 & H3 & H4); [|done|constructor; simpl; [done|by apply wait_for_ok|done]]. simpl in H2. split_and!; [done|by etrans| |done].
      intros Hr x [->|Hx]%elem_of_cons Hsx; [|by apply H3]. destruct (W3 eq_refl) as [row Hrow]. destruct (H2 _ _ Hrow) as (row' & -> & _). eauto.
    + apply IH in H as (H1 & H2 & H3 & H4); [|done|by constructor]. split_and!; [done..| |done]. intros Hr x [->|Hx]%elem_of_cons Hsx; [congruence|by apply H3].
Qed.

Lemma resolve_all_spec pushed indexes pods now ends n l db items :
  pods ∈ indexes → rows_ok pushed indexes db → Forall (waiting pushed) l → Forall (waiting pushed) items →
  let r := resolve_all hub_mode local pods now ends n l db items in
  rows_ok pushed indexes r.1 ∧ table_le db r.1 ∧ Forall (waiting pushed) r.2.
Proof.
  intros Hp Hok Hl. revert n db items Hok. induction Hl as [|p l (ev & W1 & W2 & W3 & W4) Hl IH]; intros n db items Hok Hi; simpl; [done|].
  unfold resolve_one. destruct (resolveClient _ _ _ _ _ _) as [c|] eqn:Er.
  - destruct (attach_ok pushed indexes (pc_cluster p, pc_ns p, pc_honeypot p, pc_id p) c (ends n) db) as [A1 A2]; [|done|].
    { exists (pc_cluster p), ev, pods, (pc_at p). rewrite <- W3. auto. }
    simpl. rewrite app_nil_r. destruct (IH (S n) _ items A1 Hi) as (B1 & B2 & B3). split_and!; [done|by etrans|done].
  - case_if; simpl; [|rewrite app_nil_r; by apply IH]. apply IH; [done|]. apply Forall_app. split; [done|]. repeat constructor.
    exists ev. by split_and!.
Qed.

Lemma hstep_Inv g o :
  HInv (g_pushed g) (g_indexes g) (g_state g) → (∀ x, x ∈ g_acked g → stored x.2 = true → is_Some (z_db (g_state g) !! key_of x.1 x.2)) →
  let g' := hstep g o in
  HInv (g_pushed g') (g_indexes g') (g_state g') ∧ (∀ x, x ∈ g_acked g' → stored x.2 = true → is_Some (z_db (g_state g') !! key_of x.1 x.2)).
Proof.
  intros [I1 I2 I3] Ha. destruct o as [cluster raws store slots now|now ends|x]; cbv zeta; unfold hstep.
  - unfold HandleHoneypotEvents. simpl. destruct (honeypot_events _ _ _ _ _ _ _ _ _ _ _) as [s' res] eqn:Eh.
    assert (HInv (g_pushed g ++ map (pair cluster) (decoded raws)) (g_indexes g) (g_state g)) as Hi.
    { constructor; [|destruct (z_pending (g_state g)); [|done]|done].
      - intros k row c Hk Hc. eapply traced_mono; [| |by eapply I1]; set_solver.
      - eapply Forall_impl; [apply I2|]. intros p (ev & W & W'). exists ev. split; [set_solver|done]. }
    apply (honeypot_events_spec (g_pushed g ++ map (pair cluster) (decoded raws)) (g_indexes g)) in Eh as (H1 & H2 & H3 & H4); [|..|done].
    2: { intros ev Hev. apply elem_of_app. right. by apply list_elem_of_fmap_2. }
    assert (∀ x, x ∈ g_acked g → stored x.2 = true → is_Some (z_db s' !! key_of x.1 x.2)) as Hold.
    { intros x Hx Hst. destruct (Ha x Hx Hst) as [row Hrow]. destruct (H2 _ _ Hrow) as (row' & -> & _). eauto. }
    destruct res as [st|]; simpl; (split; [done|]).
    + intros x Hx Hst. destruct (st =? 204)%Z eqn:E; [|by apply Hold]. apply Z.eqb_eq in E. by apply H4 in E.
    + intros x [Hx|Hx]%elem_of_app Hst; [by apply Hold|]. apply list_elem_of_fmap in Hx as (ev & -> & Hev). by apply H3.
  - unfold resolveLater. destruct (z_pending (g_state g)) as [items|] eqn:Ep; [|simpl; split; [constructor; [done|rewrite Ep; exact I|done]|done]].
    simpl in I2. unfold queue_due. pose proof (resolve_all_spec (g_pushed g) (g_indexes g) (z_pods (g_state g)) now ends 0
      (List.filter (λ p, negb (Before now (pc_next p))) items) (z_db (g_state g)) (List.filter (λ p, Before now (pc_next p)) items) I3 I1) as Hr.
    destruct (resolve_all _ _ _ _ _ _ _ _ _) as [db items'] eqn:Era. simpl in *.
    assert (∀ f : pendingClient → bool, Forall (waiting (g_pushed g)) (List.filter f items)) as Hf.
    { intros f. rewrite Forall_forall in *. intros p Hp. apply I2. apply list_elem_of_In in Hp. apply filter_In in Hp as [Hp _]. by apply list_elem_of_In. }
    destruct (Hr (Hf _) (Hf _)) as (H1 & H2 & H3). split; [by constructor|]. intros x Hx Hst. destruct (Ha x Hx Hst) as [row Hrow].
    destruct (H2 _ _ Hrow) as (row' & -> & _). eauto.
  - simpl. split; [|done]. constructor; simpl; [|done|unfold snoc; set_solver]. intros k row c Hk Hc.
    eapply traced_mono; [| |by eapply I1]; unfold snoc; set_solver.
Qed.

(** A honeypot hit is kept and attributed truly: over any pushes, ticks and
    new pod indexes, with statements that fail or go unheard, every event of a
    push answered with 204 that names its honeypot has a row, and the pod of a
    row, found at once or later, is one that an index of the run gave for the
    source address of an event pushed under that key. *)
Theorem honeypot_kept ops :
  let g := foldl hstep hstart ops in
  (∀ cluster ev, (cluster, ev) ∈ g_acked g → stored ev = true → is_Some (z_db (g_state g) !! key_of cluster ev))
  ∧ ∀ k row c, z_db (g_state g) !! k = Some row → h_ClientSnapshot row = Some c → traced (g_pushed g) (g_indexes g) k c.
Proof.
  cbv zeta. assert (HInv (g_pushed hstart) (g_indexes hstart) (g_state hstart)) as H0.
  { constructor; simpl; [|constructor|left]. intros k row c Hk. by rewrite lookup_empty in Hk. }
  assert (∀ x, x ∈ g_acked hstart → stored x.2 = true → is_Some (z_db (g_state hstart) !! key_of x.1 x.2)) as H1 by (by intros x ?%not_elem_of_nil).
  revert H0 H1. generalize hstart. induction ops as [|o ops IH]; intros g H0 H1; simpl.
  - split; [|apply H0]. intros cluster ev Hin. by apply (H1 (cluster, ev)).
  - destruct (hstep_Inv g o H0 H1) as [H2 H3]. by apply IH.
Qed.
End Honeypots.

(** ** Examples *)

Section Examples.
#[local] Existing Instance ascii_tables.
#[local] Existing Instance small_float_text.

Definition mount_matcher : Matcher := Replace RuleMatcher.New [mount_rule].
Definition before_push : PushState := {| q_sink := empty_sink; q_live := [] |}.
Definition after_push : PushState :=
  (HandleEvents mount_record id "east" "POST" (Some ["mount"; "noise"]) true mount_matcher (λ _ _, Write Done false) 0%Z before_push).1.

Lemma acknowledged_stored_witness :
  length (k_published (q_sink after_push)) = 1%nat ∧ settled mount_record id "east" mount_matcher (q_sink after_push) "mount".
Proof.
  split; [vm_compute; reflexivity|].
  apply (acknowledged_stored mount_record id "east" mount_matcher (λ _ _, Write Done false) 0%Z ["mount"; "noise"] before_push after_push);
    [vm_compute; reflexivity|left].
Defined.

(** The hit comes before the pod is known; a later tick finds it. *)
Definition a_hit : honeypotEvent :=
  {| h_ID := ""; h_HoneypotID := ""; h_HoneypotName := "ssh"; h_Namespace := "decoys"; h_Kind := ""; h_Service := ""; h_Pod := "";
     h_Timestamp := "t"; h_Server := "ssh"; h_SrcIP := "10.0.0.1"; h_SrcPort := "4000"; h_DestIP := ""; h_DestPort := "22"; h_Action := "login";
     h_Status := ""; h_Data := ""; h_Username := "root"; h_Password := "x"; h_ClientSnapshot := None |}.
Definition a_tick : list hop :=
  [Push "east" ["hit"] true (λ _, Write Done false) (2 * Hour)%Z; Index_ (Some (index_run (24 * Hour)%Z [List.hd (Build_update "" None 0%Z) two_snapshots]));
   Tick (3 * Hour)%Z (λ _, Done)].

Example late_client :
  let g := foldl (hstep (λ _, Some a_hit) id true "") hstart a_tick in
  map (λ kv : row_id * honeypotEvent, C_Pod <$> h_ClientSnapshot kv.2) (map_to_list (z_db (g_state g))) = [Some "web"].
Proof. vm_compute. reflexivity. Qed.
End Examples.
