(* ===== verification/Accounts.v ===== *)
(** * kvisior/internal/accounts and pkg/authz: users, groups, sessions, tokens

    The tables with their keys and foreign keys (central/internal/schema), and
    the operations of the store on them. Every statement can fail, and a failed
    one can have happened; bcrypt, SHA-256 and random identifiers are parameters
    or arguments. *)

From Stdlib Require Import Ascii.
From stdpp Require Import base list gmap strings.
From S2P Require Import Prelude GoStrings.
Local Open Scope string_scope.
Local Open Scope list_scope.
Local Open Scope go_scope.

(** ** Roles (pkg/authz) *)

Definition RoleAdmin : string := "admin".
Definition RoleRO : string := "ro".

Definition read_permissions : list string := ["policies.read"; "groups.read"; "users.read"; "tokens.read"; "integrations.read"].
Definition admin_permissions : list string :=
  ["policies.read"; "policies.write"; "policies.create"; "policies.delete"; "groups.read"; "groups.write"; "groups.create"; "groups.delete";
   "users.read"; "users.write"; "users.create"; "users.delete"; "tokens.read"; "tokens.create"; "tokens.delete";
   "integrations.read"; "integrations.write"].
Definition Permissions (role : string) : list string := if role == RoleAdmin then admin_permissions else read_permissions.
Definition permits (role perm : string) : bool := any (String.eqb perm) (Permissions role).

Definition ValidRole (r : string) : bool := (r == RoleAdmin) || (r == RoleRO).
Definition EffectiveRole (userRole groupRole : string) : string :=
  if (userRole == RoleAdmin) || (groupRole == RoleAdmin) then RoleAdmin else RoleRO.

(** ** The tables *)

Record GroupRow := { gr_name : string; gr_description : string; gr_role : string; gr_created : Time; gr_updated : Time }.
Record UserRow := {
  ur_username : string; ur_email : string; ur_full_name : string; ur_group : option string; ur_role : string; ur_hash : string; ur_created : Time;
}.
Record SessionRow := { sr_user : string; sr_created : Time; sr_expires : Time; sr_last_seen : Time }.
Record TokenRow := {
  tr_name : string; tr_hash : string; tr_role : string; tr_user : option string; tr_created : Time; tr_expires : option Time; tr_last_used : option Time;
}.

Record Tables := {
  t_groups : gmap string GroupRow; t_users : gmap string UserRow; t_sessions : gmap string SessionRow; t_tokens : gmap string TokenRow;
}.

Definition set_groups (g : gmap string GroupRow) (t : Tables) : Tables :=
  {| t_groups := g; t_users := t_users t; t_sessions := t_sessions t; t_tokens := t_tokens t |}.
Definition set_users (u : gmap string UserRow) (t : Tables) : Tables :=
  {| t_groups := t_groups t; t_users := u; t_sessions := t_sessions t; t_tokens := t_tokens t |}.
Definition set_sessions (s : gmap string SessionRow) (t : Tables) : Tables :=
  {| t_groups := t_groups t; t_users := t_users t; t_sessions := s; t_tokens := t_tokens t |}.
Definition set_tokens (k : gmap string TokenRow) (t : Tables) : Tables :=
  {| t_groups := t_groups t; t_users := t_users t; t_sessions := t_sessions t; t_tokens := k |}.

Record User := {
  U_ID : string; U_Username : string; U_Email : string; U_FullName : string; U_GroupID : string; U_GroupName : string; U_Role : string;
  U_GroupRole : string; U_EffectiveRole : string; U_CreatedAt : Time;
}.

(** The row of a user with its group. *)
Definition user_of (t : Tables) (id : string) (r : UserRow) : User :=
  let g := ur_group r ≫= (λ gid, t_groups t !! gid) in
  let groupRole := match g with Some g => gr_role g | None => "" end in
  {| U_ID := id; U_Username := ur_username r; U_Email := ur_email r; U_FullName := ur_full_name r; U_GroupID := default "" (ur_group r);
     U_GroupName := match g with Some g => gr_name g | None => "" end; U_Role := ur_role r; U_GroupRole := groupRole;
     U_EffectiveRole := EffectiveRole (ur_role r) groupRole; U_CreatedAt := ur_created r |}.

Definition find_row {A} (f : A → bool) (m : gmap string A) : option (string * A) := List.find (λ kv : string * A, f kv.2) (map_to_list m).

(** One statement: how it ended, and what it does. *)
Definition exec (e : ending) (f : Tables → Tables) (t : Tables) : Tables := if applied e then f t else t.

(** ** Sessions and passwords *)

Definition maxSessionTTL : Duration := (24 * Hour)%Z.

Section Store.
  (** [bcrypt.CompareHashAndPassword] and SHA-256 in hexadecimal. *)
  Context (compare : string → string → bool) (sha : string → string).

(** [ok]: the query succeeded. *)
Definition VerifyPassword (ok : bool) (username password : string) (t : Tables) : option User :=
  let username := TrimSpace username in
  if (username == "") || (password == "") then None
  else
    let found := if ok then find_row (λ r, (ur_username r == username)) (t_users t) else None in
    match found with
    | Some (id, r) => if (ur_hash r != "") && compare (ur_hash r) password then Some (user_of t id r) else None
    | None => None
    end.

Definition ValidatePassword (pw : string) : bool := negb (String.length pw <? 8)%nat && negb (72 <? String.length pw)%nat.

Definition with_hash (h : string) (r : UserRow) : UserRow :=
  {| ur_username := ur_username r; ur_email := ur_email r; ur_full_name := ur_full_name r; ur_group := ur_group r; ur_role := ur_role r;
     ur_hash := h; ur_created := ur_created r |}.

Definition sessions_of (userID : string) (t : Tables) : gmap string SessionRow :=
  filter (λ kv : string * SessionRow, negb (sr_user kv.2 == userID) = true) (t_sessions t).

(** [hash]: what bcrypt made of the password, if it did. *)
Definition SetPassword (f : nat → ending) (userID newPassword : string) (hash : option string) (t : Tables) : Tables * bool :=
  if negb (ValidatePassword newPassword) then (t, false)
  else match hash with
       | None => (t, false)
       | Some h =>
           let t' := exec (f 0%nat) (λ t, set_users (alter (with_hash h) userID (t_users t)) t) t in
           if negb (heard (f 0%nat)) then (t', false)
           else match t_users t !! userID with
                | None => (t', false)
                | Some _ => (exec (f 1%nat) (λ t, set_sessions (sessions_of userID t) t) t', true)
                end
       end.

Definition ChangePassword (ok : bool) (f : nat → ending) (username current newPassword : string) (hash : option string) (t : Tables)
  : Tables * bool :=
  match VerifyPassword ok username current t with
  | None => (t, false)
  | Some u => SetPassword f (U_ID u) newPassword hash t
  end.

(** [rand]: 48 hexadecimal digits. The user must exist, and the id be new. *)
Definition CreateSession (e : ending) (rand userID : string) (ttl : Duration) (now : Time) (t : Tables) : Tables * option (string * SessionRow) :=
  let ttl := if (ttl <=? 0)%Z then (12 * Hour)%Z else ttl in
  let ttl := if (maxSessionTTL <? ttl)%Z then maxSessionTTL else ttl in
  let id := "sess_" +:+ rand in
  let row := {| sr_user := userID; sr_created := now; sr_expires := TAdd now ttl; sr_last_seen := now |} in
  match t_users t !! userID, t_sessions t !! id with
  | Some _, None => (exec e (λ t, set_sessions (<[id := row]> (t_sessions t)) t) t, if heard e then Some (id, row) else None)
  | _, _ => (t, None)
  end.

Definition seen_at (now : Time) (r : SessionRow) : SessionRow :=
  {| sr_user := sr_user r; sr_created := sr_created r; sr_expires := sr_expires r; sr_last_seen := now |}.

(** [ok 0] and [ok 1]: the queries; [e]: the statement between them. *)
Definition LookupSession (ok : nat → bool) (e : ending) (id : string) (now : Time) (t : Tables) : Tables * option User :=
  match (if ok 0%nat then t_sessions t !! id else None) with
  | None => (t, None)
  | Some s =>
      if After now (sr_expires s) then (exec e (λ t, set_sessions (delete id (t_sessions t)) t) t, None)
      else
        let t' := exec e (λ t, set_sessions (alter (seen_at now) id (t_sessions t)) t) t in
        (t', match (if ok 1%nat then t_users t' !! sr_user s else None) with Some r => Some (user_of t' (sr_user s) r) | None => None end)
  end.

Definition DeleteSession (e : ending) (id : string) (t : Tables) : Tables * bool :=
  (exec e (λ t, set_sessions (delete id (t_sessions t)) t) t, heard e).

Definition PurgeExpiredSessions (e : ending) (now : Time) (t : Tables) : Tables :=
  exec e (λ t, set_sessions (filter (λ kv : string * SessionRow, Before (sr_expires kv.2) now = false) (t_sessions t)) t) t.

(** ** Tokens *)

Definition hashToken (plaintext : string) : string := sha plaintext.

(** [rand] and [randID] make the token and its id; the token in clear. *)
Definition CreateToken (e : ending) (name role userID : string) (ttl : Duration) (rand randID : string) (now : Time) (t : Tables)
  : Tables * option string :=
  let name := TrimSpace name in
  if name == "" then (t, None)
  else if negb (ValidRole role) then (t, None)
  else
    let plaintext := "ewt_" +:+ rand in
    let id := "tok-" +:+ randID in
    let row := {| tr_name := name; tr_hash := hashToken plaintext; tr_role := role; tr_user := if userID != "" then Some userID else None;
                  tr_created := now; tr_expires := if (0 <? ttl)%Z then Some (TAdd now ttl) else None; tr_last_used := None |} in
    let fits := (userID == "") || bool_decide (is_Some (t_users t !! userID)) in
    let fresh := bool_decide (t_tokens t !! id = None) && bool_decide (find_row (λ r, tr_hash r == hashToken plaintext) (t_tokens t) = None) in
    if fits && fresh then (exec e (λ t, set_tokens (<[id := row]> (t_tokens t)) t) t, if heard e then Some plaintext else None)
    else (t, None).

Definition DeleteToken (e : ending) (id : string) (t : Tables) : Tables * bool :=
  match t_tokens t !! id with
  | Some _ => (exec e (λ t, set_tokens (delete id (t_tokens t)) t) t, heard e)
  | None => (t, false)
  end.

Definition used_at (now : Time) (r : TokenRow) : TokenRow :=
  {| tr_name := tr_name r; tr_hash := tr_hash r; tr_role := tr_role r; tr_user := tr_user r; tr_created := tr_created r;
     tr_expires := tr_expires r; tr_last_used := Some now |}.

(** The user a token stands for: a token of its own role, or its user, restricted
    to reading when the token is. *)
Definition service_user (role : string) : User :=
  {| U_ID := ""; U_Username := ""; U_Email := ""; U_FullName := ""; U_GroupID := ""; U_GroupName := ""; U_Role := role; U_GroupRole := "";
     U_EffectiveRole := role; U_CreatedAt := 0%Z |}.
Definition restricted (u : User) : User :=
  {| U_ID := U_ID u; U_Username := U_Username u; U_Email := U_Email u; U_FullName := U_FullName u; U_GroupID := U_GroupID u;
     U_GroupName := U_GroupName u; U_Role := U_Role u; U_GroupRole := U_GroupRole u; U_EffectiveRole := RoleRO; U_CreatedAt := U_CreatedAt u |}.

Definition ValidateToken (ok : nat → bool) (e : ending) (plaintext : string) (now : Time) (t : Tables) : Tables * option User :=
  if plaintext == "" then (t, None)
  else
    match (if ok 0%nat then find_row (λ r, tr_hash r == hashToken plaintext) (t_tokens t) else None) with
    | None => (t, None)
    | Some (id, r) =>
        if match tr_expires r with Some x => After now x | None => false end then (t, None)
        else
          let t' := exec e (λ t, set_tokens (alter (used_at now) id (t_tokens t)) t) t in
          match tr_user r with
          | None => (t', Some (service_user (tr_role r)))
          | Some uid =>
              match (if ok 1%nat then t_users t' !! uid else None) with
              | None => (t', None)
              | Some ur => (t', Some (if tr_role r == RoleRO then restricted (user_of t' uid ur) else user_of t' uid ur))
              end
          end
    end.

(** ** Users and groups *)

Definition group_fits (gid : option string) (t : Tables) : bool :=
  match gid with Some g => bool_decide (is_Some (t_groups t !! g)) | None => true end.
Definition group_ref (groupID : string) : option string := if groupID != "" then Some groupID else None.

(** [None]: an error. The answer is the user as the next query gives it. *)
Definition CreateUser (f : nat → ending) (username email fullName groupID role password : string) (hash : option string) (randID : string)
    (now : Time) (t : Tables) : Tables * option User :=
  let username := TrimSpace username in
  if username == "" then (t, None)
  else if negb (ValidRole role) then (t, None)
  else if (password != "") && negb (ValidatePassword password) then (t, None)
  else
    match (if password != "" then hash else Some "") with
    | None => (t, None)
    | Some h =>
        let id := "usr-" +:+ randID in
        let row := {| ur_username := username; ur_email := email; ur_full_name := fullName; ur_group := group_ref groupID; ur_role := role;
                      ur_hash := h; ur_created := now |} in
        let fresh := bool_decide (t_users t !! id = None) && bool_decide (find_row (λ r, ur_username r == username) (t_users t) = None) in
        if negb (fresh && group_fits (group_ref groupID) t) then (t, None)
        else
          let t' := exec (f 0%nat) (λ t, set_users (<[id := row]> (t_users t)) t) t in
          (t', if heard (f 0%nat) && heard (f 1%nat)
               then (λ kv : string * UserRow, user_of t' kv.1 kv.2) <$> find_row (λ r, ur_username r == username) (t_users t') else None)
    end.

Definition with_profile (email fullName : string) (gid : option string) (role : string) (r : UserRow) : UserRow :=
  {| ur_username := ur_username r; ur_email := email; ur_full_name := fullName; ur_group := gid; ur_role := role; ur_hash := ur_hash r;
     ur_created := ur_created r |}.

Definition builtin_admin : string := "usr-admin".

Definition UpdateUser (f : nat → ending) (id email fullName groupID role : string) (t : Tables) : Tables * option User :=
  if negb (ValidRole role) then (t, None)
  else if (id == builtin_admin) && (role != RoleAdmin) then (t, None)
  else
    match t_users t !! id with
    | None => (t, None)
    | Some _ =>
        if negb (group_fits (group_ref groupID) t) then (t, None)
        else
          let t' := exec (f 0%nat) (λ t, set_users (alter (with_profile email fullName (group_ref groupID) role) id (t_users t)) t) t in
          (t', if heard (f 0%nat) && heard (f 1%nat) then user_of t' id <$> t_users t' !! id else None)
    end.

(** Deleting a user deletes its sessions and tokens. *)
Definition delete_user (id : string) (t : Tables) : Tables :=
  {| t_groups := t_groups t; t_users := delete id (t_users t); t_sessions := sessions_of id t;
     t_tokens := filter (λ kv : string * TokenRow, bool_decide (tr_user kv.2 = Some id) = false) (t_tokens t) |}.

Definition DeleteUser (e : ending) (id : string) (t : Tables) : Tables * bool :=
  if id == builtin_admin then (t, false)
  else match t_users t !! id with
       | None => (t, false)
       | Some _ => (exec e (delete_user id) t, heard e)
       end.

Definition CreateGroup (e : ending) (name description role randID : string) (now : Time) (t : Tables) : Tables * bool :=
  let name := TrimSpace name in
  if name == "" then (t, false)
  else if negb (ValidRole role) then (t, false)
  else
    let id := "grp-" +:+ randID in
    let row := {| gr_name := name; gr_description := description; gr_role := role; gr_created := now; gr_updated := now |} in
    if bool_decide (t_groups t !! id = None) && bool_decide (find_row (λ g, gr_name g == name) (t_groups t) = None)
    then (exec e (λ t, set_groups (<[id := row]> (t_groups t)) t) t, heard e) else (t, false).

Definition UpdateGroup (e : ending) (id name description role : string) (now : Time) (t : Tables) : Tables * bool :=
  if negb (ValidRole role) then (t, false)
  else
    match t_groups t !! id with
    | None => (t, false)
    | Some g =>
        if match find_row (λ g, gr_name g == name) (t_groups t) with Some (other, _) => other != id | None => false end then (t, false)
        else
          (exec e (λ t, set_groups (<[id := {| gr_name := name; gr_description := description; gr_role := role; gr_created := gr_created g;
                                               gr_updated := now |}]> (t_groups t)) t) t, heard e)
    end.

(** Deleting a group takes its users out of it. *)
Definition without_group (id : string) (r : UserRow) : UserRow :=
  if bool_decide (ur_group r = Some id) then with_profile (ur_email r) (ur_full_name r) None (ur_role r) r else r.
Definition DeleteGroup (e : ending) (id : string) (t : Tables) : Tables * bool :=
  match t_groups t !! id with
  | None => (t, false)
  | Some _ => (exec e (λ t, set_groups (delete id (t_groups t)) (set_users (without_group id <$> t_users t) t)) t, heard e)
  end.
End Store.
