(* ===== verification/Auth.v ===== *)
(** * kvisior/internal/auth: who is calling, and what they may change

    The manager resolves a session cookie or a bearer token to a user, with a
    cache of five seconds, limits failed logins, and guards the handlers of the
    accounts. *)

From Stdlib Require Import Ascii.
From stdpp Require Import base list gmap strings.
From S2P Require Import Prelude GoStrings Accounts.
Local Open Scope string_scope.
Local Open Scope list_scope.
Local Open Scope go_scope.

Definition SessionTTL : Duration := (12 * Hour)%Z.
Definition rlWindow : Duration := Minute.
Definition rlMaxTries : nat := 5.
Definition rlEntriesMax : nat := 1000.
Definition cacheMax : nat := 5000.
Definition cacheTTL : Duration := (5 * Second)%Z.

Record UserInfo := { ui_User : User; ui_Permissions : list string }.
Definition userInfo (u : User) : UserInfo := {| ui_User := u; ui_Permissions := Permissions (U_EffectiveRole u) |}.

Record cacheEntry := { ce_user : UserInfo; ce_expiresAt : Time }.
Record rlEntry := { rl_failures : nat; rl_resetAt : Time }.

(** [am_store]: there is a database. *)
Record Manager := { am_store : bool; am_cache : gmap string cacheEntry; am_rl : gmap string rlEntry }.
Definition New (store : bool) : Manager := {| am_store := store; am_cache := ∅; am_rl := ∅ |}.
Definition set_cache (c : gmap string cacheEntry) (m : Manager) : Manager := {| am_store := am_store m; am_cache := c; am_rl := am_rl m |}.
Definition set_rl (r : gmap string rlEntry) (m : Manager) : Manager := {| am_store := am_store m; am_cache := am_cache m; am_rl := r |}.

(** ** The limit of failed logins *)

(** The time to wait, 0 when an attempt is allowed. *)
Definition rlCheck (key : string) (now : Time) (rl : gmap string rlEntry) : gmap string rlEntry * Duration :=
  match rl !! key with
  | None => (rl, 0%Z)
  | Some e => if After now (rl_resetAt e) then (delete key rl, 0%Z)
              else if (rlMaxTries <=? rl_failures e)%nat then (rl, TSub (rl_resetAt e) now) else (rl, 0%Z)
  end.

Section Limit.
  Context {O : MapOrder}.

(** The entry that is reset first, of those a range over the map meets. *)
Definition earliest (rl : gmap string rlEntry) : option string :=
  match foldl (λ acc (kv : string * rlEntry), match acc with
                 | Some (_, t) => if Before (rl_resetAt kv.2) t then Some (kv.1, rl_resetAt kv.2) else acc
                 | None => Some (kv.1, rl_resetAt kv.2)
                 end) None (map_order (map_to_list rl)) with
  | Some (k, _) => Some k
  | None => None
  end.

Definition rlRecord (key : string) (now : Time) (rl : gmap string rlEntry) : gmap string rlEntry :=
  let rl := if (rlEntriesMax <=? size rl)%nat then filter (λ kv : string * rlEntry, After now (rl_resetAt kv.2) = false) rl else rl in
  let fresh := {| rl_failures := 1; rl_resetAt := TAdd now rlWindow |} in
  let insert_fresh :=
    let rl := if (rlEntriesMax <=? size rl)%nat then match earliest rl with Some k => delete k rl | None => rl end else rl in
    <[key := fresh]> rl in
  match rl !! key with
  | None => insert_fresh
  | Some e => if After now (rl_resetAt e) then insert_fresh
              else <[key := {| rl_failures := S (rl_failures e); rl_resetAt := rl_resetAt e |}]> rl
  end.
End Limit.

Definition rlReset (key : string) (rl : gmap string rlEntry) : gmap string rlEntry := delete key rl.

(** ** Requests *)

(** What a request carries: the session cookie, the Authorization header, the
    cookie of the device, and the federation and acting headers. *)
Record Request := {
  q_Method : string; q_Path : string; q_Session : string; q_Authorization : string; q_Device : string;
  q_FedToken : string; q_FedUser : string; q_FedRole : string; q_ActingUser : string; q_ActingRole : string;
}.

(** The fates of the statements of a request, and its time: the first two
    queries and the first change are those of resolving the caller. *)
Record Fate := { f_ok : nat → bool; f_end : nat → ending; f_now : Time; f_rand : string; f_randID : string; f_hash : option string }.

Definition trim_prefix (s p : string) : string := if HasPrefix s p then sdrop (String.length p) s else s.

Section Auth.
  Context {T : CaseTables} {O : MapOrder}.
  (** The account store's parameters; HMAC of the device cookie, and
      [strconv.ParseInt] in base 10. *)
  Context (compare : string → string → bool) (sha : string → string) (mac : string → string) (ParseInt : string → option Z).
  Context (federation : string).

(** ** Resolving a caller *)

Definition cacheSet (key : string) (u : UserInfo) (now : Time) (m : Manager) : Manager :=
  let c := am_cache m in
  let c := if (cacheMax <=? size c)%nat then filter (λ kv : string * cacheEntry, After now (ce_expiresAt kv.2) = false) c else c in
  set_cache (if (size c <? cacheMax)%nat then <[key := {| ce_user := u; ce_expiresAt := TAdd now cacheTTL |}]> c else c) m.

Definition invalidate (sessionID : string) (m : Manager) : Manager := set_cache (delete sessionID (am_cache m)) m.

Definition cached (key : string) (now : Time) (m : Manager) : option UserInfo :=
  match am_cache m !! key with Some e => if Before now (ce_expiresAt e) then Some (ce_user e) else None | None => None end.

Definition resolveSession (id : string) (f : Fate) (m : Manager) (t : Tables) : Manager * Tables * option UserInfo :=
  match cached id (f_now f) m with
  | Some u => (m, t, Some u)
  | None =>
      if negb (am_store m) then (m, t, None)
      else match LookupSession (f_ok f) (f_end f 0%nat) id (f_now f) t with
           | (t', None) => (invalidate id m, t', None)
           | (t', Some u) => (cacheSet id (userInfo u) (f_now f) m, t', Some (userInfo u))
           end
  end.

Definition tokenKey (token : string) : string := "tok:" +:+ token.

Definition resolveToken (token : string) (f : Fate) (m : Manager) (t : Tables) : Manager * Tables * option UserInfo :=
  match cached (tokenKey token) (f_now f) m with
  | Some u => (m, t, Some u)
  | None =>
      if negb (am_store m) then (m, t, None)
      else match ValidateToken sha (f_ok f) (f_end f 0%nat) token (f_now f) t with
           | (t', None) => (m, t', None)
           | (t', Some u) => (cacheSet (tokenKey token) (userInfo u) (f_now f) m, t', Some (userInfo u))
           end
  end.

Definition Resolve (r : Request) (f : Fate) (m : Manager) (t : Tables) : Manager * Tables * option UserInfo :=
  if q_Session r != "" then resolveSession (q_Session r) f m t
  else if HasPrefix (q_Authorization r) "Bearer " then resolveToken (trim_prefix (q_Authorization r) "Bearer ") f m t
  else (m, t, None).

(** ** Login and logout *)

Definition device_text (username nonce expiry : string) : string :=
  username +:+ String "000" nonce +:+ String "000" expiry.

Definition trustedDevice (r : Request) (username : string) (now : Time) : option string :=
  if q_Device r == "" then None
  else match Split (q_Device r) "." with
       | [nonce; expiry; sig] =>
           match ParseInt expiry with
           | None => None
           | Some exp => if (exp <=? Unix now)%Z then None
                         else if negb (sig == mac (device_text username nonce expiry)) then None else Some nonce
           end
       | _ => None
       end.

Definition rl_key (r : Request) (username : string) (now : Time) : string :=
  match trustedDevice r username now with Some device => "device:" +:+ device | None => "user:" +:+ username end.

Inductive login := LoggedIn (session : string) | Refused (status : Z).

(** [body]: the name and the password, if they can be read. *)
Definition HandleLogin (r : Request) (body : option (string * string)) (f : Fate) (m : Manager) (t : Tables) : Manager * Tables * login :=
  if q_Method r != "POST" then (m, t, Refused 405%Z)
  else match body with
       | None => (m, t, Refused 400%Z)
       | Some (name, password) =>
           if negb (am_store m) then (m, t, Refused 503%Z)
           else
             let key := rl_key r (ToLower (TrimSpace name)) (f_now f) in
             let '(rl, wait) := rlCheck key (f_now f) (am_rl m) in
             let m := set_rl rl m in
             if (0 <? wait)%Z then (m, t, Refused 429%Z)
             else match VerifyPassword compare (f_ok f 0%nat) name password t with
                  | None => (set_rl (rlRecord key (f_now f) (am_rl m)) m, t, Refused 401%Z)
                  | Some u =>
                      let m := set_rl (rlReset key (am_rl m)) m in
                      match CreateSession (f_end f 0%nat) (f_rand f) (U_ID u) SessionTTL (f_now f) t with
                      | (t', None) => (m, t', Refused 500%Z)
                      | (t', Some (id, _)) => (m, t', LoggedIn id)
                      end
                  end
       end.

Definition HandleLogout (r : Request) (f : Fate) (m : Manager) (t : Tables) : Manager * Tables * Z :=
  if q_Method r != "POST" then (m, t, 405%Z)
  else if q_Session r != "" then
    let m := invalidate (q_Session r) m in
    (m, if am_store m then (DeleteSession (f_end f 0%nat) (q_Session r) t).1 else t, 200%Z)
  else (m, t, 200%Z).

(** ** Guards *)

Record Acting := { a_user : string; a_role : string }.

Definition RequireAuth {A} (r : Request) (f : Fate) (next : Acting → Manager → Tables → Manager * Tables * A) (refused : Z → A)
    (m : Manager) (t : Tables) : Manager * Tables * A :=
  match Resolve r f m t with
  | (m', t', None) => (m', t', refused 401%Z)
  | (m', t', Some u) => next {| a_user := U_Username (ui_User u); a_role := U_EffectiveRole (ui_User u) |} m' t'
  end.

(** [federation.trusted] and [federation.requireAuth] (kvisior/federation.go). *)
Definition trusted (r : Request) : bool := (federation != "") && (q_FedToken r != "") && (q_FedToken r == federation).

Definition requireAuth {A} (r : Request) (f : Fate) (next : Acting → Manager → Tables → Manager * Tables * A) (refused : Z → A)
    (m : Manager) (t : Tables) : Manager * Tables * A :=
  if trusted r then
    if (q_FedUser r == "") || negb (ValidRole (q_FedRole r)) then (m, t, refused 401%Z)
    else next {| a_user := q_FedUser r; a_role := q_FedRole r |} m t
  else RequireAuth r f next refused m t.

Definition callerRole (a : Acting) : string := let role := TrimSpace (a_role a) in if ValidRole role then role else RoleRO.
Definition requirePerm (a : Acting) (perm : string) : bool := permits (callerRole a) perm.

Definition resourcePathID (path prefix : string) : string :=
  let rest := TrimSuffix (trim_prefix path prefix) "/" in
  match Index rest "/" with Some i => stake i rest | None => rest end.

(** ** Handlers *)

(** The bodies, as far as they can be read. *)
Record Body := {
  b_current : string; b_new : string; b_name : string; b_description : string; b_role : string; b_username : string; b_email : string;
  b_full_name : string; b_group_id : string; b_password : string; b_user_id : string; b_ttl : option Duration;
}.

Definition refuse {A} (s : A) (m : Manager) (t : Tables) : Manager * Tables * A := (m, t, s).

Section Handlers.
  Context (r : Request) (body : option Body) (f : Fate) (a : Acting) (m : Manager) (t : Tables).

(** A handler behind [backendReady] and [requirePerm]: the tables it leaves, and
    whether the store accepted. *)
Definition answer (x : Tables * bool) (bad : Z) : Manager * Tables * Z := (m, x.1, if x.2 then 200%Z else bad).
Definition guarded (perm : string) (k : Manager * Tables * Z) : Manager * Tables * Z :=
  if requirePerm a perm then k else (m, t, 403%Z).
Definition with_body (k : Body → Manager * Tables * Z) : Manager * Tables * Z :=
  match body with Some b => k b | None => (m, t, 400%Z) end.
Definition ready (k : Manager * Tables * Z) : Manager * Tables * Z := if am_store m then k else (m, t, 503%Z).
Definition listed : Manager * Tables * Z := (m, t, if f_ok f 2%nat then 200%Z else 500%Z).
Definition told {A} (x : Tables * option A) : Tables * bool := (x.1, match x.2 with Some _ => true | None => false end).

Definition HandleChangePassword : Manager * Tables * Z :=
  if q_Method r != "POST" then (m, t, 405%Z)
  else ready (with_body (λ b,
    if negb (ValidatePassword (b_new b)) then (m, t, 400%Z)
    else answer (ChangePassword compare (f_ok f 2%nat) (λ i, f_end f (S i)) (TrimSpace (a_user a)) (b_current b) (b_new b) (f_hash f) t) 401%Z)).

Definition HandleGroups : Manager * Tables * Z :=
  ready (if q_Method r == "GET" then guarded "groups.read" listed
         else if q_Method r == "POST" then
           guarded "groups.create" (with_body (λ b,
             answer (CreateGroup (f_end f 1%nat) (b_name b) (b_description b) (b_role b) (f_randID f) (f_now f) t) 400%Z))
         else (m, t, 405%Z)).

Definition HandleGroupItem : Manager * Tables * Z :=
  ready (let id := resourcePathID (q_Path r) "/api/groups/" in
         if id == "" then (m, t, 400%Z)
         else if q_Method r == "PUT" then
           guarded "groups.write" (with_body (λ b,
             answer (UpdateGroup (f_end f 1%nat) id (b_name b) (b_description b) (b_role b) (f_now f) t) 400%Z))
         else if q_Method r == "DELETE" then guarded "groups.delete" (answer (DeleteGroup (f_end f 1%nat) id t) 400%Z)
         else (m, t, 405%Z)).

Definition HandleUsers : Manager * Tables * Z :=
  ready (if q_Method r == "GET" then guarded "users.read" listed
         else if q_Method r == "POST" then
           guarded "users.create" (with_body (λ b,
             answer (told (CreateUser (λ i, f_end f (S i)) (b_username b) (b_email b) (b_full_name b) (b_group_id b) (b_role b) (b_password b)
                             (f_hash f) (f_randID f) (f_now f) t)) 400%Z))
         else (m, t, 405%Z)).

Definition handleUserItem : Manager * Tables * Z :=
  ready (let id := resourcePathID (q_Path r) "/api/users/" in
         if id == "" then (m, t, 400%Z)
         else if q_Method r == "PUT" then
           guarded "users.write" (with_body (λ b,
             answer (told (UpdateUser (λ i, f_end f (S i)) id (b_email b) (b_full_name b) (b_group_id b) (b_role b) t)) 400%Z))
         else if q_Method r == "DELETE" then guarded "users.delete" (answer (DeleteUser (f_end f 1%nat) id t) 400%Z)
         else (m, t, 405%Z)).

Definition handleUserPasswordReset : Manager * Tables * Z :=
  if q_Method r != "POST" then (m, t, 405%Z)
  else ready (
    let rest := trim_prefix (TrimSuffix (q_Path r) "/") "/api/users/" in
    let id := TrimSuffix rest "/password" in
    if (id == "") || (id == rest) then (m, t, 400%Z)
    else guarded "users.write" (with_body (λ b, answer (SetPassword (λ i, f_end f (S i)) id (b_new b) (f_hash f) t) 400%Z))).

Definition HandleUsersSub : Manager * Tables * Z :=
  if HasSuffix (TrimSuffix (q_Path r) "/") "/password" then handleUserPasswordReset else handleUserItem.

Definition HandleTokens : Manager * Tables * Z :=
  ready (if q_Method r == "GET" then guarded "tokens.read" listed
         else if q_Method r == "POST" then
           guarded "tokens.create" (with_body (λ b,
             match b_ttl b with
             | None => (m, t, 400%Z)
             | Some ttl =>
                 answer (told (CreateToken sha (f_end f 1%nat) (b_name b) (b_role b) (b_user_id b) ttl (f_rand f) (f_randID f) (f_now f) t)) 400%Z
             end))
         else (m, t, 405%Z)).

Definition HandleTokenItem : Manager * Tables * Z :=
  ready (let id := resourcePathID (q_Path r) "/api/tokens/" in
         if id == "" then (m, t, 400%Z)
         else if q_Method r != "DELETE" then (m, t, 405%Z)
         else guarded "tokens.delete" (answer (DeleteToken (f_end f 1%nat) id t) 400%Z)).
End Handlers.

(** ** The routes of the accounts (kvisior/main.go) *)

Inductive route := RPassword | RUsers | RUser | RGroups | RGroup | RTokens | RToken.
Global Instance route_eq_dec : EqDecision route.
Proof. solve_decision. Defined.

(** The pattern the router finds for a path: the exact one, else the one it starts with. *)
Definition route_of (path : string) : option route :=
  if path == "/api/auth/change-password" then Some RPassword
  else if path == "/api/users" then Some RUsers
  else if HasPrefix path "/api/users/" then Some RUser
  else if path == "/api/groups" then Some RGroups
  else if HasPrefix path "/api/groups/" then Some RGroup
  else if path == "/api/tokens" then Some RTokens
  else if HasPrefix path "/api/tokens/" then Some RToken
  else None.

Definition handler (x : route) (r : Request) (body : option Body) (f : Fate) (a : Acting) (m : Manager) (t : Tables) : Manager * Tables * Z :=
  match x with
  | RPassword => HandleChangePassword r body f a m t
  | RUsers => HandleUsers r body f a m t
  | RUser => HandleUsersSub r body f a m t
  | RGroups => HandleGroups r body f a m t
  | RGroup => HandleGroupItem r body f a m t
  | RTokens => HandleTokens r body f a m t
  | RToken => HandleTokenItem r f a m t
  end.

(** [mutationsRequireAdmin] (kvisior/middleware.go). *)
Definition mutationsRequireAdmin (next : Acting → Manager → Tables → Manager * Tables * Z) (r : Request) (a : Acting) (m : Manager) (t : Tables)
  : Manager * Tables * Z :=
  if (q_Method r == "GET") || (q_Method r == "HEAD") || (q_Method r == "OPTIONS") then next a m t
  else if HasSuffix (q_Path r) "/auth/change-password" then next a m t
  else if a_role a != "admin" then (m, t, 403%Z)
  else next a m t.

(** Behind [authed], and [adminMut] for every route but the change of password. *)
Definition chain (x : route) (r : Request) (body : option Body) (f : Fate) : Acting → Manager → Tables → Manager * Tables * Z :=
  match x with
  | RPassword => handler x r body f
  | _ => mutationsRequireAdmin (handler x r body f) r
  end.

Definition serve (r : Request) (body : option Body) (f : Fate) (m : Manager) (t : Tables) : Manager * Tables * Z :=
  match route_of (q_Path r) with
  | None => (m, t, 404%Z)
  | Some x => requireAuth r f (chain x r body f) id m t
  end.
End Auth.
