(* ===== verification/AuthProps.v ===== *)
(** * The guards of the accounts: who changes them, and for how long a caller is known

    A request changes users, groups and tokens only as an administrator, or its
    own password with the current one; a caller is a user the store vouched for
    in the last five seconds; failed logins are limited; and no sequence of
    requests takes the built-in administrator's role away. *)

From Stdlib Require Import Ascii ssreflect.
From stdpp Require Import base list gmap strings.
From S2P Require Import Prelude GoStrings Accounts Auth.
Local Open Scope string_scope.
Local Open Scope list_scope.
Local Open Scope go_scope.

(** ** Tables that differ in sessions and uses only *)

Definition unused (r : TokenRow) : TokenRow :=
  {| tr_name := tr_name r; tr_hash := tr_hash r; tr_role := tr_role r; tr_user := tr_user r; tr_created := tr_created r;
     tr_expires := tr_expires r; tr_last_used := None |}.

Definition same_accounts (t t' : Tables) : Prop :=
  t_groups t' = t_groups t ∧ t_users t' = t_users t ∧ unused <$> t_tokens t' = unused <$> t_tokens t.

Global Instance same_accounts_refl : Reflexive same_accounts.
Proof. by intros t. Qed.
Global Instance same_accounts_trans : Transitive same_accounts.
Proof. intros t t' t'' (Hg & Hu & Hk) (Hg' & Hu' & Hk'). split_and!; congruence. Qed.

Lemma exec_sessions e f t : same_accounts t (exec e (λ t, set_sessions (f t) t) t).
Proof. by rw /exec; case_match. Qed.

Lemma exec_used e now id t : same_accounts t (exec e (λ t, set_tokens (alter (used_at now) id (t_tokens t)) t) t).
Proof.
  rw /exec; case_match; [|done]. repeat split; try done. cbn. apply map_eq; intros k.
  rw !lookup_fmap. destruct (decide (id = k)) as [->|]; [rw lookup_alter_eq|by rw lookup_alter_ne].
  by destruct (t_tokens t !! k).
Qed.
Create HintDb accounts.
#[export] Hint Resolve exec_sessions exec_used same_accounts_refl : accounts.

Lemma lookup_same ok e id now t : same_accounts t (LookupSession ok e id now t).1.
Proof. rw /LookupSession. repeat case_match; cbn; eauto with accounts. Qed.

Lemma validate_same sha ok e p now t : same_accounts t (ValidateToken sha ok e p now t).1.
Proof. rw /ValidateToken. repeat case_match; cbn; eauto with accounts. Qed.

Section Resolve.
  Context (sha : string → string).

Lemma resolve_same r f m t : same_accounts t (Resolve sha r f m t).1.2.
Proof.
  rw /Resolve /resolveSession /resolveToken.
  pose proof (lookup_same (f_ok f) (f_end f 0%nat) (q_Session r) (f_now f) t).
  pose proof (validate_same sha (f_ok f) (f_end f 0%nat) (trim_prefix (q_Authorization r) "Bearer ") (f_now f) t).
  repeat case_match; simplify_eq/=; done.
Qed.
End Resolve.

Lemma verify_congr compare ok name pw t t' :
  t_users t' = t_users t → t_groups t' = t_groups t → VerifyPassword compare ok name pw t' = VerifyPassword compare ok name pw t.
Proof. intros Hu Hg. rw /VerifyPassword Hu. repeat case_match; try done. by rw /user_of Hg. Qed.

(** ** Only an administrator changes the accounts *)

Lemma callerRole_cases a : callerRole a = RoleAdmin ∨ callerRole a = RoleRO.
Proof.
  rw /callerRole. case_match eqn:E; [|by right]. unfold ValidRole in E.
  apply orb_true_iff in E as [E|E]; apply String.eqb_eq in E; auto.
Qed.

Section Guards.
  Context {T : CaseTables} {O : MapOrder}.
  Context (compare : string → string → bool) (sha : string → string) (federation : string).

(** The identity a request is served under. *)
Definition acting_as (r : Request) (f : Fate) (m : Manager) (t : Tables) : option Acting :=
  if trusted federation r then
    if (q_FedUser r == "") || negb (ValidRole (q_FedRole r)) then None else Some {| a_user := q_FedUser r; a_role := q_FedRole r |}
  else (λ u, {| a_user := U_Username (ui_User u); a_role := U_EffectiveRole (ui_User u) |}) <$> (Resolve sha r f m t).2.

Lemma handler_ro x r body f a m t :
  x ≠ RPassword → callerRole a = RoleRO → (handler compare sha x r body f a m t).1.2 = t.
Proof.
  intros Hx Ha. destruct x; try done;
    unfold handler, HandleUsers, HandleUsersSub, handleUserItem, handleUserPasswordReset, HandleGroups, HandleGroupItem, HandleTokens,
      HandleTokenItem, ready, guarded, requirePerm; rw Ha; cbn; by repeat case_match.
Qed.

Lemma chain_ro x r body f a m t :
  x ≠ RPassword → callerRole a = RoleRO → (chain compare sha x r body f a m t).1.2 = t.
Proof.
  intros Hx Ha. assert (∀ y, y = x → (mutationsRequireAdmin (handler compare sha y r body f) r a m t).1.2 = t) as H.
  { intros y ->. rw /mutationsRequireAdmin. repeat case_match; try done; by apply handler_ro. }
  destruct x; try done; by apply H.
Qed.

(** A change of the caller's own password: its current one was checked. *)
Definition own_password (r : Request) (body : option Body) (f : Fate) (a : Acting) (t t' : Tables) : Prop :=
  ∃ b u h, body = Some b ∧ VerifyPassword compare (f_ok f 2%nat) (TrimSpace (a_user a)) (b_current b) t = Some u ∧
           f_hash f = Some h ∧ ValidatePassword (b_new b) = true ∧
           t_groups t' = t_groups t ∧ unused <$> t_tokens t' = unused <$> t_tokens t ∧ t_users t' = alter (with_hash h) (U_ID u) (t_users t).

Lemma password_cases r body f a m t t0 :
  same_accounts t0 t →
  let t' := (HandleChangePassword compare r body f a m t).1.2 in same_accounts t0 t' ∨ own_password r body f a t0 t'.
Proof.
  intros (Hg & Hu & Hk) t'. unfold t', HandleChangePassword, ready, with_body, answer, ChangePassword.
  assert (same_accounts t0 t) by done.
  repeat case_match; try (by left); cbn.
  all: unfold SetPassword; repeat case_match; cbn; try (by left).
  all: unfold exec; repeat case_match; cbn in *; try (by left).
  all: right; eexists _, _, _; rw -(verify_congr compare _ _ _ t0 t) //;
    split_and!; try done; try (by apply negb_false_iff); by rw Hu.
Qed.

(** C23: Whatever headers a request carries, serving it changes users, groups and
    tokens (but the time of a token's last use) only if it is served under an
    administrator's identity, which is the federated one behind the federation
    token and otherwise the one its session or token resolves to; or if it asks
    to change its own password, with the current one, and then nothing but that
    hash changes. *)
Theorem admin_only_changes r body f m t :
  let t' := (serve compare sha federation r body f m t).1.2 in
  same_accounts t t' ∨
  ∃ a, acting_as r f m t = Some a ∧
    (callerRole a = RoleAdmin ∨ route_of (q_Path r) = Some RPassword ∧ own_password r body f a t t').
Proof.
  intros t'. unfold t', serve. destruct (route_of (q_Path r)) as [x|] eqn:Hx; [|by left].
  assert (∀ a m1 t1, same_accounts t t1 → acting_as r f m t = Some a →
            same_accounts t (chain compare sha x r body f a m1 t1).1.2 ∨
            ∃ a, acting_as r f m t = Some a ∧ (callerRole a = RoleAdmin ∨
              Some x = Some RPassword ∧ own_password r body f a t (chain compare sha x r body f a m1 t1).1.2)) as step.
  { intros a m1 t1 Hs Ha. destruct (callerRole_cases a) as [|Hro]; [right; eauto|].
    destruct (decide (x = RPassword)) as [->|Hne]; [|rw chain_ro //; by left].
    destruct (password_cases r body f a m1 t1 t Hs) as [|]; [by left|right; eauto]. }
  unfold requireAuth, RequireAuth, acting_as in *. pose proof (resolve_same sha r f m t) as Hs.
  destruct (trusted federation r); [destruct (_ || _); [by left|]|].
  - destruct (step _ m t (same_accounts_refl t) eq_refl) as [|(a & Ha & H)]; [by left|simplify_eq; right; eauto].
  - destruct (Resolve sha r f m t) as [[m1 t1] [u|]]; cbn in *; [|by left].
    destruct (step _ m1 t1 Hs eq_refl) as [|(a & Ha & H)]; [by left|simplify_eq; right; eauto].
Qed.
End Guards.

(** ** Sequences of requests *)

(** What happens to the hub: a request to the accounts, a login, a logout, and
    the changes of another hub on the same tables. *)
Inductive event :=
  | EServe (r : Request) (body : option Body) (f : Fate)
  | ELogin (r : Request) (body : option (string * string)) (f : Fate)
  | ELogout (r : Request) (f : Fate)
  | EOther (g : Tables → Tables).

Section Sequences.
  Context {T : CaseTables} {O : MapOrder}.
  Context (compare : string → string → bool) (sha : string → string) (mac : string → string) (ParseInt : string → option Z) (federation : string).

Definition happen (s : Manager * Tables) (e : event) : Manager * Tables :=
  match e with
  | EServe r body f => (serve compare sha federation r body f s.1 s.2).1
  | ELogin r body f => (HandleLogin compare mac ParseInt r body f s.1 s.2).1
  | ELogout r f => (HandleLogout r f s.1 s.2).1
  | EOther g => (s.1, g s.2)
  end.
Definition run (es : list event) (s : Manager * Tables) : Manager * Tables := foldl happen s es.

(** ** A caller is known for five seconds *)

(** The key of a request's credentials in the cache. *)
Definition credentials (r : Request) : string :=
  if q_Session r != "" then q_Session r else tokenKey (trim_prefix (q_Authorization r) "Bearer ").

(** The store vouches for a key: it has that session, or that token. *)
Definition vouches (key : string) (f : Fate) (t : Tables) (u : UserInfo) : Prop :=
  ∃ v, u = userInfo v ∧
    ((LookupSession (f_ok f) (f_end f 0%nat) key (f_now f) t).2 = Some v ∨
     ∃ token, key = tokenKey token ∧ (ValidateToken sha (f_ok f) (f_end f 0%nat) token (f_now f) t).2 = Some v).

(** A moment of a run: an event, and the tables it met. *)
Definition vouched_in (es : list event) (s : Manager * Tables) (key : string) (u : UserInfo) (at_ : Time) : Prop :=
  ∃ es1 es2 r body f, es = es1 ++ EServe r body f :: es2 ∧ f_now f = at_ ∧ vouches key f (run es1 s).2 u.

Lemma vouched_in_app es e s key u τ : vouched_in es s key u τ → vouched_in (es ++ [e]) s key u τ.
Proof. intros (es1 & es2 & r & b & f & -> & ? & ?). exists es1, (es2 ++ [e]), r, b, f. by rw -app_assoc. Qed.

Lemma cacheSet_lookup key u now m k e :
  am_cache (cacheSet key u now m) !! k = Some e →
  am_cache m !! k = Some e ∨ k = key ∧ e = {| ce_user := u; ce_expiresAt := TAdd now cacheTTL |}.
Proof.
  unfold cacheSet. set (c := if (cacheMax <=? size (am_cache m))%nat then _ else _).
  assert (c !! k = Some e → am_cache m !! k = Some e) as H.
  { unfold c. case_match; [|done]. by intros [? _]%map_lookup_filter_Some. }
  cbn [am_cache set_cache]. destruct (size c <? cacheMax)%nat; [|by auto].
  intros [[-> <-]|[_ ?]]%lookup_insert_Some; auto.
Qed.

Lemma invalidate_lookup id m k e : am_cache (invalidate id m) !! k = Some e → am_cache m !! k = Some e.
Proof. cbn. by intros [_ ?]%lookup_delete_Some. Qed.

(** What resolving a request leaves in the cache is old, or vouched for now. *)
Lemma resolve_cache r f m t k e :
  am_cache (Resolve sha r f m t).1.1 !! k = Some e →
  am_cache m !! k = Some e ∨ vouches k f t (ce_user e) ∧ ce_expiresAt e = TAdd (f_now f) cacheTTL.
Proof.
  unfold Resolve, resolveSession, resolveToken.
  destruct (q_Session r != ""); [|destruct (HasPrefix _ _); [|by left]]; (destruct (cached _ _ _); [by left|]);
    (destruct (am_store m); [|by left]); cbn [negb].
  - destruct (LookupSession _ _ _ _ _) as [t' [v|]] eqn:E; cbn [fst snd]; intros H.
    + apply cacheSet_lookup in H as [|[-> ->]]; [by left|right]. split; [|done]. exists v. rw E. auto.
    + apply invalidate_lookup in H. by left.
  - destruct (ValidateToken _ _ _ _ _ _) as [t' [v|]] eqn:E; cbn [fst snd]; intros H; [|by left].
    apply cacheSet_lookup in H as [|[-> ->]]; [by left|right]. split; [|done]. exists v. split; [done|right].
    exists (trim_prefix (q_Authorization r) "Bearer "). by rw E.
Qed.

Lemma handler_cache x r body f a m t : (handler compare sha x r body f a m t).1.1 = m.
Proof.
  destruct x; unfold handler, HandleChangePassword, HandleUsers, HandleUsersSub, handleUserItem, handleUserPasswordReset, HandleGroups,
    HandleGroupItem, HandleTokens, HandleTokenItem, ready, guarded, with_body, answer; by repeat case_match.
Qed.

Lemma chain_cache x r body f a m t : (chain compare sha x r body f a m t).1.1 = m.
Proof.
  destruct x; cbn [chain]; unfold mutationsRequireAdmin; repeat case_match; try done; by rw handler_cache.
Qed.

Lemma happen_cache e s k c :
  am_cache (happen s e).1 !! k = Some c →
  am_cache s.1 !! k = Some c ∨
  ∃ r body f, e = EServe r body f ∧ vouches k f s.2 (ce_user c) ∧ ce_expiresAt c = TAdd (f_now f) cacheTTL.
Proof.
  destruct s as [m t], e as [r body f|r body f|r f|g]; cbn [happen fst snd].
  - unfold serve. destruct (route_of _); [|by left]. unfold requireAuth, RequireAuth.
    destruct (trusted federation r); [destruct (_ || _); cbn [fst]; rw ?chain_cache; by left|].
    pose proof (resolve_cache r f m t k c) as H. destruct (Resolve sha r f m t) as [[m1 t1] [u|]]; cbn [fst snd] in *;
      rw ?chain_cache; intros [|[]]%H; eauto 10.
  - unfold HandleLogin. intros H. left. revert H. unfold set_rl. repeat case_match; by cbn in *.
  - unfold HandleLogout. intros H. left. revert H. repeat case_match; cbn [fst]; try done; apply invalidate_lookup.
  - by left.
Qed.

Lemma run_cache es store t k c :
  am_cache (run es (New store, t)).1 !! k = Some c →
  ∃ τ, vouched_in es (New store, t) k (ce_user c) τ ∧ ce_expiresAt c = TAdd τ cacheTTL.
Proof.
  revert k c. induction es as [|e es IH] using rev_ind; intros k c; [by cbn; rw lookup_empty|].
  unfold run in *. rw foldl_app. cbn [foldl]. intros [H|(r & b & f & -> & H & Hx)]%happen_cache.
  - destruct (IH _ _ H) as (τ & ? & ?). exists τ. by split; [apply vouched_in_app|].
  - exists (f_now f). split; [|done]. by exists es, [], r, b, f.
Qed.

(** After any sequence of requests, logins, logouts and changes by others,
    the user a request resolves to is one the store vouched for under the same
    key: now, or at an earlier request less than five seconds ago. So what the
    store no longer knows is refused five seconds later. *)
Theorem resolved_recently es store t0 r f u :
  let '(m, t) := run es (New store, t0) in
  (Resolve sha r f m t).2 = Some u →
  vouches (credentials r) f t u ∨
  ∃ τ, vouched_in es (New store, t0) (credentials r) u τ ∧ (f_now f < τ + 5 * Second)%Z.
Proof.
  pose proof (run_cache es store t0 (credentials r)) as C. destruct (run es _) as [m t]. cbn [fst] in C.
  assert (∀ key u, key = credentials r → cached key (f_now f) m = Some u →
            ∃ τ, vouched_in es (New store, t0) (credentials r) u τ ∧ (f_now f < τ + 5 * Second)%Z) as Hc.
  { intros key v ->. unfold cached. destruct (am_cache m !! credentials r) as [c|] eqn:E; [|done].
    destruct (Before _ _) eqn:B; [|done]. intros [= <-]. destruct (C _ eq_refl) as (τ & ? & Hx). exists τ. split; [done|].
    unfold Before in B. rw Hx in B. unfold TAdd, cacheTTL in B. lia. }
  unfold Resolve, resolveSession, resolveToken, credentials in *.
  destruct (q_Session r != ""); [|destruct (HasPrefix _ _); [|done]];
    (destruct (cached _ _ _) as [v|] eqn:E; [cbn [snd]; intros [= <-]; right; by eapply Hc|]); destruct (am_store m); cbn [negb snd]; try done.
  - destruct (LookupSession _ _ _ _ _) as [t' [v|]] eqn:L; cbn [snd]; [intros [= <-]|done]. left. exists v. rw L. auto.
  - destruct (ValidateToken _ _ _ _ _ _) as [t' [v|]] eqn:L; cbn [snd]; [intros [= <-]|done]. left. exists v. split; [done|right].
    exists (trim_prefix (q_Authorization r) "Bearer "). by rw L.
Qed.

(** ** The built-in administrator *)

Definition has_admin (t : Tables) : Prop := ∃ r, t_users t !! builtin_admin = Some r ∧ ur_role r = RoleAdmin.

Lemma has_admin_same t t' : same_accounts t t' → has_admin t → has_admin t'.
Proof. intros (_ & Hu & _) (r & ? & ?). exists r. by rw Hu. Qed.

Lemma has_admin_exec e g t : (has_admin t → has_admin (g t)) → has_admin t → has_admin (exec e g t).
Proof. unfold exec. by case_match; auto. Qed.

Lemma has_admin_alter (g : UserRow → UserRow) id t :
  (∀ r, id = builtin_admin → ur_role r = RoleAdmin → ur_role (g r) = RoleAdmin) → has_admin t → has_admin (set_users (alter g id (t_users t)) t).
Proof.
  intros Hg (r & Hr & Hrole). destruct (decide (id = builtin_admin)) as [->|].
  - exists (g r). cbn. rw lookup_alter_eq Hr. auto.
  - exists r. cbn. by rw lookup_alter_ne.
Qed.

Lemma SetPassword_admin f id pw h t : has_admin t → has_admin (SetPassword f id pw h t).1.
Proof.
  intros H. assert (∀ h, has_admin (exec (f 0%nat) (λ t, set_users (alter (with_hash h) id (t_users t)) t) t)) as H1.
  { intros h'. apply has_admin_exec; [|done]. apply has_admin_alter. by intros r _. }
  unfold SetPassword. repeat case_match; try done; cbn; try (by apply H1).
  eapply has_admin_same; [apply exec_sessions|by apply H1].
Qed.

Lemma CreateUser_admin f name email full gid role pw h rid now t : has_admin t → has_admin (CreateUser f name email full gid role pw h rid now t).1.
Proof.
  intros H. unfold CreateUser. cbn zeta.
  destruct (TrimSpace name == ""); [done|]. destruct (ValidRole role); [|done]. destruct ((pw != "") && _); [done|]. cbn [negb].
  destruct (if pw != "" then h else Some "") as [x|]; [|done].
  destruct (negb _) eqn:E; [done|]. bool_hyps. rename select (bool_decide (t_users t !! _ = None) = true) into N.
  apply bool_decide_eq_true in N. cbn. apply has_admin_exec; [|done]. intros (r & Hr & ?). exists r. split; [|done]. cbn in *.
  rw lookup_insert_ne //. congruence.
Qed.

Lemma UpdateUser_admin f id email full gid role t : has_admin t → has_admin (UpdateUser f id email full gid role t).1.
Proof.
  intros H. unfold UpdateUser. destruct (ValidRole role); [|done]. cbn [negb]. destruct ((id == builtin_admin) && _) eqn:E; [done|].
  destruct (t_users t !! id); [|done]. destruct (group_fits _ _); [|done]. cbn. apply has_admin_exec; [|done].
  apply has_admin_alter. intros r -> _. cbn. rw String.eqb_refl in E. by apply negb_false_iff, String.eqb_eq in E.
Qed.

Lemma DeleteUser_admin e id t : has_admin t → has_admin (DeleteUser e id t).1.
Proof.
  intros H. unfold DeleteUser. destruct (id == builtin_admin) eqn:E; [done|]. destruct (t_users t !! id); [|done].
  apply has_admin_exec; [|done]. intros (r & Hr & ?). exists r. split; [|done]. cbn. rw lookup_delete_ne //.
  by apply String.eqb_neq in E.
Qed.

Lemma DeleteGroup_admin e id t : has_admin t → has_admin (DeleteGroup e id t).1.
Proof.
  intros H. unfold DeleteGroup. destruct (t_groups t !! id); [|done]. apply has_admin_exec; [|done]. intros (r & Hr & ?).
  exists (without_group id r). cbn. rw lookup_fmap Hr. split; [done|]. unfold without_group. by case_match.
Qed.

(** Operations that leave the users alone. *)
Lemma has_admin_users t t' : t_users t' = t_users t → has_admin t → has_admin t'.
Proof. intros Hu (r & ? & ?). exists r. by rw Hu. Qed.

Ltac same_users := intros; eapply has_admin_users; [|eassumption]; unfold exec; by repeat case_match.

Lemma CreateGroup_admin e n d ro rid now t : has_admin t → has_admin (CreateGroup e n d ro rid now t).1.
Proof. unfold CreateGroup. same_users. Qed.
Lemma UpdateGroup_admin e id n d ro now t : has_admin t → has_admin (UpdateGroup e id n d ro now t).1.
Proof. unfold UpdateGroup. same_users. Qed.
Lemma CreateToken_admin e n ro uid ttl rnd rid now t : has_admin t → has_admin (CreateToken sha e n ro uid ttl rnd rid now t).1.
Proof. unfold CreateToken. same_users. Qed.
Lemma DeleteToken_admin e id t : has_admin t → has_admin (DeleteToken e id t).1.
Proof. unfold DeleteToken. same_users. Qed.
Lemma CreateSession_admin e rnd uid ttl now t : has_admin t → has_admin (CreateSession e rnd uid ttl now t).1.
Proof. unfold CreateSession. same_users. Qed.

Hint Resolve SetPassword_admin CreateUser_admin UpdateUser_admin DeleteUser_admin DeleteGroup_admin CreateGroup_admin UpdateGroup_admin
  CreateToken_admin DeleteToken_admin CreateSession_admin : accounts.

Lemma handler_admin x r body f a m t : has_admin t → has_admin (handler compare sha x r body f a m t).1.2.
Proof.
  intros H. destruct x; unfold handler, HandleChangePassword, ChangePassword, HandleUsers, HandleUsersSub, handleUserItem,
    handleUserPasswordReset, HandleGroups, HandleGroupItem, HandleTokens, HandleTokenItem, ready, guarded, with_body, answer, told, listed;
    repeat case_match; cbn [fst snd]; eauto with accounts.
Qed.

Lemma chain_admin x r body f a m t : has_admin t → has_admin (chain compare sha x r body f a m t).1.2.
Proof.
  intros H. destruct x; cbn [chain]; unfold mutationsRequireAdmin; repeat case_match; try done; by apply handler_admin.
Qed.

Lemma happen_admin e s : (∀ g, e ≠ EOther g) → has_admin s.2 → has_admin (happen s e).2.
Proof.
  destruct s as [m t], e as [r body f|r body f|r f|g]; cbn [happen fst snd]; intros He H.
  - unfold serve. destruct (route_of _); [|done]. unfold requireAuth, RequireAuth.
    destruct (trusted federation r); [destruct (_ || _); [done|by apply chain_admin]|].
    pose proof (has_admin_same _ _ (resolve_same sha r f m t) H). destruct (Resolve sha r f m t) as [[m1 t1] [u|]]; [by apply chain_admin|done].
  - unfold HandleLogin. pose proof (λ e rnd uid ttl now, CreateSession_admin e rnd uid ttl now t H) as C.
    repeat (case_match; try done); simplify_eq/=.
    all: match goal with E : CreateSession ?e ?rnd ?uid ?ttl ?now _ = _ |- _ => specialize (C e rnd uid ttl now); by rw E in C end.
  - unfold HandleLogout. repeat case_match; try done; cbn. eapply has_admin_same; [apply exec_sessions|done].
  - by destruct (He g).
Qed.

(** No sequence of requests, logins and logouts, whoever sends them and
    whatever fails, deletes the built-in administrator or takes its role away. *)
Theorem builtin_admin_stays es s :
  (∀ g, EOther g ∉ es) → has_admin s.2 → has_admin (run es s).2.
Proof.
  revert s. induction es as [|e es IH]; intros s He H; [done|]. cbn. apply IH.
  - intros g Hg. by apply (He g), list_elem_of_further.
  - apply happen_admin; [|done]. intros g ->. apply (He g), list_elem_of_here.
Qed.
End Sequences.

(** ** Failed logins *)

Section Logins.
  Context {T : CaseTables} {O : MapOrder}.
  Context (compare : string → string → bool) (mac : string → string) (ParseInt : string → option Z).

Record Attempt := { at_request : Request; at_name : string; at_password : string; at_fate : Fate }.

Fixpoint logins (l : list Attempt) (m : Manager) (t : Tables) : Manager * Tables * list login :=
  match l with
  | [] => (m, t, [])
  | x :: l => let '(m, t, y) := HandleLogin compare mac ParseInt (at_request x) (Some (at_name x, at_password x)) (at_fate x) m t in
              let '(m, t, ys) := logins l m t in (m, t, y :: ys)
  end.

(** An attempt counted under [key], at a time of the window of [a]. *)
Definition keyed (key : string) (a : Time) (x : Attempt) : Prop :=
  q_Method (at_request x) = "POST" ∧
  rl_key mac ParseInt (at_request x) (ToLower (TrimSpace (at_name x))) (f_now (at_fate x)) = key ∧
  (a <= f_now (at_fate x) < a + rlWindow)%Z.

(** The store does not verify its password. *)
Definition wrong (t : Tables) (x : Attempt) : Prop :=
  VerifyPassword compare (f_ok (at_fate x) 0%nat) (at_name x) (at_password x) t = None.

Lemma rlRecord_fresh key now rl : rl !! key = None → rlRecord key now rl !! key = Some {| rl_failures := 1; rl_resetAt := TAdd now rlWindow |}.
Proof.
  intros H. unfold rlRecord. set (rl' := if (rlEntriesMax <=? size rl)%nat then _ else _).
  assert (rl' !! key = None) as H' by (unfold rl'; case_match; [apply map_lookup_filter_None; by left|done]).
  by rw H' lookup_insert_eq.
Qed.

Lemma rlRecord_live key now rl n R :
  (now <= R)%Z → rl !! key = Some {| rl_failures := n; rl_resetAt := R |} →
  rlRecord key now rl !! key = Some {| rl_failures := S n; rl_resetAt := R |}.
Proof.
  intros Hle H. unfold rlRecord. assert (After now R = false) as Ha by (unfold After; lia).
  set (rl' := if (rlEntriesMax <=? size rl)%nat then _ else _).
  assert (rl' !! key = Some {| rl_failures := n; rl_resetAt := R |}) as H'.
  { unfold rl'. case_match; [|done]. by apply map_lookup_filter_Some. }
  rw H' /=. rw Ha. by rw lookup_insert_eq.
Qed.

(** No entry, or one whose window is over. *)
Definition unlimited (key : string) (now : Time) (m : Manager) : Prop :=
  match am_rl m !! key with Some e => (rl_resetAt e < now)%Z | None => True end.

Lemma attempt_first key t a x m :
  am_store m = true → keyed key a x → wrong t x → unlimited key (f_now (at_fate x)) m →
  ∃ m', HandleLogin compare mac ParseInt (at_request x) (Some (at_name x, at_password x)) (at_fate x) m t = (m', t, Refused 401%Z) ∧
        am_store m' = true ∧ am_rl m' !! key = Some {| rl_failures := 1; rl_resetAt := TAdd (f_now (at_fate x)) rlWindow |}.
Proof.
  intros Hs (HP & Hk & _) Hv Hu. unfold wrong, HandleLogin, unlimited in *. rw HP Hs Hk Hv /=. unfold rlCheck.
  destruct (am_rl m !! key) as [e|] eqn:E; cbn.
  - assert (After (f_now (at_fate x)) (rl_resetAt e) = true) as -> by (unfold After; lia). cbn. eexists. split_and!; [done..|].
    apply rlRecord_fresh, lookup_delete_eq.
  - eexists. split_and!; [done..|]. by apply rlRecord_fresh.
Qed.

Lemma attempt_next key t a x m n :
  am_store m = true → keyed key a x → ((n < 5)%nat → wrong t x) → am_rl m !! key = Some {| rl_failures := n; rl_resetAt := (a + rlWindow)%Z |} →
  ∃ m', HandleLogin compare mac ParseInt (at_request x) (Some (at_name x, at_password x)) (at_fate x) m t =
          (m', t, Refused (if (5 <=? n)%nat then 429 else 401)%Z) ∧
        am_store m' = true ∧ am_rl m' !! key = Some {| rl_failures := if (5 <=? n)%nat then n else S n; rl_resetAt := (a + rlWindow)%Z |}.
Proof.
  intros Hs (HP & Hk & Ht) Hv E. destruct (5 <=? n)%nat eqn:En; unfold HandleLogin; rw HP Hs Hk /=; unfold rlCheck; rw E; cbn [rl_resetAt rl_failures];
    (assert (After (f_now (at_fate x)) (a + rlWindow)%Z = false) as -> by (unfold After; lia)); unfold rlMaxTries; rw En; cbn.
  - assert ((0 <? TSub (a + rlWindow) (f_now (at_fate x)))%Z = true) as ->.
    { unfold TSub, minInt64, maxInt64. apply Z.ltb_lt. lia. }
    eexists. split_and!; [reflexivity|exact Hs|exact E].
  - assert (wrong t x) as Hw by (apply Hv; by apply Nat.leb_gt in En). unfold wrong in Hw. rw Hw. eexists. split_and!; [done..|]. cbn. apply rlRecord_live; [lia|done].
Qed.

(** [k] answers, when [n] failures are counted: refused as wrong up to the fifth, then unseen. *)
Definition refusals (n k : nat) : list login :=
  replicate ((5 - n) `min` k) (Refused 401%Z) ++ replicate (k - (5 - n)) (Refused 429%Z).

Lemma refusals_S n k : refusals n (S k) = Refused (if (5 <=? n)%nat then 429 else 401)%Z :: refusals (if (5 <=? n)%nat then n else S n) k.
Proof.
  unfold refusals. destruct (5 <=? n)%nat eqn:E; bool_hyps.
  - by replace (5 - n) with 0 by lia; rw /= Nat.sub_0_r.
  - replace (5 - n) with (S (5 - S n)) by lia. done.
Qed.

Lemma logins_rest key t a l m n :
  am_store m = true → Forall (keyed key a) l → Forall (wrong t) (take (5 - n) l) →
  am_rl m !! key = Some {| rl_failures := n; rl_resetAt := (a + rlWindow)%Z |} →
  (logins l m t).1.2 = t ∧ (logins l m t).2 = refusals n (length l).
Proof.
  revert m n. induction l as [|x l IH]; intros m n Hs Hf Hw E; [by unfold refusals; rw /= Nat.min_0_r|].
  apply Forall_cons in Hf as [Hx Hl]. assert ((n < 5)%nat → wrong t x) as Hxw.
  { intros Hn. replace (5 - n) with (S (5 - S n)) in Hw by lia. by apply Forall_cons in Hw as [? _]. }
  destruct (attempt_next _ t _ _ _ _ Hs Hx Hxw E) as (m' & H & Hs' & E').
  assert (Forall (wrong t) (take (5 - (if (5 <=? n)%nat then n else S n)) l)) as Hlw.
  { destruct (5 <=? n)%nat eqn:En; [apply Nat.leb_le in En; by replace (5 - n) with 0 by lia|apply Nat.leb_gt in En].
    replace (5 - n) with (S (5 - S n)) in Hw by lia. by apply Forall_cons in Hw as [_ ?]. }
  destruct (IH _ _ Hs' Hl Hlw E') as [H1 H2]. cbn [logins length]. rw H refusals_S -H2. by destruct (logins l m' t) as [[??]?].
Qed.

(** C24: with a store of accounts and no failures counted under the key
    before, or in a window that is over: attempts that share one limiter key
    (an account without a known device, or one device), made one after the
    other with no other login request between, within a minute of the first,
    the first five with wrong passwords: these five are looked at, and every
    further attempt is refused unseen, with a right password too, however full
    the table of limits is when they start; none of them changes the tables.
    *)
Theorem login_throttled key t x l m :
  am_store m = true → unlimited key (f_now (at_fate x)) m →
  Forall (keyed key (f_now (at_fate x))) (x :: l) → Forall (wrong t) (take 5 (x :: l)) →
  (logins (x :: l) m t).1.2 = t ∧
  (logins (x :: l) m t).2 = replicate (5 `min` S (length l)) (Refused 401%Z) ++ replicate (length l - 4) (Refused 429%Z).
Proof.
  intros Hs Hu [Hx Hl]%Forall_cons [Hxw Hlw]%Forall_cons. destruct (attempt_first _ _ _ _ _ Hs Hx Hxw Hu) as (m' & H & Hs' & E).
  destruct (logins_rest _ _ _ _ _ 1 Hs' Hl Hlw E) as [H1 H2]. cbn [logins]. rw H.
  destruct (logins l m' t) as [[??]?]. cbn in *. by rw H1 H2.
Qed.
End Logins.

(** ** Instances *)

Section Instances.
#[local] Existing Instance ascii_tables.
#[local] Existing Instance keep_order.

Definition demo_request (meth path session : string) : Request :=
  {| q_Method := meth; q_Path := path; q_Session := session; q_Authorization := ""; q_Device := ""; q_FedToken := ""; q_FedUser := "";
     q_FedRole := ""; q_ActingUser := "root"; q_ActingRole := "admin" |}.
Definition demo_fate (now : Time) (rand : string) : Fate :=
  {| f_ok := λ _, true; f_end := λ _, Done; f_now := now; f_rand := rand; f_randID := rand; f_hash := Some "h" |}.
Definition demo_user (name role : string) : UserRow :=
  {| ur_username := name; ur_email := ""; ur_full_name := ""; ur_group := None; ur_role := role; ur_hash := "pw-" +:+ name; ur_created := 0%Z |}.
Definition demo_tables : Tables :=
  {| t_groups := ∅; t_users := <["usr-admin" := demo_user "root" "admin"]> {["usr-1" := demo_user "ann" "ro"]}; t_sessions := ∅; t_tokens := ∅ |}.
Definition demo_compare (hash pw : string) : bool := hash == pw.
Definition demo_attempt (password : string) (now : Time) : Attempt :=
  {| at_request := demo_request "POST" "/auth/login" ""; at_name := "root"; at_password := password; at_fate := demo_fate now "x" |}.

(** Five guesses, then the right password three times. *)
Lemma login_throttled_witness :
  let password i := if (i <? 5)%nat then "guess" else "pw-root" in
  let l := map (λ i : nat, demo_attempt (password i) (newYear + Z.of_nat i)%Z) (seq 0 8) in
  (logins demo_compare id (λ _, None) l (New true) demo_tables).2 =
    replicate 5 (Refused 401%Z) ++ replicate 3 (Refused 429%Z).
Proof.
  refine (proj2 (login_throttled demo_compare id (λ _, None) "user:root" demo_tables (demo_attempt "guess" newYear)
            (map (λ i : nat, demo_attempt (if (i <? 5)%nat then "guess" else "pw-root") (newYear + Z.of_nat i)%Z) (seq 1 7)) (New true) eq_refl I _ _)).
  - repeat (apply Forall_cons; split; [repeat split; vm_compute; congruence|]). apply Forall_nil. done.
  - repeat (apply Forall_cons; split; [vm_compute; reflexivity|]). apply Forall_nil. done.
Defined.

(** The right password would have been taken. *)
Example right_password_taken :
  (logins demo_compare id (λ _, None) [demo_attempt "pw-root" newYear] (New true) demo_tables).2 = [LoggedIn "sess_x"].
Proof. vm_compute. reflexivity. Qed.

(** The administrator logs in; two seconds later someone else deletes the
    sessions, and four seconds later the session still resolves. *)
Definition demo_run : list event :=
  [ELogin (demo_request "POST" "/auth/login" "") (Some ("root", "pw-root")) (demo_fate 0%Z "s");
   EServe (demo_request "GET" "/api/users" "sess_s") None (demo_fate Second "y");
   EOther (set_sessions ∅)].

Lemma resolved_recently_witness :
  let '(m, t) := run demo_compare id id (λ _, None) "" demo_run (New true, demo_tables) in
  let r := demo_request "GET" "/api/users" "sess_s" in
  let f := demo_fate (4 * Second)%Z "z" in
  ∃ u, (Resolve id r f m t).2 = Some u ∧
       (vouches id (credentials r) f t u ∨
        ∃ τ, vouched_in demo_compare id id (λ _, None) "" demo_run (New true, demo_tables) (credentials r) u τ ∧ (f_now f < τ + 5 * Second)%Z).
Proof.
  pose proof (λ u, resolved_recently demo_compare id id (λ _, None) "" demo_run true demo_tables
               (demo_request "GET" "/api/users" "sess_s") (demo_fate (4 * Second)%Z "z") u) as H.
  destruct (run _ _ _ _ _ demo_run _) as [m t] eqn:E.
  destruct ((Resolve id (demo_request "GET" "/api/users" "sess_s") (demo_fate (4 * Second)%Z "z") m t).2) as [u|] eqn:R.
  - exists u. split; [done|]. by apply H.
  - exfalso. vm_compute in E. injection E as <- <-. vm_compute in R. done.
Defined.

Lemma builtin_admin_stays_witness :
  has_admin (run demo_compare id id (λ _, None) ""
    [ELogin (demo_request "POST" "/auth/login" "") (Some ("root", "pw-root")) (demo_fate 0%Z "s");
     EServe (demo_request "DELETE" "/api/users/usr-admin" "sess_s") None (demo_fate Second "y")] (New true, demo_tables)).2.
Proof.
  apply (builtin_admin_stays demo_compare id id (λ _, None) "").
  - intros g. rw !elem_of_cons. intros [H|[H|H%elem_of_nil]]; done.
  - by exists (demo_user "root" "admin").
Defined.

(** The acting headers of a client do not count: a reader's request to make a
    user is refused, and an administrator's is not. *)
Example acting_headers_ignored :
  let s := run demo_compare id id (λ _, None) ""
    [ELogin (demo_request "POST" "/auth/login" "") (Some ("ann", "pw-ann")) (demo_fate 0%Z "a");
     ELogin (demo_request "POST" "/auth/login" "") (Some ("root", "pw-root")) (demo_fate 0%Z "s")] (New true, demo_tables) in
  let b := {| b_current := ""; b_new := ""; b_name := ""; b_description := ""; b_role := "admin"; b_username := "eve"; b_email := "";
              b_full_name := ""; b_group_id := ""; b_password := ""; b_user_id := ""; b_ttl := None |} in
  (serve demo_compare id "" (demo_request "POST" "/api/users" "sess_a") (Some b) (demo_fate Second "2") s.1 s.2).2 = 403%Z ∧
  (serve demo_compare id "" (demo_request "POST" "/api/users" "sess_s") (Some b) (demo_fate Second "2") s.1 s.2).2 = 200%Z.
Proof. split; vm_compute; reflexivity. Qed.
End Instances.
