(* ===== verification/GoPath.v ===== *)
(** * Package path/filepath on Unix, and the first-match [strings.Replace]

    Paths are cleaned lexically: a stack of names, on which [..] pops. *)

From Stdlib Require Import Ascii ssreflect.
From stdpp Require Import base list strings.
From S2P Require Import Prelude GoStrings GlobSpec.
Local Open Scope string_scope.
Local Open Scope list_scope.
Local Open Scope go_scope.

Definition TrimPrefix (s p : string) : string := if HasPrefix s p then sdrop (String.length p) s else s.

(** [strings.Replace(s, old, new, 1)] for a nonempty [old]. *)
Definition ReplaceFirst (s old new : string) : string :=
  match Index s old with Some i => stake i s +:+ new +:+ sdrop (i + String.length old) s | None => s end.

Definition IsAbs (p : string) : bool := HasPrefix p "/".

(** The names of a path so far, the last first. *)
Definition clean_step (rooted : bool) (stack : list string) (seg : string) : list string :=
  if (seg == "") || (seg == ".") then stack
  else if seg == ".." then
    match stack with
    | top :: rest => if top == ".." then ".." :: stack else rest
    | [] => if rooted then [] else [".."]
    end
  else seg :: stack.

Definition clean_segs (p : string) : list string := reverse (foldl (clean_step (IsAbs p)) [] (Split p "/")).

Definition Clean (p : string) : string :=
  if IsAbs p then "/" +:+ Join (clean_segs p) "/"
  else match clean_segs p with [] => "." | l => Join l "/" end.

Definition path_join (a b : string) : string :=
  if (a == "") && (b == "") then "" else if a == "" then Clean b else if b == "" then Clean a else Clean (a +:+ "/" +:+ b).

(** Up to and including the last slash. *)
Definition dir_part (p : string) : string := match LastIndexByte p "/" with Some i => stake (S i) p | None => "" end.
Definition Dir (p : string) : string := Clean (dir_part p).

Fixpoint trim_slashes_rev (s : string) : string :=
  match s with String a s' => if Ascii.eqb a "/" then trim_slashes_rev s' else s | "" => "" end.
Definition Base (p : string) : string :=
  if p == "" then "."
  else
    let q := srev (trim_slashes_rev (srev p)) in
    let b := match LastIndexByte q "/" with Some i => sdrop (S i) q | None => q end in
    if b == "" then "/" else b.

(** [cwd]: the working directory, when it can be told. *)
Definition Abs (cwd : option string) (p : string) : option string :=
  if IsAbs p then Some (Clean p) else (λ d, path_join d p) <$> cwd.

(** ** Cleaned absolute paths *)

(** A name: no slash, and neither empty nor a dot. *)
Definition name_ok (s : string) : Prop := lacks "/" s ∧ s ≠ "" ∧ s ≠ "." ∧ s ≠ "..".

Definition absolute (p : string) : Prop := ∃ l, p = "/" +:+ Join l "/" ∧ Forall name_ok l.

Lemma clean_step_ok stack seg : lacks "/" seg → Forall name_ok stack → Forall name_ok (clean_step true stack seg).
Proof.
  intros Hl Hs. unfold clean_step. destruct (_ || _) eqn:E; [done|]. apply orb_false_iff in E as [E1 E2].
  apply String.eqb_neq in E1, E2. destruct (seg == "..") eqn:E3.
  - destruct stack as [|top rest]; [done|]. apply Forall_cons in Hs as [(? & ? & ? & Ht) Hr].
    by apply String.eqb_neq in Ht as ->.
  - apply String.eqb_neq in E3. by apply Forall_cons.
Qed.

Lemma clean_fold_ok segs stack :
  Forall (lacks "/") segs → Forall name_ok stack → Forall name_ok (foldl (clean_step true) stack segs).
Proof.
  intros H. revert stack. induction H as [|x l Hx H IH]; intros stack Hs; [done|]. cbn. by apply IH, clean_step_ok.
Qed.

Lemma Clean_absolute p : IsAbs p = true → absolute (Clean p).
Proof.
  intros Ha. unfold Clean. rw Ha. exists (clean_segs p). split; [done|]. unfold clean_segs. rw Ha.
  apply Forall_reverse, clean_fold_ok; [apply Split_lacks|done].
Qed.

Lemma clean_names l stack : Forall name_ok l → foldl (clean_step true) stack l = reverse l ++ stack.
Proof.
  intros H. revert stack. induction H as [|x l (_ & H1 & H2 & H3) H IH]; intros stack; [done|].
  cbn [foldl]. rw IH reverse_cons -app_assoc. f_equal. unfold clean_step.
  apply String.eqb_neq in H1, H2, H3. by rw H1 H2 H3.
Qed.

Lemma Clean_fixed p : absolute p → Clean p = p.
Proof.
  intros (l & -> & Hl). unfold Clean, clean_segs. cbn [IsAbs HasPrefix String.append Ascii.eqb Bool.eqb].
  assert (foldl (clean_step true) [] (Split ("/" +:+ Join l "/") "/") = reverse l) as H.
  { change (Split ("/" +:+ Join l "/") "/") with ("" :: Split (Join l "/") "/"). cbn [foldl clean_step String.eqb orb].
    destruct l as [|x l]; [reflexivity|]. assert (Forall (lacks "/") (x :: l)) as Hx.
    { eapply Forall_impl; [exact Hl|]. by intros y (? & _). }
    by rw (Split_Join (x :: l) "/") // clean_names // app_nil_r. }
  change (IsAbs (String "/" (Join l "/"))) with true. rw H reverse_involutive. done.
Qed.
