(* ===== verification/FsWatch.v ===== *)
(** * forensic-watcher/internal/fswatch: what changed in the file system of a pod

    The writable layer of a container is walked every two minutes; the
    difference to the last walk is pushed to the hub, which appends it to the
    entries of the pod. A walk, the answers of the Kubernetes API and of the
    file system, and the fate of a push are arguments. *)

From Stdlib Require Import Ascii.
From stdpp Require Import base list gmap strings sorting.
From S2P Require Import Prelude GoStrings GoValue GoPath.
Local Open Scope string_scope.
Local Open Scope list_scope.
Local Open Scope go_scope.

Definition maxFilesPerDiff : Z := 10000.
Definition maxHashBytes : Z := (10 * 2 ^ 20)%Z.
Definition aufsWhiteout : string := ".wh.".
Definition aufsOpaque : string := ".wh..wh..opq".

Inductive kind := kindFile | kindWhiteout | kindOpaqueDir.
Global Instance kind_eq_dec : EqDecision kind.
Proof. solve_decision. Defined.

Record FileEntry := {
  Path : string; Op : string; Size : Z; Mtime : string; SHA256 : string; SnappedAt : string; ContainerID : string; Baseline : bool;
  fe_kind : kind;
}.
Global Instance FileEntry_eq_dec : EqDecision FileEntry.
Proof. solve_decision. Defined.

Definition OpAdded : string := "added".
Definition OpModified : string := "modified".
Definition OpDeleted : string := "deleted".
Definition OpReplaced : string := "replaced".
Definition OpRestored : string := "restored".

(** An entry of a walk, without its operation. *)
Definition found (path : string) (k : kind) (size : Z) (mtime sha : string) : FileEntry :=
  {| Path := path; Op := ""; Size := size; Mtime := mtime; SHA256 := sha; SnappedAt := ""; ContainerID := ""; Baseline := false; fe_kind := k |}.
Definition with_op (op now : string) (e : FileEntry) : FileEntry :=
  {| Path := Path e; Op := op; Size := Size e; Mtime := Mtime e; SHA256 := SHA256 e; SnappedAt := now; ContainerID := ContainerID e;
     Baseline := Baseline e; fe_kind := fe_kind e |}.
Definition with_size (p e : FileEntry) : FileEntry :=
  {| Path := Path e; Op := Op e; Size := Size p; Mtime := Mtime p; SHA256 := SHA256 e; SnappedAt := SnappedAt e; ContainerID := ContainerID e;
     Baseline := Baseline e; fe_kind := fe_kind e |}.
Definition with_container (id : string) (e : FileEntry) : FileEntry :=
  {| Path := Path e; Op := Op e; Size := Size e; Mtime := Mtime e; SHA256 := SHA256 e; SnappedAt := SnappedAt e; ContainerID := id;
     Baseline := Baseline e; fe_kind := fe_kind e |}.
Definition as_baseline (e : FileEntry) : FileEntry :=
  {| Path := Path e; Op := Op e; Size := Size e; Mtime := Mtime e; SHA256 := SHA256 e; SnappedAt := SnappedAt e; ContainerID := ContainerID e;
     Baseline := true; fe_kind := fe_kind e |}.

(** ** Walking a layer (snapshot.go) *)

(** What [lstat] tells: [fi_whiteout], a character device of number 0. *)
Record FileInfo := { fi_size : Z; fi_mtime : string; fi_regular : bool; fi_chardev : bool; fi_rdev : option Z }.

Definition isOverlayWhiteout (i : FileInfo) : bool :=
  if negb (fi_chardev i) then false else match fi_rdev i with Some r => (r =? 0)%Z | None => false end.

(** A step of the walk: the path, whether reading it failed, whether it is a
    directory, whether that is opaque, its information, and what [hashFile] makes
    of it. *)
Record visit := { v_path : string; v_err : bool; v_dir : bool; v_opaque : bool; v_info : option FileInfo; v_hash : string }.

Section Snap.
  Context (dir : string) (prev : gmap string FileEntry).

Definition rel_of (path : string) : string := "/" +:+ TrimPrefix (TrimPrefix path dir) "/".

(** The hash of an unchanged file is taken from the last walk. *)
Definition hash_of (rel : string) (i : FileInfo) (v : visit) : string :=
  if fi_regular i && (0 <? fi_size i)%Z && (fi_size i <=? maxHashBytes)%Z then
    match prev !! rel with
    | Some p => if bool_decide (fe_kind p = kindFile) && (Size p =? fi_size i)%Z && (Mtime p == fi_mtime i) && (SHA256 p != "")
                then SHA256 p else v_hash v
    | None => v_hash v
    end
  else "".

Definition add_found (e : FileEntry) (out : gmap string FileEntry) : gmap string FileEntry := <[Path e := e]> out.

Definition snap_step (out : gmap string FileEntry) (v : visit) : gmap string FileEntry :=
  if v_err v || (v_path v == dir) then out
  else if (maxFilesPerDiff <=? Z.of_nat (size out))%Z then out
  else
    let rel := rel_of (v_path v) in
    if v_dir v then (if v_opaque v then add_found (found (rel +:+ "/") kindOpaqueDir 0 "" "") out else out)
    else
      let base := Base rel in
      if base == aufsOpaque then add_found (found (Dir rel +:+ "/") kindOpaqueDir 0 "" "") out
      else if HasPrefix base aufsWhiteout then add_found (found (path_join (Dir rel) (TrimPrefix base aufsWhiteout)) kindWhiteout 0 "" "") out
      else
        match v_info v with
        | None => out
        | Some i =>
            if isOverlayWhiteout i then add_found (found rel kindWhiteout 0 "" "") out
            else add_found (found rel kindFile (fi_size i) (fi_mtime i) (hash_of rel i v)) out
        end.

(** [None]: the directory cannot be found. *)
Definition snapDir (walk : option (list visit)) : option (gmap string FileEntry) := foldl snap_step ∅ <$> walk.
End Snap.

(** ** Differences (diff.go) *)

(** [lstat]: whether a path exists, and whether it is a whiteout. *)
Definition lowerLookup (lstat : string → option bool) (lowers : list string) (path : string) : bool :=
  match List.find (λ lower, match lstat (path_join lower path) with Some _ => true | None => false end) lowers with
  | Some lower => negb (default false (lstat (path_join lower path)))
  | None => false
  end.

Definition path_le (a b : FileEntry) : Prop := str_le (Path a) (Path b).
Global Instance path_le_dec : RelDecision path_le.
Proof. intros a b. unfold path_le. apply _. Defined.
Definition sortEntries (l : list FileEntry) : list FileEntry := merge_sort path_le l.

Section Diff.
  Context {O : MapOrder} (inLower : string → bool) (now : string).

Definition baseline_op (path : string) (cur : FileEntry) : string :=
  match fe_kind cur with
  | kindWhiteout => OpDeleted
  | kindOpaqueDir => OpReplaced
  | kindFile => if inLower path then OpModified else OpAdded
  end.

Definition baselineEntries (containerID : string) (current : gmap string FileEntry) : list FileEntry :=
  sortEntries (map (λ kv : string * FileEntry, as_baseline (with_container containerID (with_op (baseline_op kv.1 kv.2) now kv.2)))
                 (map_order (map_to_list current))).

(** The entry for a path the walk found. *)
Definition diff_current (prev : gmap string FileEntry) (kv : string * FileEntry) : option FileEntry :=
  let '(path, cur) := kv in
  let p := prev !! path in
  match fe_kind cur with
  | kindWhiteout =>
      match p with
      | Some p => match fe_kind p with
                  | kindWhiteout => None
                  | kindFile => Some (with_size p (with_op OpDeleted now cur))
                  | kindOpaqueDir => Some (with_op OpDeleted now cur)
                  end
      | None => Some (with_op OpDeleted now cur)
      end
  | kindOpaqueDir =>
      match p with
      | Some p => if bool_decide (fe_kind p = kindOpaqueDir) then None else Some (with_op OpReplaced now cur)
      | None => Some (with_op OpReplaced now cur)
      end
  | kindFile =>
      let fresh := Some (with_op (if inLower path then OpModified else OpAdded) now cur) in
      match p with
      | None => fresh
      | Some p =>
          if negb (bool_decide (fe_kind p = kindFile)) then fresh
          else if (SHA256 p != SHA256 cur) || (Mtime p != Mtime cur) || negb (Size p =? Size cur)%Z then Some (with_op OpModified now cur)
          else None
      end
  end.

(** The entry for a path of the last walk that this one did not find. *)
Definition diff_gone (current : gmap string FileEntry) (kv : string * FileEntry) : option FileEntry :=
  let '(path, p) := kv in
  match current !! path with
  | Some _ => None
  | None =>
      match fe_kind p with
      | kindOpaqueDir => None
      | kindWhiteout => Some (with_op OpRestored now (found path kindFile 0 "" ""))
      | kindFile => Some (with_op OpDeleted now (found path kindFile (Size p) (Mtime p) ""))
      end
  end.

Definition buildDiffs (current prev : gmap string FileEntry) : list FileEntry :=
  sortEntries (omap (diff_current prev) (map_order (map_to_list current)) ++ omap (diff_gone current) (map_order (map_to_list prev))).
End Diff.

(** ** The entries of a pod at the hub (kvisior/internal/push, store/ingest.go) *)

(** An entry as it is stored: the kind is not sent. *)
Definition wire (e : FileEntry) : FileEntry :=
  {| Path := Path e; Op := Op e; Size := Size e; Mtime := Mtime e; SHA256 := SHA256 e; SnappedAt := SnappedAt e; ContainerID := ContainerID e;
     Baseline := Baseline e; fe_kind := kindFile |}.

Record ForensicRow := { fr_ts : Time; fr_entry : FileEntry }.

Definition same_key (e : FileEntry) (r : ForensicRow) : bool :=
  (Path (fr_entry r) == Path e) && (Op (fr_entry r) == Op e) && (SnappedAt (fr_entry r) == SnappedAt e).

Definition insert_entry (now : Time) (rows : list ForensicRow) (e : FileEntry) : list ForensicRow :=
  if any (same_key e) rows then rows else snoc rows {| fr_ts := now; fr_entry := wire e |}.

Definition InsertForensicEvents (now : Time) (end_ : ending) (entries : list FileEntry) (rows : list ForensicRow) : list ForensicRow * bool :=
  match entries with
  | [] => (rows, true)
  | _ => (if applied end_ then foldl (insert_entry now) rows entries else rows, heard end_)
  end.

Definition HandleForensicEvents (store : bool) (ns pod : string) (entries : list FileEntry) (now : Time) (end_ : ending) (rows : list ForensicRow)
  : list ForensicRow * Z :=
  if (ns == "") || (pod == "") || bool_decide (entries = []) then (rows, 400%Z)
  else if negb store then (rows, 503%Z)
  else let '(rows, ok) := InsertForensicEvents now end_ entries rows in (rows, if ok then 204%Z else 500%Z).

Definition maxForensicEntries : nat := 5000.
Definition ts_le (a b : ForensicRow) : Prop := (fr_ts a ≤ fr_ts b)%Z.
Global Instance ts_le_dec : RelDecision ts_le.
Proof. intros a b. unfold ts_le. apply _. Defined.

Definition QueryForensicEvents (now : Time) (rows : list ForensicRow) : list FileEntry :=
  let recent := merge_sort ts_le (List.filter (λ r, After (fr_ts r) (TAdd now (- (24 * Hour))%Z)) rows) in
  map fr_entry (drop (length recent - maxForensicEntries) recent).

(** ** A watch *)

Record layer := { l_containerID : string; l_upperDir : string; l_lowerDirs : list string }.

Record watchState := {
  ws_ns : string; ws_pod : string; ws_containerID : string; ws_upperDir : string; ws_lowerDirs : list string; ws_startedAt : string;
  ws_lastSnap : gmap string FileEntry; ws_pending : list FileEntry;
}.
Definition set_snap (m : gmap string FileEntry) (s : watchState) : watchState :=
  {| ws_ns := ws_ns s; ws_pod := ws_pod s; ws_containerID := ws_containerID s; ws_upperDir := ws_upperDir s; ws_lowerDirs := ws_lowerDirs s;
     ws_startedAt := ws_startedAt s; ws_lastSnap := m; ws_pending := ws_pending s |}.
Definition set_pending (l : list FileEntry) (s : watchState) : watchState :=
  {| ws_ns := ws_ns s; ws_pod := ws_pod s; ws_containerID := ws_containerID s; ws_upperDir := ws_upperDir s; ws_lowerDirs := ws_lowerDirs s;
     ws_startedAt := ws_startedAt s; ws_lastSnap := ws_lastSnap s; ws_pending := l |}.

(** What a poll meets: the walk of each directory, [lstat], the time as the
    entries have it and as the hub has it, and the fates of its two pushes. *)
Record Poll := {
  p_walk : string → option (list visit); p_lstat : string → option bool; p_now : string; p_hub : Time; p_flush : ending; p_push : ending;
}.

Section Watch.
  Context {O : MapOrder} (central hub : bool).

Definition newWatchState (ns pod : string) (l : layer) (x : Poll) : option watchState :=
  match snapDir (l_upperDir l) ∅ (p_walk x (l_upperDir l)) with
  | None => None
  | Some snap =>
      Some {| ws_ns := ns; ws_pod := pod; ws_containerID := l_containerID l; ws_upperDir := l_upperDir l; ws_lowerDirs := l_lowerDirs l;
              ws_startedAt := p_now x; ws_lastSnap := snap;
              ws_pending := baselineEntries (lowerLookup (p_lstat x) (l_lowerDirs l)) (p_now x) (l_containerID l) snap |}
  end.

(** Answers below 400 are successes. *)
Definition insertDiffs (s : watchState) (diffs : list FileEntry) (now : Time) (end_ : ending) (rows : list ForensicRow) : list ForensicRow * bool :=
  if negb central then (rows, true)
  else let '(rows, status) := HandleForensicEvents hub (ws_ns s) (ws_pod s) diffs now end_ rows in (rows, (status <? 400)%Z).

Definition flushPending (s : watchState) (x : Poll) (rows : list ForensicRow) : watchState * list ForensicRow :=
  match ws_pending s with
  | [] => (s, rows)
  | pending => let '(rows, ok) := insertDiffs s pending (p_hub x) (p_flush x) rows in (if ok then set_pending [] s else s, rows)
  end.

(** The state, the rows of the pod, and whether there was no error. *)
Definition diffAndStore (s : watchState) (x : Poll) (rows : list ForensicRow) : watchState * list ForensicRow * bool :=
  let '(s, rows) := flushPending s x rows in
  match snapDir (ws_upperDir s) (ws_lastSnap s) (p_walk x (ws_upperDir s)) with
  | None => (s, rows, false)
  | Some current =>
      match buildDiffs (lowerLookup (p_lstat x) (ws_lowerDirs s)) (p_now x) current (ws_lastSnap s) with
      | [] => (set_snap current s, rows, true)
      | diffs =>
          let '(rows, ok) := insertDiffs s (map (with_container (ws_containerID s)) diffs) (p_hub x) (p_push x) rows in
          (if ok then set_snap current s else s, rows, ok)
      end
  end.

Definition finalDiff (s : watchState) (x : Poll) (rows : list ForensicRow) : watchState * list ForensicRow :=
  match p_walk x (ws_upperDir s) with None => (s, rows) | Some _ => (diffAndStore s x rows).1 end.

Definition getInMemDiff (s : watchState) (x : Poll) : list FileEntry :=
  baselineEntries (lowerLookup (p_lstat x) (ws_lowerDirs s)) (ws_startedAt s) (ws_containerID s) (ws_lastSnap s).
End Watch.
