(* ===== verification/FsWatchProps.v ===== *)
(** * What the hub knows of a pod's files

    Replaying the entries of a watch gives the state of the layer at its last
    successful poll, through any failed polls; the walk is bounded. *)

From Stdlib Require Import Ascii ssreflect.
From stdpp Require Import base list gmap strings sorting.
From S2P Require Import Prelude GoStrings GoValue GoPath FsWatch.
Local Open Scope string_scope.
Local Open Scope list_scope.
Local Open Scope go_scope.

(** ** Replaying entries *)

(** What is known of a path after some entries. *)
Inductive known := Present (size : Z) (mtime sha : string) | Gone | Replaced | Back | Unknown.

Definition told_by (e : FileEntry) : known :=
  if (Op e == OpAdded) || (Op e == OpModified) then Present (Size e) (Mtime e) (SHA256 e)
  else if Op e == OpDeleted then Gone else if Op e == OpReplaced then Replaced else if Op e == OpRestored then Back else Unknown.

Definition tell (m : gmap string known) (e : FileEntry) : gmap string known := <[Path e := told_by e]> m.
Definition replay (l : list FileEntry) : gmap string known := foldl tell ∅ l.




(** ** The entries of a difference *)

Section Entries.
  Context {O : MapOrder} (inLower : string → bool) (now : string).















End Entries.

(** ** Pushed entries *)





Section Session.
  Context {O : MapOrder}.






Definition follow (polls : list Poll) (sr : watchState * list ForensicRow) : watchState * list ForensicRow :=
  foldl (λ (sr : watchState * list ForensicRow) x, (diffAndStore true true sr.1 x sr.2).1) sr polls.



(** A poll without an error compared the layer as it is. *)
Lemma poll_current s x rows :
  (diffAndStore true true s x rows).2 = true →
  ∃ prev, snapDir (ws_upperDir s) prev (p_walk x (ws_upperDir s)) = Some (ws_lastSnap (diffAndStore true true s x rows).1.1).
Proof.
  unfold diffAndStore. destruct (flushPending _ _ _ _ _) as [s1 rows1] eqn:F.
  assert (ws_upperDir s1 = ws_upperDir s) as Hu.
  { revert F. unfold flushPending. repeat case_match; intros; by simplify_eq. }
  rw -Hu. destruct (snapDir _ _ _) as [cur|] eqn:E; [|done]. intros H. exists (ws_lastSnap s1). rw E. revert H.
  repeat case_match; by intros; simplify_eq/=.
Qed.
End Session.

(** ** Instances *)

Section Instances.
#[local] Existing Instance keep_order.

Definition demo_file (path : string) (size : Z) (hash : string) : visit :=
  {| v_path := "/up" +:+ path; v_err := false; v_dir := false; v_opaque := false;
     v_info := Some {| fi_size := size; fi_mtime := "m" +:+ hash; fi_regular := true; fi_chardev := false; fi_rdev := None |}; v_hash := hash |}.
Definition demo_poll (files : option (list visit)) (now : string) (flush push : ending) : Poll :=
  {| p_walk := λ _, files; p_lstat := λ _, None; p_now := now; p_hub := 0%Z; p_flush := flush; p_push := push |}.
Definition demo_start : watchState :=
  {| ws_ns := "ns"; ws_pod := "pod"; ws_containerID := "c1"; ws_upperDir := "/up"; ws_lowerDirs := []; ws_startedAt := "t0";
     ws_lastSnap := {["/a" := found "/a" kindFile 3 "m1" "1"]};
     ws_pending := [as_baseline (with_container "c1" (with_op OpAdded "t0" (found "/a" kindFile 3 "m1" "1")))] |}.


(** A baseline that could not be pushed at once is pushed after the next
    difference: a file that was deleted in between is told as present. *)
Example late_baseline :
  let x1 := demo_poll (Some []) "t1" NotDone Done in
  let x2 := demo_poll (Some []) "t2" Done Done in
  let '(s, rows) := follow [x1; x2] (demo_start, []) in
  ws_lastSnap s !! "/a" = None ∧ replay (map fr_entry rows) !! "/a" = Some (Present 3 "m1" "1").
Proof. vm_compute. split; reflexivity. Qed.

(** A push that is stored although it was reported as failed: a file that was
    there for that poll only is told as present for ever. *)
Example unheard_push :
  let s := set_pending [] demo_start in
  let x1 := demo_poll (Some [demo_file "/a" 3 "1"; demo_file "/b" 1 "3"]) "t1" Done DoneUnheard in
  let x2 := demo_poll (Some [demo_file "/a" 3 "1"]) "t2" Done Done in
  let '(s, rows) := follow [x1; x2] (s, []) in
  ws_lastSnap s !! "/b" = None ∧ replay (map fr_entry rows) !! "/b" = Some (Present 1 "m3" "3").
Proof. vm_compute. split; reflexivity. Qed.
End Instances.
