(* ===== verification/FsLayer.v ===== *)
(** * forensic-watcher/internal/fswatch/upperdir.go: the layer of a container

    The writable and read-only directories of a container are read from the
    mount table of the host, and only those below the snapshot root are taken. *)

From Stdlib Require Import Ascii ssreflect.
From stdpp Require Import base list strings.
From S2P Require Import Prelude GoStrings GlobSpec GoPath FsWatch.
Local Open Scope string_scope.
Local Open Scope list_scope.
Local Open Scope go_scope.

Definition hex_digit (a : ascii) : bool :=
  (((48 <=? byte_of a) && (byte_of a <=? 57)) || ((97 <=? byte_of a) && (byte_of a <=? 102)))%Z.
Fixpoint all_bytes (f : ascii → bool) (s : string) : bool := match s with "" => true | String a s => f a && all_bytes f s end.

(** A range over the runes of a string fails on any that is not one of the digits, so on any other byte. *)
Definition isValidContainerID (id : string) : bool :=
  if (String.length id <? 12)%nat || (128 <? String.length id)%nat then false else all_bytes hex_digit id.

Definition octal (lo hi : Z) (a : ascii) : bool := ((lo <=? byte_of a) && (byte_of a <=? hi))%Z.

(** The byte three octal digits stand for. *)
Definition octal_byte (a b c : ascii) : ascii :=
  ascii_of (Z.lor (Z.lor (Z.shiftl (byte_of a - 48) 6) (Z.shiftl (byte_of b - 48) 3)) (byte_of c - 48)).

Fixpoint unescape (s : string) : string :=
  match s with
  | "" => ""
  | String x s' =>
      match s' with
      | String a (String b (String c rest)) =>
          if Ascii.eqb x "\" && octal 48 51 a && octal 48 55 b && octal 48 55 c then String (octal_byte a b c) (unescape rest)
          else String x (unescape s')
      | _ => String x (unescape s')
      end
  end.
Definition unescapeMount (s : string) : string := if negb (Contains s "\") then s else unescape s.

Definition isUnder (path root : string) : bool :=
  let path := Clean path in
  let root := Clean root in
  if path == root then true else HasPrefix path (root +:+ "/").

Definition mountpointMatchesContainer (mountPoint containerID : string) : bool := any (λ seg, seg == containerID) (Split mountPoint "/").

Section Mounts.
  (** The working directory; which paths exist; the root of the snapshots, made absolute. *)
  Context (cwd : option string) (exists_ : string → bool) (containerdRoot absSnapshots : string).

Definition localSnapshotPath (hostPath : string) : option string :=
  let local := ReplaceFirst (unescapeMount hostPath) "/var/lib/containerd" containerdRoot in
  match Abs cwd local with
  | None => None
  | Some abs => if isUnder abs absSnapshots then Some abs else None
  end.

(** The options of a mount: an upper directory that cannot be taken is an error, a lower one is left out. *)
Definition option_step (acc : option (string * list string)) (opt : string) : option (string * list string) :=
  match acc with
  | None => None
  | Some (upper, lowers) =>
      if HasPrefix opt "upperdir=" then
        match localSnapshotPath (TrimPrefix opt "upperdir=") with
        | None => None
        | Some p => if exists_ p then Some (p, lowers) else None
        end
      else if HasPrefix opt "lowerdir=" then
        Some (upper, lowers ++ omap (λ lower, if lower == "" then None else localSnapshotPath lower) (Split (TrimPrefix opt "lowerdir=") ":"))
      else acc
  end.

(** A line of the table is of the container: an overlay whose mount point has its id as a name. *)
Definition line_of (containerID line : string) : option string :=
  match Fields line with
  | _ :: mount :: fs :: opts :: _ =>
      if (fs == "overlay") && mountpointMatchesContainer (unescapeMount mount) containerID then Some opts else None
  | _ => None
  end.

Definition layer_of (containerID opts : string) : option layer :=
  match foldl option_step (Some ("", [])) (Split opts ",") with
  | None => None
  | Some (upper, lowers) => if upper == "" then None else Some {| l_containerID := containerID; l_upperDir := upper; l_lowerDirs := lowers |}
  end.

(** The first line of the container decides. *)
Definition findLayerFromMountData (containerID data : string) : option layer :=
  match omap (line_of containerID) (Split data (ascii_of 10)) with
  | opts :: _ => layer_of containerID opts
  | [] => None
  end.
End Mounts.

(** ** The layer of a pod *)

Inductive pod_get := PodNotFound | PodError | PodIs (node : string) (statuses : list (bool * string)).
Inductive resolved := RLayer (l : layer) | RGone | ROtherNode | RNotRunning | RError.

Definition findRunningContainerID (l : list (bool * string)) : string :=
  match List.find (λ s : bool * string, s.1 && (s.2 != "")) l with Some (_, id) => id | None => "" end.
Definition findAnyContainerID (l : list (bool * string)) : string :=
  match List.find (λ s : bool * string, s.2 != "") l with Some (_, id) => id | None => "" end.

Section Resolve.
  Context (cwd : option string) (exists_ : string → bool) (nodeName containerdRoot : string).

(** [mounts]: the mount table, if it can be read. *)
Definition resolveLayer (p : pod_get) (mounts : option string) (runningOnly : bool) : resolved :=
  match p with
  | PodNotFound => RGone
  | PodError => RError
  | PodIs node statuses =>
      if node != nodeName then ROtherNode
      else
        let containerID := findRunningContainerID statuses in
        let containerID := if (containerID == "") && negb runningOnly then findAnyContainerID statuses else containerID in
        if containerID == "" then RNotRunning
        else
          let id := TrimPrefix containerID "containerd://" in
          if negb (isValidContainerID id) then RError
          else
            let snapshotsBase := path_join (path_join containerdRoot "io.containerd.snapshotter.v1.overlayfs") "snapshots" in
            if negb (exists_ snapshotsBase) then RError
            else
              match (match mounts, Abs cwd snapshotsBase with
                     | Some data, Some abs => findLayerFromMountData cwd exists_ containerdRoot abs id data
                     | _, _ => None
                     end) with
              | None => if runningOnly then RNotRunning else RError
              | Some l => RLayer {| l_containerID := id; l_upperDir := l_upperDir l; l_lowerDirs := l_lowerDirs l |}
              end
  end.
End Resolve.

(** ** Confinement *)

(** A clean path at or below a root. *)
Definition below (root p : string) : Prop := absolute p ∧ (p = Clean root ∨ ∃ t, p = Clean root +:+ "/" +:+ t).

Section Confined.
  Context (cwd : option string) (exists_ : string → bool) (containerdRoot root : string).
  Hypothesis Hcwd : ∀ d, cwd = Some d → IsAbs d = true.

Lemma IsAbs_app d t : IsAbs d = true → IsAbs (d +:+ t) = true.
Proof. unfold IsAbs. intros [u ->]%HasPrefix_spec. rw app_assoc_s. apply HasPrefix_app. Qed.

Lemma Abs_absolute p q : Abs cwd p = Some q → absolute q.
Proof.
  unfold Abs. destruct (IsAbs p) eqn:E; [intros [= <-]; by apply Clean_absolute|].
  destruct cwd as [d|] eqn:C; [|done]. intros [= <-]. pose proof (Hcwd d eq_refl) as Hd. unfold path_join.
  destruct (d == "") eqn:D; [apply String.eqb_eq in D; by subst|]. cbn [andb].
  destruct (p == ""); apply Clean_absolute; [done|by apply IsAbs_app].
Qed.

Lemma localSnapshotPath_below h p : localSnapshotPath cwd containerdRoot root h = Some p → below root p.
Proof.
  unfold localSnapshotPath. destruct (Abs cwd _) as [abs|] eqn:A; [|done]. destruct (isUnder abs root) eqn:U; [|done]. intros [= ->].
  pose proof (Abs_absolute _ _ A) as Hp. split; [done|]. unfold isUnder in U. rw (Clean_fixed p Hp) in U.
  destruct (p == Clean root) eqn:E; [left; by apply String.eqb_eq|right].
  apply HasPrefix_spec in U as [t ->]. exists t. by rw app_assoc_s.
Qed.

Lemma option_step_below acc opt :
  (∀ u ls, acc = Some (u, ls) → (u = "" ∨ below root u ∧ exists_ u = true) ∧ Forall (below root) ls) →
  ∀ u ls, option_step cwd exists_ containerdRoot root acc opt = Some (u, ls) →
          (u = "" ∨ below root u ∧ exists_ u = true) ∧ Forall (below root) ls.
Proof.
  intros H u ls. unfold option_step. destruct acc as [[u0 ls0]|]; [|done]. destruct (H u0 ls0 eq_refl) as [Hu Hl].
  destruct (HasPrefix opt "upperdir=").
  - destruct (localSnapshotPath _ _ _ _) as [p|] eqn:L; [|done]. destruct (exists_ p) eqn:X; [|done]. intros [= <- <-].
    split; [right; split; [by eapply localSnapshotPath_below|done]|done].
  - destruct (HasPrefix opt "lowerdir="); intros [= <- <-]; [|done]. split; [done|]. apply Forall_app. split; [done|].
    apply Forall_forall. intros p (lower & _ & Hp)%list_elem_of_omap. destruct (lower == ""); [done|]. by eapply localSnapshotPath_below.
Qed.

(** A directory of a layer is named by an option of its line. *)
Definition named_upper (opts p : string) : Prop :=
  ∃ h, ("upperdir=" +:+ h) ∈ Split opts "," ∧ localSnapshotPath cwd containerdRoot root h = Some p.
Definition named_lower (opts p : string) : Prop :=
  ∃ h lower, ("lowerdir=" +:+ h) ∈ Split opts "," ∧ lower ∈ Split h ":" ∧ localSnapshotPath cwd containerdRoot root lower = Some p.

Lemma TrimPrefix_app t p : TrimPrefix (p +:+ t) p = t.
Proof. unfold TrimPrefix. rw HasPrefix_app. apply sdrop_app. Qed.

Lemma options_named opts done_ rest u ls u' ls' : Split opts "," = done_ ++ rest →
  (u = "" ∨ named_upper opts u ∧ exists_ u = true) → Forall (named_lower opts) ls →
  foldl (option_step cwd exists_ containerdRoot root) (Some (u, ls)) rest = Some (u', ls') →
  (u' = "" ∨ named_upper opts u' ∧ exists_ u' = true) ∧ Forall (named_lower opts) ls'.
Proof.
  revert done_ u ls. induction rest as [|o rest IH]; intros done_ u ls E Hu Hl; [by intros [= <- <-]|].
  assert (o ∈ Split opts ",") as Ho by (rw E; apply elem_of_app; right; by left). cbn [foldl]. unfold option_step at 2.
  assert (Split opts "," = (done_ ++ [o]) ++ rest) as E' by (by rw E -app_assoc).
  assert (∀ l, foldl (option_step cwd exists_ containerdRoot root) None l = None) as Hnone by (by induction l).
  destruct (HasPrefix o "upperdir=") eqn:P.
  - apply HasPrefix_spec in P as [h ->]. rw TrimPrefix_app.
    destruct (localSnapshotPath _ _ _ h) as [p|] eqn:L; [|by rw Hnone]. destruct (exists_ p) eqn:X; [|by rw Hnone].
    apply (IH _ _ _ E'); [|done]. right. split; [by exists h|done].
  - destruct (HasPrefix o "lowerdir=") eqn:P'; [|by apply (IH _ _ _ E')]. apply HasPrefix_spec in P' as [h ->]. rw TrimPrefix_app.
    apply (IH _ _ _ E'); [done|]. apply Forall_app. split; [done|]. apply Forall_forall.
    intros p (lower & Hlow & Hp)%list_elem_of_omap. destruct (lower == ""); [done|]. by exists h, lower.
Qed.

Lemma named_below opts p : named_upper opts p ∨ named_lower opts p → below root p.
Proof. intros [(h & _ & H)|(h & lower & _ & _ & H)]; by eapply localSnapshotPath_below. Qed.

Lemma omap_first {A B} (f : A → option B) l y rest : omap f l = y :: rest →
  ∃ before x after, l = before ++ x :: after ∧ Forall (λ z, f z = None) before ∧ f x = Some y.
Proof.
  induction l as [|x l IH]; [done|]. cbn. destruct (f x) as [z|] eqn:E.
  - intros [= <- _]. exists [], x, l. split_and!; [done|constructor|done].
  - intros H. destruct (IH H) as (b & x' & a & -> & Hb & Hx). exists (x :: b), x', a. split_and!; [done|by constructor|done].
Qed.

(** C26: a layer found for a container comes from the first line of the mount
    table that is an overlay with the container's id as a name of its mount
    point: its upper directory exists and is what an upperdir option of that
    line names, its lower directories are what the lowerdir options of that
    line name, and all of them, whatever the line says, are clean absolute
    paths at or below the snapshot root. *)
Theorem layer_confined id data l :
  findLayerFromMountData cwd exists_ containerdRoot root id data = Some l →
  ∃ before line after dev mount opts more,
    Split data (ascii_of 10) = before ++ line :: after ∧ Forall (λ x, line_of id x = None) before
    ∧ Fields line = dev :: mount :: "overlay" :: opts :: more ∧ id ∈ Split (unescapeMount mount) "/"
    ∧ named_upper opts (l_upperDir l) ∧ exists_ (l_upperDir l) = true ∧ Forall (named_lower opts) (l_lowerDirs l)
    ∧ below root (l_upperDir l) ∧ Forall (below root) (l_lowerDirs l).
Proof.
  unfold findLayerFromMountData. destruct (omap _ _) as [|opts rest] eqn:E; [done|]. intros H.
  apply omap_first in E as (before & line & after & Es & Hb & Ho). exists before, line, after.
  unfold line_of in Ho. destruct (Fields line) as [|dev [|mount [|fs [|opts' more]]]] eqn:Ef; try done.
  destruct ((fs == "overlay") && _) eqn:Em; [|done]. injection Ho as ->. apply andb_prop in Em as [->%String.eqb_eq Em].
  unfold mountpointMatchesContainer in Em. apply any_true in Em as (seg & Hseg & ->%String.eqb_eq).
  exists dev, mount, opts, more. unfold layer_of in H. destruct (foldl _ _ _) as [[u ls]|] eqn:F; [|done].
  destruct (u == "") eqn:U; [done|]. apply String.eqb_neq in U. injection H as <-. cbn.
  destruct (options_named opts [] (Split opts ",") "" [] u ls eq_refl (or_introl eq_refl) (Forall_nil_2 _) F) as [[?|[Hu Hx]] Hl]; [done|].
  split_and!; try done; [apply (named_below opts); by left|]. eapply Forall_impl; [exact Hl|]. intros p Hp. apply (named_below opts). by right.
Qed.
End Confined.

(** ** Escaped mount fields *)

(** [octal_text s t]: [t] is [s] with some of its bytes, every backslash among
    them, written as a backslash and three octal digits, which is how mount
    tables carry bytes that would break a field. *)
Definition oct (n : Z) : ascii := ascii_of (48 + n).
Inductive octal_text : string → string → Prop :=
| octal_nil : octal_text "" ""
| octal_plain a s t : a ≠ "\"%char → octal_text s t → octal_text (String a s) (String a t)
| octal_escape a s t : octal_text s t →
    octal_text (String a s) (String "\" (String (oct (byte_of a / 64)) (String (oct (byte_of a / 8 mod 8)) (String (oct (byte_of a mod 8)) t)))).

Lemma unescape_plain a s : Ascii.eqb a "\" = false → unescape (String a s) = String a (unescape s).
Proof. intros H. cbn [unescape]. rw H. by destruct s as [|b [|c [|d s]]]. Qed.

Lemma octal_digits a : octal 48 51 (oct (byte_of a / 64)) && octal 48 55 (oct (byte_of a / 8 mod 8)) && octal 48 55 (oct (byte_of a mod 8)) = true
  ∧ octal_byte (oct (byte_of a / 64)) (oct (byte_of a / 8 mod 8)) (oct (byte_of a mod 8)) = a.
Proof. destruct a as [[] [] [] [] [] [] [] []]; by vm_compute. Qed.

Lemma unescape_octal s t : octal_text s t → unescape t = s.
Proof.
  induction 1 as [|a s t Ha _ IH|a s t _ IH]; [done|rw unescape_plain; [by apply Ascii.eqb_neq|by rw IH]|].
  destruct (octal_digits a) as [Hd Hb]. apply andb_prop in Hd as [[H1 H2]%andb_prop H3].
  cbn [unescape]. rw Ascii.eqb_refl H1 H2 H3 Hb IH. done.
Qed.

Lemma octal_unescaped s t : octal_text s t → Contains t "\" = false → t = s.
Proof.
  induction 1 as [|a s t Ha _ IH|a s t _ IH]; intros H; [done|..]; apply not_true_iff_false in H.
  - f_equal. apply IH, not_true_iff_false. intros (u & v & Hu)%Contains_spec. apply H, Contains_spec.
    exists (String a u), v. by rw Hu.
  - destruct H. apply Contains_spec. exists "". eexists. reflexivity.
Qed.

(** C27: unescaping a field of the mount table gives back the text it was
    written from, whichever bytes the writer put as a backslash and three
    octal digits, provided every backslash is among them. *)
Theorem unescapeMount_octal s t : octal_text s t → unescapeMount t = s.
Proof.
  intros H. unfold unescapeMount. destruct (Contains t "\") eqn:E; [by apply unescape_octal|by apply octal_unescaped].
Qed.

Lemma unescapeMount_octal_witness : unescapeMount "/a\040b\134c" = "/a b\c".
Proof.
  apply unescapeMount_octal.
  repeat first [apply octal_nil|apply octal_plain; [discriminate|]|apply (octal_escape " ")|apply (octal_escape "\")].
Defined.

(** The line of another container comes first. *)
Lemma layer_confined_witness :
  let nl := String (ascii_of 10) "" in
  let data := "overlay /run/k8s.io/ffffffffffff/rootfs overlay rw,lowerdir=/snap/7/fs,upperdir=/snap/8/fs,workdir=/snap/8/work 0 0" +:+ nl +:+
              "overlay /run/k8s.io/0123456789ab/rootfs overlay rw,lowerdir=/snap/1/fs:/snap/../etc,upperdir=/snap/2/fs,workdir=/snap/2/work 0 0" in
  let l := {| l_containerID := "0123456789ab"; l_upperDir := "/snap/2/fs"; l_lowerDirs := ["/snap/1/fs"] |} in
  findLayerFromMountData None (λ _, true) "/host" "/snap" "0123456789ab" data = Some l ∧
  below "/snap" (l_upperDir l) ∧ Forall (below "/snap") (l_lowerDirs l).
Proof.
  intros nl data l. assert (findLayerFromMountData None (λ _, true) "/host" "/snap" "0123456789ab" data = Some l) as H by (vm_compute; reflexivity).
  destruct (layer_confined None (λ _, true) "/host" "/snap" (λ d (E : None = Some d), match E with end) _ _ _ H)
    as (_ & _ & _ & _ & _ & _ & _ & _ & _ & _ & _ & _ & _ & _ & ? & ?). auto.
Defined.
