(* ===== verification/FsWatcher.v ===== *)
(** * forensic-watcher/internal/fswatch: the watches of a node

    States are shared by pointer: a poll works on the state it took, and only
    replaces or removes the watch if it is still the one of the pod. The
    operations are given twice: as goroutines whose critical sections, remote
    calls and readings of the disk interleave ([exec], [wstep]), and each on its
    own ([StartWatch], [StopWatch], [pollWatch]), which is a run of the former
    ([start_alone], [poll_alone]). *)

From Stdlib Require Import Ascii ssreflect.
From stdpp Require Import base list gmap strings sorting.
From S2P Require Import Prelude GoStrings GoValue GoPath FsWatch FsLayer.
Local Open Scope string_scope.
Local Open Scope list_scope.
Local Open Scope go_scope.

(** [h_rows] and [h_watches]: what the hub keeps of the pods of this cluster. *)
Record Hub := { h_rows : gmap (string * string) (list ForensicRow); h_watches : gmap string (string * string * string) }.

Record Watcher := {
  w_watches : gmap string nat; w_starting : gset string; w_heap : gmap nat watchState; w_next : nat; w_hub : Hub;
}.
Definition set_watches (m : gmap string nat) (w : Watcher) : Watcher :=
  {| w_watches := m; w_starting := w_starting w; w_heap := w_heap w; w_next := w_next w; w_hub := w_hub w |}.
Definition set_starting (s : gset string) (w : Watcher) : Watcher :=
  {| w_watches := w_watches w; w_starting := s; w_heap := w_heap w; w_next := w_next w; w_hub := w_hub w |}.
Definition set_hub (h : Hub) (w : Watcher) : Watcher :=
  {| w_watches := w_watches w; w_starting := w_starting w; w_heap := w_heap w; w_next := w_next w; w_hub := h |}.
Definition NewWatcher (h : Hub) : Watcher := {| w_watches := ∅; w_starting := ∅; w_heap := ∅; w_next := 0; w_hub := h |}.

Definition watch_key (ns pod : string) : string := ns +:+ "/" +:+ pod.
Definition rows_of (ns pod : string) (w : Watcher) : list ForensicRow := default [] (h_rows (w_hub w) !! (ns, pod)).

(** A new pointer. *)
Definition alloc (s : watchState) (w : Watcher) : Watcher * nat :=
  ({| w_watches := w_watches w; w_starting := w_starting w; w_heap := <[w_next w := s]> (w_heap w); w_next := S (w_next w); w_hub := w_hub w |},
   w_next w).

(** ** The watches of the hub *)

Definition UpsertForensicWatch (e : ending) (ns pod source : string) (h : Hub) : Hub :=
  let source := if source != "anomaly" then "manual" else source in
  if applied e then {| h_rows := h_rows h; h_watches := <[watch_key ns pod := (ns, pod, source)]> (h_watches h) |} else h.
Definition DeleteForensicWatch (e : ending) (ns pod : string) (h : Hub) : Hub :=
  if applied e then {| h_rows := h_rows h; h_watches := delete (watch_key ns pod) (h_watches h) |} else h.

Create HintDb fswatch.

Section Watcher.
  Context {O : MapOrder} (central hub : bool).

(** ** Starting and stopping *)

(** [None]: the pod is watched already, or being started. *)
Definition start_begin (ns pod : string) (w : Watcher) : option Watcher :=
  let key := watch_key ns pod in
  if bool_decide (is_Some (w_watches w !! key)) || bool_decide (key ∈ w_starting w) then None
  else Some (set_starting ({[key]} ∪ w_starting w) w).

Definition persistWatch (e : ending) (ns pod source : string) (w : Watcher) : Watcher :=
  if negb central then w else set_hub (UpsertForensicWatch e ns pod source (w_hub w)) w.

(** The state of the pod, if its layer is found and can be read. *)
Definition new_state (ns pod : string) (res : resolved) (x : Poll) : option watchState :=
  match res with RLayer l => newWatchState ns pod l x | _ => None end.

(** [w.watches[key] = state], on a new pointer. *)
Definition install (s : watchState) (w : Watcher) : Watcher * nat :=
  let '(w, p) := alloc s w in (set_watches (<[watch_key (ws_ns s) (ws_pod s) := p]> (w_watches w)) w, p).

(** The deferred [delete(w.starting, key)]. *)
Definition unstart (ns pod : string) (w : Watcher) : Watcher := set_starting (w_starting w ∖ {[watch_key ns pod]}) w.

(** [retire] and a pod that moved away: remove the watch if it is still this
    state. *)
Definition drop_watch (key : string) (p : nat) (w : Watcher) : Watcher :=
  if bool_decide (w_watches w !! key = Some p) then set_watches (delete key (w_watches w)) w else w.

(** ** Goroutines

    What a goroutine still has to do, a critical section, a remote call or a
    reading of the disk at a time. *)
Inductive act :=
| ARegister (ns pod source : string)
| AReadPending (p : nat) | APushPending (p : nat) (l : list FileEntry) | AClearPending (p : nat)
| ACopySnap (p : nat) | AWalk (p : nat) (prev : gmap string FileEntry)
| APushDiff (p : nat) (diffs : list FileEntry) (current : gmap string FileEntry) | AStoreSnap (p : nat) (current : gmap string FileEntry)
| APoll (p : nat) | AFinal (p : nat) | ANext (p : nat) (l : layer) | ASwap (p : nat) (next : watchState)
| ADrop (p : nat) | AUnregister (ns pod : string).

(** What an action meets. *)
Record Fate := { ft_res : resolved; ft_poll : Poll; ft_end : ending }.

Definition put_state (p : nat) (s : watchState) (w : Watcher) : Watcher :=
  {| w_watches := w_watches w; w_starting := w_starting w; w_heap := <[p := s]> (w_heap w); w_next := w_next w; w_hub := w_hub w |}.
Definition put_rows (s : watchState) (rows : list ForensicRow) (w : Watcher) : Watcher :=
  set_hub {| h_rows := <[(ws_ns s, ws_pod s) := rows]> (h_rows (w_hub w)); h_watches := h_watches (w_hub w) |} w.

Definition diff_acts (p : nat) : list act := [AReadPending p; ACopySnap p].

(** What the action does to the watcher, and what the goroutine does next. *)
Definition exec_on (p : nat) (s : watchState) (a : act) (f : Fate) (w : Watcher) : Watcher * list act :=
  let x := ft_poll f in
  match a with
  | AReadPending _ => (w, match ws_pending s with [] => [] | l => [APushPending p l] end)
  | APushPending _ l =>
      let '(rows, ok) := insertDiffs central hub s l (p_hub x) (p_flush x) (rows_of (ws_ns s) (ws_pod s) w) in
      (put_rows s rows w, if ok then [AClearPending p] else [])
  | AClearPending _ => (put_state p (set_pending [] s) w, [])
  | ACopySnap _ => (w, [AWalk p (ws_lastSnap s)])
  | AWalk _ prev =>
      match snapDir (ws_upperDir s) prev (p_walk x (ws_upperDir s)) with
      | None => (w, [])
      | Some current =>
          match buildDiffs (lowerLookup (p_lstat x) (ws_lowerDirs s)) (p_now x) current prev with
          | [] => (w, [AStoreSnap p current])
          | diffs => (w, [APushDiff p (map (with_container (ws_containerID s)) diffs) current])
          end
      end
  | APushDiff _ diffs current =>
      let '(rows, ok) := insertDiffs central hub s diffs (p_hub x) (p_push x) (rows_of (ws_ns s) (ws_pod s) w) in
      (put_rows s rows w, if ok then [AStoreSnap p current] else [])
  | AStoreSnap _ current => (put_state p (set_snap current s) w, [])
  | APoll _ =>
      match ft_res f with
      | RLayer l => (w, if l_containerID l == ws_containerID s then diff_acts p else [AFinal p; ANext p l])
      | RGone | RNotRunning => (w, [AFinal p; ADrop p; AUnregister (ws_ns s) (ws_pod s)])
      | ROtherNode => (w, [ADrop p])
      | RError => (w, diff_acts p)
      end
  | AFinal _ => (w, match p_walk x (ws_upperDir s) with None => [] | Some _ => diff_acts p end)
  | ANext _ l => (w, match newWatchState (ws_ns s) (ws_pod s) l x with Some next => [ASwap p next] | None => [] end)
  | ASwap _ next =>
      let '(w, q) := alloc next w in
      let key := watch_key (ws_ns s) (ws_pod s) in
      (if bool_decide (w_watches w !! key = Some p) then set_watches (<[key := q]> (w_watches w)) w else w, [AReadPending q])
  | ADrop _ => (drop_watch (watch_key (ws_ns s) (ws_pod s)) p w, [])
  | ARegister _ _ _ | AUnregister _ _ => (w, [])
  end.

Definition act_state (a : act) : option nat :=
  match a with
  | AReadPending p | APushPending p _ | AClearPending p | ACopySnap p | AWalk p _ | APushDiff p _ _ | AStoreSnap p _
  | APoll p | AFinal p | ANext p _ | ASwap p _ | ADrop p => Some p
  | ARegister _ _ _ | AUnregister _ _ => None
  end.

Definition exec (a : act) (f : Fate) (w : Watcher) : Watcher * list act :=
  match a with
  | ARegister ns pod source => (persistWatch (ft_end f) ns pod source w, [])
  | AUnregister ns pod => (if central then set_hub (DeleteForensicWatch (ft_end f) ns pod (w_hub w)) w else w, [])
  | _ => match act_state a with
         | Some p => match w_heap w !! p with Some s => exec_on p s a f w | None => (w, []) end
         | None => (w, [])
         end
  end.

(** How many actions one leads to, at most. *)
Definition weight (a : act) : nat :=
  match a with
  | ARegister _ _ _ | AClearPending _ | AStoreSnap _ _ | ADrop _ | AUnregister _ _ => 1
  | APushPending _ _ | APushDiff _ _ _ => 2
  | AReadPending _ | AWalk _ _ => 3
  | ACopySnap _ | ASwap _ _ => 4
  | ANext _ _ => 5
  | AFinal _ => 8
  | APoll _ => 14
  end.
Definition weights (l : list act) : nat := foldr (λ a n, weight a + n)%nat 0%nat l.

(** A goroutine on its own. *)
Fixpoint run_acts (fuel : nat) (fates : act → Fate) (l : list act) (w : Watcher) : Watcher * list act :=
  match fuel, l with
  | S fuel, a :: rest => let '(w, more) := exec a (fates a) w in run_acts fuel fates (more ++ rest) w
  | _, _ => (w, l)
  end.
Definition run_all (fates : act → Fate) (l : list act) (w : Watcher) : Watcher := (run_acts (weights l) fates l w).1.

(** A start before it looked for the layer, before it put the watch in place,
    and after that or after it failed, with the deferred delete still to come;
    any other goroutine. *)
Inductive thread :=
| TResolve (ns pod source : string)
| TInstall (source : string) (s : watchState)
| TStarted (ns pod : string) (todo : list act)
| TRun (todo : list act).

Definition system : Type := Watcher * list thread.

(** A round of polls: a goroutine for each state it finds. *)
Definition pollAll (w : Watcher) : list thread := map (λ kp : string * nat, TRun [APoll kp.2]) (map_order (map_to_list (w_watches w))).

(** One step of one goroutine, or a new one: a request to start or to stop, up
    to the end of its first critical section, or a round of polls. *)
Inductive wstep : system → system → Prop :=
| step_begin w w' ts ns pod source : start_begin ns pod w = Some w' → wstep (w, ts) (w', TResolve ns pod source :: ts)
| step_refused w ts ns pod : start_begin ns pod w = None → wstep (w, ts) (w, ts)
| step_resolve w l1 l2 ns pod source res x :
    wstep (w, l1 ++ TResolve ns pod source :: l2)
      (w, l1 ++ match new_state ns pod res x with Some s => TInstall source s | None => TStarted ns pod [] end :: l2)
| step_install w l1 l2 source s :
    wstep (w, l1 ++ TInstall source s :: l2)
      ((install s w).1,
       l1 ++ TStarted (ws_ns s) (ws_pod s) [ARegister (ws_ns s) (ws_pod s) source; AReadPending (install s w).2] :: l2)
| step_started w l1 l2 ns pod a rest f :
    wstep (w, l1 ++ TStarted ns pod (a :: rest) :: l2) ((exec a f w).1, l1 ++ TStarted ns pod ((exec a f w).2 ++ rest) :: l2)
| step_unstart w l1 l2 ns pod : wstep (w, l1 ++ TStarted ns pod [] :: l2) (unstart ns pod w, l1 ++ l2)
| step_stop w ts ns pod :
    wstep (w, ts) (set_watches (delete (watch_key ns pod) (w_watches w)) w, TRun [AUnregister ns pod] :: ts)
| step_poll w ts : wstep (w, ts) (w, pollAll w ++ ts)
| step_run w l1 l2 a rest f :
    wstep (w, l1 ++ TRun (a :: rest) :: l2) ((exec a f w).1, l1 ++ TRun ((exec a f w).2 ++ rest) :: l2)
| step_end w l1 l2 : wstep (w, l1 ++ TRun [] :: l2) (w, l1 ++ l2).

(** ** The operations on their own *)

(** [StartWatch] on its own; whether there was no error. *)
Definition StartWatch (ns pod source : string) (res : resolved) (x : Poll) (reg : ending) (w : Watcher) : Watcher * bool :=
  match start_begin ns pod w with
  | None => (w, true)
  | Some w =>
      match new_state ns pod res x with
      | None => (unstart ns pod w, false)
      | Some s =>
          let '(w, p) := install s w in
          let fates := λ _, {| ft_res := res; ft_poll := x; ft_end := reg |} in
          (unstart ns pod (run_all fates [ARegister ns pod source; AReadPending p] w), true)
      end
  end.

Definition StopWatch (ns pod : string) (e : ending) (w : Watcher) : Watcher :=
  let w := set_watches (delete (watch_key ns pod) (w_watches w)) w in
  if central then set_hub (DeleteForensicWatch e ns pod (w_hub w)) w else w.

(** What a restored watch meets: its layer, its walk and the fates of its
    registration and removal. *)
Record Restore := { rs_res : resolved; rs_poll : Poll; rs_reg : ending; rs_del : ending }.

Definition restore_one (meet : string → Restore) (w : Watcher) (watch : string * (string * string * string)) : Watcher :=
  let '(key, (ns, pod, source)) := watch in
  let r := meet key in
  let '(w', ok) := StartWatch ns pod source (rs_res r) (rs_poll r) (rs_reg r) w in
  if ok then w'
  else match rs_res r with
       | RGone | RNotRunning => set_hub (DeleteForensicWatch (rs_del r) ns pod (w_hub w')) w'
       | _ => w'
       end.

(** [pulled]: the list could be read. *)
Definition RestoreWatches (pulled : bool) (meet : string → Restore) (w : Watcher) : Watcher :=
  if negb central || negb pulled then w else foldl (restore_one meet) w (map_to_list (h_watches (w_hub w))).

Definition pollWatch (p : nat) (fates : act → Fate) (w : Watcher) : Watcher := run_all fates [APoll p] w.

(** ** The invariant of the watches *)

(** The pod a goroutine is starting; whether its watch is not in place yet. *)
Definition starts (t : thread) : option string :=
  match t with
  | TResolve ns pod _ | TStarted ns pod _ => Some (watch_key ns pod)
  | TInstall _ s => Some (watch_key (ws_ns s) (ws_pod s))
  | TRun _ => None
  end.
Definition to_install (t : thread) : option string :=
  match t with
  | TResolve ns pod _ => Some (watch_key ns pod)
  | TInstall _ s => Some (watch_key (ws_ns s) (ws_pod s))
  | _ => None
  end.
Definition todo_of (t : thread) : list act := match t with TStarted _ _ l | TRun l => l | _ => [] end.

(** A new state is of the pod of the one it replaces. *)
Definition act_ok (w : Watcher) (a : act) : Prop :=
  match a with
  | ASwap p next => ∃ s, w_heap w !! p = Some s ∧ ws_ns next = ws_ns s ∧ ws_pod next = ws_pod s
  | _ => True
  end.

(** Every watch is a state of the pod of its key; the pods being started are
    those of the goroutines that start one, each of one only; and where a start
    has not put its watch in place, there is none. *)
Record wf (w : Watcher) (ts : list thread) : Prop := {
  wf_state : ∀ k p, w_watches w !! k = Some p → ∃ s, w_heap w !! p = Some s ∧ watch_key (ws_ns s) (ws_pod s) = k;
  wf_fresh : ∀ p s, w_heap w !! p = Some s → (p < w_next w)%nat;
  wf_starts : NoDup (omap starts ts) ∧ ∀ k, k ∈ w_starting w ↔ k ∈ omap starts ts;
  wf_free : ∀ t k, t ∈ ts → to_install t = Some k → w_watches w !! k = None;
  wf_acts : ∀ t a, t ∈ ts → a ∈ todo_of t → act_ok w a;
}.

(** What an action leaves: states keep their pod, and a watch is only put in
    place of one of the same pod. *)
Record keeps (w w' : Watcher) : Prop := {
  k_starting : w_starting w' = w_starting w;
  k_fresh : (∀ p s, w_heap w !! p = Some s → (p < w_next w)%nat) → ∀ p s, w_heap w' !! p = Some s → (p < w_next w')%nat;
  k_heap : ∀ p s, w_heap w !! p = Some s → ∃ s', w_heap w' !! p = Some s' ∧ ws_ns s' = ws_ns s ∧ ws_pod s' = ws_pod s;
  k_watch : ∀ k p, w_watches w' !! k = Some p →
    w_watches w !! k = Some p
    ∨ is_Some (w_watches w !! k) ∧ ∃ s, w_heap w' !! p = Some s ∧ watch_key (ws_ns s) (ws_pod s) = k;
}.

Lemma wkeeps_refl w : keeps w w.
Proof. split; eauto. Qed.

Lemma keeps_put p s s' w : w_heap w !! p = Some s → ws_ns s' = ws_ns s → ws_pod s' = ws_pod s → keeps w (put_state p s' w).
Proof.
  intros Hs Hn Hp. split; cbn; [done| | |eauto].
  - intros Hf q t [[<- <-]|[_ Ht]]%lookup_insert_Some; by eapply Hf.
  - intros q t Ht. destruct (decide (q = p)) as [->|Hne].
    + exists s'. rw lookup_insert_eq. simplify_eq. done.
    + exists t. by rw lookup_insert_ne.
Qed.

Lemma keeps_hub h w : keeps w (set_hub h w).
Proof. split; cbn; eauto. Qed.

Lemma keeps_drop k p w : keeps w (drop_watch k p w).
Proof. unfold drop_watch. case_match; [|apply wkeeps_refl]. split; cbn; eauto. intros k' q [_ Hq]%lookup_delete_Some. by left. Qed.

Lemma new_pod ns pod l x s : newWatchState ns pod l x = Some s → ws_ns s = ns ∧ ws_pod s = pod.
Proof. unfold newWatchState. case_match; [|done]. by intros [= <-]. Qed.

Lemma alloc_lookup s w p t : w_heap (alloc s w).1 !! p = Some t ↔ p = w_next w ∧ t = s ∨ p ≠ w_next w ∧ w_heap w !! p = Some t.
Proof. cbn. rw lookup_insert_Some. naive_solver. Qed.
Create HintDb fswatch.
Hint Resolve wkeeps_refl keeps_hub keeps_drop : fswatch.

Lemma exec_keeps a f w : act_ok w a → (∀ p s, w_heap w !! p = Some s → (p < w_next w)%nat) →
  keeps w (exec a f w).1 ∧ ∀ b, b ∈ (exec a f w).2 → act_ok (exec a f w).1 b.
Proof.
  intros Ha Hf.
  assert (∀ p s, w_heap w !! p = Some s → act_state a = Some p →
            keeps w (exec_on p s a f w).1 ∧ ∀ b, b ∈ (exec_on p s a f w).2 → act_ok (exec_on p s a f w).1 b) as Hon.
  { intros p s Hs Hst. destruct a; try discriminate; injection Hst as ->; cbn [exec_on].
    - split; [apply wkeeps_refl|]. intros b Hb. destruct (ws_pending s); cbn in Hb; [by apply not_elem_of_nil in Hb|].
      by apply list_elem_of_singleton in Hb as ->.
    - destruct (insertDiffs _ _ _ _ _ _ _) as [rows ok]. cbn [fst snd]. split; [apply keeps_hub|].
      destruct ok; intros b Hb; [by apply list_elem_of_singleton in Hb as ->|by apply not_elem_of_nil in Hb].
    - split; [by apply (keeps_put _ s)|]. by intros b ?%not_elem_of_nil.
    - split; [apply wkeeps_refl|]. by intros b ->%list_elem_of_singleton.
    - destruct (snapDir _ _ _) as [cur|]; [|split; [apply wkeeps_refl|by intros b ?%not_elem_of_nil]].
      destruct (buildDiffs _ _ _ _); (split; [apply wkeeps_refl|by intros b ->%list_elem_of_singleton]).
    - destruct (insertDiffs _ _ _ _ _ _ _) as [rows ok]. cbn [fst snd]. split; [apply keeps_hub|].
      destruct ok; intros b Hb; [by apply list_elem_of_singleton in Hb as ->|by apply not_elem_of_nil in Hb].
    - split; [by apply (keeps_put _ s)|]. by intros b ?%not_elem_of_nil.
    - unfold diff_acts. destruct (ft_res f) as [l| | | |]; try case_match; (split; [apply wkeeps_refl|]); intros b Hb;
        repeat (apply elem_of_cons in Hb as [->|Hb]; [done|]); by apply not_elem_of_nil in Hb.
    - split; [apply wkeeps_refl|]. unfold diff_acts. intros b Hb. destruct (p_walk _ _);
        repeat (apply elem_of_cons in Hb as [->|Hb]; [done|]); by apply not_elem_of_nil in Hb.
    - split; [apply wkeeps_refl|]. intros b Hb. destruct (newWatchState _ _ _ _) as [next|] eqn:N; [|by apply not_elem_of_nil in Hb].
      apply list_elem_of_singleton in Hb as ->. apply new_pod in N as [Hn Hp]. by exists s.
    - destruct Ha as (s0 & Hs0 & Hn & Hp). rw Hs in Hs0. injection Hs0 as <-. split; [|by intros b ->%list_elem_of_singleton]. pose proof (Hf p s Hs) as Hlt.
      set (key := watch_key (ws_ns s) (ws_pod s)). cbn [alloc w_watches].
      assert (keeps w (alloc next w).1) as Hk.
      { split; [done| | |by left].
        - intros _ q t [[-> _]|[_ Ht]]%alloc_lookup; cbn; [lia|]. specialize (Hf q t Ht). lia.
        - intros q t Ht. exists t. split; [|done]. apply alloc_lookup. right. specialize (Hf q t Ht). split; [lia|done].
      }
      case_match eqn:E; [|exact Hk]. apply bool_decide_eq_true in E. destruct Hk as [K1 K2 K3 K4]. split; try done.
      intros k q Hkq. cbn in Hkq. apply lookup_insert_Some in Hkq as [[<- <-]|[_ Hq]]; [|by left]. right. split; [by exists p|]. exists next.
      split; [by apply alloc_lookup; left|]. unfold key. by rw Hn Hp.
    - split; [apply keeps_drop|]. by intros b ?%not_elem_of_nil. }
  unfold exec. destruct a; cbn [act_state];
    try (destruct (w_heap w !! p) as [s|] eqn:Hs; [by apply Hon|split; [apply wkeeps_refl|by intros b ?%not_elem_of_nil]]).
  - split; [|by intros b ?%not_elem_of_nil]. cbn. unfold persistWatch. destruct central; cbn; eauto with fswatch.
  - split; [|by intros b ?%not_elem_of_nil]. destruct central; cbn; eauto with fswatch.
Qed.

(** The invariant needs of an action only what it keeps. *)
Lemma wf_keeps w w' l1 l2 (t t' : thread) : keeps w w' → wf w (l1 ++ t :: l2) → starts t' = starts t → to_install t' = to_install t →
  (∀ a, a ∈ todo_of t' → act_ok w' a) → wf w' (l1 ++ t' :: l2).
Proof.
  intros [K1 K2 K3 K6] [H1 H2 [H3 H3'] H4 H5] Es Ei Ha.
  assert (omap starts (l1 ++ t' :: l2) = omap starts (l1 ++ t :: l2)) as Eo by (rw !omap_app /=; by rw Es).
  split.
  - intros k p Hp. destruct (K6 k p Hp) as [Hp'|[_ ?]]; [|done]. destruct (H1 k p Hp') as (s & Hs & <-).
    destruct (K3 p s Hs) as (s' & Hs' & Hn & Hpod). exists s'. by rw Hn Hpod.
  - by apply K2.
  - rw Eo K1. done.
  - intros u k Hu Hk. destruct (w_watches w' !! k) as [p|] eqn:E; [|done]. exfalso.
    assert (w_watches w !! k = None) as Hnone.
    { apply elem_of_app in Hu as [Hu|[->|Hu]%elem_of_cons].
      - apply (H4 u); [set_solver|done].
      - apply (H4 t); [set_solver|congruence].
      - apply (H4 u); [set_solver|done]. }
    destruct (K6 k p E) as [?|[[q ?] _]]; congruence.
  - intros u a Hu Hin. assert (u = t' ∨ u ∈ l1 ++ t :: l2) as [->|Hu'] by set_solver; [by apply Ha|].
    pose proof (H5 u a Hu' Hin) as Hok. destruct a; try done. destruct Hok as (s & Hs & Hn & Hp).
    destruct (K3 p s Hs) as (s' & Hs' & Hn' & Hp'). exists s'. rw Hn' Hp'. done.
Qed.

Lemma wf_new w ts t : wf w ts → starts t = None → to_install t = None → (∀ a, a ∈ todo_of t → act_ok w a) → wf w (t :: ts).
Proof.
  intros [H1 H2 H3 H4 H5] Es Ei Ha. split; try done.
  - cbn. by rw Es.
  - intros u k [->|Hu]%elem_of_cons; [congruence|by apply H4].
  - intros u a [->|Hu]%elem_of_cons; [by apply Ha|by apply H5].
Qed.

Lemma wf_end w l1 l2 t : wf w (l1 ++ t :: l2) → starts t = None → wf w (l1 ++ l2).
Proof.
  intros [H1 H2 H3 H4 H5] Es. split; try done.
  - revert H3. rw !omap_app /=. by rw Es.
  - intros u k Hu. apply H4. set_solver.
  - intros u a Hu. apply H5. set_solver.
Qed.

Lemma wf_unstart w l1 l2 ns pod todo : wf w (l1 ++ TStarted ns pod todo :: l2) → wf (unstart ns pod w) (l1 ++ l2).
Proof.
  intros [H1 H2 [H3 H3'] H4 H5]. split; cbn; try done.
  - rw omap_app /= in H3. apply NoDup_app in H3 as (N1 & N2 & [N3 N4]%NoDup_cons). split.
    + rw omap_app. apply NoDup_app. split_and!; [done| |done]. intros k Hk Hk2. by apply (N2 k Hk), list_elem_of_further.
    + intros k. rw elem_of_difference H3' !omap_app /= !elem_of_app elem_of_cons elem_of_singleton. split; [tauto|].
      intros Hk. split; [tauto|]. intros ->. destruct Hk as [Hk|Hk]; [|done]. apply (N2 _ Hk). apply list_elem_of_here.
  - intros u k Hu. apply H4. set_solver.
  - intros u a Hu. apply H5. set_solver.
Qed.

Lemma wf_install w l1 l2 source s todo : wf w (l1 ++ TInstall source s :: l2) →
  (∀ w' a, a ∈ todo → act_ok w' a) → wf (install s w).1 (l1 ++ TStarted (ws_ns s) (ws_pod s) todo :: l2).
Proof.
  intros [H1 H2 [H3 H3'] H4 H5] Ha. unfold install. cbn. set (key := watch_key (ws_ns s) (ws_pod s)). split; cbn.
  - intros k p [[<- <-]|[_ Hp]]%lookup_insert_Some.
    + exists s. by rw lookup_insert_eq.
    + destruct (H1 k p Hp) as (t & Ht & Hk). exists t. split; [|done]. rw lookup_insert_ne //. specialize (H2 _ _ Ht). lia.
  - intros p t [[<- <-]|[_ Ht]]%lookup_insert_Some; [lia|]. specialize (H2 _ _ Ht). lia.
  - revert H3 H3'. rw !omap_app /=. done.
  - intros u k Hu Hk. rw lookup_insert_ne; [|apply (H4 u); [set_solver|done]]. intros <-.
    rw omap_app /= in H3. apply NoDup_app in H3 as (_ & N2 & [N3 _]%NoDup_cons).
    assert (starts u = Some key) as Hs by (by destruct u).
    apply elem_of_app in Hu as [Hu|[->|Hu]%elem_of_cons]; [|done|].
    + apply (N2 key); [by apply list_elem_of_omap; exists u|apply list_elem_of_here].
    + apply N3, list_elem_of_omap. by exists u.
  - intros u a Hu Hin. assert (u = TStarted (ws_ns s) (ws_pod s) todo ∨ u ∈ l1 ++ TInstall source s :: l2) as [->|Hu'] by set_solver; [by apply Ha|].
    pose proof (H5 u a Hu' Hin) as Hok. destruct a; try done. destruct Hok as (t & Ht & Hok). exists t. split; [|done].
    cbn. rw lookup_insert_ne //. specialize (H2 _ _ Ht). lia.
Qed.

Lemma exec_todo w ts t a rest f : wf w ts → t ∈ ts → todo_of t = a :: rest →
  keeps w (exec a f w).1 ∧ ∀ b, b ∈ (exec a f w).2 ++ rest → act_ok (exec a f w).1 b.
Proof.
  intros Hw Ht Et. pose proof (wf_acts _ _ Hw t a Ht ltac:(rw Et; apply list_elem_of_here)) as Ha.
  destruct (exec_keeps a f w Ha (wf_fresh _ _ Hw)) as [Hk Hmore]. split; [done|]. intros b [Hb|Hb]%elem_of_app; [by apply Hmore|].
  pose proof (wf_acts _ _ Hw t b Ht ltac:(rw Et; by apply list_elem_of_further)) as Hok.
  destruct b; try done. destruct Hok as (s & Hs & Hn & Hp). destruct (k_heap _ _ Hk _ _ Hs) as (s' & Hs' & Hn' & Hp'). exists s'. rw Hn' Hp'. done.
Qed.

Lemma wf_step sys sys' : wstep sys sys' → wf sys.1 sys.2 → wf sys'.1 sys'.2.
Proof.
  intros Hs Hw. destruct Hs as [w w' ts ns pod source Hb|w ts ns pod _|w l1 l2 ns pod source res x|w l1 l2 source s|w l1 l2 ns pod a rest f
    |w l1 l2 ns pod|w ts ns pod|w ts|w l1 l2 a rest f|w l1 l2]; cbn [fst snd] in *.
  - unfold start_begin in Hb. destruct (_ || _) eqn:E; [done|]. injection Hb as <-. apply orb_false_iff in E as [E1 E2].
    apply bool_decide_eq_false, eq_None_not_Some in E1. apply bool_decide_eq_false in E2. destruct Hw as [H1 H2 [H3 H3'] H4 H5]. split; cbn; try done.
    + split; [apply NoDup_cons; by rw -H3'|]. intros k. rw elem_of_union elem_of_singleton H3' elem_of_cons. done.
    + intros u k [->|Hu]%elem_of_cons; [by intros [= <-]|by apply H4].
    + intros u a [->|Hu]%elem_of_cons; [by intros ?%not_elem_of_nil|by apply H5].
  - done.
  - destruct (new_state ns pod res x) as [s|] eqn:N.
    + apply (wf_keeps w w l1 l2 (TResolve ns pod source)); [apply wkeeps_refl|done|..|by intros a ?%not_elem_of_nil];
        destruct res; try done; by destruct (new_pod _ _ _ _ _ N) as [<- <-].
    + destruct Hw as [H1 H2 [H3 H3'] H4 H5]. split; try done.
      * revert H3 H3'. rw !omap_app /=. done.
      * intros u k Hu Hk. assert (u = TStarted ns pod [] ∨ u ∈ l1 ++ TResolve ns pod source :: l2) as [->|Hu'] by set_solver; [done|by apply (H4 u)].
      * intros u a Hu Hin. assert (u = TStarted ns pod [] ∨ u ∈ l1 ++ TResolve ns pod source :: l2) as [->|Hu'] by set_solver;
          [by apply not_elem_of_nil in Hin|by apply (H5 u)].
  - apply (wf_install w l1 l2 source s); [done|]. intros w' a Hin. repeat (apply elem_of_cons in Hin as [->|Hin]; [done|]). by apply not_elem_of_nil in Hin.
  - destruct (exec_todo w _ (TStarted ns pod (a :: rest)) a rest f Hw) as [Hk Ha]; [set_solver|done|].
    by apply (wf_keeps w _ l1 l2 (TStarted ns pod (a :: rest))).
  - by apply wf_unstart in Hw.
  - apply wf_new; [|done..|intros a ->%list_elem_of_singleton; done]. destruct Hw as [H1 H2 H3 H4 H5]. split; cbn; try done.
    + intros k p [_ Hp]%lookup_delete_Some. by apply H1.
    + intros u k Hu Hk. apply lookup_delete_None. right. by apply (H4 u).
  - unfold pollAll. induction (map_order (map_to_list (w_watches w))) as [|[k p] l IH]; [done|]. cbn.
    apply wf_new; [done..|]. intros a ->%list_elem_of_singleton. done.
  - destruct (exec_todo w _ (TRun (a :: rest)) a rest f Hw) as [Hk Ha]; [set_solver|done|].
    by apply (wf_keeps w _ l1 l2 (TRun (a :: rest))).
  - by apply wf_end in Hw.
Qed.

(** C28: however the critical sections, remote calls and readings of the disk
    of starts, stops and polls interleave, up to any moment: every watch of a
    node is a state of the pod of its key, so that no state serves two pods;
    the pods marked as being started are those of the starts under way, at
    most one for each pod; and a start that has not put its watch in place yet
    finds none there, so that no start replaces a watch. *)
Theorem watches_sound h w ts : rtc wstep (NewWatcher h, []) (w, ts) → wf w ts.
Proof.
  intros H. change (wf (w, ts).1 (w, ts).2). apply (rtc_ind_r (λ sys, wf sys.1 sys.2) (NewWatcher h, [])) in H; [done| |].
  - split; cbn; [intros ? ?|intros ? ?|split; [constructor|intros ?]|intros ? ? ?%not_elem_of_nil|intros ? ? ?%not_elem_of_nil]; by rw ?lookup_empty ?elem_of_empty ?elem_of_nil.
  - clear. intros sys sys' _ Hs Hw. by eapply wf_step.
Qed.

(** ** An operation on its own is a run of its goroutine *)

Lemma weights_app l l' : weights (l ++ l') = (weights l + weights l')%nat.
Proof. induction l as [|a l IH]; [done|]. unfold weights in *. cbn. rw IH. lia. Qed.

Lemma exec_weight a f w : (weights (exec a f w).2 < weight a)%nat.
Proof.
  unfold exec. destruct a; cbn [act_state weight]; try (cbn; lia); (destruct (w_heap w !! p) as [s|]; [|cbn; lia]); cbn [exec_on snd];
    repeat case_match; cbn; lia.
Qed.

(** Every action is done in the end. *)
Lemma run_acts_done fuel fates l w : (weights l ≤ fuel)%nat → (run_acts fuel fates l w).2 = [].
Proof.
  revert l w. induction fuel as [|fuel IH]; intros [|a l] w Hl; cbn [run_acts]; try done.
  - exfalso. cbn in Hl. destruct a; cbn in Hl; lia.
  - pose proof (exec_weight a (fates a) w) as He. destruct (exec a (fates a) w) as [w' more]. cbn [snd] in He. change (weights (a :: l)) with (weight a + weights l)%nat in Hl. apply IH. rw weights_app. lia.
Qed.

(** A goroutine that goes through its actions while the others wait. *)
Lemma run_alone (T : list act → thread) fates :
  (∀ w l1 l2 a rest f, wstep (w, l1 ++ T (a :: rest) :: l2) ((exec a f w).1, l1 ++ T ((exec a f w).2 ++ rest) :: l2)) →
  ∀ l w l1 l2, rtc wstep (w, l1 ++ T l :: l2) (run_all fates l w, l1 ++ T [] :: l2).
Proof.
  intros HT l w l1 l2. unfold run_all. pose proof (run_acts_done (weights l) fates l w (le_n _)) as Hd. revert Hd.
  generalize (weights l) as fuel. intros fuel. revert l w. induction fuel as [|fuel IH]; intros [|a l] w; cbn [run_acts fst snd]; try done.
  pose proof (HT w l1 l2 a l (fates a)) as Hs. destruct (exec a (fates a) w) as [w' more]. cbn in Hs. intros Hd. eapply rtc_l; [exact Hs|]. by apply IH.
Qed.

Lemma poll_alone p fates w ts : rtc wstep (w, TRun [APoll p] :: ts) (pollWatch p fates w, ts).
Proof.
  etrans; [apply (run_alone TRun fates (λ w l1 l2 a rest f, step_run w l1 l2 a rest f) [APoll p] w [] ts)|].
  apply rtc_once, (step_end _ []).
Qed.

Lemma start_alone ns pod source res x reg w ts : rtc wstep (w, ts) ((StartWatch ns pod source res x reg w).1, ts).
Proof.
  unfold StartWatch. destruct (start_begin ns pod w) as [w1|] eqn:Hb; [|done].
  eapply rtc_l; [exact (step_begin w w1 ts ns pod source Hb)|]. eapply rtc_l; [apply (step_resolve w1 [] ts ns pod source res x)|]. cbn [app].
  destruct (new_state ns pod res x) as [s|] eqn:N; [|apply rtc_once, (step_unstart w1 [] ts)].
  assert (ws_ns s = ns ∧ ws_pod s = pod) as [Hn Hp] by (destruct res; try done; by eapply new_pod).
  eapply rtc_l; [apply (step_install w1 [] ts source s)|]. cbn [app]. destruct (install s w1) as [w2 p] eqn:E. cbn [fst snd]. rw Hn Hp.
  etrans; [apply (run_alone (TStarted ns pod) (λ _, {| ft_res := res; ft_poll := x; ft_end := reg |})
    (λ w l1 l2 a rest f, step_started w l1 l2 ns pod a rest f) [ARegister ns pod source; AReadPending p] w2 [] ts)|].
  cbn [app]. apply rtc_once, (step_unstart _ [] ts).
Qed.

(** The difference a goroutine makes on its own is [diffAndStore]. *)
Lemma diff_alone p s x res e w : w_heap w !! p = Some s →
  let w' := run_all (λ _, {| ft_res := res; ft_poll := x; ft_end := e |}) (diff_acts p) w in
  let '(s', rows, _) := diffAndStore central hub s x (rows_of (ws_ns s) (ws_pod s) w) in
  w_heap w' !! p = Some s' ∧ rows_of (ws_ns s) (ws_pod s) w' = rows.
Proof.
  intros Hs. set (f := {| ft_res := res; ft_poll := x; ft_end := e |}).
  (* the second half, from the state the flush left *)
  assert (∀ fuel s w, w_heap w !! p = Some s → let w' := (run_acts (4 + fuel) (λ _, f) [ACopySnap p] w).1 in
    let '(s', rows, _) := match snapDir (ws_upperDir s) (ws_lastSnap s) (p_walk x (ws_upperDir s)) with
      | None => (s, rows_of (ws_ns s) (ws_pod s) w, false)
      | Some current =>
          match buildDiffs (lowerLookup (p_lstat x) (ws_lowerDirs s)) (p_now x) current (ws_lastSnap s) with
          | [] => (set_snap current s, rows_of (ws_ns s) (ws_pod s) w, true)
          | diffs => let '(rows, ok) := insertDiffs central hub s (map (with_container (ws_containerID s)) diffs) (p_hub x) (p_push x)
                                          (rows_of (ws_ns s) (ws_pod s) w) in
                     (if ok then set_snap current s else s, rows, ok)
          end
      end in
    w_heap w' !! p = Some s' ∧ rows_of (ws_ns s) (ws_pod s) w' = rows) as Hsnap.
  { clear s w Hs. intros fuel s w Hs. cbn [Nat.add run_acts exec act_state]. rw Hs. cbn [exec_on app run_acts exec act_state]. rw Hs. cbn [exec_on f ft_poll].
    destruct (snapDir _ _ _) as [cur|]; [|by destruct fuel].
    destruct (buildDiffs _ _ _ _) as [|d ds]; cbn [app run_acts exec act_state]; rw Hs; cbn [exec_on f ft_poll].
    - destruct fuel; cbn [app run_acts fst]; (split; [apply lookup_insert_eq|done]).
    - destruct (insertDiffs _ _ _ _ _ _ _) as [rows ok]. destruct ok; cbn [app run_acts exec act_state].
      + cbn [put_rows set_hub w_heap]. rw Hs. cbn [exec_on]. destruct fuel; cbn [app run_acts fst put_state w_heap];
          (split; [apply lookup_insert_eq|unfold rows_of; cbn; by rw lookup_insert_eq]).
      + destruct fuel; cbn [app run_acts fst put_rows set_hub w_heap]; (split; [done|unfold rows_of; cbn; by rw lookup_insert_eq]). }
  unfold run_all, diff_acts. change (weights [AReadPending p; ACopySnap p]) with 7%nat.
  cbn [run_acts exec act_state]. rw Hs. cbn [exec_on]. unfold diffAndStore, flushPending. fold f.
  destruct (ws_pending s) as [|b bs] eqn:Hp; [exact (Hsnap 2%nat s w Hs)|]. cbn [app run_acts exec act_state]. rw Hs. cbn [exec_on f ft_poll].
  destruct (insertDiffs central hub s (b :: bs) (p_hub x) (p_flush x) (rows_of (ws_ns s) (ws_pod s) w)) as [rows ok] eqn:Ei.
  assert (∀ w', rows_of (ws_ns s) (ws_pod s) (put_rows s rows w') = rows) as Hrows by (intros; unfold rows_of; cbn; by rw lookup_insert_eq).
  destruct ok; cbn [app run_acts exec act_state].
  - cbn [put_rows set_hub w_heap]. rw Hs. cbn [exec_on app]. fold f.
    pose proof (Hsnap 0%nat (set_pending [] s) (put_state p (set_pending [] s) (put_rows s rows w)) (lookup_insert_eq _ _ _)) as H.
    cbn [set_pending ws_upperDir ws_lastSnap ws_lowerDirs ws_containerID ws_ns ws_pod] in H.
    change (rows_of (ws_ns s) (ws_pod s) (put_state p (set_pending [] s) (put_rows s rows w))) with (rows_of (ws_ns s) (ws_pod s) (put_rows s rows w)) in H.
    rw Hrows in H. exact H.
  - fold f. pose proof (Hsnap 1%nat s (put_rows s rows w) Hs) as H. rw Hrows in H. exact H.
Qed.
End Watcher.

(** A start is under way and has not put its watch in place; meanwhile another
    pod was started and is polled. *)
Lemma watches_sound_witness :
  let h := {| h_rows := ∅; h_watches := ∅ |} in
  let x := {| p_walk := λ _, Some []; p_lstat := λ _, None; p_now := "t0"; p_hub := 0%Z; p_flush := Done; p_push := Done |} in
  let l := {| l_containerID := "c1"; l_upperDir := "/up"; l_lowerDirs := [] |} in
  let w := (StartWatch (O := keep_order) true true "ns" "pod" "manual" (RLayer l) x Done (set_starting {["ns/new"]} (NewWatcher h))).1 in
  let ts := [TRun [APoll 0]; TResolve "ns" "new" "manual"] in
  w_watches w !! "ns/pod" = Some 0%nat ∧ wf w ts.
Proof.
  intros h x l w ts. split; [vm_compute; reflexivity|]. apply (watches_sound (O := keep_order) true true h).
  eapply rtc_l; [apply (step_begin true true (NewWatcher h) (set_starting {["ns/new"]} (NewWatcher h)) [] "ns" "new" "manual"); vm_compute; reflexivity|].
  etrans; [apply (start_alone (O := keep_order) true true "ns" "pod" "manual" (RLayer l) x Done)|].
  apply rtc_once. exact (step_poll (O := keep_order) true true w [TResolve "ns" "new" "manual"]).
Defined.
