(* ===== verification/LogCollect.v ===== *)
(** * forensic-watcher/internal/logcollect: container logs to the hub

    Every half minute the new lines of the log files of each container are
    pushed in chunks, in order of time. A file is read from the offset reached by
    the last poll whose pushes all succeeded, and lines up to the container's
    cursor, the time of the last line pushed, are passed over. The hub stores a
    chunk and its own cursor in one transaction. *)

From Stdlib Require Import Ascii ssreflect.
From stdpp Require Import base list gmap strings sorting.
From S2P Require Import Prelude GoStrings GlobSpec GoPath.
Local Open Scope string_scope.
Local Open Scope list_scope.
Local Open Scope go_scope.

Definition maxLinesPerBatch : Z := 5000.
Definition maxChunkBytes : Z := (8 * 2 ^ 20)%Z.
Definition logEntryJSONOverhead : Z := 64.
Definition maxLineBytes : Z := (16 * 1024)%Z.
Definition maxReadPerPoll : Z := (32 * 2 ^ 20)%Z.

Record LogEntry := { le_Ts : Time; le_Log : string }.
Global Instance LogEntry_eq_dec : EqDecision LogEntry.
Proof. solve_decision. Defined.

Definition slen (s : string) : Z := Z.of_nat (String.length s).

(** The first [n] bytes. *)
Definition limit (n : Z) (s : string) : string := if (slen s <=? n)%Z then s else stake (Z.to_nat n) s.

(** [strings.SplitN] with a one-byte separator, for [n > 0]. *)
Fixpoint SplitN (s : string) (c : ascii) (n : nat) : list string :=
  match n with
  | O => []
  | 1 => [s]
  | S n => match IndexByte s c with Some i => stake i s :: SplitN (sdrop (S i) s) c n | None => [s] end
  end.

Definition newline : ascii := "010".

Record fileState := { fs_offset : nat; fs_size : nat }.
Record Collector := { c_cursors : gmap string Time; c_files : gmap string fileState }.
Definition set_files (f : gmap string fileState) (c : Collector) : Collector := {| c_cursors := c_cursors c; c_files := f |}.
Definition set_cursors (m : gmap string Time) (c : Collector) : Collector := {| c_cursors := m; c_files := c_files c |}.

(** ** The rows of the hub (kvisior/internal/store/ingest.go) *)

Definition ContainerLogTTL : Duration := (24 * Hour)%Z.

Record LogHub := { lh_rows : gmap string (list LogEntry); lh_cursors : gmap string (Time * string) }.

(** The partition a row goes to; [None]: too old. *)
Definition log_partition (now ts : Time) (ttl : Duration) : option Time :=
  if Before ts (TAdd now (- ttl)%Z) then None else if After ts (TAdd now Hour) then Some now else Some ts.

Definition log_key (ns pod container : string) : string := ns +:+ "/" +:+ pod +:+ "/" +:+ container.

Definition max_ts (l : list LogEntry) : Time := foldl (λ t e, if After (le_Ts e) t then le_Ts e else t) 0%Z l.

Section Hub.
  (** The resolution of the database's times. *)
  Context (db_time : Time → Time).

Definition log_row (now : Time) (e : LogEntry) : option LogEntry :=
  if le_Log e == "" then None
  else (λ ts, {| le_Ts := db_time ts; le_Log := le_Log e |}) <$> log_partition now (le_Ts e) ContainerLogTTL.

(** The transaction, and whether it was reported as done. *)
Definition InsertContainerLogEntries (now : Time) (e : ending) (node key : string) (entries : list LogEntry) (h : LogHub) : LogHub * bool :=
  let maxTs := max_ts (List.filter (λ x, le_Log x != "") entries) in
  if (maxTs =? 0)%Z then (h, heard e)
  else if match lh_cursors h !! key with Some (cur, _) => negb (Before cur maxTs) | None => false end then (h, heard e)
  else
    (if applied e then {| lh_rows := <[key := default [] (lh_rows h !! key) ++ omap (log_row now) entries]> (lh_rows h);
                          lh_cursors := <[key := (db_time maxTs, node)]> (lh_cursors h) |} else h,
     heard e).

Definition HandleLogs (now : Time) (e : ending) (node ns pod container : string) (entries : list LogEntry) (h : LogHub) : LogHub * bool :=
  if (ns == "") || (pod == "") || (container == "") || bool_decide (entries = []) then (h, false)
  else InsertContainerLogEntries now e node (log_key ns pod container) entries h.


(** ** Reading a file *)

  (** [time.Parse] of RFC 3339 with nanoseconds. *)
  Context (ParseTime : string → option Time).

Definition parse_line (cursor : Time) (line : string) : option LogEntry :=
  match SplitN line " " 4 with
  | [t; _; _; text] =>
      match ParseTime t with
      | None => None
      | Some ts =>
          if negb (After ts cursor) then None
          else
            let msg := TrimSpace text in
            if msg == "" then None else Some {| le_Ts := ts; le_Log := limit maxLineBytes msg |}
      end
  | _ => None
  end.

(** [content]: the bytes of the file, if it can be read. *)
Definition readFile (path : string) (content : option string) (cursor : Time) (files : gmap string fileState)
  : gmap string fileState * option (list LogEntry) :=
  match content with
  | None => (files, None)
  | Some content =>
      let st := default {| fs_offset := 0; fs_size := 0 |} (files !! path) in
      let files := <[path := st]> files in
      let start := if (String.length content <? fs_offset st)%nat then 0%nat else fs_offset st in
      if (String.length content =? start)%nat then (files, Some [])
      else
        let buf := limit maxReadPerPoll (sdrop start content) in
        match LastIndexByte buf newline with
        | None => (files, Some [])
        | Some end_ =>
            (<[path := {| fs_offset := fs_offset st; fs_size := start + end_ + 1 |}]> files,
             Some (omap (parse_line cursor) (Split (stake end_ buf) newline)))
        end
  end.

Definition commitFiles (paths : list string) (files : gmap string fileState) : gmap string fileState :=
  foldl (λ f p, alter (λ st, {| fs_offset := fs_size st; fs_size := fs_size st |}) p f) files paths.
Definition rollbackFiles (paths : list string) (files : gmap string fileState) : gmap string fileState :=
  foldl (λ f p, alter (λ st, {| fs_offset := fs_offset st; fs_size := fs_offset st |}) p f) files paths.

(** ** One container *)

Record container := { ct_ns : string; ct_pod : string; ct_name : string; ct_dir : string }.
Definition ct_key (ct : container) : string := log_key (ct_ns ct) (ct_pod ct) (ct_name ct).

Definition entry_le (a b : LogEntry) : Prop := (le_Ts a ≤ le_Ts b)%Z.
Global Instance entry_le_dec : RelDecision entry_le.
Proof. intros a b. unfold entry_le. apply _. Defined.

(** The entries of a chunk within the limits, and the rest. *)
Fixpoint chunk_span (n bytes : Z) (l : list LogEntry) : list LogEntry * list LogEntry :=
  match l with
  | [] => ([], [])
  | e :: l' => if (n <? maxLinesPerBatch)%Z && (bytes <? maxChunkBytes)%Z
               then let '(a, b) := chunk_span (n + 1) (bytes + slen (le_Log e) + logEntryJSONOverhead) l' in (e :: a, b)
               else ([], l)
  end.

(** Entries of the same time go into one chunk. *)
Fixpoint chunk_ties (t : Time) (l : list LogEntry) : list LogEntry * list LogEntry :=
  match l with
  | [] => ([], [])
  | e :: l' => if (le_Ts e =? t)%Z then let '(a, b) := chunk_ties t l' in (e :: a, b) else ([], l)
  end.

Definition next_chunk (l : list LogEntry) : list LogEntry * list LogEntry :=
  let '(a, b) := chunk_span 0 0 l in
  match last a with
  | Some e => let '(c, d) := chunk_ties (le_Ts e) b in (a ++ c, d)
  | None => (a, b)
  end.

Definition raise_cursor (key : string) (t : Time) (m : gmap string Time) : gmap string Time :=
  if After t (default 0%Z (m !! key)) then <[key := t]> m else m.

(** [fates]: the clock of the hub and the end of each push. The cursors, the hub,
    and whether every chunk was pushed. *)
Fixpoint push_chunks (fuel : nat) (node : string) (ct : container) (fates : list (Time * ending)) (l : list LogEntry)
    (cursors : gmap string Time) (h : LogHub) : gmap string Time * LogHub * bool :=
  match l with
  | [] => (cursors, h, true)
  | _ =>
      match fuel with
      | O => (cursors, h, false)
      | S fuel =>
          let '(chunk, rest) := next_chunk l in
          let '(now, e) := default (0%Z, NotDone) (head fates) in
          let '(h, ok) := HandleLogs now e node (ct_ns ct) (ct_pod ct) (ct_name ct) chunk h in
          if negb ok then (cursors, h, false)
          else push_chunks fuel node ct (tail fates) rest (raise_cursor (ct_key ct) (max_ts chunk) cursors) h
      end
  end.

(** The files of a container in order, and what can be read of each. *)
Definition read_files (cursor : Time) (fs : list (string * option string)) (files : gmap string fileState) : gmap string fileState * list LogEntry :=
  foldl (λ acc (f : string * option string),
           let '(files, r) := readFile f.1 f.2 cursor acc.1 in (files, acc.2 ++ default [] r)) (files, []) fs.

Definition collectContainer (node : string) (ct : container) (fs : list (string * option string)) (fates : list (Time * ending))
    (c : Collector) (h : LogHub) : Collector * LogHub * bool :=
  let paths := map fst fs in
  let cursor := default 0%Z (c_cursors c !! ct_key ct) in
  match fs with
  | [] => (c, h, true)
  | _ =>
      let '(files, entries) := read_files cursor fs (c_files c) in
      match entries with
      | [] => (set_files (commitFiles paths files) c, h, true)
      | _ =>
          let sorted := merge_sort entry_le entries in
          let '(cursors, h, ok) := push_chunks (length sorted) node ct fates sorted (c_cursors c) h in
          ({| c_cursors := cursors; c_files := if ok then commitFiles paths files else rollbackFiles paths files |}, h, ok)
      end
  end.

(** ** A poll *)

Definition pruneFiles (liveDirs liveKeys : list string) (c : Collector) : Collector :=
  {| c_files := filter (λ kv : string * fileState, Dir kv.1 ∈ liveDirs) (c_files c);
     c_cursors := filter (λ kv : string * Time, kv.1 ∈ liveKeys) (c_cursors c) |}.

(** The containers of the directory of a pod: [ns_pod_uid]. *)
Definition pod_containers (exclude : list string) (root : string) (pd : string * option (list (string * bool))) : list container :=
  match SplitN pd.1 "_" 3 with
  | [ns; pod; _] =>
      if bool_decide (ns ∈ exclude) then []
      else omap (λ cd : string * bool,
                   if cd.2 then Some {| ct_ns := ns; ct_pod := pod; ct_name := cd.1; ct_dir := path_join (path_join root pd.1) cd.1 |} else None)
             (default [] pd.2)
  | _ => []
  end.

Definition discover (exclude : list string) (root : string) (podDirs : option (list (string * option (list (string * bool))))) : list container :=
  default [] podDirs ≫= pod_containers exclude root.

(** [logFiles]: the names of a directory that are log files. *)
Definition is_log_file (name : string) : bool := Contains name ".log" && negb (HasSuffix name ".gz") && negb (HasSuffix name ".tmp").

(** What a poll meets of a container: its files in order, and the fates of its pushes. *)
Record Visit := { vi_files : list (string * option string); vi_fates : list (Time * ending) }.

(** The containers are collected at the same time; they touch different files and cursors, so in any order. *)
Definition poll (node : string) (cts : list container) (meet : container → Visit) (c : Collector) (h : LogHub) : Collector * LogHub :=
  foldl (λ s ct, (collectContainer node ct (vi_files (meet ct)) (vi_fates (meet ct)) s.1 s.2).1)
    (pruneFiles (map ct_dir cts) (map ct_key cts) c, h) cts.

End Hub.

(** * No line of a container's log is lost on its way to the hub *)



Global Instance entry_le_total : Total entry_le.
Proof. intros a b. unfold entry_le. lia. Qed.
Global Instance entry_le_trans : Transitive entry_le.
Proof. intros a b c. unfold entry_le. lia. Qed.

(** ** Complete lines *)










Section Collect.
  Context (db_time : Time → Time) (ParseTime : string → option Time).
  (** The database does not move a time into the future. *)
  Hypothesis db_time_le : ∀ t, (db_time t <= t)%Z.
  Hypothesis db_time_pos : ∀ t, (0 <= t)%Z → (0 <= db_time t)%Z.






(** ** The files of a container *)













(** ** Chunks *)




(** ** Pushing *)

Section Push.
  Context (node : string) (ct : container).
  Hypothesis Hnames : ct_ns ct ≠ "" ∧ ct_pod ct ≠ "" ∧ ct_name ct ≠ "".








(** ** Polls, growing files and restarts *)











End Push.
End Collect.

(** ** Instances *)

Section Instances.

Definition demo_time (s : string) : option Time := digits_value 0%Z s.
Definition demo_ct : container := {| ct_ns := "ns"; ct_pod := "pod"; ct_name := "app"; ct_dir := "/log/app" |}.
Definition log_line (t text : string) : string := t +:+ " stdout F " +:+ text +:+ String newline "".
Definition no_logs : LogHub := {| lh_rows := ∅; lh_cursors := ∅ |}.
Definition new_collector : Collector := {| c_cursors := ∅; c_files := ∅ |}.
(** Microseconds of nanoseconds. *)
Definition micros (t : Time) : Time := (t / 1000 * 1000)%Z.



(** A rotated file that cannot be read at one poll: the lines of the newer file
    move the cursor past its lines, which are never pushed. *)
Example unread_file_lost :
  let old := ("/log/app/0.log.1", log_line "1500" "one") in
  let new := ("/log/app/0.log", log_line "2700" "two") in
  let poll := collectContainer micros demo_time "n1" demo_ct in
  let s := poll [(new.1, Some new.2); (old.1, None)] [(0%Z, Done)] new_collector no_logs in
  let r := poll [(new.1, Some new.2); (old.1, Some old.2)] [(0%Z, Done)] s.1.1 s.1.2 in
  r.2 = true ∧ lh_rows r.1.2 !! "ns/pod/app" = Some [{| le_Ts := 2000%Z; le_Log := "two" |}].
Proof. vm_compute. split; reflexivity. Qed.

(** A chunk that was stored although its push was reported as failed is stored
    again: the cursor of the hub was cut to microseconds, and is before the chunk. *)
Example unheard_stored_twice :
  let fs := [("/log/app/0.log", Some (log_line "1500" "one"))] in
  let poll := collectContainer micros demo_time "n1" demo_ct fs in
  let s := poll [(0%Z, DoneUnheard)] new_collector no_logs in
  let r := poll [(0%Z, Done)] s.1.1 s.1.2 in
  lh_rows r.1.2 !! "ns/pod/app" = Some [{| le_Ts := 1000%Z; le_Log := "one" |}; {| le_Ts := 1000%Z; le_Log := "one" |}].
Proof. vm_compute. reflexivity. Qed.

(** A rotated file whose successor has grown past the old offset is read from
    there. *)
Example rotated_start_lost :
  let poll fs := collectContainer micros demo_time "n1" demo_ct fs [(0%Z, Done)] in
  let s := poll [("/log/app/0.log", Some (log_line "1500" "one"))] new_collector no_logs in
  let r := poll [("/log/app/0.log", Some (log_line "2700" "two" +:+ log_line "3900" "tri")); ("/log/app/0.log.1", Some (log_line "1500" "one"))]
             s.1.1 s.1.2 in
  lh_rows r.1.2 !! "ns/pod/app" = Some [{| le_Ts := 1000%Z; le_Log := "one" |}; {| le_Ts := 3000%Z; le_Log := "tri" |}].
Proof. vm_compute. reflexivity. Qed.
End Instances.
