(* ===== verification/AuditQuery.v ===== *)
(** * kvisior/internal/store: searching the stored audit events

    The table of audit events of one cluster, the conditions of a search, the
    search itself, which looks at growing windows of time from the newest rows
    back, and the page the HTTP handler makes of it. *)

From Stdlib Require Import Ascii.
From stdpp Require Import base list gmap strings sorting.
From S2P Require Import Prelude GoStrings AuditRules AuditEngine.
Local Open Scope string_scope.
Local Open Scope list_scope.
Local Open Scope go_scope.

Definition Microsecond : Duration := 1000%Z.

(** What the database and its driver do to times: whole microseconds are kept,
    the rest is cut off. *)
Class DbTime := {
  pg : Time → Time;
  pg_le : ∀ t, (pg t ≤ t)%Z;
  pg_gt : ∀ t, (t < pg t + Microsecond)%Z;
  pg_grid : ∀ t, (pg t mod Microsecond = 0)%Z;
}.

(** ** The table *)

Record AuditRow := {
  ar_id : Z; ar_ts : Time; ar_user : string; ar_kind : string; ar_ns : string; ar_resource : string; ar_name : string;
  ar_uid : option string; ar_ip : option string; ar_allowed : option bool; ar_origin : Origin;
  ar_rule : option string; ar_sev : option string; ar_data : Event; ar_silenced : bool }.

Global Instance Event_eq_dec : EqDecision Event.
Proof. solve_decision. Defined.
Global Instance Origin_eq_dec' : EqDecision Origin.
Proof. solve_decision. Defined.
Global Instance AuditRow_eq_dec : EqDecision AuditRow.
Proof. solve_decision. Defined.

Definition nullable (s : string) : option string := if s == "" then None else Some s.

(** [auditDangerExpr]. *)
Definition auditDanger (r : AuditRow) : bool :=
  bool_decide (ar_rule r ≠ None) || negb (default true (ar_allowed r)).

(** The condition that hides silenced rows: by their column when the database
    has it, else by the table of silenced events, whose identifiers are [se];
    [rollups] and [silences] are what [tableReady] says. *)
Definition silencedFilter (rollups silences : result bool) (se : list string) (r : AuditRow) : bool :=
  match rollups with
  | Ok true => negb (ar_silenced r)
  | _ => match silences with
         | Ok true => match ar_uid r with Some u => negb (any (String.eqb u) se) | None => true end
         | _ => true
         end
  end.

(** ** LIKE *)

(** [strings.NewReplacer] on the three bytes that are special in a pattern. *)
Fixpoint likeEscape (s : string) : string :=
  match s with
  | EmptyString => ""
  | String c s =>
      if Ascii.eqb c "\" || Ascii.eqb c "%" || Ascii.eqb c "_" then String "\" (String c (likeEscape s))
      else String c (likeEscape s)
  end.

(** The bytes after the continuation bytes of a character. *)
Fixpoint drop_cont (s : string) : string :=
  match s with
  | String c s' => if is_cont (byte_of c) then drop_cont s' else s
  | EmptyString => ""
  end.

(** [v LIKE p]: [%] is any text, [_] one character, a backslash takes the next
    byte as it is. *)
Fixpoint like (p v : string) {struct p} : bool :=
  match p with
  | EmptyString => v == ""
  | String c p' =>
      if Ascii.eqb c "%" then
        (fix anywhere (v : string) : bool := like p' v || match v with String _ v' => anywhere v' | EmptyString => false end) v
      else if Ascii.eqb c "_" then match v with String _ v' => like p' (drop_cont v') | EmptyString => false end
      else if Ascii.eqb c "\" then
        match p', v with
        | String d p'', String a v' => Ascii.eqb a d && like p'' v'
        | _, _ => false
        end
      else match v with String a v' => Ascii.eqb a c && like p' v' | EmptyString => false end
  end.

(** ** Queries *)

Record AuditObject := { O_Resource : string; O_Namespace : string; O_Name : string }.

Record AuditEventQuery := {
  Q_From : Time; Q_To : Time; Q_User : string; Q_Namespace : string; Q_Kind : string; Q_Resource : string;
  Q_SourceIP : string; Q_Result : string; Q_Search : string; Q_DangerOnly : bool; Q_Object : option AuditObject;
  Q_BeforeTs : Time; Q_BeforeID : Z; Q_Limit : Z; Q_users : option (list string) }.

Definition with_range (q : AuditEventQuery) (from to : Time) : AuditEventQuery :=
  {| Q_From := from; Q_To := to; Q_User := Q_User q; Q_Namespace := Q_Namespace q; Q_Kind := Q_Kind q;
     Q_Resource := Q_Resource q; Q_SourceIP := Q_SourceIP q; Q_Result := Q_Result q; Q_Search := Q_Search q;
     Q_DangerOnly := Q_DangerOnly q; Q_Object := Q_Object q; Q_BeforeTs := Q_BeforeTs q; Q_BeforeID := Q_BeforeID q;
     Q_Limit := Q_Limit q; Q_users := Q_users q |}.

Definition with_users (q : AuditEventQuery) (us : list string) : AuditEventQuery :=
  {| Q_From := Q_From q; Q_To := Q_To q; Q_User := Q_User q; Q_Namespace := Q_Namespace q; Q_Kind := Q_Kind q;
     Q_Resource := Q_Resource q; Q_SourceIP := Q_SourceIP q; Q_Result := Q_Result q; Q_Search := Q_Search q;
     Q_DangerOnly := Q_DangerOnly q; Q_Object := Q_Object q; Q_BeforeTs := Q_BeforeTs q; Q_BeforeID := Q_BeforeID q;
     Q_Limit := Q_Limit q; Q_users := Some us |}.

(** The next page: only rows after [ts], [id] in the order of the search. *)
Definition with_before (q : AuditEventQuery) (ts : Time) (id : Z) : AuditEventQuery :=
  {| Q_From := Q_From q; Q_To := Q_To q; Q_User := Q_User q; Q_Namespace := Q_Namespace q; Q_Kind := Q_Kind q;
     Q_Resource := Q_Resource q; Q_SourceIP := Q_SourceIP q; Q_Result := Q_Result q; Q_Search := Q_Search q;
     Q_DangerOnly := Q_DangerOnly q; Q_Object := Q_Object q; Q_BeforeTs := ts; Q_BeforeID := id;
     Q_Limit := Q_Limit q; Q_users := Q_users q |}.

Section search.
Context {T : CaseTables} {D : DbTime}.

(** [ILIKE] of the database, which knows the case of letters: pattern, value. *)
Context (ilike : string → string → bool).

(** The conditions on the user and the result, which the table of hourly
    counts has too; [danger] and [allowed] are columns of either table. *)
Definition userResultFilters (q : AuditEventQuery) (danger : bool) (user : string) (allowed : option bool) : bool :=
  match Q_users q with
  | Some us => any (String.eqb user) us
  | None => (Q_User q == "") || ilike ("%" +:+ likeEscape (Q_User q) +:+ "%") user
  end
  && (if Q_Result q == ResultAllowed then negb (bool_decide (allowed = Some false))
      else if Q_Result q == ResultDenied then bool_decide (allowed = Some false) else true)
  && (negb (Q_DangerOnly q) || danger).

Definition in_range (q : AuditEventQuery) (ts : Time) : bool :=
  (IsZero (Q_From q) || (pg (Q_From q) <=? ts)%Z) && (IsZero (Q_To q) || (ts <=? pg (Q_To q))%Z).

(** The conditions of [auditWhereWith] that are not about the time. *)
Definition column_filters (q : AuditEventQuery) (r : AuditRow) : bool :=
  let text s := ilike ("%" +:+ likeEscape (Q_Search q) +:+ "%") s in
  ((Q_Namespace q == "") || (ar_ns r == Q_Namespace q))
  && ((Q_Kind q == "") || (ar_kind r == Q_Kind q))
  && ((Q_Resource q == "") || like (likeEscape (ToLower (Q_Resource q)) +:+ "%") (ar_resource r))
  && ((Q_SourceIP q == "") || match ar_ip r with Some ip => like (likeEscape (Q_SourceIP q) +:+ "%") ip | None => false end)
  && match Q_Object q with
     | Some o => (ar_resource r == O_Resource o) && (ar_ns r == O_Namespace o) && (ar_name r == O_Name o)
     | None => true
     end
  && ((Q_Search q == "")
      || text (ar_user r) || text (ar_name r) || text (ar_ns r) || text (ar_resource r)
      || match ar_ip r with Some ip => text ip | None => false end || text (ar_kind r)).

Definition auditWhereWith (keep : AuditRow → bool) (q : AuditEventQuery) (r : AuditRow) : bool :=
  in_range q (ar_ts r) && column_filters q r
  && userResultFilters q (auditDanger r) (ar_user r) (ar_allowed r) && keep r.

(** [ORDER BY ts DESC, id DESC]. *)
Definition newer (a b : AuditRow) : Prop := (ar_ts b < ar_ts a ∨ (ar_ts a = ar_ts b ∧ ar_id b ≤ ar_id a))%Z.
#[global] Instance newer_dec : RelDecision newer.
Proof. intros a b. unfold newer. apply _. Defined.

(** [(ts, id) < (BeforeTs, BeforeID)]. *)
Definition before_page (q : AuditEventQuery) (r : AuditRow) : bool :=
  IsZero (Q_BeforeTs q) || (ar_ts r <? pg (Q_BeforeTs q))%Z
  || ((ar_ts r =? pg (Q_BeforeTs q))%Z && (ar_id r <? Q_BeforeID q)%Z).

Definition queryAuditWindow (keep : AuditRow → bool) (table : list AuditRow) (q : AuditEventQuery) (limit : nat) : list AuditRow :=
  take limit (merge_sort newer (List.filter (λ r, auditWhereWith keep q r && before_page q r) table)).

(** ** The windows of a search *)

Definition auditWindowFirst : Duration := (6 * Hour)%Z.
Definition auditWindowGrowth : Z := 3.
Definition auditWindowMinSpan : Duration := (24 * Hour)%Z.

(** A signed 64-bit integer as the machine keeps it. *)
Definition wrap64 (z : Z) : Z := ((z + 2 ^ 63) mod 2 ^ 64 - 2 ^ 63)%Z.

Fixpoint windows_loop (fuel : nat) (from : Time) (size : Duration) (cur : Time) : list (Time * Time) :=
  match fuel with
  | O => []
  | S fuel =>
      if Before cur from then []
      else
        let lo := TAdd cur (- size)%Z in
        let lo := if Before lo from then from else lo in
        (lo, cur) :: windows_loop fuel from (wrap64 (size * auditWindowGrowth)) (TAdd lo (- Microsecond)%Z)
  end.

(** Rounds that are enough: each goes back by six hours or is the last. *)
Definition windows_fuel (from upper : Time) : nat := (2 + Z.to_nat ((upper - from) / auditWindowFirst))%nat.

Definition window_upper (q : AuditEventQuery) : Time :=
  if negb (IsZero (Q_BeforeTs q)) && (IsZero (Q_To q) || Before (Q_BeforeTs q) (Q_To q)) then Q_BeforeTs q else Q_To q.

Definition auditWindows (q : AuditEventQuery) : list (Time * Time) :=
  let upper := window_upper q in
  if IsZero (Q_From q) || IsZero upper || (TSub upper (Q_From q) <=? auditWindowMinSpan)%Z then [(Q_From q, Q_To q)]
  else windows_loop (windows_fuel (Q_From q) upper) (Q_From q) auditWindowFirst upper.

(** ** The search *)

(** The loop over the windows: [tables] is the table as each statement finds
    it, [None] when the statement fails. *)
Fixpoint query_windows (keep : AuditRow → bool) (q : AuditEventQuery) (limit : nat) (ws : list (Time * Time))
    (tables : list (option (list AuditRow))) (out : list AuditRow) : option (list AuditRow) :=
  match ws, tables with
  | [], _ => Some out
  | (lo, hi) :: ws, Some table :: tables =>
      let out := out ++ queryAuditWindow keep table (with_range q lo hi) (limit - length out) in
      if (limit <=? length out)%nat then Some out else query_windows keep q limit ws tables out
  | _, _ => None
  end.

Definition page_limit (q : AuditEventQuery) : Z :=
  if (Q_Limit q <=? 0)%Z || (500 <? Q_Limit q)%Z then 200%Z else Q_Limit q.

(** [resolved] is what [resolveAuditUsers] returned: the users, if it could
    name them. *)
Definition QueryAuditEvents (keep : AuditRow → bool) (resolved : result (option (list string)))
    (tables : list (option (list AuditRow))) (q : AuditEventQuery) : option (list AuditRow) :=
  let limit := Z.to_nat (page_limit q) in
  if (Q_User q != "") && bool_decide (Q_users q = None) then
    match resolved with
    | Err _ => None
    | Ok (Some []) => Some []
    | Ok (Some us) => query_windows keep (with_users q us) limit (auditWindows (with_users q us)) tables []
    | Ok None => query_windows keep q limit (auditWindows q) tables []
    end
  else query_windows keep q limit (auditWindows q) tables [].

(** [t.UnixMicro()] and [time.UnixMicro]. *)
Definition UnixMicro (t : Time) : Z := ((t - unixEpoch) / Microsecond)%Z.
Definition timeUnixMicro (us : Z) : Time := (unixEpoch + us * Microsecond)%Z.

(** [auditQueryHandler]: the rows, and where the next page starts if this one
    is full, in microseconds since 1970. *)
Definition next_page (q : AuditEventQuery) (rows : list AuditRow) : option (Z * Z) :=
  if (Z.of_nat (length rows) =? page_limit q)%Z then (λ r, (UnixMicro (ar_ts r), ar_id r)) <$> last rows else None.

Definition auditQueryHandler (keep : AuditRow → bool) (resolved : result (option (list string)))
    (tables : list (option (list AuditRow))) (q : AuditEventQuery) : option (list AuditRow * option (Z * Z)) :=
  rows ← QueryAuditEvents keep resolved tables q; Some (rows, next_page q rows).

End search.

(** ** The query of a request *)

(** [strconv.ParseInt(s, 10, 64)]: the value, which is the nearest int64 when
    the number is out of range, and whether there was no error. *)
Definition ParseInt64 (s : string) : Z * bool :=
  let '(neg, digits) := match s with
                        | String "+" s' => (false, s')
                        | String "-" s' => (true, s')
                        | _ => (false, s)
                        end in
  match digits with
  | EmptyString => (0%Z, false)
  | _ => match digits_value 0 digits with
         | None => (0%Z, false)
         | Some v => let v := if neg then (- v)%Z else v in
                     if (v <? minInt64)%Z then (minInt64, false)
                     else if (maxInt64 <? v)%Z then (maxInt64, false) else (v, true)
         end
  end.

(** [before]: the position of the next page that a request carries. *)
Definition before_of (beforeTs beforeId : string) : Time * Z :=
  let '(ms, ok) := ParseInt64 beforeTs in
  if ok && (0 <? ms)%Z then (timeUnixMicro ms, (ParseInt64 beforeId).1) else (0%Z, 0%Z).

(** [get] and [has] read the query string; [retention] is [AuditRetention]. *)
Definition auditQueryFromRequest (get : string → string) (has : string → bool) (retention : Duration) (now : Time)
    : AuditEventQuery :=
  let maxHours := Z.quot retention Hour in
  let hours := (ParseInt64 (get "hours")).1 in
  let hours := if (hours <=? 0)%Z then 24%Z else hours in
  let hours := if (maxHours <? hours)%Z then maxHours else hours in
  let '(beforeTs, beforeID) := before_of (get "beforeTs") (get "beforeId") in
  {| Q_From := TAdd now (- hours * Hour)%Z; Q_To := now; Q_User := TrimSpace (get "user");
     Q_Namespace := TrimSpace (get "ns"); Q_Kind := TrimSpace (get "kind"); Q_Resource := TrimSpace (get "resource");
     Q_SourceIP := TrimSpace (get "ip"); Q_Result := get "result"; Q_Search := TrimSpace (get "q");
     Q_DangerOnly := get "danger" == "1";
     Q_Object := if has "objResource"
                 then Some {| O_Resource := get "objResource"; O_Namespace := get "objNs"; O_Name := get "objName" |} else None;
     Q_BeforeTs := beforeTs; Q_BeforeID := beforeID; Q_Limit := (ParseInt64 (get "limit")).1; Q_users := None |}.
