(* ===== verification/AuditQueryProps.v ===== *)
(** * The search of audit events is the plain search

    Looking at windows of time one after the other gives the rows that one
    ordered statement over the whole range would give, and following the pages
    gives every row once. *)

From Stdlib Require Import Ascii.
From stdpp Require Import base list gmap strings sorting.
From S2P Require Import Prelude GoStrings AuditRules AuditEngine AuditQuery.
Local Open Scope string_scope.
Local Open Scope list_scope.
Local Open Scope go_scope.

(** ** Database times *)

Section times.
Context {D : DbTime}.

Lemma pg_value t : pg t = (t / Microsecond * Microsecond)%Z.
Proof.
  pose proof (pg_le t). pose proof (pg_gt t). pose proof (pg_grid t) as Hg.
  apply Z.div_exact in Hg; [|done]. unfold Microsecond in *.
  assert (t / 1000 = pg t / 1000)%Z as ->; [|lia].
  symmetry. apply Z.div_unique with (r := (t - pg t)%Z); [lia|]. lia.
Qed.

Lemma pg_mono t u : (t ≤ u)%Z → (pg t ≤ pg u)%Z.
Proof. rewrite !pg_value. unfold Microsecond. intros H. pose proof (Z.div_le_mono t u 1000). lia. Qed.

Lemma pg_back (t : Time) : pg (t - Microsecond)%Z = (pg t - Microsecond)%Z.
Proof.
  rewrite !pg_value. replace (t - Microsecond)%Z with (t + (-1) * Microsecond)%Z by lia.
  rewrite Z.div_add by done. unfold Microsecond. lia.
Qed.

Lemma pg_idem t : pg (pg t) = pg t.
Proof. rewrite !pg_value. by rewrite Z.div_mul. Qed.

(** On stored times, the next one is a microsecond away. *)
Lemma pg_next a b : pg a = a → pg b = b → (a < b)%Z → (a + Microsecond ≤ b)%Z.
Proof.
  rewrite !pg_value. unfold Microsecond. intros Ha Hb Hlt.
  pose proof (Z.div_le_mono a b 1000). nia.
Qed.
End times.

(** ** Numbers in a query string *)

Lemma digit_byte d : (0 ≤ d < 10)%Z → byte_of (ascii_of (48 + d)) = (48 + d)%Z.
Proof. intros H. unfold byte_of, ascii_of. rewrite Ascii.N_ascii_embedding; lia. Qed.

Lemma digits_value_digits fuel z acc a : (0 ≤ z < 10 ^ Z.of_nat fuel)%Z →
  digits_value a (uint_digits fuel z acc) = digits_value (a * 10 ^ Z.of_nat (String.length (uint_digits fuel z acc) - String.length acc) + z)%Z acc
  ∧ (String.length acc ≤ String.length (uint_digits fuel z acc))%nat.
Proof.
  revert z acc. induction fuel as [|fuel IH]; intros z acc Hz; [cbn in *; split; [|lia]; rewrite Nat.sub_diag; f_equal; lia|].
  cbn [uint_digits]. pose proof (Z.mod_pos_bound z 10 ltac:(lia)) as Hm.
  assert (∀ b, digits_value b (String (ascii_of (48 + z mod 10)) acc) = digits_value (b * 10 + z mod 10)%Z acc) as Hd.
  { intros b. cbn [digits_value]. unfold is_digit. rewrite (digit_byte (z mod 10)) by done.
    destruct (Z.leb_spec 48 (48 + z mod 10)); [|lia]. destruct (Z.leb_spec (48 + z mod 10) 57); [|lia].
    cbn [andb]. f_equal. lia. }
  destruct (Z.ltb_spec z 10).
  - rewrite Hd. cbn [String.length]. split; [|lia]. rewrite Z.mod_small by lia.
    replace (S (String.length acc) - String.length acc)%nat with 1%nat by lia. f_equal; lia.
  - destruct (IH (z / 10)%Z (String (ascii_of (48 + z mod 10)) acc)) as [IHv IHl].
    { split; [apply Z.div_pos; lia|]. apply Z.div_lt_upper_bound; [lia|].
      rewrite Nat2Z.inj_succ, Z.pow_succ_r in Hz by lia. lia. }
    cbn [String.length] in IHl. split; [|lia]. rewrite IHv, Hd. cbn [String.length].
    set (n := String.length (uint_digits _ _ _)) in *.
    replace (n - String.length acc)%nat with (S (n - S (String.length acc)))%nat by lia.
    rewrite Nat2Z.inj_succ, Z.pow_succ_r by lia. f_equal. pose proof (Z.div_mod z 10). lia.
Qed.

Lemma uint_digits_head fuel z acc : (0 ≤ z)%Z → (0 < fuel)%nat →
  ∃ c s, uint_digits fuel z acc = String c s ∧ is_digit c = true.
Proof.
  revert z acc. induction fuel as [|fuel IH]; intros z acc Hz Hf; [lia|]. cbn [uint_digits].
  pose proof (Z.mod_pos_bound z 10 ltac:(lia)) as Hm.
  assert (is_digit (ascii_of (48 + z mod 10)) = true) as Hdig.
  { unfold is_digit. rewrite (digit_byte (z mod 10)) by done. apply andb_true_iff. rewrite !Z.leb_le. lia. }
  destruct (z <? 10)%Z eqn:E; [eauto|]. destruct fuel; [cbn; eauto|]. apply IH; [apply Z.div_pos; lia|lia].
Qed.

Lemma ParseInt64_digits c s : is_digit c = true →
  ParseInt64 (String c s) = match digits_value 0 (String c s) with
    | None => (0%Z, false)
    | Some v => if (v <? minInt64)%Z then (minInt64, false) else if (maxInt64 <? v)%Z then (maxInt64, false) else (v, true)
    end.
Proof. intros H. unfold ParseInt64. destruct c as [[] [] [] [] [] [] [] []]; try discriminate H; reflexivity. Qed.

(** A number written into a query string is read back. *)
Lemma ParseInt64_FormatInt z : (minInt64 ≤ z ≤ maxInt64)%Z → ParseInt64 (FormatInt z) = (z, true).
Proof.
  intros Hz. unfold FormatInt. destruct (Z.ltb_spec z 0).
  - destruct (digits_value_digits 20 (- z) "" 0) as [Hv _]; [unfold minInt64 in *; lia|].
    rewrite Z.mul_0_l, Z.add_0_l in Hv. destruct (uint_digits_head 20 (- z) "") as (c & s & E & _); [lia..|].
    rewrite app_cons_s. change ("" +:+ ?x) with x. unfold ParseInt64. rewrite E in *. rewrite Hv. cbn [digits_value].
    rewrite Z.opp_involutive. destruct (Z.ltb_spec z minInt64); [lia|]. by destruct (Z.ltb_spec maxInt64 z); [lia|].
  - destruct (digits_value_digits 20 z "" 0) as [Hv _]; [unfold maxInt64 in *; lia|].
    rewrite Z.mul_0_l, Z.add_0_l in Hv. destruct (uint_digits_head 20 z "") as (c & s & E & Hc); [lia..|].
    rewrite E in *. rewrite ParseInt64_digits, Hv by done. cbn [digits_value].
    destruct (Z.ltb_spec z minInt64); [lia|]. by destruct (Z.ltb_spec maxInt64 z); [lia|].
Qed.

(** ** Escaped patterns *)

Lemma like_any v : like "%" v = true.
Proof. induction v as [|c v IH]; [done|]. cbn in *. by rewrite IH, ?orb_true_r. Qed.

(** An escaped text and [%] match what starts with the text. *)
Lemma like_prefix s v : like (likeEscape s +:+ "%") v = HasPrefix v s.
Proof.
  revert v. induction s as [|c s IH]; intros v; [by rewrite like_any|]. cbn [likeEscape].
  assert (∀ p, like (String "\" (String c p)) v = match v with String a v' => Ascii.eqb a c && like p v' | EmptyString => false end) as Hesc
    by (by intros p; destruct v).
  assert (HasPrefix v (String c s) = match v with String a v' => Ascii.eqb a c && HasPrefix v' s | EmptyString => false end) as ->
    by (destruct v as [|a v]; [done|]; cbn [HasPrefix]; by rewrite Ascii.eqb_sym).
  destruct (Ascii.eqb c "\" || Ascii.eqb c "%" || Ascii.eqb c "_") eqn:E; rewrite !app_cons_s.
  - rewrite Hesc. destruct v; [done|]. by rewrite IH.
  - apply orb_false_iff in E as [[E1 E2]%orb_false_iff E3]. cbn [like]. rewrite E1, E2, E3. destruct v; [done|]. by rewrite IH.
Qed.

(** ** Rows in order *)

Global Instance newer_total : Total newer.
Proof. intros a b. unfold newer. lia. Qed.
Global Instance newer_trans : Transitive newer.
Proof. intros a b c. unfold newer. lia. Qed.

Section search.
Context {T : CaseTables} {D : DbTime} (ilike : string → string → bool) (keep : AuditRow → bool).

(** What the table guarantees: its key, and times the database can keep. *)
Record table_ok (table : list AuditRow) : Prop := {
  table_key : ∀ a b, a ∈ table → b ∈ table → ar_id a = ar_id b → a = b;
  table_nodup : NoDup table;
  table_time : ∀ r, r ∈ table → pg (ar_ts r) = ar_ts r;
}.

(** The plain search: one statement without a limit. *)
Definition full (table : list AuditRow) (q : AuditEventQuery) : list AuditRow :=
  merge_sort newer (List.filter (λ r, auditWhereWith ilike keep q r && before_page q r) table).

Lemma full_elem table q r :
  r ∈ full table q ↔ r ∈ table ∧ auditWhereWith ilike keep q r = true ∧ before_page q r = true.
Proof. unfold full. rewrite merge_sort_Permutation, list_elem_of_In, filter_In, <-list_elem_of_In, andb_true_iff. tauto. Qed.

Lemma full_sorted table q : StronglySorted newer (full table q).
Proof. apply (StronglySorted_merge_sort newer). Qed.

Lemma full_nodup table q : NoDup table → NoDup (full table q).
Proof. intros H. unfold full. rewrite merge_sort_Permutation. by apply NoDup_ListNoDup, List.NoDup_filter, NoDup_ListNoDup. Qed.

(** A sorted list without repetitions is the plain search if it has its rows. *)
Lemma full_unique table q l :
  table_ok table → StronglySorted newer l → NoDup l → (∀ r, r ∈ l ↔ r ∈ full table q) → l = full table q.
Proof.
  intros Hok Hl Hnd Hin. apply (StronglySorted_unique_strong newer); [|done|apply full_sorted|].
  - intros a b Ha Hb Hab Hba. apply Hin, full_elem in Ha as [Ha _]. apply full_elem in Hb as [Hb _].
    apply (table_key _ Hok); [done..|]. unfold newer in *. lia.
  - apply NoDup_Permutation; [done|apply full_nodup, Hok|done].
Qed.

(** The parts of a condition that do not look at the range. *)
Lemma where_range q lo hi r :
  auditWhereWith ilike keep (with_range q lo hi) r
  = in_range (with_range q lo hi) (ar_ts r) && (column_filters ilike q r
    && userResultFilters ilike q (auditDanger r) (ar_user r) (ar_allowed r) && keep r).
Proof. unfold auditWhereWith. by rewrite !andb_assoc. Qed.

Lemma range_elem table q lo hi r : (0 < lo)%Z → (0 < hi)%Z →
  r ∈ full table (with_range q lo hi) ↔
    r ∈ table ∧ (pg lo ≤ ar_ts r ≤ pg hi)%Z
    ∧ column_filters ilike q r && userResultFilters ilike q (auditDanger r) (ar_user r) (ar_allowed r) && keep r = true
    ∧ before_page q r = true.
Proof.
  intros Hlo Hhi. rewrite full_elem, where_range. unfold in_range, IsZero.
  cbn [Q_From Q_To with_range].
  destruct (Z.eqb_spec lo 0); [lia|]. destruct (Z.eqb_spec hi 0); [lia|]. cbn [orb].
  change (before_page (with_range q lo hi) r) with (before_page q r).
  rewrite !(andb_true_iff (_ && _) (_ && _)), andb_true_iff, !Z.leb_le. tauto.
Qed.

(** Two adjacent ranges searched one after the other. *)
Lemma full_join table q lo mid hi : table_ok table →
  (0 < lo)%Z → (lo ≤ mid - Microsecond)%Z → (mid ≤ hi)%Z →
  full table (with_range q mid hi) ++ full table (with_range q lo (mid - Microsecond)%Z)
  = full table (with_range q lo hi).
Proof.
  intros Hok Hlo Hmid Hhi. assert (0 < mid - Microsecond)%Z by lia. unfold Microsecond in *.
  assert (∀ r, r ∈ table → (pg mid ≤ ar_ts r)%Z ∨ (ar_ts r ≤ pg mid - 1000)%Z) as Hcut.
  { intros r Hr. pose proof (table_time _ Hok _ Hr).
    destruct (Z.le_gt_cases (pg mid) (ar_ts r)) as [|Hlt]; [by left|right].
    pose proof (pg_next (ar_ts r) (pg mid) ltac:(done) (pg_idem mid) Hlt). unfold Microsecond in *. lia. }
  pose proof (pg_back mid) as Hb. unfold Microsecond in Hb.
  pose proof (pg_mono mid hi Hhi). pose proof (pg_mono lo (mid - 1000) Hmid).
  apply full_unique; [done| | |].
  - apply StronglySorted_app_2; [|apply full_sorted..]. intros a b Ha Hbm.
    apply range_elem in Ha as (_ & Ha & _); [|lia..]. apply range_elem in Hbm as (_ & Hbm & _); [|lia..].
    unfold newer. lia.
  - apply NoDup_app; split_and!; [apply full_nodup, Hok| |apply full_nodup, Hok].
    intros r Ha Hbm. apply range_elem in Ha as (_ & Ha & _); [|lia..].
    apply range_elem in Hbm as (_ & Hbm & _); [|lia..]. lia.
  - intros r. rewrite elem_of_app, !range_elem by lia. split.
    + intros [(? & ? & ?)|(? & ? & ?)]; split_and!; try tauto; lia.
    + intros (Hr & ? & ?). destruct (Hcut r Hr); [left|right]; split_and!; try tauto; lia.
Qed.

(** ** The windows *)

Definition fits (from upper cur : Time) (size : Duration) : Prop :=
  (0 < size ∧ auditWindowFirst ≤ size ∧ size ≤ 2 * (upper - cur) + auditWindowFirst)%Z.

Lemma wrap64_id z : (- 2 ^ 63 ≤ z < 2 ^ 63)%Z → wrap64 z = z.
Proof. intros H. unfold wrap64. rewrite Z.mod_small; lia. Qed.

Lemma windows_join table q (from upper : Time) : table_ok table → (0 < from)%Z → (upper - from ≤ 2 ^ 61)%Z →
  ∀ fuel cur size, (from ≤ cur ≤ upper)%Z → fits from upper cur size →
  (Z.to_nat ((cur - from) / auditWindowFirst) + 2 ≤ fuel)%nat →
  ∃ f, (from ≤ f < from + Microsecond)%Z ∧ (f ≤ cur)%Z ∧
    concat (map (λ w, full table (with_range q w.1 w.2)) (windows_loop fuel from size cur))
    = full table (with_range q f cur).
Proof.
  intros Hok Hfrom Hspan fuel. induction fuel as [|fuel IH]; intros cur size Hcur (Hs & Hs6 & Hsz) Hfuel; [lia|].
  cbn [windows_loop]. unfold Before, TAdd. destruct (Z.ltb_spec cur from); [lia|].
  set (lo := if (cur + - size <? from)%Z then from else (cur + - size)%Z).
  assert (from ≤ lo ≤ cur)%Z as Hlo. { unfold lo. destruct (Z.ltb_spec (cur + - size) from); lia. }
  cbn [map concat fst snd].
  destruct (Z.le_gt_cases from (lo + - Microsecond)) as [Hmore|Hdone].
  - assert (lo = cur - size)%Z as Elo.
    { unfold lo in *. destruct (Z.ltb_spec (cur + - size) from); [unfold Microsecond in *; lia|lia]. }
    assert (Z.to_nat ((lo + - Microsecond - from) / auditWindowFirst) + 1 ≤ Z.to_nat ((cur - from) / auditWindowFirst))%nat as Hless.
    { pose proof (Z.div_le_mono (lo + - Microsecond - from) (cur - from - auditWindowFirst) auditWindowFirst) as Hd.
      replace (cur - from - auditWindowFirst)%Z with (cur - from + (-1) * auditWindowFirst)%Z in Hd by lia.
      rewrite Z.div_add in Hd by done.
      pose proof (Z.div_pos (lo + - Microsecond - from) auditWindowFirst).
      unfold auditWindowFirst, Hour, Minute, Second, Microsecond in *. lia. }
    rewrite wrap64_id.
    2: { unfold auditWindowGrowth, auditWindowFirst, Hour, Minute, Second, Microsecond in *. lia. }
    destruct (IH (lo + - Microsecond)%Z (size * auditWindowGrowth)%Z) as (f & Hf & Hfc & Hc).
    + unfold Microsecond in *. lia.
    + unfold fits, auditWindowGrowth, Microsecond in *. lia.
    + lia.
    + exists f. split_and!; [lia..|unfold Microsecond in *; lia|]. rewrite Hc. replace (lo + - Microsecond)%Z with (lo - Microsecond)%Z by lia.
      apply full_join; [done|lia| |lia]. unfold Microsecond in *. lia.
  - exists lo. split_and!; [unfold Microsecond in *; lia..|].
    assert (windows_loop fuel from (wrap64 (size * auditWindowGrowth)%Z) (lo + - Microsecond)%Z = []) as ->.
    { destruct fuel; [done|]. cbn [windows_loop]. unfold Before. by destruct (Z.ltb_spec (lo + - Microsecond) from); [|lia]. }
    cbn [map concat]. by rewrite app_nil_r.
Qed.

(** ** The search *)

(** The loop takes from each window what is still missing. *)
Lemma query_windows_take table q limit ws out :
  (length out ≤ limit)%nat →
  query_windows ilike keep q limit ws (replicate (length ws) (Some table)) out
  = Some (take limit (out ++ concat (map (λ w, full table (with_range q w.1 w.2)) ws))).
Proof.
  revert out. induction ws as [|[lo hi] ws IH]; intros out Hout; cbn [query_windows replicate length map concat fst snd].
  - by rewrite app_nil_r, take_ge.
  - unfold queryAuditWindow. fold (full table (with_range q lo hi)).
    set (l := full table (with_range q lo hi)).
    assert (out ++ take (limit - length out) l = take limit (out ++ l)) as ->. { by rewrite take_app, (take_ge out) by lia. }
    destruct (Nat.leb_spec limit (length (take limit (out ++ l)))) as [Hfull|Hshort].
    + rewrite length_take in Hfull. f_equal. rewrite app_assoc, (take_app_le (out ++ l)) by lia. done.
    + rewrite length_take in Hshort. rewrite take_ge by lia. rewrite IH by lia. by rewrite app_assoc.
Qed.

(** No two ranges with the same stored rows are told apart. *)
Lemma full_ext table q q' :
  (∀ r, r ∈ table → auditWhereWith ilike keep q r && before_page q r = auditWhereWith ilike keep q' r && before_page q' r) →
  full table q = full table q'.
Proof.
  intros H. unfold full. f_equal. induction table as [|r table IH]; [done|]. cbn [List.filter].
  rewrite (H r) by (by left). rewrite IH; [done|]. intros r' Hr'. apply H. by right.
Qed.

(** The rows of a page are no newer than the end of the last window. *)
Lemma upper_enough table q f : table_ok table → (0 ≤ Q_BeforeTs q)%Z →
  full table (with_range q f (window_upper q)) = full table (with_range q f (Q_To q)).
Proof.
  intros Hok Hb. apply full_ext. intros r Hr. rewrite !where_range. unfold in_range, window_upper.
  cbn [Q_From Q_To with_range].
  destruct (negb (IsZero (Q_BeforeTs q)) && _) eqn:E; [|done]. bool_hyps. unfold IsZero, Before in *.
  unfold before_page. cbn [Q_BeforeTs Q_BeforeID with_range]. unfold IsZero. rewrite H. cbn [orb].
  destruct ((ar_ts r <? pg (Q_BeforeTs q))%Z || _) eqn:P; [|by rewrite !andb_false_r].
  assert (ar_ts r ≤ pg (Q_BeforeTs q))%Z as Hle by (apply orb_true_iff in P as [P|P]; bool_hyps; lia).
  apply Z.leb_le in Hle as ->. do 3 f_equal. symmetry.
  destruct H0 as [->|Hlt]; [done|]. bool_hyps.
  pose proof (pg_mono (Q_BeforeTs q) (Q_To q) ltac:(lia)). apply orb_true_iff. right. apply Z.leb_le.
  destruct P as [P|P]; bool_hyps; lia.
Qed.

(** The windows together are the range, but for its first microsecond. *)
Lemma windows_full table q : table_ok table →
  (0 ≤ Q_From q)%Z → (0 ≤ Q_BeforeTs q)%Z → (window_upper q - Q_From q ≤ 2 ^ 61)%Z →
  ∃ f, (Q_From q ≤ f < Q_From q + Microsecond)%Z ∧
    concat (map (λ w, full table (with_range q w.1 w.2)) (auditWindows q)) = full table (with_range q f (Q_To q)).
Proof.
  intros Hok Hfrom Hb Hspan. unfold auditWindows. destruct (IsZero (Q_From q) || _ || _) eqn:E.
  - exists (Q_From q). split; [unfold Microsecond; lia|]. cbn [map concat]. by rewrite app_nil_r.
  - bool_hyps. unfold IsZero in *. bool_hyps.
    destruct (windows_join table q (Q_From q) (window_upper q) Hok ltac:(lia) Hspan
                (windows_fuel (Q_From q) (window_upper q)) (window_upper q) auditWindowFirst) as (f & Hf & _ & Hc).
    + unfold TSub, minInt64, maxInt64, auditWindowMinSpan, Hour, Minute, Second in *. lia.
    + unfold fits, auditWindowFirst, Hour, Minute, Second. lia.
    + unfold windows_fuel. lia.
    + exists f. split; [done|]. rewrite Hc. by apply upper_enough.
Qed.

(** A search whose users need no resolving. *)
Definition plain (q : AuditEventQuery) : Prop := Q_User q = "" ∨ Q_users q ≠ None.

Lemma query_plain table q resolved : plain q →
  QueryAuditEvents ilike keep resolved (replicate (length (auditWindows q)) (Some table)) q
  = Some (take (Z.to_nat (page_limit q)) (concat (map (λ w, full table (with_range q w.1 w.2)) (auditWindows q)))).
Proof.
  intros Hu. unfold QueryAuditEvents.
  assert ((Q_User q != "") && bool_decide (Q_users q = None) = false) as ->.
  { destruct Hu as [->|Hu]; [done|]. by rewrite bool_decide_eq_false_2, andb_false_r. }
  by rewrite query_windows_take by (cbn; lia).
Qed.

(** The windowed search returns the newest [limit] rows of the plain
    search, over a range that starts less than a microsecond after the one
    asked for. *)
Theorem search_exact table q : table_ok table → plain q →
  (0 ≤ Q_From q)%Z → (0 ≤ Q_BeforeTs q)%Z → (window_upper q - Q_From q ≤ 2 ^ 61)%Z →
  ∃ f, (Q_From q ≤ f < Q_From q + Microsecond)%Z ∧
    ∀ resolved, QueryAuditEvents ilike keep resolved (replicate (length (auditWindows q)) (Some table)) q
    = Some (take (Z.to_nat (page_limit q)) (full table (with_range q f (Q_To q)))).
Proof.
  intros Hok Hu Hfrom Hb Hspan. destruct (windows_full table q) as (f & Hf & Hc); [done..|].
  exists f. split; [done|]. intros resolved. by rewrite query_plain, Hc.
Qed.

(** ** Pages *)

(** The rows after [r] are the rows of the page that starts there. *)
Lemma full_after table q l1 r l2 : table_ok table → (0 < ar_ts r)%Z →
  full table q = l1 ++ r :: l2 → full table (with_before q (ar_ts r) (ar_id r)) = l2.
Proof.
  intros Hok Hts E. symmetry.
  assert (r ∈ table) as Hr.
  { assert (r ∈ full table q) as H by (rewrite E; set_solver). by apply full_elem in H as [? _]. }
  pose proof (full_sorted table q) as Hs. pose proof (full_nodup table q (table_nodup _ Hok)) as Hnd.
  rewrite E in Hs, Hnd. apply StronglySorted_app in Hs as (H12 & _ & Hs). apply StronglySorted_cons in Hs as [Hr2 Hs].
  apply NoDup_app in Hnd as (_ & H1 & Hnd). apply NoDup_cons in Hnd as [Hr2' Hnd].
  assert (∀ x, x ∈ table → newer r x → newer x r → x = r) as Heq.
  { intros x Hx Ha Hb. apply (table_key _ Hok); [done..|]. unfold newer in *. lia. }
  assert (∀ x, x ∈ table → before_page (with_before q (ar_ts r) (ar_id r)) x = true ↔ newer r x ∧ x ≠ r) as Hbp.
  { intros x Hx. unfold before_page, IsZero. cbn [Q_BeforeTs Q_BeforeID with_before].
    destruct (Z.eqb_spec (ar_ts r) 0); [lia|]. rewrite (table_time _ Hok _ Hr). cbn [orb].
    rewrite orb_true_iff, andb_true_iff, Z.ltb_lt, Z.eqb_eq, Z.ltb_lt. unfold newer. split.
    - intros H. split; [lia|]. intros ->. lia.
    - intros [[?|[? ?]] Hne]; [by left|right]. split; [done|].
      destruct (Z.eq_dec (ar_id r) (ar_id x)); [|lia]. destruct Hne. by apply (table_key _ Hok). }
  apply full_unique; [done..|]. intros x. rewrite full_elem.
  change (auditWhereWith ilike keep (with_before q (ar_ts r) (ar_id r)) x) with (auditWhereWith ilike keep q x). split.
  - intros Hx. assert (x ∈ full table q) as Hxf by (rewrite E; set_solver).
    apply full_elem in Hxf as (Hxt & Hw & _). split_and!; [done..|]. apply Hbp; [done|].
    rewrite Forall_forall in Hr2. split; [by apply Hr2|]. by intros ->.
  - intros (Hxt & Hw & Hp). apply Hbp in Hp as [Hn Hne]; [|done].
    assert (x ∈ full table q) as Hxf.
    { apply full_elem. split_and!; [done..|].
      assert (r ∈ full table q) as Hrf by (rewrite E; set_solver). apply full_elem in Hrf as (_ & _ & Hrp).
      revert Hrp. unfold before_page. destruct (IsZero (Q_BeforeTs q)); [done|]. cbn [orb].
      rewrite !orb_true_iff, !andb_true_iff, !Z.ltb_lt, !Z.eqb_eq. unfold newer in Hn. lia. }
    rewrite E in Hxf. apply elem_of_app in Hxf as [Hx1|Hx]; [|set_solver].
    destruct Hne. apply Heq; [done..|]. apply H12; set_solver.
Qed.

(** The rows from a time on: the first of a sorted list. *)
Definition newest (b : Time) (l : list AuditRow) : list AuditRow := List.filter (λ r, (b <=? ar_ts r)%Z) l.

Lemma newest_elem b l r : r ∈ newest b l ↔ r ∈ l ∧ (b ≤ ar_ts r)%Z.
Proof. unfold newest. by rewrite list_elem_of_In, filter_In, <-list_elem_of_In, Z.leb_le. Qed.

Lemma newest_split b l : StronglySorted newer l → ∃ old, l = newest b l ++ old ∧ Forall (λ r, (ar_ts r < b)%Z) old.
Proof.
  induction 1 as [|r l Hs (old & E & Hold) Hr]; [by exists []|]. cbn [newest List.filter].
  destruct (Z.leb_spec b (ar_ts r)).
  - exists old. cbn. split; [|done]. f_equal. exact E.
  - exists (r :: l). assert (Forall (λ x, (ar_ts x < b)%Z) (r :: l)) as Hall.
    { constructor; [done|]. eapply Forall_impl; [done|]. intros x Hx. unfold newer in Hx. lia. }
    split; [|done]. assert (List.filter (λ r, (b <=? ar_ts r)%Z) l = []) as ->; [|done].
    apply elem_of_nil_inv. intros x Hx. apply (newest_elem b l x) in Hx as [Hx ?].
    apply Forall_cons in Hall as [_ Hall]. rewrite Forall_forall in Hall. specialize (Hall x Hx). cbn in Hall. lia.
Qed.

Lemma full_newest table q q' b : table_ok table →
  (∀ r, r ∈ table → auditWhereWith ilike keep q' r && before_page q' r
     = auditWhereWith ilike keep q r && before_page q r && (b <=? ar_ts r)%Z) →
  full table q' = newest b (full table q).
Proof.
  intros Hok H. symmetry. destruct (newest_split b (full table q) (full_sorted table q)) as (old & E & _).
  pose proof (full_sorted table q) as Hs. pose proof (full_nodup table q (table_nodup _ Hok)) as Hnd.
  rewrite E in Hs, Hnd. apply StronglySorted_app in Hs as (_ & Hs & _). apply NoDup_app in Hnd as (Hnd & _ & _).
  apply full_unique; [done..|]. intros r. rewrite newest_elem, !full_elem. split.
  - intros [(Hr & Hw & Hp) Hb]. split; [done|]. apply andb_true_iff. rewrite H, Hw, Hp by done. by apply Z.leb_le.
  - intros (Hr & Hw & Hp). specialize (H r Hr). rewrite Hw, Hp in H. cbn in H. symmetry in H. bool_hyps. tauto.
Qed.

(** A later start of the range. *)
Lemma full_from table q f : table_ok table → (0 < Q_From q ≤ f)%Z →
  full table (with_range q f (Q_To q)) = newest (pg f) (full table q).
Proof.
  intros Hok Hf. apply full_newest; [done|]. intros r _. rewrite where_range. unfold auditWhereWith, in_range, IsZero.
  cbn [Q_From Q_To with_range]. destruct (Z.eqb_spec f 0); [lia|]. destruct (Z.eqb_spec (Q_From q) 0); [lia|].
  change (before_page (with_range q f (Q_To q)) r) with (before_page q r). pose proof (pg_mono (Q_From q) f ltac:(lia)). cbn [orb].
  destruct (Z.leb_spec (pg f) (ar_ts r)), (Z.leb_spec (pg (Q_From q)) (ar_ts r)); try lia;
    cbn [andb]; rewrite ?andb_true_r, ?andb_false_r, ?andb_assoc; done.
Qed.

(** The request for the page after the position [ts], [id]. *)
Definition with_page (get : string → string) (ts id : Z) : string → string := λ key,
  (if key == "beforeTs" then FormatInt ts else if key == "beforeId" then FormatInt id else get key)%go.

(** The rows a client gets that follows the pages of a search, and the time of
    the last request. Each page is a request of its own, at one of the times:
    the hub reads its clock, and with it the range, anew. *)
Fixpoint follow (table : list AuditRow) (has : string → bool) (retention : Duration) (get : string → string)
    (nows : list Time) : option (list AuditRow * Time) :=
  match nows with
  | [] => None
  | now :: nows =>
      let q := auditQueryFromRequest get has retention now in
      page ← auditQueryHandler ilike keep (Ok None) (replicate (length (auditWindows q)) (Some table)) q;
      match page with
      | (rows, None) => Some (rows, now)
      | (rows, Some (ts, id)) =>
          rest ← follow table has retention (with_page get ts id) nows; Some (rows ++ rest.1, rest.2)
      end
  end.

Lemma follow_cons table has retention get now nows :
  follow table has retention get (now :: nows)
  = let q := auditQueryFromRequest get has retention now in
    auditQueryHandler ilike keep (Ok None) (replicate (length (auditWindows q)) (Some table)) q ≫= λ page,
    match page with
    | (rows, None) => Some (rows, now)
    | (rows, Some (ts, id)) => follow table has retention (with_page get ts id) nows ≫= λ rest, Some (rows ++ rest.1, rest.2)
    end.
Proof. done. Qed.

Section requests.
Context (table : list AuditRow) (has : string → bool) (retention : Duration).
Context (Hok : table_ok table) (Hret : (0 ≤ retention ≤ 2 ^ 61)%Z).
Context (Hrows : ∀ r, r ∈ table → (unixEpoch < ar_ts r < horizon)%Z ∧ (minInt64 ≤ ar_id r ≤ maxInt64)%Z).
Local Notation request get now := (auditQueryFromRequest get has retention now).

Definition hours_asked (get : string → string) : Z :=
  let hours := (ParseInt64 (get "hours")).1 in
  Z.min (Z.quot retention Hour) (if (hours <=? 0)%Z then 24 else hours).

Lemma request_range get now :
  Q_From (request get now) = (now - hours_asked get * Hour)%Z ∧ Q_To (request get now) = now
  ∧ (0 ≤ hours_asked get * Hour ≤ 2 ^ 61)%Z.
Proof.
  unfold auditQueryFromRequest. destruct (before_of _ _) as [bt bi]. cbn [Q_From Q_To].
  assert (0 ≤ Z.quot retention Hour ∧ Z.quot retention Hour * Hour ≤ retention)%Z as [Hq Hq'].
  { rewrite Z.quot_div_nonneg by (first [done|lia]).
    pose proof (Z.div_pos retention Hour ltac:(lia) ltac:(done)). pose proof (Z.mul_div_le retention Hour ltac:(done)). lia. }
  assert (hours_asked get = let hours := (ParseInt64 (get "hours")).1 in
    let hours := if (hours <=? 0)%Z then 24%Z else hours in
    if (Z.quot retention Hour <? hours)%Z then Z.quot retention Hour else hours) as Eh.
  { unfold hours_asked. cbv zeta. destruct (Z.leb_spec (ParseInt64 (get "hours")).1 0);
      match goal with |- context [if (?a <? ?b)%Z then _ else _] => destruct (Z.ltb_spec a b) end; lia. }
  cbv zeta in Eh. rewrite <-Eh. split_and!; [unfold TAdd; lia|done|..].
  - unfold hours_asked. destruct (Z.leb_spec (ParseInt64 (get "hours")).1 0); unfold Hour, Minute, Second in *; lia.
  - assert (hours_asked get ≤ Z.quot retention Hour)%Z by (unfold hours_asked; lia). unfold Hour, Minute, Second in *. nia.
Qed.

Lemma request_before get now : (0 ≤ Q_BeforeTs (request get now))%Z.
Proof.
  unfold auditQueryFromRequest, before_of. destruct (ParseInt64 (get "beforeTs")) as [us ok]. cbn [fst].
  destruct (ok && (0 <? us)%Z) eqn:E; cbn [Q_BeforeTs]; [|done]. bool_hyps. unfold timeUnixMicro, Microsecond, unixEpoch, Second. lia.
Qed.

Lemma next_request get now now' ts id bt bi : before_of (FormatInt ts) (FormatInt id) = (bt, bi) →
  request (with_page get ts id) now' = with_before (with_range (request get now) (Q_From (request get now')) now') bt bi.
Proof.
  intros E. unfold auditQueryFromRequest.
  change (with_page get ts id "beforeTs") with (FormatInt ts). change (with_page get ts id "beforeId") with (FormatInt id).
  rewrite E. by destruct (before_of (get "beforeTs") (get "beforeId")).
Qed.

(** A page: the newest rows of the search from a time less than a microsecond
    after the start of the range. *)
Lemma page_rows get now : (unixEpoch ≤ now)%Z → TrimSpace (get "user") = "" →
  ∃ f, (Q_From (request get now) ≤ f < Q_From (request get now) + Microsecond)%Z ∧
    QueryAuditEvents ilike keep (Ok None) (replicate (length (auditWindows (request get now))) (Some table)) (request get now)
    = Some (take (Z.to_nat (page_limit (request get now))) (newest (pg f) (full table (request get now)))).
Proof.
  intros Hnow Hu. destruct (request_range get now) as (Ef & Et & Hh). pose proof (request_before get now) as Hb.
  set (q := request get now) in *. assert (2 ^ 61 < unixEpoch)%Z as He by done.
  destruct (search_exact table q Hok) as (f & Hf & Hq); [| |done| |].
  - left. unfold q, auditQueryFromRequest. by destruct (before_of _ _).
  - lia.
  - unfold window_upper. rewrite Et. unfold Before, IsZero.
    destruct (negb (Q_BeforeTs q =? 0)%Z && _) eqn:E; [bool_hyps; destruct H0; bool_hyps; lia|lia].
  - exists f. split; [done|]. rewrite Hq, full_from by (first [done|lia]). done.
Qed.

(** The search of the next request, made no earlier: what follows the last
    row, without what the range has left behind. *)
Lemma next_rows get now now' r l1 l2 : (unixEpoch ≤ now ≤ now')%Z →
  full table (request get now) = l1 ++ r :: l2 →
  full table (request (with_page get (UnixMicro (ar_ts r)) (ar_id r)) now')
  = newest (pg (Q_From (request get now'))) l2.
Proof.
  intros Hnow E. destruct (request_range get now) as (Ef & Et & Hh), (request_range get now') as (Ef' & Et' & _).
  assert (r ∈ full table (request get now)) as Hrf by (rewrite E; set_solver).
  apply full_elem in Hrf as (Hr & Hwr & _). destruct (Hrows r Hr) as [Hts Hid].
  pose proof (table_time _ Hok _ Hr) as Hgr. assert (2 ^ 61 < unixEpoch)%Z as He by done.
  assert (before_of (FormatInt (UnixMicro (ar_ts r))) (FormatInt (ar_id r)) = (ar_ts r, ar_id r)) as Hbo.
  { assert (0 < UnixMicro (ar_ts r) ≤ maxInt64 ∧ timeUnixMicro (UnixMicro (ar_ts r)) = ar_ts r)%Z as [Hus Eus].
    { rewrite pg_value in Hgr. set (k := (ar_ts r / Microsecond)%Z) in *.
      assert (unixEpoch = 62135596800000000 * Microsecond)%Z as Ee by done.
      assert (UnixMicro (ar_ts r) = k - 62135596800000000)%Z as ->.
      { unfold UnixMicro. symmetry. apply Z.div_unique_exact; [done|]. lia. }
      unfold timeUnixMicro, maxInt64, horizon, Microsecond in *. lia. }
    unfold before_of. rewrite !ParseInt64_FormatInt by (first [done|unfold minInt64 in *; lia]). cbn [fst].
    destruct (Z.ltb_spec 0 (UnixMicro (ar_ts r))); [|lia]. cbn [andb]. by rewrite Eus. }
  set (q := request get now) in *.
  rewrite <-(full_after table q l1 r l2 Hok ltac:(lia) E). apply full_newest; [done|].
  intros x Hx.
  assert (∀ lo hi, auditWhereWith ilike keep (with_range q lo hi) x
    = in_range (with_range q lo hi) (ar_ts x) && (column_filters ilike q x
      && userResultFilters ilike q (auditDanger x) (ar_user x) (ar_allowed x) && keep x)) as Hw by (intros; apply where_range).
  change (auditWhereWith ilike keep (with_before q (ar_ts r) (ar_id r)) x) with (auditWhereWith ilike keep (with_range q (Q_From q) (Q_To q)) x).
  rewrite (next_request get now now' _ _ _ _ Hbo). fold q.
  change (before_page (with_before (with_range q (Q_From (request get now')) now') (ar_ts r) (ar_id r)) x)
    with (before_page (with_before q (ar_ts r) (ar_id r)) x).
  change (auditWhereWith ilike keep (with_before (with_range q (Q_From (request get now')) now') (ar_ts r) (ar_id r)) x)
    with (auditWhereWith ilike keep (with_range q (Q_From (request get now')) now') x).
  rewrite !Hw, Ef, Et, Ef'. unfold in_range, IsZero. cbn [Q_From Q_To with_range].
  destruct (before_page (with_before q (ar_ts r) (ar_id r)) x) eqn:Hp; [|by rewrite !andb_false_r].
  assert (ar_ts x ≤ ar_ts r)%Z as Hxr.
  { unfold before_page, IsZero in Hp. cbn [Q_BeforeTs Q_BeforeID with_before] in Hp. rewrite Hgr in Hp.
    destruct (Z.eqb_spec (ar_ts r) 0); [lia|]. cbn [orb] in Hp. apply orb_true_iff in Hp as [Hp|Hp]; bool_hyps; lia. }
  assert (ar_ts r ≤ pg now)%Z as Hrn.
  { unfold auditWhereWith, in_range, IsZero in Hwr. rewrite Et in Hwr. destruct (Z.eqb_spec now 0); [lia|]. cbn [orb] in Hwr. bool_hyps. lia. }
  pose proof (pg_mono now now' ltac:(lia)).
  pose proof (pg_mono (now - hours_asked get * Hour) (now' - hours_asked get * Hour) ltac:(lia)).
  repeat match goal with |- context [(?a =? 0)%Z] => destruct (Z.eqb_spec a 0); [lia|] end. cbn [orb].
  repeat match goal with |- context [(?a <=? ?b)%Z] => destruct (Z.leb_spec a b); try lia end;
    cbn [andb]; rewrite ?andb_true_r, ?andb_false_r; done.
Qed.

(** C31: following the pages of a search without a user from the first to the
    last, each a request of its own for which the hub reads its clock and
    range anew: the rows are those of the plain search made at the first
    request, each once and in order, without some of those older than the
    start of the range of the last request plus a microsecond; with times of
    rows between 1970 and 2116, a retention of at most 73 years and a table
    that does not change meanwhile. *)
Theorem pages_complete get nows now : TrimSpace (get "user") = "" →
  StronglySorted Z.le (now :: nows) → (unixEpoch ≤ now)%Z →
  (length (full table (request get now)) ≤ length nows)%nat →
  ∃ rows last old, follow table has retention get (now :: nows) = Some (rows, last) ∧ last ∈ now :: nows
  ∧ full table (request get now) = rows ++ old
  ∧ Forall (λ r, (ar_ts r < Q_From (request get last) + Microsecond)%Z) old.
Proof.
  intros Hu. revert get Hu now. induction nows as [|now' nows IH]; intros get Hu now Hs Hnow Hlen; rewrite follow_cons; unfold auditQueryHandler;
    destruct (page_rows get now Hnow Hu) as (f & Hf & ->); cbn [mbind option_bind];
    set (q := request get now) in *; set (l := full table q) in *;
    destruct (newest_split (pg f) l (full_sorted table q)) as (old & El & Hold); set (p := newest (pg f) l) in *;
    assert (Forall (λ r, (ar_ts r < Q_From q + Microsecond)%Z) old) as Hold'
      by (eapply Forall_impl; [exact Hold|]; cbn; intros r Hr; pose proof (pg_le f); lia);
    assert (1 ≤ page_limit q)%Z as Hl by (unfold page_limit; destruct (_ || _) eqn:E; bool_hyps; lia); unfold next_page;
    destruct (Z.eqb_spec (Z.of_nat (length (take (Z.to_nat (page_limit q)) p))) (page_limit q)) as [Heq|Hne].
  1: { apply (f_equal length) in El. rewrite length_app in El. rewrite length_take in Heq. cbn in Hlen. lia. }
  1, 3: cbn [mbind option_bind]; rewrite length_take in Hne; rewrite take_ge by lia; exists p, now, old; split_and!; [done|by left|done..].
  set (n := Z.to_nat (page_limit q)) in *.
  destruct (exists_last (l := take n p)) as (rows0 & r & Et). { intros E. rewrite E in Heq. cbn in Heq. lia. }
  rewrite Et, last_snoc. cbn [fmap option_fmap option_map].
  assert (l = rows0 ++ r :: drop n p ++ old) as El'.
  { rewrite El at 1. rewrite <-(take_drop n p) at 1. by rewrite Et, <-!app_assoc. }
  apply StronglySorted_cons in Hs as [Hle Hs]. apply Forall_cons in Hle as [Hle _].
  set (get' := with_page get (UnixMicro (ar_ts r)) (ar_id r)).
  pose proof (next_rows get now now' r rows0 (drop n p ++ old) ltac:(lia) El') as Hnext. fold get' in Hnext.
  destruct (newest_split (pg (Q_From (request get now'))) (drop n p ++ old)) as (old2 & E2 & Hold2).
  { pose proof (full_sorted table q) as Hsl. fold l in Hsl. rewrite El' in Hsl.
    apply StronglySorted_app in Hsl as (_ & _ & Hsl). by apply StronglySorted_cons in Hsl as [_ ?]. }
  rewrite <-Hnext in E2.
  destruct (IH get' Hu now' Hs ltac:(lia)) as (rows & last & old3 & -> & Hlast & E3 & Hold3).
  { apply (f_equal length) in E2, El'. rewrite !length_app in E2. rewrite length_app in El'. cbn in El'. rewrite !length_app in El'. cbn in Hlen. lia. }
  cbn [mbind option_bind fst snd].
  assert (∀ t, Q_From (request get' t) = Q_From (request get t)) as Hq.
  { intros t. destruct (request_range get' t) as (-> & _), (request_range get t) as (-> & _). done. }
  exists ((rows0 ++ [r]) ++ rows), last, (old3 ++ old2). split_and!; [done|by right| |].
  - rewrite El', E2, E3, <-!app_assoc. done.
  - apply Forall_app. split; [by setoid_rewrite <-Hq|]. eapply Forall_impl; [exact Hold2|]. cbn. intros x Hx.
    assert (now' ≤ last)%Z as Hn'.
    { apply StronglySorted_cons in Hs as [Hall _]. apply elem_of_cons in Hlast as [->|Hin]; [lia|].
      rewrite Forall_forall in Hall. by apply Hall. }
    destruct (request_range get now') as (E' & _), (request_range get last) as (E'' & _).
    pose proof (pg_le (Q_From (request get now'))). unfold Microsecond. lia.
Qed.
End requests.
End search.
