(* ===== verification/AuditSilence.v ===== *)
(** * kvisior/internal/store: silences of audit events

    A silence hides the audit events that match it: they are stored with a mark
    and once more in a table of their own, and come back when the silence is
    deleted. The file holds the patterns of a silence and the statements on the
    tables of one cluster. *)

From Stdlib Require Import Ascii.
From stdpp Require Import base list gmap strings sorting.
From S2P Require Import Prelude GoStrings GlobSpec GoNet AuditRules AuditEngine AuditQuery.
Local Open Scope string_scope.
Local Open Scope list_scope.
Local Open Scope go_scope.

Definition Day : Duration := (24 * Hour)%Z.
Definition AuditSilenceMaxDuration : Duration := (90 * Day)%Z.
Definition auditSilenceFieldMax : Z := 512.
Definition auditSilenceReasonMax : Z := 500.
Definition auditSilenceListMax : nat := 500.
Definition silencedEventsPageMax : Z := 500.
Definition silenceTableRecheck : Duration := (30 * Second)%Z.

(** ** Is a table there *)

Record tableState := { ts_ready : bool; ts_checkedAt : Time }.
Definition new_table : tableState := {| ts_ready := false; ts_checkedAt := 0%Z |}.

(** [tableReady]; [present] is the answer of the database, if it gives one. *)
Definition tableReady (t : tableState) (now : Time) (present : option bool) : tableState * result bool :=
  if ts_ready t then (t, Ok true)
  else if negb (ts_checkedAt t =? 0)%Z && (now - ts_checkedAt t <? silenceTableRecheck)%Z then (t, Ok false)
  else match present with
       | None => (t, Err "to_regclass")
       | Some b => ({| ts_ready := b; ts_checkedAt := now |}, Ok b)
       end.

(** ** Addresses as text *)

Definition hex_char (d : Z) : ascii := if (d <? 10)%Z then ascii_of (48 + d) else ascii_of (87 + d).

(** A group of an IPv6 address, without leading zeros. *)
Definition hex_group (g : Z) : string :=
  let ds := [(g / 4096) mod 16; (g / 256) mod 16; (g / 16) mod 16]%Z in
  (fix go ds := match ds with
                | [] => ""
                | d :: ds' => if (d =? 0)%Z then go ds' else String (hex_char d) (foldr (λ d s, String (hex_char d) s) "" ds')
                end) ds +:+ String (hex_char (g mod 16)) "".

Fixpoint groups16 (b : list Z) : list Z :=
  match b with
  | h :: l :: b' => (h * 256 + l)%Z :: groups16 b'
  | _ => []
  end.

Fixpoint zero_run (gs : list Z) : nat :=
  match gs with
  | 0%Z :: gs' => S (zero_run gs')
  | _ => O
  end.

(** The first of the longest runs of at least two zero groups. *)
Fixpoint longest_run (i : nat) (gs : list Z) (best : nat * nat) : nat * nat :=
  match gs with
  | [] => best
  | _ :: gs' => let n := zero_run gs in
                longest_run (S i) gs' (if (2 <=? n)%nat && (best.2 <? n)%nat then (i, n) else best)
  end.

Definition string6 (b : list Z) : string :=
  let gs := groups16 b in
  let '(at_, n) := longest_run 0 gs (0, 0)%nat in
  if (n =? 0)%nat then Join (map hex_group gs) ":"
  else Join (map hex_group (take at_ gs)) ":" +:+ "::" +:+ Join (map hex_group (drop (at_ + n) gs)) ":".

Definition string4 (b : list Z) : string := Join (map FormatInt b) ".".

(** [IP.String] of an address of four or sixteen bytes. *)
Definition IP_String (ip : IP) : string :=
  match To4 ip with Some b => string4 b | None => string6 ip end.

(** [IPMask.String]. *)
Definition mask_String (m : IPMask) : string :=
  foldr (λ b s, String (hex_char (b / 16)) (String (hex_char (b mod 16)) s)) "" m.

(** [IPNet.String]. *)
Definition IPNet_String (n : IPNet) : string :=
  match networkNumberAndMask n with
  | None => "<nil>"
  | Some (nn, m) => match simpleMaskLength m with
                    | Some ones => IP_String nn +:+ "/" +:+ FormatInt ones
                    | None => IP_String nn +:+ "/" +:+ mask_String m
                    end
  end.

(** ** Silences *)

Record AuditSilence := {
  Sl_ID : Z; Sl_Action : string; Sl_Object : string; Sl_User : string; Sl_SourceIP : string; Sl_Reason : string;
  Sl_CreatedBy : string; Sl_CreatedAt : Time; Sl_ExpiresAt : option Time }.

Record auditSilenceTarget := { tg_action : string; tg_object : string; tg_user : string; tg_ip : string }.

Definition NUL : string := String "000" "".
Definition text_ok (max : Z) (s : string) : bool :=
  (Z.of_nat (String.length s) <=? max)%Z && ValidString s && negb (Contains s NUL).

Section silences.
Context {T : CaseTables}.

Definition set_patterns (s : AuditSilence) (action object user ip reason : string) : AuditSilence :=
  {| Sl_ID := Sl_ID s; Sl_Action := action; Sl_Object := object; Sl_User := user; Sl_SourceIP := ip; Sl_Reason := reason;
     Sl_CreatedBy := Sl_CreatedBy s; Sl_CreatedAt := Sl_CreatedAt s; Sl_ExpiresAt := Sl_ExpiresAt s |}.

(** The address or network of a silence in its usual form. *)
Definition normal_ip (ip : string) : option string :=
  if ip == "" then Some ""
  else if Contains ip "/" then IPNet_String <$> ParseCIDR ip
  else IP_String <$> ParseIP ip.

(** The fields whose text is refused, in the order of the map. *)
Definition bad_fields {M : MapOrder} (s : AuditSilence) : list string :=
  map fst (List.filter (λ f, negb (text_ok auditSilenceFieldMax f.2))
    (map_order [("action", Sl_Action s); ("object", Sl_Object s); ("user", Sl_User s); ("source IP", Sl_SourceIP s)])).

Definition Normalize {M : MapOrder} (s : AuditSilence) : result AuditSilence :=
  let s := set_patterns s (ToLower (TrimSpace (Sl_Action s))) (TrimSpace (Sl_Object s)) (TrimSpace (Sl_User s))
             (TrimSpace (Sl_SourceIP s)) (TrimSpace (Sl_Reason s)) in
  if (Sl_Action s == "") && (Sl_Object s == "") && (Sl_User s == "") && (Sl_SourceIP s == "")
  then Err "set at least one of action, object, user or source IP"
  else match bad_fields s with
  | name :: _ => Err (name +:+ " is too long or not valid text")
  | [] =>
      if negb (text_ok auditSilenceReasonMax (Sl_Reason s)) then Err "reason is longer than 500 characters or not valid text"
      else if Contains (Sl_Action s) " " || Contains (Sl_Action s) "*" || Contains (Sl_Action s) "/"
      then Err "action is a single verb such as create, delete or exec"
      else match normal_ip (Sl_SourceIP s) with
           | None => Err "source IP is not an address or CIDR"
           | Some ip => Ok (set_patterns s (Sl_Action s) (Sl_Object s) (Sl_User s) ip (Sl_Reason s))
           end
  end.

Definition ipMatches (rule value : string) : bool :=
  match ParseIP value with
  | None => false
  | Some ip =>
      if Contains rule "/" then match ParseCIDR rule with Some network => NetContains network ip | None => false end
      else match ParseIP rule with Some want => zlist_eqb want ip | None => false end
  end.

Definition globMatch (pattern value : string) : bool :=
  if negb (Contains pattern "*") then pattern == value
  else
    let parts := Split pattern "*" in
    let first := List.hd "" parts in
    if negb (HasPrefix value first) then false
    else
      let last := List.last parts "" in
      match glob_middle (removelast (List.tl parts)) (sdrop (String.length first) value) with
      | None => false
      | Some value => (String.length last <=? String.length value)%nat && HasSuffix value last
      end.

Definition matches (s : AuditSilence) (t : auditSilenceTarget) : bool :=
  if (Sl_Action s != "") && (Sl_Action s != tg_action t) then false
  else if (Sl_Object s != "") && negb (globMatch (Sl_Object s) (tg_object t)) then false
  else if (Sl_User s != "") && negb (globMatch (Sl_User s) (tg_user t)) then false
  else if (Sl_SourceIP s != "") && negb (ipMatches (Sl_SourceIP s) (tg_ip t)) then false
  else true.

Definition auditObjectText (resource namespace name : string) : string :=
  Join ([resource] ++ (if namespace != "" then [namespace] else []) ++ (if name != "" then [name] else [])) "/".

Definition eventTarget (ev : Event) : auditSilenceTarget :=
  {| tg_action := ToLower (E_Kind ev); tg_object := auditObjectText (E_Resource ev) (E_Namespace ev) (E_Name ev);
     tg_user := E_User ev; tg_ip := SourceIP ev |}.

Definition firstSilence (silences : list AuditSilence) (ev : Event) : Z :=
  match List.find (λ s, matches s (eventTarget ev)) silences with Some s => Sl_ID s | None => 0%Z end.

End silences.

(** ** Sanity of the text formats *)

Example string_v4 : IP_String <$> ParseIP "::ffff:10.0.0.1" = Some "10.0.0.1".
Proof. reflexivity. Qed.
Example string_v6 : IP_String <$> ParseIP "2001:0DB8:0:0:1:0:0:01" = Some "2001:db8::1:0:0:1".
Proof. reflexivity. Qed.
Example string_v6_zero : IP_String <$> ParseIP "::" = Some "::".
Proof. reflexivity. Qed.
Example string_net : IPNet_String <$> ParseCIDR "10.1.2.3/8" = Some "10.0.0.0/8".
Proof. reflexivity. Qed.
Example string_net6 : IPNet_String <$> ParseCIDR "fe80::1/10" = Some "fe80::/10".
Proof. reflexivity. Qed.
