(* ===== verification/AuditStore.v ===== *)
(** * kvisior/internal/store: the statements on audit events

    The tables of one cluster that hold audit events, silences and silenced
    events, with the operations that write them. Each operation also returns the
    times it hands to [invalidateRollupHours]. *)

From Stdlib Require Import Ascii.
From stdpp Require Import base list gmap strings sorting.
From S2P Require Import Prelude GoStrings AuditRules AuditEngine AuditQuery AuditSilence.
Local Open Scope string_scope.
Local Open Scope list_scope.
Local Open Scope go_scope.

(** A row of audit_silenced_events; its columns are those of the event. *)
Record SilencedEvent := {
  se_id : Z; se_silence : Z; se_uid : string; se_ts : Time; se_event : Event; se_origin : Origin;
  se_rule : option string; se_sev : option string; se_at : Time }.

Record Tables := {
  t_rows : list AuditRow;
  t_silences : list AuditSilence;
  t_hidden : list SilencedEvent;
  t_next : Z;
}.

Definition set_rows (tb : Tables) (rs : list AuditRow) : Tables :=
  {| t_rows := rs; t_silences := t_silences tb; t_hidden := t_hidden tb; t_next := t_next tb |}.
Definition set_silences (tb : Tables) (ss : list AuditSilence) : Tables :=
  {| t_rows := t_rows tb; t_silences := ss; t_hidden := t_hidden tb; t_next := t_next tb |}.
Definition set_hidden (tb : Tables) (se : list SilencedEvent) : Tables :=
  {| t_rows := t_rows tb; t_silences := t_silences tb; t_hidden := se; t_next := t_next tb |}.
(** The next value of a sequence; one stands for the three of the schema. *)
Definition bump (tb : Tables) : Tables :=
  {| t_rows := t_rows tb; t_silences := t_silences tb; t_hidden := t_hidden tb; t_next := (t_next tb + 1)%Z |}.

(** What an operation finds: which tables [tableReady] reports, the clocks of
    the service and of the database, and the retention. *)
Record Env := { e_silences : bool; e_rollups : bool; e_now : Time; e_db : Time; e_retention : Duration }.

Record AuditEventInsert := { it_Event : Event; it_Origin : Origin; it_RuleID : string; it_Sev : string }.

Section store.
Context {T : CaseTables} {D : DbTime}.

(** ** Silenced events *)

Definition is_active (now : Time) (s : AuditSilence) : bool :=
  match Sl_ExpiresAt s with None => true | Some t => (now <? t)%Z end.

(** [activeAuditSilences]; the sequence orders the silences. *)
Definition activeAuditSilences (e : Env) (tb : Tables) : list AuditSilence :=
  if e_silences e then List.filter (is_active (e_db e)) (t_silences tb) else [].

Definition storeSilencedEvent (e : Env) (silence : Z) (uid : string) (ts : Time) (ev : Event) (origin : Origin)
    (ruleID sev : option string) (tb : Tables) : Tables :=
  if any (λ s, se_uid s == uid) (t_hidden tb) then tb
  else bump (set_hidden tb (snoc (t_hidden tb)
         {| se_id := t_next tb; se_silence := silence; se_uid := uid; se_ts := pg ts; se_event := ev; se_origin := origin;
            se_rule := ruleID; se_sev := sev; se_at := pg (e_db e) |})).

(** [UPDATE ... WHERE]: the rows with the change. *)
Definition update (p : AuditRow → bool) (f : AuditRow → AuditRow) (tb : Tables) : Tables :=
  set_rows tb (map (λ r, if p r then f r else r) (t_rows tb)).

Definition flag (b : bool) (r : AuditRow) : AuditRow :=
  {| ar_id := ar_id r; ar_ts := ar_ts r; ar_user := ar_user r; ar_kind := ar_kind r; ar_ns := ar_ns r;
     ar_resource := ar_resource r; ar_name := ar_name r; ar_uid := ar_uid r; ar_ip := ar_ip r; ar_allowed := ar_allowed r;
     ar_origin := ar_origin r; ar_rule := ar_rule r; ar_sev := ar_sev r; ar_data := ar_data r; ar_silenced := b |}.

(** The row an operation holds, by its key. *)
Definition is_row (row r : AuditRow) : bool := (ar_id r =? ar_id row)%Z && (ar_ts r =? ar_ts row)%Z.

(** [silenceStoredEvent]: the tables, the times to invalidate, and whether the
    row is silenced. *)
Definition silenceStoredEvent (e : Env) (row : AuditRow) (uid : string) (tb : Tables) : Tables * list Time * bool :=
  if negb (e_silences e) then (tb, [], false)
  else
    let ev := ar_data row in
    if any (λ s, se_uid s == uid) (t_hidden tb) then
      (set_hidden tb (map (λ s, if se_uid s == uid
         then {| se_id := se_id s; se_silence := se_silence s; se_uid := se_uid s; se_ts := se_ts s; se_event := ev;
                 se_origin := ar_origin row; se_rule := ar_rule row; se_sev := ar_sev row; se_at := se_at s |}
         else s) (t_hidden tb)), [], true)
    else
      let id := firstSilence (activeAuditSilences e tb) ev in
      if (id =? 0)%Z then (tb, [], false)
      else
        let tb := storeSilencedEvent e id uid (ar_ts row) ev (ar_origin row) (ar_rule row) (ar_sev row) tb in
        if e_rollups e then (update (is_row row) (flag true) tb, [ar_ts row], true) else (tb, [], true).

(** ** Events *)

(** The row of an event, with the silence that hides it or 0. *)
Definition insert_row (e : Env) (silence id : Z) (ts : Time) (it : AuditEventInsert) : AuditRow :=
  let ev := it_Event it in
  {| ar_id := id; ar_ts := pg ts; ar_user := E_User ev; ar_kind := E_Kind ev; ar_ns := E_Namespace ev;
     ar_resource := E_Resource ev; ar_name := E_Name ev; ar_uid := nullable (E_ID ev); ar_ip := nullable (SourceIP ev);
     ar_allowed := E_Allowed ev; ar_origin := it_Origin it; ar_rule := nullable (it_RuleID it); ar_sev := nullable (it_Sev it);
     ar_data := ev; ar_silenced := e_rollups e && negb (silence =? 0)%Z |}.

(** What is kept of the items: the time each is stored under and its silence. *)
Definition stored_items (e : Env) (tb : Tables) (items : list AuditEventInsert) : list (AuditEventInsert * Time * Z) :=
  let silences := activeAuditSilences e tb in
  omap (λ it,
    let ev := it_Event it in
    let ts := if IsZero (E_Timestamp ev) then e_now e else E_Timestamp ev in
    ts ← partitionedTS (e_retention e) ts (e_now e);
    Some (it, ts, if E_ID ev != "" then firstSilence silences ev else 0%Z)) items.

Definition copy_row (e : Env) (tb : Tables) (k : AuditEventInsert * Time * Z) : Tables :=
  bump (set_rows tb (snoc (t_rows tb) (insert_row e k.2 (t_next tb) k.1.2 k.1.1))).

Definition hide_item (e : Env) (tb : Tables) (k : AuditEventInsert * Time * Z) : Tables :=
  let '(it, ts, silence) := k in
  if (silence =? 0)%Z then tb
  else storeSilencedEvent e silence (E_ID (it_Event it)) ts (it_Event it) (it_Origin it)
         (nullable (it_RuleID it)) (nullable (it_Sev it)) tb.

Definition InsertAuditEvents (e : Env) (items : list AuditEventInsert) (tb : Tables) : Tables * list Time :=
  let stored := stored_items e tb items in
  (foldl (hide_item e) (foldl (copy_row e) tb stored) stored, map (λ k, k.1.2) stored).

Definition in_join (uid : string) (slack : Duration) (around : Time) (r : AuditRow) : bool :=
  bool_decide (ar_uid r = Some uid) && ((pg (around - slack)%Z <=? ar_ts r) && (ar_ts r <=? pg (around + slack)%Z))%Z.

Definition around_or_now (e : Env) (around : Time) : Time := if IsZero around then e_now e else around.

(** The columns the API server's log sets. *)
Definition enrich_row (en : AuditEnrichment) (r : AuditRow) : AuditRow :=
  let ip := if N_ClientIP en == "" then ClientIP (N_SourceIPs en) [] else N_ClientIP en in
  {| ar_id := ar_id r; ar_ts := ar_ts r; ar_user := if N_User en != "" then N_User en else ar_user r; ar_kind := ar_kind r;
     ar_ns := ar_ns r; ar_resource := ar_resource r; ar_name := ar_name r; ar_uid := ar_uid r; ar_ip := nullable ip;
     ar_allowed := Some (N_Allowed en); ar_origin := OriginBoth; ar_rule := ar_rule r; ar_sev := ar_sev r;
     ar_data := enriched_event en (ar_data r); ar_silenced := ar_silenced r |}.

(** A row whose data and origin change only. *)
Definition merge_row (f : Event → Event) (r : AuditRow) : AuditRow :=
  {| ar_id := ar_id r; ar_ts := ar_ts r; ar_user := ar_user r; ar_kind := ar_kind r; ar_ns := ar_ns r;
     ar_resource := ar_resource r; ar_name := ar_name r; ar_uid := ar_uid r; ar_ip := ar_ip r; ar_allowed := ar_allowed r;
     ar_origin := OriginBoth; ar_rule := ar_rule r; ar_sev := ar_sev r; ar_data := f (ar_data r); ar_silenced := ar_silenced r |}.

Definition EnrichAuditEvent (e : Env) (en : AuditEnrichment) (tb : Tables) : Tables * list Time * option AuditRow :=
  let p r := in_join (EventUID en) auditJoinSlack (around_or_now e (At en)) r && bool_decide (ar_origin r = OriginAdmission) in
  match List.find p (t_rows tb) with
  | None => (tb, [], None)
  | Some r =>
      let row := enrich_row en r in
      let '(tb, stamps, silenced) := silenceStoredEvent e row (EventUID en) (update p (enrich_row en) tb) in
      (tb, ar_ts row :: stamps, Some (flag silenced row))
  end.

Definition MergeAdmissionDetails (e : Env) (adm : Event) (around : Time) (tb : Tables) : Tables * list Time * option AuditRow :=
  let p r := in_join (E_ID adm) auditJoinSlack (around_or_now e around) r && bool_decide (ar_origin r = OriginAPILog) in
  match List.find p (t_rows tb) with
  | None => (tb, [], None)
  | Some r =>
      let row := merge_row (admitted_event adm) r in
      let '(tb, stamps, silenced) := silenceStoredEvent e row (E_ID adm) (update p (merge_row (admitted_event adm)) tb) in
      (tb, stamps, Some (flag silenced row))
  end.

Definition MergeAuditObjectMeta (uid : string) (around : Time) (seen : Event) (attribution : string) (tb : Tables) : Tables :=
  update (λ r, in_join uid auditTwinSlack around r && bool_decide (ar_origin r = OriginAPILog))
         (merge_row (object_meta seen attribution)) tb.

Definition mark_row (ruleID sev : string) (r : AuditRow) : AuditRow :=
  {| ar_id := ar_id r; ar_ts := ar_ts r; ar_user := ar_user r; ar_kind := ar_kind r; ar_ns := ar_ns r;
     ar_resource := ar_resource r; ar_name := ar_name r; ar_uid := ar_uid r; ar_ip := ar_ip r; ar_allowed := ar_allowed r;
     ar_origin := ar_origin r; ar_rule := Some ruleID; ar_sev := Some sev; ar_data := ar_data r; ar_silenced := ar_silenced r |}.

(** [MarkAuditEventRule]; the mark of [row] says whether it is silenced. *)
Definition MarkAuditEventRule (row : AuditRow) (uid ruleID sev : string) (tb : Tables) : Tables * list Time :=
  let tb := update (is_row row) (mark_row ruleID sev) tb in
  (if ar_silenced row then
     set_hidden tb (map (λ s, if se_uid s == uid
       then {| se_id := se_id s; se_silence := se_silence s; se_uid := se_uid s; se_ts := se_ts s; se_event := se_event s;
               se_origin := se_origin s; se_rule := Some ruleID; se_sev := Some sev; se_at := se_at s |}
       else s) (t_hidden tb))
   else tb, [ar_ts row]).

(** ** Silences *)

(** [CreateAuditSilence]: the silence as stored. Its duration counts whole
    seconds of the database's clock. *)
Definition CreateAuditSilence {M : MapOrder} (e : Env) (s : AuditSilence) (duration : Duration) (tb : Tables)
    : Tables * result AuditSilence :=
  match Normalize s with
  | Err m => (tb, Err m)
  | Ok s =>
      if (duration <? 0)%Z || (AuditSilenceMaxDuration <? duration)%Z then (tb, Err "duration must be between 0 and 90 days")
      else
        let s := {| Sl_ID := t_next tb; Sl_Action := Sl_Action s; Sl_Object := Sl_Object s; Sl_User := Sl_User s;
                    Sl_SourceIP := Sl_SourceIP s; Sl_Reason := Sl_Reason s; Sl_CreatedBy := Sl_CreatedBy s;
                    Sl_CreatedAt := pg (e_db e);
                    Sl_ExpiresAt := if (0 <? duration)%Z then Some (pg (e_db e) + duration / Second * Second)%Z else None |} in
        (bump (set_silences tb (snoc (t_silences tb) s)), Ok s)
  end.

Definition with_end (t : Time) (s : AuditSilence) : AuditSilence :=
  {| Sl_ID := Sl_ID s; Sl_Action := Sl_Action s; Sl_Object := Sl_Object s; Sl_User := Sl_User s;
     Sl_SourceIP := Sl_SourceIP s; Sl_Reason := Sl_Reason s; Sl_CreatedBy := Sl_CreatedBy s; Sl_CreatedAt := Sl_CreatedAt s;
     Sl_ExpiresAt := Some t |}.

Definition EndAuditSilence (e : Env) (id : Z) (tb : Tables) : Tables * bool :=
  (set_silences tb (map (λ s, if (Sl_ID s =? id)%Z && is_active (e_db e) s then with_end (pg (e_db e)) s else s) (t_silences tb)),
   any (λ s, (Sl_ID s =? id)%Z) (t_silences tb)).

(** The row has an entry of the silence, which is what brings it back. *)
Definition hidden_by (silence : Z) (se : list SilencedEvent) (r : AuditRow) : bool :=
  any (λ s, (se_silence s =? silence)%Z && bool_decide (ar_uid r = Some (se_uid s)) && (ar_ts r =? se_ts s)%Z) se
  && ar_silenced r.

Definition unsilenceEvents (silence : Z) (tb : Tables) : Tables * list Time :=
  (update (hidden_by silence (t_hidden tb)) (flag false) tb,
   map ar_ts (List.filter (hidden_by silence (t_hidden tb)) (t_rows tb))).

(** [DELETE FROM audit_silences]; its silenced events go with it. *)
Definition delete_silences (p : AuditSilence → bool) (tb : Tables) : Tables :=
  let gone := map Sl_ID (List.filter p (t_silences tb)) in
  set_hidden (set_silences tb (List.filter (λ s, negb (p s)) (t_silences tb)))
    (List.filter (λ s, negb (any (Z.eqb (se_silence s)) gone)) (t_hidden tb)).

Definition DeleteAuditSilence (e : Env) (id : Z) (tb : Tables) : Tables * list Time * bool :=
  let found := any (λ s, (Sl_ID s =? id)%Z) (t_silences tb) in
  let '(tb, stamps) := if e_rollups e then unsilenceEvents id tb else (tb, []) in
  (delete_silences (λ s, (Sl_ID s =? id)%Z) tb, stamps, found).

(** [sweepAuditSilences]; [retention] is known. *)
Definition sweepAuditSilences (e : Env) (tb : Tables) : Tables :=
  if negb (e_silences e) then tb
  else
    let cutoff := (pg (e_db e) - e_retention e / Second * Second)%Z in
    let tb := set_hidden tb (List.filter (λ s, (cutoff <=? se_ts s)%Z) (t_hidden tb)) in
    delete_silences (λ s, match Sl_ExpiresAt s with Some t => (t <? cutoff)%Z | None => false end) tb.

(** ** Lists *)

(** A silence with what it hid: how many and when last. *)
Definition silence_hits (tb : Tables) (s : AuditSilence) : Z * option Time :=
  let es := List.filter (λ e, (se_silence e =? Sl_ID s)%Z) (t_hidden tb) in
  (Z.of_nat (length es), foldr (λ e m, Some (match m with Some t => Z.max t (se_at e) | None => se_at e end)) None es).

(** Active silences first, then the newest. *)
Definition listed_before (now : Time) (a b : AuditSilence) : Prop :=
  match is_active now a, is_active now b with
  | true, false => True
  | false, true => False
  | _, _ => (Sl_CreatedAt b ≤ Sl_CreatedAt a)%Z
  end.
#[global] Instance listed_before_dec now : RelDecision (listed_before now).
Proof. intros a b. unfold listed_before. destruct (is_active now a), (is_active now b); apply _. Defined.

Definition ListAuditSilences (e : Env) (tb : Tables) : list (AuditSilence * (Z * option Time)) :=
  map (λ s, (s, silence_hits tb s)) (take auditSilenceListMax (merge_sort (listed_before (e_db e)) (t_silences tb))).

Definition se_newer (a b : SilencedEvent) : Prop := (se_id b ≤ se_id a)%Z.
#[global] Instance se_newer_dec : RelDecision se_newer.
Proof. intros a b. unfold se_newer. apply _. Defined.

Definition ListSilencedEvents (silence before limit : Z) (tb : Tables) : list SilencedEvent :=
  let limit := if (limit <=? 0)%Z || (silencedEventsPageMax <? limit)%Z then 200%Z else limit in
  take (Z.to_nat limit) (merge_sort se_newer (List.filter (λ s,
    ((silence =? 0)%Z || (se_silence s =? silence)%Z) && ((before =? 0)%Z || (se_id s <? before)%Z)) (t_hidden tb))).

End store.
