(* ===== verification/AuditRollup.v ===== *)
(** * kvisior/internal/store: hourly counts of audit events

    The events of an hour are counted per user once the hour has settled, and
    the hour is marked as counted. Whoever changes an event of a settled hour
    takes the mark away. A search over a long range reads the counts of the
    marked hours and the events before and after them. *)

From Stdlib Require Import Ascii.
From stdpp Require Import base list gmap strings sorting.
From S2P Require Import Prelude GoStrings AuditRules AuditEngine AuditQuery AuditSilence AuditStore.
Local Open Scope string_scope.
Local Open Scope list_scope.
Local Open Scope go_scope.

Definition rollupSettle : Duration := (5 * Minute)%Z.
Definition rollupClockSkew : Duration := Minute.
Definition rollupBatch : nat := 500.
Definition rollupBudget : Duration := (20 * Second)%Z.
Definition rollupMinHours : Z := 6.
Definition AuditGroupsPageMax : Z := 1000.

(** [Truncate] rounds down from Go's zero time. *)
Definition hourOf (t : Time) : Time := (t / Hour * Hour)%Z.

(** The low 32 bits of the number of the hour since 1970, as a signed number;
    the division rounds towards zero. *)
Definition hourKey (h : Time) : Z := ((Z.quot (Unix h) 3600 + 2 ^ 31) mod 2 ^ 32 - 2 ^ 31)%Z.

Definition rollupBuildable (h now : Time) : bool := negb (After (TAdd h (Hour + rollupSettle - rollupClockSkew)%Z) now).

(** The hours [invalidateRollupHours] takes from the times it gets: settled
    ones, each once by its key. *)
Fixpoint rollup_hours (now : Time) (seen : list Z) (stamps : list Time) : list Time :=
  match stamps with
  | [] => []
  | ts :: stamps =>
      let h := hourOf ts in
      if rollupBuildable h now && negb (any (Z.eqb (hourKey h)) seen)
      then h :: rollup_hours now (hourKey h :: seen) stamps
      else rollup_hours now seen stamps
  end.

(** A row of audit_user_hourly. *)
Record HourRow := {
  hr_hour : Time; hr_user : string; hr_allowed : bool; hr_danger : bool; hr_events : Z; hr_last : Time; hr_ips : list string }.

(** The order of texts in the database. *)
Class Collation := {
  text_le : string → string → bool;
  text_total : ∀ a b, text_le a b = true ∨ text_le b a = true;
  text_trans : ∀ a b c, text_le a b = true → text_le b c = true → text_le a c = true;
  text_antisym : ∀ a b, text_le a b = true → text_le b a = true → a = b;
}.

Section rollup.
Context {T : CaseTables} {D : DbTime} {C : Collation}.
Context (ilike : string → string → bool).

Definition text_order (a b : string) : Prop := text_le a b = true.
#[global] Instance text_order_dec : RelDecision text_order.
Proof. intros a b. unfold text_order. apply _. Defined.

(** [(ARRAY_AGG(DISTINCT ip))[1:6]]. *)
Definition first6 (l : list string) : list string := take 6 (merge_sort text_order (remove_dups l)).

(** The addresses of rows that have one. *)
Definition ips_of (rs : list AuditRow) : list string := List.filter (λ ip, ip != "") (omap ar_ip rs).

(** [MAX(ts)] of a group, which has a row. *)
Definition max_ts (rs : list AuditRow) : Time := foldr Z.max (List.hd 0%Z (map ar_ts rs)) (map ar_ts rs).

Definition is_denied (r : AuditRow) : bool := negb (default true (ar_allowed r)).

(** ** Building an hour *)

Definition in_hour (h : Time) (r : AuditRow) : bool := ((h <=? ar_ts r) && (ar_ts r <? h + Hour))%Z.

Definition hour_key (r : AuditRow) : string * bool * bool := (ar_user r, default true (ar_allowed r), auditDanger r).

Definition hour_row (h : Time) (rs : list AuditRow) (k : string * bool * bool) : HourRow :=
  let g := List.filter (λ r, bool_decide (hour_key r = k)) rs in
  {| hr_hour := h; hr_user := k.1.1; hr_allowed := k.1.2; hr_danger := k.2; hr_events := Z.of_nat (length g);
     hr_last := max_ts g; hr_ips := first6 (ips_of g) |}.

(** The statement of [rebuildRollupHour] that counts. *)
Definition count_hour (h : Time) (rows : list AuditRow) : list HourRow :=
  let rs := List.filter (λ r, in_hour h r && negb (ar_silenced r)) rows in
  map (hour_row h rs) (remove_dups (map hour_key rs)).

(** The hours that [RefreshAuditRollups] may build at a time of the database's
    clock, newest first, of which [marks] are built already. *)
Fixpoint hours_down (fuel : nat) (newest oldest : Time) : list Time :=
  match fuel with
  | O => []
  | S fuel => if (newest <? oldest)%Z then [] else newest :: hours_down fuel (newest - Hour)%Z oldest
  end.

Definition refresh_tasks (now : Time) (retention : Duration) (marks : list Time) : list Time :=
  let oldest := (hourOf (now - retention) + Hour)%Z in
  let newest := (hourOf (now - rollupSettle) - Hour)%Z in
  take rollupBatch (List.filter (λ h, negb (any (Z.eqb h) marks))
    (hours_down (Z.to_nat ((newest - oldest) / Hour) + 1) newest oldest)).

(** ** Reading *)

Record AuditGroup := {
  G_Key : string; G_Events : Z; G_Dangerous : Z; G_Denied : Z; G_Others : list string; G_LastSeen : Time }.

(** A line of the statement of [rollupUserGroups]: what a row of counts or an
    event adds to its group. *)
Record part := { x_k : string; x_n : Z; x_d : Z; x_den : Z; x_last : Time; x_ips : list string }.

Definition hour_part (h : HourRow) : part :=
  {| x_k := hr_user h; x_n := hr_events h; x_d := if hr_danger h then hr_events h else 0%Z;
     x_den := if negb (hr_allowed h) then hr_events h else 0%Z; x_last := hr_last h; x_ips := hr_ips h |}.

Definition row_part (r : AuditRow) : part :=
  {| x_k := ar_user r; x_n := 1; x_d := if auditDanger r then 1 else 0; x_den := if is_denied r then 1 else 0;
     x_last := ar_ts r; x_ips := match ar_ip r with Some ip => if ip != "" then [ip] else [] | None => [] end |}.

Definition zsum (l : list Z) : Z := foldr Z.add 0%Z l.

Definition part_group (xs : list part) (k : string) : AuditGroup :=
  let g := List.filter (λ x, x_k x == k) xs in
  {| G_Key := k; G_Events := zsum (map x_n g); G_Dangerous := zsum (map x_d g); G_Denied := zsum (map x_den g);
     G_Others := first6 (concat (map x_ips g)); G_LastSeen := foldr Z.max (List.hd 0%Z (map x_last g)) (map x_last g) |}.

(** [ORDER BY n DESC, k]. *)
Definition group_order (a b : AuditGroup) : Prop :=
  (G_Events b < G_Events a)%Z ∨ (G_Events a = G_Events b ∧ text_order (G_Key a) (G_Key b)).
#[global] Instance group_order_dec : RelDecision group_order.
Proof. intros a b. unfold group_order. apply _. Defined.

Definition page {A} (limit offset : Z) (l : list A) : list A := take (Z.to_nat limit) (drop (Z.to_nat offset) l).

(** The hours whose counts a search may use. *)
Record rollupSpan := { sp_start : Time; sp_end : Time }.

(** [rollupWhere] on a row of counts. *)
Definition rollupWhere (q : AuditEventQuery) (span : rollupSpan) (h : HourRow) : bool :=
  ((sp_start span <=? hr_hour h) && (hr_hour h <? sp_end span))%Z
  && userResultFilters ilike q (hr_danger h) (hr_user h) (Some (hr_allowed h)).

(** The searches for the events before and after the hours. *)
Definition rollupEdges (q : AuditEventQuery) (span : rollupSpan) : list AuditEventQuery :=
  let head := with_range q (Q_From q) (sp_start span - Microsecond)%Z in
  let tail := with_range q (sp_end span) (Q_To q) in
  List.filter (λ p, negb (Before (Q_To p) (Q_From p))) [head; tail].

Definition rollupUserGroups (keep : AuditRow → bool) (rows : list AuditRow) (hourly : list HourRow)
    (q : AuditEventQuery) (span : rollupSpan) (limit offset : Z) : list AuditGroup :=
  let xs := map hour_part (List.filter (rollupWhere q span) hourly)
            ++ concat (map (λ p, map row_part (List.filter (auditWhereWith ilike keep p) rows)) (rollupEdges q span)) in
  page limit offset (merge_sort group_order (map (part_group xs) (remove_dups (map x_k xs)))).

(** The hours without a mark, at most [limit] of them. *)
Definition missingRollupHours (marks : list Time) (from to : Time) (limit : nat) : list Time :=
  take limit (List.filter (λ h, negb (any (Z.eqb h) marks))
    (map (λ i, (from + Z.of_nat i * Hour)%Z) (seq 0 (Z.to_nat ((to - from) / Hour + 1))))).

(** [rollupSpanFor]; [ready] is what [auditRollupsReady] says, [marks] is [None]
    when the search for a gap fails. *)
Definition rollupSpanFor (ready : bool) (marks : option (list Time)) (q : AuditEventQuery) (now : Time) : option rollupSpan :=
  if bool_decide (Q_Object q ≠ None) || (Q_SourceIP q != "") || (Q_Search q != "") || (Q_Namespace q != "")
     || (Q_Kind q != "") || (Q_Resource q != "") || IsZero (Q_From q) || IsZero (Q_To q) then None
  else if negb ready then None
  else
    let start := hourOf (Q_From q) in
    let start := if Before start (Q_From q) then TAdd start Hour else start in
    let stop := hourOf (Q_To q) in
    let stop := if After stop (hourOf now) then hourOf now else stop in
    if (Z.quot (TSub stop start) Hour <? rollupMinHours)%Z then None
    else
      marks ← marks;
      let stop := match missingRollupHours marks start (stop - Hour)%Z 1 with h :: _ => h | [] => stop end in
      if (Z.quot (TSub stop start) Hour <? rollupMinHours)%Z then None
      else Some {| sp_start := start; sp_end := stop |}.

(** The statement of [AuditEventGroups] by user. *)
Definition user_group (rs : list AuditRow) (k : string) : AuditGroup :=
  let g := List.filter (λ r, ar_user r == k) rs in
  {| G_Key := k; G_Events := Z.of_nat (length g); G_Dangerous := Z.of_nat (length (List.filter auditDanger g));
     G_Denied := Z.of_nat (length (List.filter is_denied g)); G_Others := first6 (ips_of g); G_LastSeen := max_ts g |}.

Definition rawUserGroups (keep : AuditRow → bool) (rows : list AuditRow) (q : AuditEventQuery) (limit offset : Z) : list AuditGroup :=
  let rs := List.filter (auditWhereWith ilike keep q) rows in
  page limit offset (merge_sort group_order (map (user_group rs) (remove_dups (map ar_user rs)))).

(** [AuditEventGroups] by user, on tables that do not change meanwhile. *)
Definition AuditEventGroups (ready : bool) (keep : AuditRow → bool) (rows : list AuditRow) (hourly : list HourRow)
    (marks : option (list Time)) (q : AuditEventQuery) (limit offset : Z) (now : Time) : list AuditGroup :=
  let limit := if (limit <=? 0)%Z || (AuditGroupsPageMax <? limit)%Z then 100%Z else limit in
  let offset := if (offset <? 0)%Z then 0%Z else offset in
  match rollupSpanFor ready marks q now with
  | Some span => rollupUserGroups keep rows hourly q span limit offset
  | None => rawUserGroups keep rows q limit offset
  end.

(** ** The histogram *)

(** A line of the statement: its time, how many events, how many dangerous. *)
Definition hline : Type := Time * Z * Z.

Definition row_line (r : AuditRow) : hline := (ar_ts r, 1%Z, if auditDanger r then 1%Z else 0%Z).
(** The events of an hour stand in its middle. *)
Definition hour_line (h : HourRow) : hline :=
  ((hr_hour h + 30 * Minute)%Z, hr_events h, if hr_danger h then hr_events h else 0%Z).

(** [histogram]: the lines by bucket. The number of a bucket is computed by the
    database in floating point: [bucket] is that number, at most the last. *)
Definition histogram (bucket : Time → Z) (buckets : Z) (ls : list hline) : list (Z * (Z * Z)) :=
  let num (l : hline) := Z.min (buckets - 1) (bucket l.1.1) in
  map (λ b, let g := List.filter (λ l, (num l =? b)%Z) ls in (b, (zsum (map (λ l, l.1.2) g), zsum (map snd g))))
      (remove_dups (map num ls)).

Definition rawHistogram (bucket : Time → Z) (keep : AuditRow → bool) (rows : list AuditRow) (q : AuditEventQuery) (buckets : Z)
    : list (Z * (Z * Z)) :=
  histogram bucket buckets (map row_line (List.filter (auditWhereWith ilike keep q) rows)).

Definition rollupHistogram (bucket : Time → Z) (keep : AuditRow → bool) (rows : list AuditRow) (hourly : list HourRow)
    (q : AuditEventQuery) (span : rollupSpan) (buckets : Z) : list (Z * (Z * Z)) :=
  histogram bucket buckets
    (map hour_line (List.filter (rollupWhere q span) hourly)
     ++ concat (map (λ p, map row_line (List.filter (auditWhereWith ilike keep p) rows)) (rollupEdges q span))).

Record AuditBucket := { B_Start : Time; B_Total : Z; B_Dangerous : Z }.

(** [AuditEventHistogram]: the buckets and the number of events; [bucket] is
    given the length of a step. *)
Definition AuditEventHistogram (bucket : Duration → Time → Z) (ready : bool) (keep : AuditRow → bool) (rows : list AuditRow)
    (hourly : list HourRow) (marks : option (list Time)) (q : AuditEventQuery) (buckets : Z) (now : Time)
    : result (list AuditBucket * Z) :=
  let buckets := if (buckets <=? 0)%Z || (200 <? buckets)%Z then 24%Z else buckets in
  let span := TSub (Q_To q) (Q_From q) in
  if (span <=? 0)%Z then Err "store: histogram needs a time range"
  else
    let step := Z.quot span buckets in
    let counts := match rollupSpanFor ready marks q now with
                  | Some sp => rollupHistogram (bucket step) keep rows hourly q sp buckets
                  | None => rawHistogram (bucket step) keep rows q buckets
                  end in
    let counts := List.filter (λ c, (0 <=? c.1)%Z && (c.1 <? buckets)%Z) counts in
    let at_ i := default (0%Z, 0%Z) (snd <$> List.find (λ c, (c.1 =? Z.of_nat i)%Z) counts) in
    Ok (map (λ i, {| B_Start := (Q_From q + Z.of_nat i * step)%Z; B_Total := (at_ i).1; B_Dangerous := (at_ i).2 |})
            (seq 0 (Z.to_nat buckets)),
        zsum (map (λ c, c.2.1) counts)).

End rollup.
