(* ===== verification/AuditRollupRead.v ===== *)
(** * The counts of an hour stand for its events

    Groups made from hourly counts and from the events before and after them
    are the groups made from the events: counts add, the latest time is the
    latest of the latest, and the first six addresses are among the first six
    of each part. *)

From Stdlib Require Import Ascii.
From stdpp Require Import base list gmap strings sorting.
From S2P Require Import Prelude GoStrings AuditRules AuditEngine AuditQuery AuditQueryProps AuditSilence AuditStore AuditRollup.
Local Open Scope string_scope.
Local Open Scope list_scope.
Local Open Scope go_scope.

(** ** Lists *)

Lemma filter_perm_split {A} (p q r : A → bool) l :
  (∀ x, x ∈ l → p x = q x || r x) → (∀ x, x ∈ l → q x && r x = false) →
  List.filter p l ≡ₚ List.filter q l ++ List.filter r l.
Proof.
  induction l as [|x l IH]; intros Hor Hand; [done|]. cbn [List.filter].
  assert (List.filter p l ≡ₚ List.filter q l ++ List.filter r l) as IHl.
  { apply IH; intros y Hy; [apply Hor|apply Hand]; by right. }
  specialize (Hor x ltac:(by left)). specialize (Hand x ltac:(by left)). rewrite Hor.
  destruct (q x), (r x); cbn in *; try done; rewrite IHl; [done|by rewrite Permutation_middle].
Qed.

Lemma filter_ext_elem {A} (p q : A → bool) l : (∀ x, x ∈ l → p x = q x) → List.filter p l = List.filter q l.
Proof.
  induction l as [|x l IH]; intros H; [done|]. cbn [List.filter]. rewrite (H x) by (by left).
  by rewrite IH by (intros y Hy; apply H; by right).
Qed.

Lemma filter_filter {A} (p q : A → bool) l : List.filter p (List.filter q l) = List.filter (λ x, q x && p x) l.
Proof. induction l as [|x l IH]; [done|]. cbn [List.filter]. destruct (q x); cbn [List.filter andb]; by rewrite IH. Qed.

Lemma filter_map_comm {A B} (f : A → B) (p : B → bool) l : List.filter p (map f l) = map f (List.filter (λ x, p (f x)) l).
Proof. induction l as [|x l IH]; [done|]. cbn. rewrite IH. by destruct (p (f x)). Qed.

Lemma map_concat_map {A B} (f : A → B) ls : map f (concat ls) = concat (map (map f) ls).
Proof. induction ls as [|l ls IH]; [done|]. cbn. by rewrite map_app, IH. Qed.

Lemma zsum_app l l' : zsum (l ++ l') = (zsum l + zsum l')%Z.
Proof. unfold zsum. induction l as [|x l IH]; cbn [foldr app]; [done|]. rewrite IH. lia. Qed.

Lemma zsum_perm l l' : l ≡ₚ l' → zsum l = zsum l'.
Proof. unfold zsum. induction 1; cbn [foldr]; lia. Qed.

Lemma zsum_const {A} (f : A → Z) c l : (∀ x, x ∈ l → f x = c) → zsum (map f l) = (c * Z.of_nat (length l))%Z.
Proof.
  unfold zsum. induction l as [|x l IH]; intros H; cbn [map foldr length]; [lia|].
  rewrite (H x) by (by left). rewrite IH by (intros y Hy; apply H; by right). lia.
Qed.

(** A sum by classes. *)
Lemma zsum_classes {A K} `{EqDecision K} (key : A → K) (f : A → Z) ls ks : NoDup ks →
  zsum (map (λ k, zsum (map f (List.filter (λ x, bool_decide (key x = k)) ls))) ks)
  = zsum (map f (List.filter (λ x, bool_decide (key x ∈ ks)) ls)).
Proof.
  induction ks as [|k ks IH]; intros Hnd.
  { rewrite (filter_ext_elem _ (λ _, false)), filter_false; [done|]. intros x _. apply bool_decide_eq_false, not_elem_of_nil. }
  apply NoDup_cons in Hnd as [Hk Hnd]. cbn [map]. change (zsum (?x :: ?l)) with (x + zsum l)%Z. rewrite IH by done.
  rewrite <-zsum_app, <-map_app. apply zsum_perm, Permutation_map. symmetry. apply filter_perm_split.
  - intros x _. apply eq_true_iff_eq. rewrite orb_true_iff, !bool_decide_eq_true. by rewrite elem_of_cons.
  - intros x _. apply andb_false_iff. rewrite !bool_decide_eq_false. destruct (decide (key x = k)) as [->|]; [by right|by left].
Qed.

Lemma zsum_all_classes {A K} `{EqDecision K} (key : A → K) (f : A → Z) ls ks : NoDup ks → (∀ x, x ∈ ls → key x ∈ ks) →
  zsum (map (λ k, zsum (map f (List.filter (λ x, bool_decide (key x = k)) ls))) ks) = zsum (map f ls).
Proof.
  intros Hnd Hin. rewrite zsum_classes by done. rewrite (filter_ext_elem _ (λ _, true)), filter_true; [done|].
  intros x Hx. by apply bool_decide_eq_true, Hin.
Qed.

(** The greatest of a list: 0 of none. *)
Definition lmax (l : list Z) : Z := foldr Z.max (List.hd 0%Z l) l.

Lemma lmax_spec l : l ≠ [] → lmax l ∈ l ∧ ∀ x, x ∈ l → (x ≤ lmax l)%Z.
Proof.
  intros Hne. unfold lmax.
  assert (∀ b l', b ∈ l → (∀ x, x ∈ l' → x ∈ l) → foldr Z.max b l' ∈ l ∧ ∀ x, x ∈ l' → (x ≤ foldr Z.max b l')%Z) as Hgen.
  { intros b l' Hb. induction l' as [|y l' IH]; intros Hsub; cbn [foldr]; [split; [done|intros x Hx; by apply not_elem_of_nil in Hx]|].
    destruct IH as [Hin Hle]; [intros x Hx; apply Hsub; by right|]. split.
    - destruct (Z.max_spec y (foldr Z.max b l')) as [[_ ->]|[_ ->]]; [done|]. apply Hsub. by left.
    - intros x [->|Hx]%elem_of_cons; [lia|]. specialize (Hle x Hx). lia. }
  apply Hgen; [|done]. destruct l; [done|by left].
Qed.

Lemma lmax_eq l l' : (∀ t, (∃ x, x ∈ l ∧ (t ≤ x)%Z) ↔ (∃ x, x ∈ l' ∧ (t ≤ x)%Z)) → lmax l = lmax l'.
Proof.
  intros H. destruct l as [|a l].
  - destruct l' as [|b l']; [done|]. destruct (proj2 (H b)) as (x & Hx & _); [exists b; split; [by left|lia]|].
    by apply not_elem_of_nil in Hx.
  - destruct l' as [|b l'].
    { destruct (proj1 (H a)) as (x & Hx & _); [exists a; split; [by left|lia]|]. by apply not_elem_of_nil in Hx. }
    destruct (lmax_spec (a :: l)) as [Hin Hle]; [done|]. destruct (lmax_spec (b :: l')) as [Hin' Hle']; [done|].
    destruct (proj1 (H (lmax (a :: l)))) as (x & Hx & ?); [eauto with lia|].
    destruct (proj2 (H (lmax (b :: l')))) as (y & Hy & ?); [eauto with lia|].
    specialize (Hle y Hy). specialize (Hle' x Hx). lia.
Qed.

Section read.
Context {T : CaseTables} {D : DbTime} {C : Collation} (ilike : string → string → bool).

(** ** The first six addresses *)

Global Instance text_order_total : Total text_order.
Proof. intros a b. unfold text_order. apply text_total. Qed.
Global Instance text_order_trans : Transitive text_order.
Proof. intros a b c. unfold text_order. apply text_trans. Qed.
Global Instance text_order_anti : AntiSymm (=) text_order.
Proof. intros a b. unfold text_order. apply text_antisym. Qed.

(** The texts of [l] that come before [x]. *)
Definition below (x : string) (l : list string) : list string :=
  List.filter (λ y, bool_decide (text_order y x ∧ y ≠ x)) (remove_dups l).

Lemma below_elem x y l : y ∈ below x l ↔ y ∈ l ∧ text_order y x ∧ y ≠ x.
Proof.
  unfold below. rewrite list_elem_of_In, filter_In, <-list_elem_of_In, elem_of_remove_dups, bool_decide_eq_true. tauto.
Qed.

Lemma below_nodup x l : NoDup (below x l).
Proof. unfold below. apply NoDup_ListNoDup, List.NoDup_filter, NoDup_ListNoDup, NoDup_remove_dups. Qed.

(** The sorted texts, without repetition. *)
Definition sorted6 (l : list string) : list string := merge_sort text_order (remove_dups l).

Lemma sorted6_elem l x : x ∈ sorted6 l ↔ x ∈ l.
Proof. unfold sorted6. by rewrite merge_sort_Permutation, elem_of_remove_dups. Qed.

Lemma sorted6_nodup l : NoDup (sorted6 l).
Proof. unfold sorted6. rewrite merge_sort_Permutation. apply NoDup_remove_dups. Qed.

(** A text is among the first six if fewer than six come before it. *)
Lemma first6_elem l x : x ∈ first6 l ↔ x ∈ l ∧ (length (below x l) < 6)%nat.
Proof.
  unfold first6. fold (sorted6 l).
  pose proof (StronglySorted_merge_sort text_order (remove_dups l)) as Hs. fold (sorted6 l) in Hs.
  pose proof (sorted6_nodup l) as Hnd.
  assert (∀ l1 l2, sorted6 l = l1 ++ x :: l2 → below x l ≡ₚ l1) as Hcount.
  { intros l1 l2 E. rewrite E in Hs, Hnd. apply StronglySorted_app in Hs as (H12 & _ & Hs).
    apply StronglySorted_cons in Hs as [Hx2 _]. apply NoDup_app in Hnd as (Hnd1 & Hx1 & Hnd2).
    apply NoDup_cons in Hnd2 as [Hx2' _]. rewrite Forall_forall in Hx2.
    apply NoDup_Permutation; [apply below_nodup|done|]. intros y. rewrite below_elem. split.
    - intros (Hy & Hle & Hne). apply sorted6_elem in Hy. rewrite E in Hy.
      apply elem_of_app in Hy as [?|[?|Hy]%elem_of_cons]; [done|done|].
      destruct Hne. apply (anti_symm text_order); [done|]. by apply Hx2.
    - intros Hy. split_and!.
      + apply sorted6_elem. rewrite E. set_solver.
      + apply H12; [done|by left].
      + intros ->. apply (Hx1 x Hy). by left. }
  split.
  - intros Hx. apply list_elem_of_lookup in Hx as [i Hi]. rewrite lookup_take in Hi. case_decide; [|done].
    pose proof (list_elem_of_lookup_2 _ _ _ Hi) as Hin. split; [by apply sorted6_elem|].
    rewrite (Hcount (take i (sorted6 l)) (drop (S i) (sorted6 l))) by (symmetry; by apply take_drop_middle).
    rewrite length_take. lia.
  - intros [Hx Hlt]. apply sorted6_elem, list_elem_of_lookup in Hx as [i Hi].
    rewrite (Hcount (take i (sorted6 l)) (drop (S i) (sorted6 l))) in Hlt by (symmetry; by apply take_drop_middle).
    rewrite length_take in Hlt. pose proof (lookup_lt_Some _ _ _ Hi).
    apply list_elem_of_lookup. exists i. rewrite lookup_take. case_decide; [done|lia].
Qed.

Lemma first6_sorted l : StronglySorted text_order (first6 l) ∧ NoDup (first6 l).
Proof.
  unfold first6. fold (sorted6 l). split.
  - eapply StronglySorted_app_1_l. rewrite take_drop. apply StronglySorted_merge_sort; apply _.
  - eapply sublist_NoDup; [|apply sublist_take]. apply sorted6_nodup.
Qed.

Lemma first6_eq l l' : (∀ x, x ∈ first6 l ↔ x ∈ first6 l') → first6 l = first6 l'.
Proof.
  intros H. destruct (first6_sorted l), (first6_sorted l').
  apply (StronglySorted_unique text_order); [done..|]. by apply NoDup_Permutation.
Qed.

Lemma below_sub x l l' : (∀ y, y ∈ l → text_order y x → y ≠ x → y ∈ l') → (length (below x l) ≤ length (below x l'))%nat.
Proof.
  intros H. apply submseteq_length, NoDup_submseteq; [apply below_nodup|].
  intros y. rewrite !below_elem. intros (? & ? & ?). auto.
Qed.

(** What is not among the first six has six before it that are. *)
Lemma first6_full l y : y ∈ l → y ∉ first6 l → ∀ x, text_order y x → y ≠ x →
  ∀ l', (∀ z, z ∈ first6 l → z ∈ l') → (6 ≤ length (below x l'))%nat.
Proof.
  intros Hy Hn x Hyx Hne l' Hsub.
  assert (6 ≤ length (below y l))%nat as H6.
  { destruct (Nat.le_gt_cases 6 (length (below y l))); [done|]. destruct Hn. by apply first6_elem. }
  assert (length (first6 l) = 6)%nat as Hlen.
  { unfold first6. fold (sorted6 l). rewrite length_take.
    assert (length (below y l) ≤ length (sorted6 l))%nat; [|lia].
    apply submseteq_length, NoDup_submseteq; [apply below_nodup|]. intros z Hz. apply below_elem in Hz as [? _].
    by apply sorted6_elem. }
  rewrite <-Hlen. apply submseteq_length, NoDup_submseteq; [apply first6_sorted|].
  intros z Hz. apply below_elem. split; [by apply Hsub|].
  assert (text_order z y ∧ z ≠ y) as [Hzy Hzy'].
  { split; [|by intros ->]. unfold first6 in Hz, Hn. fold (sorted6 l) in Hz, Hn.
    apply sorted6_elem in Hy. rewrite <-(take_drop 6 (sorted6 l)) in Hy.
    apply elem_of_app in Hy as [?|Hy]; [done|].
    eapply (StronglySorted_app_1_elem_of text_order (take 6 (sorted6 l)) (drop 6 (sorted6 l))); [|done..].
    rewrite take_drop. apply StronglySorted_merge_sort; apply _. }
  split; [by etrans|]. intros ->. apply Hne. by apply (anti_symm text_order).
Qed.

(** The first six of the first six and more. *)
Lemma first6_app a b : first6 (first6 a ++ b) = first6 (a ++ b).
Proof.
  apply first6_eq. intros x. rewrite !first6_elem, !elem_of_app. split.
  - intros [Hx Hlt].
    assert (∀ y, y ∈ a → text_order y x → y ≠ x → y ∈ first6 a) as Hall.
    { intros y Hy Hyx Hne. destruct (decide (y ∈ first6 a)) as [|Hn]; [done|].
      pose proof (first6_full a y Hy Hn x Hyx Hne (first6 a ++ b)) as H. set_solver by lia. }
    split; [destruct Hx as [Hx|Hx]; [left|by right]; by apply first6_elem in Hx as [? _]|].
    eapply Nat.le_lt_trans; [|exact Hlt]. apply below_sub. intros y. rewrite !elem_of_app. naive_solver.
  - intros [Hx Hlt]. split.
    + destruct Hx as [Hx|Hx]; [left|by right]. apply first6_elem. split; [done|].
      eapply Nat.le_lt_trans; [|exact Hlt]. apply below_sub. set_solver.
    + eapply Nat.le_lt_trans; [|exact Hlt]. apply below_sub. intros y. rewrite !elem_of_app.
      intros [Hy|Hy] _ _; [left|by right]. by apply first6_elem in Hy as [? _].
Qed.

Lemma first6_elems a b : (∀ x, x ∈ a ↔ x ∈ b) → first6 a = first6 b.
Proof.
  intros H. apply first6_eq. intros x. rewrite !first6_elem, H.
  assert (length (below x a) = length (below x b)) as ->; [|done].
  apply Nat.le_antisymm; apply below_sub; intros y Hy _ _; by apply H.
Qed.

Lemma first6_app_cong a a' b b' : first6 a = first6 a' → first6 b = first6 b' → first6 (a ++ b) = first6 (a' ++ b').
Proof.
  intros Ha Hb. rewrite <-(first6_app a), Ha, first6_app.
  rewrite (first6_elems (a' ++ b) (b ++ a')) by set_solver. rewrite <-(first6_app b), Hb, first6_app.
  apply first6_elems. set_solver.
Qed.

(** ** Parts of a group that add up to the same *)

Definition of_key (k : string) (xs : list part) : list part := List.filter (λ x, x_k x == k) xs.

Record parts_eq (xs ys : list part) : Prop := {
  pe_keys : ∀ k, k ∈ map x_k xs ↔ k ∈ map x_k ys;
  pe_n : ∀ k, zsum (map x_n (of_key k xs)) = zsum (map x_n (of_key k ys));
  pe_d : ∀ k, zsum (map x_d (of_key k xs)) = zsum (map x_d (of_key k ys));
  pe_den : ∀ k, zsum (map x_den (of_key k xs)) = zsum (map x_den (of_key k ys));
  pe_last : ∀ k t, (∃ x, x ∈ map x_last (of_key k xs) ∧ (t ≤ x)%Z) ↔ (∃ y, y ∈ map x_last (of_key k ys) ∧ (t ≤ y)%Z);
  pe_ips : ∀ k, first6 (concat (map x_ips (of_key k xs))) = first6 (concat (map x_ips (of_key k ys)));
}.

Global Instance parts_eq_refl : Reflexive parts_eq.
Proof. by constructor. Qed.
Global Instance parts_eq_trans : Transitive parts_eq.
Proof.
  intros a b c [K N Dd De L I] [K' N' Dd' De' L' I']. split; intros k; [by rewrite K, K'|congruence..| |congruence].
  intros t. by rewrite L, L'.
Qed.

Lemma of_key_app k xs ys : of_key k (xs ++ ys) = of_key k xs ++ of_key k ys.
Proof. apply List.filter_app. Qed.

Global Instance parts_eq_app : Proper (parts_eq ==> parts_eq ==> parts_eq) app.
Proof.
  intros a a' [K N Dd De L I] b b' [K' N' Dd' De' L' I']. split; intros k.
  - rewrite !map_app, !elem_of_app. by rewrite K, K'.
  - rewrite !of_key_app, !map_app, !zsum_app. congruence.
  - rewrite !of_key_app, !map_app, !zsum_app. congruence.
  - rewrite !of_key_app, !map_app, !zsum_app. congruence.
  - intros t. rewrite !of_key_app, !map_app. setoid_rewrite elem_of_app. specialize (L k t). specialize (L' k t). naive_solver.
  - rewrite !of_key_app, !map_app, !concat_app. by apply first6_app_cong.
Qed.

Lemma parts_eq_perm xs ys : xs ≡ₚ ys → parts_eq xs ys.
Proof.
  intros H. assert (∀ k, of_key k xs ≡ₚ of_key k ys) as Hk by (intros k; by apply filter_perm).
  split; intros k.
  - by rewrite (Permutation_map x_k H).
  - by apply zsum_perm, Permutation_map.
  - by apply zsum_perm, Permutation_map.
  - by apply zsum_perm, Permutation_map.
  - intros t. by setoid_rewrite (Permutation_map x_last (Hk k)).
  - apply first6_elems. intros x. rewrite !list_elem_of_In, !in_concat.
    split; intros (l & Hl & Hx); exists l; (split; [|done]); (eapply Permutation_in; [|exact Hl]); by apply Permutation_map.
Qed.

Lemma part_group_eq xs ys k : parts_eq xs ys → part_group xs k = part_group ys k.
Proof.
  intros [K N Dd De L I]. unfold part_group. fold (of_key k xs) (of_key k ys).
  rewrite N, Dd, De, I. f_equal. apply (lmax_eq (map x_last _) (map x_last _)), L.
Qed.

(** ** Events as parts *)

Lemma concat_row_ips rs : concat (map x_ips (map row_part rs)) = ips_of rs.
Proof.
  unfold ips_of. induction rs as [|r rs IH]; [done|]. cbn [map concat omap list_omap row_part x_ips].
  rewrite IH. destruct (ar_ip r) as [ip|]; [|done]. cbn [List.filter]. by destruct (ip != "").
Qed.

Lemma row_part_counts (f : AuditRow → bool) rs :
  zsum (map (λ r, if f r then 1 else 0)%Z rs) = Z.of_nat (length (List.filter f rs)).
Proof. unfold zsum. induction rs as [|r rs IH]; [done|]. cbn [map foldr List.filter]. rewrite IH. destruct (f r); cbn [length]; lia. Qed.

Lemma of_key_rows k rs : of_key k (map row_part rs) = map row_part (List.filter (λ r, ar_user r == k) rs).
Proof. unfold of_key. by rewrite filter_map_comm. Qed.

Lemma user_group_part rs k : user_group rs k = part_group (map row_part rs) k.
Proof.
  unfold user_group, part_group. fold (of_key k (map row_part rs)). rewrite of_key_rows, concat_row_ips, !map_map.
  set (g := List.filter _ _). f_equal.
  - rewrite (zsum_const _ 1%Z); [lia|done].
  - symmetry. apply row_part_counts.
  - symmetry. apply row_part_counts.
Qed.

(** ** A row of counts stands for the events it counts *)

Definition of_class (k : string * bool * bool) (rs : list AuditRow) : list AuditRow :=
  List.filter (λ r, bool_decide (hour_key r = k)) rs.

Lemma of_class_elem k rs r : r ∈ of_class k rs ↔ r ∈ rs ∧ hour_key r = k.
Proof. unfold of_class. rewrite list_elem_of_In, filter_In, <-list_elem_of_In, bool_decide_eq_true. tauto. Qed.

Lemma of_key_class u k rs :
  of_key u (map row_part (of_class k rs)) = if k.1.1 == u then map row_part (of_class k rs) else [].
Proof.
  rewrite of_key_rows. destruct (k.1.1 == u) eqn:E; bool_hyps.
  - f_equal. rewrite (filter_ext_elem _ (λ _, true)); [by rewrite filter_true|]. intros r Hr.
    apply of_class_elem in Hr as [_ <-]. by apply String.eqb_eq.
  - rewrite (filter_ext_elem _ (λ _, false)); [by rewrite filter_false|]. intros r Hr.
    apply of_class_elem in Hr as [_ <-]. by apply String.eqb_neq.
Qed.

Lemma class_parts h k rs : of_class k rs ≠ [] → parts_eq [hour_part (hour_row h rs k)] (map row_part (of_class k rs)).
Proof.
  intros Hne. set (g := of_class k rs) in *.
  assert (∀ r, r ∈ g → hour_key r = k) as Hk by (intros r Hr; by apply of_class_elem in Hr as [_ ?]).
  assert (∀ u, of_key u [hour_part (hour_row h rs k)] = if k.1.1 == u then [hour_part (hour_row h rs k)] else []) as H1.
  { intros u. unfold of_key. cbn [List.filter hour_part hour_row x_k hr_user]. by destruct (k.1.1 == u). }
  assert (∀ c (f : AuditRow → bool) b, (∀ r, r ∈ g → f r = b) →
            (if b then c * Z.of_nat (length g) else 0)%Z = zsum (map (λ r, if f r then c else 0)%Z g)) as Hsum.
  { intros c f b Hf. destruct b; symmetry.
    - rewrite (zsum_const _ c); [done|]. intros r Hr. by rewrite Hf.
    - rewrite (zsum_const _ 0%Z); [lia|]. intros r Hr. by rewrite Hf. }
  split; intros u; [|rewrite H1; unfold g; rewrite of_key_class; fold g; (destruct (k.1.1 == u) eqn:E; [|done]); bool_hyps..].
  - cbn [map hour_part hour_row x_k hr_user]. rewrite map_map. cbn. rewrite list_elem_of_singleton.
    assert (∀ r, r ∈ g → ar_user r = k.1.1) as Hu by (intros r Hr; by rewrite <-(Hk r Hr)).
    split.
    + intros ->. destruct g as [|r g']; [done|]. rewrite <-(Hu r) by (by left). by left.
    + intros (r & -> & Hr)%list_elem_of_fmap. by apply Hu.
  - rewrite map_map. cbn. fold (of_class k rs) g. rewrite (zsum_const _ 1%Z); [lia|done].
  - rewrite map_map. cbn. fold (of_class k rs) g. rewrite Z.add_0_r, <-(Hsum 1%Z auditDanger k.2); [by rewrite Z.mul_1_l|].
    intros r Hr. by rewrite <-(Hk r Hr).
  - rewrite map_map. cbn. fold (of_class k rs) g.
    rewrite Z.add_0_r, <-(Hsum 1%Z is_denied (negb k.1.2)); [by rewrite Z.mul_1_l|].
    intros r Hr. by rewrite <-(Hk r Hr).
  - intros t. rewrite map_map. cbn. fold (of_class k rs) g. change (max_ts g) with (lmax (map ar_ts g)).
    destruct (lmax_spec (map ar_ts g)) as [Hin Hle]; [by destruct g|]. setoid_rewrite list_elem_of_singleton. split.
    + intros (x & -> & Ht). eauto.
    + intros (x & Hx & Ht). eexists; split; [done|]. specialize (Hle x Hx). lia.
  - rewrite concat_row_ips. cbn. fold (of_class k rs) g. rewrite app_nil_r.
    pose proof (first6_app (ips_of g) []) as H. by rewrite !app_nil_r in H.
Qed.

(** The classes [ks] of the rows, together. *)
Lemma classes_parts h rs ks : NoDup ks → (∀ k, k ∈ ks → k ∈ map hour_key rs) →
  parts_eq (map hour_part (map (hour_row h rs) ks))
           (map row_part (List.filter (λ r, bool_decide (hour_key r ∈ ks)) rs)).
Proof.
  induction ks as [|k ks IH]; intros Hnd Hin.
  { rewrite (filter_ext_elem _ (λ _, false)); [by rewrite filter_false|]. intros r _.
    apply bool_decide_eq_false. apply not_elem_of_nil. }
  apply NoDup_cons in Hnd as [Hk Hnd]. change (map hour_part (map (hour_row h rs) (k :: ks)))
    with ([hour_part (hour_row h rs k)] ++ map hour_part (map (hour_row h rs) ks)).
  rewrite class_parts, IH; [|done|intros k' Hk'; apply Hin; by right|].
  - rewrite <-map_app. apply parts_eq_perm, Permutation_map. symmetry. apply filter_perm_split.
    + intros r _. apply eq_true_iff_eq. rewrite orb_true_iff, !bool_decide_eq_true. by rewrite elem_of_cons.
    + intros r _. apply andb_false_iff. rewrite !bool_decide_eq_false.
      destruct (decide (hour_key r = k)) as [->|]; [by right|by left].
  - specialize (Hin k ltac:(by left)). apply list_elem_of_fmap in Hin as (r & -> & Hr).
    intros E. assert (r ∈ of_class (hour_key r) rs) as H by (by apply of_class_elem). rewrite E in H.
    by apply not_elem_of_nil in H.
Qed.

(** The condition on users and results, on a class. *)
Definition class_ok (q : AuditEventQuery) (k : string * bool * bool) : bool :=
  userResultFilters ilike q k.2 k.1.1 (Some k.1.2).

Lemma class_ok_row q r :
  class_ok q (hour_key r) = userResultFilters ilike q (auditDanger r) (ar_user r) (ar_allowed r).
Proof.
  unfold class_ok, userResultFilters, hour_key. cbn [fst snd]. f_equal. f_equal.
  destruct (ar_allowed r) as [[]|]; cbn [default]; done.
Qed.

(** The counts of an hour that a search takes are its events that match. *)
Lemma hour_parts q h rows :
  parts_eq (map hour_part (List.filter (λ x, class_ok q (hr_user x, hr_allowed x, hr_danger x)) (count_hour h rows)))
           (map row_part (List.filter (λ r, in_hour h r && negb (ar_silenced r)
              && userResultFilters ilike q (auditDanger r) (ar_user r) (ar_allowed r)) rows)).
Proof.
  unfold count_hour. set (rs := List.filter (λ r, in_hour h r && negb (ar_silenced r)) rows).
  rewrite filter_map_comm. cbn [hour_row hr_user hr_allowed hr_danger].
  rewrite (filter_ext_elem (λ x, class_ok q (x.1.1, x.1.2, x.2)) (class_ok q)) by (by intros [[? ?] ?] _).
  rewrite classes_parts.
  - assert (List.filter (λ r, in_hour h r && negb (ar_silenced r) && userResultFilters ilike q (auditDanger r) (ar_user r) (ar_allowed r)) rows
            = List.filter (λ r, class_ok q (hour_key r)) rs) as ->.
    { unfold rs. rewrite filter_filter. apply filter_ext_elem. intros r _. by rewrite class_ok_row. }
    apply parts_eq_perm, Permutation_map. rewrite (filter_ext_elem _ (λ r, class_ok q (hour_key r))); [done|].
    intros r Hr. apply eq_true_iff_eq. rewrite bool_decide_eq_true, list_elem_of_In, filter_In, <-list_elem_of_In, elem_of_remove_dups.
    split; [tauto|]. intros H. split; [|done]. apply list_elem_of_fmap. eauto.
  - apply NoDup_ListNoDup, List.NoDup_filter, NoDup_ListNoDup, NoDup_remove_dups.
  - intros k. rewrite list_elem_of_In, filter_In, <-list_elem_of_In, elem_of_remove_dups. tauto.
Qed.

(** ** The counts of the hours of a search *)

(** The table of counts has the counts of the hour. *)
Definition counted (rows : list AuditRow) (hourly : list HourRow) (h : Time) : Prop :=
  List.filter (λ x, (hr_hour x =? h)%Z) hourly ≡ₚ count_hour h rows.

Definition aligned (t : Time) : Prop := (t mod Hour = 0)%Z.

Lemma aligned_between a b : aligned a → aligned b → (b ≤ a < b + Hour)%Z → a = b.
Proof.
  unfold aligned. intros Ha Hb H. apply Z.div_exact in Ha, Hb; [|done..].
  assert (a / Hour = b / Hour)%Z; [|congruence]. unfold Hour, Minute, Second in *. lia.
Qed.

Lemma aligned_add a n : aligned a → aligned (a + n * Hour)%Z.
Proof. unfold aligned. intros H. by rewrite Z.mod_add. Qed.

Definition ts_in (lo hi : Time) (r : AuditRow) : bool := ((lo <=? ar_ts r) && (ar_ts r <? hi))%Z.

Lemma span_parts q rows hourly start (n : nat) :
  aligned start → (∀ x, x ∈ hourly → aligned (hr_hour x)) →
  (∀ i, (i < n)%nat → counted rows hourly (start + Z.of_nat i * Hour)%Z) →
  parts_eq (map hour_part (List.filter (rollupWhere ilike q {| sp_start := start; sp_end := (start + Z.of_nat n * Hour)%Z |}) hourly))
           (map row_part (List.filter (λ r, ts_in start (start + Z.of_nat n * Hour)%Z r && negb (ar_silenced r)
              && userResultFilters ilike q (auditDanger r) (ar_user r) (ar_allowed r)) rows)).
Proof.
  intros Hst Hal. induction n as [|n IH]; intros Hc.
  { rewrite (filter_ext_elem _ (λ _, false)), filter_false;
      [rewrite (filter_ext_elem _ (λ _, false)), filter_false; [done|]|]; intros x _.
    - unfold ts_in. destruct (Z.leb_spec start (ar_ts x)), (Z.ltb_spec (ar_ts x) (start + Z.of_nat 0 * Hour)); try done; lia.
    - unfold rollupWhere. cbn [sp_start sp_end].
      destruct (Z.leb_spec start (hr_hour x)), (Z.ltb_spec (hr_hour x) (start + Z.of_nat 0 * Hour)); try done; lia. }
  set (h := (start + Z.of_nat n * Hour)%Z) in *.
  assert (start + Z.of_nat (S n) * Hour = h + Hour)%Z as Eh by (unfold h; lia).
  assert (start ≤ h)%Z by (unfold h, Hour, Minute, Second; lia). assert (0 < Hour)%Z as HH by done. rewrite Eh.
  assert (List.filter (rollupWhere ilike q {| sp_start := start; sp_end := (h + Hour)%Z |}) hourly
    ≡ₚ List.filter (rollupWhere ilike q {| sp_start := start; sp_end := h |}) hourly
       ++ List.filter (λ x, class_ok q (hr_user x, hr_allowed x, hr_danger x)) (List.filter (λ x, (hr_hour x =? h)%Z) hourly)) as Hsplit.
  { rewrite filter_filter. apply filter_perm_split; intros x Hx.
    - specialize (Hal x Hx). unfold rollupWhere, class_ok. cbn [sp_start sp_end fst snd].
      destruct (Z.eqb_spec (hr_hour x) h) as [Exh|Nxh].
      + rewrite Exh. destruct (Z.leb_spec start h), (Z.ltb_spec h h), (Z.ltb_spec h (h + Hour)); cbn [andb orb]; try lia; done.
      + destruct (Z.leb_spec start (hr_hour x)), (Z.ltb_spec (hr_hour x) h), (Z.ltb_spec (hr_hour x) (h + Hour));
          cbn [andb orb]; try lia; rewrite ?orb_false_r; try done.
        destruct Nxh. apply aligned_between; [done|by apply aligned_add|lia].
    - unfold rollupWhere. cbn [sp_start sp_end].
      destruct (Z.eqb_spec (hr_hour x) h), (Z.ltb_spec (hr_hour x) h); cbn [andb]; rewrite ?andb_false_r; try done; lia. }
  rewrite (parts_eq_perm _ _ (Permutation_map hour_part Hsplit)), map_app, IH by (intros i Hi; apply Hc; lia).
  assert (counted rows hourly h) as Hn by (apply Hc; lia). unfold counted in Hn.
  rewrite (parts_eq_perm _ _ (Permutation_map hour_part (filter_perm _ _ _ Hn))), hour_parts, <-map_app.
  apply parts_eq_perm, Permutation_map. symmetry. apply filter_perm_split; intros r _; unfold ts_in, in_hour; rewrite <-!andb_assoc;
    destruct (Z.leb_spec start (ar_ts r)), (Z.ltb_spec (ar_ts r) h), (Z.ltb_spec (ar_ts r) (h + Hour)), (Z.leb_spec h (ar_ts r));
    cbn [andb orb]; try lia; by rewrite ?orb_false_r, ?andb_false_r.
Qed.

(** ** Groups in order *)

Global Instance group_order_total : Total group_order.
Proof.
  intros a b. unfold group_order. destruct (Z.lt_trichotomy (G_Events a) (G_Events b)) as [?|[?|?]]; [auto| |auto].
  destruct (total text_order (G_Key a) (G_Key b)); auto.
Qed.
Global Instance group_order_trans : Transitive group_order.
Proof.
  intros a b c. unfold group_order. intros [?|[? H]] [?|[? H']]; [left; lia..|].
  right. split; [lia|]. by etrans.
Qed.

Lemma groups_sorted xs rs : parts_eq xs (map row_part rs) →
  merge_sort group_order (map (part_group xs) (remove_dups (map x_k xs)))
  = merge_sort group_order (map (user_group rs) (remove_dups (map ar_user rs))).
Proof.
  intros H.
  assert (map (user_group rs) (remove_dups (map ar_user rs)) ≡ₚ map (part_group xs) (remove_dups (map x_k xs))) as Hp.
  { rewrite (map_ext_in _ (part_group xs)).
    - apply Permutation_map, NoDup_Permutation; [apply NoDup_remove_dups..|]. intros k.
      rewrite !elem_of_remove_dups, (pe_keys _ _ H), map_map. done.
    - intros k _. rewrite user_group_part. symmetry. by apply part_group_eq. }
  apply (StronglySorted_unique_strong group_order); [|by apply StronglySorted_merge_sort; apply _..|].
  - intros a b Ha Hb Hab Hba. rewrite merge_sort_Permutation in Ha, Hb. rewrite Hp in Hb.
    apply list_elem_of_fmap in Ha as (k & -> & _). apply list_elem_of_fmap in Hb as (k' & -> & _).
    unfold group_order in *. cbn [G_Key part_group] in *.
    assert (k = k') as ->; [|done]. apply (anti_symm text_order); destruct Hab as [?|[? ?]], Hba as [?|[? ?]]; (done || lia).
  - by rewrite !merge_sort_Permutation, Hp.
Qed.

(** ** The hours of a search *)

Lemma hourOf_spec t : aligned (hourOf t) ∧ (hourOf t ≤ t < hourOf t + Hour)%Z.
Proof.
  unfold aligned, hourOf. rewrite Z.mod_mul by done. split; [done|].
  pose proof (Z.div_mod t Hour ltac:(done)). pose proof (Z.mod_pos_bound t Hour ltac:(done)). lia.
Qed.

Lemma aligned_pg t : aligned t → pg t = t.
Proof.
  unfold aligned. intros H. apply Z.div_exact in H; [|done]. rewrite pg_value.
  assert (t = (t / Hour * 3600000000) * Microsecond)%Z as E by (unfold Hour, Minute, Second, Microsecond in *; lia).
  rewrite E at 1. by rewrite Z.div_mul, <-E.
Qed.

(** The first of the hours that are not marked comes after marked ones only. *)
Lemma missing_first marks from to h l :
  missingRollupHours marks from to 1 = h :: l →
  ∃ i, h = (from + Z.of_nat i * Hour)%Z ∧ (Z.of_nat i ≤ (to - from) / Hour)%Z
       ∧ ∀ j, (j < i)%nat → (from + Z.of_nat j * Hour)%Z ∈ marks.
Proof.
  unfold missingRollupHours. set (n := Z.to_nat _). set (p := λ h, negb (any (Z.eqb h) marks)). intros H.
  assert (∀ n i, take 1 (List.filter p (map (λ i, (from + Z.of_nat i * Hour)%Z) (seq i n))) = h :: l →
     ∃ k, h = (from + Z.of_nat k * Hour)%Z ∧ (i ≤ k < i + n)%nat ∧ ∀ j, (i ≤ j < k)%nat → (from + Z.of_nat j * Hour)%Z ∈ marks) as Hgen.
  { clear. intros n. induction n as [|n IH]; intros i; [done|]. cbn [seq map List.filter].
    destruct (p (from + Z.of_nat i * Hour)%Z) eqn:E.
    - cbn [take]. intros [= <- <-]. exists i. split_and!; [done|lia|lia|]. intros j Hj. lia.
    - intros H. destruct (IH _ H) as (k & -> & Hk & Hall). exists k. split_and!; [done|lia|lia|].
      intros j Hj. destruct (decide (j = i)) as [->|]; [|apply Hall; lia].
      unfold p in E. apply negb_false_iff, any_true in E as (x & Hx & Exh). by apply Z.eqb_eq in Exh as ->. }
  destruct (Hgen n 0%nat H) as (k & -> & Hk & Hall). exists k. split_and!; [done|lia|]. intros j Hj. apply Hall. lia.
Qed.

Lemma missing_none marks from to :
  missingRollupHours marks from to 1 = [] →
  ∀ j, (Z.of_nat j ≤ (to - from) / Hour)%Z → (from + Z.of_nat j * Hour)%Z ∈ marks.
Proof.
  unfold missingRollupHours. intros H j Hj. set (l := map _ _) in H.
  assert ((from + Z.of_nat j * Hour)%Z ∈ l) as Hin.
  { apply list_elem_of_fmap. exists j. split; [done|]. rewrite elem_of_seq. lia. }
  destruct (any (Z.eqb (from + Z.of_nat j * Hour)%Z) marks) eqn:E.
  - apply any_true in E as (x & Hx & Exh). by apply Z.eqb_eq in Exh as ->.
  - assert ((from + Z.of_nat j * Hour)%Z ∈ List.filter (λ h, negb (any (Z.eqb h) marks)) l) as Hf.
    { apply list_elem_of_In, filter_In. split; [by apply list_elem_of_In|]. by rewrite E. }
    destruct (List.filter _ l); [by apply not_elem_of_nil in Hf|done].
Qed.

Record span_ok (marks : list Time) (q : AuditEventQuery) (span : rollupSpan) : Prop := {
  so_filters : ∀ r, column_filters ilike q r = true;
  so_zero : Q_From q ≠ 0%Z ∧ Q_To q ≠ 0%Z;
  so_start : aligned (sp_start span) ∧ (Q_From q ≤ sp_start span < Q_From q + Hour)%Z;
  so_hours : ∃ n : nat, sp_end span = (sp_start span + Z.of_nat n * Hour)%Z
               ∧ ∀ i, (i < n)%nat → (sp_start span + Z.of_nat i * Hour)%Z ∈ marks;
  so_end : (sp_start span < sp_end span ≤ Q_To q)%Z;
}.

Lemma enough_hours a b : (Z.quot (TSub a b) Hour <? rollupMinHours)%Z = false → (b + 6 * Hour ≤ a)%Z.
Proof.
  intros H. apply Z.ltb_ge in H. unfold rollupMinHours in H.
  assert (6 * Hour ≤ TSub a b)%Z as H6.
  { destruct (Z.le_gt_cases (6 * Hour) (TSub a b)) as [|Hlt]; [done|].
    destruct (Z.le_gt_cases 0 (TSub a b)) as [H0|H0].
    - rewrite Z.quot_div_nonneg in H by done. pose proof (Z.div_lt_upper_bound (TSub a b) Hour 6 ltac:(done) ltac:(lia)). lia.
    - pose proof (Z.quot_opp_l (TSub a b) Hour ltac:(done)). pose proof (Z.quot_pos (- TSub a b) Hour ltac:(lia) ltac:(done)). lia. }
  unfold TSub, minInt64, maxInt64, Hour, Minute, Second in *. lia.
Qed.

Lemma rollupSpanFor_spec marks q now span : rollupSpanFor true (Some marks) q now = Some span → span_ok marks q span.
Proof.
  unfold rollupSpanFor. cbn [negb mbind option_bind].
  destruct (_ || IsZero (Q_To q)) eqn:F; [done|]. bool_hyps.
  set (start := if Before (hourOf (Q_From q)) (Q_From q) then TAdd (hourOf (Q_From q)) Hour else hourOf (Q_From q)).
  set (stop := if After (hourOf (Q_To q)) (hourOf now) then hourOf now else hourOf (Q_To q)).
  destruct (hourOf_spec (Q_From q)) as [Haf Hf]. destruct (hourOf_spec (Q_To q)) as [Hat Ht].
  destruct (hourOf_spec now) as [Han _].
  assert (aligned start ∧ (Q_From q ≤ start < Q_From q + Hour)%Z) as [Has Hs].
  { unfold start, Before, TAdd. destruct (Z.ltb_spec (hourOf (Q_From q)) (Q_From q)); [|split; [done|]; lia].
    split; [|lia]. pose proof (aligned_add (hourOf (Q_From q)) 1 Haf). by rewrite Z.mul_1_l in *. }
  assert (aligned stop ∧ (stop ≤ Q_To q)%Z) as [Hae He].
  { unfold stop, After. destruct (Z.ltb_spec (hourOf now) (hourOf (Q_To q))); split; [done|lia|done|lia]. }
  destruct (_ <? _)%Z eqn:E1; [done|]. apply enough_hours in E1.
  set (gap := match missingRollupHours marks start (stop - Hour)%Z 1 with h :: _ => h | [] => stop end).
  destruct (Z.quot (TSub gap start) Hour <? rollupMinHours)%Z eqn:E2; [done|]. apply enough_hours in E2.
  assert (∃ m : nat, stop = (start + Z.of_nat m * Hour)%Z) as (m & Em).
  { exists (Z.to_nat ((stop - start) / Hour)). unfold aligned in *. apply Z.div_exact in Has, Hae; [|done..].
    assert (stop - start = (stop / Hour - start / Hour) * Hour)%Z as E by lia. rewrite E, Z.div_mul by done.
    assert (0 ≤ stop / Hour - start / Hour)%Z by (unfold Hour, Minute, Second in *; lia). rewrite Z2Nat.id by done. lia. }
  assert ((stop - Hour - start) / Hour = Z.of_nat m - 1)%Z as Hd.
  { replace (stop - Hour - start)%Z with ((Z.of_nat m - 1) * Hour)%Z by lia. by rewrite Z.div_mul. }
  intros [= <-]. split; cbn [sp_start sp_end].
  - intros r. unfold column_filters.
    repeat match goal with H : _ = "" |- _ => rewrite H; clear H end. 
    match goal with H : bool_decide _ = false |- _ => apply bool_decide_eq_false in H end. by destruct (Q_Object q); [exfalso; eauto|].
  - unfold IsZero in *. bool_hyps. done.
  - done.
  - unfold gap. destruct (missingRollupHours _ _ _ _) as [|h l] eqn:M.
    + exists m. split; [done|]. intros i Hi. apply (missing_none _ _ _ M). rewrite Hd. lia.
    + apply missing_first in M as (i & -> & _ & Hall). eauto.
  - split; [unfold Hour, Minute, Second in *; lia|]. unfold gap in *. destruct (missingRollupHours _ _ _ _) as [|h l] eqn:M; [done|].
    apply missing_first in M as (i & -> & Hi & _). rewrite Hd in Hi. unfold Hour, Minute, Second in *. lia.
Qed.

(** ** Groups from counts are groups from events *)

Definition visible (r : AuditRow) : bool := negb (ar_silenced r).

(** Where a search that uses counts starts: the events of less than a
    microsecond before the first hour are not looked at. *)
Definition edge_from (q : AuditEventQuery) (span : rollupSpan) : Time :=
  if Before (sp_start span - Microsecond)%Z (Q_From q) then sp_start span else Q_From q.

Lemma where_plain marks q span lo hi r : span_ok marks q span → (0 < lo)%Z → (0 < hi)%Z →
  auditWhereWith ilike visible (with_range q lo hi) r
  = ((pg lo <=? ar_ts r) && (ar_ts r <=? pg hi))%Z && negb (ar_silenced r)
    && userResultFilters ilike q (auditDanger r) (ar_user r) (ar_allowed r).
Proof.
  intros Hok Hlo Hhi. rewrite where_range, (so_filters _ _ _ Hok). unfold in_range, IsZero, visible. cbn [Q_From Q_To with_range].
  destruct (Z.eqb_spec lo 0); [lia|]. destruct (Z.eqb_spec hi 0); [lia|]. cbn [orb andb].
  destruct ((pg lo <=? ar_ts r)%Z && (ar_ts r <=? pg hi)%Z); [|done]. cbn [andb]. apply andb_comm.
Qed.

(** The events of whole hours and those after them. *)
Definition mid_rows (q : AuditEventQuery) (span : rollupSpan) (rows : list AuditRow) : list AuditRow :=
  List.filter (λ r, ts_in (sp_start span) (sp_end span) r && negb (ar_silenced r)
    && userResultFilters ilike q (auditDanger r) (ar_user r) (ar_allowed r)) rows.

Definition range_rows (q : AuditEventQuery) (lo hi : Time) (rows : list AuditRow) : list AuditRow :=
  List.filter (auditWhereWith ilike visible (with_range q lo hi)) rows.

Lemma tail_split marks q span rows : span_ok marks q span → (0 < Q_From q)%Z → aligned (sp_end span) →
  range_rows q (sp_start span) (Q_To q) rows ≡ₚ mid_rows q span rows ++ range_rows q (sp_end span) (Q_To q) rows.
Proof.
  intros Hok Hf Hae. destruct (so_start _ _ _ Hok) as [Has Hs]. pose proof (so_end _ _ _ Hok) as He.
  pose proof (pg_mono (sp_end span) (Q_To q) ltac:(lia)) as Hpt. rewrite (aligned_pg _ Hae) in Hpt.
  apply filter_perm_split; intros r Hr; rewrite !(where_plain marks q span) by (done || lia);
    rewrite (aligned_pg _ Hae), ?(aligned_pg _ Has); unfold ts_in; rewrite <-!andb_assoc;
    destruct (Z.leb_spec (sp_start span) (ar_ts r)), (Z.ltb_spec (ar_ts r) (sp_end span)),
      (Z.leb_spec (sp_end span) (ar_ts r)), (Z.leb_spec (ar_ts r) (pg (Q_To q)));
    cbn [andb orb]; try lia; by rewrite ?orb_false_r, ?andb_false_r.
Qed.

Lemma head_split marks q span rows : span_ok marks q span → (0 < Q_From q)%Z →
  (Q_From q ≤ sp_start span - Microsecond)%Z → (∀ r, r ∈ rows → pg (ar_ts r) = ar_ts r) →
  range_rows q (Q_From q) (Q_To q) rows
  ≡ₚ range_rows q (sp_start span) (Q_To q) rows ++ range_rows q (Q_From q) (sp_start span - Microsecond)%Z rows.
Proof.
  intros Hok Hf Hhead Hgrid. destruct (so_start _ _ _ Hok) as [Has Hs]. pose proof (so_end _ _ _ Hok) as He.
  pose proof (aligned_pg _ Has) as Hps. pose proof (pg_mono (Q_From q) (sp_start span) ltac:(lia)) as Hpf.
  pose proof (pg_mono (sp_start span) (Q_To q) ltac:(lia)) as Hpt. assert (0 < Microsecond)%Z as Hmu by done.
  assert (∀ r, r ∈ rows → (ar_ts r < sp_start span)%Z → (ar_ts r ≤ sp_start span - Microsecond)%Z) as Hcut.
  { intros r Hr Hlt. pose proof (pg_next (ar_ts r) _ (Hgrid r Hr) Hps Hlt). lia. }
  apply filter_perm_split; intros r Hr; specialize (Hcut r Hr); rewrite !(where_plain marks q span) by (done || lia);
    rewrite pg_back, Hps, <-!andb_assoc;
    destruct (Z.leb_spec (pg (Q_From q)) (ar_ts r)), (Z.leb_spec (sp_start span) (ar_ts r)),
      (Z.leb_spec (ar_ts r) (pg (Q_To q))), (Z.leb_spec (ar_ts r) (sp_start span - Microsecond));
    cbn [andb orb]; try lia; by rewrite ?orb_false_r, ?andb_false_r.
Qed.

Lemma rollup_parts rows hourly marks q span :
  span_ok marks q span → (0 < Q_From q)%Z →
  (∀ r, r ∈ rows → pg (ar_ts r) = ar_ts r) → (∀ x, x ∈ hourly → aligned (hr_hour x)) →
  (∀ h, h ∈ marks → counted rows hourly h) →
  parts_eq (map hour_part (List.filter (rollupWhere ilike q span) hourly)
            ++ concat (map (λ p, map row_part (List.filter (auditWhereWith ilike visible p) rows)) (rollupEdges q span)))
           (map row_part (range_rows q (edge_from q span) (Q_To q) rows)).
Proof.
  intros Hok Hf Hgrid Hal Hc. destruct (so_start _ _ _ Hok) as [Has Hs].
  destruct (so_hours _ _ _ Hok) as (n & En & Hmarks). pose proof (so_end _ _ _ Hok) as He.
  assert (aligned (sp_end span)) as Hae by (rewrite En; by apply aligned_add).
  assert (parts_eq (map hour_part (List.filter (rollupWhere ilike q span) hourly)) (map row_part (mid_rows q span rows))) as ->.
  { unfold mid_rows. destruct span as [start stop]. cbn [sp_start sp_end] in *. rewrite En.
    apply span_parts; [done..|]. intros i Hi. by apply Hc, Hmarks. }
  pose proof (tail_split marks q span rows Hok Hf Hae) as Htail.
  unfold rollupEdges, edge_from. cbn [List.filter Q_From Q_To with_range].
  assert (negb (Before (Q_To q) (sp_end span)) = true) as -> by (unfold Before; apply negb_true_iff, Z.ltb_ge; lia).
  unfold Before. destruct (Z.ltb_spec (sp_start span - Microsecond) (Q_From q)) as [Hno|Hhead]; cbn [negb map concat];
    rewrite app_nil_r; fold (range_rows q (sp_end span) (Q_To q) rows).
  - rewrite <-map_app. apply parts_eq_perm, Permutation_map. by rewrite Htail.
  - fold (range_rows q (Q_From q) (sp_start span - Microsecond)%Z rows). rewrite app_assoc, <-!map_app.
    apply parts_eq_perm, Permutation_map. rewrite (head_split marks q span rows), Htail by done.
    rewrite <-!app_assoc. apply Permutation_app_head, Permutation_app_comm.
Qed.

(** A search by user answered from counts is one answered from the events. *)
Lemma groups_from_counts rows hourly marks q span limit offset :
  span_ok marks q span → (0 < Q_From q)%Z →
  (∀ r, r ∈ rows → pg (ar_ts r) = ar_ts r) → (∀ x, x ∈ hourly → aligned (hr_hour x)) →
  (∀ h, h ∈ marks → counted rows hourly h) →
  rollupUserGroups ilike visible rows hourly q span limit offset
  = rawUserGroups ilike visible rows (with_range q (edge_from q span) (Q_To q)) limit offset.
Proof.
  intros Hok Hf Hgrid Hal Hc. unfold rollupUserGroups, rawUserGroups. f_equal. apply groups_sorted.
  by eapply rollup_parts.
Qed.

(** ** The number of events *)

Lemma of_key_decide k xs : of_key k xs = List.filter (λ x, bool_decide (x_k x = k)) xs.
Proof.
  unfold of_key. apply filter_ext_elem. intros x _. destruct (String.eqb_spec (x_k x) k); symmetry;
    [by apply bool_decide_eq_true|by apply bool_decide_eq_false].
Qed.

Lemma parts_total xs ys : parts_eq xs ys → zsum (map x_n xs) = zsum (map x_n ys).
Proof.
  intros H. set (ks := remove_dups (map x_k xs)).
  assert (NoDup ks) as Hnd by apply NoDup_remove_dups.
  rewrite <-(zsum_all_classes x_k x_n xs ks), <-(zsum_all_classes x_k x_n ys ks); [|done| |done|].
  - f_equal. apply map_ext. intros k. rewrite <-!of_key_decide. apply (pe_n _ _ H).
  - intros y Hy. apply elem_of_remove_dups, (pe_keys _ _ H), list_elem_of_fmap. eauto.
  - intros x Hx. apply elem_of_remove_dups, list_elem_of_fmap. eauto.
Qed.

Lemma histogram_total bucket buckets ls : (∀ l, l ∈ ls → (0 ≤ bucket l.1.1)%Z) → (0 < buckets)%Z →
  zsum (map (λ c, c.2.1) (List.filter (λ c, (0 <=? c.1)%Z && (c.1 <? buckets)%Z) (histogram bucket buckets ls)))
  = zsum (map (λ l, l.1.2) ls).
Proof.
  intros Hb Hn. unfold histogram. set (num := λ l : hline, Z.min (buckets - 1) (bucket l.1.1)).
  rewrite (filter_ext_elem _ (λ _, true)), filter_true.
  - rewrite map_map. cbn [fst snd]. etrans; [|apply (zsum_all_classes num (λ l, l.1.2) ls (remove_dups (map num ls)))].
    + f_equal. apply map_ext. intros b. f_equal. f_equal. apply filter_ext_elem. intros l _. fold (num l).
      destruct (Z.eqb_spec (num l) b); symmetry; [by apply bool_decide_eq_true|by apply bool_decide_eq_false].
    + apply NoDup_remove_dups.
    + intros l Hl. apply elem_of_remove_dups, list_elem_of_fmap. eauto.
  - intros c (b & -> & Hin)%list_elem_of_fmap. apply elem_of_remove_dups, list_elem_of_fmap in Hin as (l & -> & Hl).
    cbn [fst]. specialize (Hb l Hl). apply andb_true_iff. rewrite Z.leb_le, Z.ltb_lt. unfold num. lia.
Qed.

Lemma lines_total (xs : list AuditRow) : zsum (map (λ l : hline, l.1.2) (map row_line xs)) = zsum (map x_n (map row_part xs)).
Proof. by rewrite !map_map. Qed.
End read.
