(* ===== verification/AuditRollupRun.v ===== *)
(** * Hourly counts under concurrent writers

    Transactions that write audit events, the refresher that counts hours and
    the retention sweep, interleaved as the advisory locks of an hour allow:
    writers share the lock of an hour from the moment they drop its mark until
    they commit, the refresher has it alone. *)

From Stdlib Require Import Ascii.
From stdpp Require Import base list gmap strings sorting relations.
From S2P Require Import Prelude GoStrings AuditRules AuditEngine AuditQuery AuditQueryProps AuditSilence AuditStore AuditRollup AuditRollupRead.
Local Open Scope string_scope.
Local Open Scope list_scope.
Local Open Scope go_scope.

(** The operations of a transaction. *)
Inductive op :=
| OInsert (items : list AuditEventInsert)
| OEnrich (en : AuditEnrichment)
| OMerge (adm : Event) (around : Time)
| OMeta (uid : string) (around : Time) (seen : Event) (attribution : string)
| OMark (row : AuditRow) (uid ruleID sev : string)
| OCreate (s : AuditSilence) (duration : Duration)
| OEnd (id : Z)
| ODelete (id : Z).

Section run.
Context {T : CaseTables} {D : DbTime} {C : Collation} {M : MapOrder}.

(** The tables after an operation, and the times it invalidates. *)
Definition exec (e : Env) (o : op) (tb : Tables) : Tables * list Time :=
  match o with
  | OInsert items => InsertAuditEvents e items tb
  | OEnrich en => (EnrichAuditEvent e en tb).1
  | OMerge adm around => (MergeAdmissionDetails e adm around tb).1
  | OMeta uid around seen attribution => (MergeAuditObjectMeta uid around seen attribution tb, [])
  | OMark row uid ruleID sev => MarkAuditEventRule row uid ruleID sev tb
  | OCreate s duration => ((CreateAuditSilence e s duration tb).1, [])
  | OEnd id => ((EndAuditSilence e id tb).1, [])
  | ODelete id => (DeleteAuditSilence e id tb).1
  end.

(** The operations of a transaction in order; the hours whose marks it drops. *)
Fixpoint exec_all (ops : list (Env * op)) (tb : Tables) : Tables * list Time :=
  match ops with
  | [] => (tb, [])
  | (e, o) :: ops =>
      let '(tb, stamps) := exec e o tb in
      let '(tb, hours) := exec_all ops tb in
      (tb, (if e_rollups e then rollup_hours (e_now e) [] stamps else []) ++ hours)
  end.

(** The refresher in the middle of an hour: what it counted, once it did. *)
Record build := { b_hour : Time; b_counts : option (list HourRow) }.

Record RState := {
  s_tables : Tables;
  s_hourly : list HourRow;
  s_marks : list Time;
  s_now : Time;
  s_locked : list (list Time);
  s_build : option build;
}.

Definition start (now : Time) : RState :=
  {| s_tables := {| t_rows := []; t_silences := []; t_hidden := []; t_next := 1%Z |}; s_hourly := []; s_marks := [];
     s_now := now; s_locked := []; s_build := None |}.

Definition drop_marks (hours marks : list Time) : list Time := List.filter (λ h, negb (any (Z.eqb h) hours)) marks.

(** The end of [rebuildRollupHour]: the old counts go, the new ones and the
    mark come. *)
Definition put_hour (h : Time) (counts hourly : list HourRow) : list HourRow :=
  List.filter (λ x, negb (hr_hour x =? h)%Z) hourly ++ counts.

(** [sweepOnce] on these tables, for a known retention: silenced events and
    silences, counts and marks, then the partitions, of an hour each. *)
Definition sweep_cutoff (now : Time) (retention : Duration) : Time := (pg now - retention / Second * Second)%Z.
Definition partition_kept (now : Time) (retention : Duration) (r : AuditRow) : bool :=
  (hourOf (pg now) - (Z.quot retention Hour + 2) * Hour <? hourOf (ar_ts r) + Hour)%Z.

Definition sweepOnce (e : Env) (s : RState) : RState :=
  let old := sweep_cutoff (s_now s) (e_retention e) in
  let tb := sweepAuditSilences e (s_tables s) in
  {| s_tables := set_rows tb (List.filter (partition_kept (s_now s) (e_retention e)) (t_rows tb));
     s_hourly := List.filter (λ x, (old <=? hr_hour x)%Z) (s_hourly s);
     s_marks := List.filter (λ h, (old <=? h)%Z) (s_marks s);
     s_now := s_now s; s_locked := s_locked s; s_build := s_build s |}.

(** The events a transaction inserts are not stored yet: the engine takes each
    once. *)
Definition fresh_uids (items : list AuditEventInsert) (tb : Tables) : Prop :=
  NoDup (omap ar_uid (t_rows tb) ++ omap (λ it, nullable (E_ID (it_Event it))) items).

Fixpoint ops_fresh (ops : list (Env * op)) (tb : Tables) : Prop :=
  match ops with
  | [] => True
  | (e, o) :: ops => match o with OInsert items => fresh_uids items tb | _ => True end ∧ ops_fresh ops (exec e o tb).1
  end.

(** A service that has seen the tables, with a clock between 1970 and 2116 and
    a time of retention that does not reach back before 1970. *)
Definition env_ok (e : Env) : Prop :=
  (e_rollups e = true ∧ 0 ≤ e_retention e ≤ e_now e - unixEpoch ∧ e_now e < horizon)%Z.

Inductive step : RState → RState → Prop :=
| step_tick s now : (s_now s ≤ now)%Z →
    step s {| s_tables := s_tables s; s_hourly := s_hourly s; s_marks := s_marks s; s_now := now;
              s_locked := s_locked s; s_build := s_build s |}
(** [dropRollupMarks] waits until the refresher has left the hours. *)
| step_lock s hours : (∀ b, s_build s = Some b → b_hour b ∉ hours) →
    step s {| s_tables := s_tables s; s_hourly := s_hourly s; s_marks := s_marks s; s_now := s_now s;
              s_locked := hours :: s_locked s; s_build := s_build s |}
(** A transaction commits with the hours it holds: within a minute, by the two
    clocks, of the moments its operations looked at the clock. *)
| step_commit s ops hours before after :
    s_locked s = before ++ hours :: after → ops_fresh ops (s_tables s) →
    Forall (λ eo, env_ok eo.1 ∧ (s_now s < e_now eo.1 + rollupClockSkew)%Z) ops →
    (∀ h, h ∈ (exec_all ops (s_tables s)).2 → h ∈ hours) →
    step s {| s_tables := (exec_all ops (s_tables s)).1; s_hourly := s_hourly s; s_marks := drop_marks hours (s_marks s);
              s_now := s_now s; s_locked := before ++ after; s_build := s_build s |}
| step_rollback s hours before after : s_locked s = before ++ hours :: after →
    step s {| s_tables := s_tables s; s_hourly := s_hourly s; s_marks := s_marks s; s_now := s_now s;
              s_locked := before ++ after; s_build := s_build s |}
(** The refresher takes an hour of the list it made at an earlier time. *)
| step_build s h read retention marks :
    s_build s = None → (read ≤ s_now s)%Z → h ∈ refresh_tasks read retention marks →
    (∀ hours, hours ∈ s_locked s → h ∉ hours) →
    step s {| s_tables := s_tables s; s_hourly := s_hourly s; s_marks := s_marks s; s_now := s_now s;
              s_locked := s_locked s; s_build := Some {| b_hour := h; b_counts := None |} |}
| step_count s b : s_build s = Some b →
    step s {| s_tables := s_tables s; s_hourly := s_hourly s; s_marks := s_marks s; s_now := s_now s;
              s_locked := s_locked s;
              s_build := Some {| b_hour := b_hour b; b_counts := Some (count_hour (b_hour b) (t_rows (s_tables s))) |} |}
| step_built s b counts : s_build s = Some b → b_counts b = Some counts →
    step s {| s_tables := s_tables s; s_hourly := put_hour (b_hour b) counts (s_hourly s);
              s_marks := b_hour b :: drop_marks [b_hour b] (s_marks s); s_now := s_now s;
              s_locked := s_locked s; s_build := None |}
| step_unbuilt s :
    step s {| s_tables := s_tables s; s_hourly := s_hourly s; s_marks := s_marks s; s_now := s_now s;
              s_locked := s_locked s; s_build := None |}
(** A partition that the refresher has read is not dropped before it commits. *)
| step_sweep s e : (0 ≤ e_retention e)%Z →
    (∀ b, s_build s = Some b → b_counts b ≠ None →
       ∀ r, r ∈ t_rows (s_tables s) → in_hour (b_hour b) r = true → partition_kept (s_now s) (e_retention e) r = true) →
    step s (sweepOnce e s).

End run.
