(* ===== verification/AuditRollupProps.v ===== *)
(** * Hourly counts are exact

    However writers, the refresher and the sweep interleave, the counts of every
    marked hour are those of its events, so that a search answered from counts
    gives the groups that the events give. *)

From Stdlib Require Import Ascii.
From stdpp Require Import base list gmap strings sorting relations.
From S2P Require Import Prelude GoStrings AuditRules AuditEngine AuditQuery AuditQueryProps AuditSilence AuditStore AuditRollup AuditRollupRead AuditRollupRun.
Local Open Scope string_scope.
Local Open Scope list_scope.
Local Open Scope go_scope.

Lemma Forall2_left {A B} (P : A → B → Prop) l k x : Forall2 P l k → x ∈ l → ∃ y, y ∈ k ∧ P x y.
Proof.
  induction 1 as [|a b l k Hab _ IH]; intros Hx; [by apply not_elem_of_nil in Hx|].
  apply elem_of_cons in Hx as [->|Hx]; [exists b; split; [by left|done]|].
  destruct (IH Hx) as (y & ? & ?). exists y. split; [by right|done].
Qed.

Lemma Forall2_right {A B} (P : A → B → Prop) l k y : Forall2 P l k → y ∈ k → ∃ x, x ∈ l ∧ P x y.
Proof. intros H%Forall2_flip Hy. destruct (Forall2_left _ _ _ _ H Hy) as (x & ? & ?). eauto. Qed.

Section props.
Context {T : CaseTables} {D : DbTime} {C : Collation} {M : MapOrder} (ilike : string → string → bool).

(** ** What an hour is counted from *)

Definition sel (h : Time) (rows : list AuditRow) : list AuditRow := List.filter (λ r, in_hour h r && negb (ar_silenced r)) rows.

(** Rows that count the same. *)
Definition sim (a b : AuditRow) : Prop := hour_key a = hour_key b ∧ ar_ts a = ar_ts b ∧ ar_ip a = ar_ip b.

Global Instance sim_refl : Reflexive sim.
Proof. by intros a. Qed.
Global Instance sim_trans : Transitive sim.
Proof. unfold sim. intros a b c (?&?&?) (?&?&?). split_and!; congruence. Qed.

Lemma sim_map {B} (f : AuditRow → B) rs rs' : (∀ a b, sim a b → f a = f b) → Forall2 sim rs rs' → map f rs = map f rs'.
Proof. intros Hf. induction 1; cbn [map]; f_equal; eauto. Qed.

Lemma sim_class rs rs' k : Forall2 sim rs rs' → Forall2 sim (of_class k rs) (of_class k rs').
Proof.
  unfold of_class. induction 1 as [|a b rs rs' Hab _ IH]; cbn [List.filter]; [done|].
  destruct Hab as (Hk & Ht & Hi). rewrite Hk. destruct (bool_decide _); [|done]. by constructor.
Qed.

Lemma count_sim h rows rows' : Forall2 sim (sel h rows) (sel h rows') → count_hour h rows = count_hour h rows'.
Proof.
  intros H. unfold count_hour. fold (sel h rows) (sel h rows').
  rewrite (sim_map hour_key _ _ (λ a b H, proj1 H) H). apply map_ext. intros k. unfold hour_row.
  fold (of_class k (sel h rows)) (of_class k (sel h rows')). apply (sim_class _ _ k) in H.
  rewrite (Forall2_length _ _ _ H). f_equal.
  - unfold max_ts. by rewrite (sim_map ar_ts _ _ (λ a b H, proj1 (proj2 H)) H).
  - unfold ips_of. f_equal. f_equal. induction H as [|a b l l' (_ & _ & Hi) _ IH]; [done|]. cbn. by rewrite Hi, IH.
Qed.

Lemma sim_all rs : Forall2 sim rs rs.
Proof. induction rs; by constructor. Qed.

Lemma in_hour_of h r : aligned h → in_hour h r = (hourOf (ar_ts r) =? h)%Z.
Proof.
  intros Ha. destruct (hourOf_spec (ar_ts r)) as [Ho Hr]. unfold in_hour.
  destruct (Z.eqb_spec (hourOf (ar_ts r)) h) as [<-|Hne].
  - apply andb_true_iff. rewrite Z.leb_le, Z.ltb_lt. lia.
  - apply andb_false_iff. rewrite Z.leb_gt, Z.ltb_ge.
    destruct (Z.lt_ge_cases (ar_ts r) h); [by left|]. right.
    destruct (Z.le_gt_cases (h + Hour) (ar_ts r)); [done|]. destruct Hne.
    unfold aligned in *. apply Z.div_exact in Ho, Ha; [|done..].
    assert (hourOf (ar_ts r) / Hour = h / Hour)%Z; [|congruence]. unfold Hour, Minute, Second in *. lia.
Qed.

(** ** Changes of rows *)

(** A change that keeps what identifies a row. *)
Definition keeps (f : AuditRow → AuditRow) : Prop := ∀ r, ar_id (f r) = ar_id r ∧ ar_uid (f r) = ar_uid r ∧ ar_ts (f r) = ar_ts r.

Lemma flag_keeps b : keeps (flag b).
Proof. done. Qed.
Lemma enrich_keeps en : keeps (enrich_row en).
Proof. done. Qed.
Lemma merge_keeps f : keeps (merge_row f).
Proof. done. Qed.
Lemma mark_keeps a b : keeps (mark_row a b).
Proof. done. Qed.
Hint Resolve flag_keeps enrich_keeps merge_keeps mark_keeps : core.

Lemma update_map {B} (g : AuditRow → B) p f tb : (∀ r, g (f r) = g r) → map g (t_rows (update p f tb)) = map g (t_rows tb).
Proof. intros H. cbn. rewrite map_map. apply map_ext. intros r. destruct (p r); [apply H|done]. Qed.

Lemma update_sel p f tb h : aligned h → keeps f →
  (∀ r, r ∈ t_rows tb → p r = true → (sim (f r) r ∧ ar_silenced (f r) = ar_silenced r) ∨ hourOf (ar_ts r) ≠ h) →
  Forall2 sim (sel h (t_rows (update p f tb))) (sel h (t_rows tb)).
Proof.
  intros Ha Hk. unfold sel, update. cbn [t_rows AuditStore.set_rows]. induction (t_rows tb) as [|r rs IH]; intros H; [done|].
  cbn [map List.filter]. specialize (IH (λ r' Hr', H r' (list_elem_of_further _ _ _ Hr'))).
  destruct (p r) eqn:E; [|destruct (_ && _); [by constructor|done]].
  destruct (Hk r) as (_ & _ & Ht). rewrite !(in_hour_of h) by done. rewrite Ht.
  destruct (H r ltac:(by left) E) as [[Hs ->]|Hne].
  - destruct (_ && _); [by constructor|done].
  - apply Z.eqb_neq in Hne as ->. done.
Qed.

(** ** What the table of events keeps *)

Record rows_ok (tb : Tables) : Prop := {
  ro_ids : NoDup (map ar_id (t_rows tb));
  ro_next : ∀ r, r ∈ t_rows tb → (ar_id r < t_next tb)%Z;
  ro_uids : NoDup (omap ar_uid (t_rows tb));
  ro_grid : ∀ r, r ∈ t_rows tb → pg (ar_ts r) = ar_ts r;
  ro_range : ∀ r, r ∈ t_rows tb → (unixEpoch ≤ ar_ts r < unixEpoch + 2 ^ 63)%Z;
}.

Lemma omap_map_uid rs : omap ar_uid rs = omap id (map ar_uid rs).
Proof. induction rs as [|r rs IH]; [done|]. cbn. rewrite IH. by destruct (ar_uid r). Qed.

Lemma rows_ok_update p f tb : keeps f → rows_ok tb → rows_ok (update p f tb).
Proof.
  intros Hk [Hi Hn Hu Hg Hr].
  assert (∀ r, r ∈ t_rows (update p f tb) → ∃ r', r' ∈ t_rows tb ∧ ar_id r = ar_id r' ∧ ar_ts r = ar_ts r') as Hback.
  { intros r (r' & -> & Hr')%list_elem_of_fmap. exists r'. destruct (p r'); [|done]. by destruct (Hk r') as (? & ? & ?). }
  split.
  - rewrite update_map; [done|apply Hk].
  - intros r (r' & ? & -> & _)%Hback. by apply Hn.
  - rewrite omap_map_uid, update_map, <-omap_map_uid; [done|apply Hk].
  - intros r (r' & ? & _ & ->)%Hback. by apply Hg.
  - intros r (r' & ? & _ & ->)%Hback. by apply Hr.
Qed.

(** The table is as before, the sequence may have moved. *)
Lemma rows_ok_same tb tb' : t_rows tb' = t_rows tb → (t_next tb ≤ t_next tb')%Z → rows_ok tb → rows_ok tb'.
Proof. intros E Hle [Hi Hn Hu Hg Hr]. split; rewrite E; try done. intros r H. specialize (Hn r H). lia. Qed.

Lemma uid_unique tb r r' u : rows_ok tb → r ∈ t_rows tb → r' ∈ t_rows tb → ar_uid r = Some u → ar_uid r' = Some u → r = r'.
Proof.
  intros Hok Hr Hr' E E'. pose proof (ro_uids _ Hok) as Hu. revert Hr Hr' Hu. generalize (t_rows tb). intros rs.
  induction rs as [|x rs IH]; intros Hr Hr' Hu; [by apply not_elem_of_nil in Hr|].
  assert (∀ y, y ∈ rs → ar_uid y = Some u → u ∈ omap ar_uid rs) as Hin.
  { intros y Hy Ey. apply list_elem_of_omap. eauto. }
  cbn in Hu. apply elem_of_cons in Hr as [->|Hr], Hr' as [->|Hr']; [done|..].
  - rewrite E in Hu. apply NoDup_cons in Hu as [Hu _]. destruct Hu. eauto.
  - rewrite E' in Hu. apply NoDup_cons in Hu as [Hu _]. destruct Hu. eauto.
  - apply IH; [done..|]. destruct (ar_uid x); [by apply NoDup_cons in Hu as [_ ?]|done].
Qed.

(** ** The hours of times *)

Lemma hourOf_range t : (unixEpoch ≤ t < unixEpoch + 2 ^ 63)%Z → (unixEpoch ≤ hourOf t < unixEpoch + 2 ^ 63)%Z.
Proof.
  intros H. unfold hourOf. pose proof (Z.mul_div_le t Hour). pose proof (Z.div_le_mono unixEpoch t Hour).
  replace (unixEpoch / Hour)%Z with 17259888%Z in * by done.
  assert (unixEpoch = 17259888 * Hour)%Z as E by done. unfold Hour, Minute, Second in *. lia.
Qed.

Lemma hourKey_inj a b : aligned a → aligned b → (unixEpoch ≤ a < unixEpoch + 2 ^ 63)%Z → (unixEpoch ≤ b < unixEpoch + 2 ^ 63)%Z → hourKey a = hourKey b → a = b.
Proof.
  unfold aligned, hourKey, Unix. intros Ha Hb Ra Rb. assert (unixEpoch = 17259888 * Hour)%Z as Eu by done.
  apply Z.div_exact in Ha, Hb; [|done..].
  assert (∀ x, x = Hour * (x / Hour) → unixEpoch ≤ x < unixEpoch + 2 ^ 63 →
    Z.quot ((x - unixEpoch) / Second) 3600 = x / Hour - 17259888 ∧ 0 ≤ x / Hour - 17259888 < 2 ^ 31)%Z as Hk.
  { intros x Hx Rx. assert (0 ≤ x / Hour - 17259888 < 2 ^ 31)%Z by (unfold Hour, Minute, Second in *; lia).
    split; [|done]. rewrite Z.quot_div_nonneg by (first [lia|apply Z.div_pos; unfold Second; lia]).
    rewrite Z.div_div by done. change (Second * 3600)%Z with Hour.
    symmetry; apply Z.div_unique_exact; [done|lia]. }
  destruct (Hk a Ha Ra) as [-> ?], (Hk b Hb Rb) as [-> ?].
  rewrite !Z.mod_small by lia. intros E. assert (a / Hour = b / Hour)%Z as E' by lia. congruence.
Qed.

Lemma rollup_hours_elem now seen stamps ts :
  Forall (λ t, unixEpoch ≤ t < unixEpoch + 2 ^ 63)%Z stamps → ts ∈ stamps → rollupBuildable (hourOf ts) now = true →
  hourKey (hourOf ts) ∈ seen ∨ hourOf ts ∈ rollup_hours now seen stamps.
Proof.
  intros Hr. revert seen. induction Hr as [|t stamps Ht Hr IH]; intros seen Hin Hb; [by apply not_elem_of_nil in Hin|].
  rewrite Forall_forall in Hr. cbn [rollup_hours].
  assert (∀ t', t' = t ∨ t' ∈ stamps → (unixEpoch ≤ t' < unixEpoch + 2 ^ 63)%Z) as Hall by (intros t' [->|]; auto).
  apply elem_of_cons in Hin. specialize (Hall ts Hin). destruct Hin as [->|Hin].
  - rewrite Hb. cbn [andb]. destruct (any _ seen) eqn:E; cbn [negb]; [|right; by left].
    left. apply any_true in E as (k & Hk & Ek). by apply Z.eqb_eq in Ek as ->.
  - destruct (_ && _).
    + destruct (IH (hourKey (hourOf t) :: seen) Hin Hb) as [[E|?]%elem_of_cons|?]; [|by left|right; by right].
      right. apply elem_of_cons. left. apply hourKey_inj; [apply hourOf_spec|apply hourOf_spec|by apply hourOf_range..|done].
    + by apply IH.
Qed.


(** ** The operations *)

(** An operation keeps the table, and what settled hours are counted from
    unless it drops their marks. *)
Definition covers (e : Env) (tb tb' : Tables) (stamps : list Time) : Prop :=
  ∀ h, aligned h → rollupBuildable h (e_now e) = true → h ∉ rollup_hours (e_now e) [] stamps →
  Forall2 sim (sel h (t_rows tb')) (sel h (t_rows tb)).

Lemma covers_same e tb tb' stamps : t_rows tb' = t_rows tb → covers e tb tb' stamps.
Proof. intros E h _ _ _. rewrite E. apply sim_all. Qed.

(** An hour whose mark stays has none of the times. *)
Lemma not_stamped now stamps h : Forall (λ t, unixEpoch ≤ t < unixEpoch + 2 ^ 63)%Z stamps →
  rollupBuildable h now = true → h ∉ rollup_hours now [] stamps → ∀ ts, ts ∈ stamps → hourOf ts ≠ h.
Proof.
  intros Hr Hb Hn ts Hts <-. destruct (rollup_hours_elem now [] stamps ts Hr Hts Hb) as [H|H]; [by apply not_elem_of_nil in H|done].
Qed.

Lemma covers_trans e tb1 tb2 tb3 s s' stamps :
  covers e tb1 tb2 s → covers e tb2 tb3 s' →
  (∀ h, h ∈ rollup_hours (e_now e) [] s ∨ h ∈ rollup_hours (e_now e) [] s' → h ∈ rollup_hours (e_now e) [] stamps) →
  covers e tb1 tb3 stamps.
Proof.
  intros H1 H2 Hs h Ha Hb Hn. etrans; [apply H2; [done..|]|apply H1; [done..|]]; intros Hin; apply Hn, Hs; auto.
Qed.

Lemma store_rows e a b c d o ru se tb :
  t_rows (storeSilencedEvent e a b c d o ru se tb) = t_rows tb
  ∧ (t_next tb ≤ t_next (storeSilencedEvent e a b c d o ru se tb))%Z.
Proof. unfold storeSilencedEvent. destruct (any _ _); cbn; [done|]. split; [done|lia]. Qed.

Lemma update_stamped e p f tb ts : keeps f → (∀ r, r ∈ t_rows tb → p r = true → ar_ts r = ts) →
  (unixEpoch ≤ ts < unixEpoch + 2 ^ 63)%Z → covers e tb (update p f tb) [ts].
Proof.
  intros Hk Hp Hr h Ha Hb Hn. apply update_sel; [done..|]. intros r Hin E. right. rewrite (Hp r Hin E).
  apply (not_stamped (e_now e) [ts]); [by apply Forall_singleton|done|done|by left].
Qed.

Lemma silence_covers e row uid tb : rows_ok tb → (unixEpoch ≤ ar_ts row < unixEpoch + 2 ^ 63)%Z →
  let '(tb', stamps, _) := silenceStoredEvent e row uid tb in
  rows_ok tb' ∧ covers e tb tb' stamps ∧ (stamps = [] ∨ stamps = [ar_ts row]).
Proof.
  intros Hok Hr. unfold silenceStoredEvent. destruct (e_silences e); cbn [negb]; [|split_and!; [done|by apply covers_same|by left]].
  destruct (any _ (t_hidden tb)).
  { split_and!; [apply (rows_ok_same tb); [done|cbn; lia|done]|by apply covers_same|by left]. }
  destruct (_ =? 0)%Z; [split_and!; [done|by apply covers_same|by left]|].
  destruct (store_rows e (firstSilence (activeAuditSilences e tb) (ar_data row)) uid (ar_ts row) (ar_data row) (ar_origin row)
              (ar_rule row) (ar_sev row) tb) as [Es Hn].
  set (tb' := storeSilencedEvent _ _ _ _ _ _ _ _ _) in *.
  assert (rows_ok tb') as Hok' by (by apply (rows_ok_same tb)).
  destruct (e_rollups e); [|split_and!; [done|by apply covers_same|by left]]. split_and!; [by apply rows_ok_update| |by right].
  intros h Ha Hb Hnin. rewrite <-Es. refine (update_stamped e _ _ tb' (ar_ts row) _ _ Hr h Ha Hb Hnin); [done|].
  intros r _ E. unfold is_row in E. by bool_hyps.
Qed.

Lemma find_elem (p : AuditRow → bool) rs r : List.find p rs = Some r → r ∈ rs ∧ p r = true.
Proof. intros H. apply List.find_some in H as [H ?]. split; [by apply list_elem_of_In|done]. Qed.

Lemma join_unique tb p r r' u : rows_ok tb → (∀ x, p x = true → ar_uid x = Some u) →
  r ∈ t_rows tb → r' ∈ t_rows tb → p r = true → p r' = true → r = r'.
Proof. intros Hok Hp Hr Hr' E E'. eapply uid_unique; eauto. Qed.

Lemma rollup_hours_twice now ts : rollup_hours now [] [ts; ts] = rollup_hours now [] [ts].
Proof.
  cbn [rollup_hours]. destruct (rollupBuildable (hourOf ts) now); [|done]. cbn [andb any existsb negb orb].
  by rewrite Z.eqb_refl.
Qed.

(** Updating the one row with an identifier, then silencing it. *)
Lemma enrich_covers e p f uid tb row (always : bool) :
  rows_ok tb → keeps f → (∀ r, p r = true → ar_uid r = Some uid) →
  (if always then True else ∀ r, sim (f r) r ∧ ar_silenced (f r) = ar_silenced r) →
  List.find p (t_rows tb) = Some row →
  let '(tb', stamps, _) := silenceStoredEvent e (f row) uid (update p f tb) in
  rows_ok tb' ∧ covers e tb tb' (if always then ar_ts (f row) :: stamps else stamps).
Proof.
  intros Hok Hk Hp Hsim Hf. apply find_elem in Hf as [Hrow Erow]. pose proof (ro_range _ Hok row Hrow) as Hr.
  destruct (Hk row) as (_ & _ & Ht).
  pose proof (silence_covers e (f row) uid (update p f tb)) as Hs. rewrite Ht in Hs.
  specialize (Hs ltac:(by apply rows_ok_update) Hr).
  destruct (silenceStoredEvent e (f row) uid (update p f tb)) as [[tb' stamps] b]. destruct Hs as (Hok' & Hc & Hst).
  split; [done|]. rewrite Ht. destruct always.
  - eapply (covers_trans e tb (update p f tb) tb' [ar_ts row]); [|exact Hc|].
    + apply update_stamped; [done| |done]. intros r Hin E. by rewrite (join_unique tb p r row uid) by done.
    + intros h [H|H]; destruct Hst as [-> | ->]; rewrite ?rollup_hours_twice; try done. by apply not_elem_of_nil in H.
  - eapply (covers_trans e tb (update p f tb) tb' []); [|exact Hc|].
    + intros h Ha _ _. apply update_sel; [done..|]. intros r _ _. by left.
    + intros h [H|H]; [by apply not_elem_of_nil in H|done].
Qed.

(** ** Inserted events *)

Lemma hourOf_pg ts : hourOf (pg ts) = hourOf ts.
Proof.
  destruct (hourOf_spec (pg ts)) as [Ha Hr]. destruct (hourOf_spec ts) as [Hb Hr'].
  pose proof (pg_le ts). pose proof (pg_mono (hourOf ts) ts ltac:(lia)) as Hm. rewrite (aligned_pg _ Hb) in Hm.
  destruct (Z.le_gt_cases (hourOf ts) (hourOf (pg ts))); [|symmetry]; apply aligned_between; (done || lia).
Qed.

Definition item_uid (k : AuditEventInsert * Time * Z) : option string := nullable (E_ID (it_Event k.1.1)).

Lemma copy_rows e stored tb : rows_ok tb → Forall (λ k, unixEpoch ≤ k.1.2 < unixEpoch + 2 ^ 63)%Z stored →
  NoDup (omap ar_uid (t_rows tb) ++ omap item_uid stored) →
  rows_ok (foldl (copy_row e) tb stored) ∧
  ∃ new, t_rows (foldl (copy_row e) tb stored) = t_rows tb ++ new ∧
    Forall2 (λ r k, ∃ id, r = insert_row e k.2 id k.1.2 k.1.1) new stored.
Proof.
  revert tb. induction stored as [|k stored IH]; intros tb Hok Hr Hnd; cbn [foldl].
  { split; [done|]. exists []. rewrite app_nil_r. split; [done|constructor]. }
  apply Forall_cons in Hr as [Hk Hr]. set (r := insert_row e k.2 (t_next tb) k.1.2 k.1.1).
  assert (omap ar_uid (t_rows tb ++ [r]) ++ omap item_uid stored = omap ar_uid (t_rows tb) ++ omap item_uid (k :: stored)) as Eu.
  { rewrite omap_app, <-app_assoc. f_equal. cbn. unfold item_uid at 2. by destruct (nullable _). }
  assert (rows_ok (copy_row e tb k)) as Hok'.
  { destruct Hok as [Hi Hn Hu Hg Hrg].
    assert (∀ x, x ∈ t_rows (copy_row e tb k) ↔ x ∈ t_rows tb ∨ x = r) as Hin.
    { intros x. cbn. unfold snoc. by rewrite elem_of_app, list_elem_of_singleton. }
    split.
    - cbn. unfold snoc. rewrite map_app. apply NoDup_app. split_and!; [done| |apply NoDup_singleton].
      intros i (x & -> & Hx)%list_elem_of_fmap. cbn. rewrite list_elem_of_singleton. specialize (Hn x Hx). lia.
    - intros x [Hx| ->]%Hin; cbn; [specialize (Hn x Hx); lia|lia].
    - cbn. unfold snoc. fold r. rewrite <-Eu in Hnd. by apply NoDup_app in Hnd as (? & _ & _).
    - intros x [Hx| ->]%Hin; [by apply Hg|]. cbn. apply pg_idem.
    - intros x [Hx| ->]%Hin; [by apply Hrg|]. cbn. pose proof (pg_le k.1.2).
      pose proof (pg_mono unixEpoch k.1.2 ltac:(lia)) as H0. rewrite (pg_value unixEpoch) in H0.
      change (unixEpoch / Microsecond * Microsecond)%Z with unixEpoch in H0. lia. }
  destruct (IH (copy_row e tb k) Hok' Hr) as [Hok'' (new & En & Hnew)].
  { change (t_rows (copy_row e tb k)) with (t_rows tb ++ [r]). by rewrite Eu. }
  split; [done|]. exists (r :: new). split.
  - rewrite En. cbn. unfold snoc. by rewrite <-app_assoc.
  - constructor; [by eexists|done].
Qed.

Lemma hide_rows e stored tb :
  t_rows (foldl (hide_item e) tb stored) = t_rows tb ∧ (t_next tb ≤ t_next (foldl (hide_item e) tb stored))%Z.
Proof.
  revert tb. induction stored as [|[[it ts] si] stored IH]; intros tb; cbn [foldl]; [done|].
  destruct (IH (hide_item e tb (it, ts, si))) as [-> Hn]. unfold hide_item in *. destruct (si =? 0)%Z; [done|].
  destruct (store_rows e si (E_ID (it_Event it)) ts (it_Event it) (it_Origin it) (nullable (it_RuleID it)) (nullable (it_Sev it)) tb) as [-> ?].
  split; [done|]. lia.
Qed.

Lemma stored_range e tb items : env_ok e → Forall (λ k, unixEpoch ≤ k.1.2 < unixEpoch + 2 ^ 63)%Z (stored_items e tb items).
Proof.
  intros (_ & Hret & Hnow). unfold stored_items. apply Forall_forall. intros k (it & _ & Hit)%list_elem_of_omap.
  unfold partitionedTS, Before, After, TAdd in Hit. set (ts := if IsZero _ then _ else _) in Hit.
  destruct (Z.ltb_spec ts (e_now e + - e_retention e)); [done|].
  destruct (Z.ltb_spec (e_now e + Hour) ts); cbn in Hit; injection Hit as <-; cbn [fst snd];
    unfold horizon, Hour, Minute, Second in *; lia.
Qed.

Lemma stored_uids e tb items : omap item_uid (stored_items e tb items) `sublist_of` omap (λ it, nullable (E_ID (it_Event it))) items.
Proof.
  unfold stored_items. induction items as [|it items IH]; [done|].
  cbn [omap list_omap]. destruct (_ ≫= _) as [k|] eqn:E.
  - assert (item_uid k = nullable (E_ID (it_Event it))) as Ek.
    { destruct (partitionedTS _ _ _); [|done]. by injection E as <-. }
    cbn. rewrite Ek. destruct (nullable _); [by constructor|done].
  - destruct (nullable _); [by constructor|done].
Qed.

Lemma insert_covers e items tb : rows_ok tb → env_ok e → fresh_uids items tb →
  let '(tb', stamps) := InsertAuditEvents e items tb in rows_ok tb' ∧ covers e tb tb' stamps.
Proof.
  intros Hok He Hfresh. unfold InsertAuditEvents. set (stored := stored_items e tb items).
  pose proof (stored_range e tb items He) as Hr. fold stored in Hr.
  destruct (copy_rows e stored tb Hok Hr) as [Hok' (new & En & Hnew)].
  { eapply sublist_NoDup; [exact Hfresh|]. apply sublist_app; [done|]. apply stored_uids. }
  destruct (hide_rows e stored (foldl (copy_row e) tb stored)) as [Eh Hn]. split; [by eapply rows_ok_same|].
  intros h Ha Hb Hnin. rewrite Eh, En. unfold sel. rewrite List.filter_app.
  rewrite (filter_ext_elem _ (λ _, false) new), filter_false, app_nil_r; [apply sim_all|].
  intros r Hin. destruct (Forall2_left _ _ _ _ Hnew Hin) as (k & Hk & id & ->).
  rewrite in_hour_of by done. cbn [ar_ts insert_row]. rewrite hourOf_pg.
  assert (hourOf k.1.2 ≠ h) as Hne; [|by apply Z.eqb_neq in Hne as ->].
  apply (not_stamped (e_now e) (map (λ k, k.1.2) stored)); [|done..|].
  - apply Forall_map. exact Hr.
  - apply list_elem_of_fmap. eauto.
Qed.

(** ** Every operation *)

Lemma in_join_uid uid slack around r b : in_join uid slack around r && b = true → ar_uid r = Some uid.
Proof. unfold in_join. intros H. bool_hyps. by apply bool_decide_eq_true in H. Qed.

Lemma mark_covers e row uid ruleID sev tb : rows_ok tb →
  let '(tb', stamps) := MarkAuditEventRule row uid ruleID sev tb in rows_ok tb' ∧ covers e tb tb' stamps.
Proof.
  intros Hok. unfold MarkAuditEventRule.
  assert (rows_ok (update (is_row row) (mark_row ruleID sev) tb) ∧ covers e tb (update (is_row row) (mark_row ruleID sev) tb) [ar_ts row]) as [Hu Hc].
  { split; [by apply rows_ok_update|]. destruct (any (is_row row) (t_rows tb)) eqn:E.
    - apply any_true in E as (r & Hr & Er). unfold is_row in Er. bool_hyps.
      apply update_stamped; [done| |rewrite <-H0; by apply (ro_range _ Hok)].
      intros r' _ E'. unfold is_row in E'. by bool_hyps.
    - apply covers_same. cbn. rewrite any_false in E. rewrite <-(map_id (t_rows tb)) at 2. apply map_ext_in. intros r Hr.
      by rewrite E by (by apply list_elem_of_In). }
  destruct (ar_silenced row); [|done]. split; [|exact Hc]. apply (rows_ok_same (update (is_row row) (mark_row ruleID sev) tb)); [done|cbn; lia|done].
Qed.

Lemma unsilence_covers e silence tb : rows_ok tb →
  let '(tb', stamps) := unsilenceEvents silence tb in rows_ok tb' ∧ covers e tb tb' stamps.
Proof.
  intros Hok. unfold unsilenceEvents. split; [by apply rows_ok_update|]. intros h Ha Hb Hn.
  apply update_sel; [done..|]. intros r Hr E. right.
  eapply (not_stamped (e_now e)); [|exact Hb|exact Hn|].
  - apply Forall_forall. intros t (x & -> & Hx)%list_elem_of_fmap. apply list_elem_of_In, filter_In in Hx as [Hx _].
    apply (ro_range _ Hok). by apply list_elem_of_In.
  - apply list_elem_of_fmap. exists r. split; [done|]. apply list_elem_of_In, filter_In. by rewrite <-list_elem_of_In.
Qed.

Lemma exec_covers e o tb : rows_ok tb → env_ok e →
  match o with OInsert items => fresh_uids items tb | _ => True end →
  rows_ok (exec e o tb).1 ∧ covers e tb (exec e o tb).1 (exec e o tb).2.
Proof.
  intros Hok He Hf. destruct o as [items|en|adm around|uid around seen attr|row uid ruleID sev|sil dur|id|id]; cbn [exec].
  - pose proof (insert_covers e items tb Hok He Hf) as H. by destruct (InsertAuditEvents e items tb).
  - unfold EnrichAuditEvent. destruct (List.find _ _) as [row|] eqn:F; [|split; [done|by apply covers_same]].
    pose proof (enrich_covers e _ (enrich_row en) (EventUID en) tb row true Hok ltac:(done)
                  (λ r, in_join_uid _ _ _ r _) I F) as H.
    by destruct (silenceStoredEvent _ _ _ _) as [[tb' stamps] b].
  - unfold MergeAdmissionDetails. destruct (List.find _ _) as [row|] eqn:F; [|split; [done|by apply covers_same]].
    pose proof (enrich_covers e _ (merge_row (admitted_event adm)) (E_ID adm) tb row false Hok ltac:(done)
                  (λ r, in_join_uid _ _ _ r _) ltac:(by intros r) F) as H.
    by destruct (silenceStoredEvent _ _ _ _) as [[tb' stamps] b].
  - unfold MergeAuditObjectMeta. split; [by apply rows_ok_update|]. intros h Ha _ _. apply update_sel; [done..|].
    intros r _ _. by left.
  - pose proof (mark_covers e row uid ruleID sev tb Hok) as H. by destruct (MarkAuditEventRule row uid ruleID sev tb).
  - unfold CreateAuditSilence. destruct (Normalize sil) as [s|m]; [|split; [done|by apply covers_same]].
    destruct (_ || _); (split; [|by apply covers_same]); [done|]. apply (rows_ok_same tb); [done|cbn; lia|done].
  - split; [|by apply covers_same]. apply (rows_ok_same tb); [done|cbn; lia|done].
  - unfold DeleteAuditSilence. destruct He as [-> _]. pose proof (unsilence_covers e id tb Hok) as H.
    destruct (unsilenceEvents id tb) as [tb' stamps]. destruct H as [Hok' Hc]. split; [|exact Hc].
    apply (rows_ok_same tb'); [done|cbn; lia|done].
Qed.

(** A transaction: what is counted from changes only in hours it holds or that
    are younger than any hour that can be counted. *)
Lemma exec_all_covers now ops tb : rows_ok tb → ops_fresh ops tb →
  Forall (λ eo, env_ok eo.1 ∧ (now < e_now eo.1 + rollupClockSkew)%Z) ops →
  rows_ok (exec_all ops tb).1 ∧
  ∀ h, aligned h → (h + Hour + rollupSettle ≤ now)%Z → h ∉ (exec_all ops tb).2 →
  Forall2 sim (sel h (t_rows (exec_all ops tb).1)) (sel h (t_rows tb)).
Proof.
  revert tb. induction ops as [|[e o] ops IH]; intros tb Hok Hf Hops; cbn [exec_all].
  { split; [done|]. intros h _ _ _. apply sim_all. }
  apply Forall_cons in Hops as [[He Hnow] Hops]. destruct Hf as [Hf0 Hf]. cbn [fst] in *.
  destruct (exec_covers e o tb Hok He Hf0) as [Hok' Hc]. destruct (exec e o tb) as [tb' stamps]. cbn [fst snd] in *.
  destruct (IH tb' Hok' Hf Hops) as [Hok'' Hall]. destruct (exec_all ops tb') as [tb'' hours]. cbn [fst snd] in *.
  split; [done|]. intros h Ha Hh Hn. rewrite (proj1 He) in Hn. etrans; [apply Hall; [done..|set_solver]|]. apply Hc; [done| |set_solver].
  unfold rollupBuildable, After, TAdd. apply negb_true_iff, Z.ltb_ge. unfold rollupClockSkew, rollupSettle in *. lia.
Qed.

(** ** The invariant *)

(** An hour that the clock has left for long enough. *)
Definition settled (now h : Time) : Prop := aligned h ∧ (h + Hour + rollupSettle ≤ now)%Z.

Record rollup_inv (s : RState) : Prop := {
  ri_rows : rows_ok (s_tables s);
  ri_hourly : ∀ x, x ∈ s_hourly s → aligned (hr_hour x);
  ri_marks : ∀ h, h ∈ s_marks s → settled (s_now s) h ∧ counted (t_rows (s_tables s)) (s_hourly s) h;
  ri_build : ∀ b, s_build s = Some b → settled (s_now s) (b_hour b)
    ∧ (∀ hours, hours ∈ s_locked s → b_hour b ∉ hours)
    ∧ (∀ c, b_counts b = Some c → c = count_hour (b_hour b) (t_rows (s_tables s)));
}.

Lemma drop_marks_elem hours marks h : h ∈ drop_marks hours marks ↔ h ∈ marks ∧ h ∉ hours.
Proof.
  unfold drop_marks. rewrite list_elem_of_In, filter_In, <-list_elem_of_In, negb_true_iff, any_false. split.
  - intros [Hm Ha]. split; [done|]. intros Hh. specialize (Ha h Hh). by rewrite Z.eqb_refl in Ha.
  - intros [Hm Ha]. split; [done|]. intros x Hx. apply Z.eqb_neq. by intros ->.
Qed.

Lemma count_hour_hours h rows x : x ∈ count_hour h rows → hr_hour x = h.
Proof. unfold count_hour. by intros (k & -> & _)%list_elem_of_fmap. Qed.

Lemma filter_all {A} (p : A → bool) l : (∀ x, x ∈ l → p x = true) → List.filter p l = l.
Proof. intros H. rewrite (filter_ext_elem _ (λ _, true)); [apply filter_true|done]. Qed.

Lemma filter_none {A} (p : A → bool) l : (∀ x, x ∈ l → p x = false) → List.filter p l = [].
Proof. intros H. rewrite (filter_ext_elem _ (λ _, false)); [apply filter_false|done]. Qed.

(** Counting an hour leaves the counts of others. *)
Lemma counted_put rows hourly h h' :
  (h' = h ∨ counted rows hourly h') → counted rows (put_hour h (count_hour h rows) hourly) h'.
Proof.
  intros H. unfold counted, put_hour. rewrite List.filter_app, filter_filter.
  destruct (decide (h' = h)) as [->|Hne].
  - rewrite filter_none, filter_all; [done|..].
    + intros x Hx. apply count_hour_hours in Hx. lia.
    + intros x _. by destruct (hr_hour x =? h)%Z.
  - destruct H as [->|H]; [done|]. rewrite (filter_none _ (count_hour h rows)), app_nil_r.
    + rewrite <-H. rewrite (filter_ext_elem _ (λ x, (hr_hour x =? h')%Z)); [done|]. intros x _.
      destruct (Z.eqb_spec (hr_hour x) h), (Z.eqb_spec (hr_hour x) h'); try done. congruence.
    + intros x Hx. apply count_hour_hours in Hx. rewrite Hx. apply Z.eqb_neq. done.
Qed.

Lemma hours_down_elem fuel newest oldest h : aligned newest → h ∈ hours_down fuel newest oldest → aligned h ∧ (h ≤ newest)%Z.
Proof.
  revert newest. induction fuel as [|fuel IH]; intros newest Ha; cbn [hours_down]; [by intros ?%not_elem_of_nil|].
  destruct (_ <? _)%Z; [by intros ?%not_elem_of_nil|]. intros [->|H]%elem_of_cons; [split; [done|lia]|].
  apply IH in H as [? ?]; [split; [done|unfold Hour, Minute, Second in *; lia]|].
  pose proof (aligned_add newest (-1) Ha). replace (newest - Hour)%Z with (newest + -1 * Hour)%Z by lia. done.
Qed.

(** The refresher takes settled hours only. *)
Lemma task_settled read retention marks h : h ∈ refresh_tasks read retention marks → settled read h.
Proof.
  unfold refresh_tasks. intros H. apply elem_of_take in H as (i & H & _). apply list_elem_of_lookup_2 in H.
  apply list_elem_of_In, filter_In in H as [H _]. apply list_elem_of_In in H.
  destruct (hourOf_spec (read - rollupSettle)%Z) as [Ha Hr].
  apply hours_down_elem in H as [? ?]; [split; [done|lia]|].
  pose proof (aligned_add _ (-1) Ha). by replace (hourOf (read - rollupSettle) - Hour)%Z with (hourOf (read - rollupSettle) + -1 * Hour)%Z by lia.
Qed.

(** ** The sweep *)

Lemma sweep_silences_rows e tb : t_rows (sweepAuditSilences e tb) = t_rows tb ∧ t_next (sweepAuditSilences e tb) = t_next tb.
Proof. unfold sweepAuditSilences. by destruct (e_silences e). Qed.

Lemma filter_sublist {A} (p : A → bool) l : List.filter p l `sublist_of` l.
Proof. induction l as [|x l IH]; cbn; [done|]. destruct (p x); by constructor. Qed.

Lemma sublist_map' {A B} (f : A → B) l l' : l `sublist_of` l' → map f l `sublist_of` map f l'.
Proof. induction 1; cbn; by constructor. Qed.

Lemma sublist_omap' {A B} (f : A → option B) l l' : l `sublist_of` l' → omap f l `sublist_of` omap f l'.
Proof. induction 1 as [|x l l' _ IH|x l l' _ IH]; cbn; [done|..]; destruct (f x); by try constructor. Qed.

Lemma rows_ok_filter (p : AuditRow → bool) tb : rows_ok tb → rows_ok (set_rows tb (List.filter p (t_rows tb))).
Proof.
  intros [Hi Hn Hu Hg Hr].
  assert (∀ r, r ∈ List.filter p (t_rows tb) → r ∈ t_rows tb) as Hin.
  { intros r H. apply list_elem_of_In, filter_In in H as [H _]. by apply list_elem_of_In. }
  split; cbn; auto.
  - eapply sublist_NoDup; [exact Hi|]. apply sublist_map', filter_sublist.
  - eapply sublist_NoDup; [exact Hu|]. apply sublist_omap', filter_sublist.
Qed.

(** An hour whose rows all stay is counted as before. *)
Lemma count_filter h (p : AuditRow → bool) rows :
  (∀ r, r ∈ rows → in_hour h r = true → p r = true) → count_hour h (List.filter p rows) = count_hour h rows.
Proof.
  intros H. apply count_sim. unfold sel. rewrite filter_filter.
  rewrite (filter_ext_elem _ (λ r, in_hour h r && negb (ar_silenced r))); [apply sim_all|]. intros r Hr.
  specialize (H r Hr). destruct (in_hour h r); [by rewrite H|]. by rewrite andb_false_r.
Qed.

(** The partitions of hours whose marks stay are kept. *)
Lemma partition_of_marked now retention h r : (0 ≤ retention)%Z → aligned h →
  (sweep_cutoff now retention ≤ h)%Z → in_hour h r = true → partition_kept now retention r = true.
Proof.
  intros H0 Ha Hc Hr. rewrite in_hour_of in Hr by done. apply Z.eqb_eq in Hr. unfold partition_kept. rewrite Hr.
  apply Z.ltb_lt. destruct (hourOf_spec (pg now)) as [_ Hn]. unfold sweep_cutoff in Hc.
  pose proof (Z.mul_div_le retention Second ltac:(done)).
  pose proof (Z.mul_succ_div_gt retention Hour ltac:(done)). rewrite Z.quot_div_nonneg by done.
  unfold Hour, Minute, Second in *. lia.
Qed.

Lemma counted_sweep now retention rows hourly h : (0 ≤ retention)%Z → aligned h → (sweep_cutoff now retention ≤ h)%Z →
  counted rows hourly h →
  counted (List.filter (partition_kept now retention) rows) (List.filter (λ x, (sweep_cutoff now retention <=? hr_hour x)%Z) hourly) h.
Proof.
  intros H0 Ha Hc H. unfold counted. rewrite count_filter by (intros r _; by eapply partition_of_marked).
  rewrite <-H, filter_filter. rewrite (filter_ext_elem _ (λ x, (hr_hour x =? h)%Z)); [done|]. intros x _.
  destruct (Z.eqb_spec (hr_hour x) h) as [->|]; [|by rewrite andb_false_r]. by apply Z.leb_le in Hc as ->.
Qed.

(** ** Every step keeps the invariant *)

Lemma settled_later now now' h : settled now h → (now ≤ now')%Z → settled now' h.
Proof. intros [? ?] ?. split; [done|lia]. Qed.

(** A commit leaves the counts of the settled hours it does not hold. *)
Lemma commit_counts now ops tb (hours : list Time) h : rows_ok tb → ops_fresh ops tb →
  Forall (λ eo, env_ok eo.1 ∧ (now < e_now eo.1 + rollupClockSkew)%Z) ops → (∀ h, h ∈ (exec_all ops tb).2 → h ∈ hours) →
  settled now h → h ∉ hours → count_hour h (t_rows (exec_all ops tb).1) = count_hour h (t_rows tb).
Proof.
  intros Hok Hf Hops Hh [Ha Hs] Hn. apply count_sim. destruct (exec_all_covers now ops tb Hok Hf Hops) as [_ Hsim].
  apply Hsim; [done..|]. intros Hin. by apply Hn, Hh.
Qed.

Lemma rollup_step s s' : rollup_inv s → step s s' → rollup_inv s'.
Proof.
  intros [Hrows Hhour Hmarks Hbuild] Hstep.
  destruct Hstep as [s now Hnow|s hours Hfree|s ops hours before after El Hf Hops Hh|s hours before after El
                    |s h read retention marks Eb Hread Htask Hfree|s b Eb|s b c Eb Ec|s|s e H0 Hlock]; split; cbn [s_tables s_hourly s_marks s_now s_locked s_build];
    try done.
  - intros h Hin. destruct (Hmarks h Hin). split; [by eapply settled_later|done].
  - intros b Eb. destruct (Hbuild b Eb) as (? & ? & ?). split_and!; [by eapply settled_later|done..].
  - intros b Eb. destruct (Hbuild b Eb) as (? & Hl & ?). split_and!; [done| |done].
    intros hs [->|Hs]%elem_of_cons; [by apply Hfree|by apply Hl].
  - by apply (exec_all_covers (s_now s)).
  - intros h [Hin Hn]%drop_marks_elem. destruct (Hmarks h Hin) as [Hs Hc]. split; [done|].
    unfold counted. by rewrite (commit_counts (s_now s) ops (s_tables s) hours).
  - intros b Eb. destruct (Hbuild b Eb) as (Hs & Hl & Hc). split_and!; [done| |].
    + intros hs Hin. apply Hl. rewrite El. set_solver.
    + intros c Ec. rewrite (Hc c Ec). symmetry. apply (commit_counts (s_now s) ops (s_tables s) hours); [done..|].
      apply Hl. rewrite El. set_solver.
  - intros b Eb. destruct (Hbuild b Eb) as (? & Hl & ?). split_and!; [done| |done].
    intros hs Hin. apply Hl. rewrite El. set_solver.
  - intros b [= <-]. cbn. split_and!; [|done|done]. eapply settled_later; [by eapply task_settled|done].
  - intros b' [= <-]. destruct (Hbuild b Eb) as (? & ? & ?). cbn. split_and!; [done..|]. by intros c [= <-].
  - intros x. unfold put_hour. destruct (Hbuild b Eb) as (Hs & _ & Hc). rewrite elem_of_app. intros [Hx|Hx].
    + apply list_elem_of_In, filter_In in Hx as [Hx _]. apply Hhour. by apply list_elem_of_In.
    + rewrite (Hc c Ec) in Hx. apply count_hour_hours in Hx as ->. apply Hs.
  - destruct (Hbuild b Eb) as (Hs & _ & Hc). rewrite (Hc c Ec). intros h [->|[Hin Hn]%drop_marks_elem]%elem_of_cons.
    + split; [done|]. apply counted_put. by left.
    + destruct (Hmarks h Hin). split; [done|]. apply counted_put. by right.
  - apply rows_ok_filter. destruct (sweep_silences_rows e (s_tables s)) as [E1 E2]. apply (rows_ok_same (s_tables s)); [done|lia|done].
  - intros x Hx. apply Hhour. apply list_elem_of_In, filter_In in Hx as [Hx _]. by apply list_elem_of_In.
  - intros h Hin. apply list_elem_of_In, filter_In in Hin as [Hin Ho]. apply list_elem_of_In in Hin. apply Z.leb_le in Ho.
    destruct (Hmarks h Hin) as [[Ha Hs] Hc]. split; [done|]. cbn. rewrite (proj1 (sweep_silences_rows e (s_tables s))).
    by apply counted_sweep.
  - intros b Eb. destruct (Hbuild b Eb) as (Hs & Hl & Hc). split_and!; [done..|]. intros c Ec.
    change (t_rows (s_tables (sweepOnce e s))) with (List.filter (partition_kept (s_now s) (e_retention e)) (t_rows (sweepAuditSilences e (s_tables s)))).
    rewrite (proj1 (sweep_silences_rows e (s_tables s))), count_filter; [by apply Hc|]. intros r Hr Hin.
    eapply (Hlock b); [done|congruence|done..].
Qed.

Lemma rollup_reach now s : rtc step (start now) s → rollup_inv s.
Proof.
  intros H. remember (start now) as s0 eqn:E. assert (rollup_inv s0) as H0.
  { subst. split; cbn; try done; try (intros x Hx; by apply not_elem_of_nil in Hx).
    split; cbn; try apply NoDup_nil_2; intros r Hr; by apply not_elem_of_nil in Hr. }
  clear E. induction H; [done|]. eauto using rollup_step.
Qed.

(** Without the tables of counts, none are used. *)
Lemma no_span q at_ : rollupSpanFor false None q at_ = None.
Proof. unfold rollupSpanFor. by destruct (_ || _). Qed.

(** C30: after every interleaving of transactions, refreshes and sweeps that
    the locks allow, with clocks and the reach of the retention between 1970
    and 2116, no event inserted twice and a transaction committing within a
    minute of its reading of the clock: a search for groups by user that uses
    the hourly counts answers as one that looks at every event, over a range
    that starts less than a microsecond later, on tables that do not change
    while it reads them. *)
Theorem rollup_exact now s q limit offset at_ :
  rtc step (start now) s → (0 < Q_From q)%Z →
  ∃ f, (Q_From q ≤ f < Q_From q + Microsecond)%Z ∧
    AuditEventGroups ilike true visible (t_rows (s_tables s)) (s_hourly s) (Some (s_marks s)) q limit offset at_
    = AuditEventGroups ilike false visible (t_rows (s_tables s)) [] None (with_range q f (Q_To q)) limit offset at_.
Proof.
  intros Hreach Hf. apply rollup_reach in Hreach as [Hrows Hhour Hmarks _]. unfold AuditEventGroups.
  setoid_rewrite no_span. destruct (rollupSpanFor true (Some (s_marks s)) q at_) as [span|] eqn:E.
  - apply (rollupSpanFor_spec ilike) in E. destruct (so_start _ _ _ _ E) as [_ Hs]. exists (edge_from q span). split.
    + unfold edge_from, Before. destruct (Z.ltb_spec (sp_start span - Microsecond) (Q_From q)); unfold Microsecond in *; lia.
    + apply (groups_from_counts ilike _ _ (s_marks s)); [done..|apply Hrows|done|]. intros h Hin. by apply Hmarks.
  - exists (Q_From q). split; [unfold Microsecond; lia|]. by destruct q.
Qed.

(** The number of events of a histogram. *)
Definition hist_total (r : result (list AuditBucket * Z)) : option Z := match r with Ok (_, n) => Some n | Err _ => None end.

Lemma lines_from rows hourly q span l : (0 < Q_From q ≤ sp_start span)%Z → (sp_start span ≤ sp_end span)%Z →
  l ∈ map hour_line (List.filter (rollupWhere ilike q span) hourly)
      ++ concat (map (λ p, map row_line (List.filter (auditWhereWith ilike visible p) rows)) (rollupEdges q span)) →
  (pg (Q_From q) ≤ l.1.1)%Z.
Proof.
  intros Hf He [Hl|Hl]%elem_of_app.
  - apply list_elem_of_fmap in Hl as (h & -> & Hh). apply list_elem_of_In, filter_In in Hh as [_ Hh]. unfold rollupWhere in Hh.
    bool_hyps. cbn [hour_line fst]. pose proof (pg_le (Q_From q)). unfold Minute, Second. lia.
  - apply list_elem_of_In, in_concat in Hl as (ls & Hls & Hl). apply in_map_iff in Hls as (p & <- & Hp).
    apply in_map_iff in Hl as (r & <- & Hr). apply filter_In in Hr as [_ Hr], Hp as [Hp _]. cbn [row_line fst].
    unfold auditWhereWith in Hr. apply andb_true_iff in Hr as [[[Hr _]%andb_true_iff _]%andb_true_iff _].
    unfold in_range, IsZero in Hr. apply andb_true_iff in Hr as [Hr _].
    pose proof (pg_mono (Q_From q) (sp_end span) ltac:(lia)).
    destruct Hp as [<-|[<-|[]]]; cbn [Q_From Q_To with_range] in *; apply orb_true_iff in Hr as [Hr|Hr]; bool_hyps; lia.
Qed.

Lemma raw_lines_from rows q lo l : (0 < lo)%Z →
  l ∈ map row_line (List.filter (auditWhereWith ilike visible (with_range q lo (Q_To q))) rows) → (pg lo ≤ l.1.1)%Z.
Proof.
  intros Hlo Hl. apply list_elem_of_fmap in Hl as (r & -> & Hr). apply list_elem_of_In, filter_In in Hr as [_ Hr]. cbn [row_line fst].
  unfold auditWhereWith in Hr. apply andb_true_iff in Hr as [[[Hr _]%andb_true_iff _]%andb_true_iff _].
  unfold in_range, IsZero in Hr. cbn [Q_From Q_To with_range] in Hr. apply andb_true_iff in Hr as [Hr _].
  apply orb_true_iff in Hr as [Hr|Hr]; bool_hyps; lia.
Qed.

(** The lines of a search that uses counts, as parts of groups. *)
Lemma rollup_lines rows hourly q span :
  zsum (map (λ l : hline, l.1.2) (map hour_line (List.filter (rollupWhere ilike q span) hourly)
    ++ concat (map (λ p, map row_line (List.filter (auditWhereWith ilike visible p) rows)) (rollupEdges q span))))
  = zsum (map x_n (map hour_part (List.filter (rollupWhere ilike q span) hourly)
    ++ concat (map (λ p, map row_part (List.filter (auditWhereWith ilike visible p) rows)) (rollupEdges q span)))).
Proof.
  rewrite !map_app, !zsum_app, !map_map. f_equal. f_equal. rewrite !concat_map, !map_map. f_equal. apply map_ext. intros p.
  by rewrite !map_map.
Qed.

(** The histogram made from counts has as many events as the one made from the
    events: only their places may differ. *)
Lemma histogram_total_exact now s q buckets at_ bucket :
  rtc step (start now) s → (0 < Q_From q)%Z → (∀ d t, (pg (Q_From q) ≤ t)%Z → (0 ≤ bucket d t)%Z) →
  ∃ f, (Q_From q ≤ f < Q_From q + Microsecond)%Z ∧
    hist_total (AuditEventHistogram ilike bucket true visible (t_rows (s_tables s)) (s_hourly s) (Some (s_marks s)) q buckets at_)
    = hist_total (AuditEventHistogram ilike bucket false visible (t_rows (s_tables s)) [] None (with_range q f (Q_To q)) buckets at_).
Proof.
  intros Hreach Hf Hb. apply rollup_reach in Hreach as [Hrows Hhour Hmarks _]. unfold AuditEventHistogram.
  set (n := if (buckets <=? 0)%Z || (200 <? buckets)%Z then 24%Z else buckets).
  assert (0 < n)%Z as Hn by (unfold n; case_if; [done|lia]).
  setoid_rewrite no_span. destruct (rollupSpanFor true (Some (s_marks s)) q at_) as [span|] eqn:E.
  - apply (rollupSpanFor_spec ilike) in E. pose proof (so_start _ _ _ _ E) as [Has Hs]. pose proof (so_end _ _ _ _ E) as He.
    assert (Q_From q ≤ edge_from q span < Q_From q + Microsecond)%Z as Hef.
    { unfold edge_from, Before. destruct (Z.ltb_spec (sp_start span - Microsecond) (Q_From q)); unfold Microsecond in *; lia. }
    exists (edge_from q span). split; [done|]. cbn [Q_From Q_To with_range].
    assert (edge_from q span < Q_To q)%Z as Hlt.
    { unfold edge_from, Before in *. destruct (Z.ltb_spec (sp_start span - Microsecond) (Q_From q)); lia. }
    assert ((TSub (Q_To q) (Q_From q) <=? 0)%Z = false) as -> by (apply Z.leb_gt; unfold TSub, minInt64, maxInt64; lia).
    assert ((TSub (Q_To q) (edge_from q span) <=? 0)%Z = false) as -> by (apply Z.leb_gt; unfold TSub, minInt64, maxInt64; lia).
    cbn [hist_total]. f_equal. unfold rollupHistogram, rawHistogram. rewrite !histogram_total, rollup_lines, lines_total; try done.
    + apply parts_total, (rollup_parts ilike _ _ (s_marks s)); [done|lia|apply Hrows|done|]. intros h Hh. by apply Hmarks.
    + intros l Hl. apply raw_lines_from in Hl; [|lia]. apply Hb. etrans; [|exact Hl]. apply pg_mono. lia.
    + intros l Hl. apply Hb. eapply lines_from; [| |exact Hl]; lia.
  - exists (Q_From q). split; [unfold Microsecond; lia|]. by destruct q.
Qed.
End props.
