(* ===== verification/AuditSilenceProps.v ===== *)
(** * What silences hide

    The patterns of a silence mean what they say, and an event that a silence
    hides is listed under it and comes back when the silence is deleted. *)

From Stdlib Require Import Ascii.
From stdpp Require Import base list gmap strings sorting relations.
From S2P Require Import Prelude GoStrings GlobSpec GoNet AuditRules AuditRulesProps AuditEngine AuditQuery AuditQueryProps AuditSilence AuditStore AuditRollup AuditRollupRead AuditRollupRun AuditRollupProps.
Local Open Scope string_scope.
Local Open Scope list_scope.
Local Open Scope go_scope.

(** ** Patterns *)

Lemma HasSuffix_length s p : HasSuffix s p = true → (String.length p ≤ String.length s)%nat.
Proof. intros (t & ->)%HasSuffix_spec. rewrite length_app_s. lia. Qed.

Lemma silence_glob pattern value : globMatch pattern value = true ↔ glob pattern value.
Proof.
  unfold globMatch. destruct (Contains pattern "*") eqn:E; cbn [negb].
  - destruct (Split_many pattern star E) as (p & mid & last & Es).
    assert (glob pattern value ↔ placed (p :: mid ++ [last]) value) as ->.
    { rewrite <-glob_placed, <-Es; [by setoid_rewrite (Join_Split pattern star)|..];
        rewrite <-Es; [apply Split_nonempty|apply Split_lacks]. }
    change "*"%char with star. rewrite Es, placed_greedy, last_snoc_tail. cbn [List.hd List.tl].
    rewrite removelast_last, <-glob_middle_greedy. destruct (HasPrefix value p); cbn [negb]; [|naive_solver].
    destruct (glob_middle _ _) as [rest|]; [|naive_solver].
    rewrite andb_true_iff, Nat.leb_le. pose proof (HasSuffix_length rest last). tauto.
  - rewrite String.eqb_eq. apply lacks_Contains in E.
    pose proof (glob_placed [pattern] value) as Hp. cbn in Hp. rewrite Hp by (done || by repeat constructor).
    split; congruence.
Qed.

Section meaning.
Context {T : CaseTables}.

(** The addresses a silence names. *)
Definition ip_named (rule value : string) : Prop :=
  ∃ ip, ParseIP value = Some ip ∧
    if Contains rule "/" then ∃ n, ParseCIDR rule = Some n ∧ NetContains n ip = true else ParseIP rule = Some ip.

Lemma ipMatches_named rule value : ipMatches rule value = true ↔ ip_named rule value.
Proof.
  unfold ipMatches, ip_named. destruct (ParseIP value) as [ip|]; [|naive_solver].
  destruct (Contains rule "/").
  - destruct (ParseCIDR rule) as [n|]; naive_solver.
  - destruct (ParseIP rule) as [want|]; [|naive_solver]. rewrite zlist_eqb_eq. naive_solver.
Qed.

(** Each part of the silence that is set names what the event has. *)
Definition hides (s : AuditSilence) (ev : Event) : Prop :=
  (Sl_Action s = "" ∨ Sl_Action s = ToLower (E_Kind ev)) ∧
  (Sl_Object s = "" ∨ glob (Sl_Object s) (auditObjectText (E_Resource ev) (E_Namespace ev) (E_Name ev))) ∧
  (Sl_User s = "" ∨ glob (Sl_User s) (E_User ev)) ∧
  (Sl_SourceIP s = "" ∨ ip_named (Sl_SourceIP s) (SourceIP ev)).

Lemma matches_hides s ev : matches s (eventTarget ev) = true ↔ hides s ev.
Proof.
  unfold matches, hides, eventTarget. cbn [tg_action tg_object tg_user tg_ip].
  rewrite <-!silence_glob, <-ipMatches_named.
  destruct (String.eqb_spec (Sl_Action s) ""), (String.eqb_spec (Sl_Action s) (ToLower (E_Kind ev))),
    (String.eqb_spec (Sl_Object s) ""), (globMatch (Sl_Object s) _), (String.eqb_spec (Sl_User s) ""),
    (globMatch (Sl_User s) _), (String.eqb_spec (Sl_SourceIP s) ""), (ipMatches _ _); cbn [negb andb]; naive_solver.
Qed.

(** A silence hides an event exactly when each part of it that is set, action,
    object, user and address, names what the event has; the first such silence
    is the one that does. *)
Theorem silence_meaning silences ev :
  (firstSilence silences ev = 0%Z ∧ Forall (λ s, ¬ hides s ev) silences) ∨
  ∃ before s after, silences = before ++ s :: after ∧ firstSilence silences ev = Sl_ID s
    ∧ hides s ev ∧ Forall (λ s, ¬ hides s ev) before.
Proof.
  unfold firstSilence. induction silences as [|s silences IH]; [by left|]. cbn [List.find].
  destruct (matches s (eventTarget ev)) eqn:E.
  - right. exists [], s, silences. split_and!; [done..|by apply matches_hides|constructor].
  - assert (¬ hides s ev) as Hn by (rewrite <-matches_hides; congruence).
    destruct IH as [[H Hall]|(before & s' & after & -> & H & Hs & Hall)].
    + left. split; [done|by constructor].
    + right. exists (s :: before), s', after. split_and!; [done..|by constructor].
Qed.
End meaning.

(** ** Hidden events are listed *)

Section hidden.
Context {T : CaseTables} {D : DbTime} {C : Collation} {M : MapOrder}.

(** The row has an entry among the silenced events. *)
Definition listed (se : list SilencedEvent) (r : AuditRow) : Prop :=
  ∃ s, s ∈ se ∧ ar_uid r = Some (se_uid s) ∧ se_ts s = ar_ts r.

Definition has_silence (tb : Tables) (id : Z) : Prop := ∃ sl, sl ∈ t_silences tb ∧ Sl_ID sl = id.

Record hid_inv (tb : Tables) : Prop := {
  hi_row : ∀ r, r ∈ t_rows tb → ar_silenced r = true → listed (t_hidden tb) r;
  hi_silence : ∀ s, s ∈ t_hidden tb → has_silence tb (se_silence s);
  hi_stored : ∀ s, s ∈ t_hidden tb → ∃ r, r ∈ t_rows tb ∧ ar_uid r = Some (se_uid s);
  hi_pos : (0 < t_next tb)%Z ∧ ∀ sl, sl ∈ t_silences tb → (0 < Sl_ID sl)%Z;
}.

(** Entries that keep their event and silence. *)
Definition same_entry (a b : SilencedEvent) : Prop := se_uid a = se_uid b ∧ se_ts a = se_ts b ∧ se_silence a = se_silence b.

Lemma hid_map g tb : hid_inv tb → (∀ s, same_entry (g s) s) → hid_inv (set_hidden tb (map g (t_hidden tb))).
Proof.
  intros [Hr Hs Hst Hp] Hg. split; cbn; [| | |done].
  - intros r Hin Hsil. destruct (Hr r Hin Hsil) as (s & Hs' & Hu & Ht). exists (g s). destruct (Hg s) as (? & ? & ?).
    split_and!; [by apply list_elem_of_fmap; eauto|congruence..].
  - intros s (s' & -> & Hs')%list_elem_of_fmap. destruct (Hg s') as (_ & _ & ->). by apply Hs.
  - intros s (s' & -> & Hs')%list_elem_of_fmap. destruct (Hg s') as (-> & _ & _). by apply Hst.
Qed.

Lemma hid_update p f tb : hid_inv tb → keeps f → (∀ r, ar_silenced (f r) = ar_silenced r) → hid_inv (update p f tb).
Proof.
  intros [Hr Hs Hst Hp] Hk Hf. split; cbn; [|done| |done].
  - intros r (r' & -> & Hr')%list_elem_of_fmap Hsil. destruct (Hk r') as (_ & Hu & Ht).
    destruct (p r'); [|by apply Hr]. rewrite Hf in Hsil. destruct (Hr r' Hr' Hsil) as (s & ? & ? & ?). exists s. split_and!; [done|congruence..].
  - intros s Hin. destruct (Hst s Hin) as (r & Hr' & Hu). exists (if p r then f r else r). split; [by apply list_elem_of_fmap; eauto|].
    destruct (p r); [|done]. by rewrite (proj1 (proj2 (Hk r))).
Qed.

Lemma firstSilence_active e tb ev : hid_inv tb → firstSilence (activeAuditSilences e tb) ev ≠ 0%Z →
  has_silence tb (firstSilence (activeAuditSilences e tb) ev).
Proof.
  intros _. unfold firstSilence. destruct (List.find _ _) as [s|] eqn:F; [|done]. intros _. apply List.find_some in F as [F _].
  unfold activeAuditSilences in F. destruct (e_silences e); [|done]. apply filter_In in F as [F _]. exists s.
  split; [by apply list_elem_of_In|done].
Qed.

(** Storing an event among the silenced ones. *)
Lemma store_entries e silence uid ts ev o ru se tb :
  let tb' := storeSilencedEvent e silence uid ts ev o ru se tb in
  t_silences tb' = t_silences tb ∧ (t_next tb ≤ t_next tb')%Z ∧
  (∀ s, s ∈ t_hidden tb → s ∈ t_hidden tb') ∧
  (∀ s, s ∈ t_hidden tb' → s ∈ t_hidden tb ∨ (se_silence s = silence ∧ se_uid s = uid ∧ se_ts s = pg ts)) ∧
  ((∀ s, s ∈ t_hidden tb → se_uid s ≠ uid) → ∃ s, s ∈ t_hidden tb' ∧ se_silence s = silence ∧ se_uid s = uid ∧ se_ts s = pg ts).
Proof.
  unfold storeSilencedEvent. destruct (any _ _) eqn:E; cbn.
  - split_and!; [done|lia|done|by left|]. intros H. apply any_true in E as (s & Hs & Es). apply String.eqb_eq in Es. by destruct (H s Hs).
  - unfold snoc. split_and!; [done|lia|set_solver| |].
    + intros s [Hs|Hs]%elem_of_app; [by left|]. apply list_elem_of_singleton in Hs as ->. by right.
    + intros _. eexists. split_and!; [apply elem_of_app; right; by apply list_elem_of_singleton|done..].
Qed.

Lemma hid_silence e row uid tb : hid_inv tb → rows_ok tb → e_rollups e = true →
  (∃ r, r ∈ t_rows tb ∧ ar_uid r = Some uid ∧ ar_id r = ar_id row ∧ ar_ts r = ar_ts row) →
  hid_inv (silenceStoredEvent e row uid tb).1.1.
Proof.
  intros Hinv Hok He (r0 & Hr0 & Hu0 & Hid & Hts). unfold silenceStoredEvent.
  destruct (e_silences e); [|done]. cbn [negb]. destruct (any (λ s, se_uid s == uid) (t_hidden tb)) eqn:Ea.
  { apply hid_map; [done|]. intros s. by destruct (se_uid s == uid). }
  destruct (Z.eqb_spec (firstSilence (activeAuditSilences e tb) (ar_data row)) 0) as [|Hne]; [done|].
  pose proof (firstSilence_active e tb (ar_data row) Hinv Hne) as Hsil. rewrite He. cbn [fst].
  set (id := firstSilence _ _) in *.
  pose proof (store_entries e id uid (ar_ts row) (ar_data row) (ar_origin row) (ar_rule row) (ar_sev row) tb) as Hst.
  pose proof (store_rows e id uid (ar_ts row) (ar_data row) (ar_origin row) (ar_rule row) (ar_sev row) tb) as [Er _].
  set (tb' := storeSilencedEvent _ _ _ _ _ _ _ _ _) in *. cbn in Hst. destruct Hst as (Es & Hn & Hsub & Hback & Hnew).
  assert (∀ s, s ∈ t_hidden tb → se_uid s ≠ uid) as Hfresh.
  { intros s Hs E. rewrite any_false in Ea. specialize (Ea s Hs). by apply String.eqb_neq in Ea. }
  destruct (Hnew Hfresh) as (s0 & Hs0 & _ & Hus0 & Hts0).
  assert (pg (ar_ts row) = ar_ts row) as Hpg by (rewrite <-Hts; by apply (ro_grid _ Hok)).
  destruct Hinv as [Hr Hs Hsto Hp]. split; cbn [t_rows t_hidden t_silences t_next update set_rows].
  - intros r (r' & -> & Hr')%list_elem_of_fmap. rewrite Er in Hr'. destruct (is_row row r') eqn:Ei.
    + intros _. unfold is_row in Ei. bool_hyps.
      assert (r' = r0) as ->.
      { pose proof (ro_ids _ Hok) as Hnd. apply list_elem_of_lookup in Hr' as [i Hi], Hr0 as [j Hj].
        assert (i = j) as ->; [|congruence]. eapply (NoDup_lookup _ i j (ar_id row) Hnd); rewrite list_lookup_fmap.
        - rewrite Hi. cbn. congruence.
        - rewrite Hj. cbn. congruence. }
      exists s0. split_and!; [done|cbn; congruence|cbn; congruence].
    + intros Hsl. destruct (Hr r' Hr' Hsl) as (s & ? & ? & ?). exists s. split_and!; [by apply Hsub|done..].
  - intros s Hin. unfold has_silence. cbn. rewrite Es. destruct (Hback s Hin) as [?|(-> & _ & _)]; [by apply Hs|done].
  - intros s Hin. rewrite Er. destruct (Hback s Hin) as [Hh|(_ & Hu & _)].
    + destruct (Hsto s Hh) as (r & Hr' & Hur). exists (if is_row row r then flag true r else r).
      split; [by apply list_elem_of_fmap; eauto|]. by destruct (is_row row r).
    + exists (if is_row row r0 then flag true r0 else r0). split; [by apply list_elem_of_fmap; eauto|].
      rewrite Hu. by destruct (is_row row r0).
  - rewrite Es. destruct Hp. split; [lia|done].
Qed.

(** Hiding the inserted events, whose identifiers are new. *)
Lemma hide_entries e stored tb :
  NoDup (omap item_uid stored) → (∀ s u, s ∈ t_hidden tb → u ∈ omap item_uid stored → se_uid s ≠ u) →
  (∀ k, k ∈ stored → k.2 ≠ 0%Z → E_ID (it_Event k.1.1) ≠ "") →
  let tb' := foldl (hide_item e) tb stored in
  t_silences tb' = t_silences tb ∧
  (∀ s, s ∈ t_hidden tb → s ∈ t_hidden tb') ∧
  (∀ s, s ∈ t_hidden tb' → s ∈ t_hidden tb ∨ ∃ k, k ∈ stored ∧ k.2 ≠ 0%Z ∧ se_silence s = k.2 ∧ item_uid k = Some (se_uid s)) ∧
  (∀ k, k ∈ stored → k.2 ≠ 0%Z → ∃ s, s ∈ t_hidden tb' ∧ item_uid k = Some (se_uid s) ∧ se_ts s = pg k.1.2).
Proof.
  revert tb. induction stored as [|[[it ts] si] stored IH]; intros tb Hnd Hfr Hid; cbn [foldl].
  { split_and!; [done..|by left|by intros k ?%not_elem_of_nil]. }
  set (k := (it, ts, si)) in *.
  assert (∀ k', k' ∈ stored → k' ∈ k :: stored) as Hin by (intros; by right).
  assert (NoDup (omap item_uid stored) ∧ (∀ u, u ∈ omap item_uid stored → u ∈ omap item_uid (k :: stored))) as [Hnd' Hsub].
  { cbn in *. destruct (item_uid k); [|done]. apply NoDup_cons in Hnd as [_ ?]. split; [done|]. intros; by right. }
  assert (hide_item e tb k = if (si =? 0)%Z then tb else storeSilencedEvent e si (E_ID (it_Event it)) ts (it_Event it) (it_Origin it)
            (nullable (it_RuleID it)) (nullable (it_Sev it)) tb) as -> by done. cbv zeta.
  destruct (Z.eqb_spec si 0) as [->|Hsi].
  - destruct (IH tb Hnd' ltac:(intros s u ??; apply Hfr; auto) ltac:(auto)) as (Es & H1 & H2 & H3).
    split_and!; [done..| |].
    + intros s Hs. destruct (H2 s Hs) as [?|(k' & ? & ?)]; [by left|right; eauto].
    + intros k' [->|Hk']%elem_of_cons Hne; [done|]. by apply H3.
  - assert (item_uid k = Some (E_ID (it_Event it))) as Eu.
    { change (item_uid k) with (nullable (E_ID (it_Event it))). unfold nullable.
      pose proof (Hid k ltac:(by left) Hsi) as Hne. change (E_ID (it_Event it) ≠ "") in Hne.
      by apply String.eqb_neq in Hne as ->. }
    pose proof (store_entries e si (E_ID (it_Event it)) ts (it_Event it) (it_Origin it) (nullable (it_RuleID it)) (nullable (it_Sev it)) tb) as Hst.
    set (tb1 := storeSilencedEvent _ _ _ _ _ _ _ _ _) in *. cbn in Hst. destruct Hst as (Es1 & _ & Hsub1 & Hback & Hnew).
    assert (E_ID (it_Event it) ∉ omap item_uid stored) as Hni.
    { cbn in Hnd. rewrite Eu in Hnd. by apply NoDup_cons in Hnd as [? _]. }
    destruct (IH tb1 Hnd') as (Es & H1 & H2 & H3).
    { intros s u Hs Hu. destruct (Hback s Hs) as [?|(_ & -> & _)]; [by apply Hfr; auto|]. intros E. apply Hni. by rewrite E. }
    { auto. }
    rewrite Es, Es1. split_and!; [done|auto| |].
    + intros s Hs. destruct (H2 s Hs) as [Hh|(k' & ? & ?)]; [|right; eauto].
      destruct (Hback s Hh) as [?|(? & E & ?)]; [by left|]. right. exists k. split_and!; [by left|done..|congruence].
    + intros k' [->|Hk']%elem_of_cons Hne; [|by apply H3]. destruct Hnew as (s & Hs & ? & E & ?).
      { intros s Hs. apply Hfr; [done|]. cbn. rewrite Eu. by left. }
      exists s. split_and!; [by apply H1|congruence|done].
Qed.

Lemma copy_hidden e l tb :
  t_hidden (foldl (copy_row e) tb l) = t_hidden tb ∧ t_silences (foldl (copy_row e) tb l) = t_silences tb
  ∧ (t_next tb ≤ t_next (foldl (copy_row e) tb l))%Z.
Proof.
  revert tb. induction l as [|k l IH]; intros tb; cbn [foldl]; [done|].
  destruct (IH (copy_row e tb k)) as (-> & -> & ?). cbn in *. split_and!; [done..|lia].
Qed.

Lemma hid_insert e items tb : hid_inv tb → rows_ok tb → env_ok e → fresh_uids items tb → hid_inv (InsertAuditEvents e items tb).1.
Proof.
  intros Hinv Hok He Hfresh. unfold InsertAuditEvents. cbn [fst]. set (stored := stored_items e tb items).
  assert (NoDup (omap ar_uid (t_rows tb) ++ omap item_uid stored)) as Hnd.
  { eapply sublist_NoDup; [exact Hfresh|]. apply sublist_app; [done|]. apply stored_uids. }
  destruct (copy_rows e stored tb Hok (stored_range e tb items He) Hnd) as [_ (new & En & Hnew)].
  destruct (copy_hidden e stored tb) as (Eh & Es & En').
  assert (∀ k, k ∈ stored → k.2 ≠ 0%Z → E_ID (it_Event k.1.1) ≠ "" ∧ has_silence tb k.2) as Hk.
  { intros k (it & _ & Hit)%list_elem_of_omap Hne. cbv zeta in Hit. destruct (partitionedTS (e_retention e) _ _); [|done]. cbn in Hit. injection Hit as <-.
    cbn in *. destruct (String.eqb_spec (E_ID (it_Event it)) ""); [done|]. split; [done|]. by apply firstSilence_active. }
  apply NoDup_app in Hnd as (_ & Hdisj & Hndi). destruct Hinv as [Hr Hs Hst Hp].
  destruct (hide_entries e stored (foldl (copy_row e) tb stored)) as (Es' & H1 & H2 & H3); [done| |by intros k ? ?; apply Hk|].
  { rewrite Eh. intros s u Hin Hu E. destruct (Hst s Hin) as (r & Hr' & Hur). apply (Hdisj u); [|done].
    apply list_elem_of_omap. exists r. split; [done|congruence]. }
  destruct (hide_rows e stored (foldl (copy_row e) tb stored)) as [Erows Hn]. rewrite Eh in H1, H2. rewrite Es in Es'.
  split.
  - intros r. rewrite Erows, En. intros [Hin|Hin]%elem_of_app Hsil.
    + destruct (Hr r Hin Hsil) as (s & ? & ? & ?). exists s. auto.
    + destruct (Forall2_left _ _ _ _ Hnew Hin) as (k & Hks & id & ->). cbn in Hsil.
      apply andb_true_iff in Hsil as [_ Hsil]. apply negb_true_iff, Z.eqb_neq in Hsil.
      destruct (H3 k Hks Hsil) as (s & ? & ? & ?). exists s. done.
  - intros s Hin. unfold has_silence. rewrite Es'. destruct (H2 s Hin) as [?|(k & ? & ? & -> & _)]; [by apply Hs|by apply Hk].
  - intros s Hin. rewrite Erows, En. destruct (H2 s Hin) as [Hh|(k & Hks & _ & _ & Hu)].
    + destruct (Hst s Hh) as (r & ? & ?). exists r. split; [set_solver|done].
    + destruct (Forall2_right _ _ _ _ Hnew Hks) as (r & Hrn & id & ->). eexists. split; [apply elem_of_app; by right|done].
  - rewrite Es'. destruct Hp. split; [lia|done].
Qed.

Lemma hid_delete e id tb : hid_inv tb → e_rollups e = true → hid_inv (DeleteAuditSilence e id tb).1.1.
Proof.
  intros [Hr Hs Hst Hp] He. unfold DeleteAuditSilence. rewrite He. unfold unsilenceEvents, delete_silences. cbn [fst].
  set (gone := map Sl_ID _).
  assert (∀ x, any (Z.eqb x) gone = true → x = id) as Hgone.
  { intros x Hx. apply any_true in Hx as (y & Hy & E). apply Z.eqb_eq in E as ->. unfold gone in Hy.
    apply list_elem_of_fmap in Hy as (sl & -> & Hsl). apply list_elem_of_In, filter_In in Hsl as [_ E]. by apply Z.eqb_eq in E. }
  assert (∀ s, s ∈ t_hidden tb → se_silence s = id → any (Z.eqb (se_silence s)) gone = true) as Hgone'.
  { intros s Hin E. destruct (Hs s Hin) as (sl & Hsl & Esl). apply any_true. exists (Sl_ID sl). split; [|apply Z.eqb_eq; congruence].
    apply list_elem_of_fmap. exists sl. split; [done|]. apply list_elem_of_In, filter_In. split; [by apply list_elem_of_In|].
    apply Z.eqb_eq. congruence. }
  split; cbn [t_rows t_hidden t_silences t_next set_hidden set_silences update AuditStore.set_rows].
  - intros r (r' & -> & Hr')%list_elem_of_fmap. destruct (hidden_by id (t_hidden tb) r') eqn:E; [done|]. intros Hsil.
    destruct (Hr r' Hr' Hsil) as (s & Hin & Hu & Ht). exists s. split_and!; [|done..].
    apply list_elem_of_In, filter_In. split; [by apply list_elem_of_In|]. apply negb_true_iff, not_true_is_false. intros Hg%Hgone.
    unfold hidden_by in E. rewrite Hsil, andb_true_r, any_false in E. specialize (E s Hin).
    rewrite Hg, Z.eqb_refl, Ht, Z.eqb_refl, bool_decide_eq_true_2 in E by done. done.
  - intros s Hin. apply list_elem_of_In, filter_In in Hin as [Hin Hn]. apply list_elem_of_In in Hin. apply negb_true_iff in Hn.
    destruct (Hs s Hin) as (sl & Hsl & Esl). exists sl. split; [|done]. apply list_elem_of_In, filter_In. split; [by apply list_elem_of_In|].
    apply negb_true_iff, Z.eqb_neq. intros E. rewrite Hgone' in Hn; [done|done|congruence].
  - intros s Hin. apply list_elem_of_In, filter_In in Hin as [Hin _]. apply list_elem_of_In in Hin.
    destruct (Hst s Hin) as (r & Hr' & Hu). exists (if hidden_by id (t_hidden tb) r then flag false r else r).
    split; [by apply list_elem_of_fmap; eauto|]. by destruct (hidden_by _ _ _).
  - split; [apply Hp|]. intros sl Hsl. apply list_elem_of_In, filter_In in Hsl as [Hsl _]. by apply Hp, list_elem_of_In.
Qed.

(** A row found by its identifier, changed, then perhaps silenced. *)
Lemma hid_enrich e p f uid tb row : hid_inv tb → rows_ok tb → e_rollups e = true → keeps f →
  (∀ r, ar_silenced (f r) = ar_silenced r) → (∀ r, p r = true → ar_uid r = Some uid) → List.find p (t_rows tb) = Some row →
  hid_inv (silenceStoredEvent e (f row) uid (update p f tb)).1.1.
Proof.
  intros Hinv Hok He Hk Hf Hp Hfind. apply find_elem in Hfind as [Hin Ep]. destruct (Hk row) as (Hi & Hu & Ht).
  apply hid_silence; [by apply hid_update|by apply rows_ok_update|done|]. exists (f row). split_and!; [|by rewrite Hu, Hp|done..].
  cbn. apply list_elem_of_fmap. exists row. by rewrite Ep.
Qed.

Lemma exec_hid e o tb : hid_inv tb → rows_ok tb → env_ok e →
  match o with OInsert items => fresh_uids items tb | _ => True end → hid_inv (exec e o tb).1.
Proof.
  intros Hinv Hok He Hf. pose proof (proj1 He) as Hroll.
  destruct o as [items|en|adm around|uid around seen attr|row uid ruleID sev|sil dur|id|id]; cbn [exec].
  - by apply hid_insert.
  - unfold EnrichAuditEvent. destruct (List.find _ _) as [row|] eqn:F; [|done].
    pose proof (hid_enrich e _ (enrich_row en) (EventUID en) tb row Hinv Hok Hroll ltac:(done) ltac:(done)
                  (λ r, in_join_uid _ _ _ r _) F) as H.
    by destruct (silenceStoredEvent _ _ _ _) as [[tb' stamps] b].
  - unfold MergeAdmissionDetails. destruct (List.find _ _) as [row|] eqn:F; [|done].
    pose proof (hid_enrich e _ (merge_row (admitted_event adm)) (E_ID adm) tb row Hinv Hok Hroll ltac:(done) ltac:(done)
                  (λ r, in_join_uid _ _ _ r _) F) as H.
    by destruct (silenceStoredEvent _ _ _ _) as [[tb' stamps] b].
  - by apply hid_update.
  - unfold MarkAuditEventRule. cbn [fst]. assert (hid_inv (update (is_row row) (mark_row ruleID sev) tb)) by (by apply hid_update).
    destruct (ar_silenced row); [|done]. apply hid_map; [done|]. intros s. by destruct (se_uid s == uid).
  - unfold CreateAuditSilence. destruct (Normalize sil) as [s|m]; [|done]. destruct (_ || _); [done|]. cbn [fst].
    destruct Hinv as [Hr Hs Hst [Hp Hpos]]. split; cbn; unfold snoc; [done| |done|].
    + intros x Hx. destruct (Hs x Hx) as (sl & ? & ?). exists sl. cbn. split; [set_solver|done].
    + split; [lia|]. intros sl [?|Hsl]%elem_of_app; [by apply Hpos|]. apply list_elem_of_singleton in Hsl as ->. done.
  - cbn. destruct Hinv as [Hr Hs Hst [Hp Hpos]].
    assert (∀ sl, Sl_ID (if (Sl_ID sl =? id)%Z && is_active (e_db e) sl then with_end (pg (e_db e)) sl else sl) = Sl_ID sl) as Hid
      by (intros sl; by destruct (_ && _)).
    split; cbn; [done| |done|].
    + intros x Hx. destruct (Hs x Hx) as (sl & ? & ?). eexists. cbn. split; [apply list_elem_of_fmap; by exists sl|by rewrite Hid].
    + split; [done|]. intros sl (x & -> & Hx)%list_elem_of_fmap. rewrite Hid. by apply Hpos.
  - by apply hid_delete.
Qed.

Definition no_tables : Tables := {| t_rows := []; t_silences := []; t_hidden := []; t_next := 1%Z |}.

Lemma exec_all_hid ops tb : hid_inv tb → rows_ok tb → ops_fresh ops tb → Forall (λ eo, env_ok eo.1) ops →
  hid_inv (exec_all ops tb).1.
Proof.
  revert tb. induction ops as [|[e o] ops IH]; intros tb Hinv Hok Hf He; cbn [exec_all]; [done|].
  apply Forall_cons in He as [He Hes]. destruct Hf as [Hf0 Hf]. cbn [fst] in *.
  pose proof (exec_hid e o tb Hinv Hok He Hf0) as Hinv'. destruct (exec_covers e o tb Hok He Hf0) as [Hok' _].
  destruct (exec e o tb) as [tb' stamps]. cbn [fst] in *. specialize (IH tb' Hinv' Hok' Hf Hes).
  by destruct (exec_all ops tb') as [tb'' hours].
Qed.

(** C33: after any operations on the tables made one after the other, each a
    transaction of its own on the result of the last, without a sweep, with
    clocks and the reach of the retention between 1970 and 2116 and with no
    event inserted twice: an event that searches do not show because it is
    silenced is listed under a silence that exists, and deleting that silence
    shows it again; transactions that overlap are excluded, and a deletion
    that overlaps an insert can leave the event hidden. *)
Theorem hidden_comes_back ops e r :
  ops_fresh ops no_tables → Forall (λ eo, env_ok eo.1) ops → e_rollups e = true →
  let tb := (exec_all ops no_tables).1 in
  r ∈ t_rows tb → ar_silenced r = true →
  ∃ s, s ∈ t_hidden tb ∧ ar_uid r = Some (se_uid s)
    ∧ (DeleteAuditSilence e (se_silence s) tb).2 = true
    ∧ flag false r ∈ t_rows (DeleteAuditSilence e (se_silence s) tb).1.1.
Proof.
  intros Hf He Hroll tb Hr Hsil.
  assert (hid_inv tb) as [Hrow Hs _ _].
  { apply exec_all_hid; [|split|done|done]; [split|..]; cbn; try done; try apply NoDup_nil_2; try (split; [lia|]);
      intros x Hx; by apply not_elem_of_nil in Hx. }
  destruct (Hrow r Hr Hsil) as (s & Hin & Hu & Ht). exists s. split_and!; [done..| |].
  - unfold DeleteAuditSilence. destruct (if e_rollups e then _ else _) as [tb' stamps]. cbn. apply any_true.
    destruct (Hs s Hin) as (sl & ? & ?). exists sl. split; [done|by apply Z.eqb_eq].
  - unfold DeleteAuditSilence. rewrite Hroll. cbn. apply list_elem_of_fmap. exists r. split; [|done].
    assert (hidden_by (se_silence s) (t_hidden tb) r = true) as ->; [|done]. unfold hidden_by. rewrite Hsil, andb_true_r.
    apply any_true. exists s. split; [done|]. by rewrite Z.eqb_refl, bool_decide_eq_true_2, Ht, Z.eqb_refl.
Qed.
End hidden.
