(* ===== verification/AuditUsers.v ===== *)
(** * kvisior/internal/store: the users a search means

    A search for a part of a user's name is turned into one for the users whose
    name has it: those of the hourly counts, from a cache that lasts a minute,
    and those of the events of the hours that are not counted. *)

From Stdlib Require Import Ascii.
From stdpp Require Import base list gmap strings sorting relations.
From S2P Require Import Prelude GoStrings AuditRules AuditEngine AuditQuery AuditQueryProps AuditSilence AuditStore AuditRollup AuditRollupRead AuditRollupRun AuditRollupProps.
Local Open Scope string_scope.
Local Open Scope list_scope.
Local Open Scope go_scope.

Definition auditUserCandidates : nat := 1000.
Definition auditUserRawHoursMax : nat := 6.
Definition auditUserCacheTTL : Duration := Minute.

Record rolledEntry := { ru_users : list string; ru_at : Time }.

(** The key of the cache: the pattern in lower case, the first and the last
    hour and the hours without counts. *)
Record userKey := { uk_pattern : string; uk_first : Time; uk_last : Time; uk_raw : list Time }.
Global Instance userKey_eq_dec : EqDecision userKey.
Proof. solve_decision. Defined.

Definition userCache := list (userKey * rolledEntry).

Definition cache_get (c : userCache) (k : userKey) : option rolledEntry := snd <$> List.find (λ e, bool_decide (e.1 = k)) c.

Section users.
Context {T : CaseTables} {D : DbTime} {C : Collation} {M : MapOrder} (ilike : string → string → bool).

Definition user_pattern (q : AuditEventQuery) : string := "%" +:+ likeEscape (Q_User q) +:+ "%".

(** The users of the counts. *)
Definition counted_users (hourly : list HourRow) (pattern : string) (first last : Time) : list string :=
  remove_dups (map hr_user (List.filter (λ x, ((first <=? hr_hour x) && (hr_hour x <=? last))%Z && ilike pattern (hr_user x)) hourly)).

(** [rolledUsers]; [hourly] is [None] when the statement fails. *)
Definition rolledUsers (cache : userCache) (hourly : option (list HourRow)) (pattern : string) (first last : Time) (raw : list Time)
    (now : Time) : userCache * option (list string) :=
  let key := {| uk_pattern := ToLower pattern; uk_first := first; uk_last := last; uk_raw := raw |} in
  let fresh e := (TSub now (ru_at e) <? auditUserCacheTTL)%Z in
  match cache_get cache key with
  | Some e => if fresh e then (cache, Some (ru_users e)) else
      match hourly with
      | None => (cache, None)
      | Some hourly => let users := counted_users hourly pattern first last in
          ((key, {| ru_users := users; ru_at := now |}) :: List.filter (λ e, fresh e.2 && negb (bool_decide (e.1 = key))) cache, Some users)
      end
  | None =>
      match hourly with
      | None => (cache, None)
      | Some hourly => let users := counted_users hourly pattern first last in
          ((key, {| ru_users := users; ru_at := now |}) :: List.filter (λ e, fresh e.2) cache, Some users)
      end
  end.

(** The users of the events of hour [h]. *)
Definition hour_users (keep : AuditRow → bool) (rows : list AuditRow) (pattern : string) (h : Time) : list string :=
  map ar_user (List.filter (λ r, in_hour h r && ilike pattern (ar_user r) && keep r) rows).

(** The loop over the hours without counts; too many users give up. *)
Fixpoint raw_users (keep : AuditRow → bool) (rows : list AuditRow) (pattern : string) (hours : list Time) (seen : list string)
    : option (list string) :=
  match hours with
  | [] => if (auditUserCandidates <? length seen)%nat then None else Some seen
  | h :: hours =>
      let seen := remove_dups (hour_users keep rows pattern h ++ seen) in
      if (auditUserCandidates <? length seen)%nat then None else raw_users keep rows pattern hours seen
  end.

(** [resolveAuditUsers] on tables that do not change meanwhile: the users, or
    [None] when they cannot be named. *)
Definition resolveAuditUsers (cache : userCache) (ready : bool) (keep : AuditRow → bool) (rows : list AuditRow)
    (hourly : option (list HourRow)) (marks : option (list Time)) (q : AuditEventQuery) (now : Time)
    : userCache * result (option (list string)) :=
  if IsZero (Q_From q) then (cache, Ok None)
  else if negb ready then (cache, Ok None)
  else
    let to := if IsZero (Q_To q) || After (Q_To q) now then now else Q_To q in
    let first := hourOf (Q_From q) in
    let last := hourOf to in
    if Before last first then (cache, Ok (Some []))
    else match marks with
    | None => (cache, Err "audit rollup marks")
    | Some marks =>
        let raw := missingRollupHours marks first last (S auditUserRawHoursMax) in
        if (auditUserRawHoursMax <? length raw)%nat then (cache, Ok None)
        else match rolledUsers cache hourly (user_pattern q) first last raw now with
        | (cache, None) => (cache, Err "audit user hourly")
        | (cache, Some rolled) => (cache, Ok (raw_users keep rows (user_pattern q) raw (remove_dups rolled)))
        end
    end.

(** ** The users are the right ones *)

Lemma raw_users_elem keep rows pattern hours seen us :
  raw_users keep rows pattern hours seen = Some us →
  ∀ u, u ∈ us ↔ u ∈ seen ∨ ∃ h, h ∈ hours ∧ u ∈ hour_users keep rows pattern h.
Proof.
  revert seen. induction hours as [|h hours IH]; intros seen; cbn [raw_users].
  - destruct (_ <? _)%nat; [done|]. intros [= <-] u. split; [by left|]. intros [?|(h & Hh & _)]; [done|by apply not_elem_of_nil in Hh].
  - destruct (_ <? _)%nat; [done|]. intros H u. rewrite (IH _ H u), elem_of_remove_dups, elem_of_app. split.
    + intros [[?|?]|(h' & ? & ?)]; [right; exists h; split; [by left|done]|by left|]. right. exists h'. split; [by right|done].
    + intros [?|(h' & [->|?]%elem_of_cons & ?)]; eauto.
Qed.

Lemma hour_users_elem keep rows pattern h u :
  u ∈ hour_users keep rows pattern h ↔ ∃ r, r ∈ rows ∧ ar_user r = u ∧ in_hour h r = true ∧ ilike pattern u = true ∧ keep r = true.
Proof.
  unfold hour_users. rewrite list_elem_of_fmap. split.
  - intros (r & -> & Hr). apply list_elem_of_In, filter_In in Hr as [Hr E]. apply list_elem_of_In in Hr. bool_hyps. eauto 10.
  - intros (r & Hr & <- & E1 & E2 & E3). exists r. split; [done|]. apply list_elem_of_In, filter_In.
    split; [by apply list_elem_of_In|]. by rewrite E1, E2, E3.
Qed.

Lemma counted_users_elem hourly pattern first last u :
  u ∈ counted_users hourly pattern first last ↔
  ∃ x, x ∈ hourly ∧ hr_user x = u ∧ (first ≤ hr_hour x ≤ last)%Z ∧ ilike pattern u = true.
Proof.
  unfold counted_users. rewrite elem_of_remove_dups, list_elem_of_fmap. split.
  - intros (x & -> & Hx). apply list_elem_of_In, filter_In in Hx as [Hx E]. apply list_elem_of_In in Hx. bool_hyps. eauto 10.
  - intros (x & Hx & <- & Hh & E). exists x. split; [done|]. apply list_elem_of_In, filter_In. split; [by apply list_elem_of_In|].
    rewrite E, andb_true_r. apply andb_true_iff. rewrite !Z.leb_le. lia.
Qed.

(** An event of a counted hour has its user in the counts. *)
Lemma counted_user rows hourly h r : counted rows hourly h → r ∈ rows → in_hour h r = true → ar_silenced r = false →
  ∃ x, x ∈ hourly ∧ hr_user x = ar_user r ∧ hr_hour x = h.
Proof.
  intros Hc Hr Hh Hs. unfold counted in Hc.
  assert (hour_row h (sel h rows) (hour_key r) ∈ count_hour h rows) as Hin.
  { unfold count_hour. fold (sel h rows). apply list_elem_of_fmap. eexists. split; [done|]. apply elem_of_remove_dups, list_elem_of_fmap.
    exists r. split; [done|]. unfold sel. apply list_elem_of_In, filter_In. split; [by apply list_elem_of_In|]. by rewrite Hh, Hs. }
  rewrite <-Hc in Hin. apply list_elem_of_In, filter_In in Hin as [Hin E]. apply list_elem_of_In in Hin. eauto.
Qed.

(** The hours without a mark are all found, when they are few. *)
Lemma missing_all marks from to h limit : (length (missingRollupHours marks from to (S limit)) ≤ limit)%nat →
  aligned from → aligned h → (from ≤ h ≤ to)%Z → h ∉ marks → h ∈ missingRollupHours marks from to (S limit).
Proof.
  unfold missingRollupHours. intros Hl Hf Ha Hh Hn. rewrite length_take in Hl.
  rewrite take_ge by (unfold Time in *; lia).
  apply list_elem_of_In, filter_In. split.
  - apply list_elem_of_In, list_elem_of_fmap. exists (Z.to_nat ((h - from) / Hour)). unfold aligned in *.
    apply Z.div_exact in Hf, Ha; [|done..].
    assert (h - from = (h / Hour - from / Hour) * Hour)%Z as E by lia. rewrite E, Z.div_mul by done.
    pose proof (Z.div_le_mono from h Hour ltac:(done) ltac:(lia)).
    split; [rewrite Z2Nat.id by lia; lia|]. rewrite elem_of_seq. pose proof (Z.div_le_mono (h - from) (to - from) Hour ltac:(done) ltac:(lia)) as Hd.
    rewrite E, Z.div_mul in Hd by done. lia.
  - apply negb_true_iff, any_false. intros x Hx. apply Z.eqb_neq. by intros ->.
Qed.

Lemma hourOf_mono a b : (a ≤ b)%Z → (hourOf a ≤ hourOf b)%Z.
Proof. intros H. unfold hourOf. pose proof (Z.div_le_mono a b Hour ltac:(done) H). unfold Hour, Minute, Second in *. lia. Qed.

(** With nothing cached, the users named are those with matching events. *)
Lemma resolve_right rows hourly marks q now us cache' :
  resolveAuditUsers [] true visible rows (Some hourly) (Some marks) q now = (cache', Ok (Some us)) →
  (0 < Q_To q ≤ now)%Z → (∀ h, h ∈ marks → counted rows hourly h) →
  ∀ r, r ∈ rows → ar_silenced r = false → (pg (Q_From q) ≤ ar_ts r ≤ pg (Q_To q))%Z →
  (ar_user r ∈ us ↔ ilike (user_pattern q) (ar_user r) = true).
Proof.
  unfold resolveAuditUsers. intros H Hto Hc r Hr Hs Hts.
  destruct (IsZero (Q_From q)); [done|]. cbn [negb] in H. unfold IsZero, After, Before in H.
  destruct (Z.eqb_spec (Q_To q) 0); [lia|]. destruct (Z.ltb_spec now (Q_To q)); [lia|]. cbn [orb] in H.
  set (h := hourOf (ar_ts r)). destruct (hourOf_spec (ar_ts r)) as [Hah _]. destruct (hourOf_spec (Q_From q)) as [Haf _].
  assert (hourOf (Q_From q) ≤ h)%Z as H1 by (rewrite <-(hourOf_pg (Q_From q)); apply hourOf_mono; lia).
  assert (h ≤ hourOf (Q_To q))%Z as H2 by (apply hourOf_mono; pose proof (pg_le (Q_To q)); lia).
  destruct (Z.ltb_spec (hourOf (Q_To q)) (hourOf (Q_From q))); [lia|].
  destruct (Nat.ltb_spec auditUserRawHoursMax (length (missingRollupHours marks (hourOf (Q_From q)) (hourOf (Q_To q)) (S auditUserRawHoursMax)))) as [|Hraw]; [done|].
  cbn [rolledUsers cache_get List.find fmap option_fmap option_map] in H.
  injection H as _ H. rewrite (raw_users_elem _ _ _ _ _ _ H), elem_of_remove_dups, counted_users_elem.
  setoid_rewrite hour_users_elem. split; [naive_solver|]. intros Hil.
  assert (in_hour h r = true) as Hin by (rewrite in_hour_of by done; by apply Z.eqb_refl).
  destruct (decide (h ∈ marks)) as [Hm|Hm].
  - left. destruct (counted_user rows hourly h r) as (x & Hx & Hu & Hh); [auto..|]. exists x. rewrite Hh. split_and!; [done..|lia|done].
  - right. exists h. split; [by apply missing_all|]. exists r. unfold visible. by rewrite Hs.
Qed.

Lemma with_users_where q us r :
  (∀ r', ar_user r' = ar_user r → any (String.eqb (ar_user r')) us = ilike (user_pattern q) (ar_user r')) →
  Q_User q ≠ "" → Q_users q = None →
  userResultFilters ilike (with_users q us) (auditDanger r) (ar_user r) (ar_allowed r)
  = userResultFilters ilike q (auditDanger r) (ar_user r) (ar_allowed r).
Proof.
  intros H Hu Hn. unfold userResultFilters. cbn [Q_users with_users]. rewrite Hn, (H r) by done.
  apply String.eqb_neq in Hu. by rewrite Hu.
Qed.

(** A search for the users named is the search for the part of a name. *)
Lemma full_users table q us : (0 < Q_From q)%Z → (0 < Q_To q)%Z → Q_User q ≠ "" → Q_users q = None →
  (∀ r, r ∈ table → ar_silenced r = false → (pg (Q_From q) ≤ ar_ts r ≤ pg (Q_To q))%Z →
     (ar_user r ∈ us ↔ ilike (user_pattern q) (ar_user r) = true)) →
  ∀ f, (Q_From q ≤ f)%Z →
  full ilike visible table (with_range (with_users q us) f (Q_To q)) = full ilike visible table (with_range q f (Q_To q)).
Proof.
  intros Hf Ht Hu Hn H f Hle. apply full_ext. intros r Hr. rewrite !where_range.
  change (before_page (with_range (with_users q us) f (Q_To q)) r) with (before_page (with_range q f (Q_To q)) r).
  change (column_filters ilike (with_users q us) r) with (column_filters ilike q r).
  change (in_range (with_range (with_users q us) f (Q_To q)) (ar_ts r)) with (in_range (with_range q f (Q_To q)) (ar_ts r)).
  destruct (in_range (with_range q f (Q_To q)) (ar_ts r)) eqn:Er; [|done]. unfold visible.
  destruct (ar_silenced r) eqn:Es; cbn [negb]; [by rewrite !andb_false_r|].
  rewrite with_users_where; [done| |done..]. intros r' E. rewrite E.
  unfold in_range, IsZero in Er. cbn [Q_From Q_To with_range] in Er. bool_hyps.
  pose proof (pg_mono (Q_From q) f Hle).
  apply eq_true_iff_eq. rewrite <-(H r Hr Es ltac:(lia)), any_true. split.
  - intros (x & Hx & Ex). by apply String.eqb_eq in Ex as ->.
  - intros Hx. exists (ar_user r). split; [done|by apply String.eqb_refl].
Qed.

(** A search for none of the users finds nothing. *)
Lemma no_users table q : Q_users q = Some [] → full ilike visible table q = [].
Proof.
  intros H. unfold full. rewrite filter_none; [done|]. intros r _. unfold auditWhereWith, userResultFilters. rewrite H.
  cbn. by rewrite andb_false_r.
Qed.

(** C32: after every interleaving of transactions, refreshes and sweeps that
    the locks allow (clocks and the reach of the retention between 1970 and
    2116, no event inserted twice, a transaction committing within a minute of
    its reading of the clock): a search for a part of a user name, over a
    range that ends by now and spans at most 73 years, resolved to users from
    counts that nothing has cached, finds the first page of what the plain
    search by name finds over a range that starts less than a microsecond
    later. *)
Theorem search_by_user start_now s q now :
  rtc step (start start_now) s → Q_User q ≠ "" → Q_users q = None →
  (0 < Q_From q)%Z → (0 < Q_To q ≤ now)%Z → (0 ≤ Q_BeforeTs q)%Z → (window_upper q - Q_From q ≤ 2 ^ 61)%Z →
  ∃ f, (Q_From q ≤ f < Q_From q + Microsecond)%Z ∧
    let rows := t_rows (s_tables s) in
    let resolved := (resolveAuditUsers [] true visible rows (Some (s_hourly s)) (Some (s_marks s)) q now).2 in
    QueryAuditEvents ilike visible resolved (replicate (length (auditWindows q)) (Some rows)) q
    = Some (take (Z.to_nat (page_limit q)) (full ilike visible rows (with_range q f (Q_To q)))).
Proof.
  intros Hreach Hu Hn Hf Ht Hb Hspan. apply rollup_reach in Hreach as [Hrows Hhour Hmarks _].
  assert (table_ok (t_rows (s_tables s))) as Hok.
  { split; [|eapply NoDup_fmap_1, (ro_ids _ Hrows)|apply (ro_grid _ Hrows)]. intros a b Ha Hb' E.
    apply list_elem_of_lookup in Ha as [i Hi], Hb' as [j Hj]. assert (i = j) as ->; [|congruence].
    eapply (NoDup_lookup _ i j (ar_id a) (ro_ids _ Hrows)); rewrite list_lookup_fmap; [by rewrite Hi|rewrite Hj; cbn; congruence]. }
  set (rows := t_rows (s_tables s)) in *. cbv zeta. unfold QueryAuditEvents. pose proof Hu as Hu'.
  apply String.eqb_neq in Hu' as ->. rewrite Hn, bool_decide_eq_true_2 by done. cbn [negb andb].
  destruct (resolveAuditUsers _ _ _ _ _ _ _ _) as [cache' [[us|]|err]] eqn:R; cbn [snd].
  - destruct (windows_full ilike visible rows (with_users q us)) as (f & Hff & Hc); [done|cbn; lia|done..|].
    exists f. split; [done|]. cbn [Q_To with_users] in Hc.
    rewrite <-(full_users rows q us) with (f := f), <-Hc; [|lia..|done|done| |apply Hff].
    2: { intros r. eapply resolve_right; [exact R|lia|]. intros h Hh. by apply Hmarks. }
    destruct us as [|u us]; [|by rewrite query_windows_take by (cbn; lia)].
    rewrite Hc, (no_users rows (with_range (with_users q []) f (Q_To q))) by done. by rewrite take_nil.
  - destruct (windows_full ilike visible rows q) as (f & Hff & Hc); [done|lia|done..|].
    exists f. split; [done|]. rewrite <-Hc. by rewrite query_windows_take by (cbn; lia).
  - exfalso. revert R. unfold resolveAuditUsers. repeat (case_match; try done).
Qed.
End users.
