(* ===== verification/AuditDemo.v ===== *)
(** * Concrete runs of the audit tables

    Witnesses of the theorems on searches, counts and silences, and runs that
    show what the code does where its operations overlap. *)

From Stdlib Require Import Ascii.
From stdpp Require Import base list gmap strings sorting relations.
From S2P Require Import Prelude GoStrings AuditRules AuditEngine AuditQuery AuditQueryProps AuditSilence AuditStore AuditRollup AuditRollupRead AuditRollupRun AuditRollupProps AuditSilenceProps AuditUsers.
Local Open Scope string_scope.
Local Open Scope list_scope.
Local Open Scope go_scope.

(** ** Parameters *)

#[global] Instance demo_tables : CaseTables := ascii_tables.
#[global] Instance demo_order : MapOrder := keep_order.

#[global, program] Instance demo_time : DbTime := {| pg t := (t / 1000 * 1000)%Z |}.
Next Obligation. intros t. unfold pg. pose proof (Z.mul_div_le t 1000 ltac:(lia)). lia. Qed.
Next Obligation. intros t. unfold Microsecond. pose proof (Z.mul_succ_div_gt t 1000 ltac:(lia)). lia. Qed.
Next Obligation. intros t. unfold Microsecond. by rewrite Z.mod_mul. Qed.

#[global, program] Instance demo_text : Collation := {| text_le a b := Pos.leb (encode a) (encode b) |}.
Next Obligation. intros a b. rewrite !Pos.leb_le. lia. Qed.
Next Obligation. intros a b c. rewrite !Pos.leb_le. lia. Qed.
Next Obligation. intros a b. rewrite !Pos.leb_le. intros H H'. apply (inj encode). lia. Qed.

Definition demo_ilike (p v : string) : bool := like (ToLower p) (ToLower v).

(** ** Rows *)

Definition no_event : Event := {|
  E_ID := ""; E_Timestamp := 0%Z; E_User := ""; E_ImpersonatedUser := ""; E_ImpersonatedGroups := []; E_ServiceAccount := "";
  E_Groups := []; E_SourceIPs := []; E_ClientIP := ""; E_UserAgent := ""; E_Kind := ""; E_Resource := ""; E_WebhookType := "";
  E_Namespace := ""; E_Name := ""; E_UID := ""; E_ResourceVersion := ""; E_PrevResourceVersion := ""; E_Unchanged := false;
  E_DryRun := false; E_CompletedAt := None; E_Source := ""; E_Attribution := ""; E_Container := ""; E_Commands := [];
  E_Ports := []; E_Allowed := None; E_StatusCode := 0%Z; E_AuditID := "" |}.

Definition demo_event (uid user : string) (ts : Time) : Event := {|
  E_ID := uid; E_Timestamp := ts; E_User := user; E_ImpersonatedUser := ""; E_ImpersonatedGroups := []; E_ServiceAccount := "";
  E_Groups := []; E_SourceIPs := []; E_ClientIP := "10.0.0.1"; E_UserAgent := ""; E_Kind := "delete"; E_Resource := "pods";
  E_WebhookType := ""; E_Namespace := "web"; E_Name := "a"; E_UID := ""; E_ResourceVersion := ""; E_PrevResourceVersion := "";
  E_Unchanged := false; E_DryRun := false; E_CompletedAt := None; E_Source := ""; E_Attribution := ""; E_Container := "";
  E_Commands := []; E_Ports := []; E_Allowed := Some true; E_StatusCode := 0%Z; E_AuditID := "" |}.

Definition demo_item (uid user : string) (ts : Time) : AuditEventInsert :=
  {| it_Event := demo_event uid user ts; it_Origin := OriginAdmission; it_RuleID := ""; it_Sev := "" |}.

Definition demo_env (now : Time) : Env :=
  {| e_silences := true; e_rollups := true; e_now := now; e_db := now; e_retention := (14 * Day)%Z |}.

(** 1 January 2026, on the hour. *)
Definition t0 : Time := (unixEpoch + 490896 * Hour)%Z.

Definition demo_query (from to : Time) (user : string) (limit : Z) : AuditEventQuery :=
  {| Q_From := from; Q_To := to; Q_User := user; Q_Namespace := ""; Q_Kind := ""; Q_Resource := ""; Q_SourceIP := "";
     Q_Result := ""; Q_Search := ""; Q_DangerOnly := false; Q_Object := None; Q_BeforeTs := 0%Z; Q_BeforeID := 0%Z;
     Q_Limit := limit; Q_users := None |}.

(** ** Searches *)

Definition demo_rows : list AuditRow :=
  [insert_row (demo_env t0) 0 1 (t0 - 40 * Hour)%Z (demo_item "u1" "ann" 0%Z);
   insert_row (demo_env t0) 0 2 (t0 - 3 * Hour)%Z (demo_item "u2" "bob" 0%Z);
   insert_row (demo_env t0) 0 3 (t0 - 3 * Hour)%Z (demo_item "u3" "ann" 0%Z)].

Lemma demo_rows_ok : table_ok demo_rows.
Proof.
  split.
  - intros a b Ha Hb. unfold demo_rows in *. rewrite !elem_of_cons in Ha, Hb.
    destruct Ha as [->|[->|[->|Ha%not_elem_of_nil]]]; [..|done];
      destruct Hb as [->|[->|[->|Hb%not_elem_of_nil]]]; (done || discriminate).
  - apply (NoDup_fmap_1 ar_id). by apply (bool_decide_eq_true_1 (NoDup (map ar_id demo_rows))); vm_compute.
  - apply (proj1 (Forall_forall _ _)). repeat (constructor; [by vm_compute|]). constructor.
Qed.

(** A search over the last [hours] hours, one row a page. *)
Definition demo_get (hours key : string) : string :=
  (if key == "hours" then hours else if key == "limit" then "1" else "")%go.

Definition demo_request (hours : string) (now : Time) : AuditEventQuery :=
  auditQueryFromRequest (demo_get hours) (λ _, false) (14 * Day)%Z now.

Definition demo_nows : list Time := [t0 + Minute; t0 + 2 * Minute; t0 + 3 * Minute]%Z.

Lemma pages_complete_witness :
  length (auditWindows (demo_request "72" t0)) = 3%nat ∧
  ∃ rows last old, follow demo_ilike visible demo_rows (λ _, false) (14 * Day)%Z (demo_get "72") (t0 :: demo_nows) = Some (rows, last)
  ∧ last ∈ t0 :: demo_nows ∧ full demo_ilike visible demo_rows (demo_request "72" t0) = rows ++ old
  ∧ Forall (λ r, (ar_ts r < Q_From (demo_request "72" last) + Microsecond)%Z) old.
Proof.
  split; [by vm_compute|].
  refine (pages_complete demo_ilike visible demo_rows (λ _, false) (14 * Day)%Z demo_rows_ok _ _ (demo_get "72") demo_nows t0 _ _ _ _).
  - vm_compute. intuition congruence.
  - apply (proj1 (Forall_forall _ _)). repeat (constructor; [vm_compute; intuition congruence|]). constructor.
  - vm_compute. reflexivity.
  - repeat match goal with |- StronglySorted _ _ => constructor | |- Forall _ _ => constructor end; vm_compute; discriminate.
  - vm_compute. discriminate.
  - apply Nat.leb_le. vm_compute. reflexivity.
Defined.

(** The oldest row of the first page's range is out of the range of the last. *)
Example page_range_moves :
  map ar_id (full demo_ilike visible demo_rows (demo_request "40" t0)) = [3; 2; 1]%Z
  ∧ (map ar_id ∘ fst <$> follow demo_ilike visible demo_rows (λ _, false) (14 * Day)%Z (demo_get "40") (t0 :: demo_nows)) = Some [3; 2]%Z.
Proof. vm_compute. done. Qed.

(** ** A counted hour *)

Definition demo_ops : list (Env * op) :=
  [(demo_env (t0 + 20 * Minute)%Z, OInsert [demo_item "u1" "ann" (t0 + 15 * Minute)%Z; demo_item "u2" "bob" (t0 + 16 * Minute)%Z])].

Definition demo_inserted : Tables := (exec_all demo_ops no_tables).1.

(** The refresher counts an hour. *)
Definition counted (s : RState) (h : Time) : RState :=
  {| s_tables := s_tables s; s_hourly := put_hour h (count_hour h (t_rows (s_tables s))) (s_hourly s);
     s_marks := h :: drop_marks [h] (s_marks s); s_now := s_now s; s_locked := s_locked s; s_build := None |}.

(** The states on the way. *)
Definition demo_state (tb : Tables) (now : Time) (locked : list (list Time)) (b : option build) : RState :=
  {| s_tables := tb; s_hourly := []; s_marks := []; s_now := now; s_locked := locked; s_build := b |}.

Definition demo_hours : list Time := map (λ i, t0 + i * Hour)%Z [0; 1; 2; 3; 4; 5]%Z.

(** The state after the two events were stored and six hours were counted. *)
Definition demo_counted : RState := foldl counted (demo_state demo_inserted (t0 + 7 * Hour)%Z [] None) demo_hours.

Lemma demo_fresh : ops_fresh demo_ops no_tables.
Proof.
  split; [|done]. unfold fresh_uids. apply (bool_decide_eq_true_1 (NoDup _)). vm_compute. reflexivity.
Qed.

Lemma demo_env_ok now : (t0 ≤ now < t0 + Day)%Z → env_ok (demo_env now).
Proof. intros H. unfold env_ok, demo_env, horizon, t0, Day, Hour, Minute, Second in *. cbn [e_rollups e_retention e_now]. lia. Qed.

Lemma counted_reach s h : s_build s = None → s_locked s = [] → h ∈ refresh_tasks (s_now s) (14 * Day)%Z [] → rtc step s (counted s h).
Proof.
  intros Hb Hl Hh. destruct s as [tb hourly marks now locked b]. cbn in *. subst.
  eapply rtc_l; [apply (step_build _ h now (14 * Day)%Z []); [done|cbn; lia|done|]|].
  { intros hours H. by apply not_elem_of_nil in H. }
  eapply rtc_l; [by eapply step_count|]. apply rtc_once.
  by apply (step_built {| s_tables := tb; s_hourly := hourly; s_marks := marks; s_now := now; s_locked := [];
      s_build := Some {| b_hour := h; b_counts := Some (count_hour h (t_rows tb)) |} |} {| b_hour := h; b_counts := Some (count_hour h (t_rows tb)) |}).
Qed.

Lemma all_counted_reach hours s : s_build s = None → s_locked s = [] →
  Forall (λ h, h ∈ refresh_tasks (s_now s) (14 * Day)%Z []) hours → rtc step s (foldl counted s hours).
Proof.
  revert s. induction hours as [|h hours IH]; intros s Hb Hl Hh; [apply rtc_refl|]. apply Forall_cons in Hh as [Hh Hhs].
  etrans; [by apply (counted_reach s h)|]. cbn [foldl]. by apply IH.
Qed.

Lemma demo_reach : rtc step (start t0) demo_counted.
Proof.
  apply rtc_l with (demo_state no_tables t0 [[]] None); [by apply (step_lock (start t0) [])|].
  apply rtc_l with (demo_state demo_inserted t0 [] None).
  { apply (step_commit (demo_state no_tables t0 [[]] None) demo_ops [] [] []); [done|exact demo_fresh| |].
    - apply Forall_singleton. cbn [fst]. split; [apply demo_env_ok; unfold Day, Hour, Minute, Second; lia|].
      unfold demo_env, rollupClockSkew, Minute, Second. cbn [s_now e_now demo_state]. lia.
    - vm_compute. intros h H. inversion H. }
  apply rtc_l with (demo_state demo_inserted (t0 + 7 * Hour)%Z [] None).
  { apply (step_tick (demo_state demo_inserted t0 [] None)). unfold Hour, Minute, Second. cbn [s_now demo_state]. lia. }
  apply all_counted_reach; [done..|]. unfold demo_hours. cbn [map].
  repeat (constructor; [by apply (bool_decide_eq_true_1 (_ ∈ _)); vm_compute|]). constructor.
Qed.

(** The search uses the counts of the six hours. *)
Lemma rollup_exact_witness :
  ∃ s f, length (t_rows (s_tables s)) = 2%nat ∧ (t0 ≤ f < t0 + Microsecond)%Z ∧
    let q := demo_query t0 (t0 + 6 * Hour)%Z "" 10 in
    let at_ := (t0 + 7 * Hour)%Z in
    rollupSpanFor true (Some (s_marks s)) q at_ = Some {| sp_start := t0; sp_end := (t0 + 6 * Hour)%Z |} ∧
    map G_Key (AuditEventGroups demo_ilike true visible (t_rows (s_tables s)) (s_hourly s) (Some (s_marks s)) q 10 0 at_) = ["bob"; "ann"] ∧
    AuditEventGroups demo_ilike true visible (t_rows (s_tables s)) (s_hourly s) (Some (s_marks s)) q 10 0 at_
    = AuditEventGroups demo_ilike false visible (t_rows (s_tables s)) [] None (with_range q f (Q_To q)) 10 0 at_.
Proof.
  destruct (rollup_exact demo_ilike t0 demo_counted (demo_query t0 (t0 + 6 * Hour)%Z "" 10) 10 0 (t0 + 7 * Hour)%Z demo_reach
              ltac:(reflexivity)) as (f & Hf & H).
  exists demo_counted, f. split; [vm_compute; reflexivity|]. split; [exact Hf|]. cbv zeta.
  split; [vm_compute; reflexivity|]. split; [vm_compute; reflexivity|exact H].
Defined.

Lemma search_by_user_witness :
  ∃ f, (t0 ≤ f < t0 + Microsecond)%Z ∧
    let q := demo_query t0 (t0 + 6 * Hour)%Z "AN" 10 in
    let rows := t_rows demo_inserted in
    let resolved := (resolveAuditUsers demo_ilike [] true visible rows (Some (s_hourly demo_counted)) (Some (s_marks demo_counted)) q (t0 + 7 * Hour)%Z).2 in
    resolved = Ok (Some ["ann"]) ∧
    QueryAuditEvents demo_ilike visible resolved (replicate (length (auditWindows q)) (Some rows)) q
    = Some (take 10 (full demo_ilike visible rows (with_range q f (Q_To q)))).
Proof.
  destruct (search_by_user demo_ilike t0 demo_counted (demo_query t0 (t0 + 6 * Hour)%Z "AN" 10) (t0 + 7 * Hour)%Z demo_reach)
    as (f & Hf & H); [discriminate|reflexivity|reflexivity|split; [reflexivity|vm_compute; discriminate]|vm_compute; discriminate|vm_compute; discriminate|].
  exists f. split; [exact Hf|]. cbv zeta in H |- *. split; [vm_compute; reflexivity|exact H].
Defined.

(** ** Silences *)

Definition demo_silence : AuditSilence :=
  {| Sl_ID := 0%Z; Sl_Action := "Delete"; Sl_Object := "pods/web/*"; Sl_User := ""; Sl_SourceIP := "10.0.0.0/8"; Sl_Reason := "";
     Sl_CreatedBy := ""; Sl_CreatedAt := 0%Z; Sl_ExpiresAt := None |}.

Definition silence_ops : list (Env * op) :=
  [(demo_env t0, OCreate demo_silence 0%Z); (demo_env t0, OInsert [demo_item "u1" "ann" (t0 - Minute)%Z])].

Definition silenced_row : AuditRow := insert_row (demo_env t0) 1 2 (t0 - Minute)%Z (demo_item "u1" "ann" (t0 - Minute)%Z).

Lemma hidden_comes_back_witness :
  let tb := (exec_all silence_ops no_tables).1 in
  ∃ s, s ∈ t_hidden tb ∧ ar_uid silenced_row = Some (se_uid s)
    ∧ (DeleteAuditSilence (demo_env t0) (se_silence s) tb).2 = true
    ∧ flag false silenced_row ∈ t_rows (DeleteAuditSilence (demo_env t0) (se_silence s) tb).1.1.
Proof.
  apply (hidden_comes_back silence_ops (demo_env t0) silenced_row).
  - split; [exact I|]. split; [|exact I]. unfold fresh_uids. apply (bool_decide_eq_true_1 (NoDup _)). vm_compute. reflexivity.
  - repeat constructor; vm_compute; discriminate.
  - reflexivity.
  - vm_compute. left.
  - reflexivity.
Defined.

(** A silence deleted while an event it hides is being stored: the events to
    show again are looked for before the insert commits, the silence and its
    entries are deleted after it. The event stays hidden and is listed nowhere. *)
Example delete_races_insert :
  let created := (exec_all [(demo_env t0, OCreate demo_silence 0%Z)] no_tables).1 in
  let first := (unsilenceEvents 1 created).1 in
  let stored := (InsertAuditEvents (demo_env t0) [demo_item "u1" "ann" (t0 - Minute)%Z] first).1 in
  let tb := delete_silences (λ s, (Sl_ID s =? 1)%Z) stored in
  map ar_silenced (t_rows tb) = [true] ∧ t_hidden tb = [] ∧ t_silences tb = [].
Proof. vm_compute. auto. Qed.

(** ** A cached list of users *)

Definition late_rows : list AuditRow :=
  t_rows (InsertAuditEvents (demo_env (t0 + 2 * Hour)%Z) [demo_item "u3" "joanna" (t0 + 30 * Minute)%Z] demo_inserted).1.

(** An event of a new user arrives late and its hour is counted again within a
    minute of a search: the next search for the name does not find it. *)
Example cached_users_stale :
  let q := demo_query t0 (t0 + 2 * Hour)%Z "ann" 10 in
  let cache := (resolveAuditUsers demo_ilike [] true visible (t_rows demo_inserted) (Some (s_hourly demo_counted)) (Some [t0]) q (t0 + 2 * Hour)%Z).1 in
  let hourly := put_hour t0 (count_hour t0 late_rows) (s_hourly demo_counted) in
  let at_ := (t0 + 2 * Hour + 30 * Second)%Z in
  let resolved := (resolveAuditUsers demo_ilike cache true visible late_rows (Some hourly) (Some [t0]) q at_).2 in
  map ar_user (full demo_ilike visible late_rows q) = ["joanna"; "ann"] ∧
  (map ar_user <$> QueryAuditEvents demo_ilike visible resolved [Some late_rows] q) = Some ["ann"].
Proof. vm_compute. auto. Qed.
