(* ===== verification/DeployAlerter.v ===== *)
(** * sensor/internal/alerter: alerts on the workloads of a cluster

    eval.go, alerter.go, emit.go, helpers.go. The sensor evaluates the deploy
    rules that only alert against the snapshot it collects itself; the hub runs
    its own posture checks on the snapshot the sensor sends. The pod templates
    of a snapshot are those of [Posture], whose quantities are the texts the
    Kubernetes client gives them; whether such a text means zero is asked of
    the client.

    The loops run beside each other: one evaluates, one refreshes the rules,
    one sweeps the table of alerts sent. A step is one critical section of one
    of them. *)

From Stdlib Require Import Ascii.
From stdpp Require Import base list gmap strings sorting.
From S2P Require Import Prelude GoStrings GoValue GoText Posture PostureProps.
Local Open Scope string_scope.
Local Open Scope list_scope.
Local Open Scope go_scope.

Definition ruleStaleWarnAfter : Duration := (5 * Minute)%Z.
Definition dedupTTL : Duration := (10 * Minute)%Z.
Definition dedupMaxEntries : nat := Z.to_nat 20000.
Definition sourceTag : string := "sensor".

Definition systemNS (ns : string) : bool :=
  any (String.eqb ns) ["kube-system"; "kube-public"; "kube-node-lease"; "calico-system"; "calico-apiserver";
                       "cilium"; "cert-manager"].

Record deployRule := {
  R_ID : string;
  R_Name : string;
  R_Enabled : bool;
  R_AlertOnly : bool;
  R_DetType : string;
  R_Sev : string;
  R_Namespace : string;
  R_DeployChecks : list string;
}.

(** ** Helpers *)

Definition capabilityDropList (c : container) : list string :=
  match SecurityContext c with
  | Some s => match Capabilities s with Some k => Drop k | None => [] end
  | None => []
  end.

Fixpoint containsCap (list : list string) (want : string) : bool :=
  match list with [] => false | v :: list => if v == want then true else containsCap list want end.

Fixpoint hasAny (list want : list string) : bool :=
  match list with [] => false | v :: list => if any (String.eqb v) want then true else hasAny list want end.

(** [itoa]: digits from the right into a buffer of twenty bytes; [-n] of the
    least integer is itself. *)
Definition neg64 (n : Z) : Z := if (n =? minInt64)%Z then n else (- n)%Z.
Fixpoint itoa_digits (fuel : nat) (n : Z) (buf : string) : string :=
  match fuel with
  | O => buf
  | S fuel => if (0 <? n)%Z then itoa_digits fuel (n / 10) (String (ascii_of (48 + n mod 10)) buf) else buf
  end.
Definition itoa (n : Z) : string :=
  if (n =? 0)%Z then "0"
  else if (n <? 0)%Z then "-" +:+ itoa_digits 20 (neg64 n) "" else itoa_digits 20 n "".

(** ** Workloads *)

Record workloadRef := {
  w_kind : string;
  w_name : string;
  w_namespace : string;
  w_spec : podSpec;
  w_anns : gmap string string;
}.

(** A workload as the client has it: the hub is sent all of it. *)
Record Workload := { O_Metadata : meta; O_Template : gmap string string; O_Spec : podSpec }.
Record ClusterSnapshot := {
  SN_Deployments : list Workload;
  SN_StatefulSets : list Workload;
  SN_DaemonSets : list Workload;
  SN_NetworkPolicies : list networkPolicy;
  SN_Namespaces : list meta;
  SN_Services : list service;
}.

Definition ref_of (kind : string) (d : Workload) : workloadRef :=
  {| w_kind := kind; w_name := M_Name (O_Metadata d); w_namespace := M_Namespace (O_Metadata d); w_spec := O_Spec d;
     w_anns := O_Template d |}.

Definition workload_refs (s : ClusterSnapshot) : list workloadRef :=
  map (ref_of "Deployment") (SN_Deployments s) ++ map (ref_of "StatefulSet") (SN_StatefulSets s)
  ++ map (ref_of "DaemonSet") (SN_DaemonSets s).

(** [Quantity.IsZero] of the Kubernetes client, by the text of the quantity. *)
Class Quantities := { quantity_IsZero : string → bool }.

Section Checks.
Context {Q : Quantities} {M : MapOrder}.

(** [Limits.Cpu().IsZero()]: a quantity that is not there is zero. *)
Definition IsZeroAt (m : list (string * value)) (key : string) : bool :=
  match vlookup m key with Some (VStr t) => quantity_IsZero t | _ => true end.

Definition sensorLatest (img : string) : bool :=
  if negb (Contains img ":") then true
  else match LastIndexByte img ":"%char with Some i => sdrop (i + 1) img == "latest" | None => img == "latest" end.

Definition writable_mount (containers : list container) (v : volume) : bool :=
  any (λ c, any (λ m, (VM_Name m == V_Name v) && negb (ReadOnly m)) (VolumeMounts c)) containers.

Definition quoted (s : string) : string := quote_char +:+ s +:+ quote_char.

Definition exposed_secret (c : container) : option string :=
  match first_some (λ e, match e with Some (Some name) => Some name | _ => None end) (Env c) with
  | Some name => Some ("Container " +:+ quoted (C_Name c) +:+ " exposes secret " +:+ quoted name +:+ " as env var")
  | None => (λ name, "Container " +:+ quoted (C_Name c) +:+ " exposes all keys of secret " +:+ quoted name +:+ " via envFrom")
              <$> first_some (λ ef, ef) (EnvFrom c)
  end.

Definition evalWorkloadCheck (id : string) (w : workloadRef) : option string :=
  let spec := w_spec w in
  let containers := Containers spec ++ InitContainers spec in
  let case names := mem id names in
  let each (f : container → bool) (text : container → string) :=
    first_some (λ c, if f c then Some (text c) else None) containers in
  if case ["no-privileged"; "privileged-pod-rt"] then
    each (λ c, match SecurityContext c with
               | Some s => match Privileged s with Some b => b | None => false end
               | None => false
               end) (λ c, "Container " +:+ quoted (C_Name c) +:+ " has privileged: true")
  else if case ["no-host-pid"; "host-pid-pod-rt"] then if HostPID spec then Some "spec.hostPID is true" else None
  else if case ["no-host-ipc"] then if HostIPC spec then Some "spec.hostIPC is true" else None
  else if case ["no-host-net"; "host-network-pod-rt"] then if HostNetwork spec then Some "spec.hostNetwork is true" else None
  else if case ["no-priv-esc"] then
    each (λ c, negb match SecurityContext c with
                    | Some s => match AllowPrivilegeEscalation s with Some b => negb b | None => false end
                    | None => false
                    end) (λ c, "Container " +:+ quoted (C_Name c) +:+ " — allowPrivilegeEscalation not false")
  else if case ["no-root"] then
    first_some (λ c, match SecurityContext c with
                     | None => None
                     | Some s =>
                         if match RunAsUser s with Some u => (u =? 0)%Z | None => false end
                         then Some ("Container " +:+ quoted (C_Name c) +:+ " runs as root (runAsUser=0)")
                         else if match RunAsNonRoot s with Some b => negb b | None => false end
                              then Some ("Container " +:+ quoted (C_Name c) +:+ " runs as root (runAsNonRoot=false)")
                              else None
                     end) containers
  else if case ["no-root-group"] then
    match PodSecurityContext spec with
    | None => None
    | Some s => if any (λ g, (g =? 0)%Z) (SupplementalGroups s) then Some "supplementalGroups includes GID 0"
                else if match FSGroup s with Some g => (g =? 0)%Z | None => false end then Some "fsGroup is 0" else None
    end
  else if case ["drop-net-raw"] then
    each (λ c, let drop := capabilityDropList c in negb (containsCap drop "NET_RAW") && negb (containsCap drop "ALL"))
      (λ c, "Container " +:+ quoted (C_Name c) +:+ " does not drop NET_RAW")
  else if case ["drop-all-caps"] then
    each (λ c, negb (containsCap (capabilityDropList c) "ALL")) (λ c, "Container " +:+ quoted (C_Name c) +:+ " does not drop ALL capabilities")
  else if case ["no-seccomp-unconfined"] then
    if match PodSecurityContext spec with
       | Some s => match PodSeccompProfile s with Some p => SType p == "Unconfined" | None => false end
       | None => false
       end
    then Some "seccompProfile is Unconfined (pod-level)"
    else each (λ c, match SecurityContext c with
                    | Some s => match SeccompProfile s with Some p => SType p == "Unconfined" | None => false end
                    | None => false
                    end) (λ c, "Container " +:+ quoted (C_Name c) +:+ " seccompProfile Unconfined")
  else if case ["no-apparmor-unconfined"] then
    first_some (λ kv, if HasPrefix kv.1 "container.apparmor" && (kv.2 == "unconfined")
                      then Some ("AppArmor annotation " +:+ kv.1 +:+ "=unconfined") else None)
      (map_order (map_to_list (w_anns w)))
  else if case ["readonly-root"] then
    each (λ c, negb match SecurityContext c with
                    | Some s => match ReadOnlyRootFilesystem s with Some b => b | None => false end
                    | None => false
                    end) (λ c, "Container " +:+ quoted (C_Name c) +:+ " has writable root filesystem")
  else if case ["no-host-path"] then
    first_some (λ v, (λ path, "Volume " +:+ quoted (V_Name v) +:+ " uses hostPath: " +:+ path) <$> HostPath v) (Volumes spec)
  else if case ["no-host-path-write"; "no-host-path-write-rt"] then
    first_some (λ v, match HostPath v with
                     | None => None
                     | Some path => if writable_mount containers v
                                    then Some ("hostPath " +:+ quoted (V_Name v) +:+ " mounted writable at " +:+ path) else None
                     end) (Volumes spec)
  else if case ["no-host-port"] then
    first_some (λ c, first_some (λ p, if negb (HostPort p =? 0)%Z
                                      then Some ("Container port exposes hostPort " +:+ itoa (HostPort p)) else None) (Ports c)) containers
  else if case ["resource-limits"] then
    each (λ c, IsZeroAt (Limits c) "cpu" || IsZeroAt (Limits c) "memory")
      (λ c, "Container " +:+ quoted (C_Name c) +:+ " missing CPU/memory limits")
  else if case ["resource-requests"] then
    each (λ c, IsZeroAt (Requests c) "cpu" || IsZeroAt (Requests c) "memory")
      (λ c, "Container " +:+ quoted (C_Name c) +:+ " missing CPU/memory requests")
  else if case ["no-latest-tag"] then
    each (λ c, sensorLatest (C_Image c)) (λ c, "Container " +:+ quoted (C_Name c) +:+ " uses :latest tag: " +:+ C_Image c)
  else if case ["no-default-sa"] then
    if ((ServiceAccountName spec == "") || (ServiceAccountName spec == "default"))
       && match AutomountServiceAccountToken spec with Some b => b | None => true end
    then Some "Default ServiceAccount with automountServiceAccountToken enabled" else None
  else if case ["secret-as-env-rt"] then first_some exposed_secret containers
  else None.

(** ** What a rule reports *)

(** The arguments of [emit]. *)
Record report := { p_rule : deployRule; p_namespace : string; p_workload : string; p_check : string; p_detail : string }.

Definition evalClusterChecks (r : deployRule) (snap : ClusterSnapshot) (nsFilter : string) : list report :=
  let checks := R_DeployChecks r in
  let emit ns workload check detail := {| p_rule := r; p_namespace := ns; p_workload := workload; p_check := check; p_detail := detail |} in
  let passed ns := systemNS ns || ((nsFilter != "") && (ns != nsFilter)) in
  if negb (hasAny checks ["ns-no-netpol-rt"; "allow-all-ingress-rt"; "allow-all-egress-rt"; "nodeport-exposed-rt"]) then []
  else
    let covered name := any (λ np, M_Namespace (NP_Metadata np) == name) (SN_NetworkPolicies snap) in
    let open_policies check (rules : networkPolicy → list (list string)) way :=
      omap (λ np, let name := M_Name (NP_Metadata np) in let ns := M_Namespace (NP_Metadata np) in
                  if passed ns then None
                  else if any (λ peers : list string, (length peers =? 0)%nat) (rules np)
                       then Some (emit ns (name +:+ " (NetworkPolicy)") check ("NetworkPolicy " +:+ quoted name +:+ " allows all " +:+ way))
                       else None) (SN_NetworkPolicies snap) in
    (if hasAny checks ["ns-no-netpol-rt"] then
       omap (λ ns, let name := M_Name ns in
                   if passed name then None
                   else if negb (covered name)
                        then Some (emit name (name +:+ " (Namespace)") "ns-no-netpol-rt" ("Namespace " +:+ quoted name +:+ " has no NetworkPolicy"))
                        else None) (SN_Namespaces snap)
     else [])
    ++ (if hasAny checks ["allow-all-ingress-rt"] then open_policies "allow-all-ingress-rt" NP_Ingress "ingress" else [])
    ++ (if hasAny checks ["allow-all-egress-rt"] then open_policies "allow-all-egress-rt" NP_Egress "egress" else [])
    ++ (if hasAny checks ["nodeport-exposed-rt"] then
          omap (λ svc, let name := M_Name (S_Metadata svc) in let ns := M_Namespace (S_Metadata svc) in
                       if passed ns then None
                       else if S_Type svc == "NodePort"
                            then Some (emit ns (name +:+ " (Service)") "nodeport-exposed-rt" ("Service " +:+ quoted name +:+ " is type NodePort"))
                            else None) (SN_Services snap)
        else []).

Definition workload_report (r : deployRule) (w : workloadRef) (checkID : string) : option report :=
  (λ detail, {| p_rule := r; p_namespace := w_namespace w; p_workload := w_name w +:+ " (" +:+ w_kind w +:+ ")";
                p_check := checkID; p_detail := detail |}) <$> evalWorkloadCheck checkID w.

Definition rule_reports (snap : ClusterSnapshot) (r : deployRule) : list report :=
  let nsFilter := TrimSpace (R_Namespace r) in
  (w ← workload_refs snap;
   if (nsFilter != "") && (w_namespace w != nsFilter) then [] else omap (workload_report r w) (R_DeployChecks r))
  ++ evalClusterChecks r snap nsFilter.

(** What [runOnce] emits, in order. *)
Definition run_reports (rules : list deployRule) (snap : option ClusterSnapshot) : list report :=
  match rules, snap with
  | [], _ | _, None => []
  | rules, Some snap => rules ≫= rule_reports snap
  end.
End Checks.

(** ** Alerts *)

Record Alert := {
  L_DetType : string;
  L_Source : string;
  L_RuleID : string;
  L_RuleName : string;
  L_Severity : string;
  L_Namespace : string;
  L_Target : string;
  L_Detail : string;
  L_Persist : bool;
  L_Fingerprint : string;
  L_Data : value;
}.

Definition fingerprint (p : report) : string :=
  Join ["dep"; R_ID (p_rule p); p_namespace p; p_workload p; p_check p] "|".

Definition alert_of (p : report) : Alert :=
  let r := p_rule p in
  {| L_DetType := "Deploy"; L_Source := sourceTag; L_RuleID := R_ID r;
     L_RuleName := if R_Name r == "" then R_ID r else R_Name r;
     L_Severity := R_Sev r; L_Namespace := p_namespace p; L_Target := p_workload p; L_Detail := p_detail p;
     L_Persist := true; L_Fingerprint := fingerprint p;
     L_Data := VMap [("check", VStr (p_check p)); ("namespace", VStr (p_namespace p)); ("workload", VStr (p_workload p))] |}.

(** [pending] is what the current [runOnce] has still to emit; [sent] is what
    was handed to the forwarder, with the time. *)
Record Alerter := {
  rules : list deployRule;
  lastRefreshOK : option Time;
  dedup : gmap string Time;
  pending : list report;
  sent : list (Time * Alert);
}.

Definition new_alerter : Alerter := {| rules := []; lastRefreshOK := None; dedup := ∅; pending := []; sent := [] |}.

Definition with_dedup (a : Alerter) (d : gmap string Time) : Alerter :=
  {| rules := rules a; lastRefreshOK := lastRefreshOK a; dedup := d; pending := pending a; sent := sent a |}.
Definition with_pending (a : Alerter) (ps : list report) : Alerter :=
  {| rules := rules a; lastRefreshOK := lastRefreshOK a; dedup := dedup a; pending := ps; sent := sent a |}.
Definition fwd_send (a : Alerter) (now : Time) (al : Alert) : Alerter :=
  {| rules := rules a; lastRefreshOK := lastRefreshOK a; dedup := dedup a; pending := pending a; sent := snoc (sent a) (now, al) |}.

Definition markFresh (a : Alerter) (fp : string) (now : Time) : Alerter * bool :=
  match dedup a !! fp with
  | Some last => if (TSub now last <? dedupTTL)%Z then (a, false) else (with_dedup a (<[fp := now]> (dedup a)), true)
  | None => (with_dedup a (<[fp := now]> (dedup a)), true)
  end.

Definition emit (a : Alerter) (p : report) (now : Time) : Alerter :=
  let '(a, fresh) := markFresh a (fingerprint p) now in
  if negb fresh then a else fwd_send a now (alert_of p).

(** [Fetch] gives the documents, a document that does not decode is passed
    over. *)
Definition refresh (a : Alerter) (fetched : option (list (option deployRule))) (now : Time) : Alerter :=
  match fetched with
  | None => a
  | Some docs => {| rules := omap id docs; lastRefreshOK := Some now; dedup := dedup a; pending := pending a; sent := sent a |}
  end.

Definition RuleCount (a : Alerter) : nat := length (rules a).

Definition StaleFor (a : option Alerter) (now : Time) : Duration :=
  match a with
  | None => 0%Z
  | Some a => match lastRefreshOK a with None => 0%Z | Some last => TSub now last end
  end.

Definition kept_entries (now : Time) (d : gmap string Time) : gmap string Time :=
  let cutoff := TAdd now (- dedupTTL)%Z in filter (λ kv : string * Time, ¬ (Before kv.2 cutoff = true)) d.

Definition sweep (a : Alerter) (now : Time) : Alerter :=
  let kept := kept_entries now (dedup a) in
  with_dedup a (if (dedupMaxEntries <? size kept)%nat then ∅ else kept).

(** ** The loops *)

Inductive event :=
| Begin (snap : option ClusterSnapshot)
| Emit (now : Time)
| Sweep (now : Time)
| Refresh (fetched : option (list (option deployRule))) (now : Time).

Section Steps.
Context {Q : Quantities} {M : MapOrder}.

(** [evalLoop] starts a run when the last is through. *)
Definition step (a : Alerter) (e : event) : Alerter :=
  match e with
  | Begin snap => match pending a with [] => with_pending a (run_reports (rules a) snap) | _ => a end
  | Emit now => match pending a with [] => a | p :: ps => emit (with_pending a ps) p now end
  | Sweep now => sweep a now
  | Refresh fetched now => refresh a fetched now
  end.

Definition steps (a : Alerter) (es : list event) : Alerter := fold_left step es a.
End Steps.

(** * The sensor's deploy alerts against the hub's posture checks

    Sensor and hub evaluate the same rules on the same workloads with code of
    their own. They report the same workloads, checks and order as long as
    images name no registry port, no quantity is zero and AppArmor annotations
    of the pod template are on the workload too; without one of these they
    differ. Alerts of one fingerprint are ten minutes apart, and what a run
    finds has an alert that is younger. *)



(** ** What the hub is sent *)

(** The sensor's snapshot as the hub decodes it: the Kubernetes types are encoded as
    JSON under the names that the hub's structs have as tags, so that every field the
    hub reads has the value of the sensor's field; the hub reads no kind from the
    list of workloads and no pods for the deploy checks. *)
Definition hub_view (d : Workload) : workload := {| W_Metadata := O_Metadata d; W_Spec := O_Spec d; W_kind := "" |}.
Definition hub_snapshot (s : ClusterSnapshot) : Snapshot :=
  {| Deployments := map hub_view (SN_Deployments s); StatefulSets := map hub_view (SN_StatefulSets s);
     DaemonSets := map hub_view (SN_DaemonSets s); Pods := []; NetworkPolicies := SN_NetworkPolicies s;
     Namespaces := SN_Namespaces s; Services := SN_Services s |}.

(** ** Where the two agree *)

(** The directory of an image reference has no port; a digest is written with
    its algorithm. *)
Definition plain_image (img : string) : bool :=
  if Contains img "@" then Contains img ":" && negb (HasSuffix img ":latest")
  else match LastIndexByte img "/" with Some i => negb (Contains (stake i img) ":") | None => true end.

Section Agree.
Context {T : CaseTables} {PT : PrintTables} {Q : Quantities} {M : MapOrder}.

Definition plain_quantity (m : list (string * value)) (key : string) : Prop :=
  match vlookup m key with None => True | Some (VStr t) => t ≠ "" ∧ quantity_IsZero t = false | Some _ => False end.

Definition plain_container (c : container) : Prop :=
  plain_image (C_Image c) = true
  ∧ ∀ key, key ∈ ["cpu"; "memory"] → plain_quantity (Limits c) key ∧ plain_quantity (Requests c) key.

Record plain_workload (d : Workload) : Prop := {
  plain_containers c : c ∈ all_containers (O_Spec d) → plain_container c;
  plain_apparmor k : HasPrefix k "container.apparmor" = true → O_Template d !! k = M_Annotations (O_Metadata d) !! k;
}.

Lemma containsCap_mem l x : containsCap l x = mem x l.
Proof.
  unfold mem, any. induction l as [|y l IH]; [done|]. cbn. rewrite IH, (String.eqb_sym y x). by destruct (x =? y)%string.
Qed.

Lemma capabilityDropList_drops c : capabilityDropList c = drops c.
Proof. unfold capabilityDropList, drops, sc. by destruct (SecurityContext c). Qed.

Lemma hasAny_mem l x : hasAny l [x] = mem x l.
Proof.
  unfold mem, any. induction l as [|y l IH]; [done|]. cbn. rewrite IH, orb_false_r, (String.eqb_sym y x). by destruct (x =? y)%string.
Qed.

Lemma each_spec {A} (f : A → bool) (text : A → string) l :
  is_Some (first_some (λ c, if f c then Some (text c) else None) l) ↔ ∃ c, c ∈ l ∧ f c = true.
Proof.
  rewrite first_some_is_Some. split; intros (c & Hc & H); exists c; (split; [done|]); destruct (f c); try done; by destruct H.
Qed.

(** Both look for a container; the tests agree. *)
Lemma each_found {A B} (f g : A → bool) (text : A → string) (text' : A → B) l :
  (∀ c, c ∈ l → f c = g c) →
  is_Some (first_some (λ c, if f c then Some (text c) else None) l) ↔ is_Some (text' <$> List.find g l).
Proof. intros H. rewrite each_spec, found_spec. split; intros (c & Hc & Hf); exists c; [rewrite <-(H c Hc)|rewrite (H c Hc)]; done. Qed.

(** *** Images *)

Lemma contains_colon s : Contains s ":" = false ↔ LastIndexByte s ":" = None.
Proof. symmetry. apply last_None. Qed.

Lemma last_app_r a b c i : LastIndexByte b c = Some i → LastIndexByte (a +:+ b) c = Some (String.length a + i)%nat.
Proof. intros H. induction a as [|x a IH]; [done|]. cbn. by rewrite IH. Qed.

Lemma last_app_l a b c : LastIndexByte b c = None → LastIndexByte (a +:+ b) c = LastIndexByte a c.
Proof. intros H. induction a as [|x a IH]; [done|]. cbn. by rewrite IH. Qed.

Lemma sdrop_after a c b : sdrop (String.length a + 1) (a +:+ String c b) = b.
Proof.
  rewrite <-(app_assoc_s a (String c "") b : _ = a +:+ String c b).
  replace (String.length a + 1)%nat with (String.length (a +:+ String c "")) by (by rewrite length_app_s). apply sdrop_app.
Qed.

Lemma sensorLatest_untagged img : Contains img ":" = false → sensorLatest img = true.
Proof. unfold sensorLatest. by intros ->. Qed.

Lemma sensorLatest_tagged img i : LastIndexByte img ":" = Some i → sensorLatest img = (sdrop (i + 1) img == "latest").
Proof.
  intros H. unfold sensorLatest. destruct (Contains img ":") eqn:E; cbn [negb]; [by rewrite H|].
  apply contains_colon in E. congruence.
Qed.

Lemma sensorLatest_suffix img : Contains img ":" = true → HasSuffix img ":latest" = false → sensorLatest img = false.
Proof.
  intros Hc Hs. destruct (LastIndexByte img ":") as [i|] eqn:E; [|apply contains_colon in E; congruence].
  rewrite (sensorLatest_tagged _ _ E). apply last_split in E as (a & b & -> & <- & _). rewrite sdrop_after.
  apply String.eqb_neq. intros ->. apply not_true_iff_false in Hs. apply Hs, HasSuffix_spec. by exists a.
Qed.

Lemma plain_latest img : plain_image img = true → sensorLatest img = latestTag img.
Proof.
  unfold plain_image, latestTag, after_last. destruct (String.eqb_spec img "") as [->|Hne]; [done|].
  destruct (Contains img "@"); cbn [orb].
  { intros H. bool_hyps. by apply sensorLatest_suffix. }
  destruct (LastIndexByte img "/") as [i|] eqn:E; cbn [negb].
  - intros H. bool_hyps. apply last_split in E as (a & b & -> & <- & Hb). rewrite stake_app in H. rewrite sdrop_after.
    apply contains_colon in H. destruct (LastIndexByte b ":") as [j|] eqn:Ej.
    + assert (LastIndexByte (a +:+ String "/" b) ":" = Some (String.length a + S j)%nat) as Hl
        by (apply last_app_r; cbn; by rewrite Ej).
      rewrite (sensorLatest_tagged _ _ Hl). replace (String.length a + S j + 1)%nat with (String.length a + 1 + (j + 1))%nat by lia.
      by rewrite sdrop_add, sdrop_after.
    + apply sensorLatest_untagged, contains_colon. rewrite last_app_l; [done|]. cbn. by rewrite Ej.
  - intros _. destruct (LastIndexByte img ":") as [j|] eqn:Ej; [by apply sensorLatest_tagged|].
    by apply sensorLatest_untagged, contains_colon.
Qed.

(** *** Quantities and annotations *)

Lemma plain_zero m key : plain_quantity m key → IsZeroAt m key = negb (quantity m key).
Proof.
  unfold plain_quantity, IsZeroAt, quantity. destruct (vlookup m key) as [[| | |t| |]|]; try done.
  intros [Ht ->]. by apply String.eqb_neq in Ht as ->.
Qed.

(** *** The checks *)

Lemma exposed_spec c :
  is_Some (exposed_secret c) ↔ (∃ name, Some (Some name) ∈ Env c) ∨ (∃ name, Some name ∈ EnvFrom c).
Proof.
  unfold exposed_secret.
  assert (is_Some (first_some (λ e, match e with Some (Some name) => Some name | _ => None end) (Env c)) ↔ ∃ name : string, Some (Some name) ∈ Env c) as H1.
  { rewrite first_some_is_Some. split; [intros (e & He & Hs)|intros [name Hn]; by exists (Some (Some name))].
    destruct e as [[name|]|]; [by exists name|by destruct Hs..]. }
  assert (is_Some (first_some (λ ef : option string, ef) (EnvFrom c)) ↔ ∃ name, Some name ∈ EnvFrom c) as H2.
  { rewrite first_some_is_Some. split; [intros (e & He & [name ->]); by exists name|intros [name Hn]; by exists (Some name)]. }
  destruct (first_some _ (Env c)).
  - split; [intros _; left; by apply H1|by eauto].
  - rewrite fmap_is_Some, H2. split; [by right|]. intros [H|H]; [|done]. apply H1 in H. by destruct H.
Qed.

Lemma writable_found spec :
  is_Some (first_some (λ v, match HostPath v with
                            | None => None
                            | Some path => if writable_mount (Containers spec ++ InitContainers spec) v
                                           then Some ("hostPath " +:+ quoted (V_Name v) +:+ " mounted writable at " +:+ path) else None
                            end) (Volumes spec))
  ↔ is_Some (writableHostPath spec).
Proof.
  rewrite first_some_is_Some. unfold writableHostPath. fold (all_containers spec). split.
  - intros (v & Hv & H). destruct (List.find _ (Volumes spec)) as [v'|] eqn:E.
    + apply find_some in E as [_ E]. destruct (HostPath v') as [path|]; [by eauto|done].
    + apply find_None in E. rewrite Forall_forall in E. specialize (E v Hv). destruct (HostPath v); [|by destruct H].
      unfold writable_mount in H. rewrite E in H. by destruct H.
  - destruct (List.find _ (Volumes spec)) as [v|] eqn:E; [|by intros []]. intros _.
    apply find_some in E as [Hv%list_elem_of_In E]. exists v. split; [done|]. destruct (HostPath v); [|done].
    unfold writable_mount. by rewrite E.
Qed.

(** A test of the security context reads the same with [sc]. *)
Lemma context_test {A} (f : securityContext → option A) (t : A → bool) (none : bool) c :
  f no_securityContext = None →
  match SecurityContext c with Some s => match f s with Some x => t x | None => none end | None => none end
  = match f (sc c) with Some x => t x | None => none end.
Proof. unfold sc. intros H. destruct (SecurityContext c); [done|]. cbn. by rewrite H. Qed.

Lemma root_found l (text text' : container → string) :
  is_Some (first_some (λ c, match SecurityContext c with
                            | None => None
                            | Some s => if match RunAsUser s with Some u => (u =? 0)%Z | None => false end then Some (text c)
                                        else if match RunAsNonRoot s with Some b => negb b | None => false end then Some (text' c) else None
                            end) l)
  ↔ ∃ c, c ∈ l ∧ match RunAsUser (sc c) with Some u => (u =? 0)%Z | None => false end || isFalse (RunAsNonRoot (sc c)) = true.
Proof.
  rewrite first_some_is_Some. unfold isFalse. split; intros (c & Hin & H); exists c; (split; [done|]); revert H;
    rewrite <-(context_test RunAsUser (λ u, (u =? 0)%Z) false c), <-(context_test RunAsNonRoot negb false c) by done;
    (destruct (SecurityContext c) as [s|]; [|intros H; (done || by destruct H)]);
    destruct (match RunAsUser s with Some u => (u =? 0)%Z | None => false end), (match RunAsNonRoot s with Some b => negb b | None => false end);
    cbn [orb]; intros H; (done || by destruct H || by eauto).
Qed.

Lemma zero_group gs : any (λ g, (g =? 0)%Z) gs = any (Z.eqb 0) gs.
Proof. unfold any. induction gs as [|g gs IH]; [done|]. cbn [existsb]. by rewrite IH, Z.eqb_sym. Qed.

Lemma group_found (p : option podSecurityContext) (text text' : string) :
  is_Some (match p with
           | None => None
           | Some s => if any (λ g, (g =? 0)%Z) (SupplementalGroups s) then Some text
                       else if match FSGroup s with Some g => (g =? 0)%Z | None => false end then Some text' else None
           end)
  ↔ match p with
    | Some p => any (Z.eqb 0) (SupplementalGroups p) || match FSGroup p with Some g => (g =? 0)%Z | None => false end
    | None => false
    end = true.
Proof.
  destruct p as [s|]; [|split; [by intros []|done]]. rewrite zero_group.
  destruct (any (Z.eqb 0) (SupplementalGroups s)), (match FSGroup s with Some g => (g =? 0)%Z | None => false end); cbn [orb];
    (split; [try done; by intros []|by eauto]).
Qed.

Lemma seccomp_found p l (text : string) (text' : container → string) :
  is_Some (if match p with
              | Some s => match PodSeccompProfile s with Some t => SType t == "Unconfined" | None => false end
              | None => false
              end then Some text
           else first_some (λ c, if match SecurityContext c with
                                    | Some s => match SeccompProfile s with Some t => SType t == "Unconfined" | None => false end
                                    | None => false
                                    end then Some (text' c) else None) l)
  ↔ unconfined (p ≫= PodSeccompProfile) || any (λ c, unconfined (SeccompProfile (sc c))) l = true.
Proof.
  assert (match p with Some s => match PodSeccompProfile s with Some t => SType t == "Unconfined" | None => false end | None => false end
          = unconfined (p ≫= PodSeccompProfile)) as -> by (by destruct p).
  destruct (unconfined (p ≫= PodSeccompProfile)); cbn [orb]; [split; [done|by eauto]|].
  rewrite each_spec, any_true. split; intros (c & Hin & H); exists c; (split; [done|]); revert H; unfold unconfined;
    by rewrite (context_test SeccompProfile (λ t, SType t == "Unconfined") false c).
Qed.

Lemma apparmor_found d (text text' : string → string) :
  (∀ k, HasPrefix k "container.apparmor" = true → O_Template d !! k = M_Annotations (O_Metadata d) !! k) →
  is_Some (first_some (λ kv, if HasPrefix kv.1 "container.apparmor" && (kv.2 == "unconfined") then Some (text kv.1) else None)
             (map_order (map_to_list (O_Template d))))
  ↔ is_Some (text' <$> List.find (λ k, HasPrefix k "container.apparmor" && (default "" (M_Annotations (O_Metadata d) !! k) == "unconfined"))
                         (merge_sort str_le (map fst (map_to_list (M_Annotations (O_Metadata d)))))).
Proof.
  intros Ha. rewrite (each_spec (λ kv : string * string, HasPrefix kv.1 "container.apparmor" && (kv.2 == "unconfined")) (λ kv, text kv.1)), found_spec.
  setoid_rewrite map_order_perm. setoid_rewrite merge_sort_Permutation. split.
  - intros ([k v] & Hin%elem_of_map_to_list & H). cbn [fst snd] in H. bool_hyps. subst v. rewrite Ha in Hin by done. exists k. split.
    + apply list_elem_of_fmap. exists (k, "unconfined"). split; [done|]. by apply elem_of_map_to_list.
    + by rewrite H, Hin.
  - intros (k & Hin & H). apply list_elem_of_fmap in Hin as ([k' v] & -> & Hin%elem_of_map_to_list). cbn [fst] in *. bool_hyps.
    rewrite Hin in H0. cbn in H0. subst v. exists (k', "unconfined"). cbn [fst snd]. split; [|by rewrite H].
    apply elem_of_map_to_list. by rewrite Ha.
Qed.

Lemma port_found l (text text' : port → string) :
  is_Some (first_some (λ c, first_some (λ p, if negb (HostPort p =? 0)%Z then Some (text p) else None) (Ports c)) l)
  ↔ is_Some (text' <$> first_some (λ c, List.find (λ p, negb (HostPort p =? 0)%Z) (Ports c)) l).
Proof.
  rewrite fmap_is_Some, !first_some_is_Some. split; intros (c & Hc & H); exists c; (split; [done|]); revert H;
    by rewrite (each_spec (λ p, negb (HostPort p =? 0)%Z)), find_is_Some.
Qed.

Local Ltac which E :=
  match goal with |- context [if mem ?check ?l then _ else _] => destruct (mem check l) eqn:E; [|clear E] end.
Local Ltac named E := apply mem_spec, list_elem_of_singleton in E as ->; cbn [mem any existsb String.eqb Ascii.eqb Bool.eqb orb].

(** Sensor and hub find a check violated or not alike. *)
Lemma check_agree kind d check : plain_workload d →
  is_Some (evalWorkloadCheck check (ref_of kind d)) ↔ is_Some (checkWorkload check (with_kind kind (hub_view d))).
Proof.
  intros [Hc Ha]. unfold evalWorkloadCheck, checkWorkload. cbn [ref_of w_spec w_anns with_kind hub_view W_Spec W_Metadata]. cbv zeta.
  fold (all_containers (O_Spec d)).
  which E; [apply each_found; intros c _; apply (context_test Privileged (λ b, b)); done|].
  which E; [done|]. which E; [done|]. which E; [done|].
  which E; [apply each_found; intros c _; f_equal; apply (context_test AllowPrivilegeEscalation negb); done|].
  which E; [rewrite found_spec; apply root_found|].
  which E; [rewrite when_spec; apply group_found|].
  which E; [apply each_found; intros c _; by rewrite capabilityDropList_drops, !containsCap_mem|].
  which E; [apply each_found; intros c _; by rewrite capabilityDropList_drops, !containsCap_mem|].
  which E; [rewrite when_spec; apply seccomp_found|].
  which E; [by apply (apparmor_found d (λ k, "AppArmor annotation " +:+ k +:+ "=unconfined"))|].
  which E; [apply each_found; intros c _; f_equal; apply (context_test ReadOnlyRootFilesystem (λ b, b)); done|].
  which E; [rewrite !first_some_is_Some; by setoid_rewrite fmap_is_Some|].
  destruct (mem check ["no-host-path-write"]) eqn:E1; [named E1; rewrite fmap_is_Some; apply writable_found|].
  destruct (mem check ["no-host-path-write-rt"]) eqn:E2; [named E2; rewrite fmap_is_Some; apply writable_found|].
  assert (mem check ["no-host-path-write"; "no-host-path-write-rt"] = false) as ->.
  { apply mem_false. apply mem_false in E1, E2. set_solver. }
  which E; [apply port_found|].
  which E; [apply each_found; intros c Hin; destruct (Hc c Hin) as [_ Hq]; rewrite !plain_zero by (apply Hq; set_solver); done|].
  which E; [apply each_found; intros c Hin; destruct (Hc c Hin) as [_ Hq]; rewrite !plain_zero by (apply Hq; set_solver); done|].
  which E; [apply each_found; intros c Hin; destruct (Hc c Hin) as [Hi _]; by apply plain_latest|].
  which E; [rewrite !when_spec; by destruct (AutomountServiceAccountToken (O_Spec d)) as [[]|]|].
  which E; [|done]. rewrite !first_some_is_Some. setoid_rewrite exposed_spec. setoid_rewrite secret_of_spec. done.
Qed.

(** *** Reports *)

Definition sensor_key (p : report) : string * string * string * string :=
  (R_ID (p_rule p), p_namespace p, p_workload p, p_check p).
Definition hub_key (f : Finding) : string * string * string * string :=
  (F_PolicyID f, F_NS f, F_Workload f +:+ " (" +:+ F_Kind f +:+ ")", F_Check f).

(** The rule and the policy are read from one document. *)
Record same_rule (r : deployRule) (p : Posture.Policy) : Prop := {
  same_id : R_ID r = P_ID p;
  same_namespace : R_Namespace r = P_Namespace p;
  same_checks : R_DeployChecks r = P_DeployChecks p;
  same_active : active p = true;
  same_type : P_DetType p = "Deploy";
}.

Definition plain_snapshot (s : ClusterSnapshot) : Prop :=
  ∀ d, d ∈ SN_Deployments s ++ SN_StatefulSets s ++ SN_DaemonSets s → plain_workload d.

Lemma map_omap_eq {A B B' K} (f : B → K) (f' : B' → K) (g : A → option B) (g' : A → option B') l :
  (∀ x, f <$> g x = f' <$> g' x) → map f (omap g l) = map f' (omap g' l).
Proof.
  intros H. induction l as [|x l IH]; [done|]. cbn. specialize (H x). destruct (g x), (g' x); cbn in *; simplify_eq; [|done].
  by rewrite H, IH.
Qed.

Lemma workload_agree e r p kind d checks : same_rule r p → plain_workload d →
  map sensor_key (omap (workload_report r (ref_of kind d)) checks)
  = map hub_key (omap (workload_finding e p (with_kind kind (hub_view d))) checks).
Proof.
  intros Hr Hd. apply map_omap_eq. intros check. pose proof (check_agree kind d check Hd) as H. unfold workload_report, workload_finding.
  destruct (evalWorkloadCheck check (ref_of kind d)) as [x|], (checkWorkload check (with_kind kind (hub_view d))) as [y|]; cbn; try done.
  - unfold sensor_key. cbn. by rewrite (same_id _ _ Hr).
  - destruct (proj1 H) as [z Hz]; [by eauto|done].
  - destruct (proj2 H) as [z Hz]; [by eauto|done].
Qed.

Lemma hasAny_cons x ws l : hasAny l (x :: ws) = mem x l || hasAny l ws.
Proof.
  unfold mem. induction l as [|y l IH]; [done|]. cbn. rewrite IH, (String.eqb_sym y x). unfold any.
  by destruct (x =? y)%string, (existsb (String.eqb y) ws), (existsb (String.eqb x) l).
Qed.

Lemma open_rule (rules : list (list string)) :
  any (λ peers : list string, (length peers =? 0)%nat) rules = any (λ peers, match peers with [] => true | _ => false end) rules.
Proof. unfold any. induction rules as [|l ls IH]; [done|]. cbn. rewrite IH. by destruct l. Qed.

Lemma none_wanted {A} (b1 b2 b3 b4 : bool) (l1 l2 l3 l4 : list A) :
  (if negb (b1 || (b2 || (b3 || b4))) then [] else (if b1 then l1 else []) ++ (if b2 then l2 else []) ++ (if b3 then l3 else []) ++ (if b4 then l4 else []))
  = (if b1 then l1 else []) ++ (if b2 then l2 else []) ++ (if b3 then l3 else []) ++ (if b4 then l4 else []).
Proof. by destruct b1, b2, b3, b4. Qed.

Lemma wanted_agree {A B K} (f : A → K) (g : B → K) (b : bool) l l' :
  map f l = map g l' → map f (if b then l else []) = map g (if b then l' else []).
Proof. by destruct b. Qed.

Lemma clusters_agree e r p s ns : same_rule r p →
  map sensor_key (evalClusterChecks r s ns) = map hub_key (clusterChecks e p (hub_snapshot s) ns).
Proof.
  intros Hr. unfold evalClusterChecks, clusterChecks. cbv zeta. rewrite !hasAny_cons.
  cbn [hub_snapshot NetworkPolicies Namespaces Services]. rewrite (same_checks _ _ Hr).
  replace (hasAny (P_DeployChecks p) []) with false by (by induction (P_DeployChecks p)).
  rewrite !orb_false_r, none_wanted, !map_app. repeat f_equal; apply wanted_agree, map_omap_eq; intros x; rewrite ?open_rule;
    change (systemNS ?n || ?b) with (skip ns n); destruct (skip ns _); cbn [orb]; try done.
  1: destruct (any _ (SN_NetworkPolicies s)). 3-4: destruct (any _ _). 7: destruct (S_Type x == "NodePort").
  all: unfold sensor_key; cbn; by rewrite ?(same_id _ _ Hr).
Qed.

Lemma map_bind {A B K} (f : B → K) (g : A → list B) l : map f (l ≫= g) = l ≫= (λ x, map f (g x)).
Proof. induction l as [|x l IH]; [done|]. cbn. by rewrite map_app, IH. Qed.

Lemma bind_eq {A B K} (g : A → list K) (h : B → list K) (v : A → B) l : (∀ x, x ∈ l → g x = h (v x)) → l ≫= g = map v l ≫= h.
Proof.
  induction l as [|x l IH]; intros H; [done|]. cbn. rewrite H by left. f_equal. apply IH. intros y Hy. apply H. by right.
Qed.

Lemma rule_agree e r p s : same_rule r p → plain_snapshot s →
  map sensor_key (rule_reports s r) = map hub_key (deploy_policy e (hub_snapshot s) p).
Proof.
  intros Hr Hs. unfold rule_reports, deploy_policy. rewrite (same_active _ _ Hr), (same_type _ _ Hr). cbn [negb orb String.eqb Ascii.eqb Bool.eqb].
  rewrite !map_app, (same_namespace _ _ Hr), !map_bind. f_equal; [|by apply clusters_agree].
  unfold workload_refs, workloads. cbn [hub_snapshot Deployments StatefulSets DaemonSets]. rewrite !bind_app, !map_map.
  assert (∀ kind ds, (∀ d, d ∈ ds → plain_workload d) →
    map (ref_of kind) ds ≫= (λ w, map sensor_key (if (TrimSpace (P_Namespace p) != "") && (w_namespace w != TrimSpace (P_Namespace p)) then []
                                                  else omap (workload_report r w) (R_DeployChecks r)))
    = map (λ d, with_kind kind (hub_view d)) ds ≫= (λ w, map hub_key (if (TrimSpace (P_Namespace p) != "") && (M_Namespace (W_Metadata w) != TrimSpace (P_Namespace p)) then []
                                                  else omap (workload_finding e p w) (P_DeployChecks p)))) as H.
  { intros kind ds Hd. induction ds as [|d ds IH]; [done|]. cbn [map]. rewrite !bind_cons, IH by (intros; apply Hd; by right). f_equal.
    cbn [ref_of w_namespace with_kind hub_view W_Metadata]. case_match; [done|]. rewrite (same_checks _ _ Hr).
    apply workload_agree; [done|]. apply Hd. by left. }
  by rewrite !H by (intros d Hd; apply Hs; set_solver).
Qed.

(** C34: On a snapshot whose images name no registry port, whose quantities are
    not zero and whose AppArmor annotations are on the workload as on the pod
    template, the sensor reports the same rules, namespaces, workloads and
    checks in the same order as the hub's posture checks do. *)
Theorem sensor_hub_agree e rules policies s : Forall2 same_rule rules policies → plain_snapshot s →
  map sensor_key (run_reports rules (Some s)) = map hub_key (Deploy e policies (Some (hub_snapshot s))).
Proof.
  intros Hr Hs. assert (run_reports rules (Some s) = rules ≫= rule_reports s) as -> by (by destruct rules).
  unfold Deploy. rewrite !map_bind. induction Hr as [|r p rules policies H _ IH]; [done|].
  by rewrite !bind_cons, IH, (rule_agree e r p s H Hs).
Qed.
End Agree.

(** ** Pacing of the alerts *)

Section Pacing.
Context {Q : Quantities} {M : MapOrder}.

(** A step happens at its time; a sweep keeps what is young enough unless the
    table is too full, when it drops everything. *)
Definition at_time (e : event) (now : Time) : Prop :=
  match e with Begin _ => True | Emit t | Sweep t | Refresh _ t => t = now end.
Definition wipes (a : Alerter) (e : event) : Prop :=
  match e with Sweep t => (dedupMaxEntries < size (kept_entries t (dedup a)))%nat | _ => False end.

(** [reach wiped now a]: [a] is reached at [now], with a sweep that dropped
    everything only if [wiped]. *)
Inductive reach (wiped : bool) : Time → Alerter → Prop :=
| reach_new now : (unixEpoch ≤ now < horizon)%Z → reach wiped now new_alerter
| reach_step now a e now' : reach wiped now a → (now ≤ now' < horizon)%Z → at_time e now' →
    (wiped = false → ¬ wipes a e) → reach wiped now' (step a e).

Definition told (a : Alerter) (fp : string) (t : Time) : Prop := ∃ al, (t, al) ∈ sent a ∧ L_Fingerprint al = fp.

Record paced (wiped : bool) (now : Time) (a : Alerter) : Prop := {
  paced_now : (unixEpoch ≤ now < horizon)%Z;
  paced_entry fp t : dedup a !! fp = Some t → told a fp t;
  paced_time fp t : told a fp t → (unixEpoch ≤ t ≤ now)%Z;
  paced_kept fp t : wiped = false → told a fp t → (t + dedupTTL ≤ now)%Z ∨ ∃ t' : Time, dedup a !! fp = Some t' ∧ (t ≤ t')%Z;
  paced_apart i j t t' al al' : wiped = false → (i < j)%nat → sent a !! i = Some (t, al) → sent a !! j = Some (t', al') →
    L_Fingerprint al = L_Fingerprint al' → (t + dedupTTL ≤ t')%Z;
}.

(** Everything but the table and the alerts is irrelevant to [paced]. *)
Lemma paced_same wiped now now' a a' : dedup a' = dedup a → sent a' = sent a → (now ≤ now' < horizon)%Z →
  paced wiped now a → paced wiped now' a'.
Proof.
  intros Hd Hs Hn [H1 H2 H3 H4 H5]. unfold told in *. constructor; unfold told; rewrite ?Hd, ?Hs; try done; [lia| |].
  - intros fp t H. specialize (H3 fp t H). lia.
  - intros fp t Hw H. destruct (H4 fp t Hw H) as [?|?]; [left; lia|by right].
Qed.

Lemma emit_quiet a p now last : dedup a !! fingerprint p = Some last → (TSub now last <? dedupTTL)%Z = true → emit a p now = a.
Proof. intros H1 H2. unfold emit, markFresh. by rewrite H1, H2. Qed.

Lemma emit_loud a p now :
  (∀ last, dedup a !! fingerprint p = Some last → (TSub now last <? dedupTTL)%Z = false) →
  emit a p now = fwd_send (with_dedup a (<[fingerprint p := now]> (dedup a))) now (alert_of p).
Proof. intros H. unfold emit, markFresh. destruct (dedup a !! fingerprint p); [by rewrite H|done]. Qed.

Lemma told_send a fp t d now al :
  told (fwd_send (with_dedup a d) now al) fp t ↔ told a fp t ∨ (t = now ∧ L_Fingerprint al = fp).
Proof.
  unfold told. cbn. split.
  - intros (al' & [H|H%list_elem_of_singleton]%elem_of_app & E); [by eauto|simplify_eq; by right].
  - intros [(al' & H & E)|[-> E]]; [exists al'|exists al]; (split; [|done]); apply elem_of_app; [by left|right; by left].
Qed.

Lemma send_paced wiped now now' a p : (now ≤ now' < horizon)%Z → paced wiped now a →
  (wiped = false → ∀ t, told a (fingerprint p) t → (t + dedupTTL ≤ now')%Z) →
  paced wiped now' (fwd_send (with_dedup a (<[fingerprint p := now']> (dedup a))) now' (alert_of p)).
Proof.
  intros Hn [H1 H2 H3 H4 H5] Hold. constructor; [lia|..]; cbn [fwd_send with_dedup dedup sent].
  - intros fp t [[<- <-]|[_ Hl]]%lookup_insert_Some; apply told_send; [by right|left; by apply H2].
  - intros fp t [Ht|[-> _]]%told_send; [specialize (H3 fp t Ht)|]; lia.
  - intros fp t Hw [Ht|[-> <-]]%told_send; [|right; exists now'; rewrite lookup_insert_eq; split; [done|lia]].
    destruct (decide (fp = fingerprint p)) as [->|Hne].
    + right. exists now'. rewrite lookup_insert_eq. specialize (H3 _ t Ht). split; [done|lia].
    + rewrite lookup_insert_ne by done. destruct (H4 fp t Hw Ht) as [?|?]; [left; lia|by right].
  - intros i j t t' al al' Hw Hij [Hi|[Hi1 Hi2]]%lookup_snoc_Some [Hj|[Hj1 Hj2]]%lookup_snoc_Some Hf; simplify_eq; try lia.
    + destruct Hi as [_ Hi], Hj as [_ Hj]. by apply (H5 i j t t' al al').
    + apply (Hold eq_refl). exists al. destruct Hi as [_ Hi]. split; [by eapply list_elem_of_lookup_2|done].
Qed.

Lemma emit_paced wiped now now' a p : (now ≤ now' < horizon)%Z → paced wiped now a → paced wiped now' (emit a p now').
Proof.
  intros Hn H. destruct (dedup a !! fingerprint p) as [last|] eqn:E; [destruct (TSub now' last <? dedupTTL)%Z eqn:Et|].
  - rewrite (emit_quiet _ _ _ _ E Et). by apply (paced_same _ now _ a).
  - rewrite emit_loud by (intros l; rewrite E; intros [=]; by subst). apply (send_paced _ now); [done|done|]. intros Hw t Ht.
    pose proof (paced_now _ _ _ H). pose proof (paced_time _ _ _ H _ _ (paced_entry _ _ _ H _ _ E)). bool_hyps. rewrite TSub_exact in Et by lia.
    destruct (paced_kept _ _ _ H _ t Hw Ht) as [?|(t' & E' & ?)]; [lia|]. assert (t' = last) as -> by congruence. lia.
  - rewrite emit_loud by (intros l; by rewrite E). apply (send_paced _ now); [done|done|]. intros Hw t Ht.
    destruct (paced_kept _ _ _ H _ t Hw Ht) as [?|(t' & E' & ?)]; [lia|congruence].
Qed.

Lemma kept_Some now d fp t : kept_entries now d !! fp = Some t ↔ d !! fp = Some t ∧ (now - dedupTTL ≤ t)%Z.
Proof. unfold kept_entries. rewrite map_lookup_filter_Some. unfold Before, TAdd. cbn. rewrite Z.ltb_lt. intuition lia. Qed.

Lemma sweep_paced wiped now now' a : (now ≤ now' < horizon)%Z → (wiped = false → ¬ wipes a (Sweep now')) →
  paced wiped now a → paced wiped now' (sweep a now').
Proof.
  intros Hn Hw [H1 H2 H3 H4 H5]. cbn [wipes] in Hw.
  assert (∀ fp t, dedup (sweep a now') !! fp = Some t → dedup a !! fp = Some t) as Hsub.
  { intros fp t. unfold sweep. cbn. case_match; [by rewrite lookup_empty|]. by intros [? _]%kept_Some. }
  constructor; unfold told; cbn [sweep with_dedup sent]; try done; [lia| | |].
  - intros fp t H. by apply H2, Hsub.
  - intros fp t H. specialize (H3 fp t H). lia.
  - intros fp t Hf H. destruct (H4 fp t Hf H) as [?|(t' & E & ?)]; [left; lia|].
    destruct (decide (now' - dedupTTL ≤ t')%Z) as [Hy|Ho]; [|left; lia]. right. exists t'. split; [|done].
    unfold sweep. cbn [with_dedup dedup]. case_if; [by destruct (Hw Hf)|]. by apply kept_Some.
Qed.

Lemma reach_paced wiped now a : reach wiped now a → paced wiped now a.
Proof.
  induction 1 as [now Hn|now a e now' _ IH Hn Ht Hw].
  - constructor; try done; unfold told; cbn; try (by intros ? ? (? & ?%elem_of_nil & _)). by intros ? ? _ (? & ?%elem_of_nil & _).
  - destruct e as [snap|t|t|docs t]; cbn [step at_time] in *; subst.
    + destruct (pending a); by apply (paced_same _ now _ a).
    + destruct (pending a) as [|p ps]; [by apply (paced_same _ now _ a)|]. apply (emit_paced _ now); [done|].
      apply (paced_same _ now _ a); try done. destruct IH. lia.
    + by apply (sweep_paced _ now).
    + destruct docs; by apply (paced_same _ now _ a).
Qed.

(** C35: with a clock that does not go back and stays between 1970 and 2116,
    while evaluations, refreshes and sweeps interleave: every violation a run
    reports has an alert of its fingerprint younger than ten minutes when the
    run has passed it; and as long as no sweep finds the table too full,
    alerts of one fingerprint are at least ten minutes apart. *)
Theorem violations_alerted wiped now a :
  reach wiped now a →
  (∀ p ps now', pending a = p :: ps → (now ≤ now' < horizon)%Z →
     ∃ t : Time, told (step a (Emit now')) (fingerprint p) t ∧ (now' - dedupTTL < t ≤ now')%Z)
  ∧ (wiped = false → ∀ i j t t' al al', (i < j)%nat → sent a !! i = Some (t, al) → sent a !! j = Some (t', al') →
     L_Fingerprint al = L_Fingerprint al' → (t + dedupTTL ≤ t')%Z).
Proof.
  intros H%reach_paced. split; [|intros Hw i j t t' al al'; by apply (paced_apart _ _ _ H)].
  intros p ps now' Hp Hn. cbn [step]. rewrite Hp. pose proof (paced_now _ _ _ H).
  destruct (dedup a !! fingerprint p) as [last|] eqn:E; [destruct (TSub now' last <? dedupTTL)%Z eqn:Et|].
  - rewrite (emit_quiet (with_pending a ps) _ _ _ E Et). exists last.
    pose proof (paced_entry _ _ _ H _ _ E) as Ht. pose proof (paced_time _ _ _ H _ _ Ht). bool_hyps. rewrite TSub_exact in Et by lia.
    split; [done|lia].
  - rewrite emit_loud by (cbn [with_pending dedup]; intros l; rewrite E; intros [=]; by subst). exists now'. split; [apply told_send; by right|]. unfold dedupTTL, Minute, Second. lia.
  - rewrite emit_loud by (cbn [with_pending dedup]; intros l; by rewrite E). exists now'. split; [apply told_send; by right|]. unfold dedupTTL, Minute, Second. lia.
Qed.
End Pacing.

(** ** The sensor's own decimal text *)

Lemma itoa_uint fuel z acc : (0 < z < 10 ^ Z.of_nat fuel)%Z → itoa_digits fuel z acc = uint_digits fuel z acc.
Proof.
  revert z acc. induction fuel as [|fuel IH]; intros z acc Hz; [lia|]. cbn [itoa_digits uint_digits].
  replace (0 <? z)%Z with true by lia. case_if.
  - rewrite Z.div_small by lia. by destruct fuel.
  - apply IH. rewrite Nat2Z.inj_succ, Z.pow_succ_r in Hz by lia. split; [apply Z.div_str_pos; lia|apply Z.div_lt_upper_bound; lia].
Qed.

Lemma itoa_FormatInt n : (minInt64 < n ≤ maxInt64)%Z → itoa n = FormatInt n.
Proof.
  unfold minInt64, maxInt64. intros Hn. unfold itoa, FormatInt, neg64, minInt64. repeat case_if; try lia; subst; try done.
  all: rewrite ?itoa_uint by lia; try done.
Qed.

(** ** Concrete clusters *)

(** A zero quantity is sent as the text 0. *)
Definition demo_quantities : Quantities := {| quantity_IsZero t := t == "0" |}.
Local Existing Instances demo_quantities keep_order ascii_tables no_wide_print.

Definition demo_container (image cpu : string) : container :=
  {| C_Name := "api"; C_Image := image; SecurityContext := Some no_securityContext; Ports := [{| ContainerPort := 80; HostPort := 8080 |}];
     VolumeMounts := []; Limits := [("cpu", VStr cpu); ("memory", VStr "64Mi")]; Requests := []; Env := []; EnvFrom := [] |}.
Definition demo_workload (image cpu : string) (own template : gmap string string) : Workload :=
  {| O_Metadata := {| M_Name := "api"; M_Namespace := "shop"; M_Annotations := own |}; O_Template := template;
     O_Spec := {| Containers := [demo_container image cpu]; InitContainers := []; HostPID := true; HostIPC := false; HostNetwork := false;
                  PodSecurityContext := None; ServiceAccountName := "api"; AutomountServiceAccountToken := None; Volumes := [] |} |}.
Definition demo_snapshot (d : Workload) : ClusterSnapshot :=
  {| SN_Deployments := [d]; SN_StatefulSets := []; SN_DaemonSets := []; SN_NetworkPolicies := [];
     SN_Namespaces := [{| M_Name := "shop"; M_Namespace := ""; M_Annotations := ∅ |}]; SN_Services := [] |}.

Definition demo_checks : list string := ["no-host-pid"; "no-host-port"; "no-latest-tag"; "resource-limits"; "no-apparmor-unconfined"; "ns-no-netpol-rt"].
Definition demo_rule : deployRule :=
  {| R_ID := "p1"; R_Name := ""; R_Enabled := true; R_AlertOnly := true; R_DetType := "Deploy"; R_Sev := "HIGH"; R_Namespace := "";
     R_DeployChecks := demo_checks |}.
Definition demo_policy : Posture.Policy :=
  {| P_ID := "p1"; P_Name := ""; P_Sev := "HIGH"; P_Action := ""; P_Namespace := ""; P_DetType := "Deploy"; P_Enabled := Some true;
     P_TrustedRegistries := ""; P_BuildInstruction := ""; P_DeployChecks := demo_checks |}.
Definition demo_evaluator : Evaluator := {| Cluster := "c1"; Now := Hour |}.

Definition sensor_checks (d : Workload) : list string := map p_check (run_reports [demo_rule] (Some (demo_snapshot d))).
Definition hub_checks (d : Workload) : list string := map F_Check (Deploy demo_evaluator [demo_policy] (Some (hub_snapshot (demo_snapshot d)))).

Definition demo_plain : Workload := demo_workload "docker.io/shop/api:latest" "1" ∅ ∅.
Definition demo_unconfined : gmap string string := {["container.apparmor.security.beta.kubernetes.io/api" := "unconfined"]}.

Example plain_checks : sensor_checks demo_plain = ["no-host-pid"; "no-host-port"; "no-latest-tag"; "ns-no-netpol-rt"].
Proof. vm_compute. reflexivity. Qed.

(** The port of a registry is taken for a tag by the sensor. *)
Example port_taken_for_tag :
  let d := demo_workload "registry:5000/shop/api" "1" ∅ ∅ in
  sensor_checks d = ["no-host-pid"; "no-host-port"; "ns-no-netpol-rt"]
  ∧ hub_checks d = ["no-host-pid"; "no-host-port"; "no-latest-tag"; "ns-no-netpol-rt"].
Proof. vm_compute. done. Qed.

(** A limit of zero is a limit to the hub and none to the sensor. *)
Example zero_limit :
  let d := demo_workload "shop/api:1" "0" ∅ ∅ in
  sensor_checks d = ["no-host-pid"; "no-host-port"; "resource-limits"; "ns-no-netpol-rt"]
  ∧ hub_checks d = ["no-host-pid"; "no-host-port"; "ns-no-netpol-rt"].
Proof. vm_compute. done. Qed.

(** The hub does not see the annotations of the pod template. *)
Example template_not_seen :
  let d := demo_workload "shop/api:1" "1" ∅ demo_unconfined in
  sensor_checks d = ["no-host-pid"; "no-host-port"; "no-apparmor-unconfined"; "ns-no-netpol-rt"]
  ∧ hub_checks d = ["no-host-pid"; "no-host-port"; "ns-no-netpol-rt"].
Proof. vm_compute. done. Qed.

Lemma demo_same : same_rule demo_rule demo_policy.
Proof. by constructor. Qed.

Lemma demo_plain_ok : plain_snapshot (demo_snapshot demo_plain).
Proof.
  intros d Hd. apply list_elem_of_singleton in Hd as ->. constructor; [|done]. intros c Hc. apply list_elem_of_singleton in Hc as ->.
  split; [by vm_compute|]. intros key Hk. repeat (apply elem_of_cons in Hk as [->|Hk]); [..|by apply elem_of_nil in Hk]; by vm_compute.
Qed.

Lemma sensor_hub_agree_witness :
  map sensor_key (run_reports [demo_rule] (Some (demo_snapshot demo_plain)))
  = map hub_key (Deploy demo_evaluator [demo_policy] (Some (hub_snapshot (demo_snapshot demo_plain)))).
Proof. apply sensor_hub_agree; [constructor; [apply demo_same|constructor]|apply demo_plain_ok]. Defined.

Definition demo_run : Alerter :=
  step (step new_alerter (Refresh (Some [Some demo_rule]) newYear)) (Begin (Some (demo_snapshot demo_plain))).

Lemma demo_reached : reach false newYear demo_run.
Proof.
  unfold demo_run. assert (unixEpoch ≤ newYear < horizon)%Z by (unfold newYear, Second, horizon; lia).
  apply (reach_step _ newYear); [apply (reach_step _ newYear); [by apply reach_new|..]|..];
    first [done|split; [done|apply H]|by intros _ []].
Qed.

Lemma violations_alerted_witness :
  ∃ t : Time, told (step demo_run (Emit newYear)) "dep|p1|shop|api (Deployment)|no-host-pid" t ∧ (newYear - dedupTTL < t ≤ newYear)%Z.
Proof.
  destruct (violations_alerted false newYear demo_run demo_reached) as [H _]. assert (H' := H _ _ newYear eq_refl). apply H'.
  split; [reflexivity|]. unfold newYear, Second, horizon; lia.
Defined.
