(* ===== verification/ScanImages.v ===== *)
(** * scanner-agent/internal: images of the cluster

    types.go, k8s/images.go, api/util.go. The pods come from the Kubernetes
    client page by page; the images of running and pending pods are collected
    by reference, with the pods, namespaces, nodes and workloads that use
    them. *)

From Stdlib Require Import Ascii.
From stdpp Require Import base list gmap strings.
From S2P Require Import Prelude GoStrings GoValue Posture PostureProps.
Local Open Scope string_scope.
Local Open Scope list_scope.
Local Open Scope go_scope.

(** ** Data *)

Record ImageWorkload := {
  IW_Image : string;
  IW_Pod : string;
  IW_Namespace : string;
  IW_PodUID : string;
  IW_PodIP : string;
  IW_Node : string;
  IW_ObservedAt : Time;
}.

Record ClusterImage := {
  CI_Ref : string;
  CI_Name : string;
  CI_Tag : string;
  CI_Digest : string;
  CI_Pods : list string;
  CI_Namespaces : list string;
  CI_Nodes : list string;
  CI_Workloads : list ImageWorkload;
  CI_PullPolicy : string;
}.

(** What the scanner gets of a container and of its status. *)
Record spec_container := { SC_Name : string; SC_Image : string; SC_PullPolicy : string }.
Record container_status := { ST_Name : string; ST_Image : string; ST_ImageID : string }.
Record Pod := {
  PD_Phase : string;
  PD_Namespace : string;
  PD_Name : string;
  PD_Node : string;
  PD_UID : string;
  PD_IP : string;
  PD_Init : list spec_container;
  PD_Containers : list spec_container;
  PD_InitStatuses : list container_status;
  PD_Statuses : list container_status;
}.

(** ** References *)

Definition hasPrefix (s prefix : string) : bool :=
  (String.length prefix <=? String.length s)%nat && (stake (String.length prefix) s == prefix).

Definition is_hex (r : Z) : bool := (((48 <=? r) && (r <=? 57)) || ((97 <=? r) && (r <=? 102)))%Z.
Definition isBareSHA (s : string) : bool :=
  if negb (String.length s =? 64)%nat then false else forallb is_hex (runes s).

(** The first status of that name. *)
Definition resolveImage (name specImage : string) (statuses : list container_status) : string * string :=
  match List.find (λ s, ST_Name s == name) statuses with
  | None => (specImage, "")
  | Some s => (if ST_Image s != "" then ST_Image s else specImage,
               match Index (ST_ImageID s) "sha256:" with Some i => sdrop i (ST_ImageID s) | None => "" end)
  end.

(** What follows the last slash, and what comes before it with the slash. *)
Definition cut_last (ref : string) : string * string :=
  match LastIndexByte ref "/" with Some i => (stake (i + 1) ref, sdrop (i + 1) ref) | None => ("", ref) end.

(** Name, tag and digest. *)
Definition parseRef (ref : string) : string * string * string :=
  let '(ref, digest) := match Index ref "@" with Some i => (stake i ref, sdrop (i + 1) ref) | None => (ref, "") end in
  let '(dir, sub) := cut_last ref in
  match LastIndexByte sub ":" with
  | Some i => (dir +:+ stake i sub, sdrop (i + 1) sub, digest)
  | None => (ref, "latest", digest)
  end.

(** ** Listing *)

Record image_meta := {
  im_pods : gset string;
  im_namespaces : gset string;
  im_nodes : gset string;
  im_workloads : gmap string ImageWorkload;
  im_policy : string;
  im_digest : string;
}.

Definition newWorkload (image ns pod podUID podIP node : string) (now : Time) : ImageWorkload :=
  {| IW_Image := image; IW_Pod := pod; IW_Namespace := ns; IW_PodUID := podUID; IW_PodIP := podIP; IW_Node := node;
     IW_ObservedAt := now |}.

(** One call of [add]; [now] is the clock of its [newWorkload]. *)
Definition add_use (seen : gmap string image_meta) (ref digest : string) (p : Pod) (policy : string) (now : Time) : gmap string image_meta :=
  if ref == "" then seen
  else
    let key := PD_Namespace p +:+ String "000" (PD_UID p) in
    let w := newWorkload ref (PD_Namespace p) (PD_Name p) (PD_UID p) (PD_IP p) (PD_Node p) now in
    match seen !! ref with
    | Some m =>
        <[ref := {| im_pods := {[PD_Name p]} ∪ im_pods m; im_namespaces := {[PD_Namespace p]} ∪ im_namespaces m;
                    im_nodes := {[PD_Node p]} ∪ im_nodes m;
                    im_workloads := match im_workloads m !! key with Some _ => im_workloads m | None => <[key := w]> (im_workloads m) end;
                    im_policy := im_policy m;
                    im_digest := if (im_digest m == "") && (digest != "") then digest else im_digest m |}]> seen
    | None =>
        <[ref := {| im_pods := {[PD_Name p]}; im_namespaces := {[PD_Namespace p]}; im_nodes := {[PD_Node p]};
                    im_workloads := {[key := w]}; im_policy := policy; im_digest := digest |}]> seen
    end.

Definition live (p : Pod) : bool := negb ((PD_Phase p != "Running") && (PD_Phase p != "Pending")).

(** The containers of a pod in the order they are added, with what they resolve
    to. *)
Definition pod_uses (p : Pod) : list (string * string * Pod * string) :=
  if live p then
    map (λ c, (resolveImage (SC_Name c) (SC_Image c) (PD_InitStatuses p), p, SC_PullPolicy c)) (PD_Init p)
    ++ map (λ c, (resolveImage (SC_Name c) (SC_Image c) (PD_Statuses p), p, SC_PullPolicy c)) (PD_Containers p)
  else [].

Definition collect_images (pods : list Pod) (now : Time) : gmap string image_meta :=
  fold_left (λ seen u, let '(ref, digest, p, policy) := u in add_use seen ref digest p policy now) (pods ≫= pod_uses) ∅.

Section List_images.
Context {M : MapOrder}.

Definition setToSlice (s : gset string) : list string := map_order (elements s).

Definition workloadSlice (m : gmap string ImageWorkload) : list ImageWorkload := map_order (map snd (map_to_list m)).

Definition image_of (rm : string * image_meta) : ClusterImage :=
  let '(ref, m) := rm in
  let '(name, tag, digestFromRef) := parseRef ref in
  {| CI_Ref := ref; CI_Name := name; CI_Tag := tag;
     CI_Digest := if im_digest m == "" then digestFromRef else im_digest m;
     CI_Pods := setToSlice (im_pods m); CI_Namespaces := setToSlice (im_namespaces m); CI_Nodes := setToSlice (im_nodes m);
     CI_Workloads := workloadSlice (im_workloads m); CI_PullPolicy := im_policy m |}.

(** [listPodsPaged]: the answers of the client, a page with the token of the
    next or a failure. The list ends where the client has said so. *)
Fixpoint listPodsPaged (answers : list (option (list Pod * string))) : option (list Pod) :=
  match answers with
  | Some (items, continue_) :: answers =>
      if continue_ == "" then Some items else (λ out, items ++ out) <$> listPodsPaged answers
  | _ => None
  end.

Definition ListImages (answers : list (option (list Pod * string))) (now : Time) : option (list ClusterImage) :=
  (λ pods, map image_of (map_order (map_to_list (collect_images pods now)))) <$> listPodsPaged answers.
End List_images.

(** ** What is listed *)

Definition use := (string * string * Pod * string)%type.
Definition use_ref (u : use) : string := u.1.1.1.
Definition use_pod (u : use) : Pod := u.1.2.

(** The images collected from some uses. *)
Record images_of_uses (us : list use) (seen : gmap string image_meta) : Prop := {
  iu_refs ref : is_Some (seen !! ref) ↔ ref ≠ "" ∧ ∃ u, u ∈ us ∧ use_ref u = ref;
  iu_namespaces ref m ns : seen !! ref = Some m → ns ∈ im_namespaces m ↔ ∃ u, u ∈ us ∧ use_ref u = ref ∧ PD_Namespace (use_pod u) = ns;
  iu_pods ref m name : seen !! ref = Some m → name ∈ im_pods m ↔ ∃ u, u ∈ us ∧ use_ref u = ref ∧ PD_Name (use_pod u) = name;
}.

Lemma uses_snoc us u (P : use → Prop) : (∃ x, x ∈ us ++ [u] ∧ P x) ↔ (∃ x, x ∈ us ∧ P x) ∨ P u.
Proof. setoid_rewrite elem_of_app. setoid_rewrite list_elem_of_singleton. naive_solver. Qed.

Lemma add_use_images us seen ref digest p policy now :
  images_of_uses us seen → images_of_uses (us ++ [(ref, digest, p, policy)]) (add_use seen ref digest p policy now).
Proof.
  intros [H1 H2 H3]. unfold add_use. destruct (String.eqb_spec ref "") as [->|Hne].
  { constructor; intros ref' **; rewrite ?uses_snoc; cbn [use_ref use_pod fst snd].
    - rewrite H1. naive_solver.
    - rewrite (H2 ref' m ns) by done. assert (ref' ≠ "") by (apply H1; eauto). naive_solver.
    - rewrite (H3 ref' m name) by done. assert (ref' ≠ "") by (apply H1; eauto). naive_solver. }
  assert (seen !! ref = None → ∀ u, u ∈ us → use_ref u ≠ ref) as Hnew.
  { intros E u Hu <-. assert (is_Some (seen !! use_ref u)) as [? ?]; [apply H1; eauto|congruence]. }
  constructor; intros ref' **; rewrite ?uses_snoc; cbn [use_ref use_pod fst snd].
  - destruct (seen !! ref) eqn:E; (destruct (decide (ref' = ref)) as [->|]; [rewrite lookup_insert_eq; split; [by eauto|by eauto]|]);
      rewrite lookup_insert_ne by done; rewrite H1; naive_solver.
  - destruct (seen !! ref) as [m0|] eqn:E; (destruct (decide (ref' = ref)) as [->|]; [rewrite lookup_insert_eq in H|rewrite lookup_insert_ne in H by done]);
      simplify_eq; cbn [im_namespaces]; rewrite ?elem_of_union, ?elem_of_singleton, ?(H2 _ _ ns E), ?(H2 _ _ ns H); naive_solver.
  - destruct (seen !! ref) as [m0|] eqn:E; (destruct (decide (ref' = ref)) as [->|]; [rewrite lookup_insert_eq in H|rewrite lookup_insert_ne in H by done]);
      simplify_eq; cbn [im_pods]; rewrite ?elem_of_union, ?elem_of_singleton, ?(H3 _ _ name E), ?(H3 _ _ name H); naive_solver.
Qed.

Lemma collect_images_spec pods now : images_of_uses (pods ≫= pod_uses) (collect_images pods now).
Proof.
  assert (∀ us : list use, images_of_uses us
    (fold_left (λ seen (u : use), let '(ref, digest, p, policy) := u in add_use seen ref digest p policy now) us ∅)) as H; [|apply H].
  intros us. induction us as [|u us IH] using rev_ind.
  - constructor; cbn; intros ref; rewrite lookup_empty; [|done..]. split; [by intros []|]. by intros (_ & u & ?%elem_of_nil & _).
  - rewrite fold_left_app. cbn [fold_left]. destruct u as [[[ref digest] p] policy]. by apply add_use_images.
Qed.

(** The pods the client has, however it cuts them into pages. *)
Lemma listPodsPaged_pages pages last : Forall (λ p : list Pod * string, p.2 ≠ "") pages →
  listPodsPaged (map Some pages ++ [Some (last, "")]) = Some (concat (map fst pages) ++ last).
Proof.
  induction 1 as [|[items token] pages Ht _ IH]; [done|]. cbn [map app listPodsPaged fst snd concat] in *.
  destruct (String.eqb_spec token ""); [done|]. rewrite IH. cbn. by rewrite app_assoc.
Qed.

Section Listed.
Context {M : MapOrder}.

Lemma elem_of_image img pods now :
  img ∈ map image_of (map_order (map_to_list (collect_images pods now)))
  ↔ ∃ ref m, collect_images pods now !! ref = Some m ∧ img = image_of (ref, m).
Proof.
  rewrite list_elem_of_fmap. setoid_rewrite map_order_perm. split.
  - intros ([ref m] & -> & H%elem_of_map_to_list). eauto.
  - intros (ref & m & H & ->). exists (ref, m). split; [done|]. by apply elem_of_map_to_list.
Qed.

Lemma image_of_ref rm : CI_Ref (image_of rm) = rm.1.
Proof. destruct rm as [ref m]. unfold image_of. by destruct (parseRef ref) as [[]]. Qed.

(** Each image of a running or pending pod is listed once, with the pods and the
    namespaces that use it. *)
Lemma ListImages_exact answers pods now imgs :
  listPodsPaged answers = Some pods → ListImages answers now = Some imgs →
  NoDup (map CI_Ref imgs)
  ∧ (∀ ref, ref ∈ map CI_Ref imgs ↔ ref ≠ "" ∧ ∃ u, u ∈ pods ≫= pod_uses ∧ use_ref u = ref)
  ∧ (∀ img ns, img ∈ imgs →
       ns ∈ CI_Namespaces img ↔ ∃ u, u ∈ pods ≫= pod_uses ∧ use_ref u = CI_Ref img ∧ PD_Namespace (use_pod u) = ns)
  ∧ (∀ img name, img ∈ imgs →
       name ∈ CI_Pods img ↔ ∃ u, u ∈ pods ≫= pod_uses ∧ use_ref u = CI_Ref img ∧ PD_Name (use_pod u) = name).
Proof.
  unfold ListImages. intros -> [= <-]. destruct (collect_images_spec pods now) as [H1 H2 H3]. split_and!.
  - rewrite map_map. erewrite map_ext by (intros; apply image_of_ref). rewrite map_order_perm. apply NoDup_fst_map_to_list.
  - intros ref. rewrite <-H1, list_elem_of_fmap. setoid_rewrite elem_of_image. split.
    + intros (img & -> & ref' & m & E & ->). rewrite image_of_ref. by eauto.
    + intros [m E]. exists (image_of (ref, m)). rewrite image_of_ref. eauto.
  - intros img ns (ref & m & E & ->)%elem_of_image. rewrite image_of_ref, <-(H2 _ _ _ E). unfold image_of.
    destruct (parseRef ref) as [[]]. cbn. unfold setToSlice. by rewrite map_order_perm, elem_of_elements.
  - intros img name (ref & m & E & ->)%elem_of_image. rewrite image_of_ref, <-(H3 _ _ _ E). unfold image_of.
    destruct (parseRef ref) as [[]]. cbn. unfold setToSlice. by rewrite map_order_perm, elem_of_elements.
Qed.
End Listed.

(** ** Names and tags *)

Lemma cut_last_app ref : (cut_last ref).1 +:+ (cut_last ref).2 = ref.
Proof. unfold cut_last. destruct (LastIndexByte ref "/"); [apply stake_sdrop|done]. Qed.

Lemma cut_last_after ref : (cut_last ref).2 = after_last ref "/".
Proof. unfold cut_last, after_last. by destruct (LastIndexByte ref "/"). Qed.

Lemma stake_last s c i : LastIndexByte s c = Some i → s = stake i s +:+ String c (sdrop (i + 1) s).
Proof.
  intros (a & b & -> & <- & _)%last_split. rewrite stake_app. f_equal. f_equal.
  rewrite <-(app_assoc_s a (String c "") b : _ = a +:+ String c b).
  replace (String.length a + 1)%nat with (String.length (a +:+ String c "")) by (by rewrite length_app_s). by rewrite sdrop_app.
Qed.

(** The parts of a reference make up the reference. *)
Lemma parseRef_parts ref name tag digest : parseRef ref = (name, tag, digest) →
  ∃ plain, (ref = plain ∧ digest = "" ∨ ref = plain +:+ "@" +:+ digest)
           ∧ (plain = name +:+ ":" +:+ tag ∨ plain = name ∧ tag = "latest" ∧ Contains (after_last plain "/") ":" = false).
Proof.
  unfold parseRef. destruct (match Index ref "@" with Some i => _ | None => _ end) as [plain d] eqn:E.
  pose proof (cut_last_app plain) as Hc. pose proof (cut_last_after plain) as Ha. destruct (cut_last plain) as [dir sub]. cbn [fst snd] in *.
  intros H. exists plain. split.
  - assert (d = digest) as -> by (destruct (LastIndexByte sub ":"); congruence).
    destruct (Index ref "@") as [i|] eqn:Ei; simplify_eq; [right|by left].
    apply Index_Some in Ei as ((a & b & -> & <-) & _). rewrite stake_app. cbn. f_equal. f_equal.
    rewrite <-(app_assoc_s a "@" b : _ = a +:+ String "@" b).
    replace (String.length a + 1)%nat with (String.length (a +:+ "@")) by (by rewrite length_app_s). by rewrite sdrop_app.
  - destruct (LastIndexByte sub ":") as [i|] eqn:Ei; simplify_eq; [left|right].
    + rewrite <-Hc at 1. rewrite app_assoc_s. f_equal. by apply stake_last.
    + split_and!; [done|done|]. by apply last_None.
Qed.

(** The scanner's tag is [latest] for the references the posture check of the
    hub reports. *)
Lemma parseRef_latest ref : ref ≠ "" → Contains ref "@" = false → ((parseRef ref).1.2 == "latest") = latestTag ref.
Proof.
  intros Hne Ha. unfold parseRef, latestTag. apply String.eqb_neq in Hne as ->. rewrite Ha. cbn [orb].
  unfold Contains in Ha. destruct (Index ref "@"); [done|].
  pose proof (cut_last_after ref) as Hc. destruct (cut_last ref) as [dir sub]. cbn [snd] in Hc. subst sub.
  by destruct (LastIndexByte (after_last ref "/") ":").
Qed.
