(* ===== verification/ScanPool.v ===== *)
(** * scanner-agent/internal/api: the pool of scan workers

    worker.go, handlers_stop.go and the scan requests of handlers.go. A pool of
    workers takes images from a queue; a request appends to the queue and
    starts a pool when there is none, a stop cancels the pool and drops the
    queue. A step is one critical section of a worker, of a request or of a
    stop; what the scanner and the enricher return is part of the step. *)

From Stdlib Require Import Ascii.
From stdpp Require Import base list gmap strings.
From S2P Require Import Prelude GoStrings ScanImages.
Local Open Scope string_scope.
Local Open Scope list_scope.
Local Open Scope go_scope.

Definition StatusDone : string := "done".
Definition StatusError : string := "error".

(** ** Results *)

(** What the summary reads of a vulnerability. *)
Record CVE := { cve_ID : string; cve_Severity : string; cve_HasFix : bool; cve_InKEV : bool; cve_PoCs : list string }.

Record CVESummary := {
  Critical : nat; High : nat; Medium : nat; Low : nat; Unknown : nat; Total : nat; Fixable : nat; InKEV : nat; HasPoC : nat;
}.

(** The members the agent itself sets or reads; the operating system, the
    duration and the lists of pods, namespaces and nodes come from the scanner and
    go to the console as they are. *)
Record ScanResult := {
  SR_Image : string;
  SR_Name : string;
  SR_Tag : string;
  SR_Digest : string;
  SR_PreviousDigest : string;
  SR_DigestChanged : bool;
  SR_DigestChangedAt : option Time;
  SR_Status : string;
  SR_Error : string;
  SR_ScannedAt : Time;
  SR_Summary : CVESummary;
  SR_CVEs : list CVE;
  SR_Workloads : list ImageWorkload;
}.

Definition no_summary : CVESummary :=
  {| Critical := 0; High := 0; Medium := 0; Low := 0; Unknown := 0; Total := 0; Fixable := 0; InKEV := 0; HasPoC := 0 |}.

Definition b2n (b : bool) : nat := if b then 1 else 0.

(** One round of the loop of [buildSummary]. *)
Definition add_cve (s : CVESummary) (c : CVE) : CVESummary :=
  let sev_is sev := cve_Severity c == sev in
  let known := sev_is "CRITICAL" || sev_is "HIGH" || sev_is "MEDIUM" || sev_is "LOW" in
  {| Critical := Critical s + b2n (sev_is "CRITICAL"); High := High s + b2n (sev_is "HIGH"); Medium := Medium s + b2n (sev_is "MEDIUM");
     Low := Low s + b2n (sev_is "LOW"); Unknown := Unknown s + b2n (negb known); Total := Total s;
     Fixable := Fixable s + b2n (cve_HasFix c); InKEV := InKEV s + b2n (cve_InKEV c);
     HasPoC := HasPoC s + b2n (negb (length (cve_PoCs c) =? 0)%nat) |}%nat.

Definition buildSummary (cves : list CVE) : CVESummary :=
  fold_left add_cve cves
    {| Critical := 0; High := 0; Medium := 0; Low := 0; Unknown := 0; Total := length cves; Fixable := 0; InKEV := 0; HasPoC := 0 |}.

(** The total of [handleResults] over all results. *)
Definition add_summary (a s : CVESummary) : CVESummary :=
  {| Critical := Critical a + Critical s; High := High a + High s; Medium := Medium a + Medium s; Low := Low a + Low s;
     Unknown := Unknown a + Unknown s; Total := Total a + Total s; Fixable := Fixable a + Fixable s; InKEV := InKEV a + InKEV s;
     HasPoC := HasPoC a + HasPoC s |}%nat.

Record ScanEvent := { EV_Type : string; EV_Image : string; EV_Message : string; EV_Result : option ScanResult }.
Definition event (ty image msg : string) (r : option ScanResult) : ScanEvent :=
  {| EV_Type := ty; EV_Image := image; EV_Message := msg; EV_Result := r |}.

(** ** The pool *)

(** Where a worker is: at the test of its context, between the test and the
    queue, in [scanner.Scan], in [enricher.Enrich], or in its deferred
    function. *)
Inductive place :=
| AtCheck
| AtTake
| Scanning (ref : string)
| Enriching (ref : string) (result : ScanResult) (workloads : list ImageWorkload)
| Leaving.

(** The workers are those of the newest pool, [cancelled] says whether its context
    is; [scanCancel] whether there is a function to cancel it. [events] is what was
    broadcast, [pushed] what was sent to the hub. *)
Record Server := {
  scanQueue : list string;
  scanning : bool;
  scanActive : nat;
  scanCancel : bool;
  cancelled : bool;
  workers : list place;
  results : gmap string ScanResult;
  scanStarted : nat;
  scanDone : nat;
  scanFailed : nat;
  events : list ScanEvent;
  pushed : list ScanResult;
}.

Definition new_server : Server :=
  {| scanQueue := []; scanning := false; scanActive := 0; scanCancel := false; cancelled := false; workers := []; results := ∅;
     scanStarted := 0; scanDone := 0; scanFailed := 0; events := []; pushed := [] |}.

Definition set_queue (s : Server) (q : list string) : Server :=
  {| scanQueue := q; scanning := scanning s; scanActive := scanActive s; scanCancel := scanCancel s; cancelled := cancelled s;
     workers := workers s; results := results s; scanStarted := scanStarted s; scanDone := scanDone s; scanFailed := scanFailed s;
     events := events s; pushed := pushed s |}.
Definition set_workers (s : Server) (ws : list place) : Server :=
  {| scanQueue := scanQueue s; scanning := scanning s; scanActive := scanActive s; scanCancel := scanCancel s; cancelled := cancelled s;
     workers := ws; results := results s; scanStarted := scanStarted s; scanDone := scanDone s; scanFailed := scanFailed s;
     events := events s; pushed := pushed s |}.
Definition set_pool (s : Server) (on : bool) (active : nat) (cancel dead : bool) : Server :=
  {| scanQueue := scanQueue s; scanning := on; scanActive := active; scanCancel := cancel; cancelled := dead;
     workers := workers s; results := results s; scanStarted := scanStarted s; scanDone := scanDone s; scanFailed := scanFailed s;
     events := events s; pushed := pushed s |}.
Definition broadcast (s : Server) (ev : ScanEvent) : Server :=
  {| scanQueue := scanQueue s; scanning := scanning s; scanActive := scanActive s; scanCancel := scanCancel s; cancelled := cancelled s;
     workers := workers s; results := results s; scanStarted := scanStarted s; scanDone := scanDone s; scanFailed := scanFailed s;
     events := snoc (events s) ev; pushed := pushed s |}.
(** A result is stored, pushed and broadcast, and counted. *)
Definition put_result (s : Server) (ref : string) (r : ScanResult) (ok : bool) : Server :=
  {| scanQueue := scanQueue s; scanning := scanning s; scanActive := scanActive s; scanCancel := scanCancel s; cancelled := cancelled s;
     workers := workers s; results := <[ref := r]> (results s); scanStarted := scanStarted s;
     scanDone := scanDone s + b2n ok; scanFailed := scanFailed s + b2n (negb ok);
     events := snoc (events s) (if ok then event "result" ref "" (Some r) else event "error" ref (SR_Error r) (Some r));
     pushed := snoc (pushed s) r |}.
Definition count_started (s : Server) : Server :=
  {| scanQueue := scanQueue s; scanning := scanning s; scanActive := scanActive s; scanCancel := scanCancel s; cancelled := cancelled s;
     workers := workers s; results := results s; scanStarted := scanStarted s + 1; scanDone := scanDone s; scanFailed := scanFailed s;
     events := events s; pushed := pushed s |}.

(** [n] is [scanWorkers()]. *)
Definition startScanPoolLocked (n : nat) (s : Server) : Server :=
  set_workers (set_pool s true n true false) (workers s ++ replicate n AtCheck).

(** The loop of [enqueueScan]: queue and number queued. *)
Fixpoint queue_refs (limit : Z) (queue : list string) (queued : nat) (refs : list string) : list string * nat :=
  match refs with
  | [] => (queue, queued)
  | r :: refs =>
      if any (String.eqb r) queue then queue_refs limit queue queued refs
      else if ((0 <? limit) && (limit <=? Z.of_nat (length queue)))%Z then queue_refs limit queue queued refs
      else queue_refs limit (snoc queue r) (queued + 1) refs
  end.

Definition enqueueScan (n : nat) (limit : Z) (refs : list string) (s : Server) : Server * nat :=
  let '(q, queued) := queue_refs limit (scanQueue s) 0 refs in
  let s := set_queue s q in
  (if negb (length q =? 0)%nat && negb (scanning s) then startScanPoolLocked n s else s, queued).

Definition stopScan (s : Server) : Server * bool :=
  if negb (scanning s) || negb (scanCancel s) then (s, false)
  else (set_queue (set_pool s (scanning s) (scanActive s) (scanCancel s) true) [], true).

(** The deferred function of a worker that has left the loop. *)
Definition leave (n : nat) (s : Server) : Server :=
  let s := set_pool s (scanning s) (scanActive s - 1) (scanCancel s) (cancelled s) in
  if negb (scanActive s =? 0)%nat then s
  else if negb (length (scanQueue s) =? 0)%nat then startScanPoolLocked n s
  else
    let dead := cancelled s in
    broadcast (set_pool s false 0 false dead)
      (event "done" "" (if dead then "Scan stopped by user" else "All scans complete") None).

Definition error_result (ref msg : string) (now : Time) (ws : list ImageWorkload) : ScanResult :=
  {| SR_Image := ref; SR_Name := ref; SR_Tag := ""; SR_Digest := ""; SR_PreviousDigest := ""; SR_DigestChanged := false;
     SR_DigestChangedAt := None; SR_Status := StatusError; SR_Error := msg; SR_ScannedAt := now; SR_Summary := no_summary;
     SR_CVEs := []; SR_Workloads := ws |}.

Definition finish (r : ScanResult) (cves : list CVE) (ws : list ImageWorkload) : ScanResult :=
  {| SR_Image := SR_Image r; SR_Name := SR_Name r; SR_Tag := SR_Tag r; SR_Digest := SR_Digest r; SR_PreviousDigest := SR_PreviousDigest r;
     SR_DigestChanged := SR_DigestChanged r; SR_DigestChangedAt := SR_DigestChangedAt r; SR_Status := StatusDone; SR_Error := SR_Error r;
     SR_ScannedAt := SR_ScannedAt r; SR_Summary := buildSummary cves; SR_CVEs := cves; SR_Workloads := ws |}.

(** What [scanner.Scan] returned, and the images listed for the workloads. *)
Record scan_outcome := { so_result : result ScanResult; so_images : option (list ClusterImage); so_now : Time; so_cves : list CVE }.

Definition imageWorkloads (images : option (list ClusterImage)) (ref : string) : list ImageWorkload :=
  match images with
  | None => []
  | Some images => match List.find (λ i, CI_Ref i == ref) images with Some i => CI_Workloads i | None => [] end
  end.

Inductive action :=
| Enqueue (limit : Z) (refs : list string)
| Stop
| Work (i : nat) (o : scan_outcome).

(** The next critical section of the worker in place [i]; [s] has the others
    and itself. *)
Definition work (n i : nat) (o : scan_outcome) (s : Server) : Server :=
  let at_ p := set_workers s (<[i := p]> (workers s)) in
  match workers s !! i with
  | None => s
  | Some AtCheck => at_ (if cancelled s then Leaving else AtTake)
  | Some AtTake =>
      match scanQueue s with
      | [] => at_ Leaving
      | ref :: q => broadcast (count_started (set_queue (at_ (Scanning ref)) q)) (event "start" ref ("Scanning " +:+ ref) None)
      end
  | Some (Scanning ref) =>
      if cancelled s then at_ AtCheck
      else
        let ws := imageWorkloads (so_images o) ref in
        match so_result o with
        | Err msg => put_result (at_ AtCheck) ref (error_result ref msg (so_now o) ws) false
        | Ok r => at_ (Enriching ref r ws)
        end
  | Some (Enriching ref r ws) =>
      if cancelled s then at_ AtCheck else put_result (at_ AtCheck) ref (finish r (so_cves o) ws) true
  | Some Leaving => leave n (set_workers s (delete i (workers s)))
  end.

Definition step (n : nat) (s : Server) (a : action) : Server :=
  match a with
  | Enqueue limit refs => (enqueueScan n limit refs s).1
  | Stop => (stopScan s).1
  | Work i o => work n i o s
  end.

Definition steps (n : nat) (s : Server) (acts : list action) : Server := fold_left (step n) acts s.

(** ** Requests *)

Definition maxScanRefs : nat := 1000.
Definition maxImageRefBytes : nat := 2048.

(** The reference an image is scanned by, if it can be pulled. *)
Definition image_ref (img : ClusterImage) : string :=
  if CI_Ref img == "" then CI_Name img +:+ (if (CI_Tag img != "") && (CI_Tag img != "latest") then ":" +:+ CI_Tag img else "")
  else CI_Ref img.

Definition unpullable (ref : string) : bool := (ref == "") || hasPrefix ref "sha256:" || isBareSHA ref.

Definition cluster_refs (imgs : list ClusterImage) : list string :=
  List.filter (λ ref, negb (unpullable ref) && negb (hasPrefix ref "localhost/" || hasPrefix ref "127.0.0.1")) (map image_ref imgs).

Section Requests.
Context {M : MapOrder}.

(** The references of the cluster, or those scanned before when the client
    fails; [None] is the answer 503. *)
Definition collectClusterRefs (s : Server) (imgs : option (list ClusterImage)) : option (list string) :=
  match imgs with
  | Some imgs => Some (cluster_refs imgs)
  | None => match List.filter (λ ref, negb (hasPrefix ref "sha256:")) (map_order (map fst (map_to_list (results s)))) with
            | [] => None
            | refs => Some refs
            end
  end.

Inductive answer := Answer (code : Z) | Queued (queued requested : nat).

(** [handleScan] after decoding: [refs] is the list of the body. An empty list of
    the cluster is nil, for which the request ends without a body. *)
Definition handleScan (n : nat) (limit : Z) (refs : list string) (imgs : option (list ClusterImage)) (s : Server) : Server * answer :=
  let asked := match refs with [] => collectClusterRefs s imgs | _ => Some refs end in
  match asked with
  | None => (s, Answer 503)
  | Some [] => (s, Answer 200)
  | Some refs =>
      if (maxScanRefs <? length refs)%nat then (s, Answer 413)
      else if any (λ ref, (maxImageRefBytes <? String.length ref)%nat) refs then (s, Answer 413)
      else let '(s, queued) := enqueueScan n limit refs s in (s, Queued queued (length refs))
  end.
End Requests.

(** * The scan pool serves its queue

    The counters of the pool say what they mean, an image in the queue always
    has workers to take it, the workers come to an end, and an image queued
    outside the moment after a stop has a result by then. *)



(** ** Summaries *)

Lemma fold_add_cve cves s :
  let t := fold_left add_cve cves s in
  (Critical t + High t + Medium t + Low t + Unknown t = Critical s + High s + Medium s + Low s + Unknown s + length cves)%nat
  ∧ Total t = Total s ∧ (Fixable t ≤ Fixable s + length cves)%nat ∧ (InKEV t ≤ InKEV s + length cves)%nat ∧ (HasPoC t ≤ HasPoC s + length cves)%nat.
Proof.
  revert s. induction cves as [|c cves IH]; intros s; [cbn; lia|]. cbn [fold_left length]. destruct (IH (add_cve s c)) as (H1 & H2 & H3 & H4 & H5).
  cbv zeta in *. rewrite H1, H2. unfold add_cve in *. cbn [Critical High Medium Low Unknown Total Fixable InKEV HasPoC] in *.
  destruct (cve_Severity c == "CRITICAL") eqn:E1, (cve_Severity c == "HIGH") eqn:E2, (cve_Severity c == "MEDIUM") eqn:E3, (cve_Severity c == "LOW") eqn:E4;
    bool_hyps; try congruence; destruct (cve_HasFix c), (cve_InKEV c), (length (cve_PoCs c) =? 0)%nat; cbn [b2n orb negb] in *; lia.
Qed.

(** Every vulnerability is counted under one severity. *)
Lemma buildSummary_total cves :
  let t := buildSummary cves in
  (Critical t + High t + Medium t + Low t + Unknown t = Total t)%nat ∧ Total t = length cves
  ∧ (Fixable t ≤ Total t)%nat ∧ (InKEV t ≤ Total t)%nat ∧ (HasPoC t ≤ Total t)%nat.
Proof.
  unfold buildSummary. cbv zeta. destruct (fold_add_cve cves {| Critical := 0; High := 0; Medium := 0; Low := 0; Unknown := 0; Total := length cves; Fixable := 0; InKEV := 0; HasPoC := 0 |})
    as (H1 & H2 & H3 & H4 & H5). cbv zeta in *. cbn [Critical High Medium Low Unknown Total Fixable InKEV HasPoC] in *. rewrite H1, H2. lia.
Qed.

(** ** The queue *)

Lemma queue_refs_spec limit queue k refs :
  let q := (queue_refs limit queue k refs).1 in
  (∀ r, r ∈ queue → r ∈ q) ∧ (∀ r, r ∈ q → r ∈ queue ∨ r ∈ refs) ∧ (NoDup queue → NoDup q)
  ∧ ((0 < limit → Z.of_nat (length queue) ≤ limit → Z.of_nat (length q) ≤ limit))%Z
  ∧ ((limit ≤ 0 ∨ Z.of_nat (length queue + length refs) ≤ limit)%Z → ∀ r, r ∈ refs → r ∈ q).
Proof.
  revert queue k. induction refs as [|x refs IH]; intros queue k; cbn [queue_refs]; cbv zeta.
  - split_and!; [done|by left|done|done|by intros _ r ?%elem_of_nil].
  - destruct (any (String.eqb x) queue) eqn:Ex.
    + apply any_true in Ex as (y & Hy & E). bool_hyps. subst y. destruct (IH queue k) as (H1 & H2 & H3 & H4 & H5). cbv zeta in *.
      split_and!; try done; [intros r Hr; destruct (H2 r Hr); [by left|right; by right]|].
      intros Hl r [->|Hr]%elem_of_cons; [by apply H1|]. apply H5; [|done]. cbn [length] in Hl. lia.
    + destruct ((0 <? limit)%Z && (limit <=? Z.of_nat (length queue))%Z) eqn:El.
      * destruct (IH queue k) as (H1 & H2 & H3 & H4 & H5). cbv zeta in *. split_and!; try done.
        -- intros r Hr; destruct (H2 r Hr); [by left|right; by right].
        -- cbn [length]. bool_hyps. intros. lia.
      * destruct (IH (snoc queue x) (k + 1)%nat) as (H1 & H2 & H3 & H4 & H5). cbv zeta in *. unfold snoc in *. rewrite !length_app in *. cbn [length] in *.
        split_and!.
        -- intros r Hr. apply H1, elem_of_app. by left.
        -- intros r [[Hr|Hr%list_elem_of_singleton]%elem_of_app|Hr]%H2; [by left|right; subst; by left|right; by right].
        -- intros Hn. apply H3, NoDup_app. split_and!; [done| |apply NoDup_singleton].
           intros y Hy ->%list_elem_of_singleton. apply (proj1 (any_false _ _)) with (x := x) in Ex; [|done]. by rewrite String.eqb_refl in Ex.
        -- intros Hp Hl. apply H4; [done|]. apply andb_false_iff in El. lia.
        -- intros Hl r [->|Hr]%elem_of_cons; [apply H1, elem_of_app; right; by left|]. apply H5; [lia|done].
Qed.

(** ** The counters *)

Record pool_ok (s : Server) : Prop := {
  ok_active : scanActive s = length (workers s);
  ok_scanning : scanning s = negb (length (workers s) =? 0)%nat;
  ok_cancel : scanCancel s = scanning s;
  ok_queue : scanQueue s ≠ [] → scanning s = true;
}.

Section Pool.
Context (n : nat) (Hn : (1 ≤ n)%nat).

(** A pool is started when the last one is gone. *)
Lemma start_pool_ok s : workers s = [] → pool_ok (startScanPoolLocked n s).
Proof.
  intros Hw. unfold startScanPoolLocked. constructor; cbn [set_workers set_pool scanActive workers scanning scanCancel scanQueue]; rewrite ?Hw;
    cbn [app]; rewrite ?length_replicate; try done. destruct (Nat.eqb_spec n 0); [lia|done].
Qed.

Lemma idle_workers s : pool_ok s → scanning s = false → workers s = [].
Proof. intros [_ H _ _] E. rewrite E in H. destruct (workers s); [done|discriminate]. Qed.

Lemma enqueue_ok limit refs s : pool_ok s → pool_ok (enqueueScan n limit refs s).1.
Proof.
  intros H. unfold enqueueScan. destruct (queue_refs limit (scanQueue s) 0 refs) as [q k]. cbn [fst]. change (scanning (set_queue s q)) with (scanning s).
  destruct (scanning s) eqn:E; cbn [negb]; rewrite ?andb_false_r, ?andb_true_r.
  - destruct H as [H1 H2 H3 H4]. constructor; cbn; try done; congruence.
  - destruct (length q =? 0)%nat eqn:Eq; cbn [negb].
    + destruct H as [H1 H2 H3 H4]. constructor; cbn; try done. apply Nat.eqb_eq, nil_length_inv in Eq. by subst.
    + apply start_pool_ok. cbn. by apply idle_workers.
Qed.

Lemma stop_ok s : pool_ok s → pool_ok (stopScan s).1.
Proof. intros H. unfold stopScan. case_if; [done|]. destruct H. by constructor. Qed.

Lemma set_place_ok s i p : pool_ok s → pool_ok (set_workers s (<[i := p]> (workers s))).
Proof. intros [H1 H2 H3 H4]. constructor; cbn; by rewrite ?length_insert. Qed.

Lemma leave_ok s i : pool_ok s → workers s !! i = Some Leaving → pool_ok (leave n (set_workers s (delete i (workers s)))).
Proof.
  intros [H1 H2 H3 H4] Hi. pose proof (length_delete (workers s) i ltac:(eauto)) as Hd. assert (i < length (workers s))%nat by (by eapply lookup_lt_Some).
  unfold leave. cbn [set_pool set_workers scanActive scanQueue workers cancelled scanning scanCancel].
  assert (scanning s = true) as Hs. { rewrite H2. destruct (Nat.eqb_spec (length (workers s)) 0); [lia|done]. }
  rewrite H1. destruct (Nat.eqb_spec (length (workers s) - 1) 0) as [E|E]; cbn [negb].
  - assert (delete i (workers s) = []) as Hw by (apply nil_length_inv; lia).
    destruct (length (scanQueue s) =? 0)%nat eqn:Eq; cbn [negb].
    + apply Nat.eqb_eq, nil_length_inv in Eq. constructor; cbn; rewrite ?Hw; try done.
    + by apply start_pool_ok.
  - constructor; cbn; [lia| |congruence|by rewrite Hs]. rewrite Hs. destruct (Nat.eqb_spec (length (delete i (workers s))) 0); [lia|done].
Qed.

Lemma work_ok i o s : pool_ok s → pool_ok (work n i o s).
Proof.
  intros H. unfold work. destruct (workers s !! i) as [[| |ref|ref r ws|]|] eqn:Ei; [| | | | |done].
  - by apply set_place_ok.
  - destruct (scanQueue s) as [|ref q] eqn:Eq; [by apply set_place_ok|]. apply (set_place_ok _ i (Scanning ref)) in H as [H1 H2 H3 H4].
    constructor; cbn in *; try done. intros _. apply H4. by rewrite Eq.
  - case_if; [by apply set_place_ok|]. destruct (so_result o); [by apply set_place_ok|].
    apply (set_place_ok _ i AtCheck) in H as [H1 H2 H3 H4]. by constructor.
  - case_if; [by apply set_place_ok|]. apply (set_place_ok _ i AtCheck) in H as [H1 H2 H3 H4]. by constructor.
  - by apply leave_ok.
Qed.

Lemma step_ok s a : pool_ok s → pool_ok (step n s a).
Proof. destruct a; [apply enqueue_ok|apply stop_ok|apply work_ok]. Qed.

Lemma steps_ok s acts : pool_ok s → pool_ok (steps n s acts).
Proof. unfold steps. revert s. induction acts as [|a acts IH]; intros s H; [done|]. apply IH. by apply step_ok. Qed.

Lemma new_ok : pool_ok new_server.
Proof. by constructor. Qed.

(** ** The workers come to an end *)

Definition weight (p : place) : nat :=
  match p with Leaving => 1 | AtTake => 2 | AtCheck => 3 | Enriching _ _ _ => 4 | Scanning _ => 5 end.
Definition weights (ws : list place) : nat := sum_list (map weight ws).
Definition is_leaving (p : place) : bool := match p with Leaving => true | _ => false end.

(** Workers that will leave images in the queue to another pool. *)
Definition restarts (s : Server) : bool := negb (length (scanQueue s) =? 0)%nat && (cancelled s || any is_leaving (workers s)).

Definition measure (s : Server) : nat :=
  (4 * length (scanQueue s) + weights (workers s) + (if restarts s then 3 * n + 1 else 0))%nat.

Lemma weights_insert ws i p p' : ws !! i = Some p → (weights (<[i := p']> ws) + weight p = weights ws + weight p')%nat.
Proof.
  unfold weights. revert i. induction ws as [|w ws IH]; intros [|i] H; simplify_eq/=; [lia|]. specialize (IH i H). lia.
Qed.

Lemma weights_delete ws i p : ws !! i = Some p → (weights (delete i ws) + weight p = weights ws)%nat.
Proof.
  unfold weights. revert i. induction ws as [|w ws IH]; intros [|i] H; simplify_eq/=; [lia|]. specialize (IH i H). lia.
Qed.

Lemma weights_fresh : weights (replicate n AtCheck) = (3 * n)%nat.
Proof. clear Hn. unfold weights. induction n as [|m IH]; [done|]. cbn in *. lia. Qed.

Lemma leaving_insert ws i p : is_leaving p = false → any is_leaving (<[i := p]> ws) = true → any is_leaving ws = true.
Proof.
  intros Hp. rewrite !any_true. intros (x & Hx & Hl). exists x. split; [|done].
  apply list_elem_of_lookup in Hx as [j Hj]. apply list_lookup_insert_Some in Hj as [(_ & -> & _)|[_ Hj]]; [congruence|].
  by eapply list_elem_of_lookup_2.
Qed.

Lemma leaving_delete ws i : any is_leaving (delete i ws) = true → any is_leaving ws = true.
Proof.
  rewrite !any_true. intros (x & Hx & Hl). exists x. split; [|done]. revert Hx.
  revert i. induction ws as [|w ws IH]; intros [|i]; cbn; [done..|by right|]. intros [->|Hx]%elem_of_cons; [by left|right; by apply (IH i)].
Qed.

(** A move to a place that is not the end keeps what is to be restarted. *)
Lemma move_measure s s' i p p' : workers s !! i = Some p → workers s' = <[i := p']> (workers s) → cancelled s' = cancelled s →
  (length (scanQueue s') ≤ length (scanQueue s))%nat →
  (p' = Leaving → scanQueue s' = [] ∨ cancelled s = true) →
  (4 * length (scanQueue s') + weight p' < 4 * length (scanQueue s) + weight p)%nat → (measure s' < measure s)%nat.
Proof.
  intros Hi Hw Hc Hq Hl Hlt. unfold measure. rewrite Hw. pose proof (weights_insert _ _ _ p' Hi).
  assert (restarts s' = true → restarts s = true) as Hr.
  { unfold restarts. rewrite Hw, Hc. intros [Hq' H']%andb_true_iff. apply negb_true_iff, Nat.eqb_neq in Hq'.
    apply andb_true_iff. split; [apply negb_true_iff, Nat.eqb_neq; lia|]. apply orb_true_iff in H' as [->|H']; [done|].
    destruct (is_leaving p') eqn:El.
    - destruct p'; try done. destruct (Hl eq_refl) as [E| ->]; [rewrite E in Hq'; done|done].
    - apply orb_true_iff. right. by eapply leaving_insert. }
  destruct (restarts s'); [rewrite Hr by done; lia|]. lia.
Qed.

Lemma work_measure i o s : pool_ok s → (i < length (workers s))%nat → (measure (work n i o s) < measure s)%nat.
Proof.
  intros Hok [p Hi]%lookup_lt_is_Some. unfold work. rewrite Hi. destruct p as [| |ref|ref r ws|].
  - eapply move_measure; [done|done|done|done| |]; cbn; destruct (cancelled s); cbn; auto; try lia; done.
  - destruct (scanQueue s) as [|ref q] eqn:Eq; eapply move_measure; [done|done|done|cbn; rewrite ?Eq; cbn; lia|cbn; by auto|cbn; rewrite ?Eq; cbn; lia
      |done|done|done|cbn; rewrite ?Eq; cbn; lia|done|cbn; rewrite ?Eq; cbn; lia].
  - destruct (cancelled s) eqn:Ec; [|destruct (so_result o)]; (eapply move_measure; [done|done|done|done|done|cbn; lia]).
  - destruct (cancelled s) eqn:Ec; (eapply move_measure; [done|done|done|done|done|cbn; lia]).
  - pose proof (weights_delete _ _ _ Hi) as Hd. pose proof (length_delete (workers s) i ltac:(eauto)) as Hl.
    destruct Hok as [H1 H2 H3 H4]. unfold leave. cbn [set_pool set_workers scanActive scanQueue workers cancelled scanning scanCancel].
    assert (i < length (workers s))%nat by (by eapply lookup_lt_Some).
    assert (restarts s = negb (length (scanQueue s) =? 0)%nat) as Hr.
    { unfold restarts. rewrite (proj2 (any_true is_leaving (workers s))), orb_true_r, andb_true_r; [done|].
      exists Leaving. split; [by eapply list_elem_of_lookup_2|done]. }
    rewrite H1. destruct (Nat.eqb_spec (length (workers s) - 1) 0) as [E|E]; cbn [negb].
    + assert (delete i (workers s) = []) as Hw by (apply nil_length_inv; lia).
      destruct (length (scanQueue s) =? 0)%nat eqn:Eq; cbn [negb] in *; unfold measure; rewrite Hr; cbn [startScanPoolLocked set_workers set_pool broadcast workers scanQueue];
        rewrite ?Hw in *; cbn [app]; rewrite ?weights_fresh; unfold restarts; cbn [startScanPoolLocked set_workers set_pool broadcast workers scanQueue cancelled];
        rewrite ?Hw, ?Eq; cbn [negb andb orb app weight] in *; [lia|].
      assert (any is_leaving (replicate n AtCheck) = false) as -> by (apply any_false; by intros x [-> _]%elem_of_replicate). lia.
    + unfold measure. cbn [set_pool set_workers workers scanQueue weight] in *.
      assert (restarts (set_pool (set_workers s (delete i (workers s))) (scanning s) (length (workers s) - 1) (scanCancel s) (cancelled s)) = true → restarts s = true) as Hs.
      { unfold restarts at 1. cbn. rewrite Hr. by intros [-> _]%andb_true_iff. }
      destruct (restarts (set_pool _ _ _ _ _)); [rewrite Hs by done|]; lia.
Qed.

(** Steps of workers that are there. *)
Inductive works : Server → nat → Server → Prop :=
| works_done s : works s 0 s
| works_step s i o k s' : (i < length (workers s))%nat → works (work n i o s) k s' → works s (S k) s'.

Lemma works_end s k s' : pool_ok s → works s k s' → pool_ok s' ∧ (k ≤ measure s)%nat.
Proof.
  intros Hok. induction 1 as [s|s i o k s' Hi _ IH]; [split; [done|lia]|].
  destruct (IH (work_ok i o s Hok)) as [H1 H2]. split; [done|]. pose proof (work_measure i o s Hok Hi). lia.
Qed.

(** ** An image that was queued is scanned *)

Definition busy_with (ref : string) (p : place) : Prop :=
  match p with Scanning r => r = ref | Enriching r _ _ => r = ref | _ => False end.

(** The stored result of the image has been sent to the hub and broadcast,
    after the first [k] events and the first [m] results sent. *)
Definition served_after (k m : nat) (ref : string) (s : Server) : Prop :=
  ∃ r ev, results s !! ref = Some r ∧ r ∈ drop m (pushed s)
    ∧ ev ∈ drop k (events s) ∧ EV_Image ev = ref ∧ EV_Type ev ∈ ["result"; "error"] ∧ EV_Result ev = Some r.

Record tracked (k m : nat) (ref : string) (s : Server) : Prop := {
  tr_events : (k ≤ length (events s))%nat;
  tr_pushed : (m ≤ length (pushed s))%nat;
  tr_safe : cancelled s = true → AtTake ∉ workers s;
  tr_where : ref ∈ scanQueue s ∨ (cancelled s = false ∧ ∃ p, p ∈ workers s ∧ busy_with ref p) ∨ served_after k m ref s;
}.

Lemma elem_of_insert_other {A} (ws : list A) i x p : x ∈ ws → ws !! i = Some x ∨ x ∈ <[i := p]> ws.
Proof.
  intros [j Hj]%list_elem_of_lookup. destruct (decide (i = j)) as [->|Hne]; [by left|right].
  apply (list_elem_of_lookup_2 _ j). by rewrite list_lookup_insert_ne.
Qed.

Lemma elem_of_delete_other {A} (ws : list A) i x : x ∈ ws → ws !! i = Some x ∨ x ∈ delete i ws.
Proof.
  revert i. induction ws as [|w ws IH]; intros [|i]; cbn; [by intros ?%elem_of_nil..| |].
  - intros [->|H]%elem_of_cons; [by left|by right].
  - intros [->|H]%elem_of_cons; [right; by left|]. destruct (IH i H); [by left|right; by right].
Qed.

Lemma not_elem_insert {A} (ws : list A) i x p : x ∉ ws → x ≠ p → x ∉ <[i := p]> ws.
Proof.
  intros H Hp [j Hj]%list_elem_of_lookup. apply list_lookup_insert_Some in Hj as [(_ & -> & _)|[_ Hj]]; [done|].
  by apply H, (list_elem_of_lookup_2 _ j).
Qed.

Lemma served_app k m ref s s' extra more : (k ≤ length (events s))%nat → (m ≤ length (pushed s))%nat →
  events s' = events s ++ extra → pushed s' = pushed s ++ more → results s' !! ref = results s !! ref →
  served_after k m ref s → served_after k m ref s'.
Proof.
  intros Hk Hm He Hp Hr (r & ev & H1 & H2 & H3 & H4). exists r, ev. rewrite Hr, He, Hp, !drop_app_le by done.
  split_and!; [done|apply elem_of_app; by left|apply elem_of_app; by left|apply H4..].
Qed.

(** A result that is put is served, and those of other images stay so. *)
Lemma served_put k m ref ref' s r ok : (k ≤ length (events s))%nat → (m ≤ length (pushed s))%nat →
  ref' = ref ∨ served_after k m ref s → served_after k m ref (put_result s ref' r ok).
Proof.
  intros Hk Hm H. destruct (decide (ref' = ref)) as [->|Hne].
  - exists r, (if ok then event "result" ref "" (Some r) else event "error" ref (SR_Error r) (Some r)). cbn.
    rewrite lookup_insert_eq. unfold snoc. rewrite !drop_app_le by done.
    split_and!; [done|apply elem_of_app; right; by left|apply elem_of_app; right; by left|..]; destruct ok; try done; [by left|right; by left].
  - destruct H as [?|H]; [done|]. eapply (served_app _ _ _ s); [done|done|done|done| |done]. cbn. by rewrite lookup_insert_ne.
Qed.

(** A worker moves from [p] to [p']. *)
Lemma move_tracked k m ref s s' i p p' : tracked k m ref s → workers s !! i = Some p →
  workers s' = <[i := p']> (workers s) → cancelled s' = cancelled s →
  (length (events s) ≤ length (events s'))%nat → (length (pushed s) ≤ length (pushed s'))%nat →
  (served_after k m ref s → served_after k m ref s') →
  (cancelled s = true → p' ≠ AtTake) →
  (ref ∈ scanQueue s → ref ∈ scanQueue s' ∨ (cancelled s = false ∧ busy_with ref p')) →
  (cancelled s = false → busy_with ref p → busy_with ref p' ∨ served_after k m ref s') → tracked k m ref s'.
Proof.
  intros [H1 H1' H2 H3] Hi Hw Hc He Hp Ht' Hs Hq Hb. constructor; [lia|lia|..].
  - rewrite Hc, Hw. intros Ht. apply not_elem_insert; [by apply H2|]. intros E. by apply (Hs Ht).
  - rewrite Hc, Hw. assert (i < length (workers s))%nat by (by eapply lookup_lt_Some).
    assert (p' ∈ <[i := p']> (workers s)) by (by apply list_elem_of_insert).
    destruct H3 as [H3|[[H3 (x & Hx & Hbx)]|H3]].
    + destruct (Hq H3) as [?|[? ?]]; [by left|right; left; eauto].
    + destruct (elem_of_insert_other (workers s) i x p' Hx) as [Hxi|Hx']; [|right; left; eauto].
      rewrite Hi in Hxi. simplify_eq. destruct (Hb H3 Hbx); [right; left; eauto|by right; right].
    + right. right. by apply Ht'.
Qed.

Lemma leave_tracked k m ref s i : tracked k m ref s → workers s !! i = Some Leaving → pool_ok s →
  tracked k m ref (leave n (set_workers s (delete i (workers s)))).
Proof.
  intros [H1 H1' H2 H3] Hi [Ha _ _ _]. pose proof (length_delete (workers s) i ltac:(eauto)) as Hl.
  assert (i < length (workers s))%nat by (by eapply lookup_lt_Some).
  assert (∀ x, x ∈ workers s → busy_with ref x → x ∈ delete i (workers s)) as Hbusy.
  { intros x Hx Hb. destruct (elem_of_delete_other (workers s) i x Hx) as [E|]; [|done]. rewrite Hi in E. by simplify_eq. }
  unfold leave. cbn [set_pool set_workers scanActive scanQueue workers cancelled scanning scanCancel]. rewrite Ha.
  destruct (Nat.eqb_spec (length (workers s) - 1) 0) as [E|E]; cbn [negb].
  - assert (delete i (workers s) = []) as Hw by (apply nil_length_inv; lia).
    destruct (length (scanQueue s) =? 0)%nat eqn:Eq; cbn [negb].
    + apply Nat.eqb_eq, nil_length_inv in Eq. constructor; cbn; rewrite ?Hw, ?Eq.
      * unfold snoc. rewrite length_app. lia.
      * done.
      * by intros _ ?%elem_of_nil.
      * destruct H3 as [H3|[[H3 (x & Hx & Hb)]|H3]]; [rewrite Eq in H3; by apply elem_of_nil in H3| |].
        -- specialize (Hbusy x Hx Hb). rewrite Hw in Hbusy. by apply elem_of_nil in Hbusy.
        -- right. right. by eapply (served_app _ _ _ s _ _ []); [..|rewrite app_nil_r| |].
    + constructor; cbn; rewrite ?Hw; [done|done|done|]. destruct H3 as [H3|[[H3 (x & Hx & Hb)]|H3]]; [by left| |by right; right].
      specialize (Hbusy x Hx Hb). rewrite Hw in Hbusy. by apply elem_of_nil in Hbusy.
  - constructor; cbn; [done|done| |].
    + intros Ht Hin. apply (H2 Ht). by eapply list_elem_of_delete_inv.
    + destruct H3 as [H3|[[H3 (x & Hx & Hb)]|H3]]; [by left| |by right; right]. right. left. eauto.
Qed.

Lemma work_tracked k m ref i o s : tracked k m ref s → pool_ok s → tracked k m ref (work n i o s).
Proof.
  intros H Hok. pose proof (tr_events _ _ _ _ H) as Hk. pose proof (tr_pushed _ _ _ _ H) as Hm.
  unfold work. destruct (workers s !! i) as [[| |r|r res ws|]|] eqn:Hi; [| | | | |done].
  - eapply (move_tracked _ _ _ _ _ i); [done|done|done|done|done|done|done| | |]; cbn; [by destruct (cancelled s)|by left|by intros _ []].
  - assert (cancelled s = false) as Hc.
    { destruct (cancelled s) eqn:E; [|done]. destruct (tr_safe _ _ _ _ H E). by eapply list_elem_of_lookup_2. }
    destruct (scanQueue s) as [|r q] eqn:Eq.
    + eapply (move_tracked _ _ _ _ _ i); [done|done|done|done|done|done|done|done|by rewrite Eq; intros ?%elem_of_nil|by intros _ []].
    + eapply (move_tracked _ _ _ _ _ i _ (Scanning r)); [done|done|done|done|cbn; unfold snoc; rewrite length_app; lia|done| |done| |by intros _ []].
      * intros Hs. by eapply (served_app _ _ _ s _ _ []); [..|cbn; rewrite app_nil_r| |].
      * cbn. rewrite Eq. intros [->|Hr]%elem_of_cons; [by right|by left].
  - destruct (cancelled s) eqn:Ec.
    { eapply (move_tracked _ _ _ _ _ i _ AtCheck); [done|done|done|done|done|done|done|done|by left|by rewrite Ec]. }
    destruct (so_result o) as [res|msg].
    + eapply (move_tracked _ _ _ _ _ i); [done|done|done|done|done|done|done|done|by left|by left].
    + eapply (move_tracked _ _ _ _ _ i _ AtCheck); [done|done|done|done|cbn; unfold snoc; rewrite length_app; lia|cbn; unfold snoc; rewrite length_app; lia| |done|by left|].
      * intros Hs. apply served_put; [done|done|by right].
      * intros _ Hb. right. apply served_put; [done|done|by left].
  - destruct (cancelled s) eqn:Ec.
    { eapply (move_tracked _ _ _ _ _ i _ AtCheck); [done|done|done|done|done|done|done|done|by left|by rewrite Ec]. }
    eapply (move_tracked _ _ _ _ _ i _ AtCheck); [done|done|done|done|cbn; unfold snoc; rewrite length_app; lia|cbn; unfold snoc; rewrite length_app; lia| |done|by left|].
    + intros Hs. apply served_put; [done|done|by right].
    + intros _ Hb. right. apply served_put; [done|done|by left].
  - by apply leave_tracked.
Qed.

Lemma enqueue_tracked k m ref limit refs s : tracked k m ref s → pool_ok s → tracked k m ref (enqueueScan n limit refs s).1.
Proof.
  intros [H1 H1' H2 H3] Hok. unfold enqueueScan. pose proof (queue_refs_spec limit (scanQueue s) 0 refs) as (Hq & _).
  destruct (queue_refs limit (scanQueue s) 0 refs) as [q k0]. cbn [fst] in *. change (scanning (set_queue s q)) with (scanning s).
  destruct (negb (length q =? 0)%nat && negb (scanning s)) eqn:E; [bool_hyps|].
  - assert (workers s = []) as Hw by (by apply idle_workers). constructor; cbn; [done|done|done|].
    destruct H3 as [H3|[[H3 (x & Hx & Hb)]|H3]]; [left; by apply Hq| |by right; right]. rewrite Hw in Hx. by apply elem_of_nil in Hx.
  - constructor; cbn; [done|done|done|]. destruct H3 as [H3|H3]; [left; by apply Hq|by right].
Qed.

Definition no_stop (acts : list action) : Prop := Forall (λ a, a ≠ Stop) acts.

Lemma steps_tracked k m ref acts s : no_stop acts → tracked k m ref s → pool_ok s → tracked k m ref (steps n s acts).
Proof.
  unfold steps. intros H. revert s. induction H as [|a acts Ha _ IH]; intros s Ht Hok; [done|]. cbn. apply IH; [|by apply step_ok].
  destruct a; [by apply enqueue_tracked|done|by apply work_tracked].
Qed.
End Pool.

(** C36: whatever requests, stops and scans came before: when an image is in
    the queue and no worker of a cancelled pool stands between its test of the
    context and the queue (such a worker would take the image and drop it),
    then without another stop the workers, which come to an end after a
    bounded number of steps, leave an empty queue, and the result of the
    image, found or failed, is stored, and was sent to the hub and broadcast
    after that moment. *)
Theorem queued_scanned n before after ref :
  let s := steps n new_server before in
  let s' := steps n s after in
  (1 ≤ n)%nat → ref ∈ scanQueue s → (cancelled s = true → AtTake ∉ workers s) → no_stop after →
  (∀ k s2, works n s' k s2 → (k ≤ measure n s')%nat)
  ∧ (workers s' = [] → scanQueue s' = [] ∧ scanning s' = false ∧ served_after (length (events s)) (length (pushed s)) ref s').
Proof.
  intros s s' Hn Hq Hsafe Hstop. assert (pool_ok s) as Hok by (apply steps_ok; [done|apply new_ok]).
  assert (pool_ok s') as Hok' by (by apply steps_ok). split.
  - intros k s2 Hw. by destruct (works_end n Hn _ _ _ Hok' Hw).
  - intros Hw. pose proof (ok_scanning _ Hok') as Hs. rewrite Hw in Hs. cbn in Hs.
    assert (scanQueue s' = []) as Hq'. { destruct (scanQueue s') eqn:E; [done|]. pose proof (ok_queue _ Hok') as H. rewrite E in H. rewrite H in Hs; done. }
    split_and!; [done|done|]. assert (tracked (length (events s)) (length (pushed s)) ref s') as [_ _ _ H].
    { apply steps_tracked; [done|done| |done]. constructor; [done|done|done|by left]. }
    rewrite Hq', Hw in H. destruct H as [?%elem_of_nil|[(_ & p & ?%elem_of_nil & _)|H]]; done.
Qed.

(** ** Runs *)

Definition demo_outcome : scan_outcome := {| so_result := Err "timeout"; so_images := None; so_now := 1%Z; so_cves := [] |}.
Definition demo_scan : list action := replicate 6 (Work 0 demo_outcome).

Lemma queued_scanned_witness :
  let s := steps 1 new_server [Enqueue 10 ["app:1"]] in
  let s' := steps 1 s demo_scan in
  workers s' = [] ∧ served_after 0 0 "app:1" s'.
Proof.
  split; [reflexivity|].
  destruct (queued_scanned 1 [Enqueue 10 ["app:1"]] demo_scan "app:1") as [_ H].
  - lia.
  - left.
  - discriminate.
  - unfold demo_scan. repeat constructor; discriminate.
  - by destruct (H eq_refl) as (_ & _ & Ht).
Defined.

(** A worker that has seen its pool alive takes an image queued after the stop,
    and drops it: the queue is empty, nothing is scanned, no result is told. *)
Example stopped_worker_takes_new :
  let s := steps 1 new_server
    [Enqueue 10 ["old:1"]; Work 0 demo_outcome; Stop; Enqueue 10 ["new:1"];
     Work 0 demo_outcome; Work 0 demo_outcome; Work 0 demo_outcome; Work 0 demo_outcome] in
  scanQueue s = [] ∧ scanning s = false ∧ results s = ∅ ∧ map EV_Type (events s) = ["start"; "done"] ∧ map EV_Image (events s) = ["new:1"; ""].
Proof. vm_compute. done. Qed.
