(* ===== verification/ScanDigest.v ===== *)
(** * scanner-agent/internal/api: digests of images and their baselines

    baseline.go, digest_watcher.go. A baseline is the digest an image had when
    it was first seen or when it was set; a cycle looks at some images from a
    cursor on and reports digests that are not the baseline. The store pushes
    all baselines to the hub after every change and reads them back at start. *)

From Stdlib Require Import Ascii.
From stdpp Require Import base list gmap strings.
From S2P Require Import Prelude GoStrings ScanImages ScanPool.
Local Open Scope string_scope.
Local Open Scope list_scope.
Local Open Scope go_scope.

Definition maxBaselineBodyBytes : Z := (4 * 1024)%Z.
Definition defaultDigestWatchInterval : Duration := (2 * Minute)%Z.
Definition defaultDigestWatchMaxImages : Z := 500%Z.

(** [^sha256:[a-f0-9]{64}$]. *)
Definition hex_byte (a : ascii) : bool := is_hex (byte_of a).
Fixpoint all_bytes (f : ascii → bool) (s : string) : bool :=
  match s with "" => true | String a s => f a && all_bytes f s end.
Definition validDigest (d : string) : bool :=
  HasPrefix d "sha256:" && (String.length d =? 71)%nat && all_bytes hex_byte (sdrop 7 d).

(** Values of the environment: a number that does not parse or is too small is
    replaced. *)
Definition digestWatchInterval (v : option Z) : Duration :=
  match v with Some n => if (10 <=? n)%Z then (n * Second)%Z else defaultDigestWatchInterval | None => defaultDigestWatchInterval end.
Definition digestWatchMaxImages (v : option Z) : Z :=
  match v with Some n => if (n <? 0)%Z then defaultDigestWatchMaxImages else n | None => defaultDigestWatchMaxImages end.

(** ** The store *)

Record DigestBaseline := { B_ImageName : string; B_ImageTag : string; B_Digest : string; B_RecordedAt : Time }.

(** [push] is off when there is no hub; [sent] are the lists pushed. *)
Record memoryDigestStore := { data : gmap (string * string) DigestBaseline; push : bool; sent : list (list DigestBaseline) }.

Definition baseline_key (b : DigestBaseline) : string * string := (B_ImageName b, B_ImageTag b).

(** [pulled] is the list of the hub, if there is a hub and it has one. *)
Definition newDigestStore (enabled : bool) (pulled : option (list DigestBaseline)) : memoryDigestStore :=
  {| data := if enabled then fold_left (λ m b, <[baseline_key b := b]> m) (default [] pulled) ∅ else ∅; push := enabled; sent := [] |}.

Section Store.
Context {M : MapOrder}.

Definition baseline_list (m : gmap (string * string) DigestBaseline) : list DigestBaseline := map_order (map snd (map_to_list m)).

Definition persist (m : memoryDigestStore) : memoryDigestStore :=
  if push m then {| data := data m; push := true; sent := snoc (sent m) (baseline_list (data m)) |} else m.

Definition Get (m : memoryDigestStore) (name tag : string) : option DigestBaseline := data m !! (name, tag).

Definition Set_ (m : memoryDigestStore) (name tag digest : string) (now : Time) : memoryDigestStore :=
  let b := {| B_ImageName := name; B_ImageTag := tag; B_Digest := digest; B_RecordedAt := now |} in
  persist {| data := <[(name, tag) := b]> (data m); push := push m; sent := sent m |}.

Definition Delete (m : memoryDigestStore) (name tag : string) : memoryDigestStore :=
  persist {| data := delete (name, tag) (data m); push := push m; sent := sent m |}.

Definition List_ (m : memoryDigestStore) : list DigestBaseline := baseline_list (data m).

(** ** Requests *)

Inductive method := GET | POST | DELETE | OTHER.
Inductive reply := Code (c : Z) | Listed (l : list DigestBaseline) | Created (b : option DigestBaseline) | Status (changed : bool) (b : DigestBaseline).

(** A request: [body] is the decoded body of a POST ([inl true]: too large),
    [name], [tag] and [current] are parameters of the query. *)
Record request := {
  rq_method : method;
  rq_body : bool + (string * string * string);
  rq_name : string;
  rq_tag : string;
  rq_current : string;
}.

Definition or_latest (tag : string) : string := if tag == "" then "latest" else tag.

Definition handleBaselines (m : memoryDigestStore) (r : request) (now : Time) : memoryDigestStore * reply :=
  match rq_method r with
  | GET => (m, Listed (List_ m))
  | POST =>
      match rq_body r with
      | inl too_large => (m, Code (if too_large then 413 else 400)%Z)
      | inr (name, tag, digest) =>
          if (name == "") || (digest == "") then (m, Code 400)
          else if negb (validDigest digest) then (m, Code 400)
          else let m := Set_ m name (or_latest tag) digest now in (m, Created (Get m name (or_latest tag)))
      end
  | DELETE => if rq_name r == "" then (m, Code 400) else (Delete m (rq_name r) (or_latest (rq_tag r)), Code 204)
  | OTHER => (m, Code 405)
  end.

Definition handleBaselineStatus (m : memoryDigestStore) (r : request) : reply :=
  match rq_method r with
  | GET =>
      if (rq_name r == "") || (rq_current r == "") then Code 400
      else if negb (validDigest (rq_current r)) then Code 400
      else match Get m (rq_name r) (or_latest (rq_tag r)) with
           | None => Code 404
           | Some b => Status (B_Digest b != rq_current r) b
           end
  | _ => Code 405
  end.

(** ** The watcher *)

Record Watcher := {
  baselines : memoryDigestStore;
  wresults : gmap string ScanResult;
  digestCursor : nat;
  wpushed : list ScanResult;
  wevents : list ScanEvent;
}.

Definition set_baselines (w : Watcher) (b : memoryDigestStore) : Watcher :=
  {| baselines := b; wresults := wresults w; digestCursor := digestCursor w; wpushed := wpushed w; wevents := wevents w |}.
Definition set_cursor (w : Watcher) (c : nat) : Watcher :=
  {| baselines := baselines w; wresults := wresults w; digestCursor := c; wpushed := wpushed w; wevents := wevents w |}.

Definition with_change (r : ScanResult) (digest prev : string) (now : Time) : ScanResult :=
  {| SR_Image := SR_Image r; SR_Name := SR_Name r; SR_Tag := SR_Tag r; SR_Digest := digest; SR_PreviousDigest := prev;
     SR_DigestChanged := true; SR_DigestChangedAt := Some now; SR_Status := SR_Status r; SR_Error := SR_Error r;
     SR_ScannedAt := SR_ScannedAt r; SR_Summary := SR_Summary r; SR_CVEs := SR_CVEs r; SR_Workloads := SR_Workloads r |}.

Definition changed_result (ref name tag digest prev : string) (now : Time) : ScanResult :=
  {| SR_Image := ref; SR_Name := name; SR_Tag := tag; SR_Digest := digest; SR_PreviousDigest := prev;
     SR_DigestChanged := true; SR_DigestChangedAt := Some now; SR_Status := StatusDone; SR_Error := "";
     SR_ScannedAt := now; SR_Summary := no_summary; SR_CVEs := []; SR_Workloads := [] |}.

Definition short (d : string) : string := if (19 <? String.length d)%nat then stake 12 (sdrop 7 d) else d.

(** The result is stored, pushed and broadcast. *)
Definition report_change (w : Watcher) (ref : string) (r : ScanResult) : Watcher :=
  {| baselines := baselines w; wresults := <[ref := r]> (wresults w); digestCursor := digestCursor w;
     wpushed := snoc (wpushed w) r;
     wevents := snoc (wevents w) (event "digest_change" ref
       ("Digest changed: " +:+ short (SR_PreviousDigest r) +:+ "…→" +:+ short (SR_Digest r) +:+ "…") (Some r)) |}.

(** The digest of the registry, or that of the kubelet. *)
Definition current_digest (fetched : result string) (kubelet : string) : option string :=
  match fetched with
  | Ok d => if validDigest d then Some d else if validDigest kubelet then Some kubelet else None
  | Err _ => if validDigest kubelet then Some kubelet else None
  end.

Definition checkOneDigest (w : Watcher) (ref name tag kubelet : string) (fetched : result string) (now : Time) : Watcher :=
  match current_digest fetched kubelet with
  | None => w
  | Some digest =>
      match Get (baselines w) name tag with
      | None => set_baselines w (Set_ (baselines w) name tag digest now)
      | Some base =>
          if B_Digest base == digest then w
          else match wresults w !! ref with
               | Some res =>
                   if (SR_Digest res == digest) && SR_DigestChanged res && match SR_DigestChangedAt res with Some _ => true | None => false end
                   then w
                   else report_change w ref (with_change res digest (B_Digest base) now)
               | None => report_change w ref (changed_result ref name tag digest (B_Digest base) now)
               end
      end
  end.

(** The loop of [runDigestCheck]: the positions it visits. [alive v] says
    whether the context is alive when [v] positions have been visited. *)
Definition pullable (img : ClusterImage) : bool := negb (unpullable (image_ref img)).

Fixpoint visit (fuel : nat) (imgs : list ClusterImage) (max : Z) (alive : nat → bool) (start visited : nat) (checked : Z) : list nat :=
  match fuel with
  | O => []
  | S fuel =>
      if (length imgs <=? visited)%nat then []
      else if negb (alive visited) then []
      else if ((0 <? max) && (max <=? checked))%Z then []
      else
        let pos := ((start + visited) mod length imgs)%nat in
        let checked := match imgs !! pos with Some img => if pullable img then (checked + 1)%Z else checked | None => checked end in
        pos :: visit fuel imgs max alive start (S visited) checked
  end.

(** What a cycle gets for an image: the answer of the registry and the clock. *)
Definition check_image (w : Watcher) (img : ClusterImage) (o : result string * Time) : Watcher :=
  let ref := image_ref img in
  if unpullable ref then w
  else checkOneDigest w ref (if CI_Name img == "" then ref else CI_Name img) (or_latest (CI_Tag img)) (CI_Digest img) o.1 o.2.

Definition digest_plan (w : Watcher) (imgs : list ClusterImage) (max : Z) (alive : nat → bool) : list nat :=
  visit (length imgs) imgs max alive (digestCursor w mod length imgs) 0 0.

Definition runDigestCheck (w : Watcher) (listed : option (list ClusterImage)) (max : Z) (alive : nat → bool)
    (answer : nat → result string * Time) : Watcher :=
  match listed with
  | None => w
  | Some [] => set_cursor w 0
  | Some imgs =>
      let plan := digest_plan w imgs max alive in
      let start := (digestCursor w mod length imgs)%nat in
      let w := fold_left (λ w pos, match imgs !! pos with Some img => check_image w img (answer pos) | None => w end) plan w in
      set_cursor w ((start + length plan) mod length imgs)
  end.
End Store.

(** ** Restart *)

Section Theorems.
Context {M : MapOrder}.

Definition keyed (m : gmap (string * string) DigestBaseline) : Prop := ∀ k b, m !! k = Some b → baseline_key b = k.

Lemma fold_keyed (l : list DigestBaseline) (m : gmap (string * string) DigestBaseline) : keyed m → keyed (fold_left (λ m b, <[baseline_key b := b]> m) l m).
Proof.
  revert m. induction l as [|b l IH]; intros m H; [done|]. apply IH. intros k b' [[<- <-]|[_ ?]]%lookup_insert_Some; [done|by apply H].
Qed.

Lemma fold_lookup (l : list DigestBaseline) (m : gmap (string * string) DigestBaseline) k : fold_left (λ m b, <[baseline_key b := b]> m) l m !! k
  = match find_last (λ b, bool_decide (baseline_key b = k)) l with Some b => Some b | None => m !! k end.
Proof.
  revert m. induction l as [|b l IH]; intros m; [done|]. cbn [fold_left find_last]. rewrite IH.
  destruct (find_last _ l); [done|]. case_bool_decide as E; [by rewrite <-E, lookup_insert_eq|by rewrite lookup_insert_ne].
Qed.

(** The baselines read back from the list pushed last are those there were. *)
Lemma baselines_restored m : keyed m → data (newDigestStore true (Some (baseline_list m))) = m.
Proof.
  intros Hk. unfold newDigestStore. cbn. apply map_eq. intros k. rewrite fold_lookup, lookup_empty.
  assert (∀ b, b ∈ baseline_list m ↔ ∃ k, m !! k = Some b) as Hl.
  { intros b. unfold baseline_list. rewrite map_order_perm, list_elem_of_fmap. split.
    - intros ([k' b'] & -> & H%elem_of_map_to_list). by exists k'.
    - intros [k' H]. exists (k', b). split; [done|]. by apply elem_of_map_to_list. }
  destruct (find_last _ (baseline_list m)) as [b|] eqn:E.
  - apply find_last_Some in E as (l1 & l2 & El & Hb & _). apply bool_decide_eq_true in Hb.
    assert (b ∈ baseline_list m) as [k' Hb']%Hl by (rewrite El; apply elem_of_app; right; by left). rewrite (Hk _ _ Hb') in Hb. by subst.
  - apply find_last_None in E. rewrite Forall_forall in E. destruct (m !! k) as [b|] eqn:Eb; [|done].
    assert (b ∈ baseline_list m) as Hin by (apply Hl; by exists k). specialize (E b Hin). rewrite (Hk _ _ Eb) in E. by rewrite bool_decide_true in E.
Qed.

Lemma data_persist m : data (persist m) = data m.
Proof. unfold persist. by destruct (push m). Qed.

Lemma Get_Set m name tag digest now k : data (Set_ m name tag digest now) !! k
  = if decide (k = (name, tag)) then Some {| B_ImageName := name; B_ImageTag := tag; B_Digest := digest; B_RecordedAt := now |} else data m !! k.
Proof. unfold Set_. rewrite data_persist. cbn. case_decide as E; [by rewrite E, lookup_insert_eq|by rewrite lookup_insert_ne]. Qed.

(** ** One image *)

(** A digest that is not the baseline is in the result of the image, marked and
    with the baseline it replaced; the baseline stays. *)
Lemma changed_reported w ref name tag kubelet fetched now digest base :
  current_digest fetched kubelet = Some digest → Get (baselines w) name tag = Some base → B_Digest base ≠ digest →
  let w' := checkOneDigest w ref name tag kubelet fetched now in
  baselines w' = baselines w
  ∧ ∃ r, wresults w' !! ref = Some r ∧ SR_Digest r = digest ∧ SR_DigestChanged r = true
         ∧ (wresults w' = wresults w ∨ SR_PreviousDigest r = B_Digest base ∧ SR_DigestChangedAt r = Some now ∧ wpushed w' = snoc (wpushed w) r).
Proof.
  intros Hd Hb Hne. unfold checkOneDigest. rewrite Hd, Hb. apply String.eqb_neq in Hne as ->.
  destruct (wresults w !! ref) as [res|] eqn:Er.
  - case_if; cbn.
    + split; [done|]. exists res. split_and!; [done|done|done|by left].
    + split; [done|]. eexists. rewrite lookup_insert_eq. split_and!; try done. by right.
  - cbn. split; [done|]. eexists. rewrite lookup_insert_eq. split_and!; try done. by right.
Qed.

(** An image that has the digest of its baseline, or no digest at all, changes
    nothing; one without baseline gets it. *)
Lemma unchanged_quiet w ref name tag kubelet fetched now :
  let w' := checkOneDigest w ref name tag kubelet fetched now in
  match current_digest fetched kubelet, Get (baselines w) name tag with
  | None, _ => w' = w
  | Some digest, None => B_Digest <$> Get (baselines w') name tag = Some digest ∧ wresults w' = wresults w ∧ wevents w' = wevents w
  | Some digest, Some base => B_Digest base = digest → w' = w
  end.
Proof.
  cbv zeta. unfold checkOneDigest. destruct (current_digest fetched kubelet) as [digest|]; [|done].
  destruct (Get (baselines w) name tag) as [base|] eqn:Eb; [intros ->; by rewrite String.eqb_refl|].
  cbn. unfold Get. rewrite Get_Set. by rewrite decide_True.
Qed.

Lemma check_keeps w ref name tag kubelet fetched now k b :
  data (baselines w) !! k = Some b → data (baselines (checkOneDigest w ref name tag kubelet fetched now)) !! k = Some b.
Proof.
  intros H. unfold checkOneDigest. destruct (current_digest fetched kubelet); [|done]. destruct (Get (baselines w) name tag) eqn:Eb.
  - case_if; [done|]. destruct (wresults w !! ref); [case_if|]; done.
  - cbn. rewrite Get_Set. case_decide; [|done]. subst. unfold Get in Eb. congruence.
Qed.

Definition watch_key (img : ClusterImage) : string * string :=
  (if CI_Name img == "" then image_ref img else CI_Name img, or_latest (CI_Tag img)).

Lemma check_image_keeps w img o k b : data (baselines w) !! k = Some b → data (baselines (check_image w img o)) !! k = Some b.
Proof. intros H. unfold check_image. case_if; [done|]. by apply check_keeps. Qed.

Lemma check_image_baseline w img o : pullable img = true → is_Some (current_digest o.1 (CI_Digest img)) →
  is_Some (data (baselines (check_image w img o)) !! watch_key img).
Proof.
  unfold pullable, check_image, watch_key. intros Hp%negb_true_iff [digest Hd]. rewrite Hp.
  set (name := if CI_Name img == "" then image_ref img else CI_Name img).
  pose proof (unchanged_quiet w (image_ref img) name (or_latest (CI_Tag img)) (CI_Digest img) o.1 o.2) as H. cbv zeta in H. rewrite Hd in H.
  destruct (Get (baselines w) name (or_latest (CI_Tag img))) as [base|] eqn:Eb.
  - exists base. apply check_keeps. done.
  - destruct H as (H & _). unfold Get in H. destruct (data _ !! _); [by eauto|done].
Qed.

(** ** A cycle *)

Lemma visit_seq fuel imgs max alive start visited checked :
  visit fuel imgs max alive start visited checked
  = map (λ j, (start + j) mod length imgs)%nat (seq visited (length (visit fuel imgs max alive start visited checked))).
Proof.
  revert visited checked. induction fuel as [|fuel IH]; intros visited checked; [done|]. cbn [visit]. repeat (case_if; [done|]).
  cbn [length seq map]. f_equal. apply IH.
Qed.

Lemma visit_length fuel imgs max start visited checked :
  (length imgs = visited + fuel)%nat → (0 ≤ max)%Z →
  let v := length (visit fuel imgs max (λ _, true) start visited checked) in
  (v = fuel ∨ 0 < max ∧ max ≤ checked + Z.of_nat v)%Z.
Proof.
  intros Hl Hm. revert visited checked Hl. induction fuel as [|fuel IH]; intros visited checked Hl; [by left|]. cbn [visit negb].
  destruct (Nat.leb_spec (length imgs) visited); [lia|]. case_if; [right; cbn; lia|].
  set (checked' := match imgs !! _ with Some img => _ | None => _ end). cbn [length].
  assert (checked ≤ checked' ≤ checked + 1)%Z. { unfold checked'. repeat case_match; lia. }
  destruct (IH (S visited) checked' ltac:(lia)) as [E|E]; [left; by rewrite E|right; lia].
Qed.

Lemma cycle_cursor w imgs max alive answer : imgs ≠ [] →
  digestCursor (runDigestCheck w (Some imgs) max alive answer)
  = ((digestCursor w + length (digest_plan w imgs max alive)) mod length imgs)%nat.
Proof.
  intros Hne. unfold runDigestCheck. destruct imgs as [|x imgs0] eqn:E; [done|]. rewrite <-E. cbn [set_cursor digestCursor].
  by rewrite Nat.Div0.add_mod_idemp_l.
Qed.

Lemma fold_keeps (imgs : list ClusterImage) (answer : nat → result string * Time) plan w k b :
  data (baselines w) !! k = Some b →
  data (baselines (fold_left (λ w pos, match imgs !! pos with Some img => check_image w img (answer pos) | None => w end) plan w)) !! k = Some b.
Proof. revert w. induction plan as [|p plan IH]; intros w H; [done|]. apply IH. destruct (imgs !! p); [by apply check_image_keeps|done]. Qed.

Lemma cycle_baseline w imgs max alive answer pos img :
  imgs !! pos = Some img → pos ∈ digest_plan w imgs max alive → pullable img = true →
  is_Some (current_digest (answer pos).1 (CI_Digest img)) →
  is_Some (data (baselines (runDigestCheck w (Some imgs) max alive answer)) !! watch_key img).
Proof.
  intros Hi Hp Hpull Hd. unfold runDigestCheck. destruct imgs as [|x imgs0] eqn:E; [done|]. rewrite <-E in *. cbn [set_cursor baselines].
  apply list_elem_of_split in Hp as (l1 & l2 & ->). rewrite fold_left_app. cbn [fold_left]. rewrite Hi.
  destruct (check_image_baseline (fold_left (λ w pos, match imgs !! pos with Some img => check_image w img (answer pos) | None => w end) l1 w) img (answer pos) Hpull Hd) as [b Hb].
  exists b. by apply fold_keeps.
Qed.

Lemma cycle_keeps w imgs max alive answer k b :
  data (baselines w) !! k = Some b → data (baselines (runDigestCheck w (Some imgs) max alive answer)) !! k = Some b.
Proof. intros H. unfold runDigestCheck. destruct imgs; [done|]. cbn [set_cursor baselines]. by apply fold_keeps. Qed.

(** ** Cycles over a list that stays *)

Fixpoint cycles (w : Watcher) (imgs : list ClusterImage) (max : Z) (answers : list (nat → result string * Time)) : Watcher :=
  match answers with [] => w | a :: answers => cycles (runDigestCheck w (Some imgs) max (λ _, true) a) imgs max answers end.

Fixpoint plans (w : Watcher) (imgs : list ClusterImage) (max : Z) (answers : list (nat → result string * Time)) : list (list nat) :=
  match answers with
  | [] => []
  | a :: answers => digest_plan w imgs max (λ _, true) :: plans (runDigestCheck w (Some imgs) max (λ _, true) a) imgs max answers
  end.

Lemma seq_shift_mod c v L N : (0 < L)%nat →
  map (λ j, ((c + v) mod L + j) mod L)%nat (seq 0 N) = map (λ j, (c + j) mod L)%nat (seq v N).
Proof.
  intros HL. replace (seq v N) with (map (Nat.add v) (seq 0 N)).
  - rewrite map_map. apply map_ext. intros j. rewrite Nat.Div0.add_mod_idemp_l. f_equal. lia.
  - pose proof (fmap_add_seq v 0 N) as E. by rewrite Nat.add_0_r in E.
Qed.

Lemma plans_seq w imgs max answers : imgs ≠ [] →
  concat (plans w imgs max answers)
  = map (λ j, (digestCursor w + j) mod length imgs)%nat (seq 0 (length (concat (plans w imgs max answers)))).
Proof.
  intros Hne. assert (0 < length imgs)%nat by (by destruct imgs; cbn; [|lia]). revert w. induction answers as [|a answers IH]; intros w; [done|].
  cbn [plans concat]. rewrite length_app, seq_app, map_app. f_equal.
  - unfold digest_plan at 1. rewrite visit_seq. fold (digest_plan w imgs max (λ _, true)). apply map_ext. intros j. by rewrite Nat.Div0.add_mod_idemp_l.
  - rewrite IH at 1. rewrite cycle_cursor by done. by apply seq_shift_mod.
Qed.

Lemma plans_long w imgs max answers : imgs ≠ [] → (0 ≤ max)%Z →
  (1 ≤ length answers)%nat → (max = 0 ∨ Z.of_nat (length imgs) ≤ Z.of_nat (length answers) * max)%Z →
  (length imgs ≤ length (concat (plans w imgs max answers)))%nat.
Proof.
  intros Hne Hm Hk Hl. assert (∀ answers w, (length imgs ≤ length (concat (plans w imgs max answers)))%nat
    ∨ (0 < max ∧ Z.of_nat (length answers) * max ≤ Z.of_nat (length (concat (plans w imgs max answers))))%Z ∨ answers = []) as H.
  { clear answers w Hk Hl. intros answers. induction answers as [|a answers IH]; intros w; [by right; right|].
    cbn [plans concat]. rewrite length_app. unfold digest_plan at 1 2.
    destruct (visit_length (length imgs) imgs max (digestCursor w mod length imgs) 0 0 ltac:(lia) Hm) as [E|[E1 E2]]; [left; cbn in E; lia|].
    destruct (IH (runDigestCheck w (Some imgs) max (λ _, true) a)) as [H|[H|H]]; [left; lia|right; left|right; left].
    - cbn [length]. lia.
    - subst. cbn [plans concat length]. lia. }
  destruct (H answers w) as [?|[?|?]]; [done|lia|subst; cbn in Hk; lia].
Qed.

Lemma cycles_visited w imgs max answers pos img :
  imgs !! pos = Some img → pos ∈ concat (plans w imgs max answers) → pullable img = true →
  (∀ a, a ∈ answers → is_Some (current_digest (a pos).1 (CI_Digest img))) →
  is_Some (data (baselines (cycles w imgs max answers)) !! watch_key img).
Proof.
  intros Hi Hp Hpull. revert w Hp. induction answers as [|a answers IH]; intros w Hp Ha; [by apply elem_of_nil in Hp|].
  cbn [plans concat cycles] in *. apply elem_of_app in Hp as [Hp|Hp].
  - destruct (cycle_baseline w imgs max (λ _, true) a pos img Hi Hp Hpull ltac:(apply Ha; by left)) as [b Hb]. exists b.
    clear IH Ha Hp. revert Hb. generalize (runDigestCheck w (Some imgs) max (λ _, true) a) as w'. induction answers as [|a' answers IH]; intros w' Hb; [done|].
    cbn [cycles]. apply IH. by apply cycle_keeps.
  - apply IH; [done|]. intros a' Ha'. apply Ha. by right.
Qed.

(** As long as the cluster's images are listed in the same order and no cycle
    times out, as many cycles as it takes to look at all images at the limit per
    cycle visit every position; each image that can be pulled and has a digest
    then has a baseline. *)
Theorem digest_rotation w imgs max answers :
  imgs ≠ [] → (0 ≤ max)%Z → (1 ≤ length answers)%nat →
  (max = 0 ∨ Z.of_nat (length imgs) ≤ Z.of_nat (length answers) * max)%Z →
  ∀ pos img, imgs !! pos = Some img →
    pos ∈ concat (plans w imgs max answers)
    ∧ (pullable img = true → (∀ a, a ∈ answers → is_Some (current_digest (a pos).1 (CI_Digest img))) →
       is_Some (Get (baselines (cycles w imgs max answers)) (watch_key img).1 (watch_key img).2)).
Proof.
  intros Hne Hm Hk Hl pos img Hi.
  assert (pos ∈ concat (plans w imgs max answers)) as Hpos; [|split; [done|intros Hp Ha; by apply (cycles_visited w imgs max answers pos img)]].
  pose proof (plans_long w imgs max answers Hne Hm Hk Hl) as Hlong. pose proof (lookup_lt_Some _ _ _ Hi) as Hlt.
  rewrite plans_seq by done. apply list_elem_of_fmap. set (L := length imgs) in *.
  exists ((pos + (L - digestCursor w mod L)) mod L)%nat. split.
  - rewrite Nat.Div0.add_mod_idemp_r, <-Nat.Div0.add_mod_idemp_l.
    pose proof (Nat.mod_upper_bound (digestCursor w) L ltac:(lia)) as Hc.
    replace (digestCursor w mod L + (pos + (L - digestCursor w mod L)))%nat with (pos + 1 * L)%nat by lia.
    by rewrite Nat.Div0.mod_add, Nat.mod_small.
  - apply elem_of_seq. pose proof (Nat.mod_upper_bound (pos + (L - digestCursor w mod L)) L ltac:(lia)). lia.
Qed.
End Theorems.

(** ** Runs *)

Local Existing Instance keep_order.

Definition demo_image (name : string) : ClusterImage :=
  {| CI_Ref := name +:+ ":1"; CI_Name := name; CI_Tag := "1"; CI_Digest := ""; CI_Pods := []; CI_Namespaces := []; CI_Nodes := [];
     CI_Workloads := []; CI_PullPolicy := "" |}.
Definition demo_digest : string := "sha256:0123456789abcdef0123456789abcdef0123456789abcdef0123456789abcdef".
Definition demo_answer (pos : nat) : result string * Time := (Ok demo_digest, 1%Z).
Definition demo_watcher : Watcher :=
  {| baselines := newDigestStore true None; wresults := ∅; digestCursor := 0; wpushed := []; wevents := [] |}.

Lemma digest_rotation_witness :
  2%nat ∈ concat (plans demo_watcher (map demo_image ["a"; "b"; "c"]) 2 [demo_answer; demo_answer])
  ∧ is_Some (Get (baselines (cycles demo_watcher (map demo_image ["a"; "b"; "c"]) 2 [demo_answer; demo_answer])) "c" "1").
Proof.
  destruct (digest_rotation demo_watcher (map demo_image ["a"; "b"; "c"]) 2 [demo_answer; demo_answer]) with (pos := 2%nat) (img := demo_image "c") as [H1 H2].
  - discriminate.
  - lia.
  - cbn. lia.
  - right. cbn. lia.
  - reflexivity.
  - split; [exact H1|]. apply (H2 eq_refl). intros a Ha. repeat (apply elem_of_cons in Ha as [->|Ha]); [..|by apply elem_of_nil in Ha]; by exists demo_digest.
Defined.

(** The list comes from a Go map. When its order changes from cycle to cycle, the
    cursor can meet the same image again and again. *)
Example shuffled_never_visited :
  let ab := map demo_image ["a"; "b"] in
  let ba := map demo_image ["b"; "a"] in
  let cycle imgs w := runDigestCheck w (Some imgs) 1 (λ _, true) demo_answer in
  let w := Nat.iter 50 (λ w, cycle ba (cycle ab w)) demo_watcher in
  Get (baselines w) "b" "1" = None ∧ digestCursor w = 0%nat.
Proof. vm_compute. done. Qed.
