(* ===== verification/ScanSchedule.v ===== *)
(** * scanner-agent/internal/api: scheduled scans and image histories

    schedule.go, handleSchedule of handlers.go, loadSnapshots and
    snapshotSchedule of persist.go, and history.go. Times are UTC, a day is
    counted from Go's zero time, which was a Monday. *)

From Stdlib Require Import Ascii.
From stdpp Require Import base list gmap strings.
From S2P Require Import Prelude GoStrings ScanImages ScanPool.
Local Open Scope string_scope.
Local Open Scope list_scope.
Local Open Scope go_scope.

Definition FreqDisabled : string := "disabled".
Definition FreqDaily : string := "daily".
Definition FreqWeekly : string := "weekly".

Record ScanSchedule := {
  Enabled : bool;
  Frequency : string;
  TimeOfDay : string;
  DayOfWeek : Z;
  NextRun : option Time;
  LastRun : option Time;
}.

(** ** Time of day *)

Definition digit_at (a : ascii) : option Z := if is_digit a then Some (byte_of a - 48)%Z else None.

(** [getnum] of package time: one or two digits, two when [fixed]. *)
Definition getnum (s : string) (fixed : bool) : option (Z * string) :=
  match s with
  | String a s1 =>
      match digit_at a with
      | None => None
      | Some d =>
          match s1 with
          | String b s2 => match digit_at b with
                           | Some e => Some (d * 10 + e, s2)%Z
                           | None => if fixed then None else Some (d, s1)
                           end
          | "" => if fixed then None else Some (d, s1)
          end
      end
  | "" => None
  end.

(** [time.Parse("15:04", s)]: hour and minute. *)
Definition parse_clock (s : string) : option (Z * Z) :=
  match getnum s false with
  | Some (h, String ":" s) =>
      if (24 <=? h)%Z then None
      else match getnum s true with
           | Some (m, "") => if (60 <=? m)%Z then None else Some (h, m)
           | _ => None
           end
  | _ => None
  end.

Definition Day : Duration := (24 * Hour)%Z.
Definition day_start (t : Time) : Time := (t / Day * Day)%Z.
(** Sunday is 0. *)
Definition Weekday (t : Time) : Z := ((1 + t / Day) mod 7)%Z.

(** The loop of the weekly case. *)
Fixpoint weekly_from (rounds : nat) (candidate : Time) (dow : Z) (now : Time) (i : Z) : Time :=
  match rounds with
  | O => candidate
  | S rounds =>
      let d := (candidate + i * Day)%Z in
      if ((Weekday d =? dow) && After d now)%Z then d else weekly_from rounds candidate dow now (i + 1)
  end.

Definition computeNextRun (s : ScanSchedule) (now : Time) : option Time :=
  if negb (Enabled s) || (TimeOfDay s == "") then None
  else match parse_clock (TimeOfDay s) with
       | None => None
       | Some (h, m) =>
           let candidate := (day_start now + h * Hour + m * Minute)%Z in
           if Frequency s == FreqDaily then Some (if negb (After candidate now) then (candidate + Day)%Z else candidate)
           else if Frequency s == FreqWeekly then Some (weekly_from 8 candidate (DayOfWeek s) now 0)
           else None
       end.

(** ** The loop and the requests *)

Definition with_next (s : ScanSchedule) (next : option Time) : ScanSchedule :=
  {| Enabled := Enabled s; Frequency := Frequency s; TimeOfDay := TimeOfDay s; DayOfWeek := DayOfWeek s; NextRun := next; LastRun := LastRun s |}.

Definition triggered (s : ScanSchedule) (now : Time) : bool :=
  match NextRun s with Some next => Enabled s && negb (Before now next) | None => false end.

(** [LastRun] and [NextRun] of a run started at [now]; [NextRun] reads the clock
    again. *)
Definition fired (s : ScanSchedule) (now now' : Time) : ScanSchedule :=
  {| Enabled := Enabled s; Frequency := Frequency s; TimeOfDay := TimeOfDay s; DayOfWeek := DayOfWeek s;
     NextRun := computeNextRun s now'; LastRun := Some now |}.

Definition scheduled_refs (imgs : list ClusterImage) : list string :=
  List.filter (λ ref, (ref != "") && negb (hasPrefix ref "sha256:")) (map CI_Ref imgs).

Definition FreqOr (s : ScanSchedule) : ScanSchedule :=
  {| Enabled := Enabled s; Frequency := if Frequency s == "" then FreqDisabled else Frequency s; TimeOfDay := TimeOfDay s;
     DayOfWeek := DayOfWeek s; NextRun := NextRun s; LastRun := LastRun s |}.

(** The schedule, the scan server, the schedules sent to the hub. *)
Record Scheduler := { schedule : ScanSchedule; server : Server; saved : list ScanSchedule }.

Definition snapshotSchedule (s : Scheduler) : Scheduler :=
  {| schedule := schedule s; server := server s; saved := snoc (saved s) (schedule s) |}.
Definition set_schedule (s : Scheduler) (sc : ScanSchedule) : Scheduler := {| schedule := sc; server := server s; saved := saved s |}.
Definition set_server (s : Scheduler) (sv : Server) : Scheduler := {| schedule := schedule s; server := sv; saved := saved s |}.

(** A PUT of [handleSchedule] with a decoded body. *)
Definition put_schedule (s : Scheduler) (req : ScanSchedule) (now : Time) : Scheduler * Z :=
  if (TimeOfDay req != "") && match parse_clock (TimeOfDay req) with Some _ => false | None => true end then (s, 400%Z)
  else
    let req := FreqOr req in
    (snapshotSchedule (set_schedule s (with_next req (computeNextRun req now))), 200%Z).

(** One tick of [scheduleLoop]: the schedule is copied and tested at [now], what
    requests do before the run is marked is [between], [LastRun] is read at [now1]
    and the next run computed at [now']; [imgs] is what [ListImages] returns. *)
Definition tick (n : nat) (limit : Z) (s : Scheduler) (now : Time) (between : Scheduler → Scheduler) (now1 now' : Time)
    (imgs : option (list ClusterImage)) : Scheduler :=
  if negb (triggered (schedule s) now) then s
  else
    let s := between s in
    let s := snapshotSchedule (set_schedule s (fired (schedule s) now1 now')) in
    match imgs with
    | None => s
    | Some imgs => match scheduled_refs imgs with
                   | [] => s
                   | refs => set_server s (enqueueScan n limit refs (server s)).1
                   end
    end.

(** [loadSnapshots]: the schedule the hub has, if any. *)
Definition loadSnapshots (s : Scheduler) (pulled : option ScanSchedule) (now : Time) : Scheduler :=
  match pulled with Some sc => set_schedule s (with_next sc (computeNextRun sc now)) | None => s end.

(** ** Histories *)

Definition HistoryFetching : string := "fetching".
Definition HistoryDone : string := "done".
Definition HistoryUnavailable : string := "unavailable".

Record HistoryLayer := { CreatedBy : string; EmptyLayer : bool }.
Record ImageHistory := { IH_Image : string; IH_Status : string; IH_Error : string; IH_Stale : bool; IH_FetchedAt : Time; IH_Layers : list HistoryLayer }.

Fixpoint first_seen (seen refs : list string) : list string :=
  match refs with
  | [] => []
  | ref :: refs => if any (String.eqb ref) seen then first_seen seen refs else ref :: first_seen (ref :: seen) refs
  end.

Definition history_refs (imgs : list ClusterImage) : list string :=
  first_seen [] (List.filter (λ ref, negb (unpullable ref) && negb (hasPrefix ref "localhost/")) (map CI_Ref imgs)).

Definition still_fresh (h : ImageHistory) (now : Time) : bool :=
  (IH_Status h == HistoryDone) && negb (IH_Stale h) && (TSub now (IH_FetchedAt h) <? 14 * Minute)%Z.

(** Before the fetch. *)
Definition fetching (ref : string) : ImageHistory :=
  {| IH_Image := ref; IH_Status := HistoryFetching; IH_Error := ""; IH_Stale := false; IH_FetchedAt := 0%Z; IH_Layers := [] |}.

(** After the fetch. *)
Definition fetched (hs : gmap string ImageHistory) (ref : string) (r : result (list HistoryLayer)) (now : Time) : gmap string ImageHistory :=
  match r with
  | Err msg =>
      match hs !! ref with
      | Some prev =>
          if negb (length (IH_Layers prev) =? 0)%nat
          then <[ref := {| IH_Image := IH_Image prev; IH_Status := HistoryUnavailable; IH_Error := msg; IH_Stale := true;
                           IH_FetchedAt := IH_FetchedAt prev; IH_Layers := IH_Layers prev |}]> hs
          else <[ref := {| IH_Image := ref; IH_Status := HistoryUnavailable; IH_Error := msg; IH_Stale := false; IH_FetchedAt := 0%Z; IH_Layers := [] |}]> hs
      | None => <[ref := {| IH_Image := ref; IH_Status := HistoryUnavailable; IH_Error := msg; IH_Stale := false; IH_FetchedAt := 0%Z; IH_Layers := [] |}]> hs
      end
  | Ok layers => <[ref := {| IH_Image := ref; IH_Status := HistoryDone; IH_Error := ""; IH_Stale := false; IH_FetchedAt := now; IH_Layers := layers |}]> hs
  end.

(** One image of [fetchAllHistories]; [now] is the clock of its test, [now'] of
    its answer. *)
Definition fetch_one (hs : gmap string ImageHistory) (ref : string) (now now' : Time) (r : result (list HistoryLayer)) : gmap string ImageHistory :=
  if match hs !! ref with Some h => still_fresh h now | None => false end then hs
  else fetched (<[ref := fetching ref]> hs) ref r now'.

(** ** When a scan is due *)















(** ** Histories that were known *)

(** A failed fetch leaves no layers: the entry written before the fetch hides
    those that were known, and no entry is ever marked stale. *)
Lemma failed_fetch_forgets hs ref now now' msg :
  (∀ h, hs !! ref = Some h → still_fresh h now = false) →
  fetch_one hs ref now now' (Err msg)
  = <[ref := {| IH_Image := ref; IH_Status := HistoryUnavailable; IH_Error := msg; IH_Stale := false; IH_FetchedAt := 0%Z; IH_Layers := [] |}]> hs.
Proof.
  intros H. unfold fetch_one. destruct (hs !! ref) as [h|] eqn:E; [rewrite (H h eq_refl)|]; unfold fetched; rewrite lookup_insert_eq; cbn; by rewrite insert_insert_eq.
Qed.

(** ** Runs *)

Definition demo_schedule (dow : Z) : ScanSchedule :=
  {| Enabled := true; Frequency := FreqWeekly; TimeOfDay := "02:00"; DayOfWeek := dow; NextRun := None; LastRun := None |}.




(** A day of the week that does not exist is accepted, and the next run is the
    time of today: once it has passed, every tick of the day starts a scan. *)
Example day_seven_every_tick :
  let s0 := {| schedule := demo_schedule 1%Z; server := new_server; saved := [] |} in
  let '(s1, code) := put_schedule s0 (demo_schedule 7%Z) (5 * Day + 3 * Hour)%Z in
  let s2 := tick 1 10%Z s1 (5 * Day + 3 * Hour + Minute)%Z id (5 * Day + 3 * Hour + Minute)%Z (5 * Day + 3 * Hour + Minute)%Z None in
  let s3 := tick 1 10%Z s2 (5 * Day + 3 * Hour + 2 * Minute)%Z id (5 * Day + 3 * Hour + 2 * Minute)%Z (5 * Day + 3 * Hour + 2 * Minute)%Z None in
  code = 200%Z ∧ LastRun (schedule s2) = Some (5 * Day + 3 * Hour + Minute)%Z ∧ LastRun (schedule s3) = Some (5 * Day + 3 * Hour + 2 * Minute)%Z.
Proof. vm_compute. done. Qed.
