(* ===== verification/BuildAlerter.v ===== *)
(** * scanner-agent/internal/alerter: alerts on the images of a cluster

    alerter.go. The build rules that only alert are evaluated against the images
    the scanner lists and the histories it fetched. Regular expressions are
    those of package regexp. A step is one critical section of the loops that
    evaluate, refresh and sweep. *)

From Stdlib Require Import Ascii.
From stdpp Require Import base list gmap strings sorting.
From S2P Require Import Prelude GoStrings GoValue GoText Posture PostureProps ScanImages ScanSchedule.
Local Open Scope string_scope.
Local Open Scope list_scope.
Local Open Scope go_scope.

Definition dedupTTL : Duration := (10 * Minute)%Z.
Definition dedupMaxEntries : nat := Z.to_nat 20000.
Definition sourceTag : string := "scanner-agent".

Record buildRule := {
  R_ID : string;
  R_Name : string;
  R_Enabled : bool;
  R_AlertOnly : bool;
  R_DetType : string;
  R_Sev : string;
  R_Namespace : string;
  R_BuildInstruction : string;
  R_TrustedRegistries : string;
}.

(** ** Patterns *)

(** [regexp.Compile] and [MatchString]. *)
Class Regexp := { re_compile : string → option (string → bool) }.

Fixpoint QuoteMeta (s : string) : string :=
  match s with
  | "" => ""
  | String a s => if any (Ascii.eqb a) ["\"; "."; "+"; "*"; "?"; "("; ")"; "|"; "["; "]"; "{"; "}"; "^"; "$"]%char
                  then String "\" (String a (QuoteMeta s)) else String a (QuoteMeta s)
  end.

Section Rules.
Context {T : CaseTables} {RE : Regexp}.

(** The pattern as it is, or its text when it is not one; [None] is the panic of
    [MustCompile]. *)
Definition layer_pattern (pat : string) : option (string → bool) :=
  match re_compile ("(?i)" +:+ pat) with Some rx => Some rx | None => re_compile ("(?i)" +:+ QuoteMeta pat) end.

Definition TrimPrefix (s p : string) : string := if HasPrefix s p then sdrop (String.length p) s else s.

Definition cleanLayer (s : string) : string :=
  TrimSpace (TrimPrefix (TrimPrefix s "/bin/sh -c #(nop) ") "/bin/sh -c ").

Definition stringOr (a b : string) : string := if a != "" then a else b.

Fixpoint sliceContains (s : list string) (v : string) : bool :=
  match s with [] => false | x :: s => if x == v then true else sliceContains s v end.

Definition trusted_list (tr : string) : list string :=
  List.filter (λ v, v != "") (map (λ t, TrimSpace (ToLower t)) (Split tr ","%char)).

(** The arguments of [emit]. *)
Record report := { p_rule : buildRule; p_image : string; p_namespace : string; p_detail : string; p_kind : string }.

Definition out_of_scope (nsFilter : string) (img : ClusterImage) : bool :=
  (nsFilter != "") && negb (sliceContains (CI_Namespaces img) nsFilter).

Definition registry_report (r : buildRule) (nsFilter : string) (trusted : list string) (img : ClusterImage) : option report :=
  if CI_Ref img == "" then None
  else if out_of_scope nsFilter img then None
  else if any (HasPrefix (ToLower (CI_Ref img))) trusted then None
  else Some {| p_rule := r; p_image := CI_Ref img; p_namespace := nsFilter;
               p_detail := "Image not from trusted registry. Trusted: " +:+ Join trusted ", "; p_kind := "trusted-registry" |}.

Definition layer_report (r : buildRule) (nsFilter : string) (rx : string → bool) (hists : list ImageHistory) (img : ClusterImage) : option report :=
  let emit detail kind := Some {| p_rule := r; p_image := CI_Ref img; p_namespace := nsFilter; p_detail := detail; p_kind := kind |} in
  if CI_Ref img == "" then None
  else if HasPrefix (CI_Ref img) "localhost/" || HasPrefix (CI_Ref img) "localhost:" then None
  else if out_of_scope nsFilter img then None
  else match find_last (λ h, IH_Image h == CI_Ref img) hists with
       | None => None
       | Some hist =>
           let status := ToLower (IH_Status hist) in
           if (status == "pending") || (status == "fetching") then None
           else if status == "unavailable" then emit ("History unavailable: " +:+ stringOr (IH_Error hist) "registry unreachable") "history-unavailable"
           else match List.find (λ l, rx (CreatedBy l)) (IH_Layers hist) with
                | Some l => emit ("Layer matches: " +:+ cleanLayer (CreatedBy l)) "layer-match"
                | None => None
                end
       end.

Definition evalRule (r : buildRule) (images : list ClusterImage) (hists : list ImageHistory) : option (list report) :=
  let nsFilter := TrimSpace (R_Namespace r) in
  let tr := TrimSpace (R_TrustedRegistries r) in
  let first := if tr != "" then omap (registry_report r nsFilter (trusted_list tr)) images else [] in
  let pat := TrimSpace (R_BuildInstruction r) in
  if pat != "" then match layer_pattern pat with Some rx => Some (first ++ omap (layer_report r nsFilter rx hists) images) | None => None end
  else Some first.

(** What [runOnce] emits; [images] is [None] when they could not be listed. *)
Fixpoint eval_rules (rules : list buildRule) (images : list ClusterImage) (hists : list ImageHistory) : option (list report) :=
  match rules with
  | [] => Some []
  | r :: rules => match evalRule r images hists, eval_rules rules images hists with Some a, Some b => Some (a ++ b) | _, _ => None end
  end.

Definition run_reports (rules : list buildRule) (images : option (list ClusterImage)) (hists : list ImageHistory) : option (list report) :=
  match rules, images with [], _ | _, None => Some [] | rules, Some images => eval_rules rules images hists end.
End Rules.

(** ** Alerts *)

Record Alert := {
  L_DetType : string; L_Source : string; L_RuleID : string; L_RuleName : string; L_Severity : string; L_Namespace : string;
  L_Target : string; L_Detail : string; L_Persist : bool; L_Fingerprint : string; L_Data : value;
}.

Definition fingerprint (p : report) : string := Join ["bld"; R_ID (p_rule p); p_image p; p_kind p; p_detail p] "|".

Definition alert_of (p : report) : Alert :=
  let r := p_rule p in
  {| L_DetType := "Build"; L_Source := sourceTag; L_RuleID := R_ID r; L_RuleName := if R_Name r == "" then R_ID r else R_Name r;
     L_Severity := R_Sev r; L_Namespace := p_namespace p; L_Target := p_image p; L_Detail := p_detail p; L_Persist := true;
     L_Fingerprint := fingerprint p;
     L_Data := VMap [("check", VStr (p_kind p)); ("image", VStr (p_image p)); ("namespace", VStr (p_namespace p))] |}.

Record Alerter := { rules : list buildRule; dedup : gmap string Time; sent : list (Time * Alert) }.

Definition with_dedup (a : Alerter) (d : gmap string Time) : Alerter := {| rules := rules a; dedup := d; sent := sent a |}.

Definition markFresh (a : Alerter) (fp : string) (now : Time) : Alerter * bool :=
  match dedup a !! fp with
  | Some last => if (TSub now last <? dedupTTL)%Z then (a, false) else (with_dedup a (<[fp := now]> (dedup a)), true)
  | None => (with_dedup a (<[fp := now]> (dedup a)), true)
  end.

Definition emit (a : Alerter) (p : report) (now : Time) : Alerter :=
  let '(a, fresh) := markFresh a (fingerprint p) now in
  if negb fresh then a else {| rules := rules a; dedup := dedup a; sent := snoc (sent a) (now, alert_of p) |}.

Definition refresh (a : Alerter) (fetched : option (list (option buildRule))) : Alerter :=
  match fetched with None => a | Some docs => {| rules := omap id docs; dedup := dedup a; sent := sent a |} end.

Section Sweep.
Context {M : MapOrder}.

Definition older (x y : string * Time) : Prop := (x.2 ≤ y.2)%Z.
Local Instance older_dec : RelDecision older := λ x y, Z_le_dec x.2 y.2.

(** [evictOldest]: the entries in the order of their times, the first [n] are
    deleted. *)
Definition evictOldest (d : gmap string Time) (n : nat) : gmap string Time :=
  let entries := merge_sort older (map_order (map_to_list d)) in
  fold_left (λ d e, delete e.1 d) (take n entries) d.

Definition sweep (a : Alerter) (now : Time) : Alerter :=
  let cutoff := TAdd now (- dedupTTL)%Z in
  let kept := filter (λ kv : string * Time, ¬ (Before kv.2 cutoff = true)) (dedup a) in
  with_dedup a (if (dedupMaxEntries <? size kept)%nat then evictOldest kept (size kept - dedupMaxEntries) else kept).

(** ** What a sweep keeps *)

Lemma deletes_lookup (es : list (string * Time)) (d : gmap string Time) k :
  fold_left (λ d e, delete e.1 d) es d !! k = if decide (k ∈ map fst es) then None else d !! k.
Proof.
  revert d. induction es as [|e es IH]; intros d; [done|]. cbn [fold_left map]. rewrite IH.
  destruct (decide (k ∈ map fst es)), (decide (k ∈ e.1 :: map fst es)); try done; [set_solver| |].
  - assert (k = e.1) as -> by set_solver. apply lookup_delete_eq.
  - apply lookup_delete_ne. set_solver.
Qed.

Lemma deletes_size (es : list (string * Time)) (d : gmap string Time) :
  NoDup (map fst es) → (∀ e, e ∈ es → is_Some (d !! e.1)) → size (fold_left (λ d e, delete e.1 d) es d) = (size d - length es)%nat.
Proof.
  revert d. induction es as [|e es IH]; intros d Hn Hd; cbn [fold_left length]; [lia|]. cbn [map] in Hn. apply NoDup_cons in Hn as [He Hn]. rewrite IH; [|done|].
  - destruct (Hd e ltac:(by left)) as [t Ht]. rewrite map_size_delete_Some by eauto. lia.
  - intros e' He'. rewrite lookup_delete_ne; [apply Hd; by right|]. intros E. apply He. rewrite E. by apply list_elem_of_fmap_2.
Qed.

Lemma older_total : Total older.
Proof. intros x y. unfold older. lia. Qed.
Lemma older_trans : Transitive older.
Proof. intros x y z. unfold older. lia. Qed.

(** Eviction leaves as many entries as asked, each as young as any that went. *)
Lemma evict_oldest d n : (n ≤ size d)%nat →
  size (evictOldest d n) = (size d - n)%nat
  ∧ ∀ fp (t : Time) fp' (t' : Time), evictOldest d n !! fp = Some t → d !! fp' = Some t' → evictOldest d n !! fp' = None → (t' ≤ t)%Z.
Proof.
  intros Hn. unfold evictOldest. set (es := merge_sort older (map_order (map_to_list d))).
  assert (es ≡ₚ map_to_list d) as Hp by (unfold es; by rewrite merge_sort_Permutation, map_order_perm).
  assert (StronglySorted older es) as Hs.
  { unfold es. apply Sorted_StronglySorted; [apply older_trans|]. apply Sorted_merge_sort; apply older_total. }
  assert (NoDup (map fst es)) as Hnd by (rewrite Hp; apply NoDup_fst_map_to_list).
  assert (length es = size d) as Hl by (rewrite Hp; apply length_map_to_list).
  assert (map fst (take n es) ++ map fst (drop n es) = map fst es) as Hcut by (by rewrite <-map_app, take_drop).
  split.
  - rewrite deletes_size.
    + rewrite length_take. lia.
    + rewrite <-Hcut in Hnd. by apply NoDup_app in Hnd as [? _].
    + intros [fp t] He. exists t. cbn. apply elem_of_map_to_list. rewrite <-Hp. rewrite <-(take_drop n es). apply elem_of_app. by left.
  - intros fp t fp' t'. rewrite !deletes_lookup. destruct (decide (fp ∈ map fst (take n es))) as [|Hnot]; [done|]. intros Hd Hd'.
    destruct (decide (fp' ∈ map fst (take n es))) as [Hin|]; [intros _|by rewrite Hd'].
    apply list_elem_of_fmap in Hin as ([k v] & -> & Hin). cbn [fst] in *.
    assert (v = t') as ->. { assert ((k, v) ∈ es) as Hkv by (rewrite <-(take_drop n es); apply elem_of_app; by left). rewrite Hp in Hkv. apply elem_of_map_to_list in Hkv. congruence. }
    assert ((fp, t) ∈ drop n es) as Hdrop.
    { assert ((fp, t) ∈ es) as He by (rewrite Hp; by apply elem_of_map_to_list). rewrite <-(take_drop n es) in He. apply elem_of_app in He as [He|]; [|done].
      destruct Hnot. apply list_elem_of_fmap. by exists (fp, t). }
    rewrite <-(take_drop n es) in Hs. by apply (StronglySorted_app_1_elem_of older _ _ (k, t') (fp, t)) in Hs.
Qed.

(** After a sweep the table has at most its limit. *)
Lemma sweep_bounded a now : (size (dedup (sweep a now)) ≤ dedupMaxEntries)%nat.
Proof.
  unfold sweep. cbn [with_dedup dedup]. set (kept := filter _ (dedup a)). case_if; [|lia].
  destruct (evict_oldest kept (size kept - dedupMaxEntries)%nat ltac:(lia)) as [-> _]. lia.
Qed.
End Sweep.

(** ** Against the hub's policies *)

Section Agree.
Context {T : CaseTables} {PT : PrintTables}.

Lemma sliceContains_elem s v : sliceContains s v = true ↔ v ∈ s.
Proof.
  induction s as [|x s IH]; cbn; [split; [done|by intros ?%elem_of_nil]|]. rewrite elem_of_cons. destruct (String.eqb_spec x v) as [->|Hne]; [by split; [left|]|].
  rewrite IH. split; [by right|]. intros [E|]; [congruence|done].
Qed.

(** The image of the posture check and that of the scanner. *)
Definition same_image (img : image) (ci : ClusterImage) : Prop :=
  i_ref img = CI_Ref ci ∧ CI_Ref ci ≠ "" ∧ CI_Namespaces ci ≠ [] ∧ ∀ ns, ns ∈ i_namespaces img ↔ ns ∈ CI_Namespaces ci.

(** On an image that some namespace uses, the scanner's rule on trusted
    registries and the hub's policy report alike. *)
Lemma registry_agree e r p trusted img ci :
  R_Namespace r = P_Namespace p → same_image img ci →
  is_Some (registry_report r (TrimSpace (R_Namespace r)) trusted ci) ↔ is_Some (registry_finding e p trusted img).
Proof.
  intros Hns (Hr & Hne & Hn & Hin). unfold registry_report, registry_finding, out_of_scope, inScope. rewrite Hr, Hns. apply String.eqb_neq in Hne as ->.
  assert (i_namespaces img ≠ ∅) as Hempty. { destruct (CI_Namespaces ci) as [|ns l]; [done|]. specialize (Hin ns). set_solver. }
  rewrite (bool_decide_false (i_namespaces img = ∅)) by done. rewrite orb_false_r.
  assert (sliceContains (CI_Namespaces ci) (TrimSpace (P_Namespace p)) = bool_decide (TrimSpace (P_Namespace p) ∈ i_namespaces img)) as ->.
  { apply eq_true_iff_eq. by rewrite sliceContains_elem, bool_decide_eq_true, Hin. }
  rewrite negb_orb. destruct (negb (TrimSpace (P_Namespace p) == "") && negb (bool_decide (TrimSpace (P_Namespace p) ∈ i_namespaces img))).
  - split; by intros [].
  - destruct (any (HasPrefix (ToLower (CI_Ref ci))) trusted); [split; by intros []|]. split; intros _; by eexists.
Qed.
End Agree.

(** A host that begins like a trusted registry is trusted. *)
Example trusted_prefix_only :
  registry_report (T := ascii_tables)
    {| R_ID := "r"; R_Name := ""; R_Enabled := true; R_AlertOnly := true; R_DetType := "Build"; R_Sev := ""; R_Namespace := "";
       R_BuildInstruction := ""; R_TrustedRegistries := "registry.corp" |} "" (trusted_list (T := ascii_tables) "registry.corp")
    {| CI_Ref := "registry.corp.example.net/app:1"; CI_Name := ""; CI_Tag := ""; CI_Digest := ""; CI_Pods := []; CI_Namespaces := ["shop"];
       CI_Nodes := []; CI_Workloads := []; CI_PullPolicy := "" |} = None.
Proof. vm_compute. done. Qed.
