(* ===== verification/Honey.v ===== *)
(** * honey-operator: decoys and their registry

    decoy/decoy.go, k8s/decoy.go, k8s/k8s.go, api/server.go and registry.go, with
    the registry of the hub (HandleHoneypotRegistry of kvisior/internal/push and
    the statements of store/honeypots.go). The operator creates a service, a
    network policy and a workload that look like a Helm release, keeps a record
    of them at the hub and deletes them by that record.

    The API server holds objects by kind, namespace and name and gives each a
    UID of its own. A call is a turn: what others did in the cluster before it,
    and how it ends. *)

From Stdlib Require Import Ascii.
From stdpp Require Import base list gmap strings.
From S2P Require Import Prelude GoStrings GoValue GoText GoPath Posture.
Local Open Scope string_scope.
Local Open Scope list_scope.
Local Open Scope go_scope.

(** ** The catalogue *)

Definition KindStatefulSet : string := "StatefulSet".
Definition KindDeployment : string := "Deployment".

Record Profile := {
  P_Service : string;
  P_Kind : string;
  P_DefaultName : string;
  P_AppName : string;
  P_Chart : string;
  P_Version : string;
  P_Component : string;
  P_Repo : string;
  P_Tag : string;
  P_Args : list string;
  P_Port : Z;
  P_TargetPort : Z;
  P_PortName : string;
  P_Protocol : string;
  P_DataPath : string;
  P_Env : list (string * string);
}.

Definition catalog : list Profile := [
  {| P_Service := "postgres"; P_Kind := KindStatefulSet; P_DefaultName := "postgres";
     P_AppName := "postgresql"; P_Chart := "postgresql-15.5.38"; P_Version := "16.4.0"; P_Component := "primary";
     P_Repo := "postgres"; P_Tag := "16.4"; P_Args := ["postgres"];
     P_Port := 5432; P_TargetPort := 5432; P_PortName := "tcp-postgresql"; P_Protocol := "TCP";
     P_DataPath := "/var/lib/postgresql/data";
     P_Env := [("POSTGRES_DB", "app"); ("POSTGRES_USER", "app"); ("PGDATA", "/var/lib/postgresql/data/pgdata")] |};
  {| P_Service := "mysql"; P_Kind := KindStatefulSet; P_DefaultName := "mysql";
     P_AppName := "mysql"; P_Chart := "mysql-11.1.17"; P_Version := "8.0.39"; P_Component := "primary";
     P_Repo := "mysql"; P_Tag := "8.0.39"; P_Args := ["mysqld"];
     P_Port := 3306; P_TargetPort := 3306; P_PortName := "mysql"; P_Protocol := "TCP";
     P_DataPath := "/var/lib/mysql"; P_Env := [("MYSQL_DATABASE", "app")] |};
  {| P_Service := "redis"; P_Kind := KindStatefulSet; P_DefaultName := "redis";
     P_AppName := "redis"; P_Chart := "redis-20.1.4"; P_Version := "7.2.5"; P_Component := "master";
     P_Repo := "redis"; P_Tag := "7.2.5"; P_Args := ["redis-server"];
     P_Port := 6379; P_TargetPort := 6379; P_PortName := "tcp-redis"; P_Protocol := "TCP"; P_DataPath := "/data"; P_Env := [] |};
  {| P_Service := "elastic"; P_Kind := KindStatefulSet; P_DefaultName := "elasticsearch";
     P_AppName := "elasticsearch"; P_Chart := "elasticsearch-21.3.17"; P_Version := "8.15.0"; P_Component := "master";
     P_Repo := "elasticsearch"; P_Tag := "8.15.0"; P_Args := ["eswrapper"];
     P_Port := 9200; P_TargetPort := 9200; P_PortName := "tcp-rest-api"; P_Protocol := "TCP";
     P_DataPath := "/usr/share/elasticsearch/data";
     P_Env := [("discovery.type", "single-node"); ("ES_JAVA_OPTS", "-Xms512m -Xmx512m")] |};
  {| P_Service := "dns"; P_Kind := KindDeployment; P_DefaultName := "coredns-cache";
     P_AppName := "coredns"; P_Chart := "coredns-1.36.0"; P_Version := "1.11.3"; P_Component := "";
     P_Repo := "coredns"; P_Tag := "1.11.3"; P_Args := ["-conf"; "/etc/coredns/Corefile"];
     P_Port := 53; P_TargetPort := 5353; P_PortName := "udp-53"; P_Protocol := "UDP"; P_DataPath := ""; P_Env := [] |};
  {| P_Service := "ssh"; P_Kind := KindDeployment; P_DefaultName := "bastion";
     P_AppName := "openssh-server"; P_Chart := "openssh-server-0.4.2"; P_Version := "9.7"; P_Component := "";
     P_Repo := "openssh-server"; P_Tag := "9.7"; P_Args := ["/usr/sbin/sshd"; "-D"; "-e"];
     P_Port := 22; P_TargetPort := 2222; P_PortName := "ssh"; P_Protocol := "TCP"; P_DataPath := ""; P_Env := [] |};
  {| P_Service := "http"; P_Kind := KindDeployment; P_DefaultName := "internal-api";
     P_AppName := "nginx"; P_Chart := "nginx-18.1.11"; P_Version := "1.27.1"; P_Component := "";
     P_Repo := "nginx"; P_Tag := "1.27.1"; P_Args := ["nginx"; "-g"; "daemon off;"];
     P_Port := 80; P_TargetPort := 8080; P_PortName := "http"; P_Protocol := "TCP"; P_DataPath := ""; P_Env := [] |};
  {| P_Service := "ftp"; P_Kind := KindDeployment; P_DefaultName := "ftp";
     P_AppName := "vsftpd"; P_Chart := "vsftpd-1.2.0"; P_Version := "3.0.5"; P_Component := "";
     P_Repo := "vsftpd"; P_Tag := "3.0.5"; P_Args := ["vsftpd"];
     P_Port := 21; P_TargetPort := 2121; P_PortName := "ftp"; P_Protocol := "TCP"; P_DataPath := ""; P_Env := [] |};
  {| P_Service := "smtp"; P_Kind := KindDeployment; P_DefaultName := "mail-relay";
     P_AppName := "postfix"; P_Chart := "postfix-4.0.3"; P_Version := "3.9.0"; P_Component := "";
     P_Repo := "postfix"; P_Tag := "3.9.0"; P_Args := ["postfix"; "start-fg"];
     P_Port := 25; P_TargetPort := 2525; P_PortName := "smtp"; P_Protocol := "TCP"; P_DataPath := ""; P_Env := [] |} ].

Definition Lookup (service : string) : option Profile := List.find (λ p, P_Service p == service) catalog.

(** The environment of the process: [DECOY_REGISTRY] and [DECOY_PULL_POLICY]. *)
Record decoy_env := { DECOY_REGISTRY : string; DECOY_PULL_POLICY : string }.

Fixpoint drop_slashes (rev : string) : string :=
  match rev with String a s => if Ascii.eqb a "/" then drop_slashes s else rev | "" => "" end.
(** [strings.TrimRight(s, "/")]. *)
Definition TrimRightSlash (s : string) : string := srev (drop_slashes (srev s)).

Definition Registry (e : decoy_env) : string :=
  let r := TrimRightSlash (TrimSpace (DECOY_REGISTRY e)) in if r != "" then r else "localhost/library".

Definition PullPolicy (e : decoy_env) : string :=
  let v := TrimSpace (DECOY_PULL_POLICY e) in
  if v == "Always" then "Always" else if v == "IfNotPresent" then "IfNotPresent" else "Never".

Definition Image (e : decoy_env) (p : Profile) : string := Registry e +:+ "/" +:+ P_Repo p +:+ ":" +:+ P_Tag p.

Definition Selector (p : Profile) (name : string) : gmap string string :=
  <["app.kubernetes.io/instance" := name]> {["app.kubernetes.io/name" := P_AppName p]}.

Definition Labels (p : Profile) (name : string) : gmap string string :=
  let l := <["helm.sh/chart" := P_Chart p]> (<["app.kubernetes.io/managed-by" := "Helm"]>
             (<["app.kubernetes.io/version" := P_Version p]> (Selector p name))) in
  if P_Component p != "" then <["app.kubernetes.io/component" := P_Component p]> l else l.

(** ** What is created *)

Definition headlessName (name : string) : string := name +:+ "-hl".

Record service_spec := {
  ss_Name : string; ss_Namespace : string; ss_Labels : gmap string string; ss_Type : string; ss_Selector : gmap string string;
  ss_PortName : string; ss_Port : Z; ss_TargetPort : string; ss_Protocol : string; ss_ClusterIP : string; ss_PublishNotReady : bool;
}.

Definition decoyService (ns name : string) (p : Profile) : service_spec :=
  {| ss_Name := name; ss_Namespace := ns; ss_Labels := Labels p name; ss_Type := "ClusterIP"; ss_Selector := Selector p name;
     ss_PortName := P_PortName p; ss_Port := P_Port p; ss_TargetPort := P_PortName p; ss_Protocol := P_Protocol p;
     ss_ClusterIP := ""; ss_PublishNotReady := false |}.

Definition decoyHeadless (ns name : string) (p : Profile) : service_spec :=
  let svc := decoyService ns (headlessName name) p in
  {| ss_Name := ss_Name svc; ss_Namespace := ss_Namespace svc; ss_Labels := ss_Labels svc; ss_Type := ss_Type svc;
     ss_Selector := Selector p name; ss_PortName := ss_PortName svc; ss_Port := ss_Port svc; ss_TargetPort := ss_TargetPort svc;
     ss_Protocol := ss_Protocol svc; ss_ClusterIP := "None"; ss_PublishNotReady := true |}.

(** An ingress rule is its ports; no peers are named, so all are let in. *)
Record policy_spec := {
  ps_Name : string; ps_Namespace : string; ps_Labels : gmap string string; ps_PodSelector : gmap string string;
  ps_Types : list string; ps_Ingress : list (list (Z * string)); ps_Egress : list (list (Z * string));
}.

Definition decoyPolicy (ns name : string) (p : Profile) : policy_spec :=
  {| ps_Name := name; ps_Namespace := ns; ps_Labels := Labels p name; ps_PodSelector := Selector p name;
     ps_Types := ["Ingress"; "Egress"]; ps_Ingress := [[(P_TargetPort p, P_Protocol p)]]; ps_Egress := [] |}.

(** The parts of a pod template the posture checks do not read are beside its
    specification. *)
Record pod_template := {
  pt_Labels : gmap string string; pt_Spec : podSpec; pt_Args : list string; pt_Env : list (string * string); pt_PullPolicy : string;
  pt_PortName : string; pt_Protocol : string; pt_MountPaths : list (string * string); pt_Probe : list string;
  pt_EnableServiceLinks : bool; pt_RunAs : Z * Z;
}.

Definition decoyPodSpec (e : decoy_env) (name : string) (p : Profile) : pod_template :=
  let mounts := [("tmp", "/tmp"); ("logs", "/var/log/" +:+ P_Service p)] in
  let mounts := if P_DataPath p != "" then snoc mounts ("data", P_DataPath p) else mounts in
  let volumes := map fst mounts in
  let c := {| C_Name := P_AppName p; C_Image := Image e p;
              SecurityContext := Some {| Privileged := None; AllowPrivilegeEscalation := Some false; RunAsUser := Some 65534%Z;
                                         RunAsNonRoot := Some true; ReadOnlyRootFilesystem := None;
                                         Capabilities := Some {| Drop := ["ALL"] |}; SeccompProfile := None |};
              Ports := [{| ContainerPort := P_TargetPort p; HostPort := 0 |}];
              VolumeMounts := map (λ m, {| VM_Name := m.1; ReadOnly := false |}) mounts;
              Limits := [("memory", VStr "160Mi")]; Requests := [("cpu", VStr "10m"); ("memory", VStr "48Mi")];
              Env := map (λ _, None) (P_Env p); EnvFrom := [] |} in
  {| pt_Labels := Labels p name;
     pt_Spec := {| Containers := [c]; InitContainers := []; HostPID := false; HostIPC := false; HostNetwork := false;
                   PodSecurityContext := Some {| SupplementalGroups := []; FSGroup := Some 65534%Z; PodSeccompProfile := Some {| SType := "RuntimeDefault" |} |};
                   ServiceAccountName := ""; AutomountServiceAccountToken := Some false;
                   Volumes := map (λ v, {| V_Name := v; HostPath := None |}) volumes |};
     pt_Args := P_Args p; pt_Env := P_Env p; pt_PullPolicy := PullPolicy e; pt_PortName := P_PortName p; pt_Protocol := P_Protocol p;
     pt_MountPaths := mounts; pt_Probe := ["/usr/local/bin/docker-healthcheck"; FormatInt (P_TargetPort p)];
     pt_EnableServiceLinks := false; pt_RunAs := (65534, 65534)%Z |}.

Record workload_spec := {
  ws_Name : string; ws_Namespace : string; ws_Labels : gmap string string; ws_Replicas : Z; ws_ServiceName : string;
  ws_Selector : gmap string string; ws_Template : pod_template;
}.

Definition decoyStatefulSet (e : decoy_env) (ns name : string) (p : Profile) : workload_spec :=
  {| ws_Name := name; ws_Namespace := ns; ws_Labels := Labels p name; ws_Replicas := 1; ws_ServiceName := headlessName name;
     ws_Selector := Selector p name; ws_Template := decoyPodSpec e name p |}.

Definition decoyDeployment (e : decoy_env) (ns name : string) (p : Profile) : workload_spec :=
  {| ws_Name := name; ws_Namespace := ns; ws_Labels := Labels p name; ws_Replicas := 1; ws_ServiceName := "";
     ws_Selector := Selector p name; ws_Template := decoyPodSpec e name p |}.

(** ** The cluster *)

Inductive kind := KService | KPolicy | KStatefulSet | KDeployment | KReplicaSet | KPod | KConfigMap | KNamespace.
#[export] Instance kind_eq_dec : EqDecision kind.
Proof. solve_decision. Defined.
#[export] Instance kind_countable : Countable kind.
Proof.
  refine (inj_countable'
    (λ k, match k with KService => 0 | KPolicy => 1 | KStatefulSet => 2 | KDeployment => 3 | KReplicaSet => 4 | KPod => 5 | KConfigMap => 6
          | KNamespace => 7 end%nat)
    (λ n, match n with 0 => KService | 1 => KPolicy | 2 => KStatefulSet | 3 => KDeployment | 4 => KReplicaSet | 5 => KPod | 6 => KConfigMap
          | _ => KNamespace end%nat) _).
  by intros [].
Defined.

(** Kind, namespace and name. *)
Definition key : Type := kind * string * string.

(** The controller in the owner references of an object. *)
Record owner := { ow_kind : string; ow_name : string; ow_uid : string }.
Record object := { o_uid : string; o_labels : gmap string string; o_ip : string; o_owner : option owner; o_phase : string }.

(** UIDs: never given twice, never empty. *)
Class Uids := {
  uid_of : nat → string;
  uid_inj : ∀ i j, uid_of i = uid_of j → i = j;
  uid_some : ∀ i, uid_of i ≠ "";
}.

Record HoneypotRecord := {
  H_ID : string;
  H_Namespace : string;
  H_Name : string;
  H_Kind : string;
  H_Service : string;
  H_Port : Z;
  H_TargetPort : Z;
  H_WorkloadUID : string;
  H_ServiceUID : string;
  H_PolicyUID : string;
  H_ClusterIP : string;
  H_Selector : gmap string string;
  H_Image : string;
  H_CreatedBy : string;
  H_CreatedAt : Time;
}.

(** What others do: create an object or change one, or delete one. *)
Inductive outside := OPut (k : key) (labels : gmap string string) (ip : string) (controller : option owner) (phase : string) | ODelete (k : key).

(** [t_ip] is the address a created service gets. *)
Record turn := { t_before : list outside; t_end : ending; t_ip : string }.

(** What the operator did: an object made (and whether it was told so), deleted,
    or not deleted although asked for by its UID. *)
Inductive event := Made (k : key) (uid : string) (told : bool) | Deleted (k : key) (uid : string) | Refused (k : key) (uid : string).

(** [registry] is the table of the hub, [known] the records the operator keeps;
    [issued] counts the UIDs given. *)
Record World := {
  objects : gmap key object;
  issued : nat;
  registry : list HoneypotRecord;
  known : list HoneypotRecord;
  turns : list turn;
  trace : list event;
}.

Definition set_objects (w : World) (os : gmap key object) : World :=
  {| objects := os; issued := issued w; registry := registry w; known := known w; turns := turns w; trace := trace w |}.
Definition set_issued (w : World) (n : nat) : World :=
  {| objects := objects w; issued := n; registry := registry w; known := known w; turns := turns w; trace := trace w |}.
Definition set_registry (w : World) (r : list HoneypotRecord) : World :=
  {| objects := objects w; issued := issued w; registry := r; known := known w; turns := turns w; trace := trace w |}.
Definition set_known (w : World) (r : list HoneypotRecord) : World :=
  {| objects := objects w; issued := issued w; registry := registry w; known := r; turns := turns w; trace := trace w |}.
Definition set_turns (w : World) (ts : list turn) : World :=
  {| objects := objects w; issued := issued w; registry := registry w; known := known w; turns := ts; trace := trace w |}.
Definition note (w : World) (e : event) : World :=
  {| objects := objects w; issued := issued w; registry := registry w; known := known w; turns := turns w; trace := snoc (trace w) e |}.

(** Programs of the operator. *)
Definition Prog (A : Type) : Type := World → World * A.
#[export] Instance Prog_ret : MRet Prog := λ A a w, (w, a).
#[export] Instance Prog_bind : MBind Prog := λ A B k m w, let '(w', a) := m w in k a w'.

(** An action on the world. *)
Definition act {A} (f : World → World * A) : Prog A := f.

Inductive kerror := NotFound | AlreadyExists | Conflict | Failed.

Section Operator.
Context {U : Uids} {M : MapOrder}.

Definition put_object (w : World) (k : key) (labels : gmap string string) (ip : string) (c : option owner) (phase : string) : World :=
  match objects w !! k with
  | Some o => set_objects w (<[k := {| o_uid := o_uid o; o_labels := labels; o_ip := ip; o_owner := c; o_phase := phase |}]> (objects w))
  | None => set_issued (set_objects w (<[k := {| o_uid := uid_of (issued w); o_labels := labels; o_ip := ip; o_owner := c; o_phase := phase |}]> (objects w)))
              (S (issued w))
  end.

Definition outside_step (w : World) (a : outside) : World :=
  match a with
  | OPut k labels ip c phase => put_object w k labels ip c phase
  | ODelete k => set_objects w (delete k (objects w))
  end.

Definition next_turn : Prog turn := λ w,
  match turns w with
  | [] => (w, {| t_before := []; t_end := Done; t_ip := "" |})
  | t :: ts => (fold_left outside_step (t_before t) (set_turns w ts), t)
  end.

Definition api_get (k : key) : Prog (kerror + object) :=
  t ← next_turn;
  act (λ w, (w, if heard (t_end t) then match objects w !! k with Some o => inr o | None => inl NotFound end else inl Failed)).

Definition api_create (k : key) (labels : gmap string string) : Prog (kerror + object) :=
  t ← next_turn;
  act (λ w,
       match objects w !! k with
       | Some _ => (w, inl (if heard (t_end t) then AlreadyExists else Failed))
       | None =>
           if applied (t_end t) then
             let w' := put_object w k labels (t_ip t) None "" in
             (note w' (Made k (uid_of (issued w)) (heard (t_end t))),
              match objects w' !! k with Some o => if heard (t_end t) then inr o else inl Failed | None => inl Failed end)
           else (w, inl Failed)
       end).

(** [Delete] with the UID as precondition, or without. *)
Definition api_delete (k : key) (pre : option string) : Prog (option kerror) :=
  t ← next_turn;
  act (λ w, let answer e := if heard (t_end t) then e else Some Failed in
       match objects w !! k with
       | None => (w, answer (Some NotFound))
       | Some o =>
           if match pre with Some uid => o_uid o != uid | None => false end then (w, answer (Some Conflict))
           else if applied (t_end t) then (note (set_objects w (delete k (objects w))) (Deleted k (o_uid o)), answer None)
           else (note w (Refused k (o_uid o)), Some Failed)
       end).

(** The pods of a namespace that carry the labels. *)
Definition labelsMatch (have want : gmap string string) : bool :=
  forallb (λ kv : string * string, default "" (have !! kv.1) == kv.2) (map_to_list want).
Definition selects (sel have : gmap string string) : bool :=
  forallb (λ kv : string * string, bool_decide (have !! kv.1 = Some kv.2)) (map_to_list sel).

(** Namespace and name of a pod, and the pod. *)
Definition pod_entry : Type := (string * string) * object.

Definition api_pods (ns : string) (sel : gmap string string) : Prog (option (list pod_entry)) :=
  t ← next_turn;
  act (λ w, (w, if heard (t_end t)
           then Some (omap (λ ko : key * object,
                  let '((kd, n, name), o) := ko in
                  if bool_decide (kd = KPod) && ((ns == "") || (n == ns)) && selects sel (o_labels o) then Some (((n, name), o) : pod_entry) else None)
                  (map_order (map_to_list (objects w))))
           else None)).

(** ** Decoys *)

Definition blockedNamespaces (ns : string) : bool := any (String.eqb ns) ["kube-system"; "kube-public"; "kube-node-lease"].

Fixpoint name_checks (ks : list key) : Prog (kerror + bool) :=
  match ks with
  | [] => mret (inr false)
  | k :: ks =>
      r ← api_get k;
      match r with inr _ => mret (inr true) | inl NotFound => name_checks ks | inl e => mret (inl e) end
  end.

Definition NameTaken (ns name : string) (p : Profile) : Prog (kerror + bool) :=
  name_checks ([(KStatefulSet, ns, name); (KDeployment, ns, name); (KService, ns, name); (KPolicy, ns, name)]
               ++ (if P_Kind p == KindStatefulSet then [(KService, ns, headlessName name)] else [])).

(** [None] is the error of an unknown kind; the errors that mean that the object
    is not there are none. *)
Definition kind_of (kd : string) : option kind :=
  if kd == "statefulset" then Some KStatefulSet else if kd == "deployment" then Some KDeployment
  else if kd == "service" then Some KService else if kd == "networkpolicy" then Some KPolicy else None.

Definition deleteIfUID (kind ns name uid : string) : Prog (option kerror) :=
  if uid == "" then mret None
  else match kind_of kind with
       | None => mret (Some Failed)
       | Some kd =>
           err ← api_delete (kd, ns, name) (Some uid);
           mret match err with Some NotFound | Some Conflict => None | err => err end
       end.

(** The cleanup functions, the last one first. *)
Fixpoint rollback (ns : string) (cleanup : list (string * string * string)) : Prog unit :=
  match cleanup with
  | [] => mret tt
  | (kind, name, uid) :: cleanup => _ ← deleteIfUID kind ns name uid; rollback ns cleanup
  end.

Inductive create_error := ErrBlocked | ErrNameTaken | ErrCheck (e : kerror) | ErrService (e : kerror) | ErrHeadless (e : kerror)
| ErrPolicy (e : kerror) | ErrWorkload (e : kerror).

Definition new_record (env : decoy_env) (ns name : string) (p : Profile) (id : string) (now : Time) : HoneypotRecord :=
  {| H_ID := id; H_Namespace := ns; H_Name := name; H_Kind := P_Kind p; H_Service := P_Service p; H_Port := P_Port p;
     H_TargetPort := P_TargetPort p; H_WorkloadUID := ""; H_ServiceUID := ""; H_PolicyUID := ""; H_ClusterIP := "";
     H_Selector := Selector p name; H_Image := Image env p; H_CreatedBy := ""; H_CreatedAt := now |}.
Definition with_uids (r : HoneypotRecord) (workload svc policy ip : string) : HoneypotRecord :=
  {| H_ID := H_ID r; H_Namespace := H_Namespace r; H_Name := H_Name r; H_Kind := H_Kind r; H_Service := H_Service r; H_Port := H_Port r;
     H_TargetPort := H_TargetPort r; H_WorkloadUID := workload; H_ServiceUID := svc; H_PolicyUID := policy; H_ClusterIP := ip;
     H_Selector := H_Selector r; H_Image := H_Image r; H_CreatedBy := H_CreatedBy r; H_CreatedAt := H_CreatedAt r |}.
Definition with_creator (r : HoneypotRecord) (user : string) : HoneypotRecord :=
  {| H_ID := H_ID r; H_Namespace := H_Namespace r; H_Name := H_Name r; H_Kind := H_Kind r; H_Service := H_Service r; H_Port := H_Port r;
     H_TargetPort := H_TargetPort r; H_WorkloadUID := H_WorkloadUID r; H_ServiceUID := H_ServiceUID r; H_PolicyUID := H_PolicyUID r;
     H_ClusterIP := H_ClusterIP r; H_Selector := H_Selector r; H_Image := H_Image r; H_CreatedBy := user; H_CreatedAt := H_CreatedAt r |}.

(** The headless service of a StatefulSet; [inr None] when there is none to make. *)
Definition create_headless (ns name : string) (p : Profile) : Prog (kerror + option object) :=
  if P_Kind p == KindStatefulSet then
    r ← api_create (KService, ns, headlessName name) (ss_Labels (decoyHeadless ns name p));
    mret match r with inl e => inl e | inr hl => inr (Some hl) end
  else mret (inr None).

Definition workload_kind (p : Profile) : kind := if P_Kind p == KindStatefulSet then KStatefulSet else KDeployment.

Definition CreateDecoy (env : decoy_env) (ns name : string) (p : Profile) (id : string) (now : Time) : Prog (HoneypotRecord * option create_error) :=
  let rec := new_record env ns name p id now in
  if blockedNamespaces ns then mret (rec, Some ErrBlocked)
  else
    taken ← NameTaken ns name p;
    match taken with
    | inl e => mret (rec, Some (ErrCheck e))
    | inr true => mret (rec, Some ErrNameTaken)
    | inr false =>
        svc ← api_create (KService, ns, name) (ss_Labels (decoyService ns name p));
        match svc with
        | inl e => mret (rec, Some (ErrService e))
        | inr svc =>
            let cleanup := [("service", name, o_uid svc)] in
            let rec := with_uids rec "" (o_uid svc) "" (o_ip svc) in
            hl ← create_headless ns name p;
            match hl with
            | inl e => _ ← rollback ns cleanup; mret (rec, Some (ErrHeadless e))
            | inr hl =>
                let cleanup := match hl with Some hl => ("service", headlessName name, o_uid hl) :: cleanup | None => cleanup end in
                np ← api_create (KPolicy, ns, name) (ps_Labels (decoyPolicy ns name p));
                match np with
                | inl e => _ ← rollback ns cleanup; mret (rec, Some (ErrPolicy e))
                | inr np =>
                    let cleanup := ("networkpolicy", name, o_uid np) :: cleanup in
                    let rec := with_uids rec "" (o_uid svc) (o_uid np) (o_ip svc) in
                    wl ← api_create (workload_kind p, ns, name)
                           (ws_Labels ((if P_Kind p == KindStatefulSet then decoyStatefulSet else decoyDeployment) env ns name p));
                    match wl with
                    | inl e => _ ← rollback ns cleanup; mret (rec, Some (ErrWorkload e))
                    | inr wl => mret (with_uids rec (o_uid wl) (o_uid svc) (o_uid np) (o_ip svc), None)
                    end
                end
            end
        end
    end.

Definition deleteOwnedHeadless (rec : HoneypotRecord) : Prog (option kerror) :=
  r ← api_get (KService, H_Namespace rec, headlessName (H_Name rec));
  match r with
  | inl NotFound => mret None
  | inl e => mret (Some e)
  | inr hl => if negb (labelsMatch (o_labels hl) (H_Selector rec)) then mret None
              else deleteIfUID "service" (H_Namespace rec) (headlessName (H_Name rec)) (o_uid hl)
  end.

Definition DeleteDecoy (rec : HoneypotRecord) : Prog (list kerror) :=
  let sts := H_Kind rec == KindStatefulSet in
  e1 ← deleteIfUID (if sts then "statefulset" else "deployment") (H_Namespace rec) (H_Name rec) (H_WorkloadUID rec);
  e2 ← deleteIfUID "service" (H_Namespace rec) (H_Name rec) (H_ServiceUID rec);
  e3 ← (if sts then deleteOwnedHeadless rec else mret None);
  e4 ← deleteIfUID "networkpolicy" (H_Namespace rec) (H_Name rec) (H_PolicyUID rec);
  mret (omap id [e1; e2; e3; e4]).

(** Honeypots of an older release: by name alone. *)
Definition legacy_keys (name ns : string) : list key :=
  [(KService, ns, "h-" +:+ name); (KPod, ns, "h-" +:+ name); (KConfigMap, ns, "h-" +:+ name +:+ "-config")].
Definition Delete (name ns : string) : Prog (list kerror) :=
  e1 ← api_delete (KService, ns, "h-" +:+ name) None;
  e2 ← api_delete (KPod, ns, "h-" +:+ name) None;
  e3 ← api_delete (KConfigMap, ns, "h-" +:+ name +:+ "-config") None;
  mret (omap id [e1; e2; e3]).

(** ** Looking at decoys *)

Definition StateReady : string := "ok".
Definition StateMissing : string := "missing".
Definition StateReplaced : string := "replaced".

(** The UID of the deployment a ReplicaSet belongs to, kept by the UID of the
    ReplicaSet. *)
Definition rs_deployment (ns : string) (rsOwner : gmap string string) (ow : owner) : Prog (gmap string string * string) :=
  match rsOwner !! ow_uid ow with
  | Some dep => mret (rsOwner, dep)
  | None =>
      r ← api_get (KReplicaSet, ns, ow_name ow);
      let dep := match r with
                 | inr rs => match o_owner rs with Some d => if ow_kind d == "Deployment" then ow_uid d else "" | None => "" end
                 | inl _ => ""
                 end in
      mret (<[ow_uid ow := dep]> rsOwner, dep)
  end.

Fixpoint owned (rec : HoneypotRecord) (rsOwner : gmap string string) (pods : list pod_entry) : Prog (list pod_entry) :=
  match pods with
  | [] => mret []
  | pod :: pods =>
      match o_owner pod.2 with
      | None => owned rec rsOwner pods
      | Some ow =>
          if (H_Kind rec == KindStatefulSet) && (ow_kind ow == "StatefulSet") then
            rest ← owned rec rsOwner pods;
            mret (if ow_uid ow == H_WorkloadUID rec then pod :: rest else rest)
          else if (H_Kind rec == KindDeployment) && (ow_kind ow == "ReplicaSet") then
            d ← rs_deployment (H_Namespace rec) rsOwner ow;
            rest ← owned rec d.1 pods;
            mret (if d.2 == H_WorkloadUID rec then pod :: rest else rest)
          else owned rec rsOwner pods
      end
  end.

Definition OwnedPods (rec : HoneypotRecord) : Prog (list pod_entry) :=
  l ← api_pods (H_Namespace rec) (H_Selector rec);
  match l with None => mret [] | Some pods => owned rec ∅ pods end.

Record DecoyStatus := { D_State : string; D_Phase : string; D_ClusterIP : string; D_Pods : list pod_entry }.

(** [Pending], or the phase of the first running pod, or of the last. *)
Fixpoint decoy_phase (phase : string) (pods : list pod_entry) : string :=
  match pods with
  | [] => phase
  | p :: pods => if o_phase p.2 == "Running" then "Running" else decoy_phase (o_phase p.2) pods
  end.

Definition InspectDecoy (rec : HoneypotRecord) : Prog DecoyStatus :=
  let st state := {| D_State := state; D_Phase := ""; D_ClusterIP := H_ClusterIP rec; D_Pods := [] |} in
  wl ← api_get (if H_Kind rec == KindStatefulSet then KStatefulSet else KDeployment, H_Namespace rec, H_Name rec);
  match wl with
  | inl _ => mret (st StateMissing)
  | inr wl =>
      if o_uid wl != H_WorkloadUID rec then mret (st StateReplaced)
      else
        svc ← api_get (KService, H_Namespace rec, H_Name rec);
        let ip := match svc with inr svc => if o_uid svc == H_ServiceUID rec then o_ip svc else H_ClusterIP rec | inl _ => H_ClusterIP rec end in
        pods ← OwnedPods rec;
        mret {| D_State := StateReady; D_Phase := decoy_phase "Pending" pods; D_ClusterIP := ip; D_Pods := pods |}
  end.

(** ** The registry of the hub *)

(** [RegisterHoneypot] on the rows of the cluster: the identifier is the primary
    key, namespace and name are unique. *)
Definition same_id (id : string) (r : HoneypotRecord) : bool := H_ID r == id.
Definition update_row (rec r : HoneypotRecord) : HoneypotRecord :=
  {| H_ID := H_ID r; H_Namespace := H_Namespace r; H_Name := H_Name r; H_Kind := H_Kind r; H_Service := H_Service r; H_Port := H_Port r;
     H_TargetPort := H_TargetPort r; H_WorkloadUID := H_WorkloadUID rec; H_ServiceUID := H_ServiceUID rec; H_PolicyUID := H_PolicyUID rec;
     H_ClusterIP := H_ClusterIP rec; H_Selector := H_Selector rec; H_Image := H_Image rec; H_CreatedBy := H_CreatedBy r; H_CreatedAt := H_CreatedAt r |}.
Definition RegisterHoneypot (rec : HoneypotRecord) (rows : list HoneypotRecord) : option (list HoneypotRecord) :=
  if any (same_id (H_ID rec)) rows then Some (map (λ r, if same_id (H_ID rec) r then update_row rec r else r) rows)
  else if any (λ r, (H_Namespace r == H_Namespace rec) && (H_Name r == H_Name rec)) rows then None
  else Some (snoc rows rec).
Definition UnregisterHoneypot (id : string) (rows : list HoneypotRecord) : list HoneypotRecord :=
  List.filter (λ r, negb (same_id id r)) rows.

Inductive registry_op := Register_ (rec : HoneypotRecord) | Unregister_ (id : string).

(** [HandleHoneypotRegistry] after decoding: the rows, and whether it answers 204. *)
Definition HandleHoneypotRegistry (op : registry_op) (rows : list HoneypotRecord) : list HoneypotRecord * bool :=
  match op with
  | Register_ rec =>
      if (H_ID rec == "") || (H_Namespace rec == "") || (H_Name rec == "") || (H_WorkloadUID rec == "") then (rows, false)
      else match RegisterHoneypot rec rows with Some rows => (rows, true) | None => (rows, false) end
  | Unregister_ id => if id == "" then (rows, false) else (UnregisterHoneypot id rows, true)
  end.

(** [Client.post]: whether it ends without an error. *)
Definition registry_post (op : registry_op) : Prog bool :=
  t ← next_turn;
  act (λ w, if applied (t_end t) then let '(rows, ok) := HandleHoneypotRegistry op (registry w) in (set_registry w rows, ok && heard (t_end t))
       else (w, false)).

(** [Client.List]: the rows in the order of the database. *)
Definition registry_list : Prog (option (list HoneypotRecord)) :=
  t ← next_turn;
  act (λ w, (w, if heard (t_end t) then Some (map_order (registry w)) else None)).

(** ** Requests *)

Record HoneypotSpec := { S_Name : string; S_Namespace : string; S_Service : string; S_Services : list string }.

(** [c_enabled]: there is a URL of the hub; [c_namespace] is [mtls.Namespace()]. *)
Record config := { c_enabled : bool; c_namespace : string; c_env : decoy_env }.

Definition records (c : config) : Prog (list HoneypotRecord) :=
  if c_enabled c then
    l ← registry_list;
    match l with Some recs => act (λ w, (set_known w recs, recs)) | None => act (λ w, (w, known w)) end
  else act (λ w, (w, known w)).

Definition findRecord (c : config) (ns name : string) : Prog (option HoneypotRecord) :=
  recs ← records c;
  mret (List.find (λ r, (H_Namespace r == ns) && (H_Name r == name)) recs).

(** [^[a-z0-9]([-a-z0-9]*[a-z0-9])?$]. *)
Definition name_char (a : ascii) : bool := let b := byte_of a in (((97 <=? b) && (b <=? 122)) || ((48 <=? b) && (b <=? 57)))%Z.
Fixpoint name_tail (s : string) : bool :=
  match s with
  | "" => true
  | String a "" => name_char a
  | String a s => (name_char a || Ascii.eqb a "-") && name_tail s
  end.
Definition honeypotNameRe (s : string) : bool := match s with "" => false | String a s => name_char a && name_tail s end.

Definition chosen_service (spec : HoneypotSpec) : string :=
  let service := TrimSpace (S_Service spec) in
  if service == "" then match S_Services spec with [s] => s | _ => "" end else service.

(** The status of the answer, and the record of a new honeypot. *)
Definition handleCreate (c : config) (spec : option HoneypotSpec) (user id : string) (now : Time) : Prog (Z * option HoneypotRecord) :=
  match spec with
  | None => mret (400%Z, None)
  | Some spec =>
      let service := chosen_service spec in
      if service == "" then mret (400%Z, None)
      else match Lookup service with
      | None => mret (400%Z, None)
      | Some profile =>
          let name := TrimSpace (S_Name spec) in
          let name := if name == "" then P_DefaultName profile else name in
          if negb (honeypotNameRe name) || (40 <? String.length name)%nat then mret (400%Z, None)
          else
            let ns := if S_Namespace spec == "" then c_namespace c else S_Namespace spec in
            if negb (c_enabled c) then mret (503%Z, None)
            else
              found ← api_get (KNamespace, "", ns);
              match found with
              | inl _ => mret (400%Z, None)
              | inr _ =>
                  created ← CreateDecoy (c_env c) ns name profile id now;
                  match created.2 with
                  | Some ErrNameTaken => mret (409%Z, None)
                  | Some _ => mret (500%Z, None)
                  | None =>
                      let rec := with_creator created.1 (TrimSpace user) in
                      ok ← registry_post (Register_ rec);
                      if negb ok then _ ← DeleteDecoy rec; mret (502%Z, None) else mret (201%Z, Some rec)
                  end
              end
      end
  end.

Definition handleDelete (c : config) (query_ns name : string) : Prog Z :=
  let ns := if query_ns == "" then c_namespace c else query_ns in
  found ← findRecord c ns name;
  match found with
  | Some rec =>
      errs ← DeleteDecoy rec;
      match errs with
      | [] => ok ← registry_post (Unregister_ (H_ID rec)); mret (if negb ok then 502 else 200)%Z
      | _ => mret 500%Z
      end
  | None => errs ← Delete name ns; mret match errs with [] => 200 | _ => 500 end%Z
  end.

Definition requireAdmin (role : string) : bool := TrimSpace role == "admin".

(** The routes that change something, and the list, which may bring the records
    up to date. *)
Inductive request := POST (role user : string) (spec : option HoneypotSpec) (id : string) (now : Time)
| DELETE (role ns name : string) | GET.

Definition serve (c : config) (r : request) : Prog Z :=
  match r with
  | POST role user spec id now => if negb (requireAdmin role) then mret 403%Z else a ← handleCreate c spec user id now; mret a.1
  | DELETE role ns name => if negb (requireAdmin role) then mret 403%Z else handleDelete c ns name
  | GET => recs ← records c; _ ← mapM InspectDecoy recs; mret 200%Z
  end.

(** The requests one after the other, each with its turns. *)
Definition serve_all (c : config) (w : World) (rs : list (request * list turn)) : World :=
  fold_left (λ w r, (serve c r.1 (set_turns w r.2)).1) rs w.
End Operator.
