(* ===== verification/HoneyProps.v ===== *)
(** * Honeypots: theorems

    A request that fails leaves nothing behind unless the API server did not
    carry out what it was asked or did what it reported as failed; the operator
    deletes only what it created, headless services beside its own decoys, and
    the names of the older release. *)

From Stdlib Require Import Ascii.
From stdpp Require Import base list gmap strings.
From S2P Require Import Prelude GoStrings GoValue Posture DeployAlerter Honey.
Local Open Scope string_scope.
Local Open Scope list_scope.
Local Open Scope go_scope.

Section World.
Context {U : Uids} {M : MapOrder}.

(** No object of that key has that UID. *)
Definition gone (k : key) (u : string) (w : World) : Prop := ∀ o, objects w !! k = Some o → o_uid o ≠ u.
Definition issued_uid (w : World) (u : string) : Prop := ∃ i, (i < issued w)%nat ∧ u = uid_of i.

(** UIDs are issued, and an object the operator made is where it made it. *)
Record wf (w : World) : Prop := {
  wf_object : ∀ k o, objects w !! k = Some o → issued_uid w (o_uid o);
  wf_made : ∀ k u b, Made k u b ∈ trace w → issued_uid w u;
  wf_place : ∀ k o k' b, objects w !! k = Some o → Made k' (o_uid o) b ∈ trace w → k' = k;
}.

(** How the world goes on: UIDs and the trace are only added to, and what is
    gone does not come back. *)
Record evolves (w w' : World) : Prop := {
  ev_issued : (issued w ≤ issued w')%nat;
  ev_trace : trace w `prefix_of` trace w';
  ev_gone : ∀ k u, issued_uid w u → gone k u w → gone k u w';
}.

#[export] Instance evolves_pre : PreOrder evolves.
Proof.
  split.
  - intros w. by split.
  - intros w1 w2 w3 [I1 T1 G1] [I2 T2 G2]. split; [lia|by etrans|].
    intros k u Hu Hg. apply G2; [|by apply G1]. destruct Hu as (i & ? & ->). exists i. split; [lia|done].
Qed.

Lemma evolves_in w w' e : evolves w w' → e ∈ trace w → e ∈ trace w'.
Proof. intros [_ [l ->] _] H. apply elem_of_app. by left. Qed.

Lemma issued_mono w w' u : evolves w w' → issued_uid w u → issued_uid w' u.
Proof. intros [? _ _] (i & ? & ->). exists i. split; [lia|done]. Qed.

(** A world that differs in the objects only by a deletion, or not at all. *)
Lemma evolves_less w w' : issued w' = issued w → trace w `prefix_of` trace w' → (∀ k o, objects w' !! k = Some o → objects w !! k = Some o) →
  evolves w w'.
Proof. intros Hi Ht Ho. split; [by rewrite Hi|done|]. intros k u _ Hg o Hk. apply Hg. by apply Ho. Qed.

Lemma put_evolves w k labels ip c phase : wf w → evolves w (put_object w k labels ip c phase).
Proof.
  intros Hw. unfold put_object. destruct (objects w !! k) as [o|] eqn:E; split; unfold gone; cbn; try done; [|lia|].
  - intros k' u _ Hg o' [[<- <-]|[_ H]]%lookup_insert_Some; cbn; [by apply Hg|by apply Hg].
  - intros k' u (i & Hi & ->) Hg o' [[<- <-]|[_ H]]%lookup_insert_Some; cbn; [intros ?%uid_inj; lia|by apply Hg].
Qed.

Lemma put_wf w k labels ip c phase : wf w → wf (put_object w k labels ip c phase).
Proof.
  intros Hw. pose proof (put_evolves w k labels ip c phase Hw) as Hev. destruct Hw as [Wo Wm Wp].
  unfold put_object in *. destruct (objects w !! k) as [o|] eqn:E; split; cbn in *.
  - intros k' o' [[<- <-]|[_ H]]%lookup_insert_Some; [by apply (Wo k o)|by apply (Wo k')].
  - done.
  - intros k' o' k2 b [[<- <-]|[_ H]]%lookup_insert_Some Hm; [by apply (Wp k o k2 b)|by apply (Wp k' o' k2 b)].
  - intros k' o' [[<- <-]|[_ H]]%lookup_insert_Some; cbn; [exists (issued w); split; [cbn; lia|done]|].
    by apply (issued_mono w), (Wo k').
  - intros k' u b H. by apply (issued_mono w), (Wm k' u b).
  - intros k' o' k2 b [[<- <-]|[_ H]]%lookup_insert_Some Hm; [|by apply (Wp k' o' k2 b)].
    cbn in Hm. apply Wm in Hm as (i & Hi & Ei%uid_inj). lia.
Qed.

Lemma less_wf w w' : issued w' = issued w → (∀ k u b, Made k u b ∈ trace w' → Made k u b ∈ trace w) →
  (∀ k o, objects w' !! k = Some o → objects w !! k = Some o) → wf w → wf w'.
Proof.
  intros Hi Ht Ho [Wo Wm Wp]. assert (∀ u, issued_uid w u → issued_uid w' u) as Hu by (intros u; unfold issued_uid; by rewrite Hi).
  split; [intros k o H; by apply Hu, (Wo k), Ho|intros k u b H; apply Hu; eapply Wm, Ht, H|].
  intros k o k' b H Hm. eapply Wp; [by apply Ho|apply Ht, Hm].
Qed.

(** ** Programs that keep the world in order *)

Class Sound {A} (m : Prog A) : Prop := sound : ∀ w, wf w → wf (m w).1 ∧ evolves w (m w).1.

#[export] Instance sound_ret {A} (a : A) : Sound (mret a).
Proof. intros w Hw. by split. Qed.
#[export] Instance sound_bind {A B} (m : Prog A) (k : A → Prog B) : Sound m → (∀ a, Sound (k a)) → Sound (m ≫= k).
Proof.
  intros Hm Hk w Hw. unfold mbind, Prog_bind. destruct (Hm w Hw) as [H1 H2]. destruct (m w) as [w' a]. cbn in *.
  destruct (Hk a w' H1) as [H3 H4]. split; [done|by etrans].
Qed.
#[export] Instance sound_look {A} (f : World → A) : Sound (act (λ w, (w, f w))).
Proof. intros w Hw. by split. Qed.

Lemma outside_sound w acts : wf w → wf (fold_left outside_step acts w) ∧ evolves w (fold_left outside_step acts w)
  ∧ trace (fold_left outside_step acts w) = trace w ∧ registry (fold_left outside_step acts w) = registry w
  ∧ known (fold_left outside_step acts w) = known w.
Proof.
  revert w. induction acts as [|a acts IH]; intros w Hw; [by split_and!|]. cbn [fold_left].
  assert (wf (outside_step w a) ∧ evolves w (outside_step w a) ∧ trace (outside_step w a) = trace w
    ∧ registry (outside_step w a) = registry w ∧ known (outside_step w a) = known w) as (H1 & H2 & H3 & H4 & H5).
  { destruct a as [k l ip c ph|k]; cbn [outside_step].
    - split_and!; [by apply put_wf|by apply put_evolves|..]; unfold put_object; by destruct (objects w !! k).
    - split_and!; [|apply evolves_less|..]; cbn; try done; [apply (less_wf w); cbn; [done|done| |done]|]; intros k' o; rewrite lookup_delete_Some; tauto. }
  destruct (IH _ H1) as (H6 & H7 & -> & -> & ->). split_and!; try done. by etrans.
Qed.

Lemma turn_sound w : wf w → wf (next_turn w).1 ∧ evolves w (next_turn w).1 ∧ trace (next_turn w).1 = trace w
  ∧ registry (next_turn w).1 = registry w ∧ known (next_turn w).1 = known w.
Proof.
  intros Hw. unfold next_turn. destruct (turns w) as [|t ts]; [by split_and!|].
  assert (wf (set_turns w ts)) as Hw' by (by apply (less_wf w)).
  destruct (outside_sound (set_turns w ts) (t_before t) Hw') as (H1 & H2 & H3 & H4 & H5). split_and!; try done.
  etrans; [|done]. by apply evolves_less.
Qed.
#[export] Instance sound_turn : Sound next_turn.
Proof. intros w Hw. by destruct (turn_sound w Hw) as (? & ? & _). Qed.

#[export] Instance sound_get k : Sound (api_get k).
Proof. apply _. Qed.
#[export] Instance sound_pods ns sel : Sound (api_pods ns sel).
Proof. apply _. Qed.

(** The events of a program are none. *)
Class Silent {A} (m : Prog A) : Prop := silent : ∀ w, wf w → trace (m w).1 = trace w ∧ registry (m w).1 = registry w ∧ known (m w).1 = known w.
#[export] Instance silent_ret {A} (a : A) : Silent (mret a).
Proof. done. Qed.
#[export] Instance silent_bind {A B} (m : Prog A) (k : A → Prog B) : Sound m → Silent m → (∀ a, Silent (k a)) → Silent (m ≫= k).
Proof.
  intros Hs Hm Hk w Hw. unfold mbind, Prog_bind. destruct (Hs w Hw) as [H _]. destruct (Hm w Hw) as (E1 & E2 & E3). destruct (m w) as [w' a]. cbn in *.
  destruct (Hk a w' H) as (-> & -> & ->). done.
Qed.
#[export] Instance silent_look {A} (f : World → A) : Silent (act (λ w, (w, f w))).
Proof. done. Qed.
#[export] Instance silent_turn : Silent next_turn.
Proof. intros w Hw. by destruct (turn_sound w Hw) as (_ & _ & ? & ? & ?). Qed.
#[export] Instance silent_get k : Silent (api_get k).
Proof. apply _. Qed.
#[export] Instance silent_pods ns sel : Silent (api_pods ns sel).
Proof. apply _. Qed.

(** ** Calls that change the cluster *)

Definition news (w w' : World) (P : event → Prop) : Prop := ∀ e, e ∈ trace w' → e ∈ trace w ∨ P e.

Lemma news_trans w1 w2 w3 (P Q R : event → Prop) : news w1 w2 P → news w2 w3 Q → (∀ e, P e → R e) → (∀ e, Q e → R e) → news w1 w3 R.
Proof. intros H1 H2 HP HQ e He. destruct (H2 e He) as [He'|?]; [|auto]. destruct (H1 e He'); auto. Qed.
Lemma news_weaken w w' (P Q : event → Prop) : news w w' P → (∀ e, P e → Q e) → news w w' Q.
Proof. intros H HP e He. destruct (H e He); auto. Qed.
Lemma news_same w w' P : trace w' = trace w → news w w' P.
Proof. intros E e. rewrite E. by left. Qed.
Lemma news_snoc w w' e (P : event → Prop) : trace w' = snoc (trace w) e → P e → news w w' P.
Proof. intros E HP e'. rewrite E. unfold snoc. rewrite elem_of_app, list_elem_of_singleton. intros [?| ->]; auto. Qed.

Record kept (w w' : World) : Prop := { kept_wf : wf w'; kept_evolves : evolves w w'; kept_registry : registry w' = registry w; kept_known : known w' = known w }.

Lemma turn_kept w : wf w → kept w (next_turn w).1 ∧ trace (next_turn w).1 = trace w.
Proof. intros Hw. destruct (turn_sound w Hw) as (? & ? & ? & ? & ?). by split. Qed.

Lemma kept_trans w1 w2 w3 : kept w1 w2 → kept w2 w3 → kept w1 w3.
Proof. intros [W1 E1 R1 K1] [W2 E2 R2 K2]. split; [done|by etrans|congruence|congruence]. Qed.

Lemma made_wf w k labels ip b : wf w → objects w !! k = None →
  let w' := note (put_object w k labels ip None "") (Made k (uid_of (issued w)) b) in
  kept w w' ∧ objects w' !! k = Some {| o_uid := uid_of (issued w); o_labels := labels; o_ip := ip; o_owner := None; o_phase := "" |}
  ∧ trace w' = snoc (trace w) (Made k (uid_of (issued w)) b).
Proof.
  intros Hw E w'. pose proof (put_wf w k labels ip None "" Hw) as Hp. pose proof (put_evolves w k labels ip None "" Hw) as He.
  unfold w', put_object in *. rewrite E in *. cbn in *. split_and!; [|by rewrite lookup_insert_eq|done].
  assert (trace w `prefix_of` snoc (trace w) (Made k (uid_of (issued w)) b)) as Hpre by by eexists.
  split; [|split; [apply He|done|apply He]|done|done]. destruct Hw as [Wo Wm Wp]. destruct Hp as [Po Pm Pp]. split; cbn in *.
  - exact Po.
  - intros k' u b' [H|[= -> -> ->]%list_elem_of_singleton]%elem_of_app; [by apply (Pm k' u b')|]. exists (issued w). split; [cbn; lia|done].
  - intros k' o k2 b' Ho [H|[= -> Eu ->]%list_elem_of_singleton]%elem_of_app; [by apply (Pp k' o k2 b')|].
    apply lookup_insert_Some in Ho as [[-> _]|[_ Ho]]; [done|]. apply Wo in Ho as (i & Hi & Ei). rewrite Ei in Eu. apply uid_inj in Eu. lia.
Qed.

Lemma create_spec k labels w : wf w →
  let r := api_create k labels w in
  kept w r.1 ∧ news w r.1 (λ e, match r.2 with inr o => e = Made k (o_uid o) true | inl _ => ∃ u, e = Made k u false end)
  ∧ match r.2 with inr o => Made k (o_uid o) true ∈ trace r.1 ∧ o_uid o ≠ "" ∧ ¬ issued_uid w (o_uid o) | inl _ => True end.
Proof.
  intros Hw. unfold api_create, mbind, Prog_bind, act. destruct (turn_kept w Hw) as [Hk Ht]. destruct (next_turn w) as [w1 t]. cbn in Hk, Ht.
  destruct (objects w1 !! k) eqn:E; [cbn; split_and!; [done|by apply news_same|done]|].
  destruct (applied (t_end t)) eqn:Ea; [|cbn; split_and!; [done|by apply news_same|done]].
  destruct (made_wf w1 k labels (t_ip t) (heard (t_end t)) (kept_wf _ _ Hk) E) as (Hk' & Ho & Ht').
  cbn [fst snd]. assert (objects (put_object w1 k labels (t_ip t) None "") !! k = Some {| o_uid := uid_of (issued w1); o_labels := labels; o_ip := t_ip t; o_owner := None; o_phase := "" |}) as -> by done.
  cbn [fst snd]. rewrite Ht in Ht'. split; [by apply (kept_trans _ w1)|]. destruct (heard (t_end t)) eqn:Eh; cbn.
  - split_and!; [by eapply news_snoc| |apply uid_some|]; [cbn in Ht'; rewrite Ht'; apply elem_of_app; right; by left|].
    intros (i & Hi & Ei%uid_inj). pose proof (ev_issued _ _ (kept_evolves _ _ Hk)). lia.
  - split; [|done]. eapply news_snoc; [done|by eexists].
Qed.

Definition settled (k : key) (u : string) (w : World) : Prop := gone k u w ∨ Refused k u ∈ trace w.

Lemma settled_mono k u w w' : evolves w w' → issued_uid w u → settled k u w → settled k u w'.
Proof. intros He Hu [Hg|Hr]; [left; by apply (ev_gone _ _ He)|right; by apply (evolves_in w)]. Qed.

Lemma delete_spec k pre w : wf w →
  let r := api_delete k pre w in
  kept w r.1 ∧ news w r.1 (λ e, ∃ u, (e = Deleted k u ∨ e = Refused k u) ∧ (∀ x, pre = Some x → u = x)
                                  ∧ (∀ x k' b, pre = Some x → Made k' x b ∈ trace w → k' = k))
  ∧ (∀ u, pre = Some u → settled k u r.1).
Proof.
  intros Hw. unfold api_delete, mbind, Prog_bind, act. destruct (turn_kept w Hw) as [Hk Ht]. destruct (next_turn w) as [w1 t]. cbn in Hk, Ht.
  destruct (objects w1 !! k) as [o|] eqn:E; [|cbn; split_and!; [done|by apply news_same|intros u _; left; intros o; by rewrite E]].
  destruct (match pre with Some uid => o_uid o != uid | None => false end) eqn:Ep.
  { cbn. split_and!; [done|by apply news_same|]. intros u ->. left. bool_hyps. intros o'. rewrite E. by intros [= <-]. }
  assert (∀ x, pre = Some x → o_uid o = x) as Hx by (intros x ->; by bool_hyps).
  assert (∀ x k' b, pre = Some x → Made k' x b ∈ trace w → k' = k) as Hp.
  { intros x k' b Hpre Hm. rewrite <-Ht in Hm. rewrite <-(Hx x Hpre) in Hm. by apply (wf_place _ (kept_wf _ _ Hk) k o k' b). }
  destruct (applied (t_end t)) eqn:Ea; cbn.
  - split_and!; [apply (kept_trans _ w1); [done|]|..].
    + split; cbn; [|apply evolves_less; cbn; [done|by eexists|intros k' o'; rewrite lookup_delete_Some; tauto]|done|done].
      apply (less_wf w1); cbn; [done| |intros k' o'; rewrite lookup_delete_Some; tauto|apply Hk].
      intros k' u b [?|?%list_elem_of_singleton]%elem_of_app; done.
    + apply (news_snoc _ _ (Deleted k (o_uid o))); [cbn; by rewrite Ht|]. exists (o_uid o). split_and!; [by left|intros x Hpre; by rewrite (Hx x Hpre)|done].
    + intros u _. left. intros o'. cbn. by rewrite lookup_delete_eq.
  - split_and!; [apply (kept_trans _ w1); [done|]|..].
    + split; cbn; [|apply evolves_less; cbn; [done|by eexists|done]|done|done]. apply (less_wf w1); cbn; [done| |done|apply Hk].
      intros k' u b [?|?%list_elem_of_singleton]%elem_of_app; done.
    + apply (news_snoc _ _ (Refused k (o_uid o))); [cbn; by rewrite Ht|]. exists (o_uid o). split_and!; [by right|intros x Hpre; by rewrite (Hx x Hpre)|done].
    + intros u Hpre. right. cbn. rewrite (Hx u Hpre). apply elem_of_app. right. by left.
Qed.

Lemma deleteIfUID_spec kd kind ns name uid w : wf w → kind_of kind = Some kd →
  let r := deleteIfUID kind ns name uid w in
  kept w r.1
  ∧ news w r.1 (λ e, (e = Deleted (kd, ns, name) uid ∨ e = Refused (kd, ns, name) uid) ∧ uid ≠ ""
                     ∧ (∀ k' b, Made k' uid b ∈ trace w → k' = (kd, ns, name)))
  ∧ (uid ≠ "" → settled (kd, ns, name) uid r.1).
Proof.
  intros Hw Hkd. unfold deleteIfUID. case_if; [cbn; split_and!; [by split|by apply news_same|done]|].
  rewrite Hkd. unfold mbind, Prog_bind. destruct (delete_spec (kd, ns, name) (Some uid) w Hw) as (Hk & Hn & Hs).
  destruct (api_delete _ _ w) as [w' err]. cbn in *. split_and!; [done| |intros _; by apply Hs].
  apply (news_weaken _ _ _ _ Hn). intros e (u & He & Hu & Hp). rewrite (Hu uid eq_refl) in He. split_and!; [done|done|]. intros k' b. by apply Hp.
Qed.

(** ** Creating a decoy *)

(** [c] of the cleanup list is an object that the operator made. *)
Definition cleans (ns : string) (w : World) (c : string * string * string) : Prop :=
  ∃ kd, kind_of c.1.1 = Some kd ∧ Made (kd, ns, c.1.2) c.2 true ∈ trace w ∧ c.2 ≠ "".
Definition cleaned (ns : string) (c : string * string * string) (k : key) (u : string) : Prop :=
  ∃ kd, kind_of c.1.1 = Some kd ∧ k = (kd, ns, c.1.2) ∧ u = c.2.

(** Between [w0] and [w] the operator made what the cleanup list names, and what
    it was not told about. *)
Record creating (ns : string) (w0 w : World) (cleanup : list (string * string * string)) : Prop := {
  cr_kept : kept w0 w;
  cr_cleans : Forall (cleans ns w) cleanup;
  cr_made : ∀ k u b, Made k u b ∈ trace w → Made k u b ∈ trace w0 ∨ b = false ∨ ∃ c, c ∈ cleanup ∧ cleaned ns c k u;
  cr_deleted : ∀ k u, Deleted k u ∈ trace w → Deleted k u ∈ trace w0;
  cr_new : ∀ c, c ∈ cleanup → ¬ issued_uid w0 c.2;
}.

Lemma cleans_mono ns w w' c : evolves w w' → cleans ns w c → cleans ns w' c.
Proof. intros He (kd & ? & ? & ?). exists kd. split_and!; [done|by apply (evolves_in w)|done]. Qed.

Lemma creating_start ns w : wf w → creating ns w w [].
Proof. intros Hw. split; [by split|done|by left|done|by intros c ?%elem_of_nil]. Qed.

Lemma creating_silent {A} ns w0 w cleanup (m : Prog A) : Sound m → Silent m → creating ns w0 w cleanup → creating ns w0 (m w).1 cleanup.
Proof.
  intros Hs Hq [Hk Hc Hm Hd Hnew]. destruct (Hs w (kept_wf _ _ Hk)) as [H1 H2]. destruct (Hq w (kept_wf _ _ Hk)) as (E1 & E2 & E3).
  split; [apply (kept_trans _ w); [done|by split]| |by rewrite E1|by rewrite E1|done].
  eapply Forall_impl; [done|]. intros c. by apply cleans_mono.
Qed.

Lemma creating_create ns w0 w cleanup k labels : creating ns w0 w cleanup →
  let r := api_create k labels w in
  match r.2 with
  | inl _ => creating ns w0 r.1 cleanup
  | inr o => ∀ kind name kd, kind_of kind = Some kd → k = (kd, ns, name) → creating ns w0 r.1 ((kind, name, o_uid o) :: cleanup)
  end.
Proof.
  intros [Hk Hc Hm Hd Hnew]. destruct (create_spec k labels w (kept_wf _ _ Hk)) as (Hk' & Hn & Ho). destruct (api_create k labels w) as [w' [e|o]]; cbn in *.
  - split; [by apply (kept_trans _ w)|eapply Forall_impl; [done|]; intros c; apply cleans_mono, Hk'|..].
    + intros k' u b He. destruct (Hn _ He) as [He'|(u' & [= -> -> ->])]; [by apply Hm|auto].
    + intros k' u He. destruct (Hn _ He) as [He'|(u' & ?)]; [by apply Hd|done].
    + done.
  - intros kind name kd Hkd ->. split; [by apply (kept_trans _ w)|..].
    + constructor; [exists kd; split_and!; [done|apply Ho|apply Ho]|]. eapply Forall_impl; [done|]. intros c. apply cleans_mono, Hk'.
    + intros k' u b He. destruct (Hn _ He) as [He'|[= -> -> ->]].
      * destruct (Hm _ _ _ He') as [?|[?|(c & ? & ?)]]; [auto|auto|]. right. right. exists c. split; [by right|done].
      * right. right. eexists. split; [by left|]. by exists kd.
    + intros k' u He. destruct (Hn _ He) as [He'|?]; [by apply Hd|done].
    + intros c [->|Hin]%elem_of_cons; [|by apply Hnew]. intros Hi. apply (issued_mono w0 w) in Hi; [|apply Hk]. by apply Ho.
Qed.

Lemma made_issued w k u b : wf w → Made k u b ∈ trace w → issued_uid w u.
Proof. intros Hw. apply (wf_made _ Hw). Qed.

Lemma rollback_spec ns cleanup w : wf w → Forall (cleans ns w) cleanup →
  let w' := (rollback ns cleanup w).1 in
  kept w w' ∧ news w w' (λ e, match e with Made _ _ _ => False | Deleted k u => Made k u true ∈ trace w | Refused _ _ => True end)
  ∧ ∀ c k u, c ∈ cleanup → cleaned ns c k u → settled k u w'.
Proof.
  revert w. induction cleanup as [|[[kind name] uid] cleanup IH]; intros w Hw Hc; cbn [rollback].
  { split_and!; [by split|by apply news_same|]. intros c k u ?%elem_of_nil. done. }
  inversion Hc as [|? ? (kd & Hkd & Hmade & Hne) Hc']; subst. cbn in Hkd, Hmade, Hne.
  unfold mbind, Prog_bind. destruct (deleteIfUID_spec kd kind ns name uid w Hw Hkd) as (Hk & Hn & Hs).
  destruct (deleteIfUID kind ns name uid w) as [w1 err]. cbn in Hk, Hn, Hs.
  destruct (IH w1 (kept_wf _ _ Hk)) as (Hk2 & Hn2 & Hs2). { eapply Forall_impl; [done|]. intros c. apply cleans_mono, Hk. }
  split_and!; [by apply (kept_trans _ w1)| |].
  - intros e He. destruct (Hn2 e He) as [He'|He'].
    + destruct (Hn e He') as [?|[[-> | ->] _]]; auto.
    + destruct e as [|k u|]; auto. destruct (Hn _ He') as [?|[[|] _]]; [auto|done|done].
  - intros c k u [->|Hin]%elem_of_cons (kd' & Hkd' & -> & ->); [|apply (Hs2 c); [done|by exists kd']].
    cbn in *. rewrite Hkd in Hkd'. injection Hkd' as <-. apply (settled_mono _ _ w1); [apply Hk2| |by apply Hs].
    apply (issued_mono w); [apply Hk|by apply (made_issued w _ _ true Hw Hmade)].
Qed.

(** What a call of [CreateDecoy] leaves. *)
Definition decoy_keys (ns name : string) (p : Profile) : list key :=
  [(KService, ns, name); (KService, ns, headlessName name); (KPolicy, ns, name); (workload_kind p, ns, name)].
Record created_ok (ns name : string) (p : Profile) (w0 w : World) (r : HoneypotRecord * option create_error) : Prop := {
  co_kept : kept w0 w;
  co_names : H_Namespace r.1 = ns ∧ H_Name r.1 = name ∧ H_Kind r.1 = P_Kind p ∧ H_Selector r.1 = Selector p name;
  co_deleted : ∀ k u, Deleted k u ∈ trace w → Deleted k u ∈ trace w0 ∨ Made k u true ∈ trace w;
  co_made : match r.2 with
            | Some _ => ∀ k u b, Made k u b ∈ trace w → Made k u b ∈ trace w0 ∨ b = false ∨ settled k u w
            | None => Made (workload_kind p, ns, name) (H_WorkloadUID r.1) true ∈ trace w ∧ Made (KService, ns, name) (H_ServiceUID r.1) true ∈ trace w
                      ∧ Made (KPolicy, ns, name) (H_PolicyUID r.1) true ∈ trace w
                      ∧ H_WorkloadUID r.1 ≠ "" ∧ H_ServiceUID r.1 ≠ "" ∧ H_PolicyUID r.1 ≠ ""
                      ∧ (∀ u, u ∈ [H_WorkloadUID r.1; H_ServiceUID r.1; H_PolicyUID r.1] → ¬ issued_uid w0 u)
                      ∧ (P_Kind p = KindStatefulSet → ∃ u, Made (KService, ns, headlessName name) u true ∈ trace w ∧ ¬ issued_uid w0 u)
                      ∧ ∀ k u b, Made k u b ∈ trace w → Made k u b ∈ trace w0 ∨ b = false
                          ∨ k = (workload_kind p, ns, name) ∧ u = H_WorkloadUID r.1 ∨ k = (KService, ns, name) ∧ u = H_ServiceUID r.1
                          ∨ k = (KPolicy, ns, name) ∧ u = H_PolicyUID r.1 ∨ k = (KService, ns, headlessName name)
            end;
}.

Lemma creating_abort ns name p w0 w cleanup rec e :
  H_Namespace rec = ns ∧ H_Name rec = name ∧ H_Kind rec = P_Kind p ∧ H_Selector rec = Selector p name →
  creating ns w0 w cleanup → created_ok ns name p w0 (rollback ns cleanup w).1 (rec, Some e).
Proof.
  intros Hrec [Hk Hc Hm Hd _]. destruct (rollback_spec ns cleanup w (kept_wf _ _ Hk) Hc) as (Hk2 & Hn & Hs).
  split; [by apply (kept_trans _ w)|done|..].
  - intros k u He. destruct (Hn _ He) as [He'|He']; [left; by apply Hd|right]. apply (evolves_in w); [apply Hk2|done].
  - intros k u b He. destruct (Hn _ He) as [He'|[]]. destruct (Hm _ _ _ He') as [?|[?|(c & ? & ?)]]; [auto|auto|]. right. right. by apply (Hs c).
Qed.

Lemma creating_failed ns name p w0 w rec e :
  H_Namespace rec = ns ∧ H_Name rec = name ∧ H_Kind rec = P_Kind p ∧ H_Selector rec = Selector p name →
  creating ns w0 w [] → created_ok ns name p w0 w (rec, Some e).
Proof. intros Hrec H. by apply (creating_abort ns name p w0 w []). Qed.

#[export] Instance checks_sound ks : Sound (name_checks ks).
Proof.
  induction ks as [|k ks IH]; cbn [name_checks]; [apply _|]. apply sound_bind; [apply _|]. intros [[]|o]; apply _.
Qed.
#[export] Instance checks_silent ks : Silent (name_checks ks).
Proof.
  induction ks as [|k ks IH]; cbn [name_checks]; [apply _|]. apply silent_bind; [apply _|apply _|]. intros [[]|o]; apply _.
Qed.

Lemma creating_headless ns name p w0 w cleanup : creating ns w0 w cleanup →
  let r := create_headless ns name p w in
  match r.2 with
  | inl _ => creating ns w0 r.1 cleanup
  | inr hl => creating ns w0 r.1 (match hl with Some hl => ("service", headlessName name, o_uid hl) :: cleanup | None => cleanup end)
              ∧ (P_Kind p = KindStatefulSet → is_Some hl)
  end.
Proof.
  intros H. unfold create_headless. destruct (String.eqb_spec (P_Kind p) KindStatefulSet) as [Hsts|]; [|done]. unfold mbind, Prog_bind.
  pose proof (creating_create ns w0 w cleanup (KService, ns, headlessName name) (ss_Labels (decoyHeadless ns name p)) H) as Hc.
  destruct (api_create _ _ w) as [w' [e|o]]; cbn in *; [done|]. split; [by apply (Hc "service" (headlessName name) KService)|by eexists].
Qed.

(** The list of cleanups with the workload of the last call, and with the
    headless service of a StatefulSet. *)
Lemma creating_done ns name p w0 w env id now (wl svc np : object) hl :
  let kind := if P_Kind p == KindStatefulSet then "statefulset" else "deployment" in
  creating ns w0 w ((kind, name, o_uid wl) :: ("networkpolicy", name, o_uid np)
    :: (match hl with Some hl => ("service", headlessName name, o_uid hl) :: [("service", name, o_uid svc)] | None => [("service", name, o_uid svc)] end)) →
  (P_Kind p = KindStatefulSet → is_Some hl) →
  created_ok ns name p w0 w (with_uids (new_record env ns name p id now) (o_uid wl) (o_uid svc) (o_uid np) (o_ip svc), None).
Proof.
  intros kind [Hk Hc Hm Hd Hnew] Hhl. assert (kind_of kind = Some (workload_kind p)) as Hkind by (unfold kind, workload_kind; by case_if).
  rewrite Forall_forall in Hc.
  assert (∀ knd name' u kd, (knd, name', u) ∈ (kind, name, o_uid wl) :: ("networkpolicy", name, o_uid np)
    :: (match hl with Some hl => ("service", headlessName name, o_uid hl) :: [("service", name, o_uid svc)] | None => [("service", name, o_uid svc)] end) →
    kind_of knd = Some kd → Made (kd, ns, name') u true ∈ trace w ∧ u ≠ "") as Hin.
  { intros knd name' u kd H Hkd. destruct (Hc _ H) as (kd' & Hkd' & H1 & H2). cbn in *. rewrite Hkd in Hkd'. by injection Hkd' as <-. }
  destruct (Hin kind name (o_uid wl) (workload_kind p)) as [Hwl Hwl']; [set_solver|done|].
  destruct (Hin "networkpolicy" name (o_uid np) KPolicy) as [Hnp Hnp']; [set_solver|done|].
  destruct (Hin "service" name (o_uid svc) KService) as [Hsvc Hsvc']; [destruct hl; set_solver|done|].
  split; cbn; [done|done|intros k u ?; left; by apply Hd|]. split_and!; try done.
  { intros u Hu. assert (∃ c, c ∈ (kind, name, o_uid wl) :: ("networkpolicy", name, o_uid np)
      :: (match hl with Some hl => ("service", headlessName name, o_uid hl) :: [("service", name, o_uid svc)] | None => [("service", name, o_uid svc)] end) ∧ c.2 = u)
      as (c & Hcin & <-); [|by apply Hnew].
    repeat (apply elem_of_cons in Hu as [->|Hu]); [exists (kind, name, o_uid wl)|exists ("service", name, o_uid svc)|exists ("networkpolicy", name, o_uid np)|by apply elem_of_nil in Hu];
      (split; [destruct hl; set_solver|done]). }
  { intros E. destruct (Hhl E) as [h ->]. exists (o_uid h).
    split; [apply (Hin "service" (headlessName name) (o_uid h) KService); [set_solver|done]|apply (Hnew ("service", headlessName name, o_uid h)); set_solver]. }
  intros k u b He. destruct (Hm _ _ _ He) as [?|[?|(c & Hcin & kd & Hkd & -> & ->)]]; [auto|auto|]. right. right.
  apply elem_of_cons in Hcin as [->|Hcin]; [cbn in *; rewrite Hkind in Hkd; injection Hkd as <-; auto|].
  apply elem_of_cons in Hcin as [->|Hcin]; [cbn in *; injection Hkd as <-; auto|].
  destruct hl as [hl|]; repeat (apply elem_of_cons in Hcin as [->|Hcin]); try (by apply elem_of_nil in Hcin); cbn in *; injection Hkd as <-; auto 6.
Qed.

Lemma CreateDecoy_spec env ns name p id now w : wf w →
  let r := CreateDecoy env ns name p id now w in created_ok ns name p w r.1 r.2.
Proof.
  intros Hw. pose proof (creating_start ns w Hw) as H0. unfold CreateDecoy. case_if; [by apply creating_failed|].
  unfold mbind, Prog_bind. pose proof (creating_silent ns w w [] (NameTaken ns name p) _ _ H0) as H1.
  destruct (NameTaken ns name p w) as [w1 [e|[]]]; [by apply creating_failed|by apply creating_failed|]. cbn in H1.
  pose proof (creating_create ns w w1 [] (KService, ns, name) (ss_Labels (decoyService ns name p)) H1) as H2.
  destruct (api_create _ _ w1) as [w2 [e|svc]]; [by apply creating_failed|]. cbn in H2. specialize (H2 "service" name KService eq_refl eq_refl).
  pose proof (creating_headless ns name p w w2 _ H2) as H3.
  destruct (create_headless ns name p w2) as [w3 [e|hl]].
  { pose proof (creating_abort ns name p w w3 _ (with_uids (new_record env ns name p id now) "" (o_uid svc) "" (o_ip svc)) (ErrHeadless e) ltac:(done) H3) as H.
    by destruct (rollback _ _ w3). }
  cbn in H3. destruct H3 as [H3 Hhl]. pose proof (creating_create ns w w3 _ (KPolicy, ns, name) (ps_Labels (decoyPolicy ns name p)) H3) as H4.
  destruct (api_create _ _ w3) as [w4 [e|np]].
  { pose proof (creating_abort ns name p w w4 _ (with_uids (new_record env ns name p id now) "" (o_uid svc) "" (o_ip svc)) (ErrPolicy e) ltac:(done) H4) as H.
    by destruct (rollback _ _ w4). }
  cbn in H4. specialize (H4 "networkpolicy" name KPolicy eq_refl eq_refl).
  pose proof (creating_create ns w w4 _ (workload_kind p, ns, name)
    (ws_Labels ((if P_Kind p == KindStatefulSet then decoyStatefulSet else decoyDeployment) env ns name p)) H4) as H5.
  destruct (api_create _ _ w4) as [w5 [e|wl]].
  { pose proof (creating_abort ns name p w w5 _ (with_uids (new_record env ns name p id now) "" (o_uid svc) (o_uid np) (o_ip svc)) (ErrWorkload e) ltac:(done) H5) as H.
    by destruct (rollback _ _ w5). }
  cbn in H5. apply (creating_done ns name p w w5 env id now wl svc np hl). 2: exact Hhl. apply (H5 _ name (workload_kind p)); [|done].
  unfold workload_kind. by destruct (P_Kind p == KindStatefulSet).
Qed.

(** ** Deleting a decoy *)

Definition was_made (w : World) (u : string) : Prop := ∃ k b, Made k u b ∈ trace w.

(** A record of objects that the operator made. *)
Record rec_ok (w : World) (r : HoneypotRecord) : Prop := {
  ro_uids : ∀ u, u ∈ [H_WorkloadUID r; H_ServiceUID r; H_PolicyUID r] → u ≠ "" → was_made w u;
  ro_set : H_Kind r = KindStatefulSet → ∃ u, Made (KStatefulSet, H_Namespace r, H_Name r) u true ∈ trace w;
}.

(** An object that the operator made, a name of the older release, or the
    headless service beside a StatefulSet that the operator made. *)
Definition own (w : World) (k : key) (u : string) : Prop :=
  (∃ b, Made k u b ∈ trace w) ∨ (∃ name ns, k ∈ legacy_keys name ns)
  ∨ ∃ ns name u', k = (KService, ns, headlessName name) ∧ Made (KStatefulSet, ns, name) u' true ∈ trace w.

Lemma was_made_mono w w' u : evolves w w' → was_made w u → was_made w' u.
Proof. intros He (k & b & H). exists k, b. by apply (evolves_in w). Qed.
Lemma rec_ok_mono w w' r : evolves w w' → rec_ok w r → rec_ok w' r.
Proof.
  intros He [Hu Hs]. split; [intros u H1 H2; apply (was_made_mono w); auto|].
  intros Hk. destruct (Hs Hk) as [u H]. exists u. by apply (evolves_in w).
Qed.
Lemma own_mono w w' k u : evolves w w' → own w k u → own w' k u.
Proof.
  intros He [[b H]|[H|(ns & name & u' & -> & H)]]; [left; exists b; by apply (evolves_in w)|by right; left|].
  right. right. exists ns, name, u'. split; [done|by apply (evolves_in w)].
Qed.

(** A step that makes nothing and deletes only its own. *)
Record deletes (w w' : World) : Prop := {
  de_kept : kept w w';
  de_news : news w w' (λ e, match e with Made _ _ _ => False | Deleted k u => own w k u | Refused _ _ => True end);
}.

Lemma deletes_trans w1 w2 w3 : deletes w1 w2 → deletes w2 w3 → deletes w1 w3.
Proof.
  intros [K1 N1] [K2 N2]. split; [by apply (kept_trans _ w2)|]. intros e He. destruct (N2 e He) as [He'|He']; [apply N1, He'|].
  right. destruct e as [|k u|]; [done| |done]. destruct He' as [[b H]|[H|(ns & name & u' & -> & H)]].
  - left. destruct (N1 _ H) as [?|[]]. by exists b.
  - by right; left.
  - destruct (N1 _ H) as [?|[]]. right. right. by exists ns, name, u'.
Qed.

Lemma silent_deletes {A} (m : Prog A) w : Sound m → Silent m → wf w → deletes w (m w).1.
Proof.
  intros Hs Hq Hw. destruct (Hs w Hw), (Hq w Hw) as (E1 & E2 & E3). split; [by split|]. by apply news_same.
Qed.

Lemma deleteIfUID_own kd kind ns name uid w : wf w → kind_of kind = Some kd → (uid ≠ "" → own w (kd, ns, name) uid ∨ was_made w uid) →
  deletes w (deleteIfUID kind ns name uid w).1 ∧ (uid ≠ "" → settled (kd, ns, name) uid (deleteIfUID kind ns name uid w).1).
Proof.
  intros Hw Hkd Hmade. destruct (deleteIfUID_spec kd kind ns name uid w Hw Hkd) as (Hk & Hn & Hs). split; [|done]. split; [done|].
  apply (news_weaken _ _ _ _ Hn). intros e ([-> | ->] & Hne & Hp); [|done]. destruct (Hmade Hne) as [?|(k & b & H)]; [done|].
  left. exists b. by rewrite <-(Hp k b H).
Qed.

Lemma headless_spec rec w : wf w → rec_ok w rec → H_Kind rec = KindStatefulSet → deletes w (deleteOwnedHeadless rec w).1.
Proof.
  intros Hw Hr Hkind. unfold deleteOwnedHeadless, mbind, Prog_bind.
  pose proof (silent_deletes (api_get (KService, H_Namespace rec, headlessName (H_Name rec))) w _ _ Hw) as Hg.
  destruct (api_get _ w) as [w1 r]. cbn in Hg. destruct r as [[]|hl]; try done. case_if; [done|].
  apply (deletes_trans _ w1); [done|]. apply (deleteIfUID_own KService); [apply Hg|done|]. intros _. left. right. right.
  destruct (ro_set _ _ Hr Hkind) as [u Hu]. exists (H_Namespace rec), (H_Name rec), u. split; [done|]. apply (evolves_in w); [apply Hg|done].
Qed.

Definition rec_kind (r : HoneypotRecord) : kind := if H_Kind r == KindStatefulSet then KStatefulSet else KDeployment.

Lemma DeleteDecoy_spec rec w : wf w → rec_ok w rec →
  let w' := (DeleteDecoy rec w).1 in
  deletes w w'
  ∧ ∀ k u, (k, u) ∈ [((rec_kind rec, H_Namespace rec, H_Name rec), H_WorkloadUID rec); ((KService, H_Namespace rec, H_Name rec), H_ServiceUID rec);
                     ((KPolicy, H_Namespace rec, H_Name rec), H_PolicyUID rec)] → u ≠ "" → settled k u w'.
Proof.
  intros Hw Hr. cbv zeta. unfold DeleteDecoy, mbind, Prog_bind.
  assert (∀ kd kind uid w1, evolves w w1 → wf w1 → kind_of kind = Some kd → uid ∈ [H_WorkloadUID rec; H_ServiceUID rec; H_PolicyUID rec] →
    deletes w1 (deleteIfUID kind (H_Namespace rec) (H_Name rec) uid w1).1
    ∧ (uid ≠ "" → settled (kd, H_Namespace rec, H_Name rec) uid (deleteIfUID kind (H_Namespace rec) (H_Name rec) uid w1).1)) as Hdel.
  { intros kd kind uid w1 He Hw1 Hkd Hin. apply deleteIfUID_own; [done|done|]. intros Hne. right. apply (was_made_mono w); [done|]. by apply (ro_uids _ _ Hr). }
  assert (∀ u w1, evolves w w1 → u ∈ [H_WorkloadUID rec; H_ServiceUID rec; H_PolicyUID rec] → u ≠ "" → issued_uid w1 u) as Hiss.
  { intros u w1 He Hin Hne. destruct (ro_uids _ _ Hr u Hin Hne) as (k & b & H). apply (issued_mono w); [done|]. by apply (made_issued w k u b). }
  destruct (Hdel (rec_kind rec) (if H_Kind rec == KindStatefulSet then "statefulset" else "deployment") (H_WorkloadUID rec) w) as [D1 S1];
    [done|done|unfold rec_kind; by case_if|set_solver|].
  destruct (deleteIfUID _ _ _ (H_WorkloadUID rec) w) as [w1 e1]. cbn in D1, S1. pose proof (kept_evolves _ _ (de_kept _ _ D1)) as E1.
  destruct (Hdel KService "service" (H_ServiceUID rec) w1) as [D2 S2]; [done|apply D1|done|set_solver|].
  destruct (deleteIfUID _ _ _ (H_ServiceUID rec) w1) as [w2 e2]. cbn in D2, S2. pose proof (deletes_trans _ _ _ D1 D2) as D12. pose proof (kept_evolves _ _ (de_kept _ _ D12)) as E2.
  assert (deletes w2 ((if H_Kind rec == KindStatefulSet then deleteOwnedHeadless rec else mret None) w2).1) as D3.
  { case_if; [apply headless_spec; [apply D12|by apply (rec_ok_mono w)|done]|]. split; [split; try done; apply D12|by apply news_same]. }
  destruct ((if H_Kind rec == KindStatefulSet then deleteOwnedHeadless rec else mret None) w2) as [w3 e3]. cbn in D3.
  pose proof (deletes_trans _ _ _ D12 D3) as D123. pose proof (kept_evolves _ _ (de_kept _ _ D123)) as E3.
  destruct (Hdel KPolicy "networkpolicy" (H_PolicyUID rec) w3) as [D4 S4]; [done|apply D123|done|set_solver|].
  destruct (deleteIfUID _ _ _ (H_PolicyUID rec) w3) as [w4 e4]. cbn in D4, S4 |- *. split; [by apply (deletes_trans _ w3)|].
  pose proof (kept_evolves _ _ (de_kept _ _ D4)) as E4. pose proof (kept_evolves _ _ (de_kept _ _ D3)) as E23. pose proof (kept_evolves _ _ (de_kept _ _ D2)) as E12.
  intros k u Hin Hne. repeat (apply elem_of_cons in Hin as [[= -> ->]|Hin]); [| | |by apply elem_of_nil in Hin].
  - apply (settled_mono _ _ w1); [by do 2 (etrans; [done|])|apply Hiss; [done|set_solver|done]|auto].
  - apply (settled_mono _ _ w2); [by etrans|apply Hiss; [done|set_solver|done]|auto].
  - auto.
Qed.

(** ** The registry and the requests *)

Record inv (w : World) : Prop := {
  inv_wf : wf w;
  inv_registry : Forall (rec_ok w) (registry w);
  inv_known : Forall (rec_ok w) (known w);
  inv_deleted : ∀ k u, Deleted k u ∈ trace w → own w k u;
}.

Lemma inv_kept w w' : inv w → kept w w' → (∀ k u, Deleted k u ∈ trace w' → Deleted k u ∈ trace w ∨ own w' k u) → inv w'.
Proof.
  intros [Iw Ir Ik Id] [W E R K] Hd. split; [done|rewrite R|rewrite K|].
  - eapply Forall_impl; [done|]. intros r. by apply rec_ok_mono.
  - eapply Forall_impl; [done|]. intros r. by apply rec_ok_mono.
  - intros k u H. destruct (Hd k u H) as [H'|?]; [|done]. apply (own_mono w); [done|by apply Id].
Qed.

Lemma inv_deletes w w' : inv w → deletes w w' → inv w'.
Proof.
  intros Hi [Hk Hn]. apply (inv_kept w); [done|done|]. intros k u H. destruct (Hn _ H) as [?|H']; [by left|right].
  apply (own_mono w); [apply Hk|done].
Qed.

Lemma inv_silent {A} (m : Prog A) w : Sound m → Silent m → inv w → inv (m w).1 ∧ evolves w (m w).1 ∧ trace (m w).1 = trace w.
Proof.
  intros Hs Hq Hi. pose proof (silent_deletes m w Hs Hq (inv_wf _ Hi)) as Hd. split_and!; [by apply (inv_deletes w)|apply Hd|].
  by destruct (Hq w (inv_wf _ Hi)) as (? & _ & _).
Qed.

(** The rows after a request keep to what was made, and a record that was taken
    has its row. *)
Lemma registry_rows op rows w : Forall (rec_ok w) rows → (∀ rec, op = Register_ rec → rec_ok w rec) →
  Forall (rec_ok w) (HandleHoneypotRegistry op rows).1.
Proof.
  intros Hr Ho. destruct op as [rec|id]; cbn.
  - specialize (Ho rec eq_refl). case_if; [done|]. unfold RegisterHoneypot. case_if; cbn.
    + apply Forall_fmap. eapply Forall_impl; [done|]. intros r Hrow. cbn. case_if; [|done]. split; [apply (ro_uids _ _ Ho)|apply (ro_set _ _ Hrow)].
    + case_if; cbn; [done|]. apply Forall_app. split; [done|by constructor].
  - case_if; [done|]. cbn. apply Forall_forall. intros r [H _]%list_elem_of_In%filter_In. rewrite Forall_forall in Hr. apply Hr. by apply list_elem_of_In.
Qed.

Lemma register_row rec rows rows' : HandleHoneypotRegistry (Register_ rec) rows = (rows', true) →
  ∃ row, row ∈ rows' ∧ H_ID row = H_ID rec ∧ H_WorkloadUID row = H_WorkloadUID rec ∧ H_ServiceUID row = H_ServiceUID rec ∧ H_PolicyUID row = H_PolicyUID rec.
Proof.
  cbn. case_if; [done|]. unfold RegisterHoneypot. destruct (any (same_id (H_ID rec)) rows) eqn:Ea.
  - intros [= <-]. apply any_true in Ea as (r & Hin & Hid). exists (update_row rec r). split.
    + apply list_elem_of_fmap. exists r. by rewrite Hid.
    + unfold same_id in Hid. bool_hyps. by split_and!.
  - case_if; [done|]. intros [= <-]. exists rec. split; [|done]. apply elem_of_app. right. by left.
Qed.

Lemma refused_rows op rows rows' : HandleHoneypotRegistry op rows = (rows', false) → rows' = rows.
Proof. destruct op as [rec|id]; cbn; [|by case_if; intros [= <-]]. case_if; [by intros [= <-]|]. destruct (RegisterHoneypot rec rows); by intros [= <-]. Qed.

Lemma post_spec op w : inv w → (∀ rec, op = Register_ rec → rec_ok w rec) →
  let r := registry_post op w in
  inv r.1 ∧ evolves w r.1 ∧ trace r.1 = trace w
  ∧ (r.2 = true → HandleHoneypotRegistry op (registry w) = (registry r.1, true))
  ∧ (r.2 = false → registry r.1 = registry w ∨ HandleHoneypotRegistry op (registry w) = (registry r.1, true)).
Proof.
  intros Hi Ho. cbv zeta. unfold registry_post, mbind, Prog_bind, act. destruct (inv_silent next_turn w _ _ Hi) as (Hi1 & He & Ht).
  destruct (silent (m:=next_turn) w (inv_wf _ Hi)) as (_ & Er & _).
  destruct (next_turn w) as [w1 t]. cbn in Hi1, He, Ht, Er. rewrite <-Er. destruct (applied (t_end t)); [|split_and!; [done..|by left]].
  pose proof (registry_rows op (registry w1) w1 (inv_registry _ Hi1)) as Hrows.
  destruct (HandleHoneypotRegistry op (registry w1)) as [rows ok] eqn:Eh. cbn in *.
  assert (evolves w1 (set_registry w1 rows)) as He' by by apply evolves_less.
  assert (∀ l, Forall (rec_ok w1) l → Forall (rec_ok (set_registry w1 rows)) l) as Hmono.
  { intros l Hl. eapply Forall_impl; [exact Hl|]. intros r. by apply rec_ok_mono. }
  split_and!; [|by etrans|done|by intros [-> _]%andb_true_iff|destruct ok; [by right|intros _; left; by apply (refused_rows op)]].
  destruct Hi1 as [Iw Ir Ik Id]. split; cbn; [by apply (less_wf w1)| |by apply Hmono|intros k u H; by apply (own_mono w1), Id].
  apply Hmono, Hrows. intros rec Hrec. by apply (rec_ok_mono w), Ho.
Qed.

#[export] Instance owned_sound rec rs pods : Sound (owned rec rs pods).
Proof.
  revert rs. induction pods as [|pod pods IH]; intros rs; cbn [owned]; [apply _|]. destruct (o_owner pod.2) as [ow|]; [|apply IH].
  case_if; [apply _|]. case_if; [|apply IH]. apply sound_bind; [|intros d; apply sound_bind; [apply IH|apply _]].
  unfold rs_deployment. destruct (rs !! ow_uid ow); apply _.
Qed.
#[export] Instance owned_silent rec rs pods : Silent (owned rec rs pods).
Proof.
  revert rs. induction pods as [|pod pods IH]; intros rs; cbn [owned]; [apply _|]. destruct (o_owner pod.2) as [ow|]; [|apply IH].
  case_if; [apply _|]. case_if; [|apply IH]. apply silent_bind; [| |intros d; apply silent_bind; [apply owned_sound|apply IH|apply _]];
    unfold rs_deployment; destruct (rs !! ow_uid ow); apply _.
Qed.
#[export] Instance pods_sound rec : Sound (OwnedPods rec).
Proof. apply sound_bind; [apply _|]. intros [pods|]; apply _. Qed.
#[export] Instance pods_silent rec : Silent (OwnedPods rec).
Proof. apply silent_bind; [apply _|apply _|]. intros [pods|]; apply _. Qed.
#[export] Instance inspect_sound rec : Sound (InspectDecoy rec).
Proof. apply sound_bind; [apply _|]. intros [e|o]; [apply _|]. case_if; apply _. Qed.
#[export] Instance inspect_silent rec : Silent (InspectDecoy rec).
Proof. apply silent_bind; [apply _|apply _|]. intros [e|o]; [apply _|]. case_if; apply _. Qed.
#[export] Instance list_sound : Sound registry_list.
Proof. apply _. Qed.
#[export] Instance list_silent : Silent registry_list.
Proof. apply _. Qed.

Lemma list_from w recs : wf w → (registry_list w).2 = Some recs → recs ≡ₚ registry w.
Proof.
  intros Hw. unfold registry_list, mbind, Prog_bind, act. destruct (silent (m:=next_turn) w Hw) as (_ & Er & _).
  destruct (next_turn w) as [w1 t]. cbn in *. case_if; [|done]. intros [= <-]. by rewrite map_order_perm, Er.
Qed.

Lemma records_spec c w : inv w → let r := records c w in inv r.1 ∧ evolves w r.1 ∧ trace r.1 = trace w ∧ Forall (rec_ok r.1) r.2.
Proof.
  intros Hi. cbv zeta. unfold records. destruct (c_enabled c); [|cbn; split_and!; [done|done|done|apply Hi]].
  unfold mbind, Prog_bind. destruct (inv_silent registry_list w _ _ Hi) as (Hi1 & He & Ht). pose proof (list_from w) as Hl.
  destruct (silent (m:=registry_list) w (inv_wf _ Hi)) as (_ & Er & _). destruct (registry_list w) as [w1 [recs|]]; cbn in *; [|split_and!; try done; apply Hi1].
  assert (evolves w1 (set_known w1 recs)) as He' by by apply evolves_less.
  assert (Forall (rec_ok w1) recs) as Hrecs. { rewrite (Hl recs (inv_wf _ Hi) eq_refl), <-Er. apply Hi1. }
  assert (Forall (rec_ok (set_known w1 recs)) recs) as Hrecs' by (eapply Forall_impl; [exact Hrecs|]; intros r; by apply rec_ok_mono).
  split_and!; [|by etrans|done|done]. destruct Hi1 as [Iw Ir Ik Id]. split; cbn; [by apply (less_wf w1)| |done|intros k u H; by apply (own_mono w1), Id].
  eapply Forall_impl; [exact Ir|]. intros r. by apply rec_ok_mono.
Qed.

(** What a request leaves of the objects it made: what the API server reported as
    failed or did not delete, and, when the registry did not take the record, a
    headless service. The registry is as before, or, when the hub was asked and
    its answer did not come, has taken the record of this request. *)
Definition cleared (w w' : World) (code : Z) (id : string) : Prop :=
  (∀ k u b, Made k u b ∈ trace w' → Made k u b ∈ trace w ∨ b = false ∨ settled k u w'
     ∨ code = 502%Z ∧ ∃ ns name, k = (KService, ns, headlessName name))
  ∧ (registry w' = registry w ∨ code = 502%Z ∧ ∃ rec, H_ID rec = id ∧ HandleHoneypotRegistry (Register_ rec) (registry w) = (registry w', true)).

(** The operator made the object, and since [w]. *)
Definition made_since (w w' : World) (k : key) (u : string) : Prop := Made k u true ∈ trace w' ∧ Made k u true ∉ trace w.

Definition recorded (w w' : World) (rec : HoneypotRecord) : Prop :=
  HandleHoneypotRegistry (Register_ rec) (registry w) = (registry w', true)
  ∧ (∃ row, row ∈ registry w' ∧ H_ID row = H_ID rec ∧ H_WorkloadUID row = H_WorkloadUID rec ∧ H_ServiceUID row = H_ServiceUID rec
          ∧ H_PolicyUID row = H_PolicyUID rec)
  ∧ made_since w w' (rec_kind rec, H_Namespace rec, H_Name rec) (H_WorkloadUID rec)
  ∧ made_since w w' (KService, H_Namespace rec, H_Name rec) (H_ServiceUID rec)
  ∧ made_since w w' (KPolicy, H_Namespace rec, H_Name rec) (H_PolicyUID rec)
  ∧ (H_Kind rec = KindStatefulSet → ∃ u, made_since w w' (KService, H_Namespace rec, headlessName (H_Name rec)) u).

Definition answered (w w' : World) (id : string) (a : Z * option HoneypotRecord) : Prop :=
  match a.2 with Some rec => a.1 = 201%Z ∧ H_ID rec = id ∧ recorded w w' rec | None => a.1 ≠ 201%Z ∧ cleared w w' a.1 id end.

Lemma refused_early w w' id code : trace w' = trace w → registry w' = registry w → code ≠ 201%Z → answered w w' id (code, None).
Proof. intros Ht Hr Hc. split; [done|]. split; [|by left]. intros k u b. rewrite Ht. by left. Qed.

(** What a request leaves depends on the trace and the registry it starts with. *)
Lemma answered_from w0 w w' id a : trace w0 = trace w → registry w0 = registry w → answered w w' id a → answered w0 w' id a.
Proof. unfold answered, cleared, recorded, made_since. by intros -> ->. Qed.

Lemma created_rec_ok ns name p w w' rec user : created_ok ns name p w w' (rec, None) → rec_ok w' (with_creator rec user).
Proof.
  intros [Hk (Hns & Hname & Hkind & _) _ (H1 & H2 & H3 & _)]. cbn in *. split; cbn.
  - intros u Hin _. repeat (apply elem_of_cons in Hin as [->|Hin]); [by do 2 eexists..|by apply elem_of_nil in Hin].
  - intros E. exists (H_WorkloadUID rec). rewrite Hns, Hname. rewrite Hkind in E. unfold workload_kind in H1. by rewrite E, String.eqb_refl in H1.
Qed.

Lemma create_inv ns name p w w' r : inv w → created_ok ns name p w w' r → inv w'.
Proof.
  intros Hi [Hk _ Hd _]. apply (inv_kept w); [done|done|]. intros k u H. destruct (Hd k u H); [by left|]. right. left. by exists true.
Qed.

Lemma finish_create ns name p w w1 rec user : inv w → created_ok ns name p w w1 (rec, None) →
  let r := (ok ← registry_post (Register_ (with_creator rec user));
            if negb ok then _ ← DeleteDecoy (with_creator rec user); mret (502%Z, None) else mret (201%Z, Some (with_creator rec user))) w1 in
  inv r.1 ∧ evolves w r.1 ∧ answered w r.1 (H_ID rec) r.2.
Proof.
  intros Hi Hc. pose proof (created_rec_ok _ _ _ _ _ _ user Hc) as Hro. pose proof (create_inv _ _ _ _ _ _ Hi Hc) as Hi1.
  set (rec' := with_creator rec user) in *. cbv zeta. unfold mbind, Prog_bind.
  destruct (post_spec (Register_ rec') w1 Hi1) as (Hi2 & He2 & Ht2 & Hrow & Hrow'); [by intros r [= <-]|].
  destruct Hc as [Hk (Hns & Hname & Hkind & _) _ (H1 & H2 & H3 & N1 & N2 & N3 & Hnew & Hhl & Hm)]. cbn in *. rewrite (kept_registry _ _ Hk) in Hrow, Hrow'.
  assert (rec_kind rec' = workload_kind p) as Ekind by (unfold rec_kind, workload_kind; cbn; by rewrite Hkind).
  destruct (registry_post (Register_ rec') w1) as [w2 ok]. cbn in *. destruct ok; cbn [negb].
  - split; [done|]. split; [by etrans; [apply Hk|]|]. split; [done|]. split; [done|]. cbn [fst snd]. specialize (Hrow eq_refl). change (recorded w w2 rec').
    assert (∀ k u, Made k u true ∈ trace w1 → ¬ issued_uid w u → made_since w w2 k u) as Hsince.
    { intros k u Hmade Hu. split; [by rewrite Ht2|]. intros Hin. by apply Hu, (made_issued w k u true (inv_wf _ Hi)). }
    unfold recorded. rewrite Ekind. cbn [rec' with_creator H_Namespace H_Name H_WorkloadUID H_ServiceUID H_PolicyUID H_Kind]. rewrite Hns, Hname, Hkind.
    split_and!; [done|apply (register_row rec' (registry w) (registry w2) Hrow)|apply Hsince, Hnew; [done|set_solver]..|].
    intros E. destruct (Hhl E) as (u & ? & ?). exists u. by apply Hsince.
  - destruct (DeleteDecoy_spec rec' w2 (inv_wf _ Hi2)) as [Hd Hs]; [by apply (rec_ok_mono w1)|].
    destruct (DeleteDecoy rec' w2) as [w3 errs]. cbn [fst snd] in *. split; [by apply (inv_deletes w2)|]. split; [etrans; [apply Hk|etrans; [done|apply Hd]]|].
    split; [done|]. rewrite Ekind in Hs. cbn [rec' with_creator H_Namespace H_Name H_WorkloadUID H_ServiceUID H_PolicyUID] in Hs. rewrite Hns, Hname in Hs.
    change (cleared w w3 502%Z (H_ID rec)). split.
    2: { rewrite (kept_registry _ _ (de_kept _ _ Hd)). destruct (Hrow' eq_refl); [by left|right]. split; [done|]. by exists rec'. }
    intros k u b He. destruct (de_news _ _ Hd _ He) as [He'|[]]. rewrite Ht2 in He'.
    destruct (Hm _ _ _ He') as [?|[?|[[-> ->]|[[-> ->]|[[-> ->]|Ek]]]]]; [auto|auto|right; right; left; apply Hs; [set_solver|done]..|].
    right. right. right. split; [done|]. by exists ns, name.
Qed.

Lemma CreateDecoy_id env ns name p id now w : H_ID (CreateDecoy env ns name p id now w).2.1 = id.
Proof.
  unfold CreateDecoy. case_if; [done|]. unfold mbind, Prog_bind. destruct (NameTaken ns name p w) as [w1 [e|[]]]; [done|done|].
  destruct (api_create _ _ w1) as [w2 [e|svc]]; [done|]. destruct (create_headless ns name p w2) as [w3 [e|hl]]; [by destruct (rollback _ _ w3)|].
  destruct (api_create _ _ w3) as [w4 [e|np]]; [by destruct (rollback _ _ w4)|]. destruct (api_create _ _ w4) as [w5 [e|wl]]; [by destruct (rollback _ _ w5)|done].
Qed.

Lemma handleCreate_spec c spec user id now w : inv w →
  let r := handleCreate c spec user id now w in inv r.1 ∧ evolves w r.1 ∧ answered w r.1 id r.2.
Proof.
  intros Hi. assert (∀ code, code ≠ 201%Z → inv w ∧ evolves w w ∧ answered w w id (code, None)) as Hearly.
  { intros code Hcode. split_and!; [done|done|by apply refused_early]. }
  cbv zeta. unfold handleCreate. destruct spec as [spec|]; [|by apply Hearly]. case_if; [by apply Hearly|].
  destruct (Lookup _) as [p|]; [|by apply Hearly]. destruct (_ || _); [by apply Hearly|]. destruct (negb _); [by apply Hearly|].
  set (name := if TrimSpace (S_Name spec) == "" then P_DefaultName p else TrimSpace (S_Name spec)).
  set (ns := if S_Namespace spec == "" then c_namespace c else S_Namespace spec).
  match goal with |- context [api_get ?k ≫= ?f] => change ((api_get k ≫= f) w) with (let '(w', a) := api_get k w in f a w') end.
  destruct (inv_silent (api_get (KNamespace, "", ns)) w _ _ Hi) as (Hi1 & He1 & Ht1). destruct (silent (m:=api_get (KNamespace, "", ns)) w (inv_wf _ Hi)) as (_ & Er1 & _).
  destruct (api_get (KNamespace, "", ns) w) as [w1 [e|o]]; cbn [fst snd] in *; [split_and!; [done|done|by apply refused_early]|].
  match goal with |- context [CreateDecoy ?a ?b ?d ?e ?f ?g ≫= ?h] =>
    change ((CreateDecoy a b d e f g ≫= h) w1) with (let '(w', res) := CreateDecoy a b d e f g w1 in h res w') end.
  pose proof (CreateDecoy_id (c_env c) ns name p id now w1) as Hid. pose proof (CreateDecoy_spec (c_env c) ns name p id now w1 (inv_wf _ Hi1)) as Hc.
  destruct (CreateDecoy (c_env c) ns name p id now w1) as [w2 [rec err]]. cbn [fst snd] in *. destruct err as [err|].
  - assert (inv w2 ∧ evolves w w2 ∧ ∀ code, code ≠ 201%Z → answered w w2 id (code, None)) as (H1 & H2 & H3).
    { split_and!; [by apply (create_inv _ _ _ _ _ _ Hi1 Hc)|etrans; [done|apply Hc]|]. intros code Hcode. split; [done|].
      split; [|left; by rewrite (kept_registry _ _ (co_kept _ _ _ _ _ _ Hc))].
      intros k u b He. destruct (co_made _ _ _ _ _ _ Hc k u b He) as [H|[H|H]]; [left; by rewrite <-Ht1|auto|auto]. }
    destruct err; (split_and!; [done|done|by apply H3]).
  - destruct (finish_create _ _ _ _ _ _ (TrimSpace user) Hi1 Hc) as (H1 & H2 & H3). rewrite Hid in H3. split_and!; [done|by etrans|].
    by apply (answered_from w w1).
Qed.

Lemma legacy_delete k w : (∃ name ns, k ∈ legacy_keys name ns) → wf w → deletes w (api_delete k None w).1.
Proof.
  intros Hl Hw. destruct (delete_spec k None w Hw) as (Hk & Hn & _). split; [done|].
  apply (news_weaken _ _ _ _ Hn). intros e (u & [-> | ->] & _); [|done]. by right; left.
Qed.

Lemma Delete_spec name ns w : wf w → deletes w (Delete name ns w).1.
Proof.
  intros Hw. unfold Delete, mbind, Prog_bind.
  pose proof (legacy_delete (KService, ns, "h-" +:+ name) w ltac:(exists name, ns; set_solver) Hw) as D1. destruct (api_delete _ _ w) as [w1 e1]. cbn in D1.
  pose proof (legacy_delete (KPod, ns, "h-" +:+ name) w1 ltac:(exists name, ns; set_solver) ltac:(apply D1)) as D2. destruct (api_delete _ _ w1) as [w2 e2]. cbn in D2.
  pose proof (legacy_delete (KConfigMap, ns, "h-" +:+ name +:+ "-config") w2 ltac:(exists name, ns; set_solver) ltac:(apply D2)) as D3.
  destruct (api_delete _ _ w2) as [w3 e3]. cbn in D3. cbn. apply (deletes_trans _ w1); [done|]. by apply (deletes_trans _ w2).
Qed.

Lemma handleDelete_inv c ns name w : inv w → inv (handleDelete c ns name w).1.
Proof.
  intros Hi. unfold handleDelete, findRecord, mbind, Prog_bind. destruct (records_spec c w Hi) as (Hi1 & _ & _ & Hrecs).
  destruct (records c w) as [w1 recs]. cbn in Hi1, Hrecs. cbn [mret Prog_ret]. destruct (List.find _ recs) as [rec|] eqn:Ef.
  - apply find_some in Ef as [Hin%list_elem_of_In _]. rewrite Forall_forall in Hrecs.
    destruct (DeleteDecoy_spec rec w1 (inv_wf _ Hi1) (Hrecs rec Hin)) as [Hd _]. destruct (DeleteDecoy rec w1) as [w2 errs]. cbn in Hd.
    pose proof (inv_deletes _ _ Hi1 Hd) as Hi2. destruct errs; [|done].
    destruct (post_spec (Unregister_ (H_ID rec)) w2 Hi2) as (Hi3 & _); [done|]. by destruct (registry_post _ w2).
  - match goal with |- context [Delete name ?n w1] => pose proof (Delete_spec name n w1 (inv_wf _ Hi1)) as Hd; destruct (Delete name n w1) as [w2 errs] end.
    cbn in Hd. pose proof (inv_deletes _ _ Hi1 Hd). by destruct errs.
Qed.

#[export] Instance inspects_sound recs : Sound (mapM InspectDecoy recs).
Proof. induction recs as [|r recs IH]; cbn [mapM]; apply _. Qed.
#[export] Instance inspects_silent recs : Silent (mapM InspectDecoy recs).
Proof. induction recs as [|r recs IH]; cbn [mapM]; apply _. Qed.

Lemma serve_inv c r w : inv w → inv (serve c r w).1.
Proof.
  intros Hi. destruct r as [role user spec id now|role ns name|]; cbn [serve].
  - case_if; [done|]. unfold mbind, Prog_bind. destruct (handleCreate_spec c spec user id now w Hi) as (H & _). by destruct (handleCreate _ _ _ _ _ w).
  - case_if; [done|]. by apply handleDelete_inv.
  - unfold mbind at 1, Prog_bind at 1. destruct (records_spec c w Hi) as (Hi1 & _). destruct (records c w) as [w1 recs]. cbn in Hi1.
    unfold mbind, Prog_bind. destruct (inv_silent (mapM InspectDecoy recs) w1 _ _ Hi1) as (H & _). by destruct (mapM InspectDecoy recs w1).
Qed.

(** A cluster others have filled, before the operator starts. *)
Definition start (acts : list outside) : World :=
  fold_left outside_step acts {| objects := ∅; issued := 0; registry := []; known := []; turns := []; trace := [] |}.

Lemma start_inv acts : inv (start acts).
Proof.
  assert (wf {| objects := ∅; issued := 0; registry := []; known := []; turns := []; trace := [] |}) as Hw.
  { split; cbn; [intros k o; by rewrite lookup_empty|intros k u b ?%elem_of_nil; done|intros k o k' b; by rewrite lookup_empty]. }
  destruct (outside_sound _ acts Hw) as (H1 & _ & Ht & Hr & Hk). split; [done|..]; unfold start; [by rewrite Hr|by rewrite Hk|].
  intros k u. rewrite Ht. by intros ?%elem_of_nil.
Qed.

Lemma turns_inv w ts : inv w → inv (set_turns w ts).
Proof.
  intros Hi. apply (inv_kept w); [done| |by left]. split; [|by apply evolves_less|done|done]. apply (less_wf w); [done|done|done|apply Hi].
Qed.

Lemma serve_all_inv c w rs : inv w → inv (serve_all c w rs).
Proof.
  unfold serve_all. revert w. induction rs as [|[r ts] rs IH]; intros w Hi; [done|]. cbn [fold_left]. apply IH, serve_inv, turns_inv, Hi.
Qed.

(** C39: Whatever requests came, whatever failed and whatever others do in the
    cluster between two calls: an object the operator deletes is one that it
    created itself, or has a name of the older release, or is the headless
    service beside a StatefulSet that it created. *)
Theorem only_own_deleted c acts rs k u :
  let w := serve_all c (start acts) rs in Deleted k u ∈ trace w → own w k u.
Proof. intros w. apply inv_deleted, serve_all_inv, start_inv. Qed.

(** C38: a request for a honeypot either answers 201, and then the hub has
    taken the record of this request on the rows it had, and the service, the
    policy, the workload and, for a StatefulSet, the headless service were
    created by it, the first three under the UIDs of the record; or it answers
    something else, and then of the objects it created nothing is left but
    those whose creation the API server did not confirm, those it did not
    delete when asked and, when the registration failed (502), the headless
    service, and the registry is as it was, unless the registration failed
    because the answer of a hub that had taken the record was lost: then the
    record stays. *)
Theorem create_or_nothing c acts rs spec user id now ts :
  let w := set_turns (serve_all c (start acts) rs) ts in
  let r := handleCreate c spec user id now w in answered w r.1 id r.2.
Proof.
  intros w. destruct (handleCreate_spec c spec user id now w) as (_ & _ & H); [|done]. apply turns_inv, serve_all_inv, start_inv.
Qed.
End World.

(** ** What a decoy looks like *)

(** Service, policy and workload select the pods of the workload, and the
    service names the port of its container. *)
Lemma selects_labels p name : selects (Selector p name) (Labels p name) = true.
Proof.
  unfold selects. apply forallb_forall. intros [k v] Hin%list_elem_of_In%elem_of_map_to_list. apply bool_decide_eq_true. cbn in *. unfold Labels, Selector in *.
  apply lookup_insert_Some in Hin as [[<- <-]|[_ [<- <-]%lookup_singleton_Some]];
    case_if; rewrite ?lookup_insert_ne by done; first [by rewrite lookup_insert_eq|by rewrite lookup_singleton_eq].
Qed.

Lemma decoy_wired e ns name p :
  let svc := decoyService ns name p in let hl := decoyHeadless ns name p in let np := decoyPolicy ns name p in
  let t := decoyPodSpec e name p in
  selects (ss_Selector svc) (pt_Labels t) = true ∧ selects (ss_Selector hl) (pt_Labels t) = true ∧ selects (ps_PodSelector np) (pt_Labels t) = true
  ∧ ss_TargetPort svc = pt_PortName t ∧ ss_Protocol svc = pt_Protocol t
  ∧ (λ c, ContainerPort <$> Ports c) <$> Containers (pt_Spec t) = [[P_TargetPort p]] ∧ ps_Ingress np = [[(P_TargetPort p, pt_Protocol t)]] ∧ ps_Egress np = []
  ∧ ws_ServiceName (decoyStatefulSet e ns name p) = ss_Name hl.
Proof. cbv zeta. split_and!; try done; apply selects_labels. Qed.

(** The sensor's deploy checks find two things in a decoy: its root file system
    can be written and its CPU is not limited. *)
Lemma decoy_checks {Q : Quantities} {M : MapOrder} ns name p : quantity_IsZero "10m" = false → quantity_IsZero "48Mi" = false → p ∈ catalog →
  let w := {| w_kind := P_Kind p; w_name := name; w_namespace := ns;
              w_spec := pt_Spec (decoyPodSpec {| DECOY_REGISTRY := ""; DECOY_PULL_POLICY := "" |} name p); w_anns := ∅ |} in
  List.filter (λ id, match evalWorkloadCheck id w with Some _ => true | None => false end)
    ["no-privileged"; "no-host-pid"; "no-host-ipc"; "no-host-net"; "no-priv-esc"; "no-root"; "no-root-group"; "drop-net-raw"; "drop-all-caps";
     "no-seccomp-unconfined"; "readonly-root"; "no-host-path"; "no-host-path-write"; "no-host-port"; "resource-limits";
     "resource-requests"; "no-latest-tag"; "no-default-sa"; "secret-as-env-rt"]
  = ["readonly-root"; "resource-limits"].
Proof.
  intros H1 H2 Hp. repeat (apply elem_of_cons in Hp as [->|Hp]; [cbv zeta; cbv -[quantity_IsZero map_order]; rewrite ?H1, ?H2; reflexivity|]).
  by apply elem_of_nil in Hp.
Qed.

Lemma labels_instance p name : Labels p name !! "app.kubernetes.io/instance" = Some name.
Proof. unfold Labels, Selector. destruct (P_Component p != ""); rewrite !lookup_insert_ne by done; apply lookup_insert_eq. Qed.

(** The headless service is created with the labels of its own name, which the
    deletion compares with those of the decoy: it is never taken for owned. *)
Lemma headless_not_owned ns name p : labelsMatch (ss_Labels (decoyHeadless ns name p)) (Selector p name) = false.
Proof.
  apply not_true_iff_false. unfold labelsMatch. rewrite forallb_forall. intros H.
  assert (In ("app.kubernetes.io/instance", name) (map_to_list (Selector p name))) as Hin.
  { rewrite <-list_elem_of_In, elem_of_map_to_list. unfold Selector. apply lookup_insert_eq. }
  pose proof (H _ Hin) as E. cbn [fst snd decoyHeadless decoyService ss_Labels] in E. rewrite labels_instance in E. apply String.eqb_eq in E.
  apply (f_equal String.length) in E. unfold headlessName in E. cbn [default from_option id] in E. rewrite length_app_s in E. cbn [String.length] in E. lia.
Qed.

(** The pods of a StatefulSet are those whose controller it is. *)
Lemma owned_set {U : Uids} rec rs pods w : H_Kind rec = KindStatefulSet →
  owned rec rs pods w = (w, List.filter (λ pod : pod_entry, match o_owner pod.2 with
    | Some ow => (ow_kind ow == "StatefulSet") && (ow_uid ow == H_WorkloadUID rec) | None => false end) pods).
Proof.
  intros Hk. induction pods as [|pod pods IH]; [done|]. cbn [owned List.filter]. destruct (o_owner pod.2) as [ow|]; [|done].
  rewrite Hk. change (KindStatefulSet == KindStatefulSet) with true. change (KindStatefulSet == KindDeployment) with false. cbn [andb].
  destruct (ow_kind ow == "StatefulSet"); cbn [andb]; [|done]. unfold mbind, Prog_bind. rewrite IH. cbn. by case_if.
Qed.

(** ** Concrete runs *)

Fixpoint letters (n : nat) : string := match n with O => "u" | S n => String "a"%char (letters n) end.
Lemma letters_inj i j : letters i = letters j → i = j.
Proof. revert j. induction i as [|i IH]; intros [|j]; cbn; try done. intros [= H]. f_equal. by apply IH. Qed.
Lemma letters_some i : letters i ≠ "".
Proof. by destruct i. Qed.
Definition demo_uids : Uids := {| uid_of := letters; uid_inj := letters_inj; uid_some := letters_some |}.

Section Runs.
Local Existing Instance demo_uids.
Local Existing Instance keep_order.

Definition demo_config : config := {| c_enabled := true; c_namespace := "wolfee"; c_env := {| DECOY_REGISTRY := ""; DECOY_PULL_POLICY := "" |} |}.
Definition demo_cluster : list outside := [OPut (KNamespace, "", "shop") ∅ "" None "Active"; OPut (KPod, "shop", "h-mail") ∅ "" None "Running"].
Definition demo_spec (service : string) : option HoneypotSpec := Some {| S_Name := ""; S_Namespace := "shop"; S_Service := service; S_Services := [] |}.
Definition demo_turn (e : ending) : turn := {| t_before := []; t_end := e; t_ip := "10.0.0.9" |}.
Definition demo_post (service id : string) : request := POST "admin" "ann" (demo_spec service) id Hour.
Definition demo_delete (name : string) : request := DELETE "admin" "shop" name.

(** The service of a decoy is deleted when the network policy cannot be created. *)
Definition demo_failed : list turn := replicate 6 (demo_turn Done) ++ [demo_turn NotDone].

Lemma create_or_nothing_witness :
  let w := set_turns (serve_all demo_config (start demo_cluster) [(demo_post "ssh" "1", [])]) demo_failed in
  let r := handleCreate demo_config (demo_spec "http") "ann" "2" Hour w in
  answered w r.1 "2" r.2 ∧ r.2.1 = 500%Z ∧ length (registry r.1) = 1%nat ∧ trace r.1 = trace w ++ [Made (KService, "shop", "internal-api") (letters 5) true; Deleted (KService, "shop", "internal-api") (letters 5)].
Proof.
  split; [apply (create_or_nothing demo_config demo_cluster [(demo_post "ssh" "1", [])] (demo_spec "http") "ann" "2" Hour demo_failed)|].
  split_and!; vm_compute; reflexivity.
Defined.

(** The hub takes the record and its answer is lost: the objects are deleted again,
    the record stays. *)
Example unheard_register_left :
  let w := set_turns (serve_all demo_config (start demo_cluster) []) (replicate 8 (demo_turn Done) ++ [demo_turn DoneUnheard]) in
  let r := handleCreate demo_config (demo_spec "http") "ann" "2" Hour w in
  r.2 = (502%Z, None) ∧ H_ID <$> registry r.1 = ["2"]
  ∧ (λ k, objects r.1 !! k) <$> [(KDeployment, "shop", "internal-api"); (KService, "shop", "internal-api"); (KPolicy, "shop", "internal-api")] = [None; None; None].
Proof. split_and!; vm_compute; reflexivity. Qed.

Definition demo_requests : list (request * list turn) := [(demo_post "ssh" "1", []); (demo_delete "bastion", [])].

Lemma only_own_deleted_witness :
  own (serve_all demo_config (start demo_cluster) demo_requests) (KDeployment, "shop", "bastion") (letters 4).
Proof.
  apply (only_own_deleted demo_config demo_cluster demo_requests). apply list_elem_of_lookup. exists 3%nat. vm_compute. reflexivity.
Defined.

(** A StatefulSet decoy that was created and deleted leaves its headless service,
    and its name cannot be used again. *)
Example headless_left_behind :
  let w := serve_all demo_config (start demo_cluster) [(demo_post "redis" "1", []); (demo_delete "redis", [])] in
  is_Some (objects w !! (KService, "shop", "redis-hl")) ∧ objects w !! (KService, "shop", "redis") = None ∧ registry w = []
  ∧ (handleCreate demo_config (demo_spec "redis") "ann" "2" Hour w).2 = (409%Z, None).
Proof. split_and!; [vm_compute; by eexists|vm_compute; reflexivity..]. Qed.

(** A name without a record deletes a pod of the older release's name, whoever
    created it. *)
Example legacy_deletes_foreign :
  let w := serve_all demo_config (start demo_cluster) [(demo_delete "mail", [])] in
  objects (start demo_cluster) !! (KPod, "shop", "h-mail") ≠ None ∧ objects w !! (KPod, "shop", "h-mail") = None
  ∧ trace w = [Deleted (KPod, "shop", "h-mail") (letters 1)].
Proof. split_and!; [by vm_compute|vm_compute; reflexivity..]. Qed.
End Runs.
