(* ===== verification/HoneyWatch.v ===== *)
(** * honey-operator/internal/watcher: hits on the decoys

    watcher.go, UTCStamp of decoy.go and ParseLogs of api/server.go. The watcher
    follows the log of every pod of a decoy, opens a log again when it breaks
    off, and sends every line that reports a hit once to the hub and to the
    consoles that listen. A line is recognised by its SHA-256 among the last
    twenty thousand. *)

From Stdlib Require Import Ascii.
From stdpp Require Import base list gmap strings sorting.
From S2P Require Import Prelude GoStrings GoPath Honey.
Local Open Scope string_scope.
Local Open Scope list_scope.
Local Open Scope go_scope.

Definition initialTail : nat := 500.
Definition seenCap : nat := Z.to_nat 20000.
Definition subQueue : nat := 64.

(** ** Lines *)

Record rawEvent := {
  E_Timestamp : string; E_Server : string; E_SrcIP : string; E_SrcPort : string; E_DestIP : string; E_DestPort : string;
  E_Action : string; E_Status : string; E_Data : string; E_Username : string; E_Password : string;
}.

Record Event := { V_HoneypotID : string; V_HoneypotName : string; V_Namespace : string; V_Kind : string; V_Service : string; V_Pod : string; V_Raw : rawEvent }.

Record target := { g_id : string; g_name : string; g_namespace : string; g_kind : string; g_service : string; g_pod : string }.

(** The decoder of JSON, SHA-256 in hexadecimal, and package time: RFC 3339 with
    nanoseconds, the two layouts without a zone, and the text of a time. *)
Class HoneyLib := {
  json_event : string → option rawEvent;
  sha256_hex : string → string;
  parse_RFC3339Nano : string → option Time;
  parse_layout_T : string → option Time;
  parse_layout_space : string → option Time;
  format_RFC3339Nano : Time → string;
}.

Section Lines.
Context {J : HoneyLib}.

Definition UTCStamp (s : string) : string :=
  if s == "" then s
  else match parse_RFC3339Nano s with
       | Some _ => s
       | None => match parse_layout_T s with
                 | Some t => format_RFC3339Nano t
                 | None => match parse_layout_space s with Some t => format_RFC3339Nano t | None => s end
                 end
       end.

Definition with_stamp (ev : rawEvent) : rawEvent :=
  {| E_Timestamp := UTCStamp (E_Timestamp ev); E_Server := E_Server ev; E_SrcIP := E_SrcIP ev; E_SrcPort := E_SrcPort ev; E_DestIP := E_DestIP ev;
     E_DestPort := E_DestPort ev; E_Action := E_Action ev; E_Status := E_Status ev; E_Data := E_Data ev; E_Username := E_Username ev;
     E_Password := E_Password ev |}.

(** A line that is an event of a visitor, not the start of a server. *)
Definition parse_hit (line : string) : option (string * rawEvent) :=
  let s := TrimSpace line in
  if negb (HasPrefix s "{") then None
  else match json_event s with
       | None => None
       | Some ev => if (E_Action ev == "process") && (E_SrcIP ev == "0.0.0.0") then None else Some (s, ev)
       end.

(** Unit separator. *)
Definition sep : string := String "031" "".

(** Key and event of a line: [handleLine] up to [firstSeen]. *)
Definition hit_of (t : target) (line : string) : option (string * Event) :=
  (λ se : string * rawEvent,
     (g_namespace t +:+ sep +:+ g_name t +:+ sep +:+ g_pod t +:+ sep +:+ se.1,
      {| V_HoneypotID := g_id t; V_HoneypotName := g_name t; V_Namespace := g_namespace t; V_Kind := g_kind t; V_Service := g_service t;
         V_Pod := g_pod t; V_Raw := with_stamp se.2 |})) <$> parse_hit line.

(** [ParseLogs] over the lines of the scanner, and the identifier of an event. *)
Definition eventKey (ev : rawEvent) : string :=
  sha256_hex (Join [E_Timestamp ev; E_Server ev; E_SrcIP ev; E_SrcPort ev; E_DestIP ev; E_DestPort ev; E_Action ev; E_Status ev; E_Data ev;
                    E_Username ev; E_Password ev] sep).
Definition ParseLogs (lines : list string) : list (string * rawEvent) :=
  omap (λ line, (λ se : string * rawEvent, let ev := with_stamp se.2 in (eventKey ev, ev)) <$> parse_hit line) lines.

(** ** The watcher *)

(** [subs] are the queues of the listeners, [forwarded] is what was handed to the
    queue for the hub. *)
Record Watcher := {
  streams : gmap string target;
  seen : gset string;
  seenOrder : list string;
  subs : gmap nat (list Event);
  forwarded : list Event;
}.

Definition newWatcher : Watcher := {| streams := ∅; seen := ∅; seenOrder := []; subs := ∅; forwarded := [] |}.

Definition firstSeen (w : Watcher) (key : string) : Watcher * bool :=
  let id := sha256_hex key in
  if bool_decide (id ∈ seen w) then (w, false)
  else
    let sn := {[id]} ∪ seen w in
    let order := snoc (seenOrder w) id in
    let excess := (length order - seenCap)%nat in
    let '(sn, order) := if (seenCap <? length order)%nat then (sn ∖ list_to_set (take excess order), drop excess order) else (sn, order) in
    ({| streams := streams w; seen := sn; seenOrder := order; subs := subs w; forwarded := forwarded w |}, true).

Definition offer (ev : Event) (q : list Event) : list Event := if (length q <? subQueue)%nat then snoc q ev else q.

Definition broadcast (w : Watcher) (ev : Event) : Watcher :=
  {| streams := streams w; seen := seen w; seenOrder := seenOrder w; subs := offer ev <$> subs w; forwarded := snoc (forwarded w) ev |}.

Definition handleLine (w : Watcher) (t : target) (line : string) : Watcher :=
  match hit_of t line with
  | None => w
  | Some (key, ev) => let '(w, first) := firstSeen w key in if negb first then w else broadcast w ev
  end.

Definition handle_all (w : Watcher) (lines : list (target * string)) : Watcher := fold_left (λ w tl, handleLine w tl.1 tl.2) lines w.

Definition Subscribe (w : Watcher) (ch : nat) : Watcher :=
  {| streams := streams w; seen := seen w; seenOrder := seenOrder w; subs := <[ch := []]> (subs w); forwarded := forwarded w |}.
Definition Unsubscribe (w : Watcher) (ch : nat) : Watcher :=
  {| streams := streams w; seen := seen w; seenOrder := seenOrder w; subs := delete ch (subs w); forwarded := forwarded w |}.

(** ** Following a log *)

(** A try to open the log: [at_opened] is the clock read before it, [at_started] the
    moment the API server takes its last lines from, and [at_got] how many lines the
    connection gave before it ended, with how many bytes of the next; [None] if
    the log could not be opened. *)
Record attempt := { at_opened : Time; at_started : Time; at_got : option (nat * nat) }.

(** What [StreamLogs] offers of a log of lines with their times: from the second of
    [since] on, or the last five hundred lines and what follows. *)
Definition second_of (t : Time) : Time := (t / Second * Second)%Z.
Definition stream_lines (log : list (Time * string)) (since : option Time) (started : Time) : list (Time * string) :=
  match since with
  | Some s => List.filter (λ l : Time * string, negb (Before l.1 (second_of s))) log
  | None =>
      let past := List.filter (λ l : Time * string, negb (After l.1 started)) log in
      drop (length past - initialTail) past ++ List.filter (λ l : Time * string, After l.1 started) log
  end.

(** What comes through the connection; a line that is cut is the last. *)
Definition received (lines : list string) (got : nat * nat) : list string :=
  take got.1 lines
  ++ match lines !! got.1 with Some l => if (got.2 =? 0)%nat then [] else [String.substring 0 got.2 l] | None => [] end.

(** The scanner: a line and its end must fit in the buffer of 1 MiB, the first that
    does not ends the loop. *)
Definition maxToken : Z := (2 ^ 20)%Z.
Definition fits (line : string) : bool := (Z.of_nat (String.length line) <? maxToken)%Z.
Fixpoint Scan (lines : list string) : list string :=
  match lines with [] => [] | l :: lines => if fits l then l :: Scan lines else [] end.

(** [follow]: the lines of the tries, one after the other. *)
Fixpoint follow (log : list (Time * string)) (since : option Time) (tries : list attempt) : list string :=
  match tries with
  | [] => []
  | a :: tries =>
      match at_got a with Some got => Scan (received (map snd (stream_lines log since (at_started a))) got) | None => [] end
      ++ follow log (Some (at_opened a)) tries
  end.

(** ** Which pods are followed *)

Section Refresh.
Context {U : Uids} {M : MapOrder}.

Definition legacy_labels : gmap string string := <["managed-by" := "h-operator"]> {["component" := "deception"]}.

Definition record_targets (rec : HoneypotRecord) (pods : list pod_entry) (want : gmap string target) : gmap string target :=
  fold_left (λ want pod, <[o_uid pod.2 := {| g_id := H_ID rec; g_name := H_Name rec; g_namespace := H_Namespace rec; g_kind := H_Kind rec;
                                             g_service := H_Service rec; g_pod := pod.1.2 |}]> want) pods want.

Fixpoint wanted_targets (recs : list HoneypotRecord) (want : gmap string target) : Prog (gmap string target) :=
  match recs with
  | [] => mret want
  | rec :: recs => pods ← OwnedPods rec; wanted_targets recs (record_targets rec pods want)
  end.

Definition legacy_target (pod : pod_entry) : target :=
  let label := default "" (o_labels pod.2 !! "honeypot-name") in
  {| g_id := ""; g_name := if label == "" then TrimPrefix pod.1.2 "h-" else label; g_namespace := pod.1.1; g_kind := "Pod"; g_service := "";
     g_pod := pod.1.2 |}.

Definition want_targets (c : config) : Prog (gmap string target) :=
  recs ← records c;
  want ← wanted_targets recs ∅;
  legacy ← api_pods "" legacy_labels;
  mret match legacy with
       | None => want
       | Some pods => fold_left (λ want pod, <[o_uid pod.2 := legacy_target pod]> want) pods want
       end.

(** Streams that are not wanted end, those wanted and not there start. *)
Definition next_streams (old want : gmap string target) : gmap string target :=
  union (filter (λ kv : string * target, is_Some (want !! kv.1)) old) want.

Definition refresh (c : config) (w : Watcher) : Prog Watcher :=
  want ← want_targets c;
  mret {| streams := next_streams (streams w) want; seen := seen w; seenOrder := seenOrder w; subs := subs w; forwarded := forwarded w |}.
End Refresh.
End Lines.

(** ** Theorems *)

Section Theorems.
Context {J : HoneyLib}.

(** The last [n] elements. *)
Definition last_n {A} (n : nat) (l : list A) : list A := drop (length l - n) l.

Lemma last_n_snoc {A} n (l : list A) x : (0 < n)%nat → last_n n (snoc l x) = last_n n (snoc (last_n n l) x).
Proof.
  intros Hn. unfold last_n, snoc. rewrite !length_app, length_drop. cbn [length].
  destruct (decide (length l < n)%nat) as [Hl|Hl].
  - replace (length l - n)%nat with 0%nat by lia. cbn [drop]. f_equal. lia.
  - rewrite !drop_app, drop_drop, length_drop. f_equal; [f_equal; lia|f_equal; lia].
Qed.

Lemma last_n_in {A} n (l : list A) x : x ∈ last_n n l → x ∈ l.
Proof. intros H. rewrite <-(take_drop (length l - n) l). apply elem_of_app. by right. Qed.

Lemma last_n_length {A} n (l : list A) : (length (last_n n l) ≤ n)%nat.
Proof. unfold last_n. rewrite length_drop. lia. Qed.

(** The table of digests is that of the last twenty thousand first-seen lines. *)
Record remembers (hist : list string) (w : Watcher) : Prop := {
  rm_order : seenOrder w = last_n seenCap hist;
  rm_seen : seen w = list_to_set (seenOrder w);
  rm_nodup : NoDup (seenOrder w);
}.

Lemma firstSeen_spec hist w key : remembers hist w →
  let r := firstSeen w key in
  forwarded r.1 = forwarded w ∧ subs r.1 = subs w
  ∧ (if bool_decide (sha256_hex key ∈ last_n seenCap hist) then r.2 = false ∧ remembers hist r.1
     else r.2 = true ∧ remembers (snoc hist (sha256_hex key)) r.1).
Proof.
  intros [Ho Hs Hn]. cbv zeta. unfold firstSeen. set (id := sha256_hex key). rewrite Hs.
  assert (bool_decide (id ∈@{gset string} list_to_set (seenOrder w)) = bool_decide (id ∈ last_n seenCap hist)) as ->.
  { apply bool_decide_ext. by rewrite elem_of_list_to_set, Ho. }
  case_bool_decide as Hin; [cbn; split_and!; done|]. rewrite <-Ho in Hin.
  set (order := snoc (seenOrder w) id). assert (NoDup order) as Hno.
  { unfold order, snoc. apply NoDup_app. split_and!; [done|set_solver|apply NoDup_singleton]. }
  assert (drop (length order - seenCap) order = last_n seenCap (snoc hist id)) as Hlast.
  { rewrite last_n_snoc by (unfold seenCap; lia). by rewrite <-Ho. }
  assert ({[id]} ∪ list_to_set (seenOrder w) = (list_to_set order : gset string)) as Hset by (unfold order, snoc; set_solver).
  destruct (seenCap <? length order)%nat eqn:E; bool_hyps; cbn; split_and!; try done; split; cbn; try done.
  - rewrite Hset. rewrite <-(take_drop (length order - seenCap) order) in Hno. apply NoDup_app in Hno as (_ & Hd & _).
    apply set_eq. intros x. rewrite elem_of_difference, !elem_of_list_to_set.
    rewrite <-(take_drop (length order - seenCap) order) at 1. rewrite elem_of_app. split; [tauto|]. intros Hx. split; [by right|]. intros Ht. by apply (Hd x).
  - rewrite <-(take_drop (length order - seenCap) order) in Hno. by apply NoDup_app in Hno as (_ & _ & ?).
  - rewrite <-Hlast. by replace (length order - seenCap)%nat with 0%nat by lia.
Qed.

(** What is to be told of a sequence of hits when the last [seenCap] first-seen
    keys are remembered. *)
Fixpoint told (hist : list string) (hits : list (string * Event)) : list Event :=
  match hits with
  | [] => []
  | (key, ev) :: hits => if bool_decide (key ∈ last_n seenCap hist) then told hist hits else ev :: told (snoc hist key) hits
  end.

Definition hits_of (lines : list (target * string)) : list (string * Event) := omap (λ tl, hit_of tl.1 tl.2) lines.

(** No two of the keys have the same digest. *)
Definition no_collision (keys : list string) : Prop := ∀ a b, a ∈ keys → b ∈ keys → sha256_hex a = sha256_hex b → a = b.

Lemma last_n_map (hist : list string) : last_n seenCap (map sha256_hex hist) = map sha256_hex (last_n seenCap hist).
Proof. unfold last_n. by rewrite length_map, fmap_drop. Qed.

Lemma in_last hist keys key : no_collision keys → (∀ k, k ∈ hist → k ∈ keys) → key ∈ keys →
  (sha256_hex key ∈ last_n seenCap (map sha256_hex hist) ↔ key ∈ last_n seenCap hist).
Proof.
  intros Hc Hh Hk. rewrite last_n_map, list_elem_of_fmap. split; [|intros H; by exists key].
  intros (k & E & Hin). pose proof (last_n_in _ _ _ Hin) as Hk'.
  rewrite (Hc key k Hk (Hh k Hk') E). done.
Qed.

Lemma handle_told keys hist w lines : no_collision keys → (∀ k, k ∈ hist → k ∈ keys) → (∀ h, h ∈ hits_of lines → h.1 ∈ keys) →
  remembers (map sha256_hex hist) w → forwarded (handle_all w lines) = forwarded w ++ told hist (hits_of lines).
Proof.
  intros Hc. revert hist w. induction lines as [|[t line] lines IH]; intros hist w Hh Hl Hr; [cbn; by rewrite app_nil_r|].
  cbn [handle_all fold_left fst snd]. change (fold_left _ lines ?w) with (handle_all w lines). unfold handleLine.
  unfold hits_of in *. cbn [omap list_omap fst snd] in *. destruct (hit_of t line) as [[key ev]|]; [|by apply IH].
  cbn [told]. destruct (firstSeen_spec (map sha256_hex hist) w key Hr) as (Hf & _ & H).
  assert (key ∈ keys) as Hkey by (apply (Hl (key, ev)); by left).
  rewrite (bool_decide_ext _ _ (in_last hist keys key Hc Hh Hkey)) in H. destruct (firstSeen w key) as [w' first]. cbn in Hf, H.
  case_bool_decide; destruct H as [-> Hr']; cbn [negb].
  - rewrite (IH hist); [by rewrite Hf|done|intros h Hin; apply Hl; by right|done].
  - rewrite (IH (snoc hist key)); [cbn; rewrite Hf; unfold snoc; by rewrite <-app_assoc|..].
    + intros k [?|?%list_elem_of_singleton]%elem_of_app; [by apply Hh|by subst].
    + intros h Hin. apply Hl. by right.
    + destruct Hr' as [Ho Hs Hn]. split; cbn; [|done|done]. rewrite Ho. unfold snoc. by rewrite map_app.
Qed.

Lemma new_remembers : remembers [] newWatcher.
Proof. split; [done|done|apply NoDup_nil_2]. Qed.

Lemma handle_new lines : no_collision (map fst (hits_of lines)) → forwarded (handle_all newWatcher lines) = told [] (hits_of lines).
Proof.
  intros Hc. rewrite (handle_told (map fst (hits_of lines)) [] newWatcher lines); [done|done|by intros k ?%elem_of_nil| |apply new_remembers].
  intros h Hin. by apply list_elem_of_fmap_2.
Qed.

(** However the lines of the pods come together and however often a log is
    read again: the events sent to the hub are those of the lines that report a
    hit and whose text is not among the last twenty thousand first-seen ones of
    its pod and decoy, in order. *)
Theorem forwarded_exact lines : no_collision (map fst (hits_of lines)) →
  forwarded (handle_all newWatcher lines) = told [] (hits_of lines).
Proof. apply handle_new. Qed.

Lemma told_covers hist hits key ev : (key, ev) ∈ hits → key ∈ hist ∨ ∃ ev', (key, ev') ∈ hits ∧ ev' ∈ told hist hits.
Proof.
  revert hist. induction hits as [|[k e] hits IH]; intros hist Hin; [by apply elem_of_nil in Hin|]. cbn [told].
  apply elem_of_cons in Hin as [[= -> ->]|Hin].
  - case_bool_decide as Hk.
    + left. by apply (last_n_in seenCap).
    + right. exists e. split; by left.
  - case_bool_decide as Hk.
    + destruct (IH hist Hin) as [?|(ev' & H1 & H2)]; [by left|right]. exists ev'. split; [by right|done].
    + destruct (IH (snoc hist k) Hin) as [[?|?%list_elem_of_singleton]%elem_of_app|(ev' & H1 & H2)]; [by left| |].
      * subst. right. exists e. split; by left.
      * right. exists ev'. split; by right.
Qed.

(** ** Logs that break off *)

(** Lines are written in the order of their times. *)
Definition in_order (log : list (Time * string)) : Prop := StronglySorted (λ x y : Time * string, (x.1 ≤ y.1)%Z) log.

(** Every try opened the log, and its connection lasted until it had given what was
    written by then. *)
Definition by_then (t : Time) (lines : list (Time * string)) : list (Time * string) := List.filter (λ l : Time * string, negb (After l.1 t)) lines.
Fixpoint caught_up (log : list (Time * string)) (since : option Time) (tries : list attempt) : Prop :=
  match tries with
  | [] => True
  | a :: tries =>
      (∃ got, at_got a = Some got ∧ (length (by_then (at_opened a) (stream_lines log since (at_started a))) ≤ got.1)%nat)
      ∧ caught_up log (Some (at_opened a)) tries
  end.

Lemma second_before t : (second_of t ≤ t)%Z.
Proof. unfold second_of, Second. pose proof (Z.mul_div_le t 1000000000). lia. Qed.

Lemma in_order_filter f log : in_order log → in_order (List.filter f log).
Proof.
  induction 1 as [|x log Hs IH Hx]; [constructor|]. cbn. destruct (f x); [|done]. constructor; [done|].
  apply Forall_forall. intros y [Hy _]%list_elem_of_In%filter_In. rewrite Forall_forall in Hx. by apply Hx, list_elem_of_In.
Qed.

Lemma in_order_drop n log : in_order log → in_order (drop n log).
Proof. intros H. revert n. induction H; intros [|n]; cbn; [constructor..|by constructor|done]. Qed.

Lemma stream_in_order log since started : in_order log → in_order (stream_lines log since started).
Proof.
  intros Ho. destruct since as [s|]; cbn [stream_lines]; [by apply in_order_filter|]. apply StronglySorted_app_2.
  - intros x y Hx [_ Hy]%list_elem_of_In%filter_In. apply subseteq_drop, list_elem_of_In, filter_In in Hx as [_ Hx]. unfold After in *. lia.
  - apply in_order_drop. by apply in_order_filter.
  - by apply in_order_filter.
Qed.

(** A line written by the opening comes through the scanner, if no line before it is
    too long. *)
Lemma scan_reaches offered (opened : Time) got x : in_order offered → x ∈ offered → (x.1 ≤ opened)%Z →
  (∀ y, y ∈ offered → (y.1 ≤ x.1)%Z → fits y.2 = true) → (length (by_then opened offered) ≤ got.1)%nat →
  x.2 ∈ Scan (received (map snd offered) got).
Proof.
  destruct got as [n k]. intros Ho. revert n. induction Ho as [|y log Hs IH Hy]; intros n Hx Ht Hf Hn; [by apply elem_of_nil in Hx|].
  assert (y.1 ≤ x.1)%Z as Hyx by (apply elem_of_cons in Hx as [->|Hx]; [apply Z.le_refl|rewrite Forall_forall in Hy; by apply Hy]).
  unfold by_then in Hn. cbn [List.filter] in Hn. assert (After y.1 opened = false) as E by (unfold After; apply Z.ltb_ge; lia). rewrite E in Hn. cbn [negb length fst] in Hn.
  destruct n as [|n]; [lia|]. change (received (map snd (y :: log)) (S n, k)) with (y.2 :: received (map snd log) (n, k)). cbn [Scan].
  rewrite Hf by (done || by left). apply elem_of_cons. apply elem_of_cons in Hx as [->|Hx]; [by left|right].
  apply IH; [done|done|intros z Hz; apply Hf; by right|cbn; unfold by_then; lia].
Qed.

Lemma follow_since log tries (since t last_opened : Time) line : in_order log → (∀ l, l ∈ log → (l.1 ≤ t)%Z → fits l.2 = true) →
  caught_up log (Some since) tries → (at_opened <$> last tries) = Some last_opened → (t, line) ∈ log → (since ≤ t ≤ last_opened)%Z →
  line ∈ follow log (Some since) tries.
Proof.
  intros Hord Hfit. revert since. induction tries as [|a tries IH]; intros since Hc Hl Hin Ht; [done|]. cbn [caught_up follow] in *.
  destruct Hc as [(got & Eg & Hgot) Hc]. rewrite Eg. apply elem_of_app. destruct (decide (t ≤ at_opened a)%Z) as [Hle|Hgt].
  - left. apply (scan_reaches _ (at_opened a) got (t, line)); [by apply stream_in_order| |done| |done].
    + apply list_elem_of_In, filter_In. split; [by apply list_elem_of_In|]. unfold Before. pose proof (second_before since). cbn. apply negb_true_iff, Z.ltb_ge. lia.
    + intros y [Hy _]%list_elem_of_In%filter_In. apply Hfit. by apply list_elem_of_In.
  - right. destruct tries as [|a' tries]; [cbn in Hl; injection Hl as <-; lia|]. apply IH; [done|done|done|lia].
Qed.

Lemma stream_from log since started x : x ∈ stream_lines log since started → x ∈ log.
Proof.
  rewrite !list_elem_of_In. destruct since as [s|]; cbn [stream_lines]; [by intros [? _]%filter_In|].
  rewrite in_app_iff, <-!list_elem_of_In. intros [H%subseteq_drop|H]; by apply list_elem_of_In, filter_In in H as [?%list_elem_of_In _].
Qed.

(** C40: for the log of a container that is not restarted, stamped in order by
    a clock that agrees with the operator's, as long as every try to open it
    succeeds, every stream lasts until it has given what was written by its
    opening, and no line up to the hit has a mebibyte or more: an event of the
    hit is handed to the queue for the hub, if the hit was written by the last
    opening and either after the first opening or among the last five hundred
    lines then, whatever lines of other pods come between, however streams
    break off later, in the middle of a line too, and provided no two of the
    lines' keys have the same SHA-256. *)
Theorem hits_kept log tg a tries lines (t last_opened : Time) line key ev :
  in_order log → (∀ l, l ∈ log → (l.1 ≤ t)%Z → fits l.2 = true) →
  caught_up log None (a :: tries) → (at_opened <$> last (a :: tries)) = Some last_opened →
  (t, line) ∈ log → (t ≤ last_opened)%Z → (at_opened a < t)%Z ∨ (t, line) ∈ stream_lines log None (at_started a) →
  hit_of tg line = Some (key, ev) → (∀ l, l ∈ follow log None (a :: tries) → (tg, l) ∈ lines) →
  no_collision (map fst (hits_of lines)) →
  ∃ ev', (key, ev') ∈ hits_of lines ∧ ev' ∈ forwarded (handle_all newWatcher lines).
Proof.
  intros Hord Hfit [(got & Eg & Hgot) Hc] Hl Hin Ht Hwhen Hhit Hlines Hnc. rewrite handle_new by done.
  destruct (told_covers [] (hits_of lines) key ev) as [?%elem_of_nil|?]; [|done|done].
  unfold hits_of. apply list_elem_of_omap. exists (tg, line). split; [|done]. apply Hlines. cbn [follow]. rewrite Eg. apply elem_of_app.
  destruct (decide (at_opened a < t)%Z) as [Hlt|Hge].
  - right. destruct tries as [|a' tries]; [cbn in Hl; injection Hl as <-; lia|]. apply (follow_since _ _ _ t last_opened); [done..|lia].
  - left. destruct Hwhen as [?|Hwhen]; [lia|]. apply (scan_reaches _ (at_opened a) got (t, line)); [by apply stream_in_order|done|cbn; lia| |done].
    intros y Hy%stream_from. by apply Hfit.
Qed.

(** ** The streams *)

(** Exactly the wanted pods are followed; a pod that was followed before keeps its
    stream. *)
Lemma streams_exact old want uid : next_streams old want !! uid = match want !! uid with
  | None => None | Some t => Some (default t (old !! uid)) end.
Proof.
  unfold next_streams. rewrite lookup_union, map_lookup_filter. destruct (want !! uid) as [t|] eqn:Ew.
  - destruct (old !! uid) as [t'|]; cbn; [rewrite option_guard_True; [done|by rewrite Ew]|done].
  - destruct (old !! uid) as [t'|]; cbn; [rewrite option_guard_False; [done|rewrite Ew; by intros []]|done].
Qed.
End Theorems.

(** ** Concrete runs *)

(** A decoder that takes the text of a line for the address of the visitor, and a
    digest that is the text. *)
Definition demo_event (action ip : string) : rawEvent :=
  {| E_Timestamp := ""; E_Server := "ssh"; E_SrcIP := ip; E_SrcPort := ""; E_DestIP := ""; E_DestPort := ""; E_Action := action; E_Status := "";
     E_Data := ""; E_Username := ""; E_Password := "" |}.
Definition demo_lib : HoneyLib :=
  {| json_event s := Some (demo_event "login" s); sha256_hex s := s; parse_RFC3339Nano _ := None; parse_layout_T _ := None;
     parse_layout_space _ := None; format_RFC3339Nano _ := "" |}.
Definition demo_target : target := {| g_id := "1"; g_name := "bastion"; g_namespace := "shop"; g_kind := "Deployment"; g_service := "ssh"; g_pod := "bastion-0" |}.

Section Runs.
Local Existing Instance demo_lib.

Definition demo_log : list (Time * string) := [(10 * Second, "{a}"); (25 * Second, "{b}"); (41 * Second, "{c}")]%Z.
(** The first stream gives one line, and breaks off within the second. *)
Definition demo_first : attempt := {| at_opened := (15 * Second)%Z; at_started := (15 * Second)%Z; at_got := Some (1, 2)%nat |}.
Definition demo_second : attempt := {| at_opened := (50 * Second)%Z; at_started := (50 * Second)%Z; at_got := Some (9, 0)%nat |}.
Definition demo_tries : list attempt := [demo_first; demo_second].
Definition demo_lines : list (target * string) := map (pair demo_target) (follow demo_log None demo_tries).

Lemma demo_no_collision lines : no_collision (map fst (hits_of lines)).
Proof. by intros a b _ _. Qed.

Lemma forwarded_exact_witness :
  demo_lines = map (pair demo_target) ["{a}"; "{b"; "{b}"; "{c}"]
  ∧ (E_SrcIP ∘ V_Raw) <$> forwarded (handle_all newWatcher demo_lines) = ["{a}"; "{b"; "{b}"; "{c}"].
Proof.
  split; [vm_compute; reflexivity|]. rewrite (forwarded_exact demo_lines (demo_no_collision demo_lines)). vm_compute. reflexivity.
Defined.

Lemma hits_kept_witness : ∃ key ev, hit_of demo_target "{b}" = Some (key, ev)
  ∧ ∃ ev', (key, ev') ∈ hits_of demo_lines ∧ ev' ∈ forwarded (handle_all newWatcher demo_lines).
Proof.
  eexists _, _. split; [reflexivity|].
  eapply (hits_kept demo_log demo_target demo_first [demo_second] demo_lines (25 * Second)%Z (50 * Second)%Z "{b}").
  - repeat constructor; vm_compute; discriminate.
  - intros l Hl _. repeat (apply elem_of_cons in Hl as [->|Hl]; [reflexivity|]). by apply elem_of_nil in Hl.
  - split; [exists (1, 2)%nat; split; [reflexivity|vm_compute; lia]|]. split; [exists (9, 0)%nat; split; [reflexivity|vm_compute; lia]|done].
  - reflexivity.
  - right. left.
  - unfold Second. lia.
  - left. cbn. unfold Second. lia.
  - reflexivity.
  - intros l Hl. unfold demo_lines. apply list_elem_of_fmap. by exists l.
  - apply demo_no_collision.
Defined.

(** A log that cannot be opened again at once: what was written since the stream
    broke off is not read. *)
Example failed_try_loses :
  let go opened got := {| at_opened := (opened * Second)%Z; at_started := (opened * Second)%Z; at_got := got |} in
  follow [(25 * Second, "{b}")]%Z None [go 5 (Some (0, 0)%nat); go 30 None; go 33 (Some (9, 0)%nat)]%Z = [].
Proof. reflexivity. Qed.

(** A stream that breaks off before it has given what was written by its opening:
    the rest is not read. *)
Example short_stream_loses :
  let go opened got := {| at_opened := (opened * Second)%Z; at_started := (opened * Second)%Z; at_got := got |} in
  follow [(25 * Second, "{b}")]%Z None [go 5 (Some (0, 0)%nat); go 30 (Some (0, 0)%nat); go 33 (Some (9, 0)%nat)]%Z = [].
Proof. reflexivity. Qed.

(** A line that does not fit ends every stream that meets it; what was written
    between it and the next opening is not read. *)
Lemma long_line_hides long : fits long = false →
  let go opened := {| at_opened := (opened * Second)%Z; at_started := (opened * Second)%Z; at_got := Some (9, 0)%nat |} in
  follow [(10 * Second, long); (12 * Second, "{b}")]%Z None [go 5; go 20; go 30; go 40]%Z = [].
Proof. intros H. cbv -[fits]. by rewrite H. Qed.
End Runs.
