(* ===== verification/PodCache.v ===== *)
(** * tracee-bridge/internal/k8s: which pod an event belongs to

    podcache.go, refresh.go and Server.enrich of internal/server/server.go. An
    event of a container is given the pod of the last list of pods, or one that
    was remembered for its container or process, or, at most every five seconds
    per pod, the answer of the API server.

    The workers enrich events beside each other and beside the refresh; [gap]
    is what the others did before a critical section. *)

From stdpp Require Import base list gmap strings.
From S2P Require Import Prelude GoStrings.
Local Open Scope string_scope.
Local Open Scope list_scope.
Local Open Scope go_scope.

Record PodInfo := { PodName : string; PI_Namespace : string; NodeName : string; PodUID : string; PodIP : string }.
Record learnedInfo := { li_info : PodInfo; li_at : Time }.

Record PodCache := {
  cache : gmap string PodInfo;
  learned : gmap string learnedInfo;
  pidCache : gmap Z learnedInfo;
  fallbackAt : gmap string Time;
  cs : bool;
}.

Definition learnedTTL : Duration := (10 * Minute)%Z.
Definition pidTTL : Duration := (5 * Minute)%Z.
Definition pidCacheMax : nat := Z.to_nat 20000.

Definition IsSystemNS (ns : string) : bool :=
  any (String.eqb ns) ["kube-system"; "kube-public"; "kube-node-lease"; "calico-system"; "cilium"; "cert-manager"; "monitoring"; "ingress-nginx"].

(** The caches of [New]; [client] says whether there is an API client. *)
Definition new_cache (client : bool) : PodCache := {| cache := ∅; learned := ∅; pidCache := ∅; fallbackAt := ∅; cs := client |}.

Definition set_cache (pc : PodCache) (c : gmap string PodInfo) : PodCache :=
  {| cache := c; learned := learned pc; pidCache := pidCache pc; fallbackAt := fallbackAt pc; cs := cs pc |}.
Definition set_learned (pc : PodCache) (l : gmap string learnedInfo) : PodCache :=
  {| cache := cache pc; learned := l; pidCache := pidCache pc; fallbackAt := fallbackAt pc; cs := cs pc |}.
Definition set_pids (pc : PodCache) (l : gmap Z learnedInfo) : PodCache :=
  {| cache := cache pc; learned := learned pc; pidCache := l; fallbackAt := fallbackAt pc; cs := cs pc |}.
Definition set_fallback (pc : PodCache) (f : gmap string Time) : PodCache :=
  {| cache := cache pc; learned := learned pc; pidCache := pidCache pc; fallbackAt := f; cs := cs pc |}.

(** ** Refresh *)

Definition shortID (id : string) : string := if (12 <? String.length id)%nat then stake 12 id else id.

Definition indexContainerID (m : gmap string PodInfo) (raw : string) (info : PodInfo) : gmap string PodInfo :=
  let id := match Index raw "://" with Some i => sdrop (i + 3) raw | None => raw end in
  if id != "" then <[shortID id := info]> m else m.

(** A pod with the identifiers of its containers and init containers. *)
Record listed_pod := { lp_info : PodInfo; lp_containers : list string; lp_init : list string }.

Definition index_pod (m : gmap string PodInfo) (p : listed_pod) : gmap string PodInfo :=
  fold_left (λ m raw, indexContainerID m raw (lp_info p)) (lp_containers p ++ lp_init p) m.

Definition young (ttl : Duration) (now : Time) (l : learnedInfo) : bool := negb (ttl <=? TSub now (li_at l))%Z.

Definition prune (pc : PodCache) (now : Time) : PodCache :=
  set_pids (set_learned pc (filter (λ kv, young learnedTTL now kv.2 = true) (learned pc)))
    (filter (λ kv, young pidTTL now kv.2 = true) (pidCache pc)).

Definition refresh (pc : PodCache) (pods : option (list listed_pod)) (now : Time) : PodCache :=
  if negb (cs pc) then pc
  else match pods with None => pc | Some pods => prune (set_cache pc (fold_left index_pod pods ∅)) now end.

(** ** Lookups *)

Definition Lookup (pc : PodCache) (containerID : string) (now : Time) : option PodInfo :=
  if containerID == "" then None
  else
    let key := shortID containerID in
    match cache pc !! key with
    | Some info => Some info
    | None => match learned pc !! key with Some l => if (TSub now (li_at l) <? learnedTTL)%Z then Some (li_info l) else None | None => None end
    end.

Fixpoint LookupPID (pc : PodCache) (pids : list Z) (now : Time) : option PodInfo :=
  match pids with
  | [] => None
  | pid :: pids =>
      if (pid <=? 0)%Z then LookupPID pc pids now
      else match pidCache pc !! pid with
           | Some l => if (TSub now (li_at l) <? pidTTL)%Z then Some (li_info l) else LookupPID pc pids now
           | None => LookupPID pc pids now
           end
  end.

Definition Remember (pc : PodCache) (containerID : string) (pid : Z) (info : PodInfo) (now : Time) : PodCache :=
  if PodUID info == "" then pc
  else
    let l := {| li_info := info; li_at := now |} in
    let pc := if containerID != "" then
                match cache pc !! shortID containerID with
                | Some _ => pc
                | None => set_learned pc (<[shortID containerID := l]> (learned pc))
                end
              else pc in
    if (0 <? pid)%Z then
      let m := if (pidCacheMax <=? size (pidCache pc))%nat then filter (λ kv, young pidTTL now kv.2 = true) (pidCache pc) else pidCache pc in
      set_pids pc (<[pid := l]> m)
    else pc.

Definition or_else (a b : string) : string := if a == "" then b else a.

(** [Apply]: the members of an event that are empty are filled in. *)
Definition Apply (info ev : PodInfo) : PodInfo :=
  {| PodName := or_else (PodName ev) (PodName info); PI_Namespace := or_else (PI_Namespace ev) (PI_Namespace info);
     NodeName := or_else (NodeName ev) (NodeName info); PodUID := or_else (PodUID ev) (PodUID info); PodIP := or_else (PodIP ev) (PodIP info) |}.

(** The critical section that lets a request to the API server through. *)
Definition allow_fallback (pc : PodCache) (key : string) (now : Time) : PodCache * bool :=
  if After now (default 0%Z (fallbackAt pc !! key)) then (set_fallback pc (<[key := TAdd now (5 * Second)%Z]> (fallbackAt pc)), true)
  else (pc, false).

Section Enrich.
Context {M : MapOrder}.

Definition named (podName namespace : string) (pc : PodCache) : option PodInfo :=
  List.find (λ c, (PodName c == podName) && (PI_Namespace c == namespace)) (map_order (map snd (map_to_list (cache pc)))).

(** What a worker gets from outside for an event: the clocks, the answer of the
    API server, and what the others did before each critical section. *)
Record surroundings := { clock : nat → Time; answer : option PodInfo; gap : nat → PodCache → PodCache }.

(** The pod, and whether the API server was asked. *)
Definition fallback (o : surroundings) (pc : PodCache) (containerID : string) (ev : PodInfo) : PodCache * option PodInfo * bool :=
  if cs pc && (PodName ev != "") && (PI_Namespace ev != "") then
    let '(pc, allowed) := allow_fallback (gap o 2 pc) (PI_Namespace ev +:+ "/" +:+ PodName ev) (clock o 1) in
    if allowed then
      match answer o with
      | Some info => (Remember (gap o 3 pc) containerID 0 info (clock o 2), Some info, true)
      | None => (pc, None, true)
      end
    else (pc, None, false)
  else (pc, None, false).

Definition Enrich (o : surroundings) (pc : PodCache) (containerID : string) (ev : PodInfo) : PodCache * PodInfo * bool :=
  let pc := gap o 0 pc in
  match Lookup pc containerID (clock o 0) with
  | Some info => (pc, Apply info ev, false)
  | None =>
      let pc := gap o 1 pc in
      match (if (PodName ev != "") && (PI_Namespace ev != "") then named (PodName ev) (PI_Namespace ev) pc else None) with
      | Some info => (pc, Apply info ev, false)
      | None =>
          let '(pc, info, asked) := fallback o pc containerID ev in
          (pc, match info with Some info => Apply info ev | None => ev end, asked)
      end
  end.

(** An event of the queue: its identity so far, its container and processes. *)
Record queueItem := { q_ev : PodInfo; q_node : string; q_ctx : string; q_pid : Z; q_tid : Z; q_ppid : Z }.

Definition with_node (node : string) (ev : PodInfo) : PodInfo :=
  {| PodName := PodName ev; PI_Namespace := PI_Namespace ev; NodeName := if (node != "") && (NodeName ev == "") then node else NodeName ev;
     PodUID := PodUID ev; PodIP := PodIP ev |}.

Definition enrich (o : surroundings) (pc : PodCache) (item : queueItem) : PodCache * PodInfo * bool :=
  let ev := with_node (q_node item) (q_ev item) in
  let '(pc, ev, asked) :=
    if (PodName ev == "") || (PI_Namespace ev == "") || (PodUID ev == "") || (PodIP ev == "") then Enrich o pc (q_ctx item) ev else (pc, ev, false) in
  let pc := gap o 4 pc in
  let ev := if PodUID ev == "" then
              match LookupPID pc [q_pid item; q_tid item; q_ppid item] (clock o 3) with Some info => Apply info ev | None => ev end
            else ev in
  if PodUID ev != "" then
    let pc := Remember (gap o 5 pc) (q_ctx item) (q_pid item) ev (clock o 4) in
    ((if (0 <? q_tid item)%Z && negb (q_tid item =? q_pid item)%Z then Remember (gap o 6 pc) "" (q_tid item) ev (clock o 5) else pc), ev, asked)
  else (pc, ev, asked).

(** ** Identities are known ones *)

(** [K] is what is known of pods: an identity is known when its UID is one the
    API server gave, or one an event carried, or there is none. *)
Record knows (K : string → Prop) (pc : PodCache) : Prop := {
  kn_cache : ∀ k i, cache pc !! k = Some i → K (PodUID i);
  kn_learned : ∀ k l, learned pc !! k = Some l → K (PodUID (li_info l));
  kn_pid : ∀ k l, pidCache pc !! k = Some l → K (PodUID (li_info l));
}.

Lemma knows_filter K pc (P : string * learnedInfo → Prop) (Q : Z * learnedInfo → Prop) `{!∀ x, Decision (P x), !∀ x, Decision (Q x)} :
  knows K pc → knows K (set_pids (set_learned pc (filter P (learned pc))) (filter Q (pidCache pc))).
Proof. intros [H1 H2 H3]. split; cbn; [done|..]; intros k l [Hl _]%map_lookup_filter_Some; eauto. Qed.

Lemma index_knows (K : string → Prop) pods m : (∀ p, p ∈ pods → K (PodUID (lp_info p))) → (∀ k i, m !! k = Some i → K (PodUID i)) →
  ∀ k i, fold_left index_pod pods m !! k = Some i → K (PodUID i).
Proof.
  revert m. induction pods as [|p pods IH]; intros m Hp Hm; [done|]. cbn [fold_left]. apply IH; [intros q Hq; apply Hp; by right|].
  assert (K (PodUID (lp_info p))) as Hk by (apply Hp; by left). unfold index_pod. revert m Hm. generalize (lp_containers p ++ lp_init p) as raws.
  intros raws. induction raws as [|raw raws IHr]; intros m Hm; [done|]. cbn [fold_left]. apply IHr. unfold indexContainerID. case_if; [|done].
  intros k i [[_ <-]|[_ H]]%lookup_insert_Some; [done|eauto].
Qed.

Lemma refresh_knows K pc pods now : knows K pc → (∀ l p, pods = Some l → p ∈ l → K (PodUID (lp_info p))) → knows K (refresh pc pods now).
Proof.
  intros Hk Hp. unfold refresh. case_if; [done|]. destruct pods as [pods|]; [|done]. apply knows_filter. destruct Hk as [_ H2 H3].
  split; cbn; [|done|done]. apply index_knows; [intros p; by apply (Hp pods)|intros k i; by rewrite lookup_empty].
Qed.

Lemma Remember_knows K pc ctx pid info now : knows K pc → K (PodUID info) → knows K (Remember pc ctx pid info now).
Proof.
  intros Hk Hi. unfold Remember. case_if; [done|].
  assert (knows K (if ctx != "" then match cache pc !! shortID ctx with Some _ => pc | None => set_learned pc (<[shortID ctx := {| li_info := info; li_at := now |}]> (learned pc)) end else pc)) as H.
  { case_if; [|done]. destruct (cache pc !! shortID ctx); [done|]. destruct Hk as [H1 H2 H3]. split; cbn; [done| |done].
    intros k l [[_ <-]|[_ H]]%lookup_insert_Some; [done|eauto]. }
  revert H. generalize (if ctx != "" then match cache pc !! shortID ctx with Some _ => pc | None => set_learned pc (<[shortID ctx := {| li_info := info; li_at := now |}]> (learned pc)) end else pc) as pc'.
  intros pc' [H1 H2 H3]. case_if; [|done]. split; cbn; [done|done|]. intros k l [[_ <-]|[_ H]]%lookup_insert_Some; [done|].
  revert H. case_if; [intros [H _]%map_lookup_filter_Some|]; eauto.
Qed.

Lemma Lookup_knows K pc ctx now info : knows K pc → Lookup pc ctx now = Some info → K (PodUID info).
Proof.
  intros [H1 H2 _]. unfold Lookup. case_if; [done|]. destruct (cache pc !! shortID ctx) eqn:E; [intros [= <-]; eauto|].
  destruct (learned pc !! shortID ctx) eqn:El; [|done]. case_if; [|done]. intros [= <-]. eauto.
Qed.

Lemma LookupPID_knows K pc pids now info : knows K pc → LookupPID pc pids now = Some info → K (PodUID info).
Proof.
  intros [_ _ H3]. induction pids as [|pid pids IH]; [done|]. cbn [LookupPID]. case_if; [done|].
  destruct (pidCache pc !! pid) eqn:E; [|done]. case_if; [|done]. intros [= <-]. eauto.
Qed.

Lemma Apply_knows (K : string → Prop) info ev : K (PodUID info) → K (PodUID ev) → K (PodUID (Apply info ev)).
Proof. intros H1 H2. unfold Apply, or_else. cbn. by case_if. Qed.

Lemma named_knows K pc a b info : knows K pc → named a b pc = Some info → K (PodUID info).
Proof.
  intros [H1 _ _] [Hin%list_elem_of_In _]%find_some. rewrite map_order_perm in Hin. apply list_elem_of_fmap in Hin as ([k i] & -> & H%elem_of_map_to_list). by apply (H1 k).
Qed.

Definition others_know (K : string → Prop) (o : surroundings) : Prop :=
  (∀ i pc, knows K pc → knows K (gap o i pc)) ∧ (∀ info, answer o = Some info → K (PodUID info)).

Lemma fallback_knows K o pc ctx ev : others_know K o → knows K pc →
  let r := fallback o pc ctx ev in knows K r.1.1 ∧ ∀ info, r.1.2 = Some info → K (PodUID info).
Proof.
  intros [Hg Ha] Hk. cbv zeta. unfold fallback. case_if; [|done]. unfold allow_fallback.
  assert (knows K (gap o 2 pc)) as Hk2 by by apply Hg. destruct (After _ _); [|done].
  set (pc' := set_fallback _ _). assert (knows K pc') as Hk' by (by destruct Hk2; split).
  destruct (answer o) as [info|] eqn:E; [|done]. cbn. split; [|intros i [= <-]; by apply Ha]. apply Remember_knows; [by apply Hg|by apply Ha].
Qed.

Lemma Enrich_knows K o pc ctx ev : others_know K o → knows K pc → K (PodUID ev) →
  let r := Enrich o pc ctx ev in knows K r.1.1 ∧ K (PodUID r.1.2).
Proof.
  intros Ho Hk He. cbv zeta. unfold Enrich. assert (knows K (gap o 0 pc)) as H0 by (by apply Ho).
  destruct (Lookup (gap o 0 pc) ctx (clock o 0)) eqn:El; [cbn [fst snd]; split; [done|apply Apply_knows; [by eapply Lookup_knows|done]]|].
  assert (knows K (gap o 1 (gap o 0 pc))) as H1 by (by apply Ho).
  destruct (if _ && _ then _ else None) as [info|] eqn:En.
  { cbn [fst snd]. split; [done|]. apply Apply_knows; [|done]. destruct (_ && _); [by eapply named_knows|done]. }
  destruct (fallback_knows K o (gap o 1 (gap o 0 pc)) ctx ev Ho H1) as [H2 H3].
  destruct (fallback o (gap o 1 (gap o 0 pc)) ctx ev) as [[pc' info] asked]. cbn in *. split; [done|].
  destruct info as [info|]; [|done]. apply Apply_knows; [by apply H3|done].
Qed.

(** The pod an event is given is known: its UID is one of the API server's or of
    an event's; and what the cache remembers stays so. *)
Lemma enrich_knows K o pc item : others_know K o → knows K pc → K (PodUID (q_ev item)) →
  let r := enrich o pc item in knows K r.1.1 ∧ K (PodUID r.1.2).
Proof.
  intros Ho Hk He. cbv zeta. unfold enrich. set (ev0 := with_node _ _).
  assert (∃ pc1 ev1 asked, (if (PodName ev0 == "") || (PI_Namespace ev0 == "") || (PodUID ev0 == "") || (PodIP ev0 == "") then Enrich o pc (q_ctx item) ev0 else (pc, ev0, false))
    = (pc1, ev1, asked) ∧ knows K pc1 ∧ K (PodUID ev1)) as (pc1 & ev1 & asked & -> & Hk1 & He1).
  { destruct (_ || _); [|by do 3 eexists]. destruct (Enrich_knows K o pc (q_ctx item) ev0 Ho Hk He) as [H1 H2].
    destruct (Enrich o pc (q_ctx item) ev0) as [[pc1 ev1] asked]. by do 3 eexists. }
  assert (knows K (gap o 4 pc1)) as Hk4 by (by apply Ho).
  set (ev := if PodUID ev1 == "" then _ else _). assert (K (PodUID ev)) as Hev.
  { unfold ev. case_if; [|done]. destruct (LookupPID _ _ _) eqn:E; [|done]. apply Apply_knows; [by eapply LookupPID_knows|done]. }
  destruct (PodUID ev != ""); [|done]. assert (knows K (Remember (gap o 5 (gap o 4 pc1)) (q_ctx item) (q_pid item) ev (clock o 4))) as H5.
  { apply Remember_knows; [by apply Ho|done]. }
  split; [|done]. cbn. case_if; [|done]. apply Remember_knows; [by apply Ho|done].
Qed.
End Enrich.

(** ** Runs *)

Inductive action := Refresh (pods : option (list listed_pod)) (now : Time) | Event (o : surroundings) (item : queueItem).

(** The UIDs of a run: none, one of a list of pods, an answer's or an event's
    own. *)
Definition given (acts : list action) (u : string) : Prop :=
  u = "" ∨ ∃ a, a ∈ acts ∧ match a with
    | Refresh pods _ => ∃ l p, pods = Some l ∧ p ∈ l ∧ u = PodUID (lp_info p)
    | Event o item => u = PodUID (q_ev item) ∨ ∃ info, answer o = Some info ∧ u = PodUID info
    end.

Section Runs.
Context {M : MapOrder}.

(** The identities given to the events, in order. *)
Fixpoint run (pc : PodCache) (acts : list action) : list PodInfo :=
  match acts with
  | [] => []
  | Refresh pods now :: acts => run (refresh pc pods now) acts
  | Event o item :: acts => let '(pc, ev, _) := enrich o pc item in ev :: run pc acts
  end.

Lemma run_knows (K : string → Prop) pc acts : knows K pc → (∀ u, given acts u → K u) →
  (∀ o item, Event o item ∈ acts → ∀ i pc, knows K pc → knows K (gap o i pc)) → ∀ ev, ev ∈ run pc acts → K (PodUID ev).
Proof.
  revert pc. induction acts as [|a acts IH]; intros pc Hk Hg Hgap ev Hin; [by apply elem_of_nil in Hin|].
  assert (∀ u, given acts u → K u) as Hg'.
  { intros u [->|(b & Hb & Hu)]; apply Hg; [by left|right]. exists b. split; [by right|done]. }
  assert (∀ o item, Event o item ∈ acts → ∀ i pc, knows K pc → knows K (gap o i pc)) as Hgap' by (intros o item H; apply (Hgap o item); by right).
  destruct a as [pods now|o item]; cbn [run] in Hin.
  - apply (IH (refresh pc pods now)); [|done..]. apply refresh_knows; [done|]. intros l p -> Hp. apply Hg. right. exists (Refresh (Some l) now).
    split; [by left|]. by exists l, p.
  - destruct (enrich_knows K o pc item) as [H1 H2]; [split|done| |].
    + apply (Hgap o item). by left.
    + intros info Ha. apply Hg. right. exists (Event o item). split; [by left|]. right. by exists info.
    + apply Hg. right. exists (Event o item). split; [by left|by left].
    + destruct (enrich o pc item) as [[pc' ev'] asked]. cbn in *. apply elem_of_cons in Hin as [->|Hin]; [done|by apply (IH pc')].
Qed.

Lemma new_knows K client : knows K (new_cache client).
Proof. split; cbn; intros k i; by rewrite lookup_empty. Qed.

(** Whatever the order of refreshes, events and what other workers do: the pod an
    event is given has a UID that the API server gave for a pod or that an event
    carried; the caches make up none. *)
Theorem identities_given client acts :
  (∀ o item, Event o item ∈ acts → ∀ i pc, knows (given acts) pc → knows (given acts) (gap o i pc)) →
  ∀ ev, ev ∈ run (new_cache client) acts → given acts (PodUID ev).
Proof. intros Hgap. apply run_knows; [apply new_knows|done|done]. Qed.
End Runs.

(** ** Requests to the API server *)

(** Calls of the critical section in the order they get the lock, by whichever
    worker and with whichever clock reading: those let through. *)
Fixpoint let_through (pc : PodCache) (calls : list (string * Time)) : list (string * Time) :=
  match calls with
  | [] => []
  | (key, now) :: calls =>
      let '(pc, allowed) := allow_fallback pc key now in if allowed then (key, now) :: let_through pc calls else let_through pc calls
  end.

Lemma let_through_after pc calls key (now : Time) : (key, now) ∈ let_through pc calls → (default 0 (fallbackAt pc !! key) < now)%Z.
Proof.
  revert pc. induction calls as [|[k t] calls IH]; intros pc Hin; [by apply elem_of_nil in Hin|]. cbn [let_through] in Hin. unfold allow_fallback in Hin.
  destruct (After t (default 0%Z (fallbackAt pc !! k))) eqn:E; [|by apply IH]. apply elem_of_cons in Hin as [[= -> ->]|Hin]; [unfold After in E; bool_hyps; done|].
  apply IH in Hin. cbn in Hin. destruct (decide (k = key)) as [->|Hne]; [|by rewrite lookup_insert_ne in Hin].
  rewrite lookup_insert_eq in Hin. cbn in Hin. unfold After in E. bool_hyps. unfold TAdd, Second in Hin. lia.
Qed.

(** The API server is asked about one pod at most every five seconds, however the
    workers and their clocks interleave. *)
Theorem fallback_paced pc calls i j key (t t' : Time) :
  (i < j)%nat → let_through pc calls !! i = Some (key, t) → let_through pc calls !! j = Some (key, t') → (t + 5 * Second < t')%Z.
Proof.
  revert pc i j. induction calls as [|[k now] calls IH]; intros pc i j Hij Hi Hj; [done|]. cbn [let_through] in *. unfold allow_fallback in *.
  destruct (After now (default 0%Z (fallbackAt pc !! k))) eqn:E; [|by apply (IH pc i j)].
  destruct j as [|j]; [lia|]. cbn in Hj. destruct i as [|i]; [|eapply (IH _ i j); [lia|exact Hi|exact Hj]].
  cbn in Hi. injection Hi as -> ->. apply list_elem_of_lookup_2, let_through_after in Hj. cbn in Hj. rewrite lookup_insert_eq in Hj. done.
Qed.

(** ** Limits that do not hold *)

(** A full table of processes whose entries are all young takes another one. *)
Lemma pid_cache_grows pc ctx pid info now : (0 < pid)%Z → PodUID info ≠ "" → pidCache pc !! pid = None →
  (∀ k l, pidCache pc !! k = Some l → young pidTTL now l = true) → size (pidCache (Remember pc ctx pid info now)) = S (size (pidCache pc)).
Proof.
  intros Hp Hu Hn Hy. unfold Remember. case_if; [done|]. apply Z.ltb_lt in Hp as ->. cbn [pidCache set_pids].
  assert (∀ pc', pidCache pc' = pidCache pc →
    size (<[pid := {| li_info := info; li_at := now |}]> (if (pidCacheMax <=? size (pidCache pc'))%nat then filter (λ kv, young pidTTL now kv.2 = true) (pidCache pc') else pidCache pc'))
    = S (size (pidCache pc))) as H.
  { intros pc' ->. replace (filter (λ kv, young pidTTL now kv.2 = true) (pidCache pc)) with (pidCache pc).
    - case_if; by apply map_size_insert_None.
    - symmetry. apply map_filter_id. intros k l Hl. by apply (Hy k). }
  apply H. case_if; [|done]. by destruct (cache pc !! shortID ctx).
Qed.

(** Nothing happens beside a worker, and all its clocks read the same. *)
Definition alone (now : Time) (ans : option PodInfo) : surroundings := {| clock _ := now; answer := ans; gap _ pc := pc |}.
Definition demo_info : PodInfo := {| PodName := "web-1"; PI_Namespace := "shop"; NodeName := "n1"; PodUID := "uid-1"; PodIP := "10.1.0.4" |}.
Definition no_info : PodInfo := {| PodName := ""; PI_Namespace := ""; NodeName := ""; PodUID := ""; PodIP := "" |}.
Definition demo_item (ev : PodInfo) (ctx : string) (pid : Z) : queueItem := {| q_ev := ev; q_node := ""; q_ctx := ctx; q_pid := pid; q_tid := 0; q_ppid := 0 |}.
Definition demo_pods : list listed_pod := [{| lp_info := demo_info; lp_containers := ["containerd://0123456789abcdef"]; lp_init := [] |}].
Definition demo_acts : list action :=
  [Refresh (Some demo_pods) Hour; Event (alone Hour None) (demo_item no_info "0123456789abcdef" 77);
   Event (alone (Hour + 4 * Minute)%Z None) (demo_item no_info "" 77)].

Lemma identities_given_witness : ∀ ev, ev ∈ run (M := keep_order) (new_cache true) demo_acts → given demo_acts (PodUID ev).
Proof.
  apply (identities_given (M := keep_order) true demo_acts). intros o item H i pc. unfold demo_acts in H.
  repeat (apply elem_of_cons in H as [H|H]; [try done; by injection H as -> ->|]). by apply elem_of_nil in H.
Defined.

Lemma fallback_paced_witness :
  let calls := [("shop/web-1", 10 * Second); ("shop/web-1", 12 * Second); ("shop/web-1", 16 * Second)]%Z in
  let_through (new_cache true) calls = [("shop/web-1", 10 * Second); ("shop/web-1", 16 * Second)]%Z ∧ (10 * Second + 5 * Second < 16 * Second)%Z.
Proof.
  split; [reflexivity|].
  apply (fallback_paced (new_cache true) [("shop/web-1", 10 * Second); ("shop/web-1", 12 * Second); ("shop/web-1", 16 * Second)]%Z 0 1 "shop/web-1"); [lia|reflexivity|reflexivity].
Defined.

(** A process is taken for one of the pod as long as it reports often enough: every
    lookup by process renews the entry, so a host process that got the number of
    a process of the pod stays in it far beyond the five minutes. *)
Example pid_identity_renewed :
  map PodUID (run (M := keep_order) (new_cache true)
    (Refresh (Some demo_pods) Hour :: Event (alone Hour None) (demo_item no_info "0123456789abcdef" 77)
     :: map (λ n, Event (alone (Hour + n * (4 * Minute))%Z None) (demo_item no_info "" 77)) [1; 2; 3; 4; 5]%Z))
  = replicate 6 "uid-1".
Proof. vm_compute. reflexivity. Qed.
